(* ===== verification/_CoqProject ===== *)
-Q . S2P
Prelude.v
Free.v
GoText.v
Json.v
JsonFacts.v
AdmissionJson.v
Sha256.v
Types.v
JsonSize.v
Kube.v
Contract.v
Server.v
Genesis.v
GenesisFacts.v
QueueReceipt.v
Effects.v
QueueLedger.v
QueueCodec.v
QueueOps.v
QueueSpec.v
ActiveLedger.v
Fixture.v
QueueTheorems.v
StrictTheorems.v
ReceiptTheorems.v
ActiveCodec.v
FairQueue.v
FairFacts.v
FairTheorems.v
ActiveOps.v
GrantOps.v
ActiveReads.v
ActiveSpec.v
ActiveWp.v
ActiveTheorems.v
Coordinator.v
Pump.v
PumpTheorems.v
PermitTheorems.v
HashRing.v
Pool.v
PoolTheorems.v
GoPath.v
Archive.v
ZipDirectory.v
Extract.v
ExtractFacts.v
ExtractTheorems.v
ValidateTheorems.v
GoTime.v
Permit.v
Drain.v
DrainTheorems.v
DrainWitness.v
Disposal.v
DisposalTheorems.v
ExecutionPlan.v
Executor.v
ExecutorFacts.v
ExecutorTheorems.v
ExecutorWitness.v
Manifest.v
BuildContract.v
BuildStatus.v
BuildResult.v
ControlPlane.v
RunnerExec.v
RunnerWitness.v
BuildController.v
Lifecycle.v
Reconcile.v
ControllerSpec.v
ReceiptFacts.v
ControllerFacts.v
ControllerSteps.v
ControllerReconcile.v
ControllerTheorems.v
System.v
Site.v
ControllerWitness.v
