(* ===== verification/Prelude.v ===== *)
(** * Kova: the admission plane, the build controller and the recovery procedures

    Kova builds container images on Kubernetes.  A build is a [KovaBuild] custom
    resource; a service admits builds through two ledgers kept in ConfigMaps, a
    controller runs one runner Pod per admitted build and verifies what it pushed,
    and a set of offline procedures recovers an installation whose state was lost.
    This library models that program in Rocq and proves what makes it correct.
    Paths below are relative to [src/internal].

    ** The program and how its parts interact

    - The HTTP service reserves a place in the queue ledger
      ([service/queueadmission]), records a queue receipt and creates the build.
    - The build controller ([service/buildcontroller]) reconciles each build:
      [Reconcile] reads it, and by its phase admits it, creates its runner Pod,
      submits the work, polls it, verifies its outputs, stops it or cleans it up.
      Capacity is a grant in the active ledger; grants and Pod Creates leave
      receipts ([service/recoveryreceipt]).
    - A pump wakes the build that may be admitted next; a coordinator keeps at most
      one fresh grant in progress in a process.
    - In Genesis mode ([service/admissiongenesis], [admissioncontract]) both ledgers
      belong to one installation with a fixed identity; every write is a JSON Patch
      that tests it, and every runner operation starts from direct reads.
    - Inside a runner, [source] unpacks the archive of a build and [scheduler]
      spreads its targets over BuildKit workers.
    - After a disaster, [service/recoverydrain] occupies every name of a stopped
      epoch under a signed permit ([service/recoverypermit]), and
      [service/recoverydisposal] disposes of its objects under a signed plan.

    ** How code becomes Rocq

    Go values are records and inductive types with the source's fields and
    constructors; maps are [gmap]s; strings are byte strings; machine integers are
    [Z] with their range checks and wrap-around written out.  A function that
    returns [(T, error)] returns [result T], one that returns [error] returns
    [option error], with the errors of [Prelude].  Code that talks to the outside is
    a finite tree of requests whose branches are the possible answers: [prog] over
    [api] (the Kubernetes API, in [Kube]) for the admission plane, and [free] over
    an interface of its own for the controller ([ctl]), the drain ([DirectAPI]), the
    executor ([ExecutionAPI]) and the file system of an extraction.  Contexts, the
    clock, randomness and goroutine channels are requests too, so a theorem about
    all runs assumes nothing of them.  Fields that are shared by pointer (worker
    slots, permits, the pump's leader-local state) are kept in an explicit store.

    ** Files

    Shared: [Prelude] (results, errors, lists, strings, tactics), [Free] (requests,
    runs, and a logic for requests in view of their history), [GoText], [GoPath],
    [GoTime] (the parts of the Go library used), [Json], [JsonFacts], [JsonSize]
    (a printer and a parser of JSON, their round trip and sizes), [Sha256], [Types]
    ([apis/kova/v1alpha1/types.go] and [service/config]), [Kube] (requests, the laws
    of the API server, weakest preconditions under interference, interleaving),
    [Server] and [Fixture] (a reference server and an installation on it).

    Admission plane:
    - [AdmissionJson]: [admissionjson/strict.go]; [Contract]: [admissioncontract];
      [Genesis], [GenesisFacts]: [service/admissiongenesis].
    - [QueueReceipt], [Effects]: [service/recoveryreceipt/queue.go], [effect.go].
    - [QueueLedger], [QueueOps], [QueueCodec], [QueueSpec]:
      [service/queueadmission/ledger.go], every operation of [Store], its codec and
      its abstract specification [ledger_step].
    - [ActiveLedger], [ActiveOps], [GrantOps], [ActiveCodec], [ActiveReads],
      [ActiveSpec], [ActiveWp]: [reservation.go], [grant_receipt.go],
      [pod_receipt.go] and [admission] of [service/buildcontroller], with the
      abstract specification [active_step].
    - [FairQueue], [FairFacts]: the pure decisions of [admission.go] and
      [queuepump.go]; [Pump]: [queuepump.go]; [Coordinator]:
      [admission_coordinator.go].
    - Theorems: [QueueTheorems], [StrictTheorems], [ReceiptTheorems],
      [FairTheorems], [ActiveTheorems], [PumpTheorems], [PermitTheorems].

    Build controller:
    - [Manifest] ([runner/manifest.go] and the Pod side of [pod_receipt.go]),
      [BuildContract] ([buildcontract], [buildobservation], [source/source.go]),
      [BuildStatus] (status and conditions), [BuildResult] ([service/buildresult]),
      [RunnerExec] ([service/runnerexec]), [RunnerWitness] ([genesis_witness.go]).
    - [ControlPlane] (the requests of the controller), [BuildController]
      ([status.go], [verification.go], [genesis_export.go]), [Lifecycle]
      ([genesis_stop.go] and Pod deletion), [Reconcile] ([lifecycle.go] and
      [Reconcile] of [controller.go]).
    - [ControllerSpec] (what may be requested, and when), [ControllerFacts],
      [ControllerSteps], [ControllerReconcile], [ReceiptFacts] (its proof),
      [ControllerTheorems]; [System] (all controllers together on the ledger);
      [Site] (a reference installation on which whole builds run by computation),
      [ControllerWitness].

    Runner side: [HashRing], [Pool], [PoolTheorems] ([scheduler]); [Archive],
    [ZipDirectory], [Extract], [ExtractFacts], [ExtractTheorems],
    [ValidateTheorems] ([source]).

    Recovery: [Permit] ([service/recoverypermit]); [Drain], [DrainTheorems],
    [DrainWitness] ([service/recoverydrain]); [Disposal], [ExecutionPlan],
    [Executor], [DisposalTheorems], [ExecutorFacts], [ExecutorTheorems],
    [ExecutorWitness] ([service/recoverydisposal]).

    ** What the theorems show

    - Ledgers.  Each request of each operation, whatever other clients do in
      between, leaves its ledger alone or is one abstract step of the version
      committed at that moment, and reported successes are true of a committed
      version ([store_operation_refines], [reconciler_operation_refines]).  From
      this: limits hold in every interleaving, a name has one owner, a grant has one
      Pod attempt, and nothing is removed before it is settled.  The codecs decide
      order-independent invariants and round trip within their size limits.
    - Controller.  Every request of a reconcile is allowed by [ControllerSpec] at
      the history it is issued at: status writes follow the life cycle (under Genesis
      when the cached and the direct reads agree; [stale_poll_reopens_build] shows what
      happens when the cache is stale), success is
      verified, only the exact own Pod is deleted, a Pod is created only for a
      recorded attempt of an admitted build, work is submitted only under a grant
      read just before, and capacity is released last.  The concurrent registry
      checks give the same result in every order.
    - System.  Any number of whole reconciles, interleaved request by request with
      each other and with all other clients, never overcommit, and a grant only
      advances until it is removed settled ([reconciles_never_overcommit],
      [system_grants_advance]).
    - Queue, pump and coordinator.  Decisions respect every limit and serve
      requesters in turn, the pump wakes exactly a build that admission would grant,
      its audit visits every grant, permits are exclusive and no wake-up is lost.
    - Runner side.  Extraction stays inside its root, within its budget, and is all
      or nothing; validation and the entry count decide their formats; no worker runs
      more than its concurrency, also across refreshes of the address list.
    - Recovery.  Every write of a drain and of an execution follows the checks that
      authorise it, at most one tombstone is created per name, calls and bytes stay
      within their reservation, and reports are true.

    ** Assumptions

    [ApiServer] states the documented behaviour of the Kubernetes API for
    ConfigMaps (resourceVersion compare-and-swap, JSON Patch tests, UID
    preconditions); [Server] satisfies it.  [External] (name validation, image
    digests), [ImageName], [ReceiptFormat] (one exported line, manifest digests),
    [PodTemplate] (the canonical digest of a Pod template), [Unstructured] (objects
    read with a dynamic client) and [ed25519.Verify] are parameters that stand for
    libraries; the witnesses instantiate them.  A controller read answers with the
    object it was asked for ([honest]).

    ** Bounds and fuel

    Retry loops carry the source's own attempt limits ([maxCASAttempts],
    [maxReservationCASAttempts]) and end in the busy error.  The JSON parser, the
    string scanners, [path] parents and [truncate] recurse on the length of their
    input plus one, which they consume at every step.  [fairRounds] has one round
    per queued build.  The walk of a zip directory has [maxEntries] + 1 rounds, after
    which the code itself stops; the ring order takes its fuel as an argument, and
    [HashRing] shows when one turn of the ring is enough.  An audit slice reads
    32 grants.  The copy limit of one byte beyond the budget and the entry limit are
    unbounded integers: the code's 64-bit ones wrap only for budgets of 2^63 - 1 bytes
    and more and for a negative limit, which it never sets (2 GiB, 100000 entries).  An execution of n targets issues at most 9 + 24 n calls.

    ** Not modelled

    The HTTP API, authentication and process wiring (they render requests and
    connect the parts above to client libraries), the registry client and its
    transport, the recovery inventory and the operator command (they list and print
    what the recovery files verify), batch builds, the local daemon and its store
    (they drive external processes, LMDB and log files), the Kubernetes client
    wrapper, the command line, configuration files, logging and metrics.  Telemetry
    of the modelled parts is left out, and error texts are shortened. *)
From stdpp Require Export base gmap strings list fin_maps sorting.
From Stdlib Require Export ZArith NArith Ascii String Lia.

#[export] Set Default Goal Selector "!".

Create HintDb kova.

(** ** Results of Go functions that return [(value, error)] *)

(** [ReasonForError] values of [k8s.io/apimachinery] that the code tests. *)
Inductive api_reason :=
| NotFound | AlreadyExists | Conflict | TooManyRequests
| Forbidden | Invalid | BadRequest | Unauthorized
| OtherStatus (code : Z).

(** Go error values.  [Sentinel] is an [errors.New] package variable, [Plain]
    an unnamed [fmt.Errorf] without [%w], [Wrap] one with a single [%w] and
    [Join] [errors.Join] or [fmt.Errorf] with two [%w].  [ApiErr] is a status
    returned by the API server, [Transport] any client-side failure after which
    the outcome of the request is unknown, [CtxErr] a cancelled context. *)
Inductive error :=
| ApiErr (r : api_reason)
| Transport (msg : string)
| CtxErr
| Sentinel (name : string)
| Plain (msg : string)
| Wrap (msg : string) (e : error)
| Join (e1 e2 : error).

#[export] Instance api_reason_eq_dec : EqDecision api_reason.
Proof. solve_decision. Defined.
#[export] Instance error_eq_dec : EqDecision error.
Proof. solve_decision. Defined.

Inductive result (A : Type) :=
| Ok (a : A)
| Err (e : error).
Arguments Ok {A} a.
Arguments Err {A} e.

Definition is_ok {A} (r : result A) : bool :=
  match r with Ok _ => true | Err _ => false end.

Definition is_nil (e : option error) : bool :=
  match e with None => true | Some _ => false end.

(** [errors.Is(e, target)] for a package-level [errors.New] variable. *)
Fixpoint errors_Is (e : error) (target : string) : bool :=
  match e with
  | Sentinel n => bool_decide (n = target)
  | Wrap _ e' => errors_Is e' target
  | Join e1 e2 => errors_Is e1 target || errors_Is e2 target
  | _ => false
  end.

(** [errors.As(e, &APIStatus)]: the first status in the wrapped tree. *)
Fixpoint as_api (e : error) : option api_reason :=
  match e with
  | ApiErr r => Some r
  | Wrap _ e' => as_api e'
  | Join e1 e2 => match as_api e1 with Some r => Some r | None => as_api e2 end
  | _ => None
  end.

Definition api_is (r : api_reason) (e : error) : bool :=
  bool_decide (as_api e = Some r).
Definition IsNotFound := api_is NotFound.
Definition IsConflict := api_is Conflict.
Definition IsAlreadyExists := api_is AlreadyExists.
Definition IsTooManyRequests := api_is TooManyRequests.
Definition IsForbidden := api_is Forbidden.
Definition IsInvalid := api_is Invalid.
Definition IsBadRequest := api_is BadRequest.
Definition IsUnauthorized := api_is Unauthorized.

(** HTTP code of a status error; [Invalid] is 422. *)
Definition status_code (e : error) : option Z :=
  match as_api e with
  | Some NotFound => Some 404%Z
  | Some AlreadyExists | Some Conflict => Some 409%Z
  | Some TooManyRequests => Some 429%Z
  | Some Forbidden => Some 403%Z
  | Some Invalid => Some 422%Z
  | Some BadRequest => Some 400%Z
  | Some Unauthorized => Some 401%Z
  | Some (OtherStatus c) => Some c
  | None => None
  end.

(** ** Go strings: byte sequences *)

Definition slen (s : string) : Z := Z.of_nat (String.length s).

Definition byte_of (c : ascii) : N := N_of_ascii c.

Fixpoint str_forallb (f : ascii -> bool) (s : string) : bool :=
  match s with
  | EmptyString => true
  | String c r => f c && str_forallb f r
  end.

Fixpoint str_drop (n : nat) (s : string) : string :=
  match n, s with
  | S n', String _ r => str_drop n' r
  | _, _ => s
  end.

Definition HasPrefix (s p : string) : bool := String.prefix p s.
Definition TrimPrefix (s p : string) : string :=
  if HasPrefix s p then str_drop (String.length p) s else s.

(** [m[k]] on a [map[string]string]: the empty string when absent. *)
Definition mget (m : gmap string string) (k : string) : string :=
  default EmptyString (m !! k).

Definition sempty (s : string) : bool := bool_decide (s = EmptyString).
Definition seqb (s t : string) : bool := bool_decide (s = t).

(** Byte-wise comparison, the order of [<] on Go strings and of [sort.Strings]. *)
Fixpoint str_ltb (s t : string) : bool :=
  match s, t with
  | EmptyString, EmptyString => false
  | EmptyString, String _ _ => true
  | String _ _, EmptyString => false
  | String a s', String b t' =>
      if (byte_of a <? byte_of b)%N then true
      else if (byte_of b <? byte_of a)%N then false
      else str_ltb s' t'
  end.

(** ** Tactics *)

(** Turns boolean connectives and [bool_decide]s in the context into Props. *)
Ltac bool_simpl :=
  repeat match goal with
  | H : _ && _ = true |- _ => apply andb_true_iff in H as [? ?]
  | H : _ || _ = false |- _ => apply orb_false_iff in H as [? ?]
  | H : negb _ = true |- _ => apply negb_true_iff in H
  | H : negb _ = false |- _ => apply negb_false_iff in H
  | H : bool_decide _ = true |- _ => apply bool_decide_eq_true in H
  | H : bool_decide _ = false |- _ => apply bool_decide_eq_false in H
  | H : (_ <? _)%Z = true |- _ => apply Z.ltb_lt in H
  | H : (_ <? _)%Z = false |- _ => apply Z.ltb_ge in H
  | H : (_ <=? _)%Z = true |- _ => apply Z.leb_le in H
  | H : (_ <=? _)%Z = false |- _ => apply Z.leb_gt in H
  | H : (_ =? _)%Z = true |- _ => apply Z.eqb_eq in H
  | H : (_ =? _)%Z = false |- _ => apply Z.eqb_neq in H
  | H : (_ >? _)%Z = true |- _ => rewrite Z.gtb_ltb in H
  | H : (_ >? _)%Z = false |- _ => rewrite Z.gtb_ltb in H
  | H : (_ >=? _)%Z = true |- _ => rewrite Z.geb_leb in H
  | H : (_ >=? _)%Z = false |- _ => rewrite Z.geb_leb in H
  | H : sempty _ = true |- _ => unfold sempty in H
  | H : sempty _ = false |- _ => unfold sempty in H
  | H : seqb _ _ = true |- _ => unfold seqb in H
  | H : seqb _ _ = false |- _ => unfold seqb in H
  | H : is_true _ |- _ => unfold is_true in H
  end.

(** ** Generic lemmas *)

Lemma append_cons c (s t : string) : String c s +:+ t = String c (s +:+ t).
Proof. done. Qed.

Lemma length_append (s t : string) :
  String.length (s +:+ t) = String.length s + String.length t.
Proof. induction s as [|c s IH]; simpl; [done|]. by rewrite IH. Qed.

Lemma slen_append (s t : string) : slen (s +:+ t) = (slen s + slen t)%Z.
Proof. unfold slen. rewrite length_append. lia. Qed.

Lemma slen_nonneg s : (0 <= slen s)%Z.
Proof. unfold slen. lia. Qed.

Lemma append_nil_r (s : string) : s +:+ "" = s.
Proof. induction s as [|c s IH]; [done|]. by rewrite append_cons, IH. Qed.

Lemma append_assoc (s t u : string) : (s +:+ t) +:+ u = s +:+ (t +:+ u).
Proof. induction s as [|c s IH]; [done|]. by rewrite !append_cons, IH. Qed.

Lemma str_drop_length n s :
  String.length (str_drop n s) = String.length s - n.
Proof.
  revert s. induction n as [|n IH]; intros [|c s]; simpl; try lia.
  apply IH.
Qed.

Lemma str_drop_append s t : str_drop (String.length s) (s +:+ t) = t.
Proof. induction s as [|c s IH]; simpl; [by destruct t|done]. Qed.

Lemma TrimPrefix_append p t :
  HasPrefix (p +:+ t) p = true /\ TrimPrefix (p +:+ t) p = t.
Proof.
  assert (H : HasPrefix (p +:+ t) p = true).
  { unfold HasPrefix. induction p as [|c p IH]; simpl; [by destruct t|].
    destruct (ascii_dec c c); [done|congruence]. }
  split; [done|]. unfold TrimPrefix. rewrite H. apply str_drop_append.
Qed.

Lemma HasPrefix_inv s p : HasPrefix s p = true -> exists t, s = p +:+ t.
Proof.
  unfold HasPrefix. revert s. induction p as [|c p IH]; intros s H; [by exists s|].
  destruct s as [|d s]; simpl in H; [done|].
  destruct (ascii_dec c d) as [->|]; [|done].
  destruct (IH _ H) as [t ->]. by exists t.
Qed.

Lemma str_ltb_irrefl s : str_ltb s s = false.
Proof.
  induction s as [|c s IH]; simpl; [done|].
  by rewrite N.ltb_irrefl.
Qed.

Lemma byte_of_inj a b : byte_of a = byte_of b -> a = b.
Proof.
  unfold byte_of. intros H.
  by rewrite <- (ascii_N_embedding a), <- (ascii_N_embedding b), H.
Qed.

Lemma str_ltb_total s t : str_ltb s t = false -> str_ltb t s = false -> s = t.
Proof.
  revert t. induction s as [|a s IH]; intros [|b t] H1 H2; simpl in *; try done.
  destruct (N.ltb_spec (byte_of a) (byte_of b)); [done|].
  destruct (N.ltb_spec (byte_of b) (byte_of a)); [done|].
  assert (a = b) as -> by (apply byte_of_inj; lia).
  by rewrite (IH t).
Qed.

Lemma str_ltb_trans s t u :
  str_ltb s t = true -> str_ltb t u = true -> str_ltb s u = true.
Proof.
  revert t u. induction s as [|a s IH]; intros [|b t] [|c u] H1 H2; simpl in *; try done.
  destruct (N.ltb_spec (byte_of a) (byte_of b)), (N.ltb_spec (byte_of b) (byte_of a)),
    (N.ltb_spec (byte_of b) (byte_of c)), (N.ltb_spec (byte_of c) (byte_of b)),
    (N.ltb_spec (byte_of a) (byte_of c)), (N.ltb_spec (byte_of c) (byte_of a));
    try done; try lia.
  by apply (IH t).
Qed.

Lemma str_ltb_asym s t : str_ltb s t = true -> str_ltb t s = false.
Proof.
  intros H. destruct (str_ltb t s) eqn:E; [|done].
  pose proof (str_ltb_trans _ _ _ H E) as F. by rewrite str_ltb_irrefl in F.
Qed.

(** ** Maps in key order: how [encoding/json] visits a Go map *)

Definition entry_le {V} (x y : string * V) : Prop := str_ltb (fst y) (fst x) = false.
#[export] Instance entry_le_dec {V} (x y : string * V) : Decision (entry_le x y) :=
  decide (str_ltb (fst y) (fst x) = false).
#[export] Instance entry_le_total {V} : Total (@entry_le V).
Proof.
  intros x y. unfold entry_le. destruct (str_ltb (fst y) (fst x)) eqn:E; [|by left].
  right. by apply str_ltb_asym.
Qed.

Definition sorted_entries {V} (m : gmap string V) : list (string * V) :=
  merge_sort entry_le (map_to_list m).

Lemma sorted_entries_perm {V} (m : gmap string V) : sorted_entries m ≡ₚ map_to_list m.
Proof. apply merge_sort_Permutation. Qed.

Lemma sorted_entries_map {V} (m : gmap string V) : list_to_map (sorted_entries m) = m.
Proof.
  rewrite (list_to_map_proper _ (map_to_list m)); [apply list_to_map_to_list| |apply sorted_entries_perm].
  rewrite sorted_entries_perm. apply NoDup_fst_map_to_list.
Qed.

Lemma sorted_entries_nodup {V} (m : gmap string V) : NoDup (sorted_entries m).*1.
Proof. rewrite sorted_entries_perm. apply NoDup_fst_map_to_list. Qed.

Lemma elem_of_sorted_entries {V} (m : gmap string V) k v :
  (k, v) ∈ sorted_entries m <-> m !! k = Some v.
Proof. rewrite sorted_entries_perm. apply elem_of_map_to_list. Qed.
