(* ===== verification/Free.v ===== *)
(** * Programs over an interface, and their runs

    A component that talks to an external service through a Go interface is a
    program over the requests of that interface.  [fruns p tr a] holds when [p]
    issued exactly the requests of [tr], was answered as [tr] records, and returned
    [a]; every answer is possible, so a theorem about all runs assumes nothing of
    the service, of other clients, or of the clock. *)
From S2P Require Import Prelude.

Inductive free (E : Type -> Type) (A : Type) : Type :=
| Done (a : A)
| Ask {X : Type} (e : E X) (k : X -> free E A).
Arguments Done {E A} a.
Arguments Ask {E A X} e k.

Fixpoint fbind {E A B} (p : free E A) (f : A -> free E B) : free E B :=
  match p with
  | Done a => f a
  | Ask e k => Ask e (fun x => fbind (k x) f)
  end.
Definition fcall {E : Type -> Type} {X} (e : E X) : free E X := Ask e Done.

Declare Scope free_scope.
Delimit Scope free_scope with free.
Notation "'let+' x := p 'in' q" := (fbind p (fun x => q))
  (at level 10, x pattern, p at level 100, q at level 200) : free_scope.
(** [if err := p; err != nil { return onerr(err) }]. *)
Notation "'chk+' p 'else' f 'in' q" := (fbind p (fun e => match e with Some err => f err | None => q end))
  (at level 10, p at level 100, f at level 100, q at level 200) : free_scope.
Open Scope free_scope.

(** ** Traces *)

Definition exchange (E : Type -> Type) : Type := { X : Type & (E X * X)%type }.
Definition asked {E : Type -> Type} {X} (e : E X) (x : X) : exchange E := existT X (e, x).

Fixpoint fruns {E A} (p : free E A) (tr : list (exchange E)) (a : A) : Prop :=
  match p with
  | Done b => tr = [] /\ a = b
  | Ask e k => exists x tr', tr = asked e x :: tr' /\ fruns (k x) tr' a
  end.

Section runs.
Context {E : Type -> Type}.
Implicit Types tr : list (exchange E).

Lemma fruns_done {A} (a b : A) tr : fruns (Done (E:=E) a) tr b -> tr = [] /\ b = a.
Proof. done. Qed.

Lemma fruns_call {X} (e : E X) tr x : fruns (fcall e) tr x -> tr = [asked e x].
Proof. by intros (y & tr' & -> & -> & ->). Qed.

Lemma fruns_bind {A B} (p : free E A) (f : A -> free E B) tr b :
  fruns (fbind p f) tr b -> exists tr1 a tr2, tr = tr1 ++ tr2 /\ fruns p tr1 a /\ fruns (f a) tr2 b.
Proof.
  revert tr. induction p as [a|X e k IH]; intros tr; simpl.
  - intros Hr. by exists [], a, tr.
  - intros (x & tr' & -> & Hr). apply IH in Hr as (tr1 & a & tr2 & -> & H1 & H2).
    exists (asked e x :: tr1), a, tr2. split; [done|]. split; [|done]. by exists x, tr1.
Qed.

(** Executing a program against a server with a state. *)
Fixpoint fexec {S A} (serve : forall X, E X -> S -> X * S) (p : free E A) (s : S) : list (exchange E) * A * S :=
  match p with
  | Done a => ([], a, s)
  | Ask e k => let '(x, s1) := serve _ e s in let '(tr, a, s2) := fexec serve (k x) s1 in (asked e x :: tr, a, s2)
  end.

Lemma fexec_runs {S A} serve (p : free E A) (s : S) : fruns p (fexec serve p s).1.1 (fexec serve p s).1.2.
Proof.
  revert s. induction p as [a|X e k IH]; intros s; simpl; [done|]. destruct (serve X e s) as [x s1]. specialize (IH x s1).
  destruct (fexec serve (k x) s1) as [[tr a] s2]. by exists x, tr.
Qed.

(** ** Counting requests *)

Definition count (p : exchange E -> bool) (tr : list (exchange E)) : nat := List.length (List.filter p tr).

Lemma count_app p tr1 tr2 : count p (tr1 ++ tr2) = count p tr1 + count p tr2.
Proof. unfold count. by rewrite List.filter_app, length_app. Qed.

Lemma count_nil p : count p [] = 0.
Proof. done. Qed.

Lemma count_cons p x tr : count p (x :: tr) = (if p x then 1 else 0) + count p tr.
Proof. unfold count. simpl. by destruct (p x). Qed.

Lemma count_perm p tr tr' : tr ≡ₚ tr' -> count p tr = count p tr'.
Proof. induction 1; rewrite ?count_cons; lia. Qed.

Lemma count_all p tr : Forall (fun x => p x = false) tr -> count p tr = 0.
Proof. induction 1 as [|x tr Hx _ IH]; [done|]. by rewrite count_cons, Hx, IH. Qed.

(** ** Properties of every exchange in view of the exchanges before it *)

Fixpoint follows (P : list (exchange E) -> exchange E -> Prop) (past tr : list (exchange E)) : Prop :=
  match tr with
  | [] => True
  | x :: r => P past x /\ follows P (past ++ [x]) r
  end.

Lemma follows_app P past tr1 tr2 : follows P past tr1 -> follows P (past ++ tr1) tr2 -> follows P past (tr1 ++ tr2).
Proof.
  revert past. induction tr1 as [|x tr1 IH]; intros past H1 H2; simpl.
  { by rewrite app_nil_r in H2. }
  destruct H1 as [Hx H1]. split; [done|]. apply IH; [done|]. by rewrite <- app_assoc.
Qed.

Lemma follows_all P past tr : Forall (fun x => forall past, P past x) tr -> follows P past tr.
Proof. intros Hr. revert past. induction Hr as [|x tr Hx _ IH]; intros past; simpl; [done|]. split; [apply Hx|apply IH]. Qed.

Lemma follows_at P past tr pre x post : follows P past tr -> tr = pre ++ x :: post -> P (past ++ pre) x.
Proof.
  intros Hd ->. revert past Hd. induction pre as [|y pre IH]; intros past [Hx Hd].
  { by rewrite app_nil_r. }
  specialize (IH (past ++ [y]) Hd). by rewrite <- app_assoc in IH.
Qed.
End runs.

#[global] Arguments fruns : simpl never.

Ltac free_step :=
  match goal with
  | H : fruns (fbind _ _) _ _ |- _ => apply fruns_bind in H as (? & ? & ? & -> & ? & ?)
  | H : fruns (fcall _) _ _ |- _ => apply fruns_call in H as ->
  | H : fruns (Done _) _ _ |- _ => let E := fresh "E" in destruct H as [-> E]; simplify_eq/=
  | H : fruns (match ?x with _ => _ end) _ _ |- _ => let E := fresh "E" in destruct x eqn:E
  end.

(** The first part of a sequence: its trace, its result and its run. *)
Ltac free_bind H tr x Hp := apply fruns_bind in H as (tr & x & ? & -> & Hp & H).

(** * A program logic for requests in view of their history

    [safe P A h p Q]: after the history [h], every request of [p] satisfies [P] at
    the history it is issued at, whatever answers within [A] it gets, and when [p]
    returns, [Q] holds of the final history and the result. *)
Section guarded.
Context {E : Type -> Type}.
Notation hist := (list (exchange E)).
Context (P : hist -> forall X, E X -> Prop) (A : forall X, E X -> X -> Prop).

Fixpoint safe {B} (h : hist) (p : free E B) (Q : hist -> B -> Prop) : Prop :=
  match p with
  | Done b => Q h b
  | Ask e k => P h _ e /\ forall x, A _ e x -> safe (h ++ [asked e x]) (k x) Q
  end.

Lemma safe_mono {B} h (p : free E B) (Q Q' : hist -> B -> Prop) :
  safe h p Q -> (forall h' b, h `prefix_of` h' -> Q h' b -> Q' h' b) -> safe h p Q'.
Proof.
  revert h. induction p as [b|X e k IH]; intros h; simpl.
  - intros HQ Hi. apply Hi; [done|]. done.
  - intros [He Hk] Hi. split; [done|]. intros x Hx. apply IH; [by apply Hk|]. intros h' b Hp. apply Hi.
    etrans; [|done]. by eexists.
Qed.

Lemma safe_bind {B C} h (p : free E B) (f : B -> free E C) (R : hist -> B -> Prop) (Q : hist -> C -> Prop) :
  safe h p R -> (forall h' b, h `prefix_of` h' -> R h' b -> safe h' (f b) Q) -> safe h (fbind p f) Q.
Proof.
  revert h. induction p as [b|X e k IH]; intros h; simpl.
  - intros HR Hf. by apply Hf.
  - intros [He Hk] Hf. split; [done|]. intros x Hx. apply IH; [by apply Hk|]. intros h' b Hp. apply Hf.
    etrans; [|done]. by eexists.
Qed.

Lemma safe_call {X} h (e : E X) (Q : hist -> X -> Prop) :
  P h X e -> (forall x, A X e x -> Q (h ++ [asked e x]) x) -> safe h (fcall e) Q.
Proof. done. Qed.

Lemma safe_done {B} h (b : B) (Q : hist -> B -> Prop) : Q h b -> safe h (Done b) Q.
Proof. done. Qed.

(** A request followed by the rest of the program. *)
Lemma safe_ask {X B} h (e : E X) (f : X -> free E B) (Q : hist -> B -> Prop) :
  P h X e -> (forall x, A X e x -> safe (h ++ [asked e x]) (f x) Q) -> safe h (fbind (fcall e) f) Q.
Proof. done. Qed.

(** The rest of the program as the postcondition of its first part. *)
Lemma safe_seq {B C} h (p : free E B) (f : B -> free E C) (Q : hist -> C -> Prop) :
  safe h p (fun h' b => safe h' (f b) Q) -> safe h (fbind p f) Q.
Proof. intros Hp. eapply safe_bind; [done|]. auto. Qed.

(** The exchanges of a run obey the guard. *)
Definition allowed (h : hist) (x : exchange E) : Prop := P h _ (fst (projT2 x)).
Definition answered (x : exchange E) : Prop := A _ (fst (projT2 x)) (snd (projT2 x)).

Lemma safe_runs {B} h (p : free E B) (Q : hist -> B -> Prop) tr b :
  safe h p Q -> fruns p tr b -> Forall answered tr -> follows allowed h tr /\ Q (h ++ tr) b.
Proof.
  revert h tr. induction p as [a|X e k IH]; intros h tr; simpl.
  - intros HQ [-> ->] _. by rewrite app_nil_r.
  - intros [He Hk] (x & tr' & -> & Hr) HA. inversion HA as [|? ? Hx HA']; subst.
    destruct (IH x (h ++ [asked e x]) tr') as [Hf HQ]; [by apply Hk|done|done|].
    rewrite <- app_assoc in HQ. by split.
Qed.
End guarded.

#[global] Arguments safe : simpl never.
