(* ===== verification/GoText.v ===== *)
(** * Go text helpers

    The parts of Go's [unicode/utf8], [encoding/hex] and [strconv] that the
    modelled packages use, on strings read as byte sequences. *)
From S2P Require Import Prelude.

Local Open Scope N_scope.

(** ** [unicode/utf8] *)

Definition in_range (lo hi : N) (c : ascii) : bool :=
  (lo <=? byte_of c) && (byte_of c <=? hi).
Definition cont (c : ascii) : bool := in_range 128 191 c.

(** Size of the well-formed UTF-8 sequence at the head of [s]; [None] at an
    invalid one.  The accept ranges are those of [utf8.DecodeRune]. *)
Definition rune_size (s : string) : option nat :=
  match s with
  | EmptyString => None
  | String a r =>
      if byte_of a <? 128 then Some 1%nat
      else match r with
      | EmptyString => None
      | String b r2 =>
          if in_range 194 223 a then (if cont b then Some 2%nat else None)
          else match r2 with
          | EmptyString => None
          | String c r3 =>
              if in_range 224 239 a then
                let ok := if byte_of a =? 224 then in_range 160 191 b
                          else if byte_of a =? 237 then in_range 128 159 b
                          else cont b in
                if ok && cont c then Some 3%nat else None
              else match r3 with
              | EmptyString => None
              | String d _ =>
                  if in_range 240 244 a then
                    let ok := if byte_of a =? 240 then in_range 144 191 b
                              else if byte_of a =? 244 then in_range 128 143 b
                              else cont b in
                    if ok && cont c && cont d then Some 4%nat else None
                  else None
              end
          end
      end
  end.

(** [utf8.ValidString] with [fuel] at least the length. *)
Fixpoint valid_utf8_fuel (fuel : nat) (s : string) : bool :=
  match fuel, s with
  | _, EmptyString => true
  | O, _ => false
  | S fuel', _ =>
      match rune_size s with
      | Some n => valid_utf8_fuel fuel' (str_drop n s)
      | None => false
      end
  end.
Definition ValidString (s : string) : bool := valid_utf8_fuel (String.length s) s.

(** [utf8.RuneCountInString]: an invalid byte counts as one rune. *)
Fixpoint rune_count_fuel (fuel : nat) (s : string) : Z :=
  match fuel, s with
  | _, EmptyString => 0%Z
  | O, _ => 0%Z
  | S fuel', _ =>
      (1 + rune_count_fuel fuel' (str_drop (default 1%nat (rune_size s)) s))%Z
  end.
Definition RuneCountInString (s : string) : Z := rune_count_fuel (String.length s) s.

(** The code point at the head of [s]; the replacement rune at an invalid byte. *)
Definition rune_at (s : string) : N :=
  match rune_size s, s with
  | Some 1%nat, String a _ => byte_of a
  | Some 2%nat, String a (String b _) => (byte_of a - 192) * 64 + (byte_of b - 128)
  | Some 3%nat, String a (String b (String c _)) =>
      (byte_of a - 224) * 4096 + (byte_of b - 128) * 64 + (byte_of c - 128)
  | Some 4%nat, String a (String b (String c (String d _))) =>
      (byte_of a - 240) * 262144 + (byte_of b - 128) * 4096 + (byte_of c - 128) * 64 + (byte_of d - 128)
  | _, _ => 65533
  end.

(** [for _, r := range s]: every rune satisfies [p]. *)
Fixpoint forall_runes_fuel (fuel : nat) (p : N -> bool) (s : string) : bool :=
  match fuel, s with
  | _, EmptyString => true
  | O, _ => true
  | S fuel', _ => p (rune_at s) && forall_runes_fuel fuel' p (str_drop (default 1%nat (rune_size s)) s)
  end.
Definition forall_runes (p : N -> bool) (s : string) : bool := forall_runes_fuel (String.length s) p s.

(** [unicode.IsSpace] and [unicode.IsControl]. *)
Definition IsSpace (r : N) : bool :=
  ((9 <=? r) && (r <=? 13)) || (r =? 32) || (r =? 133) || (r =? 160) || (r =? 5760) ||
  ((8192 <=? r) && (r <=? 8202)) || (r =? 8232) || (r =? 8233) || (r =? 8239) || (r =? 8287) || (r =? 12288).
Definition IsControl (r : N) : bool := (r <=? 31) || ((127 <=? r) && (r <=? 159)).

(** ** [encoding/hex] and lower-case hexadecimal checks *)

Definition is_digit (c : ascii) : bool := in_range 48 57 c.
Definition is_lower (c : ascii) : bool := in_range 97 122 c.
Definition is_upper (c : ascii) : bool := in_range 65 90 c.
Definition is_lower_hex (c : ascii) : bool := is_digit c || in_range 97 102 c.
Definition is_hex (c : ascii) : bool := is_lower_hex c || in_range 65 70 c.

Definition hex_digit (n : N) : ascii :=
  if n <? 10 then ascii_of_N (48 + n) else ascii_of_N (87 + n).

(** [hex.EncodeToString]. *)
Fixpoint hex_encode (s : string) : string :=
  match s with
  | EmptyString => EmptyString
  | String c r =>
      String (hex_digit (byte_of c / 16))
        (String (hex_digit (byte_of c mod 16)) (hex_encode r))
  end.

(** ** [strconv]: decimal integers *)

Fixpoint dec_digits (fuel : nat) (n : N) (acc : string) : string :=
  match fuel with
  | O => acc
  | S fuel' =>
      let acc' := String (ascii_of_N (48 + n mod 10)) acc in
      if n <? 10 then acc' else dec_digits fuel' (n / 10) acc'
  end.
Definition dec_of_N (n : N) : string := dec_digits (S (N.to_nat (N.log2 n))) n EmptyString.
Definition dec_of_Z (z : Z) : string :=
  match z with
  | Z0 => dec_of_N 0
  | Zpos p => dec_of_N (Npos p)
  | Zneg p => String "-" (dec_of_N (Npos p))
  end.

Fixpoint parse_digits (s : string) (acc : N) : option N :=
  match s with
  | EmptyString => Some acc
  | String c r => if is_digit c then parse_digits r (acc * 10 + (byte_of c - 48)) else None
  end.
Definition parse_dec_N (s : string) : option N :=
  match s with EmptyString => None | _ => parse_digits s 0 end.
Definition parse_dec_Z (s : string) : option Z :=
  match s with
  | String c r =>
      if bool_decide (c = "-"%char) then
        match parse_dec_N r with Some n => Some (- Z.of_N n)%Z | None => None end
      else match parse_dec_N s with Some n => Some (Z.of_N n) | None => None end
  | EmptyString => None
  end.

(** ** Lemmas *)

Lemma byte_of_lt c : byte_of c < 256.
Proof. unfold byte_of. apply N_ascii_bounded. Qed.

Lemma byte_of_ascii n : n < 256 -> byte_of (ascii_of_N n) = n.
Proof. apply N_ascii_embedding. Qed.

Lemma hex_digit_lower n : n < 16 -> is_lower_hex (hex_digit n) = true.
Proof.
  intros Hn. unfold hex_digit, is_lower_hex, is_digit, in_range.
  destruct (N.ltb_spec n 10); rewrite byte_of_ascii by lia.
  - apply orb_true_iff. left. apply andb_true_iff. split; apply N.leb_le; lia.
  - apply orb_true_iff. right. apply andb_true_iff. split; apply N.leb_le; lia.
Qed.

Lemma hex_encode_length s : String.length (hex_encode s) = (2 * String.length s)%nat.
Proof. induction s as [|c s IH]; simpl; lia. Qed.

Lemma hex_encode_lower s : str_forallb is_lower_hex (hex_encode s) = true.
Proof.
  induction s as [|c s IH]; simpl; [done|].
  pose proof (byte_of_lt c) as Hc.
  rewrite (hex_digit_lower (byte_of c / 16)), (hex_digit_lower (byte_of c mod 16)), IH; [done| |].
  - by apply N.mod_lt.
  - apply N.Div0.div_lt_upper_bound. done.
Qed.

Lemma dec_digits_spec fuel n acc :
  n < 2 ^ N.of_nat fuel -> 
  exists ds, dec_digits fuel n acc = ds +:+ acc /\ str_forallb is_digit ds = true /\
    (fuel <> 0%nat -> ds <> EmptyString) /\
    (forall a t, parse_digits (ds +:+ t) a = parse_digits t (a * 10 ^ N.of_nat (String.length ds) + n)).
Proof.
  revert n acc. induction fuel as [|fuel IH]; intros n acc Hn.
  { exists EmptyString. simpl in *. assert (n = 0) as -> by lia.
    repeat split; try done. intros. rewrite N.add_0_r, N.mul_1_r. done. }
  simpl dec_digits.
  assert (Hd : n mod 10 < 10) by (apply N.mod_lt; lia).
  assert (Hdig : is_digit (ascii_of_N (48 + n mod 10)) = true).
  { clear -Hd. generalize dependent (n mod 10). intros d Hd.
    unfold is_digit, in_range. rewrite byte_of_ascii by lia.
    apply andb_true_iff. split; apply N.leb_le; lia. }
  assert (Hb : byte_of (ascii_of_N (48 + n mod 10)) = 48 + n mod 10).
  { apply byte_of_ascii. clear -Hd. generalize dependent (n mod 10). intros; lia. }
  destruct (N.ltb_spec n 10) as [Hlt|Hge].
  - exists (String (ascii_of_N (48 + n mod 10)) EmptyString).
    split; [done|]. simpl str_forallb. rewrite Hdig. split; [done|]. split; [done|].
    intros a t. rewrite append_cons. simpl. rewrite Hdig, Hb.
    rewrite (N.mod_small n 10) by lia. f_equal. change (10 ^ 1) with 10. lia.
  - destruct (IH (n / 10) (String (ascii_of_N (48 + n mod 10)) acc)) as (ds & E & Hall & _ & Hp).
    { apply N.Div0.div_lt_upper_bound. rewrite Nat2N.inj_succ, N.pow_succ_r' in Hn. lia. }
    exists (ds +:+ String (ascii_of_N (48 + n mod 10)) EmptyString).
    rewrite E, append_assoc. split; [done|].
    assert (Happ : forall u v, str_forallb is_digit (u +:+ v) = str_forallb is_digit u && str_forallb is_digit v).
    { intros u v. induction u as [|c u IHu]; [done|]. rewrite append_cons. simpl.
      by rewrite IHu, andb_assoc. }
    split; [rewrite Happ, Hall; simpl; by rewrite Hdig|].
    split; [intros _ Hc; apply (f_equal String.length) in Hc; rewrite length_append in Hc; simpl in Hc; lia|].
    intros a t. rewrite append_assoc, Hp. rewrite append_cons. simpl.
    rewrite Hdig, Hb. f_equal.
    rewrite length_append. simpl String.length.
    rewrite Nat2N.inj_add. change (N.of_nat 1) with 1. rewrite N.pow_add_r, N.pow_1_r.
    pose proof (N.div_mod' n 10) as Hdm. clear -Hdm.
    generalize dependent (n / 10). generalize (n mod 10) (10 ^ N.of_nat (String.length ds)).
    intros m e q ->. lia.
Qed.

Lemma dec_of_N_spec n :
  str_forallb is_digit (dec_of_N n) = true /\ dec_of_N n <> EmptyString /\
  parse_dec_N (dec_of_N n) = Some n.
Proof.
  unfold dec_of_N.
  destruct (dec_digits_spec (S (N.to_nat (N.log2 n))) n EmptyString) as (ds & E & H1 & H2 & H3).
  { rewrite Nat2N.inj_succ, N2Nat.id. destruct n as [|p]; [done|].
    apply N.log2_spec. lia. }
  rewrite E, append_nil_r. assert (ds <> EmptyString) as H2' by auto.
  split; [done|]. split; [done|].
  unfold parse_dec_N. destruct ds as [|c ds]; [done|].
  rewrite <- (append_nil_r (String c ds)) at 1. by rewrite H3.
Qed.

Lemma str_forallb_head f s : str_forallb f s = true -> s <> EmptyString ->
  exists c r, s = String c r /\ f c = true /\ str_forallb f r = true.
Proof.
  destruct s as [|c r]; [done|]. simpl. intros [??]%andb_true_iff _. eauto.
Qed.

Lemma parse_dec_of_Z z : parse_dec_Z (dec_of_Z z) = Some z.
Proof.
  assert (Hpos : forall n, parse_dec_Z (dec_of_N n) = Some (Z.of_N n)).
  { intros n. destruct (dec_of_N_spec n) as (H1 & H2 & H3).
    destruct (str_forallb_head _ _ H1 H2) as (c & r & E & Hc & _).
    unfold parse_dec_Z. rewrite E. rewrite bool_decide_eq_false_2.
    - rewrite <- E. by rewrite H3.
    - intros ->. done. }
  destruct z as [|p|p]; simpl dec_of_Z; [apply Hpos|apply (Hpos (Npos p))|].
  destruct (dec_of_N_spec (Npos p)) as (_ & _ & H3). simpl. by rewrite H3.
Qed.

(** A decimal numeral below [10^k] has at most [k] digits. *)
Lemma dec_digits_length fuel n acc k :
  (0 < k)%nat -> n < 10 ^ N.of_nat k ->
  (String.length (dec_digits fuel n acc) <= k + String.length acc)%nat.
Proof.
  revert n acc k. induction fuel as [|fuel IH]; intros n acc k Hk Hn; simpl; [lia|].
  destruct (N.ltb_spec n 10); [simpl; lia|].
  destruct k as [|[|k]]; [lia| |].
  - change (N.of_nat 1) with 1 in Hn. rewrite N.pow_1_r in Hn. lia.
  - etransitivity; [apply (IH _ _ (S k)); [lia|]|simpl; lia].
    apply N.Div0.div_lt_upper_bound.
    rewrite (Nat2N.inj_succ (S k)), N.pow_succ_r' in Hn. lia.
Qed.

Lemma dec_of_N_length n k :
  (0 < k)%nat -> n < 10 ^ N.of_nat k -> (String.length (dec_of_N n) <= k)%nat.
Proof.
  intros Hk Hn. unfold dec_of_N.
  pose proof (dec_digits_length (S (N.to_nat (N.log2 n))) n EmptyString k Hk Hn) as H.
  simpl String.length in H at 2. lia.
Qed.
