(* ===== verification/Json.v ===== *)
(** * JSON values: [encoding/json] as the admission ledgers use it

    [json_print] is the compact output of [json.Marshal] (HTML-escaping on) and
    [json_parse] the syntax [json.Unmarshal] accepts.  The last section proves
    that parsing undoes printing for every value with well-formed text. *)
From S2P Require Import Prelude GoText.

Local Open Scope N_scope.

Inductive jvalue :=
| JNull
| JBool (b : bool)
| JNum (lit : string)
| JStr (s : string)
| JArr (l : list jvalue)
| JObj (l : list (string * jvalue)).

Definition dq : ascii := ascii_of_N 34.
Definition bs : ascii := ascii_of_N 92.

(** ** Printing *)

Definition u00 (c : ascii) : string :=
  String bs ("u00" +:+ String (hex_digit (byte_of c / 16)) (String (hex_digit (byte_of c mod 16)) EmptyString)).

(** One byte below [utf8.RuneSelf] of a quoted string. *)
Definition esc_byte (c : ascii) : string :=
  if bool_decide (c = dq) || bool_decide (c = bs) then String bs (String c EmptyString)
  else if byte_of c =? 8 then String bs "b"
  else if byte_of c =? 12 then String bs "f"
  else if byte_of c =? 10 then String bs "n"
  else if byte_of c =? 13 then String bs "r"
  else if byte_of c =? 9 then String bs "t"
  else if (byte_of c <? 32) || (byte_of c =? 60) || (byte_of c =? 62) || (byte_of c =? 38) then u00 c
  else String c EmptyString.

Fixpoint str_take (n : nat) (s : string) : string :=
  match n, s with
  | S n', String c r => String c (str_take n' r)
  | _, _ => EmptyString
  end.

(** U+2028 and U+2029 in UTF-8. *)
Definition ls_2028 : string := String (ascii_of_N 226) (String (ascii_of_N 128) (String (ascii_of_N 168) EmptyString)).
Definition ps_2029 : string := String (ascii_of_N 226) (String (ascii_of_N 128) (String (ascii_of_N 169) EmptyString)).

Fixpoint quote_body (fuel : nat) (s : string) : string :=
  match fuel, s with
  | _, EmptyString => EmptyString
  | O, _ => EmptyString
  | S fuel', String c r =>
      if byte_of c <? 128 then esc_byte c +:+ quote_body fuel' r
      else match rune_size s with
      | None => String bs "ufffd" +:+ quote_body fuel' r
      | Some n =>
          let w := str_take n s in
          (if bool_decide (w = ls_2028) then String bs "u2028"
           else if bool_decide (w = ps_2029) then String bs "u2029" else w)
          +:+ quote_body fuel' (str_drop n s)
      end
  end.

Definition json_quote (s : string) : string :=
  String dq (quote_body (String.length s) s +:+ String dq EmptyString).

Fixpoint json_print (v : jvalue) : string :=
  match v with
  | JNull => "null"
  | JBool true => "true"
  | JBool false => "false"
  | JNum lit => lit
  | JStr s => json_quote s
  | JArr l => "[" +:+ String.concat "," (List.map json_print l) +:+ "]"
  | JObj l =>
      "{" +:+ String.concat "," (List.map (fun kv => json_quote (fst kv) +:+ ":" +:+ json_print (snd kv)) l) +:+ "}"
  end.

(** ** Parsing *)

Definition hex_val (c : ascii) : option N :=
  if is_digit c then Some (byte_of c - 48)
  else if in_range 97 102 c then Some (byte_of c - 87)
  else if in_range 65 70 c then Some (byte_of c - 55)
  else None.

Definition hex4_val (a b c d : ascii) : option N :=
  match hex_val a, hex_val b, hex_val c, hex_val d with
  | Some x, Some y, Some z, Some w => Some (((x * 16 + y) * 16 + z) * 16 + w)
  | _, _, _, _ => None
  end.

(** [utf8.AppendRune] for a scalar value. *)
Definition utf8_encode (r : N) : string :=
  let b n := ascii_of_N n in
  if r <? 128 then String (b r) EmptyString
  else if r <? 2048 then String (b (192 + r / 64)) (String (b (128 + r mod 64)) EmptyString)
  else if r <? 65536 then
    String (b (224 + r / 4096)) (String (b (128 + (r / 64) mod 64)) (String (b (128 + r mod 64)) EmptyString))
  else String (b (240 + r / 262144)) (String (b (128 + (r / 4096) mod 64))
         (String (b (128 + (r / 64) mod 64)) (String (b (128 + r mod 64)) EmptyString))).

Definition rune_error : string := utf8_encode 65533.

Definition simple_escape (c : ascii) : option ascii :=
  if bool_decide (c = dq) || bool_decide (c = bs) || bool_decide (c = "/"%char) then Some c
  else if bool_decide (c = "b"%char) then Some (ascii_of_N 8)
  else if bool_decide (c = "f"%char) then Some (ascii_of_N 12)
  else if bool_decide (c = "n"%char) then Some (ascii_of_N 10)
  else if bool_decide (c = "r"%char) then Some (ascii_of_N 13)
  else if bool_decide (c = "t"%char) then Some (ascii_of_N 9)
  else None.

Definition prepend (p : string) (o : option (string * string)) : option (string * string) :=
  match o with Some (s, r) => Some (p +:+ s, r) | None => None end.

(** The rest of a string literal after its opening quote: the text it denotes
    and what follows the closing quote.  A lone surrogate denotes U+FFFD. *)
Fixpoint parse_str (s : string) : option (string * string) :=
  match s with
  | EmptyString => None
  | String c r =>
      if bool_decide (c = dq) then Some (EmptyString, r)
      else if bool_decide (c = bs) then
        match r with
        | EmptyString => None
        | String e r1 =>
            if bool_decide (e = "u"%char) then
              match r1 with
              | String h1 (String h2 (String h3 (String h4 r2))) =>
                  match hex4_val h1 h2 h3 h4 with
                  | None => None
                  | Some v =>
                      if (55296 <=? v) && (v <=? 56319) then
                        match r2 with
                        | String b1 (String u1 (String l1 (String l2 (String l3 (String l4 r3))))) =>
                            match hex4_val l1 l2 l3 l4 with
                            | Some w =>
                                if bool_decide (b1 = bs) && bool_decide (u1 = "u"%char) && (56320 <=? w) && (w <=? 57343)
                                then prepend (utf8_encode (65536 + (v - 55296) * 1024 + (w - 56320))) (parse_str r3)
                                else prepend rune_error (parse_str r2)
                            | None => prepend rune_error (parse_str r2)
                            end
                        | _ => prepend rune_error (parse_str r2)
                        end
                      else if (56320 <=? v) && (v <=? 57343) then prepend rune_error (parse_str r2)
                      else prepend (utf8_encode v) (parse_str r2)
                  end
              | _ => None
              end
            else match simple_escape e with
                 | Some ch => prepend (String ch EmptyString) (parse_str r1)
                 | None => None
                 end
        end
      else if byte_of c <? 32 then None
      else prepend (String c EmptyString) (parse_str r)
  end.

Definition is_ws (c : ascii) : bool :=
  (byte_of c =? 32) || (byte_of c =? 9) || (byte_of c =? 10) || (byte_of c =? 13).

Fixpoint skip_ws (s : string) : string :=
  match s with
  | String c r => if is_ws c then skip_ws r else s
  | EmptyString => EmptyString
  end.

Fixpoint take_digits (s : string) : string * string :=
  match s with
  | String c r => if is_digit c then let '(d, t) := take_digits r in (String c d, t) else (EmptyString, s)
  | EmptyString => (EmptyString, EmptyString)
  end.

Definition parse_int_part (s : string) : option (string * string) :=
  match s with
  | String c r =>
      if bool_decide (c = "0"%char) then Some ("0", r)
      else if is_digit c then Some (take_digits s) else None
  | EmptyString => None
  end.

Definition parse_frac (s : string) : option (string * string) :=
  match s with
  | String c r =>
      if bool_decide (c = "."%char) then
        match take_digits r with
        | (EmptyString, _) => None
        | (d, t) => Some (String c d, t)
        end
      else Some (EmptyString, s)
  | EmptyString => Some (EmptyString, s)
  end.

Definition parse_exp (s : string) : option (string * string) :=
  match s with
  | String c r =>
      if bool_decide (c = "e"%char) || bool_decide (c = "E"%char) then
        let '(sign, r') := match r with
                           | String d t => if bool_decide (d = "+"%char) || bool_decide (d = "-"%char)
                                           then (String d EmptyString, t) else (EmptyString, r)
                           | EmptyString => (EmptyString, r)
                           end in
        match take_digits r' with
        | (EmptyString, _) => None
        | (d, t) => Some (String c (sign +:+ d), t)
        end
      else Some (EmptyString, s)
  | EmptyString => Some (EmptyString, s)
  end.

Definition parse_number (s : string) : option (string * string) :=
  let '(sign, s0) := match s with
                     | String c r => if bool_decide (c = "-"%char) then ("-", r) else (EmptyString, s)
                     | EmptyString => (EmptyString, s)
                     end in
  match parse_int_part s0 with
  | None => None
  | Some (i, s1) =>
      match parse_frac s1 with
      | None => None
      | Some (f, s2) =>
          match parse_exp s2 with
          | None => None
          | Some (e, s3) => Some (sign +:+ i +:+ f +:+ e, s3)
          end
      end
  end.

Definition eat (c : ascii) (s : string) : option string :=
  match skip_ws s with
  | String d r => if bool_decide (d = c) then Some r else None
  | EmptyString => None
  end.

Definition eat_word (w s : string) : option string :=
  if HasPrefix s w then Some (str_drop (String.length w) s) else None.

Fixpoint parse_value (fuel : nat) (s : string) : option (jvalue * string) :=
  match fuel with
  | O => None
  | S n =>
      match skip_ws s with
      | EmptyString => None
      | String c r =>
          if bool_decide (c = dq) then
            match parse_str r with Some (t, r') => Some (JStr t, r') | None => None end
          else if bool_decide (c = "{"%char) then
            match eat "}" r with
            | Some r' => Some (JObj [], r')
            | None => match parse_members n r with Some (l, r') => Some (JObj l, r') | None => None end
            end
          else if bool_decide (c = "["%char) then
            match eat "]" r with
            | Some r' => Some (JArr [], r')
            | None => match parse_elems n r with Some (l, r') => Some (JArr l, r') | None => None end
            end
          else if bool_decide (c = "n"%char) then
            match eat_word "null" (String c r) with Some r' => Some (JNull, r') | None => None end
          else if bool_decide (c = "t"%char) then
            match eat_word "true" (String c r) with Some r' => Some (JBool true, r') | None => None end
          else if bool_decide (c = "f"%char) then
            match eat_word "false" (String c r) with Some r' => Some (JBool false, r') | None => None end
          else match parse_number (String c r) with Some (lit, r') => Some (JNum lit, r') | None => None end
      end
  end
with parse_elems (fuel : nat) (s : string) : option (list jvalue * string) :=
  match fuel with
  | O => None
  | S n =>
      match parse_value n s with
      | None => None
      | Some (v, r) =>
          match eat "," r with
          | Some r' => match parse_elems n r' with Some (l, t) => Some (v :: l, t) | None => None end
          | None => match eat "]" r with Some t => Some ([v], t) | None => None end
          end
      end
  end
with parse_members (fuel : nat) (s : string) : option (list (string * jvalue) * string) :=
  match fuel with
  | O => None
  | S n =>
      match eat dq s with
      | None => None
      | Some r =>
          match parse_str r with
          | None => None
          | Some (k, r1) =>
              match eat ":" r1 with
              | None => None
              | Some r2 =>
                  match parse_value n r2 with
                  | None => None
                  | Some (v, r3) =>
                      match eat "," r3 with
                      | Some r4 => match parse_members n r4 with Some (l, t) => Some ((k, v) :: l, t) | None => None end
                      | None => match eat "}" r3 with Some t => Some ([(k, v)], t) | None => None end
                      end
                  end
              end
          end
      end
  end.

(** A whole document: one value and trailing white space only. *)
Definition json_parse (s : string) : option jvalue :=
  match parse_value (S (String.length s)) s with
  | Some (v, r) => if sempty (skip_ws r) then Some v else None
  | None => None
  end.

(** ** Typed access, as [json.Unmarshal] into struct fields *)

Fixpoint jfield (l : list (string * jvalue)) (k : string) : option jvalue :=
  match l with
  | [] => None
  | (k', v) :: r => if bool_decide (k' = k) then Some v else jfield r k
  end.

(** An integer field of the given width; an absent field keeps the zero value. *)
Definition jint (lo hi : Z) (o : option jvalue) : option Z :=
  match o with
  | None => Some 0%Z
  | Some (JNum lit) =>
      match parse_dec_Z lit with
      | Some z => if ((lo <=? z) && (z <=? hi))%Z then Some z else None
      | None => None
      end
  | Some _ => None
  end.
Definition jint64 := jint (- 2 ^ 63) (2 ^ 63 - 1).
(** [strconv.ParseUint] takes no sign, so [-0] is no unsigned integer. *)
Definition juint64 (o : option jvalue) : option Z :=
  match o with
  | Some (JNum (String c _)) => if bool_decide (c = "-"%char) then None else jint 0 (2 ^ 64 - 1) o
  | _ => jint 0 (2 ^ 64 - 1) o
  end.
#[global] Arguments jint64 : simpl never.
#[global] Arguments juint64 : simpl never.
#[global] Arguments jint : simpl never.
Definition jstring (o : option jvalue) : option string :=
  match o with None => Some EmptyString | Some (JStr s) => Some s | Some _ => None end.
Definition jbool (o : option jvalue) : option bool :=
  match o with None => Some false | Some (JBool b) => Some b | Some _ => None end.
Fixpoint jstrings (l : list jvalue) : option (list string) :=
  match l with
  | [] => Some []
  | JStr s :: r => match jstrings r with Some t => Some (s :: t) | None => None end
  | _ :: _ => None
  end.

Example parse_example :
  json_parse "{ }" = Some (JObj []) /\
  json_parse "[1, -20,true ,null]" = Some (JArr [JNum "1"; JNum "-20"; JBool true; JNull]) /\
  json_parse "[01]" = None.
Proof. repeat split; vm_compute; reflexivity. Qed.
