(* ===== verification/JsonFacts.v ===== *)
(** * Facts about JSON printing and parsing

    Parsing undoes printing ([json_parse_print]), and printed strings have
    bounded length ([json_quote_plain], [json_quote_runes]). *)
From S2P Require Import Prelude GoText Json.

Local Open Scope N_scope.

(** ** Strings *)

Lemma esc_byte_parse c t :
  byte_of c < 128 ->
  parse_str (esc_byte c +:+ t) = prepend (String c EmptyString) (parse_str t).
Proof.
  intros Hc. destruct c as [[] [] [] [] [] [] [] []]; vm_compute in Hc;
    solve [discriminate Hc | reflexivity].
Qed.

Lemma esc_byte_length c : (1 <= String.length (esc_byte c) <= 6)%nat.
Proof. destruct c as [[] [] [] [] [] [] [] []]; vm_compute; lia. Qed.

Lemma parse_str_high c t :
  128 <= byte_of c -> parse_str (String c t) = prepend (String c EmptyString) (parse_str t).
Proof.
  intros Hc. simpl.
  rewrite bool_decide_eq_false_2 by (intros ->; vm_compute in Hc; by apply Hc).
  rewrite bool_decide_eq_false_2 by (intros ->; vm_compute in Hc; by apply Hc).
  destruct (N.ltb_spec (byte_of c) 32); [lia|done].
Qed.

Lemma prepend_prepend p q o : prepend p (prepend q o) = prepend (p +:+ q) o.
Proof. destruct o as [[s r]|]; simpl; [|done]. by rewrite append_assoc. Qed.

Lemma cont_high c : cont c = true -> 128 <= byte_of c.
Proof. unfold cont, in_range. intros [?%N.leb_le ?]%andb_true_iff. done. Qed.

Lemma in_range_high lo hi c : 128 <= lo -> in_range lo hi c = true -> 128 <= byte_of c.
Proof. unfold in_range. intros ? [?%N.leb_le ?]%andb_true_iff. lia. Qed.

Fixpoint all_high (s : string) : Prop :=
  match s with EmptyString => True | String c r => 128 <= byte_of c /\ all_high r end.

(** The head sequence of a multi-byte rune: how it splits the string. *)
Lemma rune_size_split s n :
  rune_size s = Some n ->
  (1 <= n <= 4)%nat /\ s = str_take n s +:+ str_drop n s /\
  (n = 1%nat \/ all_high (str_take n s)) /\ String.length (str_take n s) = n.
Proof.
  destruct s as [|a s]; [done|]. simpl rune_size.
  destruct (N.ltb_spec (byte_of a) 128).
  { intros [= <-]. repeat split; auto; try lia. }
  destruct s as [|b s]; [done|].
  destruct (in_range 194 223 a) eqn:Ea.
  { destruct (cont b) eqn:Eb; [|done]. intros [= <-].
    repeat split; auto; try lia. right. simpl. auto using cont_high. }
  destruct s as [|c s]; [done|].
  destruct (in_range 224 239 a) eqn:Ea'.
  { destruct (_ && cont c) eqn:E; [|done]. intros [= <-].
    apply andb_true_iff in E as [Hb Hcc].
    repeat split; auto; try lia. right. simpl. repeat split; auto using cont_high.
    destruct (_ =? 224); [by apply (in_range_high 160 191)|].
    destruct (_ =? 237); [by apply (in_range_high 128 159)|by apply cont_high]. }
  destruct s as [|d s]; [done|].
  destruct (in_range 240 244 a) eqn:Ea''; [|done].
  destruct (_ && cont c && cont d) eqn:E; [|done]. intros [= <-].
  apply andb_true_iff in E as [E Hd]. apply andb_true_iff in E as [Hb Hcc].
  repeat split; auto; try lia. right. simpl. repeat split; auto using cont_high.
  destruct (_ =? 240); [by apply (in_range_high 144 191)|].
  destruct (_ =? 244); [by apply (in_range_high 128 143)|by apply cont_high].
Qed.

Lemma parse_str_all_high w t : all_high w -> parse_str (w +:+ t) = prepend w (parse_str t).
Proof.
  induction w as [|c w IH]; simpl all_high.
  { intros _. change (EmptyString +:+ t) with t. by destruct (parse_str t) as [[]|]. }
  intros [Hc Hw]. rewrite append_cons, parse_str_high, IH, prepend_prepend by done. done.
Qed.

Lemma quote_body_step fuel c s :
  quote_body (S fuel) (String c s) =
  if byte_of c <? 128 then esc_byte c +:+ quote_body fuel s
  else match rune_size (String c s) with
  | None => String bs "ufffd" +:+ quote_body fuel s
  | Some n =>
      (if bool_decide (str_take n (String c s) = ls_2028) then String bs "u2028"
       else if bool_decide (str_take n (String c s) = ps_2029) then String bs "u2029"
       else str_take n (String c s)) +:+ quote_body fuel (str_drop n (String c s))
  end.
Proof. reflexivity. Qed.

Lemma valid_utf8_step fuel c s :
  valid_utf8_fuel (S fuel) (String c s) = true ->
  exists n, rune_size (String c s) = Some n /\ valid_utf8_fuel fuel (str_drop n (String c s)) = true.
Proof.
  change (valid_utf8_fuel (S fuel) (String c s)) with
    (match rune_size (String c s) with
     | Some n => valid_utf8_fuel fuel (str_drop n (String c s)) | None => false end).
  destruct (rune_size (String c s)) as [n|]; [|done]. eauto.
Qed.

Lemma rune_size_ascii c s : byte_of c < 128 -> rune_size (String c s) = Some 1%nat.
Proof. intros H. simpl. by destruct (N.ltb_spec (byte_of c) 128); [|lia]. Qed.

Lemma quote_body_parse fuel s t :
  valid_utf8_fuel fuel s = true ->
  parse_str (quote_body fuel s +:+ String dq t) = Some (s, t).
Proof.
  revert s. induction fuel as [|fuel IH]; intros s Hs; [by destruct s|].
  destruct s as [|c s]; [done|].
  destruct (valid_utf8_step _ _ _ Hs) as (n & En & Hv). rewrite quote_body_step.
  destruct (N.ltb_spec (byte_of c) 128) as [Hlt|Hge].
  { rewrite rune_size_ascii in En by done. simplify_eq.
    rewrite append_assoc, esc_byte_parse, IH by done. done. }
  rewrite En. destruct (rune_size_split _ _ En) as (_ & Hsplit & Hhigh & _).
  set (full := String c s) in *.
  assert (Hall : all_high (str_take n full)).
  { destruct Hhigh as [->|]; [|done]. simpl. auto. }
  replace (Some (full, t)) with (prepend (str_take n full) (Some (str_drop n full, t))).
  2:{ simpl. by rewrite <- Hsplit. }
  rewrite append_assoc, <- (IH _ Hv).
  case_bool_decide as E1; [by rewrite E1|].
  case_bool_decide as E2; [by rewrite E2|].
  by rewrite parse_str_all_high.
Qed.

Lemma json_quote_parse s t :
  ValidString s = true -> exists r, json_quote s +:+ t = String dq r /\ parse_str r = Some (s, t).
Proof.
  intros Hs. eexists. split; [reflexivity|].
  rewrite append_assoc. by apply quote_body_parse.
Qed.

(** ** Lengths *)

Definition plain_byte (c : ascii) : bool :=
  (32 <=? byte_of c) && (byte_of c <? 128) && negb (bool_decide (c = dq)) && negb (bool_decide (c = bs)) &&
  negb (byte_of c =? 60) && negb (byte_of c =? 62) && negb (byte_of c =? 38).

Lemma esc_plain c : plain_byte c = true -> esc_byte c = String c EmptyString /\ byte_of c < 128.
Proof.
  destruct c as [[] [] [] [] [] [] [] []]; intros H; vm_compute in H; try discriminate H; by vm_compute.
Qed.

Lemma quote_body_plain fuel s :
  (String.length s <= fuel)%nat -> str_forallb plain_byte s = true -> quote_body fuel s = s.
Proof.
  revert s. induction fuel as [|fuel IH]; intros [|c s] Hl Hs; simpl in *; try done; try lia.
  apply andb_true_iff in Hs as [Hc Hs]. destruct (esc_plain _ Hc) as [-> Hlt].
  destruct (N.ltb_spec (byte_of c) 128); [|lia].
  rewrite IH by (done || lia). done.
Qed.

Lemma json_quote_plain s :
  str_forallb plain_byte s = true -> String.length (json_quote s) = (2 + String.length s)%nat.
Proof.
  intros Hs. unfold json_quote. simpl. rewrite length_append, quote_body_plain by done. simpl. lia.
Qed.

Lemma str_forallb_impl (f g : ascii -> bool) s :
  (forall c, f c = true -> g c = true) -> str_forallb f s = true -> str_forallb g s = true.
Proof.
  intros Hfg. induction s as [|c s IH]; simpl; [done|].
  intros [??]%andb_true_iff. by rewrite Hfg, IH.
Qed.

Lemma rune_count_step fuel c s :
  rune_count_fuel (S fuel) (String c s) =
  (1 + rune_count_fuel fuel (str_drop (default 1%nat (rune_size (String c s))) (String c s)))%Z.
Proof. reflexivity. Qed.

Lemma quote_body_runes fuel s :
  (Z.of_nat (String.length (quote_body fuel s)) <= 6 * rune_count_fuel fuel s)%Z.
Proof.
  revert s. induction fuel as [|fuel IH]; intros [|c s]; try done.
  rewrite quote_body_step.
  rewrite rune_count_step.
  destruct (N.ltb_spec (byte_of c) 128) as [Hlt|Hge].
  { rewrite rune_size_ascii by done. simpl default. simpl str_drop. rewrite length_append.
    specialize (IH s). pose proof (esc_byte_length c). lia. }
  destruct (rune_size (String c s)) as [n|] eqn:En; rewrite length_append; simpl default.
  - destruct (rune_size_split _ _ En) as (Hn & _ & _ & Hl).
    specialize (IH (str_drop n (String c s))).
    match goal with |- context [(String.length ?w + _)%nat] => assert (String.length w <= 6)%nat end;
      [|lia].
    case_bool_decide; [simpl; lia|]. case_bool_decide; [simpl; lia|]. lia.
  - specialize (IH s). simpl str_drop. simpl String.length at 1. lia.
Qed.

Lemma json_quote_runes s :
  (Z.of_nat (String.length (json_quote s)) <= 2 + 6 * RuneCountInString s)%Z.
Proof.
  unfold json_quote. simpl. rewrite length_append. simpl.
  pose proof (quote_body_runes (String.length s) s). unfold RuneCountInString. lia.
Qed.

Lemma rune_count_le_length fuel s : (rune_count_fuel fuel s <= Z.of_nat (String.length s))%Z.
Proof.
  revert s. induction fuel as [|fuel IH]; intros [|c s]; try (simpl; lia).
  rewrite rune_count_step. set (n := default 1%nat (rune_size (String c s))).
  assert (1 <= n)%nat as Hn.
  { unfold n. destruct (rune_size (String c s)) as [k|] eqn:E; [|done].
    by destruct (rune_size_split _ _ E) as ([? _] & _). }
  specialize (IH (str_drop n (String c s))). rewrite str_drop_length in IH.
  change (String.length (String c s)) with (S (String.length s)) in *. lia.
Qed.

Lemma json_quote_length s :
  (Z.of_nat (String.length (json_quote s)) <= 2 + 6 * slen s)%Z.
Proof.
  pose proof (json_quote_runes s). pose proof (rune_count_le_length (String.length s) s).
  unfold RuneCountInString, slen in *. lia.
Qed.

(** ** Numbers *)

Lemma dec_digits_head fuel n acc :
  n <> 0 -> n < 2 ^ N.of_nat fuel ->
  exists c r, dec_digits fuel n acc = String c r /\ c <> "0"%char.
Proof.
  revert n acc. induction fuel as [|fuel IH]; intros n acc Hn Hb; [simpl in Hb; lia|].
  simpl. destruct (N.ltb_spec n 10) as [Hlt|Hge].
  - eexists _, _. split; [done|]. intros E. apply (f_equal byte_of) in E.
    rewrite N.mod_small, byte_of_ascii in E by lia. vm_compute (byte_of "0") in E. lia.
  - apply IH.
    + intros E. apply N.div_small_iff in E; lia.
    + apply N.Div0.div_lt_upper_bound. rewrite Nat2N.inj_succ, N.pow_succ_r' in Hb. lia.
Qed.

Lemma dec_of_N_head n : n <> 0 -> exists c r, dec_of_N n = String c r /\ c <> "0"%char.
Proof.
  intros Hn. apply dec_digits_head; [done|].
  rewrite Nat2N.inj_succ, N2Nat.id. apply N.log2_spec. lia.
Qed.

(** What follows a value inside a printed document. *)
Definition stops (s : string) : Prop :=
  match s with
  | EmptyString => True
  | String c _ => c = ","%char \/ c = "]"%char \/ c = "}"%char
  end.

Lemma take_digits_all ds t :
  str_forallb is_digit ds = true -> stops t -> take_digits (ds +:+ t) = (ds, t).
Proof.
  intros Hd Ht. induction ds as [|c ds IH].
  - destruct t as [|c t]; [done|]. change (EmptyString +:+ String c t) with (String c t).
    simpl. by destruct Ht as [->|[->| ->]].
  - simpl in Hd. apply andb_true_iff in Hd as [Hc Hd].
    rewrite append_cons. simpl. by rewrite Hc, IH.
Qed.

Lemma frac_exp_stops t : stops t -> parse_frac t = Some (EmptyString, t) /\ parse_exp t = Some (EmptyString, t).
Proof. destruct t as [|c t]; [done|]. by intros [->|[->| ->]]. Qed.

Lemma int_part_dec n t : stops t -> parse_int_part (dec_of_N n +:+ t) = Some (dec_of_N n, t).
Proof.
  intros Ht. destruct (decide (n = 0)) as [->|Hn].
  { change (dec_of_N 0) with "0". rewrite append_cons. simpl. by destruct t. }
  destruct (dec_of_N_head n Hn) as (c & r & E & Hc).
  destruct (dec_of_N_spec n) as (Hd & _ & _).
  rewrite E in Hd |- *. pose proof Hd as Hd'. simpl in Hd'. apply andb_true_iff in Hd' as [Hdc _].
  rewrite append_cons. unfold parse_int_part. rewrite bool_decide_eq_false_2, Hdc by done.
  rewrite <- append_cons. by rewrite take_digits_all.
Qed.

Lemma parse_number_dec z t : stops t -> parse_number (dec_of_Z z +:+ t) = Some (dec_of_Z z, t).
Proof.
  intros Ht. destruct (frac_exp_stops t Ht) as [Hf He].
  assert (Hpos : forall n, parse_number (dec_of_N n +:+ t) = Some (dec_of_N n, t)).
  { intros n. destruct (dec_of_N_spec n) as (Hd & Hne & _).
    destruct (str_forallb_head _ _ Hd Hne) as (c & r & E & Hc & _).
    unfold parse_number. rewrite E, append_cons. rewrite bool_decide_eq_false_2 by (by intros ->).
    rewrite <- append_cons, <- E, int_part_dec, Hf, He by done.
    change (EmptyString +:+ ?x) with x. by rewrite append_nil_r. }
  destruct z as [|p|p]; [apply (Hpos 0)|apply (Hpos (Npos p))|].
  unfold parse_number. simpl dec_of_Z. rewrite append_cons. rewrite bool_decide_eq_true_2 by done.
  rewrite int_part_dec, Hf, He by done. rewrite !append_nil_r. done.
Qed.

(** ** Values *)

(** Values whose text is valid UTF-8 and whose numbers are decimal integers. *)
Fixpoint jwf (v : jvalue) : Prop :=
  match v with
  | JNull | JBool _ => True
  | JNum lit => exists z, lit = dec_of_Z z
  | JStr s => ValidString s = true
  | JArr l => (fix go l := match l with [] => True | x :: r => jwf x /\ go r end) l
  | JObj l => (fix go l := match l with
                           | [] => True
                           | (k, x) :: r => ValidString k = true /\ jwf x /\ go r
                           end) l
  end.

Fixpoint jsize (v : jvalue) : nat :=
  match v with
  | JNull | JBool _ | JNum _ | JStr _ => 1
  | JArr l => S ((fix go l := match l with [] => O | x :: r => S (jsize x + go r) end) l)
  | JObj l => S ((fix go l := match l with [] => O | (k, x) :: r => S (jsize x + go r) end) l)
  end.

Section jvalue_induction.
Context (P : jvalue -> Prop).
Context (Hnull : P JNull) (Hbool : forall b, P (JBool b)) (Hnum : forall s, P (JNum s))
  (Hstr : forall s, P (JStr s)) (Harr : forall l, Forall P l -> P (JArr l))
  (Hobj : forall l, Forall (fun kv => P (snd kv)) l -> P (JObj l)).

Fixpoint jvalue_nested_ind (v : jvalue) : P v :=
  match v with
  | JNull => Hnull
  | JBool b => Hbool b
  | JNum s => Hnum s
  | JStr s => Hstr s
  | JArr l => Harr l ((fix go l : Forall P l :=
      match l with [] => Forall_nil_2 _ | x :: r => Forall_cons_2 _ _ _ (jvalue_nested_ind x) (go r) end) l)
  | JObj l => Hobj l ((fix go l : Forall (fun kv => P (snd kv)) l :=
      match l with [] => Forall_nil_2 _ | kv :: r => Forall_cons_2 _ _ _ (jvalue_nested_ind (snd kv)) (go r) end) l)
  end.
End jvalue_induction.

Definition head_ok (s : string) : Prop :=
  exists c r, s = String c r /\ is_ws c = false /\ c <> "]"%char /\ c <> "}"%char.

Lemma head_ok_eat s t c :
  head_ok s -> c = "]"%char \/ c = "}"%char -> eat c (s +:+ t) = None.
Proof.
  intros (d & r & -> & Hw & H1 & H2) Hc. rewrite append_cons. unfold eat. simpl. rewrite Hw.
  rewrite bool_decide_eq_false_2; [done|]. by destruct Hc as [->| ->].
Qed.

Lemma digit_head c : is_digit c = true ->
  is_ws c = false /\ c <> "]"%char /\ c <> "}"%char /\ c <> dq /\ c <> "{"%char /\ c <> "["%char /\
  c <> "n"%char /\ c <> "t"%char /\ c <> "f"%char.
Proof.
  destruct c as [[] [] [] [] [] [] [] []]; intros H; vm_compute in H; try discriminate H;
    repeat split; done.
Qed.

Lemma dec_of_Z_head z : exists c r, dec_of_Z z = String c r /\ (is_digit c = true \/ c = "-"%char).
Proof.
  assert (Hpos : forall n, exists c r, dec_of_N n = String c r /\ (is_digit c = true \/ c = "-"%char)).
  { intros n. destruct (dec_of_N_spec n) as (Hd & Hne & _).
    destruct (str_forallb_head _ _ Hd Hne) as (c & r & E & Hc & _). eauto. }
  destruct z as [|p|p]; [apply (Hpos 0)|apply (Hpos (Npos p))|].
  simpl. eauto.
Qed.

Lemma print_head_ok v : jwf v -> head_ok (json_print v).
Proof.
  destruct v as [|b|lit|s|l|l]; intros Hv.
  - by eexists _, _.
  - destruct b; by eexists _, _.
  - destruct Hv as [z ->]. destruct (dec_of_Z_head z) as (c & r & E & Hc).
    eexists _, _. split; [exact E|]. destruct Hc as [Hc| ->]; [|done].
    by destruct (digit_head c Hc) as (? & ? & ? & _).
  - by eexists _, _.
  - by eexists _, _.
  - by eexists _, _.
Qed.

Lemma eat_dq_quote s t :
  ValidString s = true -> exists r, eat dq (json_quote s +:+ t) = Some r /\ parse_str r = Some (s, t).
Proof.
  intros Hs. destruct (json_quote_parse s t Hs) as (r & E & Hp).
  exists r. rewrite E. done.
Qed.

Definition parses (v : jvalue) : Prop :=
  jwf v -> forall fuel t, (jsize v <= fuel)%nat -> stops t ->
  parse_value fuel (json_print v +:+ t) = Some (v, t).

Definition elems_size (l : list jvalue) : nat := pred (jsize (JArr l)).
Definition members_size (l : list (string * jvalue)) : nat := pred (jsize (JObj l)).

Lemma eat_hit c t : is_ws c = false -> eat c (String c t) = Some t.
Proof. intros H. unfold eat. simpl. by rewrite H, bool_decide_eq_true_2. Qed.

Lemma parse_elems_step fuel s :
  parse_elems (S fuel) s =
  match parse_value fuel s with
  | None => None
  | Some (v, r) =>
      match eat "," r with
      | Some r' => match parse_elems fuel r' with Some (l, t) => Some (v :: l, t) | None => None end
      | None => match eat "]" r with Some t => Some ([v], t) | None => None end
      end
  end.
Proof. reflexivity. Qed.

Lemma parse_elems_print l fuel t :
  Forall parses l -> jwf (JArr l) -> l <> [] -> (elems_size l <= fuel)%nat ->
  parse_elems fuel (String.concat "," (List.map json_print l) +:+ String "]" t) = Some (l, t).
Proof.
  intros Hl. revert fuel. induction Hl as [|v l Hv Hl IH]; [done|].
  intros fuel [Hwv Hwl] _ Hf.
  change (elems_size (v :: l)) with (S (jsize v + elems_size l)) in Hf.
  destruct fuel as [|fuel]; [lia|]. rewrite parse_elems_step.
  destruct l as [|w l].
  - simpl List.map. simpl String.concat. rewrite Hv by (done || lia || (simpl; tauto)). done.
  - change (String.concat "," (List.map json_print (v :: w :: l))) with
      (json_print v +:+ String "," (String.concat "," (List.map json_print (w :: l)))).
    rewrite append_assoc, append_cons. rewrite Hv by (done || lia || (simpl; tauto)).
    rewrite eat_hit, IH by (done || lia). done.
Qed.

Definition print_member (kv : string * jvalue) : string :=
  json_quote (fst kv) +:+ String ":" (json_print (snd kv)).

Lemma parse_members_step fuel k v s t :
  ValidString k = true -> parse_value fuel s = Some (v, t) ->
  parse_members (S fuel) (json_quote k +:+ String ":" s) =
  match eat "," t with
  | Some r => match parse_members fuel r with Some (l, u) => Some ((k, v) :: l, u) | None => None end
  | None => match eat "}" t with Some u => Some ([(k, v)], u) | None => None end
  end.
Proof.
  intros Hk Hv. destruct (eat_dq_quote k (String ":" s) Hk) as (r & E & Hp).
  cbn [parse_members]. rewrite E, Hp, eat_hit, Hv by done. done.
Qed.

Lemma parse_members_print l fuel t :
  Forall (fun kv => parses (snd kv)) l -> jwf (JObj l) -> l <> [] -> (members_size l <= fuel)%nat ->
  parse_members fuel (String.concat "," (List.map print_member l) +:+ String "}" t) = Some (l, t).
Proof.
  intros Hl. revert fuel. induction Hl as [|[k v] l Hv Hl IH]; [done|].
  intros fuel (Hk & Hwv & Hwl) _ Hf. simpl snd in Hv.
  change (members_size ((k, v) :: l)) with (S (jsize v + members_size l)) in Hf.
  destruct fuel as [|fuel]; [lia|].
  destruct l as [|w l].
  - simpl List.map. simpl String.concat. unfold print_member. simpl fst. simpl snd.
    rewrite append_assoc, append_cons.
    erewrite parse_members_step; [|done|apply Hv; [done|lia|simpl; tauto]]. done.
  - change (String.concat "," (List.map print_member ((k, v) :: w :: l))) with
      (print_member (k, v) +:+ String "," (String.concat "," (List.map print_member (w :: l)))).
    unfold print_member at 1. simpl fst. simpl snd. rewrite !append_assoc, !append_cons.
    erewrite parse_members_step; [|done|apply Hv; [done|lia|simpl; tauto]].
    rewrite eat_hit, IH by (done || lia). done.
Qed.

Lemma eat_word_hit w t : eat_word w (w +:+ t) = Some t.
Proof.
  unfold eat_word. destruct (TrimPrefix_append w t) as [-> _]. by rewrite str_drop_append.
Qed.

Lemma parse_value_print v : parses v.
Proof.
  induction v as [|b|lit|s|l Hl|l Hl] using jvalue_nested_ind; intros Hv [|fuel] t Hf Ht;
    try (simpl in Hf; lia).
  - simpl json_print. pose proof (eat_word_hit "null" t) as Hw. rewrite append_cons in Hw |- *.
    simpl parse_value. by rewrite Hw.
  - destruct b; simpl json_print; [pose proof (eat_word_hit "true" t) as Hw|pose proof (eat_word_hit "false" t) as Hw];
      rewrite append_cons in Hw |- *; simpl parse_value; by rewrite Hw.
  - destruct Hv as [z ->]. destruct (dec_of_Z_head z) as (c & r & E & Hc).
    simpl json_print. pose proof (parse_number_dec z t Ht) as Hp. rewrite E in Hp |- *.
    rewrite append_cons in Hp |- *. simpl.
    assert (Hh : is_ws c = false /\ c <> dq /\ c <> "{"%char /\ c <> "["%char /\
      c <> "n"%char /\ c <> "t"%char /\ c <> "f"%char).
    { destruct Hc as [Hc| ->]; [|done]. by destruct (digit_head c Hc) as (? & ? & ? & ? & ? & ? & ? & ? & ?). }
    destruct Hh as (-> & ? & ? & ? & ? & ? & ?). rewrite !bool_decide_eq_false_2 by done.
    by rewrite Hp.
  - destruct (json_quote_parse s t Hv) as (r & E & Hp).
    change (json_print (JStr s)) with (json_quote s). rewrite E. simpl. by rewrite Hp.
  - destruct l as [|v l]; [done|].
    change (json_print (JArr (v :: l))) with (String "[" (String.concat "," (List.map json_print (v :: l)) +:+ "]")).
    rewrite append_cons, append_assoc. change ("]" +:+ t) with (String "]" t).
    assert (Hno : eat "]" (String.concat "," (List.map json_print (v :: l)) +:+ String "]" t) = None).
    { pose proof (print_head_ok v (proj1 Hv)) as Hh.
      destruct l; simpl String.concat; [|rewrite append_assoc]; apply head_ok_eat; auto. }
    pose proof (parse_elems_print (v :: l) fuel t Hl Hv) as Hp.
    revert Hno Hp. generalize (String.concat "," (List.map json_print (v :: l)) +:+ String "]" t).
    intros u Hno Hp. simpl. rewrite Hno, Hp; [done|done|].
    unfold elems_size. simpl in *. lia.
  - destruct l as [|kv l]; [done|].
    change (json_print (JObj (kv :: l))) with (String "{" (String.concat "," (List.map print_member (kv :: l)) +:+ "}")).
    rewrite append_cons, append_assoc. change ("}" +:+ t) with (String "}" t).
    assert (Hno : eat "}" (String.concat "," (List.map print_member (kv :: l)) +:+ String "}" t) = None).
    { destruct l; simpl String.concat; unfold print_member at 1; rewrite !append_assoc;
        apply head_ok_eat; auto; by eexists _, _. }
    pose proof (parse_members_print (kv :: l) fuel t Hl Hv) as Hp.
    revert Hno Hp. generalize (String.concat "," (List.map print_member (kv :: l)) +:+ String "}" t).
    intros u Hno Hp. simpl. rewrite Hno, Hp; [done|done|].
    unfold members_size. simpl in *. lia.
Qed.

(** ** Sizes *)

Lemma concat_length sep l :
  String.length (String.concat sep l) =
  (foldr (fun s n => String.length s + n) 0 l + String.length sep * pred (List.length l))%nat.
Proof.
  induction l as [|s l IH]; [simpl; lia|]. destruct l as [|u l]; [simpl; lia|].
  change (String.concat sep (s :: u :: l)) with (s +:+ sep +:+ String.concat sep (u :: l)).
  rewrite !length_append, IH. simpl. lia.
Qed.

Lemma jsize_print v : jwf v -> (jsize v <= String.length (json_print v))%nat.
Proof.
  induction v as [|b|lit|s|l Hl|l Hl] using jvalue_nested_ind; intros Hv.
  - simpl. lia.
  - destruct b; simpl; lia.
  - destruct Hv as [z ->]. destruct (dec_of_Z_head z) as (c & r & E & _). simpl. rewrite E. simpl. lia.
  - simpl. lia.
  - change (json_print (JArr l)) with (String "[" (String.concat "," (List.map json_print l) +:+ "]")).
    simpl String.length. rewrite length_append, concat_length.
    enough (elems_size l <= foldr (fun s n => String.length s + n) 0 (List.map json_print l) + List.length l)%nat as H.
    { change (jsize (JArr l)) with (S (elems_size l)). rewrite List.length_map.
      change (String.length ",") with 1%nat. change (String.length "]") with 1%nat. lia. }
    induction Hl as [|v l Hvl Hl IH]; [done|]. destruct Hv as [Hv Hl'].
    specialize (IH Hl'). specialize (Hvl Hv). unfold elems_size in *. simpl in *. lia.
  - change (json_print (JObj l)) with (String "{" (String.concat "," (List.map print_member l) +:+ "}")).
    simpl String.length. rewrite length_append, concat_length.
    enough (members_size l <= foldr (fun s n => String.length s + n) 0 (List.map print_member l))%nat as H.
    { change (jsize (JObj l)) with (S (members_size l)).
      change (String.length ",") with 1%nat. lia. }
    induction Hl as [|[k v] l Hvl Hl IH]; [done|]. destruct Hv as (_ & Hv & Hl').
    specialize (IH Hl'). specialize (Hvl Hv).
    change (members_size ((k, v) :: l)) with (S (jsize v + members_size l)).
    change (foldr ?f 0%nat (List.map print_member ((k, v) :: l))) with
      (String.length (print_member (k, v)) + foldr f 0%nat (List.map print_member l))%nat.
    unfold print_member at 1. rewrite length_append. simpl in Hvl |- *. lia.
Qed.

(** Parsing a printed document gives the value back. *)
Lemma json_parse_print v : jwf v -> json_parse (json_print v) = Some v.
Proof.
  intros Hv. unfold json_parse. pose proof (parse_value_print v Hv (S (String.length (json_print v))) EmptyString) as H.
  rewrite append_nil_r in H. rewrite H; [done| |done].
  pose proof (jsize_print v Hv). lia.
Qed.
