(* ===== verification/AdmissionJson.v ===== *)
(** * Strict decoding of persisted admission JSON

    Models [src/internal/admissionjson/strict.go].  [Decode] refuses invalid
    Unicode, malformed surrogate escapes, nulls, unknown or duplicate fields,
    nesting beyond five levels and trailing data ([checkDocument]), and then runs the
    typed decoding of its caller, [json.Unmarshal], an argument.  The
    token stream that [checkValue] reads is represented by the parsed value: its
    objects keep the order and the duplicates of their members. *)
From S2P Require Import Prelude GoText Json JsonFacts.

Local Open Scope N_scope.

Definition Allowed := list string -> string -> bool.

(** [checkValue]; the depth is that of the value about to be read. *)
Fixpoint checkValue (v : jvalue) (path : list string) (allowed : Allowed) (depth : Z) : option error :=
  if (5 <? depth)%Z then Some (Plain "admission JSON exceeds nesting limit")
  else match v with
  | JNull => Some (Plain "admission JSON has null field")
  | JBool _ | JNum _ | JStr _ => None
  | JObj l =>
      (fix members (seen : list string) (l : list (string * jvalue)) : option error :=
         match l with
         | [] => None
         | (key, x) :: r =>
             if negb (allowed path key) then Some (Plain "admission JSON has unknown field")
             else if bool_decide (key ∈ seen) then Some (Plain "admission JSON has duplicate field")
             else match checkValue x (path ++ [key]) allowed (depth + 1) with
                  | Some e => Some e
                  | None => members (key :: seen) r
                  end
         end) [] l
  | JArr l =>
      (fix elems (l : list jvalue) : option error :=
         match l with
         | [] => None
         | x :: r =>
             match checkValue x path allowed (depth + 1) with
             | Some e => Some e
             | None => elems r
             end
         end) l
  end.

(** The member loop of [checkValue] under a name, for its lemmas. *)
Definition checkMembers (path : list string) (allowed : Allowed) (depth : Z) :=
  fix members (seen : list string) (l : list (string * jvalue)) : option error :=
    match l with
    | [] => None
    | (key, x) :: r =>
        if negb (allowed path key) then Some (Plain "admission JSON has unknown field")
        else if bool_decide (key ∈ seen) then Some (Plain "admission JSON has duplicate field")
        else match checkValue x (path ++ [key]) allowed (depth + 1) with
             | Some e => Some e
             | None => members (key :: seen) r
             end
    end.

Lemma checkValue_obj l path allowed depth :
  checkValue (JObj l) path allowed depth =
  if (5 <? depth)%Z then Some (Plain "admission JSON exceeds nesting limit")
  else checkMembers path allowed depth [] l.
Proof. reflexivity. Qed.

Lemma checkMembers_cons path allowed depth seen key x r :
  allowed path key = true -> key ∉ seen ->
  checkValue x (path ++ [key]) allowed (depth + 1)%Z = None ->
  checkMembers path allowed depth seen ((key, x) :: r) = checkMembers path allowed depth (key :: seen) r.
Proof.
  intros Ha Hs Hv. simpl. rewrite Ha, bool_decide_eq_false_2, Hv by done. done.
Qed.

(** [hex4]: the [uint16] value of four hexadecimal bytes. *)
Definition hex4_digit (value : N) (b : ascii) : option N :=
  let value := N.shiftl value 4 mod 65536 in
  if in_range 48 57 b then Some (N.lor value (byte_of b - 48))
  else if in_range 97 102 b then Some (N.lor value ((byte_of b - 97) + 10))
  else if in_range 65 70 b then Some (N.lor value ((byte_of b - 65) + 10))
  else None.

Definition hex4 (a b c d : ascii) : option N :=
  match hex4_digit 0 a with
  | None => None
  | Some v1 => match hex4_digit v1 b with
    | None => None
    | Some v2 => match hex4_digit v2 c with
      | None => None
      | Some v3 => hex4_digit v3 d
      end
    end
  end.

(** [validSurrogates]; [inside] says whether the scan is inside a literal. *)
Fixpoint validSurrogates_from (inside : bool) (raw : string) : bool :=
  match raw with
  | EmptyString => negb inside
  | String c r =>
      if negb inside then validSurrogates_from (bool_decide (c = dq)) r
      else if bool_decide (c = dq) then validSurrogates_from false r
      else if negb (bool_decide (c = bs)) then validSurrogates_from true r
      else match r with
      | EmptyString => false
      | String e r1 =>
          if negb (bool_decide (e = "u"%char)) then validSurrogates_from true r1
          else match r1 with
          | String h1 (String h2 (String h3 (String h4 r2))) =>
              match hex4 h1 h2 h3 h4 with
              | None => false
              | Some value =>
                  if (56320 <=? value) && (value <=? 57343) then false
                  else if (55296 <=? value) && (value <=? 56319) then
                    match r2 with
                    | String b1 (String u1 (String l1 (String l2 (String l3 (String l4 r3))))) =>
                        if negb (bool_decide (b1 = bs)) || negb (bool_decide (u1 = "u"%char)) then false
                        else match hex4 l1 l2 l3 l4 with
                        | None => false
                        | Some low =>
                            if (low <? 56320) || (57343 <? low) then false
                            else validSurrogates_from true r3
                        end
                    | _ => false
                    end
                  else validSurrogates_from true r2
              end
          | _ => false
          end
      end
  end.
Definition validSurrogates (raw : string) : bool := validSurrogates_from false raw.

(** The checks of [Decode] before its typed [json.Unmarshal]. *)
Definition checkDocument (raw : string) (allowed : Allowed) : result jvalue :=
  if negb (ValidString raw) || negb (validSurrogates raw) then Err (Plain "admission JSON has invalid Unicode")
  else match json_parse raw with
  | None => Err (Plain "admission JSON has invalid syntax or trailing data")
  | Some v =>
      match checkValue v [] allowed 0 with
      | Some e => Err e
      | None => Ok v
      end
  end.

(** [unmarshal] is [json.Unmarshal] into the type of the result; [None] is its
    type error. *)
Definition Decode {T} (raw : string) (allowed : Allowed) (unmarshal : jvalue -> option T) : result T :=
  match checkDocument raw allowed with
  | Err e => Err e
  | Ok v => match unmarshal v with Some x => Ok x | None => Err (Plain "json: cannot unmarshal") end
  end.

(** ** Documents printed by [json.Marshal] pass the Unicode checks *)

Lemma surr_esc_byte c t :
  byte_of c < 128 -> validSurrogates_from true (esc_byte c +:+ t) = validSurrogates_from true t.
Proof.
  intros Hc. destruct c as [[] [] [] [] [] [] [] []]; vm_compute in Hc;
    solve [discriminate Hc | reflexivity].
Qed.

Lemma surr_all_high w t :
  all_high w -> validSurrogates_from true (w +:+ t) = validSurrogates_from true t.
Proof.
  induction w as [|c w IH]; [done|]. simpl all_high. intros [Hc Hw].
  rewrite append_cons. simpl.
  rewrite !bool_decide_eq_false_2 by (intros ->; vm_compute in Hc; by apply Hc). simpl. auto.
Qed.

Lemma surr_quote_body fuel s t :
  valid_utf8_fuel fuel s = true ->
  validSurrogates_from true (quote_body fuel s +:+ t) = validSurrogates_from true t.
Proof.
  revert s. induction fuel as [|fuel IH]; intros s Hs; [by destruct s|].
  destruct s as [|c s]; [done|].
  destruct (valid_utf8_step _ _ _ Hs) as (n & En & Hv). rewrite quote_body_step.
  destruct (N.ltb_spec (byte_of c) 128) as [Hlt|Hge].
  { rewrite rune_size_ascii in En by done. simplify_eq. rewrite append_assoc, surr_esc_byte by done. auto. }
  rewrite En, append_assoc. destruct (rune_size_split _ _ En) as (_ & _ & Hhigh & _).
  case_bool_decide; [by rewrite <- (IH _ Hv)|].
  case_bool_decide; [by rewrite <- (IH _ Hv)|].
  rewrite surr_all_high; [by apply IH|]. destruct Hhigh as [->|]; [|done]. simpl. auto.
Qed.

Lemma surr_quote s t :
  ValidString s = true -> validSurrogates_from false (json_quote s +:+ t) = validSurrogates_from false t.
Proof.
  intros Hs. unfold json_quote. rewrite append_cons, append_assoc. simpl.
  rewrite surr_quote_body by done. done.
Qed.

Definition no_quote (s : string) : bool := str_forallb (fun c => negb (bool_decide (c = dq))) s.

Lemma surr_no_quote s t :
  no_quote s = true -> validSurrogates_from false (s +:+ t) = validSurrogates_from false t.
Proof.
  unfold no_quote. induction s as [|c s IH]; [done|]. intros H. simpl in H.
  apply andb_true_iff in H as [Hc Hs].
  rewrite append_cons. simpl. apply negb_true_iff in Hc. rewrite Hc. auto.
Qed.

Lemma dec_no_quote z : no_quote (dec_of_Z z) = true.
Proof.
  assert (Hpos : forall n, no_quote (dec_of_N n) = true).
  { intros n. destruct (dec_of_N_spec n) as (Hd & _). revert Hd. apply str_forallb_impl.
    intros c Hc. destruct (digit_head c Hc) as (_ & _ & _ & Hne & _).
    by rewrite bool_decide_eq_false_2. }
  destruct z as [|p|p]; [apply (Hpos 0)|apply (Hpos (Npos p))|]. apply (Hpos (Npos p)).
Qed.

Lemma surr_concat l t :
  Forall (fun s => forall u, validSurrogates_from false (s +:+ u) = validSurrogates_from false u) l ->
  validSurrogates_from false (String.concat "," l +:+ t) = validSurrogates_from false t.
Proof.
  induction 1 as [|s l Hs Hl IH]; [done|]. destruct l as [|s' l]; [apply Hs|].
  change (String.concat "," (s :: s' :: l)) with (s +:+ String "," (String.concat "," (s' :: l))).
  rewrite append_assoc, append_cons, Hs. apply IH.
Qed.

Lemma surr_print v t :
  jwf v -> validSurrogates_from false (json_print v +:+ t) = validSurrogates_from false t.
Proof.
  revert t. induction v as [|b|lit|s|l Hl|l Hl] using jvalue_nested_ind; intros t Hv.
  - done.
  - by destruct b.
  - destruct Hv as [z ->]. apply surr_no_quote, dec_no_quote.
  - by apply surr_quote.
  - change (json_print (JArr l)) with (String "[" (String.concat "," (List.map json_print l) +:+ "]")).
    rewrite append_cons, append_assoc. simpl. rewrite surr_concat; [done|].
    induction Hl as [|v l Hvl Hl IH]; constructor; [intros u; apply Hvl, Hv|apply IH, Hv].
  - change (json_print (JObj l)) with (String "{" (String.concat "," (List.map print_member l) +:+ "}")).
    rewrite append_cons, append_assoc. simpl. rewrite surr_concat; [done|].
    induction Hl as [|[k v] l Hvl Hl IH]; constructor; [|apply IH, Hv].
    intros u. unfold print_member. cbn [fst snd]. rewrite append_assoc, append_cons.
    rewrite surr_quote by apply Hv. simpl. apply Hvl, Hv.
Qed.

(** UTF-8 validity composes. *)
Lemma rune_size_app s t n : rune_size s = Some n -> rune_size (s +:+ t) = Some n.
Proof.
  destruct s as [|a [|b [|c [|d s]]]]; [done| | | |]; rewrite ?append_cons; simpl;
    repeat (case_match; try done).
Qed.

Lemma str_drop_app n s t :
  (n <= String.length s)%nat -> str_drop n (s +:+ t) = str_drop n s +:+ t.
Proof.
  revert s. induction n as [|n IH]; intros s Hn; [by destruct s, t|].
  destruct s as [|c s]; [simpl in Hn; lia|]. rewrite append_cons. simpl in *. apply IH. lia.
Qed.

Lemma valid_fuel_app fuel fuel' s t :
  (fuel + String.length t <= fuel')%nat ->
  valid_utf8_fuel fuel s = true -> valid_utf8_fuel (String.length t) t = true ->
  valid_utf8_fuel fuel' (s +:+ t) = true.
Proof.
  revert fuel' s. induction fuel as [|fuel IH]; intros fuel' s Hf Hs Ht.
  - destruct s as [|c s]; [|done]. change (EmptyString +:+ t) with t. clear Hs.
    revert t fuel' Hf Ht. 
    assert (Hmono : forall n m u, (n <= m)%nat -> valid_utf8_fuel n u = true -> valid_utf8_fuel m u = true).
    { induction n as [|n IHn]; intros m u Hnm Hu.
      { destruct u; [by destruct m|done]. }
      destruct m as [|m]; [lia|]. destruct u as [|c u]; [done|].
      destruct (valid_utf8_step _ _ _ Hu) as (k & Ek & Hk).
      change (match rune_size (String c u) with
              | Some n => valid_utf8_fuel m (str_drop n (String c u)) | None => false end = true).
      rewrite Ek. apply IHn; [lia|done]. }
    intros t fuel' Hf Ht. by apply (Hmono (String.length t)).
  - destruct s as [|c s].
    { apply (IH fuel' EmptyString); [lia|by destruct fuel|done]. }
    destruct (valid_utf8_step _ _ _ Hs) as (n & En & Hv). destruct fuel' as [|fuel']; [lia|].
    rewrite append_cons.
    change (match rune_size (String c (s +:+ t)) with
            | Some n => valid_utf8_fuel fuel' (str_drop n (String c (s +:+ t))) | None => false end = true).
    rewrite <- append_cons, (rune_size_app _ _ _ En), str_drop_app.
    + apply IH; [lia|done|done].
    + destruct (rune_size_split _ _ En) as (_ & E & _ & Hl).
      rewrite E, length_append, Hl. lia.
Qed.

Lemma ValidString_app s t : ValidString s = true -> ValidString t = true -> ValidString (s +:+ t) = true.
Proof.
  intros Hs Ht. unfold ValidString. apply (valid_fuel_app (String.length s)); [|done|done].
  rewrite length_append. lia.
Qed.

Lemma ValidString_ascii s : str_forallb (fun c => byte_of c <? 128) s = true -> ValidString s = true.
Proof.
  unfold ValidString. induction s as [|c s IH]; [done|]. simpl str_forallb.
  intros [Hc Hs]%andb_true_iff. apply N.ltb_lt in Hc.
  change (match rune_size (String c s) with
          | Some n => valid_utf8_fuel (String.length s) (str_drop n (String c s)) | None => false end = true).
  rewrite rune_size_ascii by done. simpl. auto.
Qed.

Lemma esc_byte_valid c : byte_of c < 128 -> ValidString (esc_byte c) = true.
Proof.
  intros Hc. destruct c as [[] [] [] [] [] [] [] []]; vm_compute in Hc;
    solve [discriminate Hc | vm_compute; reflexivity].
Qed.

Lemma rune_valid s n : rune_size s = Some n -> ValidString (str_take n s) = true.
Proof.
  destruct s as [|a [|b [|c [|d s]]]]; [done| | | |]; simpl rune_size;
    repeat (case_match; try done); intros [= <-]; unfold ValidString; simpl str_take;
    cbn -[rune_size]; simpl rune_size;
    repeat match goal with
    | H : ?x = true |- context [?x] => rewrite H
    | H : ?x = false |- context [?x] => rewrite H
    end; try done.
Qed.

Lemma quote_body_valid fuel s :
  valid_utf8_fuel fuel s = true -> ValidString (quote_body fuel s) = true.
Proof.
  revert s. induction fuel as [|fuel IH]; intros s Hs; [by destruct s|].
  destruct s as [|c s]; [done|].
  destruct (valid_utf8_step _ _ _ Hs) as (n & En & Hv). rewrite quote_body_step.
  destruct (N.ltb_spec (byte_of c) 128) as [Hlt|Hge].
  { rewrite rune_size_ascii in En by done. simplify_eq.
    apply ValidString_app; [by apply esc_byte_valid|by apply IH]. }
  rewrite En. apply ValidString_app; [|by apply IH].
  case_bool_decide; [done|]. case_bool_decide; [done|]. by apply rune_valid.
Qed.

Lemma quote_valid s : ValidString s = true -> ValidString (json_quote s) = true.
Proof.
  intros Hs. unfold json_quote. apply (ValidString_app (String dq EmptyString)); [done|].
  apply ValidString_app; [by apply quote_body_valid|done].
Qed.

Lemma concat_valid l :
  Forall (fun s => ValidString s = true) l -> ValidString (String.concat "," l) = true.
Proof.
  induction 1 as [|s l Hs Hl IH]; [done|]. destruct l as [|s' l]; [done|].
  change (String.concat "," (s :: s' :: l)) with (s +:+ "," +:+ String.concat "," (s' :: l)).
  apply ValidString_app; [done|]. by apply ValidString_app.
Qed.

Lemma dec_valid z : ValidString (dec_of_Z z) = true.
Proof.
  apply ValidString_ascii.
  assert (Hpos : forall n, str_forallb (fun c => byte_of c <? 128) (dec_of_N n) = true).
  { intros n. destruct (dec_of_N_spec n) as (Hd & _). revert Hd. apply str_forallb_impl.
    intros c. unfold is_digit, in_range. intros [_ H%N.leb_le]%andb_true_iff. apply N.ltb_lt. lia. }
  destruct z as [|p|p]; [apply (Hpos 0)|apply (Hpos (Npos p))|]. apply (Hpos (Npos p)).
Qed.

Lemma print_valid v : jwf v -> ValidString (json_print v) = true.
Proof.
  induction v as [|b|lit|s|l Hl|l Hl] using jvalue_nested_ind; intros Hv.
  - done.
  - by destruct b.
  - destruct Hv as [z ->]. apply dec_valid.
  - by apply quote_valid.
  - change (json_print (JArr l)) with ("[" +:+ String.concat "," (List.map json_print l) +:+ "]").
    apply ValidString_app; [done|]. apply ValidString_app; [|done]. apply concat_valid.
    induction Hl as [|v l Hvl Hl IH]; constructor; [apply Hvl, Hv|apply IH, Hv].
  - change (json_print (JObj l)) with ("{" +:+ String.concat "," (List.map print_member l) +:+ "}").
    apply ValidString_app; [done|]. apply ValidString_app; [|done]. apply concat_valid.
    induction Hl as [|[k v] l Hvl Hl IH]; constructor; [|apply IH, Hv].
    unfold print_member. simpl. apply ValidString_app; [apply quote_valid, Hv|].
    apply (ValidString_app ":"); [done|]. apply Hvl, Hv.
Qed.

(** A document printed from a schema-conforming value decodes to that value. *)
Lemma Decode_print {T} v allowed (unmarshal : jvalue -> option T) x :
  jwf v -> checkValue v [] allowed 0 = None -> unmarshal v = Some x -> Decode (json_print v) allowed unmarshal = Ok x.
Proof.
  intros Hv Hc Hx. unfold Decode, checkDocument, validSurrogates.
  rewrite print_valid by done. rewrite <- (append_nil_r (json_print v)) at 1.
  rewrite surr_print by done. simpl. by rewrite json_parse_print, Hc, Hx.
Qed.
