(* ===== verification/Sha256.v ===== *)
(** * SHA-256 (Go's [crypto/sha256])

    The digest used by [HashRequester], [DigestBuild] and the receipts, as
    FIPS 180-4 defines it, with its lower-case hexadecimal form. *)
From S2P Require Import Prelude GoText.

Local Open Scope N_scope.

Definition w32 (n : N) : N := N.land n 4294967295.
Definition add32 (a b : N) : N := w32 (a + b).
Definition rotr (k x : N) : N := N.lor (N.shiftr x k) (w32 (N.shiftl x (32 - k))).

Definition ch (x y z : N) : N := N.lxor (N.land x y) (N.land (N.lxor x 4294967295) z).
Definition maj (x y z : N) : N := N.lxor (N.lxor (N.land x y) (N.land x z)) (N.land y z).
Definition bsig0 x := N.lxor (N.lxor (rotr 2 x) (rotr 13 x)) (rotr 22 x).
Definition bsig1 x := N.lxor (N.lxor (rotr 6 x) (rotr 11 x)) (rotr 25 x).
Definition ssig0 x := N.lxor (N.lxor (rotr 7 x) (rotr 18 x)) (N.shiftr x 3).
Definition ssig1 x := N.lxor (N.lxor (rotr 17 x) (rotr 19 x)) (N.shiftr x 10).

Definition K256 : list N :=
  [1116352408; 1899447441; 3049323471; 3921009573; 961987163; 1508970993; 2453635748; 2870763221;
   3624381080; 310598401; 607225278; 1426881987; 1925078388; 2162078206; 2614888103; 3248222580;
   3835390401; 4022224774; 264347078; 604807628; 770255983; 1249150122; 1555081692; 1996064986;
   2554220882; 2821834349; 2952996808; 3210313671; 3336571891; 3584528711; 113926993; 338241895;
   666307205; 773529912; 1294757372; 1396182291; 1695183700; 1986661051; 2177026350; 2456956037;
   2730485921; 2820302411; 3259730800; 3345764771; 3516065817; 3600352804; 4094571909; 275423344;
   430227734; 506948616; 659060556; 883997877; 958139571; 1322822218; 1537002063; 1747873779;
   1955562222; 2024104815; 2227730452; 2361852424; 2428436474; 2756734187; 3204031479; 3329325298].

Record hstate := H256 { h0 : N; h1 : N; h2 : N; h3 : N; h4 : N; h5 : N; h6 : N; h7 : N }.

Definition init256 : hstate :=
  H256 1779033703 3144134277 1013904242 2773480762 1359893119 2600822924 528734635 1541459225.

Definition round (s : hstate) (kw : N * N) : hstate :=
  let t1 := add32 (add32 (add32 (add32 (h7 s) (bsig1 (h4 s))) (ch (h4 s) (h5 s) (h6 s))) (fst kw)) (snd kw) in
  let t2 := add32 (bsig0 (h0 s)) (maj (h0 s) (h1 s) (h2 s)) in
  H256 (add32 t1 t2) (h0 s) (h1 s) (h2 s) (add32 (h3 s) t1) (h4 s) (h5 s) (h6 s).

(** The message schedule, kept reversed: the newest word first. *)
Fixpoint schedule (n : nat) (ws : list N) : list N :=
  match n with
  | O => ws
  | S n' =>
      let w i := nth i ws 0 in
      schedule n' (add32 (add32 (ssig1 (w 1%nat)) (w 6%nat)) (add32 (ssig0 (w 14%nat)) (w 15%nat)) :: ws)
  end.

Definition block (s : hstate) (ws : list N) : hstate :=
  let full := rev (schedule 48 (rev ws)) in
  let r := fold_left round (combine K256 full) s in
  H256 (add32 (h0 s) (h0 r)) (add32 (h1 s) (h1 r)) (add32 (h2 s) (h2 r)) (add32 (h3 s) (h3 r))
       (add32 (h4 s) (h4 r)) (add32 (h5 s) (h5 r)) (add32 (h6 s) (h6 r)) (add32 (h7 s) (h7 r)).

Fixpoint bytes_of (s : string) : list N :=
  match s with EmptyString => [] | String c r => byte_of c :: bytes_of r end.

Definition be_bytes (k : nat) (n : N) : list N :=
  List.map (fun i => N.land (N.shiftr n (8 * N.of_nat i)) 255) (rev (seq 0 k)).

Definition pad (bs : list N) : list N :=
  let l := List.length bs in
  let z := ((119 - l mod 64) mod 64)%nat in
  bs ++ 128 :: repeat 0 z ++ be_bytes 8 (8 * N.of_nat l).

Fixpoint words (bs : list N) : list N :=
  match bs with
  | a :: b :: c :: d :: r => (a * 16777216 + b * 65536 + c * 256 + d) :: words r
  | _ => []
  end.

Fixpoint blocks (n : nat) (ws : list N) (s : hstate) : hstate :=
  match n with
  | O => s
  | S n' => blocks n' (skipn 16 ws) (block s (firstn 16 ws))
  end.

Definition digest_bytes (s : hstate) : list N :=
  List.flat_map (be_bytes 4) [h0 s; h1 s; h2 s; h3 s; h4 s; h5 s; h6 s; h7 s].

Fixpoint string_of_bytes (l : list N) : string :=
  match l with [] => EmptyString | b :: r => String (ascii_of_N b) (string_of_bytes r) end.

(** [sha256.Sum256]: 32 raw bytes. *)
Definition Sum256 (data : string) : string :=
  let ws := words (pad (bytes_of data)) in
  string_of_bytes (digest_bytes (blocks (List.length ws / 16) ws init256)).

(** [hex.EncodeToString(sum[:])]. *)
Definition sha256_hex (data : string) : string := hex_encode (Sum256 data).

Example sha256_abc :
  sha256_hex "abc" = "ba7816bf8f01cfea414140de5dae2223b00361a396177a9cb410ff61f20015ad".
Proof. vm_compute. reflexivity. Qed.

Example sha256_two_blocks :
  sha256_hex "abcdbcdecdefdefgefghfghighijhijkijkljklmklmnlmnomnopnopq"
  = "248d6a61d20638b8e5c026930c3e6039a33ce45964ff2167f6ecedd419db06c1".
Proof. vm_compute. reflexivity. Qed.

Lemma Sum256_length data : String.length (Sum256 data) = 32%nat.
Proof. reflexivity. Qed.

Lemma sha256_hex_length data : String.length (sha256_hex data) = 64%nat.
Proof. unfold sha256_hex. by rewrite hex_encode_length, Sum256_length. Qed.

Lemma sha256_hex_lower data : str_forallb is_lower_hex (sha256_hex data) = true.
Proof. apply hex_encode_lower. Qed.

#[global] Arguments sha256_hex : simpl never.
#[global] Arguments Sum256 : simpl never.
