(* ===== verification/Types.v ===== *)
(** * Resource types

    The [KovaBuild] custom resource of
    [src/internal/apis/kova/v1alpha1/types.go], the service configuration and
    the parts of the Kubernetes core objects that the admission code reads. *)
From S2P Require Import Prelude GoText Json.

(** ** Kubernetes objects *)

Record OwnerReference := mkOwner {
  or_apiVersion : string; or_kind : string; or_name : string; or_uid : string }.

Record ConfigMap := mkConfigMap {
  cm_ns : string;
  cm_name : string;
  cm_uid : string;
  cm_rv : string;
  cm_labels : gmap string string;
  cm_annotations : gmap string string;
  cm_owners : list OwnerReference;
  cm_deleting : bool;                 (* DeletionTimestamp != nil *)
  cm_immutable : option bool;
  cm_data : gmap string string;
  cm_binary : gmap string string }.

Record Namespace := mkNamespace {
  ns_name : string; ns_uid : string; ns_deleting : bool; ns_phase : string }.
Definition NamespaceActive : string := "Active".

Record Pod := mkPod {
  pod_ns : string;
  pod_name : string;
  pod_uid : string;
  pod_labels : gmap string string;
  pod_annotations : gmap string string;
  pod_owners : list OwnerReference }.

(** ** KovaBuild *)

Definition Group : string := "kova.cofy.dev".
Definition Version : string := "v1alpha1".
Definition CancellationRequestedAnnotation : string := "kova.cofy.dev/cancellation-requested-at".
Definition CleanupFinalizer : string := "kova.cofy.dev/cleanup".
Definition PhaseQueued : string := "Queued".
Definition PhaseStarting : string := "Starting".
Definition PhaseRunning : string := "Running".
Definition PhaseVerifying : string := "Verifying".
Definition PhaseFailedVerifying : string := "FailedVerifying".
Definition PhaseSucceeded : string := "Succeeded".
Definition PhaseFailed : string := "Failed".
Definition PhaseCancelled : string := "Cancelled".

Record KovaBuildTargetSpec := mkTarget { tg_target : string; tg_platform : string }.

Record KovaBuildRequester := mkRequester { rq_username : string; rq_uid : string }.

Record KovaBuildSourceSpec := mkSource { src_uri : string; src_digest : string }.

Record KovaBuildOptions := mkOptions {
  bo_format : string;
  bo_concurrency : Z;
  bo_timeout : Z;
  bo_oomCooldown : string;
  bo_failFast : bool;
  bo_verbose : bool;
  bo_vars : list string }.

Record KovaBuildSpec := mkSpec {
  sp_requester : KovaBuildRequester;
  sp_targets : list KovaBuildTargetSpec;
  sp_source : KovaBuildSourceSpec;
  sp_build : KovaBuildOptions;
  sp_idempotencyKey : string }.

(** [ObjectMeta], [Spec] and the status fields that admission reads.  Times are
    seconds; [kb_created] is [CreationTimestamp]. *)
Record KovaBuild := mkBuild {
  kb_ns : string;
  kb_name : string;
  kb_uid : string;
  kb_rv : string;
  kb_labels : gmap string string;
  kb_annotations : gmap string string;
  kb_finalizers : list string;
  kb_owners : list OwnerReference;
  kb_created : Z;
  kb_deleting : bool;
  kb_spec : KovaBuildSpec;
  kb_phase : string;                  (* Status.Phase *)
  kb_allocated : Z;                   (* Status.AllocatedConcurrency *)
  kb_runnerPod : string }.            (* Status.RunnerPodName *)

(** The admission limits of [src/internal/service/config/config.go]. *)
Record Config := mkConfig {
  cfg_namespace : string;
  MaxActiveJobs_ : Z;
  MaxActiveJobsPerRequester : Z;
  MaxQueuedJobs : Z;
  MaxQueuedJobsPerRequester : Z;
  WorkerSlots : Z;
  cfg_WorkerPoolID : string;
  cfg_RunnerImage : string;
  cfg_RunnerImageDigest : string }.

#[export] Instance OwnerReference_eq_dec : EqDecision OwnerReference.
Proof. solve_decision. Defined.
#[export] Instance ConfigMap_eq_dec : EqDecision ConfigMap.
Proof. solve_decision. Defined.
#[export] Instance KovaBuildTargetSpec_eq_dec : EqDecision KovaBuildTargetSpec.
Proof. solve_decision. Defined.
#[export] Instance KovaBuildRequester_eq_dec : EqDecision KovaBuildRequester.
Proof. solve_decision. Defined.
#[export] Instance KovaBuildSourceSpec_eq_dec : EqDecision KovaBuildSourceSpec.
Proof. solve_decision. Defined.
#[export] Instance KovaBuildOptions_eq_dec : EqDecision KovaBuildOptions.
Proof. solve_decision. Defined.
#[export] Instance KovaBuildSpec_eq_dec : EqDecision KovaBuildSpec.
Proof. solve_decision. Defined.
#[export] Instance KovaBuild_eq_dec : EqDecision KovaBuild.
Proof. solve_decision. Defined.

(** ** [json.Marshal] of the specification *)

Definition js (k s : string) : list (string * jvalue) := [(k, JStr s)].
(** [omitempty] on strings, integers, booleans and slices. *)
Definition js_omit (k s : string) : list (string * jvalue) := if sempty s then [] else [(k, JStr s)].
Definition jn (k : string) (z : Z) : list (string * jvalue) := [(k, JNum (dec_of_Z z))].
Definition jn_omit (k : string) (z : Z) : list (string * jvalue) := if (z =? 0)%Z then [] else jn k z.
Definition jb_omit (k : string) (b : bool) : list (string * jvalue) := if b then [(k, JBool true)] else [].
Definition jl_omit (k : string) (l : list string) : list (string * jvalue) :=
  match l with [] => [] | _ => [(k, JArr (List.map JStr l))] end.

Definition json_of_options (o : KovaBuildOptions) : jvalue :=
  JObj (js_omit "format" (bo_format o) ++ jn_omit "concurrency" (bo_concurrency o) ++
        jn_omit "timeout" (bo_timeout o) ++ js_omit "oomCooldown" (bo_oomCooldown o) ++
        jb_omit "failFast" (bo_failFast o) ++ jb_omit "verbose" (bo_verbose o) ++
        jl_omit "vars" (bo_vars o)).

Definition json_of_target (t : KovaBuildTargetSpec) : jvalue :=
  JObj (js "target" (tg_target t) ++ js "platform" (tg_platform t)).

(** Struct-typed fields ignore [omitempty]; a nil target slice prints null. *)
Definition json_of_spec (s : KovaBuildSpec) : jvalue :=
  JObj ([("requester", JObj (js "username" (rq_username (sp_requester s)) ++ js_omit "uid" (rq_uid (sp_requester s))));
         ("targets", match sp_targets s with [] => JNull | l => JArr (List.map json_of_target l) end);
         ("source", JObj (js "uri" (src_uri (sp_source s)) ++ js "digest" (src_digest (sp_source s))));
         ("build", json_of_options (sp_build s))] ++
        js_omit "idempotencyKey" (sp_idempotencyKey s)).

Definition with_requester_uid (s : KovaBuildSpec) (uid : string) : KovaBuildSpec :=
  {| sp_requester := {| rq_username := rq_username (sp_requester s); rq_uid := uid |};
     sp_targets := sp_targets s; sp_source := sp_source s; sp_build := sp_build s;
     sp_idempotencyKey := sp_idempotencyKey s |}.

(** [src/internal/service/buildcontroller/status.go]: shared predicates. *)
Definition cancellationRequested (b : KovaBuild) : bool :=
  negb (sempty (mget (kb_annotations b) CancellationRequestedAnnotation)).

Definition isTerminalPhase (phase : string) : bool :=
  seqb phase PhaseSucceeded || seqb phase PhaseFailed || seqb phase PhaseCancelled.

(** A fresh or queued phase: the only ones that may still be granted. *)
Definition queuedPhase (phase : string) : bool := sempty phase || seqb phase PhaseQueued.
