(* ===== verification/JsonSize.v ===== *)
(** * Sizes and well-formedness of printed records

    Facts shared by the two ledger codecs: the length of a printed object is
    bounded member by member, printed members are well formed, and printed
    integers are read back at their width. *)
From S2P Require Import Prelude GoText Json JsonFacts AdmissionJson Types.

(** Decides a closed proposition by evaluation. *)
Ltac compute_decide := apply (bool_decide_unpack _); vm_compute; exact I.

(** Evaluates the lengths of string literals in the hypotheses. *)
Ltac slen_consts :=
  repeat match goal with
  | L : context [slen (String ?a ?b)] |- _ =>
      let n := eval vm_compute in (slen (String a b)) in change (slen (String a b)) with n in L
  end.

(** ** Sizes *)

(** Upper bound on the members of a printed object, separators included. *)
Definition obj_len (l : list (string * jvalue)) : Z :=
  foldr (fun kv n => (1 + Z.of_nat (String.length (print_member kv)) + n)%Z) 0%Z l.

Lemma obj_len_app l l' : obj_len (l ++ l') = (obj_len l + obj_len l')%Z.
Proof. induction l as [|kv l IH]; simpl; [done|]. rewrite IH. lia. Qed.

Lemma obj_len_nonneg l : (0 <= obj_len l)%Z.
Proof. induction l as [|kv l IH]; simpl; lia. Qed.

Lemma print_obj_len l : (Z.of_nat (String.length (json_print (JObj l))) <= 2 + obj_len l)%Z.
Proof.
  change (json_print (JObj l)) with (String "{" (String.concat "," (List.map print_member l) +:+ "}")).
  simpl String.length. rewrite length_append, concat_length, List.length_map.
  change (String.length ",") with 1. change (String.length "}") with 1.
  assert (Hs : (Z.of_nat (foldr (fun s n => String.length s + n) 0 (List.map print_member l) + List.length l)%nat <= obj_len l)%Z).
  { induction l as [|kv l IH]; simpl in *; lia. }
  lia.
Qed.

Lemma obj_len_one k v :
  obj_len [(k, v)] = (2 + Z.of_nat (String.length (json_quote k)) + Z.of_nat (String.length (json_print v)))%Z.
Proof.
  change (obj_len [(k, v)]) with (1 + Z.of_nat (String.length (print_member (k, v))) + 0)%Z.
  unfold print_member. cbn [fst snd]. rewrite length_append.
  change (String.length (String ":" (json_print v))) with (S (String.length (json_print v))). lia.
Qed.

Lemma obj_len_js k s :
  str_forallb plain_byte k = true -> str_forallb plain_byte s = true ->
  obj_len (js k s) = (6 + slen k + slen s)%Z.
Proof.
  intros Hk Hs. unfold js. rewrite obj_len_one. change (json_print (JStr s)) with (json_quote s).
  rewrite !json_quote_plain by done. unfold slen. lia.
Qed.

Lemma obj_len_js_omit k s :
  str_forallb plain_byte k = true -> str_forallb plain_byte s = true ->
  (obj_len (js_omit k s) <= 6 + slen k + slen s)%Z.
Proof.
  intros Hk Hs. unfold js_omit. destruct (sempty s).
  - simpl. pose proof (slen_nonneg k). pose proof (slen_nonneg s). lia.
  - pose proof (obj_len_js k s Hk Hs) as E. unfold js in E. lia.
Qed.

Lemma obj_len_jn k z n :
  str_forallb plain_byte k = true -> (0 <= z)%Z -> (0 < n) -> (z < 10 ^ Z.of_nat n)%Z ->
  (obj_len (jn k z) <= 4 + slen k + Z.of_nat n)%Z.
Proof.
  intros Hk Hz Hn Hb. unfold jn. rewrite obj_len_one. change (json_print (JNum ?l)) with l.
  rewrite json_quote_plain by done.
  assert (String.length (dec_of_Z z) <= n).
  { destruct z as [|p|p]; [| |lia]; simpl dec_of_Z; apply dec_of_N_length; try done.
    - apply N.neq_0_lt_0, N.pow_nonzero. done.
    - change (Npos p) with (Z.to_N (Zpos p)). rewrite <- (N2Z.id (10 ^ N.of_nat n)).
      apply Z2N.inj_lt; [lia|lia|]. rewrite N2Z.inj_pow, nat_N_Z. done. }
  unfold slen. lia.
Qed.

Lemma plain_of (f : ascii -> bool) s :
  (forall c, f c = true -> plain_byte c = true) -> str_forallb f s = true -> str_forallb plain_byte s = true.
Proof. apply str_forallb_impl. Qed.

Lemma lower_hex_plain s : str_forallb is_lower_hex s = true -> str_forallb plain_byte s = true.
Proof.
  apply plain_of. intros c. destruct c as [[] [] [] [] [] [] [] []]; intros E; vm_compute in E; try discriminate E; done.
Qed.

(** ** Well-formed members *)

Lemma plain_valid s : str_forallb plain_byte s = true -> ValidString s = true.
Proof.
  intros Hs. apply ValidString_ascii. revert Hs. apply str_forallb_impl.
  intros c Hc. destruct (esc_plain c Hc) as [_ ?]. by apply N.ltb_lt.
Qed.

Fixpoint members_wf (l : list (string * jvalue)) : Prop :=
  match l with
  | [] => True
  | (k, x) :: r => ValidString k = true /\ jwf x /\ members_wf r
  end.

Lemma members_wf_app l l' : members_wf l -> members_wf l' -> members_wf (l ++ l').
Proof. induction l as [|[k v] l IH]; simpl; [done|]. intros (? & ? & ?) ?. auto. Qed.

Lemma js_wf k s : ValidString k = true -> ValidString s = true -> members_wf (js k s).
Proof. by repeat split. Qed.

Lemma js_omit_wf k s : ValidString k = true -> ValidString s = true -> members_wf (js_omit k s).
Proof. unfold js_omit. destruct (sempty s); by repeat split. Qed.

Lemma jn_wf k z : ValidString k = true -> members_wf (jn k z).
Proof. intros. repeat split; [done|]. by exists z. Qed.

Lemma jn_omit_wf k z : ValidString k = true -> members_wf (jn_omit k z).
Proof. intros Hk. unfold jn_omit. destruct (z =? 0)%Z; [done|by apply jn_wf]. Qed.

Lemma jb_omit_wf k b : ValidString k = true -> members_wf (jb_omit k b).
Proof. intros Hk. destruct b; by repeat split. Qed.

Lemma jl_omit_wf k l : ValidString k = true -> Forall (fun s => ValidString s = true) l -> members_wf (jl_omit k l).
Proof.
  intros Hk Hl. unfold jl_omit. destruct l as [|a l]; [done|]. split; [done|]. split; [|done].
  induction Hl as [|b l' Hb _ IH]; [done|]. by split.
Qed.

(** ** Integers *)

Lemma jint64_dec c : (- 2 ^ 63 <= c < 2 ^ 63)%Z -> jint64 (Some (JNum (dec_of_Z c))) = Some c.
Proof.
  intros Hc. unfold jint64, jint. rewrite parse_dec_of_Z.
  destruct (Z.leb_spec (- 2 ^ 63) c), (Z.leb_spec c (2 ^ 63 - 1)); try lia. done.
Qed.

Lemma jint64_range o z : jint64 o = Some z -> (- 2 ^ 63 <= z < 2 ^ 63)%Z.
Proof.
  unfold jint64, jint. destruct o as [[| |lit| | |]|]; try done; [|intros [= <-]; lia].
  destruct (parse_dec_Z lit) as [z'|]; [|done].
  destruct (Z.leb_spec (- 2 ^ 63) z'), (Z.leb_spec z' (2 ^ 63 - 1)); simpl; try done. intros [= <-]. lia.
Qed.

Lemma dec_of_Z_unsigned z : (0 <= z)%Z -> match dec_of_Z z with String c _ => c <> "-"%char | EmptyString => False end.
Proof.
  intros Hz. assert (Hn : exists n, dec_of_Z z = dec_of_N n) by (destruct z; [by eexists|by eexists|lia]).
  destruct Hn as [n ->]. destruct (dec_of_N_spec n) as (H1 & H2 & _).
  destruct (str_forallb_head _ _ H1 H2) as (c & r & -> & Hc & _). by intros ->.
Qed.

Lemma juint64_dec c : (0 <= c < 2 ^ 64)%Z -> juint64 (Some (JNum (dec_of_Z c))) = Some c.
Proof.
  intros Hc. assert (Hd : jint 0 (2 ^ 64 - 1) (Some (JNum (dec_of_Z c))) = Some c).
  { unfold jint. rewrite parse_dec_of_Z. destruct (Z.leb_spec 0 c), (Z.leb_spec c (2 ^ 64 - 1)); try lia. done. }
  unfold juint64. pose proof (dec_of_Z_unsigned c ltac:(lia)) as Hs.
  destruct (dec_of_Z c) as [|a s]; [done|]. by case_bool_decide; subst.
Qed.

Lemma juint64_range o z : juint64 o = Some z -> (0 <= z < 2 ^ 64)%Z.
Proof.
  assert (Hj : jint 0 (2 ^ 64 - 1) o = Some z -> (0 <= z < 2 ^ 64)%Z).
  { unfold jint. destruct o as [[| |lit| | |]|]; try done; [|intros [= <-]; lia].
    destruct (parse_dec_Z lit) as [z'|]; [|done].
    destruct (Z.leb_spec 0 z'), (Z.leb_spec z' (2 ^ 64 - 1)); simpl; try done. intros [= <-]. lia. }
  unfold juint64. destruct o as [[| |[|a lit]| | |]|]; try done. by case_bool_decide.
Qed.

(** Any string value is printed within six bytes per rune. *)
Lemma obj_len_js_runes k s n :
  str_forallb plain_byte k = true -> (RuneCountInString s <= n)%Z ->
  (obj_len (js k s) <= 6 + slen k + 6 * n)%Z.
Proof.
  intros Hk Hs. unfold js. rewrite obj_len_one. change (json_print (JStr s)) with (json_quote s).
  pose proof (json_quote_runes s). rewrite json_quote_plain by done. unfold slen. lia.
Qed.

Lemma obj_len_js_omit_length k s n :
  str_forallb plain_byte k = true -> (slen s <= n)%Z ->
  (obj_len (js_omit k s) <= 6 + slen k + 6 * n)%Z.
Proof.
  intros Hk Hs. unfold js_omit. pose proof (slen_nonneg k). pose proof (slen_nonneg s).
  destruct (sempty s); [simpl; lia|]. rewrite obj_len_one. change (json_print (JStr s)) with (json_quote s).
  pose proof (json_quote_length s). rewrite json_quote_plain by done. unfold slen in *. lia.
Qed.

Lemma obj_len_jn_omit k z n :
  str_forallb plain_byte k = true -> (0 <= z)%Z -> (0 < n) -> (z < 10 ^ Z.of_nat n)%Z ->
  (obj_len (jn_omit k z) <= 4 + slen k + Z.of_nat n)%Z.
Proof.
  intros Hk Hz Hn Hb. unfold jn_omit. destruct (z =? 0)%Z; [|by apply obj_len_jn].
  simpl. pose proof (slen_nonneg k). lia.
Qed.

Lemma obj_len_jb_omit k b :
  str_forallb plain_byte k = true -> (obj_len (jb_omit k b) <= 8 + slen k)%Z.
Proof.
  intros Hk. unfold jb_omit. pose proof (slen_nonneg k). destruct b; [|simpl; lia].
  rewrite obj_len_one, json_quote_plain by done. change (String.length (json_print (JBool true))) with 4. unfold slen. lia.
Qed.

(** ** Optional members *)

Lemma jfield_app l l' k :
  jfield (l ++ l') k = match jfield l k with Some v => Some v | None => jfield l' k end.
Proof. induction l as [|[k' v] l IH]; simpl; [done|]. by case_bool_decide. Qed.

(** A group of members that all carry the key [k]. *)
Definition keyed (k : string) (l : list (string * jvalue)) : Prop := l.*1 `sublist_of` [k].

Lemma keyed_one k v : keyed k [(k, v)].
Proof. unfold keyed. simpl. reflexivity. Qed.
Lemma keyed_none k : keyed k [].
Proof. apply sublist_nil_l. Qed.
Lemma keyed_js k s : keyed k (js k s).
Proof. apply keyed_one. Qed.
Lemma keyed_jn k z : keyed k (jn k z).
Proof. apply keyed_one. Qed.
Lemma keyed_js_omit k s : keyed k (js_omit k s).
Proof. unfold js_omit. destruct (sempty s); [apply keyed_none|apply keyed_one]. Qed.
Lemma keyed_jn_omit k z : keyed k (jn_omit k z).
Proof. unfold jn_omit. destruct (z =? 0)%Z; [apply keyed_none|apply keyed_one]. Qed.
Lemma keyed_jb_omit k b : keyed k (jb_omit k b).
Proof. unfold jb_omit. destruct b; [apply keyed_one|apply keyed_none]. Qed.
Lemma keyed_jl_omit k l : keyed k (jl_omit k l).
Proof. unfold jl_omit. destruct l; [apply keyed_none|apply keyed_one]. Qed.
#[export] Hint Resolve keyed_one keyed_js keyed_jn keyed_js_omit keyed_jn_omit keyed_jb_omit keyed_jl_omit : kova.

Lemma keyed_app k ks l l' : keyed k l -> l'.*1 `sublist_of` ks -> (l ++ l').*1 `sublist_of` k :: ks.
Proof. intros Hl Hl'. rewrite fmap_app. change (k :: ks) with ([k] ++ ks). by apply sublist_app. Qed.

Lemma jfield_none l k : k ∉ l.*1 -> jfield l k = None.
Proof.
  induction l as [|[k' v] l IH]; simpl; [done|]. intros [Hk Hl]%not_elem_of_cons.
  rewrite bool_decide_eq_false_2 by congruence. by apply IH.
Qed.

Lemma keyed_other k k' l : keyed k' l -> bool_decide (k' = k) = false -> jfield l k = None.
Proof.
  intros Hl Hk%bool_decide_eq_false. apply jfield_none. intros Hin.
  eapply elem_of_submseteq in Hin; [|by apply sublist_submseteq]. set_solver.
Qed.

(** Looking up one key in a concatenation of keyed groups. *)
Lemma jfield_skip k k' l l' : keyed k' l -> bool_decide (k' = k) = false -> jfield (l ++ l') k = jfield l' k.
Proof. intros Hl Hk. by rewrite jfield_app, (keyed_other k k' l). Qed.

Lemma read_js k s l : jstring (jfield (js k s ++ l) k) = Some s.
Proof. simpl. by rewrite bool_decide_eq_true_2. Qed.

Lemma read_js_omit k s l : jfield l k = None -> jstring (jfield (js_omit k s ++ l) k) = Some s.
Proof.
  intros Hl. unfold js_omit, sempty. case_bool_decide; simpl; [subst; by rewrite Hl|].
  by rewrite bool_decide_eq_true_2.
Qed.

Lemma read_jb_omit k b l : jfield l k = None -> jbool (jfield (jb_omit k b ++ l) k) = Some b.
Proof. intros Hl. destruct b; simpl; [by rewrite bool_decide_eq_true_2|by rewrite Hl]. Qed.

Lemma read_jn k z l : (- 2 ^ 63 <= z < 2 ^ 63)%Z -> jint64 (jfield (jn k z ++ l) k) = Some z.
Proof. intros Hz. simpl. rewrite bool_decide_eq_true_2 by done. by apply jint64_dec. Qed.

Lemma read_un k z l : (0 <= z < 2 ^ 64)%Z -> juint64 (jfield (jn k z ++ l) k) = Some z.
Proof. intros Hz. simpl. rewrite bool_decide_eq_true_2 by done. by apply juint64_dec. Qed.

Lemma read_un_omit k z l : (0 <= z < 2 ^ 64)%Z -> jfield l k = None -> juint64 (jfield (jn_omit k z ++ l) k) = Some z.
Proof.
  intros Hz Hl. unfold jn_omit. destruct (Z.eqb_spec z 0) as [->|]; [simpl; by rewrite Hl|]. by apply read_un.
Qed.

Ltac jskip :=
  repeat (erewrite jfield_skip; [|solve [auto with kova]|reflexivity]).
Ltac jabsent := jskip; solve [reflexivity | eapply keyed_other; [solve [auto with kova]|reflexivity]].

(** Reads one member back from a concatenation of keyed groups. *)
Ltac jread :=
  jskip;
  first [ apply read_js | apply read_js_omit; jabsent | apply read_jb_omit; jabsent
        | apply read_jn; lia | apply read_un; lia | apply read_un_omit; [lia|jabsent] ].

(** ** The strict schema check on keyed members *)

Definition scalar (v : jvalue) : Prop :=
  match v with JBool _ | JNum _ | JStr _ => True | _ => False end.

Lemma check_scalar v path allowed depth : scalar v -> (depth <= 5)%Z -> checkValue v path allowed depth = None.
Proof. intros Hv Hd. destruct v; try done; simpl; destruct (Z.ltb_spec 5 depth); try lia; done. Qed.

Lemma check_members path allowed depth seen l :
  NoDup l.*1 -> (forall k, k ∈ seen -> k ∉ l.*1) -> (forall k, k ∈ l.*1 -> allowed path k = true) ->
  (forall k v, (k, v) ∈ l -> checkValue v (path ++ [k]) allowed (depth + 1) = None) ->
  checkMembers path allowed depth seen l = None.
Proof.
  revert seen. induction l as [|[k v] l IH]; intros seen Hd Hseen Ha Hv; [done|].
  apply NoDup_cons in Hd as [Hk Hd]. cbn [fmap list_fmap fst] in Hseen, Ha.
  rewrite checkMembers_cons; [| |intros Hin; eapply Hseen; [done|left]|apply Hv; left].
  - apply IH; [done| |intros k' Hk'; apply Ha; by right|intros k' v' Hv'; apply Hv; by right].
    intros k' [->|Hk']%elem_of_cons; [done|]. intros Hin. eapply Hseen; [done|]. by right.
  - apply Ha. left.
Qed.

Lemma check_object keys path allowed depth l :
  (depth <= 5)%Z -> l.*1 `sublist_of` keys -> NoDup keys -> Forall (fun k => allowed path k = true) keys ->
  (forall k v, (k, v) ∈ l -> checkValue v (path ++ [k]) allowed (depth + 1) = None) ->
  checkValue (JObj l) path allowed depth = None.
Proof.
  intros Hdep Hs Hd Ha Hv. rewrite checkValue_obj. destruct (Z.ltb_spec 5 depth); [lia|].
  apply check_members; [by eapply sublist_NoDup|by intros k ?%elem_of_nil| |done].
  intros k Hk. rewrite Forall_forall in Ha. apply Ha. eapply elem_of_submseteq; [done|]. by apply sublist_submseteq.
Qed.
