(* ===== verification/Kube.v ===== *)
(** * Effects: the Kubernetes API as requests, and a program logic for them

    A Go function that talks to the API server is a [prog]: a tree of requests
    ([api]) whose branches are the possible answers.  Every loop of the modelled
    code is bounded, so every [prog] is a finite tree and a call always returns.

    The API server is not part of this repository; [ApiServer] states the
    documented behaviour the code relies on (resourceVersion compare-and-swap,
    versions that are never reused, reads that return some committed version,
    errors that may hide a committed write).  [wp] runs one program against an
    arbitrary server while other clients change the world between any two of
    its requests, and [pool] interleaves any number of programs. *)
From S2P Require Import Prelude GoText Json Types Sha256.

(** ** Requests *)

Inductive patch_op :=
| PTest (path : list string) (value : string)
| PTestImmutable (value : bool)
| PReplace (path : list string) (value : string)
| PAddImmutable (value : bool).

Inductive api : Type -> Type :=
| CtxDone : api (option error)                       (* ctx.Err() *)
| Wait (ms : Z) : api (option error)                 (* a timer raced with ctx.Done() *)
| Rand16 : api (result N)                            (* rand.Read of 16 bytes *)
| Now : api Z                                        (* time.Now().Unix() *)
| GetConfigMap (ns name : string) : api (result ConfigMap)
| CreateConfigMap (cm : ConfigMap) : api (option ConfigMap * option error)
| UpdateConfigMap (cm : ConfigMap) : api (option error)
| PatchConfigMap (ns name : string) (ops : list patch_op) : api (result ConfigMap)
| DeleteConfigMap (ns name uid : string) : api (option error)
| GetBuild (ns name : string) : api (result KovaBuild)
| ListBuilds (ns : string) (limit : option Z) : api (result (list KovaBuild))
| UpdateBuild (b : KovaBuild) : api (option error)
| GetPod (ns name : string) : api (result Pod)
| ListPods (ns : string) : api (result (list Pod))
| GetNamespace (name : string) : api (result Namespace)
| Callback (name : string) : api (option error)      (* an installed Go closure *)
| WakeBuild (ns name : string) : api (option error)  (* targeted wake channel *)
| Monotonic : api Z                                  (* time.Now() in nanoseconds, for time.Since *)
| TryBegin (ns : string) : api (result bool)         (* AdmissionCoordinator.tryBegin: a permit was granted *)
| EndPermit : api unit                               (* freshGrantPermit.release *)
| DeferIfBusy (ns : string) : api (result (bool * Z)). (* AdmissionCoordinator.deferIfBusy *)

(** ** Programs *)

Inductive prog (A : Type) : Type :=
| Ret (a : A)
| Vis {X : Type} (e : api X) (k : X -> prog A).
Arguments Ret {A} a.
Arguments Vis {A X} e k.

Fixpoint bind {A B} (p : prog A) (f : A -> prog B) : prog B :=
  match p with
  | Ret a => f a
  | Vis e k => Vis e (fun x => bind (k x) f)
  end.

Definition call {X} (e : api X) : prog X := Vis e Ret.

Declare Scope prog_scope.
Delimit Scope prog_scope with prog.
Bind Scope prog_scope with prog.
Notation "'let*' x := p 'in' q" := (bind p (fun x => q))
  (at level 10, x pattern, p at level 100, q at level 200,
   format "'[v' 'let*'  x  :=  p  'in'  '/' q ']'") : prog_scope.
(** [if err := p; err != nil { return onerr(err) }]. *)
Notation "'chk*' p 'else' f 'in' q" :=
  (bind p (fun e => match e with Some err => f err | None => q end))
  (at level 10, p at level 100, f at level 100, q at level 200,
   format "'[v' 'chk*'  p  'else'  f  'in'  '/' q ']'") : prog_scope.
(** [x, err := p; if err != nil { return onerr(err) }]. *)
Notation "'get*' x := p 'else' f 'in' q" :=
  (bind p (fun r => match r with Err err => f err | Ok x => q end))
  (at level 10, x pattern, p at level 100, f at level 100, q at level 200,
   format "'[v' 'get*'  x  :=  p  'else'  f  'in'  '/' q ']'") : prog_scope.
Open Scope prog_scope.

(** A bounded retry loop; the body returns [None] to [continue]. *)
Fixpoint retry_loop {A} (n : nat) (retry : nat) (body : nat -> prog (option A)) (busy : A) : prog A :=
  match n with
  | O => Ret busy
  | S n' =>
      let* r := body retry in
      match r with
      | Some a => Ret a
      | None => retry_loop n' (S retry) body busy
      end
  end.

(** A bounded retry loop whose iterations update local state; [busy] is the
    result in the state the last iteration left. *)
Fixpoint retry_state {S A} (n : nat) (retry : nat) (body : nat -> S -> prog (S + A)) (s : S) (busy : S -> A) : prog A :=
  match n with
  | O => Ret (busy s)
  | Datatypes.S n' =>
      let* r := body retry s in
      match r with
      | inr a => Ret a
      | inl s' => retry_state n' (Datatypes.S retry) body s' busy
      end
  end.

(** [waitCAS] and [waitReservationCAS]: back-off of 1, 2, ..., 32 milliseconds. *)
Definition waitCAS (attempt : nat) : prog (option error) :=
  call (Wait (Z.shiftl 1 (Z.of_nat (Nat.min attempt 5)))).

(** Waiting at the end of a CAS iteration: return its error or [continue]. *)
Definition wait_continue {A} (retry : nat) (onerr : error -> A) : prog (option A) :=
  let* e := waitCAS retry in
  match e with
  | Some err => Ret (Some (onerr err))
  | None => Ret None
  end.

(** [rand.Read(raw[:])] and [hex.EncodeToString(raw[:])] on 16 bytes. *)
Definition nonce_of (n : N) : string := hex_encode (string_of_bytes (be_bytes 16 n)).
Definition random_nonce : prog (result string) :=
  let* r := call Rand16 in
  match r with
  | Ok n => Ret (Ok (nonce_of n))
  | Err e => Ret (Err e)
  end.

Lemma nonce_of_length n : String.length (nonce_of n) = 32.
Proof. unfold nonce_of. by rewrite hex_encode_length. Qed.

Lemma nonce_of_lower n : str_forallb is_lower_hex (nonce_of n) = true.
Proof. apply hex_encode_lower. Qed.

(** ** Requests a program may issue, whatever the answers *)

Fixpoint emits {A} (P : forall X, api X -> Prop) (p : prog A) : Prop :=
  match p with
  | Ret _ => True
  | Vis e k => P _ e /\ forall x, emits P (k x)
  end.

Lemma emits_mono (P P' : forall X, api X -> Prop) {A} (p : prog A) :
  (forall X e, P X e -> P' X e) -> emits P p -> emits P' p.
Proof. intros HP. induction p as [a|X e k IH]; simpl; [done|]. intros [He Hk]. split; auto. Qed.

Section emits.
Context (P : forall X, api X -> Prop).

Lemma emits_bind {A B} (p : prog A) (f : A -> prog B) :
  emits P p -> (forall a, emits P (f a)) -> emits P (bind p f).
Proof. induction p as [a|X e k IH]; simpl; [auto|]. intros [He Hk] Hf. split; auto. Qed.

Lemma emits_loop {A} n retry (body : nat -> prog (option A)) busy :
  (forall i, emits P (body i)) -> emits P (retry_loop n retry body busy).
Proof.
  revert retry. induction n as [|n IH]; intros retry Hb; simpl; [done|].
  apply emits_bind; [auto|]. intros [a|]; simpl; auto.
Qed.

Lemma emits_state {S A} n retry (body : nat -> S -> prog (S + A)) s busy :
  (forall i s, emits P (body i s)) -> emits P (retry_state n retry body s busy).
Proof.
  revert retry s. induction n as [|n IH]; intros retry s Hb; simpl; [done|].
  apply emits_bind; [auto|]. intros [a|]; simpl; auto.
Qed.
End emits.

(** Every value a program can return. *)
Fixpoint returns {A} (Q : A -> Prop) (p : prog A) : Prop :=
  match p with
  | Ret a => Q a
  | Vis e k => forall x, returns Q (k x)
  end.

Lemma returns_bind {A B} (Q : B -> Prop) (p : prog A) (f : A -> prog B) :
  (forall a, returns Q (f a)) -> returns Q (bind p f).
Proof. intros Hf. induction p as [a|X e k IH]; simpl; auto. Qed.

Lemma returns_seq {A B} (Q : A -> Prop) (R : B -> Prop) (p : prog A) (f : A -> prog B) :
  returns Q p -> (forall a, Q a -> returns R (f a)) -> returns R (bind p f).
Proof. intros Hp Hf. induction p as [a|X e k IH]; simpl in *; auto. Qed.

(** Requests that cannot change any object. *)
Definition writes_nothing {X} (e : api X) : Prop :=
  match e with
  | CreateConfigMap _ | UpdateConfigMap _ | PatchConfigMap _ _ _ | DeleteConfigMap _ _ _
  | UpdateBuild _ => False
  | _ => True
  end.

(** Observations: requests that neither change an object nor wake a build nor
    take or return a local permit. *)
Definition read_only {X} (e : api X) : Prop :=
  match e with
  | WakeBuild _ _ | TryBegin _ | EndPermit | DeferIfBusy _ => False
  | _ => writes_nothing e
  end.

Lemma read_only_writes_nothing {X} (e : api X) : read_only e -> writes_nothing e.
Proof. by destruct e. Qed.

(** ** The API server *)

Definition okey : Type := string * string.
Definition cm_key (c : ConfigMap) : okey := (cm_ns c, cm_name c).

(** JSON Patch (RFC 6902) as the code uses it, on the addressed fields. *)
Definition patch_test (c : ConfigMap) (op : patch_op) : bool :=
  match op with
  | PTest ["metadata"; "uid"] v => seqb (cm_uid c) v
  | PTest ["metadata"; "resourceVersion"] v => seqb (cm_rv c) v
  | PTest ["data"; k] v => bool_decide (cm_data c !! k = Some v)
  | PTestImmutable v => bool_decide (cm_immutable c = Some v)
  | PReplace ["data"; k] _ => bool_decide (is_Some (cm_data c !! k))
  | PAddImmutable _ => true
  | _ => false
  end.
Definition patch_data (d : gmap string string) (op : patch_op) : gmap string string :=
  match op with
  | PReplace ["data"; k] v => <[k := v]> d
  | _ => d
  end.

(** Requests that do not write the ConfigMap at [k]. *)
Definition off_key (k : okey) {X} (e : api X) : Prop :=
  match e with
  | CreateConfigMap c => cm_key c <> k
  | UpdateConfigMap c => cm_key c <> k
  | PatchConfigMap ns n _ => (ns, n) <> k
  | DeleteConfigMap ns n _ => (ns, n) <> k
  | _ => True
  end.

Lemma read_only_off k {X} (e : api X) : read_only e -> off_key k e.
Proof. by destruct e. Qed.

Class ApiServer := {
  world : Type;
  (** one request answered by the server *)
  step : forall X, api X -> world -> X -> world -> Prop;
  (** any number of requests of any clients *)
  rely : world -> world -> Prop;
  (** the current object and the object at a resourceVersion *)
  cm_now : world -> okey -> option ConfigMap;
  cm_version : world -> okey -> string -> option ConfigMap;
  rely_refl : forall w, rely w w;
  rely_trans : forall w1 w2 w3, rely w1 w2 -> rely w2 w3 -> rely w1 w3;
  step_rely : forall X (e : api X) w x w', step X e w x w' -> rely w w';
  (** a resourceVersion is never reused for different content *)
  version_stable : forall w w' k rv c, rely w w' -> cm_version w k rv = Some c -> cm_version w' k rv = Some c;
  now_version : forall w k c, cm_now w k = Some c -> cm_version w k (cm_rv c) = Some c;
  (** a read returns some committed version *)
  get_version : forall ns n w c w', step _ (GetConfigMap ns n) w (Ok c) w' ->
    cm_version w' (ns, n) (cm_rv c) = Some c;
  (** the object read is the object asked for *)
  get_key : forall ns n w c w', step _ (GetConfigMap ns n) w (Ok c) w' -> cm_key c = (ns, n);
  get_build_key : forall ns n w b w', step _ (GetBuild ns n) w (Ok b) w' -> kb_ns b = ns /\ kb_name b = n;
  (** a request commits at most the version that is current after it *)
  version_new : forall X (e : api X) w x w' k rv c, step X e w x w' -> cm_version w' k rv = Some c ->
    cm_version w k rv = Some c \/ cm_now w' k = Some c;
  (** [time.Now().Unix()] is an int64 *)
  clock_int64 : forall w t w', step _ Now w t w' -> (- 2 ^ 63 <= t < 2 ^ 63)%Z;
  (** only writes to an object change it *)
  frame : forall X (e : api X) w x w' k, step X e w x w' -> off_key k e -> cm_now w' k = cm_now w k;
  (** an Update leaves the object alone or replaces the version it names *)
  update_effect : forall c w r w', step _ (UpdateConfigMap c) w r w' ->
    cm_now w' (cm_key c) = cm_now w (cm_key c) \/
    exists old new, cm_now w (cm_key c) = Some old /\ cm_rv old = cm_rv c /\
      cm_now w' (cm_key c) = Some new /\ cm_data new = cm_data c /\ cm_binary new = cm_binary c;
  update_ok : forall c w w', step _ (UpdateConfigMap c) w None w' ->
    exists old new, cm_now w (cm_key c) = Some old /\ cm_rv old = cm_rv c /\
      cm_now w' (cm_key c) = Some new /\ cm_data new = cm_data c /\ cm_binary new = cm_binary c;
  update_conflict : forall c w e w', step _ (UpdateConfigMap c) w (Some e) w' -> IsConflict e = true ->
    cm_now w' (cm_key c) = cm_now w (cm_key c);
  (** a JSON Patch applies all its operations when every test holds, or none *)
  patch_effect : forall ns n ops w r w', step _ (PatchConfigMap ns n ops) w r w' ->
    cm_now w' (ns, n) = cm_now w (ns, n) \/
    exists old new, cm_now w (ns, n) = Some old /\ forallb (patch_test old) ops = true /\
      cm_now w' (ns, n) = Some new /\ cm_data new = foldl patch_data (cm_data old) ops /\
      cm_binary new = cm_binary old;
  patch_ok : forall ns n ops w c w', step _ (PatchConfigMap ns n ops) w (Ok c) w' ->
    exists old, cm_now w (ns, n) = Some old /\ forallb (patch_test old) ops = true /\
      cm_now w' (ns, n) = Some c /\ cm_data c = foldl patch_data (cm_data old) ops /\
      cm_binary c = cm_binary old;
  (** a Create puts the object, if at all, where there was none *)
  create_effect : forall c w r w', step _ (CreateConfigMap c) w r w' ->
    cm_now w' (cm_key c) = cm_now w (cm_key c) \/
    cm_now w (cm_key c) = None /\
      exists new, cm_now w' (cm_key c) = Some new /\ cm_data new = cm_data c /\ cm_binary new = cm_binary c;
  (** a Delete with a UID precondition removes that object or nothing *)
  delete_effect : forall ns n uid w r w', step _ (DeleteConfigMap ns n uid) w r w' ->
    cm_now w' (ns, n) = cm_now w (ns, n) \/
    exists old, cm_now w (ns, n) = Some old /\ cm_uid old = uid /\ cm_now w' (ns, n) = None }.

(** ** Weakest preconditions under interference *)

Section wp.
Context `{ApiServer}.

(** [G] bounds the effect of each of the program's own requests. *)
Fixpoint wp {A} (G : world -> world -> Prop) (p : prog A) (Q : world -> A -> Prop) (w : world) : Prop :=
  match p with
  | Ret a => Q w a
  | Vis e k => forall w1, rely w w1 -> forall x w2, step _ e w1 x w2 -> G w1 w2 /\ wp G (k x) Q w2
  end.

Context (G : world -> world -> Prop).

Lemma wp_mono {A} (p : prog A) (Q Q' : world -> A -> Prop) w :
  wp G p Q w -> (forall w' a, rely w w' -> Q w' a -> Q' w' a) -> wp G p Q' w.
Proof.
  revert w. induction p as [a|X e k IH]; intros w Hp HQ; simpl in *.
  - apply HQ; [apply rely_refl|done].
  - intros w1 Hr x w2 Hs. destruct (Hp w1 Hr x w2 Hs) as [HG Hk]. split; [done|].
    apply (IH x w2 Hk). intros w' a Hr' Ha. apply HQ; [|done].
    eapply rely_trans; [exact Hr|]. eapply rely_trans; [eapply step_rely, Hs|done].
Qed.

Lemma wp_bind {A B} (p : prog A) (f : A -> prog B) (Q : world -> B -> Prop) w :
  wp G p (fun w' a => wp G (f a) Q w') w -> wp G (bind p f) Q w.
Proof.
  revert w. induction p as [a|X e k IH]; intros w Hp; simpl in *; [done|].
  intros w1 Hr x w2 Hs. destruct (Hp w1 Hr x w2 Hs) as [HG Hk]. split; auto.
Qed.

(** Cut: a specification of the first part, then the continuation. *)
Lemma wp_seq {A B} (p : prog A) (f : A -> prog B) (R : world -> A -> Prop) (Q : world -> B -> Prop) w :
  wp G p R w -> (forall w' a, rely w w' -> R w' a -> wp G (f a) Q w') -> wp G (bind p f) Q w.
Proof. intros Hp Hf. apply wp_bind. by apply (wp_mono _ _ _ _ Hp). Qed.

(** A program followed by a pure function of its result. *)
Lemma wp_map {A B} (p : prog A) (f : A -> B) (Q : world -> B -> Prop) w :
  wp G p (fun w' a => Q w' (f a)) w -> wp G (bind p (fun a => Ret (f a))) Q w.
Proof. intros Hp. by apply wp_bind. Qed.

Lemma wp_loop {A} n retry (body : nat -> prog (option A)) busy (I : world -> Prop) (Q : world -> A -> Prop) w :
  I w -> (forall w', I w' -> Q w' busy) ->
  (forall i w', I w' -> wp G (body i) (fun w2 r => match r with Some a => Q w2 a | None => I w2 end) w') ->
  wp G (retry_loop n retry body busy) Q w.
Proof.
  intros HI Hbusy Hbody. revert retry w HI. induction n as [|n IH]; intros retry w HI; simpl; [auto|].
  eapply wp_seq; [by apply Hbody|]. intros w' [a|] _ Ha; simpl; auto.
Qed.

Lemma wp_state {S A} n retry (body : nat -> S -> prog (S + A)) s busy
    (I : world -> S -> Prop) (Q : world -> A -> Prop) w :
  I w s -> (forall w' s, I w' s -> Q w' (busy s)) ->
  (forall i w' s, I w' s -> wp G (body i s) (fun w2 r => match r with inr a => Q w2 a | inl s' => I w2 s' end) w') ->
  wp G (retry_state n retry body s busy) Q w.
Proof.
  intros HI Hbusy Hbody. revert retry w s HI. induction n as [|n IH]; intros retry w s HI; simpl; [eauto|].
  eapply wp_seq; [by apply Hbody|]. intros w' [a|] _ Ha; simpl; auto.
Qed.

(** A request that meets the guarantee, whatever its answer. *)
Lemma wp_call {X} (e : api X) w :
  (forall w1 x w2, step _ e w1 x w2 -> G w1 w2) -> wp G (call e) (fun _ _ => True) w.
Proof. intros HG. simpl. eauto. Qed.

(** A weaker guarantee. *)
Lemma wp_weaken (G' : world -> world -> Prop) {A} (p : prog A) (Q : world -> A -> Prop) w :
  (forall w1 w2, rely w1 w2 -> G w1 w2 -> G' w1 w2) -> wp G p Q w -> wp G' p Q w.
Proof.
  intros HG. revert w. induction p as [a|X e k IH]; intros w Hp; simpl in *; [done|].
  intros w1 Hr x w2 Hs. destruct (Hp w1 Hr x w2 Hs) as [H1 H2].
  split; [apply HG; [by eapply step_rely|done]|by apply IH].
Qed.

(** A program all of whose requests meet the guarantee. *)
Lemma wp_emits (P : forall X, api X -> Prop) {A} (p : prog A) w :
  (forall X (e : api X) w1 x w2, P X e -> step _ e w1 x w2 -> G w1 w2) ->
  emits P p -> wp G p (fun _ _ => True) w.
Proof.
  intros HP. revert w. induction p as [a|X e k IH]; intros w He; simpl in *; [done|].
  destruct He as [He Hk]. intros w1 _ x w2 Hs. split; [by eapply HP|by apply IH].
Qed.

Lemma wp_returns {A} (p : prog A) (Q : A -> Prop) (R : world -> A -> Prop) w :
  wp G p R w -> returns Q p -> wp G p (fun w' a => R w' a /\ Q a) w.
Proof.
  revert w. induction p as [a|X e k IH]; intros w Hp HQ; simpl in *; [done|].
  intros w1 Hr x w2 Hs. destruct (Hp w1 Hr x w2 Hs) as [HG Hk]. split; auto.
Qed.
End wp.

(** ** Interleaving *)

Section pool.
Context `{ApiServer} {A : Type}.

(** Any thread issues its next request; the world may also move by itself. *)
Inductive pool_step : world * list (prog A) -> world * list (prog A) -> Prop :=
| pool_thread w ts i X (e : api X) k x w' :
    ts !! i = Some (Vis e k) -> step _ e w x w' ->
    pool_step (w, ts) (w', <[i := k x]> ts).

Inductive pool_steps : world * list (prog A) -> world * list (prog A) -> Prop :=
| pool_refl c : pool_steps c c
| pool_more c1 c2 c3 : pool_steps c1 c2 -> pool_step c2 c3 -> pool_steps c1 c3.

Lemma wp_rely (G : world -> world -> Prop) (p : prog A) (Q : world -> A -> Prop) w w' :
  (forall w1 w2 a, rely w1 w2 -> Q w1 a -> Q w2 a) -> rely w w' -> wp G p Q w -> wp G p Q w'.
Proof.
  intros HQ Hr. destruct p as [a|X e k]; simpl; [by apply HQ|].
  intros Hp w1 Hr1. apply Hp. by eapply rely_trans.
Qed.

(** If every thread meets its specification under arbitrary interference, then
    in every interleaving every request meets the guarantee and every finished
    thread its postcondition. *)
Lemma pool_sound (G : world -> world -> Prop) (Q : nat -> world -> A -> Prop) w ts w' ts' :
  (forall i w1 w2 a, rely w1 w2 -> Q i w1 a -> Q i w2 a) ->
  (forall i p, ts !! i = Some p -> wp G p (Q i) w) ->
  pool_steps (w, ts) (w', ts') ->
  rely w w' /\
  (forall i p, ts' !! i = Some p -> wp G p (Q i) w') /\
  (forall I : world -> Prop, (forall w1 w2, I w1 -> rely w1 w2 -> G w1 w2 -> I w2) -> I w -> I w').
Proof.
  intros HQ Hts Hs. remember (w, ts) as c eqn:Ec. remember (w', ts') as c' eqn:Ec'.
  revert w' ts' Ec'. induction Hs as [c|c c2 c3 Hs IH Hst]; intros w' ts' Ec'; subst.
  { simplify_eq. split; [apply rely_refl|]. eauto. }
  destruct c2 as [w2 ts2]. destruct (IH eq_refl _ _ eq_refl) as (Hr & Ht & HI).
  inversion Hst as [? ? i X e k x ? Hi Hstep]; subst.
  assert (Hr2 : rely w2 w') by (by eapply step_rely).
  destruct (Ht _ _ Hi w2 (rely_refl w2) x w' Hstep) as [HG Hwp].
  split; [by eapply rely_trans|]. split.
  - intros j p Hj. destruct (decide (j = i)) as [->|Hne].
    + rewrite list_lookup_insert_eq in Hj by (by eapply lookup_lt_Some). by simplify_eq.
    + rewrite list_lookup_insert_ne in Hj by done. eapply wp_rely; [apply HQ|done|by apply Ht].
  - intros I HIG HIw. eapply HIG; [|done|exact HG]. by apply HI.
Qed.
End pool.

#[global] Arguments retry_loop : simpl never.
#[global] Arguments retry_state : simpl never.
#[global] Arguments nonce_of : simpl never.
