(* ===== verification/Contract.v ===== *)
(** * Admission contract

    Models [src/internal/admissioncontract/contract.go]: the externally
    provisioned identity of one admission epoch, its receipt, the Genesis object
    and the qualification of namespaces and ledgers against them. *)
From S2P Require Import Prelude GoText Json JsonFacts AdmissionJson Sha256 Types.

(** Third-party validators: [k8s.io/apimachinery] name validation and the
    strict digest reference of [go-containerregistry] (its [Name] and
    [DigestStr]).  The laws are documented: an RFC 1123
    name is not empty and a subdomain consists of lower-case alphanumerics, '-' and '.'. *)
Class External := {
  IsDNS1123Subdomain : string -> bool;
  IsDNS1123Label : string -> bool;
  NewDigestStrict : string -> option (string * string);
  dns1123_alphabet : forall s, IsDNS1123Subdomain s = true ->
    str_forallb (fun c => is_lower c || is_digit c || bool_decide (c = "-"%char) || bool_decide (c = "."%char)) s = true;
  dns1123_subdomain_nonempty : forall s, IsDNS1123Subdomain s = true -> s <> EmptyString;
  dns1123_label_alphabet : forall s, IsDNS1123Label s = true ->
    str_forallb (fun c => is_lower c || is_digit c || bool_decide (c = "-"%char) || bool_decide (c = "."%char)) s = true;
  dns1123_label_nonempty : forall s, IsDNS1123Label s = true -> s <> EmptyString }.

Definition GenesisName : string := "kova-service-admission-genesis".
Definition ActiveLedgerName : string := "kova-service-admission".
Definition QueueLedgerName : string := "kova-service-queue-admission".
Definition ActiveLedgerDataKey : string := "reservations.json".
Definition QueueLedgerDataKey : string := "queue.json".
Definition GenesisDataKey : string := "genesis.json".
Definition PhaseInitializing : string := "Initializing".
Definition PhaseCommitted : string := "Committed".
Definition MaxContractJSONBytes : Z := 8192.
Definition maxOpaqueUIDBytes : Z := 256.
Definition MaxLedgerDataBytes : Z := 768 * 1024.
Definition annotationPrefix : string := "kova.cofy.dev/".
Definition annotationNamespace : string := annotationPrefix +:+ "admission-namespace-uid".
Definition annotationGenesis : string := annotationPrefix +:+ "admission-genesis-uid".
Definition annotationGeneration : string := annotationPrefix +:+ "admission-generation".
Definition annotationContract : string := annotationPrefix +:+ "admission-contract".
Definition annotationRole : string := annotationPrefix +:+ "admission-role".
Definition annotationSchema : string := annotationPrefix +:+ "admission-schema".
Definition annotationAttempt : string := annotationPrefix +:+ "admission-bootstrap".

Record Limits := mkLimits {
  lm_MaxActiveJobs : Z;
  lm_MaxActiveJobsPerRequester : Z;
  lm_WorkerSlots : Z;
  lm_MaxQueuedJobs : Z;
  lm_MaxQueuedJobsPerRequester : Z }.

Record Contract := mkContract {
  ct_Version : Z;
  ct_NamespaceUID : string;
  ct_ReceiptNamespace : string;
  ct_ReceiptNamespaceUID : string;
  ct_WorkerPoolID : string;
  ct_RunnerImage : string;
  ct_Generation : string;
  ct_ActiveLedgerName : string;
  ct_ActiveLedgerSchema : Z;
  ct_QueueLedgerName : string;
  ct_QueueLedgerSchema : Z;
  ct_Limits : Limits }.

Record Receipt := mkReceipt {
  rc_Namespace : string;
  rc_GenesisName : string;
  rc_GenesisUID : string;
  rc_Contract : Contract }.

Record GenesisData := mkGenesisData {
  gd_Contract : Contract;
  gd_Phase : string;
  gd_ActiveLedgerUID : string;
  gd_QueueLedgerUID : string }.

Inductive Role := Active | Queue.

#[export] Instance Limits_eq_dec : EqDecision Limits.
Proof. solve_decision. Defined.
#[export] Instance Contract_eq_dec : EqDecision Contract.
Proof. solve_decision. Defined.
#[export] Instance Receipt_eq_dec : EqDecision Receipt.
Proof. solve_decision. Defined.
#[export] Instance GenesisData_eq_dec : EqDecision GenesisData.
Proof. solve_decision. Defined.
#[export] Instance Role_eq_dec : EqDecision Role.
Proof. solve_decision. Defined.

Definition role_string (r : Role) : string :=
  match r with Active => "active" | Queue => "queue" end.

Definition ValidUID (uid : string) : bool :=
  negb (sempty uid) && (slen uid <=? maxOpaqueUIDBytes)%Z && ValidString uid.

Definition validNonce (value : string) : bool :=
  (slen value =? 32)%Z && str_forallb is_lower_hex value.

Definition Limits_validate (l : Limits) : option error :=
  if ((lm_MaxActiveJobs l <? 1) || (128 <? lm_MaxActiveJobs l) ||
      (lm_MaxActiveJobsPerRequester l <? 1) || (lm_MaxActiveJobs l <? lm_MaxActiveJobsPerRequester l) ||
      (lm_WorkerSlots l <? 1) || (65535 <? lm_WorkerSlots l) ||
      (lm_MaxQueuedJobs l <? 1) || (1000 <? lm_MaxQueuedJobs l) ||
      (lm_MaxQueuedJobsPerRequester l <? 1) || (lm_MaxQueuedJobs l <? lm_MaxQueuedJobsPerRequester l) ||
      (MaxLedgerDataBytes <? 8192 + 6000 * lm_MaxActiveJobs l) ||
      (MaxLedgerDataBytes <? 4096 + 736 * lm_MaxQueuedJobs l))%Z
  then Some (Plain "admission receipt has unsupported limits")
  else None.

Definition pool_byte (c : ascii) : bool :=
  is_lower c || is_upper c || is_digit c ||
  bool_decide (c ∈ ["."; "_"; ":"; "/"; "@"; "+"; "-"]%char).

Definition ValidWorkerPoolID (value : string) : bool :=
  negb (sempty value) && (slen value <=? 128)%Z && str_forallb pool_byte value.

Section contract.
Context `{External}.

Definition RunnerManifestDigest (value : string) : result string :=
  match NewDigestStrict value with
  | None => Err (Plain "runner image must be a canonical repository@sha256 manifest reference")
  | Some (name, digest) =>
      if (512 <? slen value)%Z || negb (seqb name value)
      then Err (Plain "runner image must be a canonical repository@sha256 manifest reference")
      else if negb (slen digest =? 71)%Z || negb (HasPrefix digest "sha256:")
      then Err (Plain "runner image must use a sha256 manifest digest")
      else if negb (str_forallb is_lower_hex (TrimPrefix digest "sha256:"))
      then Err (Plain "runner manifest digest must use lowercase hexadecimal")
      else Ok digest
  end.

Definition Contract_validate (c : Contract) : option error :=
  if negb (ct_Version c =? 3)%Z || negb (ValidUID (ct_NamespaceUID c)) ||
     negb (IsDNS1123Label (ct_ReceiptNamespace c)) || negb (ValidUID (ct_ReceiptNamespaceUID c)) ||
     negb (ValidWorkerPoolID (ct_WorkerPoolID c)) || negb (validNonce (ct_Generation c)) ||
     negb (seqb (ct_ActiveLedgerName c) ActiveLedgerName) || negb (ct_ActiveLedgerSchema c =? 2)%Z ||
     negb (seqb (ct_QueueLedgerName c) QueueLedgerName) || negb (ct_QueueLedgerSchema c =? 2)%Z
  then Some (Plain "admission receipt has unsupported contract")
  else match RunnerManifestDigest (ct_RunnerImage c) with
  | Err e => Some e
  | Ok _ => Limits_validate (ct_Limits c)
  end.

Definition Receipt_Validate (r : Receipt) : option error :=
  if negb (IsDNS1123Label (rc_Namespace r)) || negb (seqb (rc_GenesisName r) GenesisName) ||
     seqb (rc_Namespace r) (ct_ReceiptNamespace (rc_Contract r)) || negb (ValidUID (rc_GenesisUID r))
  then Some (Plain "admission receipt has invalid original identity")
  else Contract_validate (rc_Contract r).

(** [json.Marshal] of the contract, in field order. *)
Definition json_of_limits (l : Limits) : jvalue :=
  JObj (jn "maxActiveJobs" (lm_MaxActiveJobs l) ++ jn "maxActiveJobsPerRequester" (lm_MaxActiveJobsPerRequester l) ++
        jn "workerSlots" (lm_WorkerSlots l) ++ jn "maxQueuedJobs" (lm_MaxQueuedJobs l) ++
        jn "maxQueuedJobsPerRequester" (lm_MaxQueuedJobsPerRequester l)).
Definition json_of_contract (c : Contract) : jvalue :=
  JObj (jn "version" (ct_Version c) ++ js "namespaceUID" (ct_NamespaceUID c) ++
        js "receiptNamespace" (ct_ReceiptNamespace c) ++ js "receiptNamespaceUID" (ct_ReceiptNamespaceUID c) ++
        js "workerPoolID" (ct_WorkerPoolID c) ++ js "runnerImage" (ct_RunnerImage c) ++
        js "generation" (ct_Generation c) ++ js "activeLedgerName" (ct_ActiveLedgerName c) ++
        jn "activeLedgerSchema" (ct_ActiveLedgerSchema c) ++ js "queueLedgerName" (ct_QueueLedgerName c) ++
        jn "queueLedgerSchema" (ct_QueueLedgerSchema c) ++ [("limits", json_of_limits (ct_Limits c))]).
Definition json_of_receipt (r : Receipt) : jvalue :=
  JObj (js "namespace" (rc_Namespace r) ++ js "genesisName" (rc_GenesisName r) ++
        js "genesisUID" (rc_GenesisUID r) ++ [("contract", json_of_contract (rc_Contract r))]).
Definition json_of_genesis (g : GenesisData) : jvalue :=
  JObj (("contract", json_of_contract (gd_Contract g)) :: js "phase" (gd_Phase g) ++
        js "activeLedgerUID" (gd_ActiveLedgerUID g) ++ js "queueLedgerUID" (gd_QueueLedgerUID g)).

Definition ContractDigest (r : Receipt) : result string :=
  match Receipt_Validate r with
  | Some e => Err e
  | None => Ok (sha256_hex (json_print (json_of_contract (rc_Contract r))))
  end.

Definition allowContract : Allowed := fun path key =>
  match path with
  | [] => bool_decide (key ∈ ["namespace"; "genesisName"; "genesisUID"; "contract"; "phase"; "activeLedgerUID"; "queueLedgerUID"])
  | [p0] =>
      seqb p0 "contract" &&
      bool_decide (key ∈ ["version"; "namespaceUID"; "receiptNamespace"; "receiptNamespaceUID"; "workerPoolID";
        "runnerImage"; "generation"; "activeLedgerName"; "activeLedgerSchema"; "queueLedgerName";
        "queueLedgerSchema"; "limits"])
  | [p0; p1] =>
      seqb p0 "contract" && seqb p1 "limits" &&
      bool_decide (key ∈ ["maxActiveJobs"; "maxActiveJobsPerRequester"; "workerSlots"; "maxQueuedJobs"; "maxQueuedJobsPerRequester"])
  | _ => false
  end.

(** [RequireKeys] on the parsed document; [None] is an absent raw message. *)
Definition RequireKeys (v : option jvalue) (keys : list string) : option error :=
  match v with
  | Some (JObj l) =>
      let have := list_to_set (C := gset string) (List.map fst l) in
      if negb (bool_decide (size have = List.length keys)) then Some (Plain "admission contract has missing or extra fields")
      else if forallb (fun k => bool_decide (k ∈ have)) keys then None
      else Some (Plain "admission contract has missing field")
  | Some JNull => if bool_decide (keys = []) then None else Some (Plain "admission contract has missing or extra fields")
  | _ => Some (Plain "json: cannot unmarshal")
  end.

Definition field_of (v : option jvalue) (k : string) : option jvalue :=
  match v with Some (JObj l) => jfield l k | _ => None end.

Definition contractKeys : list string :=
  ["version"; "namespaceUID"; "receiptNamespace"; "receiptNamespaceUID"; "workerPoolID"; "runnerImage";
   "generation"; "activeLedgerName"; "activeLedgerSchema"; "queueLedgerName"; "queueLedgerSchema"; "limits"].
Definition limitKeys : list string :=
  ["maxActiveJobs"; "maxActiveJobsPerRequester"; "workerSlots"; "maxQueuedJobs"; "maxQueuedJobsPerRequester"].

Definition requireContractKeys (v : option jvalue) : option error :=
  match RequireKeys v contractKeys with
  | Some e => Some e
  | None => RequireKeys (field_of v "limits") limitKeys
  end.

(** Typed [json.Unmarshal] of the contract structures. *)
Definition limits_of_json (v : option jvalue) : option Limits :=
  match v with
  | None => Some (mkLimits 0 0 0 0 0)
  | Some (JObj l) =>
      match jint64 (jfield l "maxActiveJobs"), jint64 (jfield l "maxActiveJobsPerRequester"),
            jint64 (jfield l "workerSlots"), jint64 (jfield l "maxQueuedJobs"),
            jint64 (jfield l "maxQueuedJobsPerRequester") with
      | Some a, Some b, Some c, Some d, Some e => Some (mkLimits a b c d e)
      | _, _, _, _, _ => None
      end
  | Some _ => None
  end.

Definition zeroContract : Contract :=
  mkContract 0 "" "" "" "" "" "" "" 0 "" 0 (mkLimits 0 0 0 0 0).

Definition contract_of_json (v : option jvalue) : option Contract :=
  match v with
  | None => Some zeroContract
  | Some (JObj l) =>
      match jint64 (jfield l "version"), jstring (jfield l "namespaceUID"), jstring (jfield l "receiptNamespace"),
            jstring (jfield l "receiptNamespaceUID"), jstring (jfield l "workerPoolID"), jstring (jfield l "runnerImage"),
            jstring (jfield l "generation"), jstring (jfield l "activeLedgerName"), jint64 (jfield l "activeLedgerSchema"),
            jstring (jfield l "queueLedgerName"), jint64 (jfield l "queueLedgerSchema"), limits_of_json (jfield l "limits") with
      | Some a, Some b, Some c, Some d, Some e, Some f, Some g, Some h, Some i, Some j, Some k, Some m =>
          Some (mkContract a b c d e f g h i j k m)
      | _, _, _, _, _, _, _, _, _, _, _, _ => None
      end
  | Some _ => None
  end.

Definition receipt_of_json (v : jvalue) : option Receipt :=
  match v with
  | JObj l =>
      match jstring (jfield l "namespace"), jstring (jfield l "genesisName"), jstring (jfield l "genesisUID"),
            contract_of_json (jfield l "contract") with
      | Some a, Some b, Some c, Some d => Some (mkReceipt a b c d)
      | _, _, _, _ => None
      end
  | _ => None
  end.

Definition genesis_of_json (v : jvalue) : option GenesisData :=
  match v with
  | JObj l =>
      match contract_of_json (jfield l "contract"), jstring (jfield l "phase"),
            jstring (jfield l "activeLedgerUID"), jstring (jfield l "queueLedgerUID") with
      | Some a, Some b, Some c, Some d => Some (mkGenesisData a b c d)
      | _, _, _, _ => None
      end
  | _ => None
  end.

Definition ParseReceipt (raw : string) : result Receipt :=
  if sempty raw || (MaxContractJSONBytes <? slen raw)%Z then Err (Plain "admission receipt exceeds size limit")
  else match Decode raw allowContract receipt_of_json with
  | Err e => Err e
  | Ok r =>
      let values := json_parse raw in
      match RequireKeys values ["namespace"; "genesisName"; "genesisUID"; "contract"] with
      | Some e => Err e
      | None =>
          match requireContractKeys (field_of values "contract") with
          | Some e => Err e
          | None => match Receipt_Validate r with Some e => Err e | None => Ok r end
          end
      end
  end.

Definition decodeGenesis (raw : string) (r : Receipt) : result GenesisData :=
  if sempty raw || (MaxContractJSONBytes <? slen raw)%Z then Err (Plain "admission Genesis exceeds size limit")
  else match Decode raw allowContract genesis_of_json with
  | Err e => Err e
  | Ok st =>
      let values := json_parse raw in
      match RequireKeys values ["contract"; "phase"; "activeLedgerUID"; "queueLedgerUID"] with
      | Some e => Err e
      | None =>
          match requireContractKeys (field_of values "contract") with
          | Some e => Err e
          | None =>
              if negb (bool_decide (gd_Contract st = rc_Contract r)) ||
                 (negb (seqb (gd_Phase st) PhaseInitializing) && negb (seqb (gd_Phase st) PhaseCommitted)) ||
                 (negb (sempty (gd_ActiveLedgerUID st)) && negb (ValidUID (gd_ActiveLedgerUID st))) ||
                 (negb (sempty (gd_QueueLedgerUID st)) && negb (ValidUID (gd_QueueLedgerUID st))) ||
                 (seqb (gd_Phase st) PhaseCommitted &&
                  (sempty (gd_ActiveLedgerUID st) || sempty (gd_QueueLedgerUID st)))
              then Err (Plain "admission Genesis has invalid contract or phase")
              else Ok st
          end
      end
  end.

Definition QualifyNamespace (r : Receipt) (ns : Namespace) : option error :=
  match Receipt_Validate r with
  | Some e => Some e
  | None =>
      if negb (seqb (ns_name ns) (rc_Namespace r)) || negb (seqb (ns_uid ns) (ct_NamespaceUID (rc_Contract r))) ||
         ns_deleting ns || negb (seqb (ns_phase ns) NamespaceActive)
      then Some (Plain "original admission Namespace is unavailable or changed")
      else None
  end.

Definition QualifyReceiptNamespace (r : Receipt) (ns : Namespace) : option error :=
  match Receipt_Validate r with
  | Some e => Some e
  | None =>
      if negb (seqb (ns_name ns) (ct_ReceiptNamespace (rc_Contract r))) ||
         negb (seqb (ns_uid ns) (ct_ReceiptNamespaceUID (rc_Contract r))) ||
         ns_deleting ns || negb (seqb (ns_phase ns) NamespaceActive)
      then Some (Plain "original recovery receipt Namespace is unavailable or changed")
      else None
  end.

Definition is_true_ptr (o : option bool) : bool := match o with Some true => true | _ => false end.

Definition QualifyGenesis (r : Receipt) (cm : ConfigMap) : result GenesisData :=
  match Receipt_Validate r with
  | Some e => Err e
  | None =>
      if negb (seqb (cm_ns cm) (rc_Namespace r)) || negb (seqb (cm_name cm) (rc_GenesisName r)) ||
         negb (seqb (cm_uid cm) (rc_GenesisUID r)) || sempty (cm_rv cm) || cm_deleting cm ||
         negb (bool_decide (size (cm_data cm) = 1)) || negb (bool_decide (size (cm_binary cm) = 0))
      then Err (Plain "original admission Genesis is unavailable or changed")
      else match decodeGenesis (mget (cm_data cm) GenesisDataKey) r with
      | Err e => Err e
      | Ok st =>
          if (seqb (gd_Phase st) PhaseInitializing && is_true_ptr (cm_immutable cm)) ||
             (seqb (gd_Phase st) PhaseCommitted && negb (is_true_ptr (cm_immutable cm)))
          then Err (Plain "admission Genesis immutable state disagrees with phase")
          else Ok st
      end
  end.

Definition RoleFacts (r : Receipt) (role : Role) : string * Z :=
  match role with
  | Active => (ct_ActiveLedgerName (rc_Contract r), ct_ActiveLedgerSchema (rc_Contract r))
  | Queue => (ct_QueueLedgerName (rc_Contract r), ct_QueueLedgerSchema (rc_Contract r))
  end.

Definition ledgerAnnotations (r : Receipt) (role : Role) (attempt : string) : result (gmap string string) :=
  match Receipt_Validate r with
  | Some e => Err e
  | None =>
      if negb (validNonce attempt) then Err (Plain "invalid admission ledger creation attempt")
      else match ContractDigest r with
      | Err e => Err e
      | Ok digest =>
          Ok (<[annotationNamespace := ct_NamespaceUID (rc_Contract r)]>
             (<[annotationGenesis := rc_GenesisUID r]>
             (<[annotationGeneration := ct_Generation (rc_Contract r)]>
             (<[annotationContract := digest]>
             (<[annotationRole := role_string role]>
             (<[annotationSchema := dec_of_Z (snd (RoleFacts r role))]>
             (<[annotationAttempt := attempt]> ∅)))))))
      end
  end.

Definition NewLedgerObject (r : Receipt) (role : Role) (dataKey emptyData attempt : string) : result ConfigMap :=
  if sempty dataKey || sempty emptyData || (MaxLedgerDataBytes <? slen emptyData)%Z
  then Err (Plain "invalid admission ledger template")
  else match ledgerAnnotations r role attempt with
  | Err e => Err e
  | Ok annotations =>
      Ok {| cm_ns := rc_Namespace r; cm_name := fst (RoleFacts r role); cm_uid := ""; cm_rv := "";
            cm_labels := ∅; cm_annotations := annotations; cm_owners := []; cm_deleting := false;
            cm_immutable := None; cm_data := {[dataKey := emptyData]}; cm_binary := ∅ |}
  end.

Definition QualifyLedgerIdentity (r : Receipt) (cm : ConfigMap) (role : Role) : option error :=
  let '(name, schema) := RoleFacts r role in
  if negb (is_nil (Receipt_Validate r)) then Some (Plain "invalid admission ledger receipt")
  else if negb (seqb (cm_ns cm) (rc_Namespace r)) || negb (seqb (cm_name cm) name) || negb (ValidUID (cm_uid cm)) ||
          sempty (cm_rv cm) || cm_deleting cm || is_true_ptr (cm_immutable cm) ||
          negb (bool_decide (size (cm_annotations cm) = 7))
  then Some (Plain "admission ledger original identity is unavailable or changed")
  else
    let digest := match ContractDigest r with Ok d => d | Err _ => EmptyString end in
    let a k := mget (cm_annotations cm) k in
    if negb (seqb (a annotationNamespace) (ct_NamespaceUID (rc_Contract r))) ||
       negb (seqb (a annotationGenesis) (rc_GenesisUID r)) ||
       negb (seqb (a annotationGeneration) (ct_Generation (rc_Contract r))) ||
       negb (seqb (a annotationContract) digest) ||
       negb (seqb (a annotationRole) (role_string role)) ||
       negb (seqb (a annotationSchema) (dec_of_Z schema)) ||
       negb (validNonce (a annotationAttempt))
    then Some (Plain "admission ledger installation annotations differ from receipt")
    else None.
End contract.
