(* ===== verification/Server.v ===== *)
(** * A reference API server

    One executable server that satisfies the laws of [ApiServer], and the name
    validators of [External]: they show that the assumptions of the development
    hold together, and every witness runs on them. *)
From S2P Require Import Prelude GoText Json Types Kube Contract.

(** ** State *)

(** Versions of one object, newest first, and whether the newest is live. *)
Record object := mkObject { ob_live : bool; ob_versions : list ConfigMap }.

Record cluster := mkCluster {
  cl_objects : gmap okey object;
  cl_builds : gmap okey KovaBuild;
  cl_namespaces : gmap string Namespace;
  cl_rand : N }.

Definition versions (w : cluster) (k : okey) : list ConfigMap :=
  match cl_objects w !! k with Some o => ob_versions o | None => [] end.

Definition now (w : cluster) (k : okey) : option ConfigMap :=
  match cl_objects w !! k with
  | Some o => if ob_live o then head (ob_versions o) else None
  | None => None
  end.

Fixpoint find_version (l : list ConfigMap) (rv : string) : option ConfigMap :=
  match l with
  | [] => None
  | c :: r => if decide (cm_rv c = rv) then Some c else find_version r rv
  end.

Definition version (w : cluster) (k : okey) (rv : string) : option ConfigMap := find_version (versions w k) rv.

(** A resourceVersion longer than every earlier one. *)
Definition fresh_rv (l : list ConfigMap) : string := foldr (fun c acc => cm_rv c +:+ acc) "1" l.

Definition set_version (c : ConfigMap) (uid rv : string) (d : gmap string string) (b : gmap string string)
    (imm : option bool) : ConfigMap :=
  mkConfigMap (cm_ns c) (cm_name c) uid rv (cm_labels c) (cm_annotations c) (cm_owners c) (cm_deleting c) imm d b.

Definition set_object (w : cluster) (k : okey) (o : object) : cluster :=
  mkCluster (<[k := o]> (cl_objects w)) (cl_builds w) (cl_namespaces w) (cl_rand w).

Definition commit_version (w : cluster) (k : okey) (c : ConfigMap) (uid : string) : ConfigMap * cluster :=
  let c' := set_version c uid (fresh_rv (versions w k)) (cm_data c) (cm_binary c) (cm_immutable c) in
  (c', set_object w k (mkObject true (c' :: versions w k))).

Definition patch_immutable (o : option bool) (op : patch_op) : option bool :=
  match op with PAddImmutable v => Some v | _ => o end.

(** ** Requests *)

Definition get_object (w : cluster) (k : okey) : result ConfigMap :=
  match now w k with
  | Some c => if decide (cm_key c = k) then Ok c else Err (ApiErr NotFound)
  | None => Err (ApiErr NotFound)
  end.

Definition get_build (w : cluster) (k : okey) : result KovaBuild :=
  match cl_builds w !! k with
  | Some b => if decide ((kb_ns b, kb_name b) = k) then Ok b else Err (ApiErr NotFound)
  | None => Err (ApiErr NotFound)
  end.

Definition create_object (w : cluster) (c : ConfigMap) : (option ConfigMap * option error) * cluster :=
  match now w (cm_key c) with
  | Some _ => ((None, Some (ApiErr AlreadyExists)), w)
  | None => let '(c', w') := commit_version w (cm_key c) c (fresh_rv (versions w (cm_key c))) in ((Some c', None), w')
  end.

Definition update_object (w : cluster) (c : ConfigMap) : option error * cluster :=
  match now w (cm_key c) with
  | None => (Some (ApiErr NotFound), w)
  | Some old =>
      if decide (cm_rv old = cm_rv c) then (None, snd (commit_version w (cm_key c) c (cm_uid old)))
      else (Some (ApiErr Conflict), w)
  end.

Definition patch_object (w : cluster) (k : okey) (ops : list patch_op) : result ConfigMap * cluster :=
  match now w k with
  | None => (Err (ApiErr NotFound), w)
  | Some old =>
      if forallb (patch_test old) ops then
        let c := set_version old (cm_uid old) "" (foldl patch_data (cm_data old) ops) (cm_binary old)
                   (foldl patch_immutable (cm_immutable old) ops) in
        let '(c', w') := commit_version w k c (cm_uid old) in (Ok c', w')
      else (Err (ApiErr Invalid), w)
  end.

Definition delete_object (w : cluster) (k : okey) (uid : string) : option error * cluster :=
  match now w k with
  | None => (Some (ApiErr NotFound), w)
  | Some old =>
      if decide (cm_uid old = uid) then (None, set_object w k (mkObject false (versions w k)))
      else (Some (ApiErr Conflict), w)
  end.

Definition list_builds (w : cluster) (ns : string) : list KovaBuild :=
  List.filter (fun b => seqb (kb_ns b) ns) (List.map snd (map_to_list (cl_builds w))).

Definition serve {X} (e : api X) (w : cluster) : X * cluster :=
  match e in api X return X * cluster with
  | CtxDone => (None, w)
  | Wait _ => (None, w)
  | Rand16 => (Ok (cl_rand w), mkCluster (cl_objects w) (cl_builds w) (cl_namespaces w) (cl_rand w + 1))
  | Now => (1700000000%Z, w)
  | GetConfigMap ns n => (get_object w (ns, n), w)
  | CreateConfigMap c => create_object w c
  | UpdateConfigMap c => update_object w c
  | PatchConfigMap ns n ops => patch_object w (ns, n) ops
  | DeleteConfigMap ns n uid => delete_object w (ns, n) uid
  | GetBuild ns n => (get_build w (ns, n), w)
  | ListBuilds ns _ => (Ok (list_builds w ns), w)
  | UpdateBuild b => (None, mkCluster (cl_objects w) (<[(kb_ns b, kb_name b) := b]> (cl_builds w)) (cl_namespaces w) (cl_rand w))
  | GetPod _ _ => (Err (ApiErr NotFound), w)
  | ListPods _ => (Ok [], w)
  | GetNamespace n => (match cl_namespaces w !! n with Some b => Ok b | None => Err (ApiErr NotFound) end, w)
  | Callback _ => (None, w)
  | WakeBuild _ _ => (None, w)
  | Monotonic => (0%Z, w)
  | TryBegin _ => (Ok true, w)
  | EndPermit => (tt, w)
  | DeferIfBusy _ => (Ok (false, 0%Z), w)
  end.

(** A program alone on the server. *)
Fixpoint run {A} (p : prog A) (w : cluster) : A * cluster :=
  match p with
  | Ret a => (a, w)
  | Vis e k => let '(x, w') := serve e w in run (k x) w'
  end.

(** ** The laws *)

Lemma fresh_rv_longer l c : c ∈ l -> String.length (cm_rv c) < String.length (fresh_rv l).
Proof.
  induction l as [|d l IH]; intros Hc; [by apply elem_of_nil in Hc|]. simpl. rewrite length_append.
  assert (0 < String.length (fresh_rv l)).
  { clear. induction l as [|d l IH]; simpl; [lia|]. rewrite length_append. lia. }
  apply elem_of_cons in Hc as [->|Hc]; [lia|]. specialize (IH Hc). lia.
Qed.

Lemma find_version_elem l rv c : find_version l rv = Some c -> c ∈ l /\ cm_rv c = rv.
Proof.
  induction l as [|d l IH]; simpl; [done|]. case_decide; [intros [= ->]; split; [left|done]|].
  intros [? ?]%IH. split; [by right|done].
Qed.

Lemma versions_set w k o k' :
  versions (set_object w k o) k' = if decide (k = k') then ob_versions o else versions w k'.
Proof.
  unfold versions, set_object. simpl. case_decide; subst; [by rewrite lookup_insert_eq|by rewrite lookup_insert_ne].
Qed.

Lemma now_set w k o k' :
  now (set_object w k o) k' = if decide (k = k') then (if ob_live o then head (ob_versions o) else None) else now w k'.
Proof.
  unfold now, set_object. simpl. case_decide; subst; [by rewrite lookup_insert_eq|by rewrite lookup_insert_ne].
Qed.

Definition keeps (w w' : cluster) : Prop :=
  forall k rv c, version w k rv = Some c -> version w' k rv = Some c.

Lemma keeps_commit w k c uid : keeps w (snd (commit_version w k c uid)).
Proof.
  intros k' rv d. unfold version, commit_version. simpl. rewrite versions_set. case_decide; [subst|done]. simpl.
  intros Hd. case_decide as E; [|done]. apply find_version_elem in Hd as [Hd Erv].
  apply fresh_rv_longer in Hd. rewrite Erv, <- E in Hd. lia.
Qed.

Lemma commit_new w k c uid k' rv d :
  version (snd (commit_version w k c uid)) k' rv = Some d ->
  version w k' rv = Some d \/ now (snd (commit_version w k c uid)) k' = Some d.
Proof.
  unfold version, commit_version. simpl. rewrite versions_set, now_set. case_decide; [subst|by left]. simpl.
  case_decide; [|by left]. intros [= <-]. by right.
Qed.

Lemma commit_off w k c uid k' : k <> k' -> now (snd (commit_version w k c uid)) k' = now w k'.
Proof. intros Hk. unfold commit_version. simpl. rewrite now_set. by rewrite decide_False. Qed.

(** Every request commits one version, ends one object or keeps them all. *)
Inductive served (w : cluster) : cluster -> Prop :=
| served_same w' : cl_objects w' = cl_objects w -> served w w'
| served_commit k c uid : served w (snd (commit_version w k c uid))
| served_delete k : served w (set_object w k (mkObject false (versions w k))).

Lemma serve_served {X} (e : api X) w : served w (snd (serve e w)).
Proof.
  destruct e; simpl; try (by constructor).
  - unfold create_object. destruct (now w (cm_key cm)); [by constructor|]. apply served_commit.
  - unfold update_object. destruct (now w (cm_key cm)); [|by constructor].
    case_decide; [apply served_commit|by constructor].
  - unfold patch_object. destruct (now w (ns, name)) as [old|]; [|by constructor].
    destruct (forallb (patch_test old) ops); [|by constructor]. apply served_commit.
  - unfold delete_object. destruct (now w (ns, name)) as [old|]; [|by constructor].
    case_decide; [apply served_delete|by constructor].
Qed.

Lemma served_keeps w w' : served w w' -> keeps w w'.
Proof.
  intros [w2 E|k c uid|k].
  - intros k rv c. unfold version, versions. by rewrite E.
  - apply keeps_commit.
  - intros k' rv c. unfold version. rewrite versions_set. by case_decide; subst.
Qed.

Lemma served_new w w' k rv c : served w w' -> version w' k rv = Some c -> version w k rv = Some c \/ now w' k = Some c.
Proof.
  intros [w2 E|k' c' uid|k'].
  - unfold version, versions. rewrite E. by left.
  - apply commit_new.
  - unfold version. rewrite versions_set. case_decide; subst; by left.
Qed.

Lemma serve_off {X} (e : api X) w k : off_key k e -> now (snd (serve e w)) k = now w k.
Proof.
  destruct e; simpl; try done.
  - intros Hk. unfold create_object. destruct (now w (cm_key cm)); [done|]. by apply commit_off.
  - intros Hk. unfold update_object. destruct (now w (cm_key cm)); [|done]. case_decide; [by apply commit_off|done].
  - intros Hk. unfold patch_object. destruct (now w (ns, name)) as [old|]; [|done].
    destruct (forallb (patch_test old) ops); [|done]. by apply commit_off.
  - intros Hk. unfold delete_object. destruct (now w (ns, name)); [|done]. case_decide; [|done].
    simpl. rewrite now_set. by rewrite decide_False.
Qed.

Lemma update_served c w r w' :
  serve (UpdateConfigMap c) w = (r, w') ->
  r = None /\ (exists old new, now w (cm_key c) = Some old /\ cm_rv old = cm_rv c /\
    now w' (cm_key c) = Some new /\ cm_data new = cm_data c /\ cm_binary new = cm_binary c) \/
  r <> None /\ now w' (cm_key c) = now w (cm_key c).
Proof.
  simpl. unfold update_object. destruct (now w (cm_key c)) as [old|] eqn:En; [|intros [= <- <-]; by right].
  case_decide; intros [= <- <-]; [|by right]. left. split; [done|].
  eexists old, _. rewrite now_set, decide_True by done. done.
Qed.

Lemma patch_served ns n ops w r w' :
  serve (PatchConfigMap ns n ops) w = (r, w') ->
  (exists old new, r = Ok new /\ now w (ns, n) = Some old /\ forallb (patch_test old) ops = true /\
    now w' (ns, n) = Some new /\ cm_data new = foldl patch_data (cm_data old) ops /\ cm_binary new = cm_binary old) \/
  (forall c, r <> Ok c) /\ now w' (ns, n) = now w (ns, n).
Proof.
  simpl. unfold patch_object. destruct (now w (ns, n)) as [old|] eqn:En; [|intros [= <- <-]; by right].
  destruct (forallb (patch_test old) ops) eqn:Et; [|intros [= <- <-]; by right].
  intros [= <- <-]. left. eexists old, _. split_and!; try done. rewrite now_set. by rewrite decide_True.
Qed.

Lemma create_served c w r w' :
  serve (CreateConfigMap c) w = (r, w') ->
  now w' (cm_key c) = now w (cm_key c) \/
  now w (cm_key c) = None /\
    exists new, now w' (cm_key c) = Some new /\ cm_data new = cm_data c /\ cm_binary new = cm_binary c.
Proof.
  simpl. unfold create_object. destruct (now w (cm_key c)) as [old|] eqn:En; [intros [= <- <-]; by left|].
  intros [= <- <-]. right. split; [done|]. eexists. rewrite now_set, decide_True by done. done.
Qed.

Lemma delete_served ns n uid w r w' :
  serve (DeleteConfigMap ns n uid) w = (r, w') ->
  now w' (ns, n) = now w (ns, n) \/
  exists old, now w (ns, n) = Some old /\ cm_uid old = uid /\ now w' (ns, n) = None.
Proof.
  simpl. unfold delete_object. destruct (now w (ns, n)) as [old|] eqn:En; [|intros [= <- <-]; by left].
  case_decide; intros [= <- <-]; [|by left]. right. exists old. rewrite now_set, decide_True by done. done.
Qed.

Lemma now_find w k c : now w k = Some c -> version w k (cm_rv c) = Some c.
Proof.
  unfold now, version, versions. destruct (cl_objects w !! k) as [o|]; [|done].
  destruct (ob_live o); [|done]. destruct (ob_versions o); [done|]. intros [= ->]. simpl. by rewrite decide_True.
Qed.

Lemma get_served ns n w c w' :
  serve (GetConfigMap ns n) w = (Ok c, w') -> w' = w /\ now w (ns, n) = Some c /\ cm_key c = (ns, n).
Proof.
  simpl. unfold get_object. destruct (now w (ns, n)) as [d|] eqn:E; [|done].
  case_decide as Ek; [|done]. by intros [= <- <-].
Qed.

Lemma get_build_served w k b : get_build w k = Ok b -> (kb_ns b, kb_name b) = k.
Proof.
  unfold get_build. destruct (cl_builds w !! k) as [d|]; [|done]. case_decide as Ek; [|done]. by intros [= <-].
Qed.

Definition cluster_step (X : Type) (e : api X) (w : cluster) (x : X) (w' : cluster) : Prop := serve e w = (x, w').

Lemma step_served X (e : api X) w x w' : cluster_step X e w x w' -> w' = snd (serve e w).
Proof. unfold cluster_step. by intros ->. Qed.

#[export] Instance reference_server : ApiServer.
Proof.
  refine {| world := cluster; step := cluster_step; rely := keeps; cm_now := now; cm_version := version |}.
  - by intros w k rv c.
  - intros w1 w2 w3 H1 H2 k rv c Hc. by apply H2, H1.
  - intros X e w x w' ->%step_served. apply served_keeps, serve_served.
  - intros w w' k rv c Hk Hc. by apply Hk.
  - apply now_find.
  - intros ns n w c w' (-> & Hn & _)%get_served. by apply now_find.
  - by intros ns n w c w' (_ & _ & Hk)%get_served.
  - intros ns n w b w' [= Hb _]. apply get_build_served in Hb. by injection Hb.
  - intros X e w x w' k rv c ->%step_served. apply served_new, serve_served.
  - unfold cluster_step. simpl. intros w t w' [= <- <-]. lia.
  - intros X e w x w' k ->%step_served. apply serve_off.
  - intros c w r w' [[_ Hu]|[_ Hu]]%update_served; [by right|by left].
  - by intros c w w' [[_ Hu]|[Hn _]]%update_served.
  - intros c w e w' [[[=] _]|[_ Hu]]%update_served. done.
  - intros ns n ops w r w' [(old & new & _ & Hp)|[_ Hp]]%patch_served; [right; by exists old, new|by left].
  - intros ns n ops w c w' [(old & new & [= <-] & Hp)|[Hn _]]%patch_served; [by exists old|by destruct (Hn c)].
  - intros c w r w'. apply create_served.
  - intros ns n uid w r w'. apply delete_served.
Defined.

(** ** Running programs in a pool *)

Lemma pool_trans {A} (c1 c2 c3 : cluster * list (prog A)) :
  pool_steps c1 c2 -> pool_steps c2 c3 -> pool_steps c1 c3.
Proof. intros H1 H2. induction H2 as [c|c2 c3 c4 _ IH Hs]; [done|]. eapply pool_more; [by apply IH|done]. Qed.

(** One thread runs to its end while the others wait. *)
Lemma run_pool {A} (p : prog A) w ts i :
  ts !! i = Some p -> pool_steps (w, ts) (snd (run p w), <[i := Ret (fst (run p w))]> ts).
Proof.
  revert w ts. induction p as [a|X e k IH]; intros w ts Hi; simpl.
  { rewrite list_insert_id by done. apply pool_refl. }
  destruct (serve e w) as [x w'] eqn:Es. eapply pool_trans.
  - eapply pool_more; [apply pool_refl|]. by eapply (pool_thread w ts i X e k x w').
  - assert (Hl : i < List.length ts) by (by eapply lookup_lt_Some).
    specialize (IH x w' (<[i := k x]> ts)). rewrite list_lookup_insert_eq in IH by done.
    specialize (IH eq_refl). by rewrite list_insert_insert_eq in IH.
Qed.

Lemma run_two {A} (p q : prog A) w :
  pool_steps (w, [p; q])
    (snd (run q (snd (run p w))), [Ret (fst (run p w)); Ret (fst (run q (snd (run p w))))]).
Proof.
  eapply pool_trans; [exact (run_pool p w [p; q] 0 eq_refl)|]. simpl.
  exact (run_pool q (snd (run p w)) [Ret (fst (run p w)); q] 1 eq_refl).
Qed.

(** ** Name validation *)

Definition alnum (c : ascii) : bool := is_lower c || is_digit c.
Definition dns_label_from (s : string) : bool :=
  match s with
  | EmptyString => false
  | String c r => alnum c && str_forallb (fun c => alnum c || bool_decide (c = "-"%char) || bool_decide (c = "."%char)) r
  end.

Lemma dns_alphabet s :
  dns_label_from s = true ->
  str_forallb (fun c => is_lower c || is_digit c || bool_decide (c = "-"%char) || bool_decide (c = "."%char)) s = true.
Proof.
  destruct s as [|c r]; [done|]. simpl. unfold alnum. intros [Hc Hr]%andb_true_iff. rewrite Hc. exact Hr.
Qed.

(** The part after the first [@]. *)
Fixpoint split_at (s : string) : option string :=
  match s with
  | EmptyString => None
  | String c r => if bool_decide (c = "@"%char) then Some r else split_at r
  end.

#[export] Instance reference_external : External.
Proof.
  refine {| IsDNS1123Subdomain s := dns_label_from s && (slen s <=? 253)%Z;
            IsDNS1123Label s := dns_label_from s && (slen s <=? 63)%Z;
            NewDigestStrict s := match split_at s with Some d => Some (s, d) | None => None end |}.
  - intros s [Hs _]%andb_true_iff. by apply dns_alphabet.
  - intros [|c r]; [done|]. done.
  - intros s [Hs _]%andb_true_iff. by apply dns_alphabet.
  - intros [|c r]; [done|]. done.
Defined.
