(* ===== verification/Genesis.v ===== *)
(** * Admission Genesis: bootstrap, guard and observations

    Models [src/internal/service/admissiongenesis]: [bootstrap.go] (the one-way
    installation of the two ledgers), [guard.go] (the runtime authority check and
    the only Genesis-mode ledger writer), [observation.go] (read-only intervals)
    and [template_limits.go]. *)
From S2P Require Import Prelude GoText Json JsonFacts AdmissionJson Sha256 Types Kube Contract.

Definition ErrUncommitted := Sentinel "admission Genesis is not committed".
Definition ErrChanged := Sentinel "original admission installation changed".
Definition ErrUnknownCreate := Sentinel "admission ledger Create outcome is unknown".
Definition ErrUnknownPin := Sentinel "admission Genesis provisional pin outcome is unknown".
Definition ErrUnknownCommit := Sentinel "admission Genesis commit outcome is unknown".
Definition errPeerCommitted := Sentinel "admission Genesis was committed by a peer".
Definition errNonemptyLedger := Sentinel "admission ledger is not canonical empty state".
Definition is_peer_committed (e : error) : bool := errors_Is e "admission Genesis was committed by a peer".
Definition is_nonempty_ledger (e : error) : bool := errors_Is e "admission ledger is not canonical empty state".

Record LedgerTemplate := mkTemplate {
  lt_Role : Role;
  lt_DataKey : string;
  lt_EmptyData : string;
  lt_Validate : ConfigMap -> option error }.

Record Binding := mkBinding {
  bd_NamespaceUID : string;
  bd_GenesisUID : string;
  bd_ActiveLedgerUID : string;
  bd_QueueLedgerUID : string }.

#[export] Instance Binding_eq_dec : EqDecision Binding.
Proof. solve_decision. Defined.

(** [Preflight] and [BeforeEffect] are closures installed at startup. *)
Record Bootstrapper := mkBootstrapper {
  bs_Receipt : Receipt;
  bs_Active : LedgerTemplate;
  bs_Queue : LedgerTemplate;
  bs_Preflight : prog (option error);
  bs_BeforeEffect : option (prog (option error)) }.

(** [gd_id] is the identity of the Go pointer, which observations compare. *)
Record Guard := mkGuard {
  gd_id : nat;
  gd_Bootstrap : Bootstrapper;
  gd_Original : Binding;
  gd_ReceiptCheck : option (prog (option error)) }.

(** ** [template_limits.go] *)

Definition allowEmptyActiveHeader : Allowed := fun path key =>
  match path with
  | [] => bool_decide (key ∈ ["version"; "fence"; "maxJobs"; "maxPerRequester"; "workerSlots"; "active"])
  | _ => false
  end.

Definition allowEmptyQueueHeader : Allowed := fun path key =>
  match path with
  | [] => bool_decide (key ∈ ["version"; "globalLimit"; "requesterLimit"; "intents"])
  | _ => false
  end.

(** A [map[string]interface{}] field; [None] inside is the nil map of an absent field. *)
Definition jmap (o : option jvalue) : option (option (list (string * jvalue))) :=
  match o with None => Some None | Some (JObj l) => Some (Some l) | Some _ => None end.

Record activeEmptyHeader := mkActiveHeader {
  ah_Version : Z; ah_Fence : Z; ah_MaxJobs : Z; ah_MaxPerRequester : Z; ah_WorkerSlots : Z;
  ah_Active : option (list (string * jvalue)) }.
Record queueEmptyHeader := mkQueueHeader {
  qh_Version : Z; qh_GlobalLimit : Z; qh_RequesterLimit : Z; qh_Intents : option (list (string * jvalue)) }.

Definition activeHeader_of_json (v : jvalue) : option activeEmptyHeader :=
  match v with
  | JObj l =>
      match jint64 (jfield l "version"), juint64 (jfield l "fence"), jint64 (jfield l "maxJobs"),
            jint64 (jfield l "maxPerRequester"), jint64 (jfield l "workerSlots"), jmap (jfield l "active") with
      | Some a, Some b, Some c, Some d, Some e, Some f => Some (mkActiveHeader a b c d e f)
      | _, _, _, _, _, _ => None
      end
  | _ => None
  end.

Definition queueHeader_of_json (v : jvalue) : option queueEmptyHeader :=
  match v with
  | JObj l =>
      match jint64 (jfield l "version"), jint64 (jfield l "globalLimit"), jint64 (jfield l "requesterLimit"),
            jmap (jfield l "intents") with
      | Some a, Some b, Some c, Some d => Some (mkQueueHeader a b c d)
      | _, _, _, _ => None
      end
  | _ => None
  end.

(** [m == nil || len(m) != 0]. *)
Definition notEmptyMap (m : option (list (string * jvalue))) : bool :=
  match m with Some [] => false | _ => true end.

Definition validateCanonicalEmptyLimits (t : LedgerTemplate) (limits : Limits) : option error :=
  let raw := lt_EmptyData t in
  match lt_Role t with
  | Active =>
      match Decode raw allowEmptyActiveHeader activeHeader_of_json with
      | Err e => Some (Wrap "active canonical empty header" e)
      | Ok st =>
          match RequireKeys (json_parse raw) ["version"; "fence"; "maxJobs"; "maxPerRequester"; "workerSlots"; "active"] with
          | Some e => Some (Wrap "active canonical empty header" e)
          | None =>
              if negb (ah_Version st =? 2)%Z || negb (ah_Fence st =? 1)%Z || notEmptyMap (ah_Active st) ||
                 negb (ah_MaxJobs st =? lm_MaxActiveJobs limits)%Z ||
                 negb (ah_MaxPerRequester st =? lm_MaxActiveJobsPerRequester limits)%Z ||
                 negb (ah_WorkerSlots st =? lm_WorkerSlots limits)%Z
              then Some (Plain "active canonical empty capacity differs from admission receipt") else None
          end
      end
  | Queue =>
      match Decode raw allowEmptyQueueHeader queueHeader_of_json with
      | Err e => Some (Wrap "queue canonical empty header" e)
      | Ok st =>
          match RequireKeys (json_parse raw) ["version"; "globalLimit"; "requesterLimit"; "intents"] with
          | Some e => Some (Wrap "queue canonical empty header" e)
          | None =>
              if negb (qh_Version st =? 2)%Z || notEmptyMap (qh_Intents st) ||
                 negb (qh_GlobalLimit st =? lm_MaxQueuedJobs limits)%Z ||
                 negb (qh_RequesterLimit st =? lm_MaxQueuedJobsPerRequester limits)%Z
              then Some (Plain "queue canonical empty capacity differs from admission receipt") else None
          end
      end
  end.

Section genesis.
Context `{External}.
Implicit Types (b : Bootstrapper) (g : Guard) (t : LedgerTemplate).

(** ** [bootstrap.go] *)

Definition template_shape_ok t : bool :=
  negb (sempty (lt_DataKey t)) && negb (sempty (lt_EmptyData t)) && (slen (lt_EmptyData t) <=? MaxLedgerDataBytes)%Z.

Definition validate_template b t : option error :=
  match NewLedgerObject (bs_Receipt b) (lt_Role t) (lt_DataKey t) (lt_EmptyData t) "00000000000000000000000000000000" with
  | Err e => Some (Wrap "admission ledger template" e)
  | Ok request =>
      match validateCanonicalEmptyLimits t (ct_Limits (rc_Contract (bs_Receipt b))) with
      | Some e => Some e
      | None =>
          match lt_Validate t request with
          | Some e => Some (Wrap "admission ledger canonical template" e)
          | None => None
          end
      end
  end.

Definition Bootstrapper_validate b : option error :=
  match Receipt_Validate (bs_Receipt b) with
  | Some e => Some e
  | None =>
      if negb (template_shape_ok (bs_Active b)) || negb (template_shape_ok (bs_Queue b))
      then Some (Plain "admission bootstrap has invalid ledger template")
      else if negb (bool_decide (lt_Role (bs_Active b) = Active)) || negb (bool_decide (lt_Role (bs_Queue b) = Queue)) ||
              negb (seqb (lt_DataKey (bs_Active b)) ActiveLedgerDataKey) ||
              negb (seqb (lt_DataKey (bs_Queue b)) QueueLedgerDataKey)
      then Some (Plain "admission bootstrap ledger roles or data keys are invalid")
      else match validate_template b (bs_Active b) with
      | Some e => Some e
      | None => validate_template b (bs_Queue b)
      end
  end.

Definition getOriginal b : prog (result (ConfigMap * GenesisData)) :=
  get* ns := call (GetNamespace (rc_Namespace (bs_Receipt b))) else (fun e => Ret (Err e)) in
  match QualifyNamespace (bs_Receipt b) ns with
  | Some e => Ret (Err e)
  | None =>
      get* receipts := call (GetNamespace (ct_ReceiptNamespace (rc_Contract (bs_Receipt b)))) else (fun e => Ret (Err e)) in
      match QualifyReceiptNamespace (bs_Receipt b) receipts with
      | Some e => Ret (Err e)
      | None =>
          get* cm := call (GetConfigMap (rc_Namespace (bs_Receipt b)) (rc_GenesisName (bs_Receipt b))) else (fun e => Ret (Err e)) in
          match QualifyGenesis (bs_Receipt b) cm with
          | Err e => Ret (Err e)
          | Ok state => Ret (Ok (cm, state))
          end
      end
  end.

(** [Ok None] is the missing, unpinned ledger. *)
Definition readLedger b t (pinnedUID : string) (empty : bool) : prog (result (option ConfigMap)) :=
  let name := fst (RoleFacts (bs_Receipt b) (lt_Role t)) in
  let* r := call (GetConfigMap (rc_Namespace (bs_Receipt b)) name) in
  match r with
  | Err e => if IsNotFound e && sempty pinnedUID then Ret (Ok None) else Ret (Err e)
  | Ok cm =>
      match QualifyLedgerIdentity (bs_Receipt b) cm (lt_Role t) with
      | Some e => Ret (Err e)
      | None =>
          if negb (sempty pinnedUID) && negb (seqb (cm_uid cm) pinnedUID) then Ret (Err (Wrap "ledger UID changed" ErrChanged))
          else match lt_Validate t cm with
          | Some e => Ret (Err e)
          | None =>
              if empty && (negb (bool_decide (size (cm_data cm) = 1)) || negb (bool_decide (size (cm_binary cm) = 0)) ||
                           negb (seqb (mget (cm_data cm) (lt_DataKey t)) (lt_EmptyData t)))
              then Ret (Err (Join ErrChanged errNonemptyLedger))
              else Ret (Ok (Some cm))
          end
      end
  end.

Definition ObserveCommitted b : prog (result Binding) :=
  match Bootstrapper_validate b with
  | Some e => Ret (Err e)
  | None =>
      get* (first, state) := getOriginal b else (fun e => Ret (Err e)) in
      if negb (seqb (gd_Phase state) PhaseCommitted) then Ret (Err ErrUncommitted)
      else
        get* _ := readLedger b (bs_Active b) (gd_ActiveLedgerUID state) false else (fun e => Ret (Err e)) in
        get* _ := readLedger b (bs_Queue b) (gd_QueueLedgerUID state) false else (fun e => Ret (Err e)) in
        get* (last, later) := getOriginal b else (fun e => Ret (Err e)) in
        if negb (bool_decide (later = state)) || negb (seqb (cm_rv last) (cm_rv first))
        then Ret (Err (Wrap "Genesis changed during committed observation" ErrChanged))
        else Ret (Ok {| bd_NamespaceUID := ct_NamespaceUID (rc_Contract (bs_Receipt b));
                        bd_GenesisUID := rc_GenesisUID (bs_Receipt b);
                        bd_ActiveLedgerUID := gd_ActiveLedgerUID state;
                        bd_QueueLedgerUID := gd_QueueLedgerUID state |})
  end.

Definition resolveNonemptyReadRace b (readErr : error) : prog error :=
  if negb (is_nonempty_ledger readErr) then Ret readErr
  else
    let* r := ObserveCommitted b in
    match r with
    | Ok _ => Ret errPeerCommitted
    | Err _ => Ret (Wrap "committed peer requalification failed" readErr)
    end.

Definition pinnedUID (state : GenesisData) (role : Role) : string :=
  match role with Active => gd_ActiveLedgerUID state | Queue => gd_QueueLedgerUID state end.

Definition setPinnedUID (state : GenesisData) (role : Role) (uid : string) : GenesisData :=
  match role with
  | Active => {| gd_Contract := gd_Contract state; gd_Phase := gd_Phase state;
                 gd_ActiveLedgerUID := uid; gd_QueueLedgerUID := gd_QueueLedgerUID state |}
  | Queue => {| gd_Contract := gd_Contract state; gd_Phase := gd_Phase state;
                gd_ActiveLedgerUID := gd_ActiveLedgerUID state; gd_QueueLedgerUID := uid |}
  end.

Definition genesisPatch (original : ConfigMap) (next : GenesisData) (commit : bool) : result (list patch_op) :=
  if sempty (cm_uid original) || sempty (cm_rv original) then Err (Plain "Genesis CAS lacks original UID or resourceVersion")
  else
    let data := json_print (json_of_genesis next) in
    if (MaxContractJSONBytes <? slen data)%Z then Err (Plain "Genesis CAS proposal exceeds contract")
    else
      let ops := [PTest ["metadata"; "uid"] (cm_uid original);
                  PTest ["metadata"; "resourceVersion"] (cm_rv original);
                  PTest ["data"; GenesisDataKey] (mget (cm_data original) GenesisDataKey)] in
      let tail := PReplace ["data"; GenesisDataKey] data :: (if commit then [PAddImmutable true] else []) in
      match cm_immutable original with
      | Some true => Err (Plain "Genesis CAS cannot update immutable object")
      | Some false => Ok (ops ++ [PTestImmutable false] ++ tail)
      | None => Ok (ops ++ tail)
      end.

Definition run_optional (p : option (prog (option error))) : prog (option error) :=
  match p with Some q => q | None => Ret None end.

Definition pinRole b t (uid : string) : prog (option error) :=
  let role := lt_Role t in
  get* (original, state) := getOriginal b else (fun e => Ret (Some e)) in
  if seqb (gd_Phase state) PhaseCommitted then
    if negb (seqb (pinnedUID state role) uid) then Ret (Some (Wrap "committed ledger UID differs" ErrChanged))
    else Ret (Some errPeerCommitted)
  else if negb (sempty (pinnedUID state role)) then
    if negb (seqb (pinnedUID state role) uid) then Ret (Some (Wrap "provisional ledger UID differs" ErrChanged))
    else Ret None
  else
    let* r := readLedger b t "" true in
    let* r := match r with
              | Err e => let* resolved := resolveNonemptyReadRace b e in Ret (Err resolved)
              | Ok l => Ret (Ok l)
              end in
    match r with
    | Err e => Ret (Some (if is_peer_committed e then e else Wrap "ledger changed before provisional pin" ErrChanged))
    | Ok None => Ret (Some (Wrap "ledger changed before provisional pin" ErrChanged))
    | Ok (Some ledger) =>
        if negb (seqb (cm_uid ledger) uid) then Ret (Some (Wrap "ledger changed before provisional pin" ErrChanged))
        else match genesisPatch original (setPinnedUID state role uid) false with
        | Err e => Ret (Some e)
        | Ok patch =>
            chk* run_optional (bs_BeforeEffect b) else (fun e => Ret (Some e)) in
            let* _ := call (PatchConfigMap (rc_Namespace (bs_Receipt b)) (rc_GenesisName (bs_Receipt b)) patch) in
            get* (_, observed) := getOriginal b else (fun _ => Ret (Some (Wrap "pin readback failed" ErrUnknownPin))) in
            if negb (sempty (pinnedUID observed role)) && negb (seqb (pinnedUID observed role) uid)
            then Ret (Some (Wrap "peer pinned a different ledger UID" ErrChanged))
            else if negb (seqb (pinnedUID observed role) uid) then Ret (Some (Wrap "pin is not yet observed" ErrUnknownPin))
            else
              let* v := readLedger b t uid (seqb (gd_Phase observed) PhaseInitializing) in
              let* v := match v with
                        | Err e => let* resolved := resolveNonemptyReadRace b e in Ret (Err resolved)
                        | Ok l => Ret (Ok l)
                        end in
              match v with
              | Err e => Ret (Some (if is_peer_committed e then e else Wrap "pinned ledger changed" ErrChanged))
              | Ok None => Ret (Some (Wrap "pinned ledger changed" ErrChanged))
              | Ok (Some _) => if seqb (gd_Phase observed) PhaseCommitted then Ret (Some errPeerCommitted) else Ret None
              end
        end
    end.

Definition ensureRole b t : prog (option error) :=
  let role := lt_Role t in
  get* (_, state) := getOriginal b else (fun e => Ret (Some e)) in
  if seqb (gd_Phase state) PhaseCommitted then Ret (Some errPeerCommitted)
  else
    let currentPin := pinnedUID state role in
    get* ledger := readLedger b t currentPin true
      else (fun e => let* resolved := resolveNonemptyReadRace b e in Ret (Some resolved)) in
    match ledger with
    | Some l => pinRole b t (cm_uid l)
    | None =>
        if negb (sempty currentPin) then Ret (Some (Wrap "pinned ledger disappeared" ErrChanged))
        else
          chk* bs_Preflight b else (fun e => Ret (Some e)) in
          get* (_, latest) := getOriginal b else (fun e => Ret (Some e)) in
          if seqb (gd_Phase latest) PhaseCommitted then Ret (Some errPeerCommitted)
          else if negb (sempty (pinnedUID latest role)) then
            let* r := readLedger b t (pinnedUID latest role) true in
            match r with
            | Err e => let* resolved := resolveNonemptyReadRace b e in Ret (Some resolved)
            | Ok _ => Ret None
            end
          else
            get* attempt := random_nonce else (fun e => Ret (Some e)) in
            match NewLedgerObject (bs_Receipt b) role (lt_DataKey t) (lt_EmptyData t) attempt with
            | Err e => Ret (Some e)
            | Ok request =>
                chk* run_optional (bs_BeforeEffect b) else (fun e => Ret (Some e)) in
                let* (created, createErr) := call (CreateConfigMap request) in
                let* r := readLedger b t "" true in
                match r with
                | Err e =>
                    let* resolved := resolveNonemptyReadRace b e in
                    if is_peer_committed resolved then Ret (Some resolved)
                    else Ret (Some (Wrap "ledger Create/read" ErrUnknownCreate))
                | Ok None => Ret (Some (Wrap "ledger absent after Create; original attempt may arrive later" ErrUnknownCreate))
                | Ok (Some observed) =>
                    match createErr, created with
                    | None, Some c =>
                        if negb (sempty (cm_uid c)) && negb (seqb (cm_uid c) (cm_uid observed))
                        then Ret (Some (Wrap "ledger UID changed after Create" ErrChanged))
                        else pinRole b t (cm_uid observed)
                    | _, _ => pinRole b t (cm_uid observed)
                    end
                end
            end
    end.

(** One ledger of the final check before the commit: [inl] is its early return. *)
Definition commit_ledger b (state : GenesisData) t : prog (result Binding + unit) :=
  let* r := readLedger b t (pinnedUID state (lt_Role t)) true in
  match r with
  | Err e =>
      let* resolved := resolveNonemptyReadRace b e in
      if is_peer_committed resolved then let* o := ObserveCommitted b in Ret (inl o)
      else Ret (inl (Err (Wrap "pinned ledger changed before commit" ErrChanged)))
  | Ok None => Ret (inl (Err (Wrap "pinned ledger changed before commit" ErrChanged)))
  | Ok (Some _) => Ret (inr tt)
  end.

Definition commit b : prog (result Binding) :=
  get* (original, state) := getOriginal b else (fun e => Ret (Err e)) in
  if seqb (gd_Phase state) PhaseCommitted then ObserveCommitted b
  else if sempty (gd_ActiveLedgerUID state) || sempty (gd_QueueLedgerUID state)
  then Ret (Err (Wrap "both provisional ledger UIDs are required" ErrChanged))
  else
    chk* bs_Preflight b else (fun e => Ret (Err e)) in
    let* ra := commit_ledger b state (bs_Active b) in
    match ra with
    | inl o => Ret o
    | inr _ =>
        let* rq := commit_ledger b state (bs_Queue b) in
        match rq with
        | inl o => Ret o
        | inr _ =>
            let proposal := {| gd_Contract := gd_Contract state; gd_Phase := PhaseCommitted;
                               gd_ActiveLedgerUID := gd_ActiveLedgerUID state;
                               gd_QueueLedgerUID := gd_QueueLedgerUID state |} in
            match genesisPatch original proposal true with
            | Err e => Ret (Err e)
            | Ok patch =>
                chk* run_optional (bs_BeforeEffect b) else (fun e => Ret (Err e)) in
                let* _ := call (PatchConfigMap (rc_Namespace (bs_Receipt b)) (rc_GenesisName (bs_Receipt b)) patch) in
                let* o := ObserveCommitted b in
                match o with
                | Ok binding =>
                    if negb (seqb (bd_ActiveLedgerUID binding) (gd_ActiveLedgerUID state)) ||
                       negb (seqb (bd_QueueLedgerUID binding) (gd_QueueLedgerUID state))
                    then Ret (Err (Wrap "committed ledger pair differs from provisional pins" ErrChanged))
                    else Ret (Ok binding)
                | Err _ => Ret (Err (Wrap "response/readback" ErrUnknownCommit))
                end
            end
        end
    end.

Definition EnsureFresh b : prog (result Binding) :=
  match Bootstrapper_validate b with
  | Some e => Ret (Err e)
  | None =>
      get* (_, state) := getOriginal b else (fun e => Ret (Err e)) in
      if seqb (gd_Phase state) PhaseCommitted then ObserveCommitted b
      else
        chk* bs_Preflight b else (fun e => Ret (Err e)) in
        let onerr e := if is_peer_committed e then ObserveCommitted b else Ret (Err e) in
        chk* ensureRole b (bs_Active b) else onerr in
        chk* ensureRole b (bs_Queue b) else onerr in
        commit b
  end.

(** ** [guard.go] *)

Definition Guard_Check g : prog (option error) :=
  chk* run_optional (gd_ReceiptCheck g) else (fun e => Ret (Some e)) in
  get* current := ObserveCommitted (gd_Bootstrap g) else (fun e => Ret (Some e)) in
  if negb (bool_decide (current = gd_Original g))
  then Ret (Some (Wrap "committed admission pair differs from startup binding" ErrChanged))
  else run_optional (gd_ReceiptCheck g).

Definition NewGuard (id : nat) b (original : Binding) : prog (result Guard) :=
  match Bootstrapper_validate b with
  | Some e => Ret (Err e)
  | None =>
      if negb (seqb (bd_NamespaceUID original) (ct_NamespaceUID (rc_Contract (bs_Receipt b)))) ||
         negb (seqb (bd_GenesisUID original) (rc_GenesisUID (bs_Receipt b))) ||
         negb (ValidUID (bd_ActiveLedgerUID original)) || negb (ValidUID (bd_QueueLedgerUID original))
      then Ret (Err (Wrap "startup binding differs from admission receipt" ErrChanged))
      else
        let guard := {| gd_id := id; gd_Bootstrap := b; gd_Original := original; gd_ReceiptCheck := None |} in
        chk* Guard_Check guard else (fun e => Ret (Err e)) in
        Ret (Ok guard)
  end.

Definition CheckLedger g (cm : ConfigMap) (role : Role) : option error :=
  match QualifyLedgerIdentity (bs_Receipt (gd_Bootstrap g)) cm role with
  | Some e => Some e
  | None =>
      let expected := match role with
                      | Active => bd_ActiveLedgerUID (gd_Original g)
                      | Queue => bd_QueueLedgerUID (gd_Original g)
                      end in
      if negb (seqb (cm_uid cm) expected) then Some (Wrap "ledger differs from startup UID" ErrChanged) else None
  end.

Definition template_of g (role : Role) : LedgerTemplate :=
  match role with Active => bs_Active (gd_Bootstrap g) | Queue => bs_Queue (gd_Bootstrap g) end.

Definition classifyLedgerPatchError g (cm : ConfigMap) (role : Role) t (patchErr : error) : prog (option error) :=
  if negb (bool_decide (status_code patchErr = Some 422%Z)) then Ret (Some patchErr)
  else
    get* current := call (GetConfigMap (cm_ns cm) (cm_name cm))
      else (fun e => Ret (Some (Join patchErr (Wrap "ledger 422 readback failed" e)))) in
    match CheckLedger g current role with
    | Some e => Ret (Some e)
    | None =>
        match lt_Validate t current with
        | Some _ => Ret (Some (Wrap "ledger changed to invalid state" ErrChanged))
        | None =>
            chk* Guard_Check g else (fun e => Ret (Some e)) in
            if seqb (cm_rv current) (cm_rv cm) && seqb (mget (cm_data current) (lt_DataKey t)) (mget (cm_data cm) (lt_DataKey t))
            then Ret (Some patchErr)
            else Ret (Some (ApiErr Conflict))
        end
    end.

Definition with_data (cm : ConfigMap) (d : gmap string string) : ConfigMap :=
  {| cm_ns := cm_ns cm; cm_name := cm_name cm; cm_uid := cm_uid cm; cm_rv := cm_rv cm;
     cm_labels := cm_labels cm; cm_annotations := cm_annotations cm; cm_owners := cm_owners cm;
     cm_deleting := cm_deleting cm; cm_immutable := cm_immutable cm; cm_data := d; cm_binary := cm_binary cm |}.

Definition ledgerPatchOps (cm : ConfigMap) t (nextData : string) : list patch_op :=
  [PTest ["metadata"; "uid"] (cm_uid cm);
   PTest ["metadata"; "resourceVersion"] (cm_rv cm);
   PTest ["data"; lt_DataKey t] (mget (cm_data cm) (lt_DataKey t));
   PReplace ["data"; lt_DataKey t] nextData].

Definition PatchLedgerData g (cm : ConfigMap) (role : Role) (nextData : string) : prog (option error) :=
  match CheckLedger g cm role with
  | Some e => Ret (Some e)
  | None =>
      let t := template_of g role in
      if sempty (cm_rv cm) then Ret (Some (Wrap "ledger lacks a resourceVersion" ErrChanged))
      else if negb (bool_decide (size (cm_data cm) = 1)) || negb (bool_decide (size (cm_binary cm) = 0)) ||
              sempty (mget (cm_data cm) (lt_DataKey t))
      then Ret (Some (Wrap "ledger has unsupported data keys" ErrChanged))
      else match lt_Validate t (with_data cm {[lt_DataKey t := nextData]}) with
      | Some e => Ret (Some (Wrap "ledger proposal" e))
      | None =>
          chk* Guard_Check g else (fun e => Ret (Some e)) in
          let* r := call (PatchConfigMap (cm_ns cm) (cm_name cm) (ledgerPatchOps cm t nextData)) in
          match r with
          | Err e => classifyLedgerPatchError g cm role t e
          | Ok updated =>
              match CheckLedger g updated role with
              | Some e => Ret (Some e)
              | None =>
                  if negb (seqb (mget (cm_data updated) (lt_DataKey t)) nextData)
                  then Ret (Some (Wrap "ledger Patch response differs from proposal" ErrChanged))
                  else
                    get* readback := call (GetConfigMap (cm_ns cm) (cm_name cm)) else (fun e => Ret (Some e)) in
                    match CheckLedger g readback role with
                    | Some e => Ret (Some e)
                    | None =>
                        match lt_Validate t readback with
                        | Some e => Ret (Some e)
                        | None => Guard_Check g
                        end
                    end
              end
          end
      end
  end.

(** ** [observation.go] *)

(** The token a callback receives: the guard it belongs to and whether its
    interval is closed. *)
Record Observation := mkObservation { ob_guard : nat; ob_closed : bool }.

Definition errObservation := Plain "read-only Genesis observation is closed or belongs to another original pair".

Definition Assert (o : Observation) g : option error :=
  if ob_closed o || negb (bool_decide (ob_guard o = gd_id g)) then Some errObservation else None.

Definition AssertNoOrdinaryContext (o : Observation) g (ordinaryCtx : bool) : option error :=
  if ordinaryCtx then Some (Plain "read-only Genesis observation cannot ignore a separate context")
  else Assert o g.

(** [Read]: one read-only operation under the observation's own context. *)
Definition Observation_Read {A} (o : Observation) g (read : prog (result A)) : prog (result A) :=
  match Assert o g with
  | Some e => Ret (Err e)
  | None =>
      let* c := call CtxDone in
      match c with
      | Some e => Ret (Err e)
      | None => read
      end
  end.

Definition join (e1 e2 : option error) : option error :=
  match e1, e2 with
  | Some a, Some b => Some (Join a b)
  | Some a, None => Some a
  | None, e => e
  end.

Definition Observe g (read : Observation -> prog (option error)) : prog (option error) :=
  chk* Guard_Check g else (fun e => Ret (Some e)) in
  let* readErr := read {| ob_guard := gd_id g; ob_closed := false |} in
  let* ctxErr := call CtxDone in
  let* last := Guard_Check g in
  Ret (join (join readErr ctxErr) last).
End genesis.
