(* ===== verification/GenesisFacts.v ===== *)
(** * Facts about Genesis mode

    Which requests the guard may issue, and the compare-and-swap contract of
    [PatchLedgerData], the only ledger writer of Genesis mode: whatever other
    clients do, its Patch replaces the ledger data exactly over the version the
    caller read, or leaves the object alone. *)
From S2P Require Import Prelude GoText Json JsonFacts AdmissionJson Sha256 Types Kube Contract Genesis.

(** The installed receipt check of a guard reads only. *)
Definition guard_reads (g : Guard) : Prop :=
  match gd_ReceiptCheck g with Some p => emits (@read_only) p | None => True end.

(** Steps through a program, checking each request. *)
Ltac emits_tac :=
  repeat first
    [ exact I
    | assumption
    | match goal with
      | |- emits _ (bind _ _) => apply emits_bind; [|intros ?]
      | |- emits _ (Ret _) => exact I
      | |- emits _ (Vis _ _) => split; [solve [exact I | simpl; auto]|intros ?]
      | |- emits _ (call _) => split; [solve [exact I | simpl; auto]|intros ?; exact I]
      | |- emits _ (match ?x with _ => _ end) => first [is_var x; destruct x | destruct x eqn:? in |- *]
      | |- emits _ (let _ := _ in _) => cbv zeta
      end
    | solve [eauto with emits] ].
Create HintDb emits.
#[export] Hint Extern 5 (emits _ (call _)) => (split; [solve [exact I | simpl; auto]|intros ?; exact I]) : emits.

Section reads.
Context `{External}.

Lemma getOriginal_reads b : emits (@read_only) (getOriginal b).
Proof. unfold getOriginal. emits_tac. Qed.

Lemma readLedger_reads b t uid empty : emits (@read_only) (readLedger b t uid empty).
Proof. unfold readLedger. emits_tac. Qed.

#[local] Hint Resolve getOriginal_reads readLedger_reads : emits.

Lemma ObserveCommitted_reads b : emits (@read_only) (ObserveCommitted b).
Proof. unfold ObserveCommitted. emits_tac. Qed.

#[local] Hint Resolve ObserveCommitted_reads : emits.

Lemma run_check_reads g : guard_reads g -> emits (@read_only) (run_optional (gd_ReceiptCheck g)).
Proof. unfold guard_reads, run_optional. by destruct (gd_ReceiptCheck g). Qed.

#[local] Hint Resolve run_check_reads : emits.

Lemma Guard_Check_reads g : guard_reads g -> emits (@read_only) (Guard_Check g).
Proof. intros Hg. unfold Guard_Check. emits_tac. Qed.

#[local] Hint Resolve Guard_Check_reads : emits.

Lemma classify_reads g cm role t e :
  guard_reads g -> emits (@read_only) (classifyLedgerPatchError g cm role t e).
Proof. intros Hg. unfold classifyLedgerPatchError. emits_tac. Qed.

(** A classified Patch error is an error. *)
Lemma classify_fails g cm role t e :
  returns (fun r => r <> None) (classifyLedgerPatchError g cm role t e).
Proof.
  unfold classifyLedgerPatchError.
  repeat first [ apply returns_bind; intros ? | case_match | discriminate | progress simpl ].
Qed.
End reads.
#[export] Hint Resolve getOriginal_reads readLedger_reads ObserveCommitted_reads run_check_reads
  Guard_Check_reads classify_reads : emits.

(** The data key that bootstrap validation fixes for each role. *)
Definition roleDataKey (role : Role) : string :=
  match role with Active => ActiveLedgerDataKey | Queue => QueueLedgerDataKey end.

Lemma validated_data_key `{External} g role :
  Bootstrapper_validate (gd_Bootstrap g) = None -> lt_DataKey (template_of g role) = roleDataKey role.
Proof.
  unfold Bootstrapper_validate. destruct (Receipt_Validate _); [done|].
  destruct (_ || _); [done|]. destruct (_ || _) eqn:E; [done|]. intros _. bool_simpl.
  destruct role; simpl; done.
Qed.

Section patch.
Context `{External} `{ApiServer}.
Context (G : world -> world -> Prop) (k : okey).
Hypothesis G_same : forall X (e : api X) w x w',
  step X e w x w' -> cm_now w' k = cm_now w k -> G w w'.

Lemma wp_off {A} (p : prog A) w : emits (@off_key k) p -> wp G p (fun _ _ => True) w.
Proof. apply wp_emits. intros X e w1 x w2 He Hs. eapply G_same; [done|]. by eapply frame. Qed.

Lemma wp_reads {A} (p : prog A) w : emits (@read_only) p -> wp G p (fun _ _ => True) w.
Proof. intros Hp. apply wp_off. eapply emits_mono; [|done]. apply read_only_off. Qed.

Lemma patch_data_single (d : gmap string string) key0 v v' :
  size d = 1 -> d !! key0 = Some v -> <[key0 := v']> d = {[key0 := v']}.
Proof.
  intros Hs Hl. rewrite <- (insert_delete_id d key0 v Hl), insert_insert_eq.
  assert (size (delete key0 d) = 0) as Hz%map_size_empty_inv by (rewrite map_size_delete_Some by eauto; lia).
  by rewrite Hz, insert_empty.
Qed.

Lemma version_exact w w1 cm old :
  rely w w1 -> cm_version w k (cm_rv cm) = Some cm -> cm_now w1 k = Some old -> cm_rv old = cm_rv cm -> old = cm.
Proof.
  intros Hr Hv Hn Erv. pose proof (now_version _ _ _ Hn) as Hov.
  apply (version_stable _ _ _ _ _ Hr) in Hv. rewrite Erv in Hov. congruence.
Qed.

(** The ledger holding exactly the proposed data. *)
Definition holds_data (key0 data0 : string) (c : ConfigMap) : Prop :=
  cm_data c = {[key0 := data0]} /\ size (cm_binary c) = 0.

Lemma PatchLedgerData_wp g cm role data0 w :
  guard_reads g -> Bootstrapper_validate (gd_Bootstrap g) = None ->
  cm_version w k (cm_rv cm) = Some cm -> cm_key cm = k ->
  (forall X (e : api X) w1 x w2 new, step X e w1 x w2 -> cm_now w1 k = Some cm -> cm_now w2 k = Some new ->
     holds_data (roleDataKey role) data0 new -> G w1 w2) ->
  wp G (PatchLedgerData g cm role data0)
    (fun w' r => r = None -> exists c, cm_version w' k (cm_rv c) = Some c /\ holds_data (roleDataKey role) data0 c) w.
Proof.
  intros Hg Hb Hv Hk HG. unfold PatchLedgerData. pose proof (validated_data_key g role Hb) as Ek.
  destruct (CheckLedger g cm role); [done|]. destruct (sempty (cm_rv cm)); [done|].
  destruct (_ || _) eqn:Ed; [done|]. bool_simpl.
  destruct (lt_Validate _ _); [done|].
  eapply wp_seq; [apply wp_reads; auto with emits|]. intros w' [e|] Hr' _; [done|].
  simpl. intros w1 Hr1 x w2 Hs.
  assert (Hold : forall old, cm_now w1 k = Some old -> cm_rv old = cm_rv cm -> old = cm).
  { intros old. eapply version_exact; [|done]. by eapply rely_trans. }
  assert (Hsingle : forall new, cm_data new = foldl patch_data (cm_data cm) (ledgerPatchOps cm (template_of g role) data0) ->
            cm_binary new = cm_binary cm -> forallb (patch_test cm) (ledgerPatchOps cm (template_of g role) data0) = true ->
            holds_data (roleDataKey role) data0 new).
  { intros new Hnd Hnb Ht. split; [|by rewrite Hnb]. rewrite Hnd. unfold ledgerPatchOps in Ht |- *. simpl in Ht |- *.
    rewrite Ek in *. bool_simpl. eapply patch_data_single; eauto. }
  assert (Htest : forall old, forallb (patch_test old) (ledgerPatchOps cm (template_of g role) data0) = true ->
            cm_rv old = cm_rv cm).
  { intros old Ht. unfold ledgerPatchOps in Ht. simpl in Ht. bool_simpl. done. }
  assert (Ek' : (cm_ns cm, cm_name cm) = k) by exact Hk.
  split.
  { destruct (patch_effect _ _ _ _ _ _ Hs) as [Hsame|(old & new & Ho & Ht & Hn & Hnd & Hnb)].
    - eapply G_same; [done|]. by rewrite <- Ek'.
    - rewrite Ek' in *. assert (old = cm) as -> by eauto. eapply HG; eauto. }
  destruct x as [updated|e].
  - destruct (patch_ok _ _ _ _ _ _ Hs) as (old & Ho & Ht & Hn & Hnd & Hnb). rewrite Ek' in *.
    assert (old = cm) as -> by eauto.
    pose proof (Hsingle updated Hnd Hnb Ht) as Hh.
    assert (Hdone : forall w3, rely w2 w3 -> exists c, cm_version w3 k (cm_rv c) = Some c /\ holds_data (roleDataKey role) data0 c).
    { intros w3 Hr3. exists updated. split; [|done].
      eapply version_stable; [done|]. by apply now_version. }
    destruct (CheckLedger g updated role); [done|]. destruct (negb _); [done|].
    eapply wp_mono; [apply wp_reads; emits_tac|]. simpl. eauto.
  - eapply wp_mono; [apply wp_returns; [apply wp_reads; auto with emits|apply classify_fails]|].
    by intros w3 r _ [_ Hr].
Qed.
End patch.
