(* ===== verification/QueueReceipt.v ===== *)
(** * Queue receipts

    Models [src/internal/service/recoveryreceipt/queue.go]: the immutable record
    of one pre-effect queue intent, written before the single authorized
    KovaBuild Create, and the qualification of a read object against it. *)
From S2P Require Import Prelude GoText Json JsonFacts AdmissionJson Sha256 Types Kube Contract.

Definition queueReceiptPrefix : string := "kova-admission-intent-".
Definition queueReceiptLabel : string := "kova.cofy.dev/admission-receipt".
Definition queueReceiptData : string := "queue-intent".
Definition queueVersion : string := "1".
Definition maxQueueDataJSONBytes : Z := 16 * 1024.
Definition maxEffectJSONBytes : Z := 16 * 1024.

Definition ErrInvalid := Sentinel "invalid admission recovery receipt".
Definition ErrReceiptChanged := Sentinel "admission recovery receipt changed".
Definition ErrUnconfirmed := Sentinel "admission recovery receipt is unconfirmed".

Record QueueIntent := mkQueueIntent {
  qi_Namespace : string;
  qi_NamespaceUID : string;
  qi_ReceiptNamespace : string;
  qi_ReceiptNamespaceUID : string;
  qi_GenesisName : string;
  qi_GenesisUID : string;
  qi_Generation : string;
  qi_ActiveLedgerUID : string;
  qi_QueueLedgerUID : string;
  qi_BuildName : string;
  qi_RequesterName : string;
  qi_RequesterHash : string;
  qi_RequesterUID : string;
  qi_RequestDigest : string;
  qi_SourceDigest : string;
  qi_QueueNonce : string }.

Record ObservedQueueIntent := mkObservedQueueIntent {
  oq_Intent : QueueIntent;
  oq_ReceiptName : string;
  oq_ReceiptUID : string;
  oq_ResourceVersion : string;
  oq_DataDigest : string }.

#[export] Instance QueueIntent_eq_dec : EqDecision QueueIntent.
Proof. solve_decision. Defined.
#[export] Instance ObservedQueueIntent_eq_dec : EqDecision ObservedQueueIntent.
Proof. solve_decision. Defined.

Definition lowerHex (value : string) (n : Z) : bool :=
  (slen value =? n)%Z && str_forallb is_lower_hex value.

Definition opaqueUID (value : string) : bool :=
  negb (sempty value) && (slen value <=? 256)%Z && ValidString value.

Definition name (q : QueueIntent) : string := queueReceiptPrefix +:+ qi_QueueNonce q.

Definition data (q : QueueIntent) : gmap string string :=
  list_to_map
    [("version", queueVersion);
     ("namespaceName", qi_Namespace q);
     ("namespaceUID", qi_NamespaceUID q);
     ("receiptNamespaceName", qi_ReceiptNamespace q);
     ("receiptNamespaceUID", qi_ReceiptNamespaceUID q);
     ("genesisName", qi_GenesisName q);
     ("genesisUID", qi_GenesisUID q);
     ("generation", qi_Generation q);
     ("activeLedgerUID", qi_ActiveLedgerUID q);
     ("queueLedgerUID", qi_QueueLedgerUID q);
     ("buildName", qi_BuildName q);
     ("requesterName", qi_RequesterName q);
     ("requesterHash", qi_RequesterHash q);
     ("requesterUID", qi_RequesterUID q);
     ("requestDigest", qi_RequestDigest q);
     ("sourceDigest", qi_SourceDigest q);
     ("queueNonce", qi_QueueNonce q)].

(** [json.Marshal] of a [map[string]string]. *)
Definition json_of_data (d : gmap string string) : jvalue :=
  JObj (List.map (fun kv => (fst kv, JStr (snd kv))) (sorted_entries d)).

Definition digest_suffix_ok (value : string) : bool :=
  HasPrefix value "sha256:" && lowerHex (TrimPrefix value "sha256:") 64.

(** [DigestData] of [effect.go]. *)
Definition DigestData (d : gmap string string) : result string :=
  if bool_decide (size d = 0) then Err ErrInvalid
  else
    let raw := json_print (json_of_data d) in
    if (maxEffectJSONBytes * 2 <? slen raw)%Z then Err ErrInvalid
    else Ok ("sha256:" +:+ sha256_hex raw).

Section receipt.
Context `{External}.

Definition QueueIntent_validate (q : QueueIntent) : option error :=
  if negb (IsDNS1123Label (qi_Namespace q)) || negb (IsDNS1123Label (qi_ReceiptNamespace q)) ||
     seqb (qi_ReceiptNamespace q) (qi_Namespace q) || negb (opaqueUID (qi_ReceiptNamespaceUID q)) ||
     negb (IsDNS1123Subdomain (qi_GenesisName q)) || negb (IsDNS1123Subdomain (qi_BuildName q)) ||
     negb (opaqueUID (qi_NamespaceUID q)) || negb (opaqueUID (qi_GenesisUID q)) ||
     negb (opaqueUID (qi_ActiveLedgerUID q)) || negb (opaqueUID (qi_QueueLedgerUID q)) ||
     negb (lowerHex (qi_Generation q) 32) || negb (lowerHex (qi_QueueNonce q) 32) ||
     sempty (qi_RequesterName q) || negb (ValidString (qi_RequesterName q)) ||
     (253 <? RuneCountInString (qi_RequesterName q))%Z ||
     negb (lowerHex (qi_RequesterHash q) 64) || negb (lowerHex (qi_RequestDigest q) 64) ||
     negb (ValidString (qi_RequesterUID q)) || (253 <? RuneCountInString (qi_RequesterUID q))%Z ||
     negb (digest_suffix_ok (qi_SourceDigest q))
  then Some ErrInvalid
  else if negb (seqb (sha256_hex (qi_RequesterName q)) (qi_RequesterHash q)) then Some ErrInvalid
  else if (maxQueueDataJSONBytes <? slen (json_print (json_of_data (data q))))%Z then Some ErrInvalid
  else None.

Definition NewQueueConfigMap (q : QueueIntent) : result ConfigMap :=
  match QueueIntent_validate q with
  | Some e => Err e
  | None =>
      Ok {| cm_ns := qi_ReceiptNamespace q; cm_name := name q; cm_uid := ""; cm_rv := "";
            cm_labels := {[queueReceiptLabel := queueReceiptData]}; cm_annotations := ∅; cm_owners := [];
            cm_deleting := false; cm_immutable := Some true; cm_data := data q; cm_binary := ∅ |}
  end.

Definition QualifyQueue (q : QueueIntent) (cm : ConfigMap) : result ObservedQueueIntent :=
  match QueueIntent_validate q with
  | Some e => Err e
  | None =>
      if negb (seqb (cm_ns cm) (qi_ReceiptNamespace q)) || negb (seqb (cm_name cm) (name q)) ||
         negb (opaqueUID (cm_uid cm)) || sempty (cm_rv cm) || cm_deleting cm ||
         negb (is_true_ptr (cm_immutable cm)) || negb (bool_decide (size (cm_binary cm) = 0)) ||
         negb (bool_decide (cm_owners cm = [])) || negb (bool_decide (size (cm_data cm) = size (data q))) ||
         negb (seqb (mget (cm_labels cm) queueReceiptLabel) queueReceiptData)
      then Err ErrReceiptChanged
      else if negb (forallb (fun kv => seqb (mget (cm_data cm) (fst kv)) (snd kv)) (map_to_list (data q)))
      then Err ErrReceiptChanged
      else match DigestData (cm_data cm) with
      | Err _ => Err ErrReceiptChanged
      | Ok digest =>
          Ok {| oq_Intent := q; oq_ReceiptName := cm_name cm; oq_ReceiptUID := cm_uid cm;
                oq_ResourceVersion := cm_rv cm; oq_DataDigest := digest |}
      end
  end.

(** The receipt client is scoped to the receipt namespace of the intent. *)
Definition RecordQueueOnce (q : QueueIntent) : prog (result ObservedQueueIntent) :=
  match NewQueueConfigMap q with
  | Err e => Ret (Err e)
  | Ok cm =>
      let* (created, createErr) := call (CreateConfigMap cm) in
      get* readback := call (GetConfigMap (qi_ReceiptNamespace q) (cm_name cm))
        else (fun _ => Ret (Err (Wrap "Create result; direct read" ErrUnconfirmed))) in
      match QualifyQueue q readback with
      | Err e => Ret (Err e)
      | Ok observed =>
          let witness :=
            match created with
            | Some c =>
                match QualifyQueue q c with
                | Err _ => Some ErrReceiptChanged
                | Ok w => if negb (seqb (oq_ReceiptUID w) (oq_ReceiptUID observed)) then Some ErrReceiptChanged else None
                end
            | None => match createErr with None => Some ErrUnconfirmed | Some _ => None end
            end in
          match witness with
          | Some e => Ret (Err e)
          | None =>
              match createErr with
              | Some e =>
                  if IsAlreadyExists e || IsForbidden e || IsInvalid e || IsBadRequest e || IsUnauthorized e
                  then Ret (Err ErrUnconfirmed)
                  else Ret (Ok observed)
              | None => Ret (Ok observed)
              end
          end
      end
  end.

Definition ObserveQueue (q : QueueIntent) : prog (result ObservedQueueIntent) :=
  match QueueIntent_validate q with
  | Some e => Ret (Err e)
  | None =>
      get* readback := call (GetConfigMap (qi_ReceiptNamespace q) (name q))
        else (fun _ => Ret (Err (Wrap "direct read" ErrUnconfirmed))) in
      Ret (QualifyQueue q readback)
  end.

(** ** Qualification *)

Lemma slen_pos s n : (slen s =? n)%Z = true -> (0 < n)%Z -> s <> EmptyString.
Proof. intros Hl%Z.eqb_eq Hn ->. unfold slen in Hl. simpl in Hl. lia. Qed.

Lemma lowerHex_nonempty s n : lowerHex s n = true -> (0 < n)%Z -> s <> EmptyString.
Proof. unfold lowerHex. intros [? _]%andb_true_iff. by apply slen_pos. Qed.

Lemma opaqueUID_nonempty s : opaqueUID s = true -> s <> EmptyString.
Proof. unfold opaqueUID. intros Hs. bool_simpl. done. Qed.

Lemma digest_suffix_nonempty s : digest_suffix_ok s = true -> s <> EmptyString.
Proof. unfold digest_suffix_ok. by intros [? _]%andb_true_iff ->. Qed.

(** Of the members of a valid intent only the requester UID can be empty. *)
Lemma data_value_empty q k :
  QueueIntent_validate q = None -> data q !! k = Some EmptyString -> k = "requesterUID" /\ qi_RequesterUID q = EmptyString.
Proof.
  unfold QueueIntent_validate. intros Hv Hk.
  match type of Hv with (if ?c then _ else _) = _ => destruct c eqn:E; [done|] end. clear Hv.
  bool_simpl. apply elem_of_list_to_map_2 in Hk.
  repeat (apply elem_of_cons in Hk as [Hk|Hk];
    [injection Hk as -> Hk; symmetry in Hk; first [done|exfalso; revert Hk; first [done|by eapply lowerHex_nonempty
    |by apply opaqueUID_nonempty|by apply digest_suffix_nonempty|by apply dns1123_label_nonempty
    |by apply dns1123_subdomain_nonempty]]|]).
  by apply elem_of_nil in Hk.
Qed.

Lemma data_values_nonempty q k v :
  QueueIntent_validate q = None -> qi_RequesterUID q <> EmptyString ->
  data q !! k = Some v -> v <> EmptyString.
Proof. intros Hv Hu Hk ->. by destruct (data_value_empty q k Hv Hk). Qed.

Lemma is_true_ptr_true o : is_true_ptr o = true -> o = Some true.
Proof. by destruct o as [[]|]. Qed.

#[local] Opaque data DigestData.

Lemma QualifyQueue_inv q cm o :
  QualifyQueue q cm = Ok o ->
  QueueIntent_validate q = None /\ cm_key cm = (qi_ReceiptNamespace q, name q) /\
  cm_immutable cm = Some true /\ cm_owners cm = [] /\ size (cm_data cm) = size (data q) /\
  (forall k v, data q !! k = Some v -> mget (cm_data cm) k = v) /\
  oq_Intent o = q /\ oq_ReceiptUID o = cm_uid cm /\ DigestData (cm_data cm) = Ok (oq_DataDigest o).
Proof.
  unfold QualifyQueue. destruct (QueueIntent_validate q); [done|].
  match goal with |- context [if ?c then _ else _] => destruct c eqn:E1 end; [done|].
  match goal with |- context [if ?c then _ else _] => destruct c eqn:E2 end; [done|].
  destruct (DigestData (cm_data cm)) eqn:Ed; [|done]. intros [= <-].
  bool_simpl. split; [reflexivity|]. unfold cm_key. split; [f_equal; assumption|].
  split; [apply is_true_ptr_true; assumption|]. split; [assumption|]. split; [assumption|].
  split; [|split; [reflexivity|split; [reflexivity|reflexivity]]].
  - intros k v Hk. rewrite forallb_forall in E2.
    specialize (E2 (k, v)). rewrite <- list_elem_of_In, elem_of_map_to_list in E2.
    specialize (E2 Hk). apply bool_decide_eq_true in E2. exact E2.
Qed.
End receipt.
