(* ===== verification/Effects.v ===== *)
(** * Effect receipts

    Models [src/internal/service/recoveryreceipt/effect.go]: the immutable
    receipts recorded before a runner grant takes effect and before its single
    Pod Create, and the qualification of a direct readback against them. *)
From S2P Require Import Prelude GoText Json JsonFacts AdmissionJson Sha256 Types Kube Contract QueueReceipt.

Definition grantReceiptPrefix : string := "kova-grant-intent-".
Definition podReceiptPrefix : string := "kova-pod-create-intent-".
Definition effectReceiptLabel : string := "kova.cofy.dev/recovery-receipt".
Definition effectVersion : string := "1".
Definition maxEffectIDBytes : Z := 256.
Definition maxWorkerPoolIDSize : Z := 128.

Record PinnedBuild := mkPinnedBuild {
  pb_Namespace : string;
  pb_NamespaceUID : string;
  pb_ReceiptNamespace : string;
  pb_ReceiptNamespaceUID : string;
  pb_GenesisName : string;
  pb_GenesisUID : string;
  pb_Generation : string;
  pb_ActiveLedgerUID : string;
  pb_QueueLedgerUID : string;
  pb_BuildName : string;
  pb_BuildUID : string;
  pb_RequesterName : string;
  pb_RequesterUID : string;
  pb_RequesterHash : string;
  pb_RequestDigest : string;
  pb_SourceDigest : string;
  pb_WorkerPoolID : string }.

Record ReceiptLink := mkLink { rl_Name : string; rl_UID : string; rl_DataDigest : string }.

Record GrantIntent := mkGrantIntent {
  gi_Build : PinnedBuild;
  gi_AdmissionMode : string;
  gi_QueueReceipt : option ReceiptLink;
  gi_GrantNonce : string;
  gi_ActiveLedgerFence : Z;            (* uint64 *)
  gi_ActiveLedgerRV : string;
  gi_AllocatedWorkerSlots : Z }.

Record PodCreateIntent := mkPodCreateIntent {
  pi_Build : PinnedBuild;
  pi_GrantReceipt : ReceiptLink;
  pi_PodName : string;
  pi_PodAttemptNonce : string;
  pi_PodTemplateDigest : string;
  pi_RunnerImageDigest : string;
  pi_BuildRequestID : string }.

Record EffectWitness := mkWitness {
  ew_Kind : string;
  ew_ReceiptName : string;
  ew_ReceiptUID : string;
  ew_ResourceVersion : string;
  ew_DataDigest : string }.

(** ** Payloads *)

Definition json_of_pinned (b : PinnedBuild) : jvalue :=
  JObj (js "namespace" (pb_Namespace b) ++ js "namespaceUid" (pb_NamespaceUID b) ++
        js "receiptNamespace" (pb_ReceiptNamespace b) ++ js "receiptNamespaceUid" (pb_ReceiptNamespaceUID b) ++
        js "genesisName" (pb_GenesisName b) ++ js "genesisUid" (pb_GenesisUID b) ++ js "generation" (pb_Generation b) ++
        js "activeLedgerUid" (pb_ActiveLedgerUID b) ++ js "queueLedgerUid" (pb_QueueLedgerUID b) ++
        js "buildName" (pb_BuildName b) ++ js "buildUid" (pb_BuildUID b) ++ js "requesterName" (pb_RequesterName b) ++
        js "requesterUid" (pb_RequesterUID b) ++ js "requesterHash" (pb_RequesterHash b) ++
        js "requestDigest" (pb_RequestDigest b) ++ js "sourceDigest" (pb_SourceDigest b) ++
        js "workerPoolId" (pb_WorkerPoolID b)).

Definition json_of_link (l : ReceiptLink) : jvalue :=
  JObj (js "name" (rl_Name l) ++ js "uid" (rl_UID l) ++ js "dataDigest" (rl_DataDigest l)).

Definition json_of_grant (g : GrantIntent) : jvalue :=
  JObj (("build", json_of_pinned (gi_Build g)) :: js "admissionMode" (gi_AdmissionMode g) ++
        match gi_QueueReceipt g with Some l => [("queueReceipt", json_of_link l)] | None => [] end ++
        js "grantNonce" (gi_GrantNonce g) ++ jn "activeLedgerFence" (gi_ActiveLedgerFence g) ++
        js "activeLedgerResourceVersion" (gi_ActiveLedgerRV g) ++ jn "allocatedWorkerSlots" (gi_AllocatedWorkerSlots g)).

Definition json_of_pod_create (p : PodCreateIntent) : jvalue :=
  JObj (("build", json_of_pinned (pi_Build p)) :: ("grantReceipt", json_of_link (pi_GrantReceipt p)) ::
        js "podName" (pi_PodName p) ++ js "podAttemptNonce" (pi_PodAttemptNonce p) ++
        js "podTemplateDigest" (pi_PodTemplateDigest p) ++ js "runnerImageDigest" (pi_RunnerImageDigest p) ++
        js "buildRequestId" (pi_BuildRequestID p)).

(** ** Validation *)

Definition digestSHA256 (value : string) : bool :=
  HasPrefix value "sha256:" && lowerHex (TrimPrefix value "sha256:") 64.

Definition safeEffectID (value : string) (max : Z) : bool :=
  negb (sempty value) && (slen value <=? max)%Z && ValidString value &&
  forall_runes (fun r => negb (IsSpace r || IsControl r)) value.

Definition boundedEffect (v : jvalue) : option error :=
  if (maxEffectJSONBytes <? slen (json_print v))%Z then Some ErrInvalid else None.

Definition ReceiptLink_validate (l : ReceiptLink) (prefix : string) : option error :=
  if negb (HasPrefix (rl_Name l) prefix) || negb (lowerHex (TrimPrefix (rl_Name l) prefix) 32) ||
     negb (opaqueUID (rl_UID l)) || negb (digestSHA256 (rl_DataDigest l))
  then Some ErrInvalid else None.

Section effects.
Context `{External}.

Definition PinnedBuild_validate (b : PinnedBuild) : option error :=
  if negb (IsDNS1123Label (pb_Namespace b)) || negb (IsDNS1123Label (pb_ReceiptNamespace b)) ||
     seqb (pb_ReceiptNamespace b) (pb_Namespace b) || negb (opaqueUID (pb_ReceiptNamespaceUID b)) ||
     negb (IsDNS1123Subdomain (pb_GenesisName b)) || negb (IsDNS1123Subdomain (pb_BuildName b)) ||
     negb (opaqueUID (pb_NamespaceUID b)) || negb (opaqueUID (pb_GenesisUID b)) ||
     negb (opaqueUID (pb_ActiveLedgerUID b)) || negb (opaqueUID (pb_QueueLedgerUID b)) ||
     negb (opaqueUID (pb_BuildUID b)) || negb (lowerHex (pb_Generation b) 32) ||
     negb (lowerHex (pb_RequesterHash b) 64) || negb (lowerHex (pb_RequestDigest b) 64) ||
     sempty (pb_RequesterName b) || negb (ValidString (pb_RequesterName b)) ||
     (253 <? RuneCountInString (pb_RequesterName b))%Z ||
     negb (ValidString (pb_RequesterUID b)) || (253 <? RuneCountInString (pb_RequesterUID b))%Z ||
     negb (digestSHA256 (pb_SourceDigest b)) || negb (safeEffectID (pb_WorkerPoolID b) maxWorkerPoolIDSize)
  then Some ErrInvalid
  else if negb (seqb (sha256_hex (pb_RequesterName b)) (pb_RequesterHash b)) then Some ErrInvalid
  else None.

Definition modeError (g : GrantIntent) : bool :=
  if seqb (gi_AdmissionMode g) "queued" then
    match gi_QueueReceipt g with
    | None => true
    | Some l => negb (is_nil (ReceiptLink_validate l queueReceiptPrefix))
    end
  else if seqb (gi_AdmissionMode g) "direct" then
    match gi_QueueReceipt g with None => false | Some _ => true end
  else true.

Definition GrantIntent_validate (g : GrantIntent) : option error :=
  match PinnedBuild_validate (gi_Build g) with
  | Some e => Some e
  | None =>
      if negb (lowerHex (gi_GrantNonce g) 32) || (gi_ActiveLedgerFence g =? 0)%Z ||
         negb (safeEffectID (gi_ActiveLedgerRV g) maxEffectIDBytes) ||
         (gi_AllocatedWorkerSlots g <? 1)%Z || (65535 <? gi_AllocatedWorkerSlots g)%Z
      then Some ErrInvalid
      else if modeError g then Some ErrInvalid
      else boundedEffect (json_of_grant g)
  end.

Definition PodCreateIntent_validate (p : PodCreateIntent) : option error :=
  match PinnedBuild_validate (pi_Build p) with
  | Some e => Some e
  | None =>
      match ReceiptLink_validate (pi_GrantReceipt p) grantReceiptPrefix with
      | Some e => Some e
      | None =>
          if negb (IsDNS1123Subdomain (pi_PodName p)) || negb (lowerHex (pi_PodAttemptNonce p) 32) ||
             negb (digestSHA256 (pi_PodTemplateDigest p)) || negb (digestSHA256 (pi_RunnerImageDigest p)) ||
             negb (seqb (pi_BuildRequestID p) (pb_BuildUID (pi_Build p)))
          then Some ErrInvalid
          else boundedEffect (json_of_pod_create p)
      end
  end.

(** ** Objects *)

Definition effectData (kind : string) (v : jvalue) : result (gmap string string) :=
  let raw := json_print v in
  if (maxEffectJSONBytes <? slen raw)%Z then Err ErrInvalid
  else Ok (list_to_map [("version", effectVersion); ("kind", kind); ("payload", raw)]).

Definition newEffectConfigMap (namespace name kind : string) (v : jvalue) : result ConfigMap :=
  match effectData kind v with
  | Err e => Err e
  | Ok data =>
      Ok {| cm_ns := namespace; cm_name := name; cm_uid := ""; cm_rv := "";
            cm_labels := {[effectReceiptLabel := kind]}; cm_annotations := ∅; cm_owners := [];
            cm_deleting := false; cm_immutable := Some true; cm_data := data; cm_binary := ∅ |}
  end.

Definition NewGrantConfigMap (g : GrantIntent) : result ConfigMap :=
  match GrantIntent_validate g with
  | Some e => Err e
  | None =>
      newEffectConfigMap (pb_ReceiptNamespace (gi_Build g)) (grantReceiptPrefix +:+ gi_GrantNonce g) "grant" (json_of_grant g)
  end.

Definition NewPodCreateConfigMap (p : PodCreateIntent) : result ConfigMap :=
  match PodCreateIntent_validate p with
  | Some e => Err e
  | None =>
      newEffectConfigMap (pb_ReceiptNamespace (pi_Build p)) (podReceiptPrefix +:+ pi_PodAttemptNonce p) "pod-create"
        (json_of_pod_create p)
  end.

Definition qualifyEffect (expected observed : ConfigMap) (kind : string) : result EffectWitness :=
  if negb (seqb (cm_ns observed) (cm_ns expected)) || negb (seqb (cm_name observed) (cm_name expected)) ||
     negb (opaqueUID (cm_uid observed)) || sempty (cm_rv observed) || cm_deleting observed ||
     negb (is_true_ptr (cm_immutable observed)) || negb (bool_decide (cm_owners observed = [])) ||
     negb (bool_decide (size (cm_binary observed) = 0)) ||
     negb (bool_decide (size (cm_data observed) = size (cm_data expected))) ||
     negb (bool_decide (size (cm_labels observed) = 1)) || negb (seqb (mget (cm_labels observed) effectReceiptLabel) kind)
  then Err ErrReceiptChanged
  else if negb (forallb (fun kv => seqb (mget (cm_data observed) (fst kv)) (snd kv)) (map_to_list (cm_data expected)))
  then Err ErrReceiptChanged
  else match DigestData (cm_data observed) with
  | Err e => Err e
  | Ok digest =>
      Ok {| ew_Kind := kind; ew_ReceiptName := cm_name observed; ew_ReceiptUID := cm_uid observed;
            ew_ResourceVersion := cm_rv observed; ew_DataDigest := digest |}
  end.

Definition QualifyGrant (g : GrantIntent) (observed : ConfigMap) : result EffectWitness :=
  match NewGrantConfigMap g with
  | Err e => Err e
  | Ok expected => qualifyEffect expected observed "grant"
  end.

Definition QualifyPodCreate (p : PodCreateIntent) (observed : ConfigMap) : result EffectWitness :=
  match NewPodCreateConfigMap p with
  | Err e => Err e
  | Ok expected => qualifyEffect expected observed "pod-create"
  end.

(** The receipt client is scoped to the receipt namespace. *)
Definition recordEffectOnce (expected : ConfigMap) (kind : string) : prog (result EffectWitness) :=
  let* (created, createErr) := call (CreateConfigMap expected) in
  get* readback := call (GetConfigMap (cm_ns expected) (cm_name expected))
    else (fun _ => Ret (Err (Wrap "Create result; direct read" ErrUnconfirmed))) in
  match qualifyEffect expected readback kind with
  | Err e => Ret (Err e)
  | Ok observed =>
      let witness :=
        match created with
        | Some c =>
            match qualifyEffect expected c kind with
            | Err _ => Some ErrReceiptChanged
            | Ok w => if negb (seqb (ew_ReceiptUID w) (ew_ReceiptUID observed)) then Some ErrReceiptChanged else None
            end
        | None => match createErr with None => Some ErrUnconfirmed | Some _ => None end
        end in
      match witness with
      | Some e => Ret (Err e)
      | None =>
          match createErr with
          | Some e =>
              if IsAlreadyExists e || IsForbidden e || IsInvalid e || IsBadRequest e || IsUnauthorized e
              then Ret (Err ErrUnconfirmed)
              else Ret (Ok observed)
          | None => Ret (Ok observed)
          end
      end
  end.

Definition RecordGrantOnce (g : GrantIntent) : prog (result EffectWitness) :=
  match NewGrantConfigMap g with
  | Err e => Ret (Err e)
  | Ok expected => recordEffectOnce expected "grant"
  end.

Definition RecordPodCreateOnce (p : PodCreateIntent) : prog (result EffectWitness) :=
  match NewPodCreateConfigMap p with
  | Err e => Ret (Err e)
  | Ok expected => recordEffectOnce expected "pod-create"
  end.

Definition observeEffect (expected : ConfigMap) (kind : string) : prog (result EffectWitness) :=
  get* readback := call (GetConfigMap (cm_ns expected) (cm_name expected))
    else (fun _ => Ret (Err (Wrap "direct read" ErrUnconfirmed))) in
  Ret (qualifyEffect expected readback kind).

Definition ObserveGrant (g : GrantIntent) : prog (result EffectWitness) :=
  match NewGrantConfigMap g with
  | Err e => Ret (Err e)
  | Ok expected => observeEffect expected "grant"
  end.

Definition ObservePodCreate (p : PodCreateIntent) : prog (result EffectWitness) :=
  match NewPodCreateConfigMap p with
  | Err e => Ret (Err e)
  | Ok expected => observeEffect expected "pod-create"
  end.
End effects.
