(* ===== verification/QueueLedger.v ===== *)
(** * The HTTP queue's compare-and-swap ledger: data and codec

    Models the state of [src/internal/service/queueadmission/ledger.go], its
    validation and its JSON form.  The operations are in [QueueOps]. *)
From S2P Require Import Prelude GoText Json JsonFacts AdmissionJson Sha256 Types Kube Contract Genesis QueueReceipt.

Definition ConfigMapName : string := "kova-service-queue-admission".
Definition IntentAnnotation : string := "kova.cofy.dev/queue-intent".
Definition ReceiptUIDAnnotation : string := "kova.cofy.dev/queue-receipt-uid".
Definition ReceiptDigestAnnotation : string := "kova.cofy.dev/queue-receipt-digest".
Definition ReceiptSettledAnnotation : string := "kova.cofy.dev/queue-receipt-settled-uid".
Definition dataKey : string := "queue.json".
Definition maxLedgerBytes : Z := 768 * 1024.
Definition maxHeaderBytes : Z := 4096.
Definition maxIntentBytes : Z := 736.
Definition maxCASAttempts : nat := 16.
Definition cleanupRejected : string := "rejected".
Definition cleanupTerminal : string := "terminal".

Definition ErrFull := Sentinel "queue admission limit reached".
Definition ErrBusy := Sentinel "queue admission is busy".
Definition ErrConflict := Sentinel "queue intent has different build parameters".
Definition driftName : string := "queue admission ledger and KovaBuild disagree".
Definition ErrDrift := Sentinel driftName.

Record Intent := mkIntent {
  it_RequesterHash : string;
  it_RequestDigest : string;
  it_Nonce : string;
  it_CreatedAtUnix : Z;
  it_ReceiptUID : string;
  it_ReceiptDigest : string;
  it_CleanupKind : string }.

(** [st_Intents = None] is the nil map. *)
Record state := mkState {
  st_Version : Z;
  st_GlobalLimit : Z;
  st_RequesterLimit : Z;
  st_Intents : option (gmap string Intent) }.

#[export] Instance Intent_eq_dec : EqDecision Intent.
Proof. solve_decision. Defined.
#[export] Instance state_eq_dec : EqDecision state.
Proof. solve_decision. Defined.

(** [current.Intents] in lookups, ranges and [len]. *)
Definition intents (s : state) : gmap string Intent := default ∅ (st_Intents s).
Definition with_intents (s : state) (m : gmap string Intent) : state :=
  {| st_Version := st_Version s; st_GlobalLimit := st_GlobalLimit s;
     st_RequesterLimit := st_RequesterLimit s; st_Intents := Some m |}.

Definition HashRequester (username : string) : string := sha256_hex username.

(** [json.Marshal] of a specification cannot fail. *)
Definition DigestBuild (build : KovaBuild) : string :=
  sha256_hex (json_print (json_of_spec (with_requester_uid (kb_spec build) ""))).

Definition validateLimits (global requester : Z) : option error :=
  if ((global <? 1) || (1000 <? global) || (requester <? 1) || (global <? requester) ||
      (maxLedgerBytes <? maxHeaderBytes + global * maxIntentBytes))%Z
  then Some (Plain "unsupported queue admission capacity") else None.

(** The source ranges over runes; a byte above 127 starts a rune outside the
    accepted ranges, so testing bytes decides the same strings. *)
Definition validLowerHex (value : string) (length : Z) : bool :=
  (slen value =? length)%Z && str_forallb is_lower_hex value.

Definition validReceiptUID (value : string) : bool :=
  negb (sempty value) && (slen value <=? 64)%Z &&
  str_forallb (fun c => is_digit c || is_lower c || is_upper c || bool_decide (c = "-"%char)) value.

Definition validDigest (value : string) : bool :=
  HasPrefix value "sha256:" && validLowerHex (TrimPrefix value "sha256:") 64.

Definition cleanupKindOK (kind : string) : bool := seqb kind cleanupRejected || seqb kind cleanupTerminal.

Section ledger.
Context `{External}.

(** The two per-entry conditions of [validateState]'s loop body. *)
Definition invalidIntent (id : string) (e : Intent) : bool :=
  (slen id =? 0)%Z || (253 <? slen id)%Z || negb (IsDNS1123Subdomain id) ||
  negb (validLowerHex (it_RequesterHash e) 64) || negb (validLowerHex (it_RequestDigest e) 64) ||
  negb (validLowerHex (it_Nonce e) 32) || (it_CreatedAtUnix e <? 1)%Z.

Definition invalidLink (version : Z) (e : Intent) : bool :=
  xorb (sempty (it_ReceiptUID e)) (sempty (it_ReceiptDigest e)) ||
  ((version =? 1)%Z && (negb (sempty (it_ReceiptUID e)) || negb (sempty (it_CleanupKind e)))) ||
  (negb (sempty (it_ReceiptUID e)) && (negb (validReceiptUID (it_ReceiptUID e)) || negb (validDigest (it_ReceiptDigest e)))) ||
  (negb (sempty (it_CleanupKind e)) && (sempty (it_ReceiptUID e) || negb (cleanupKindOK (it_CleanupKind e)))).

(** The [range] loop with its [requesterCounts]. *)
Fixpoint validateEntries (version requesterLimit : Z) (l : list (string * Intent)) (counts : gmap string Z) : option error :=
  match l with
  | [] => None
  | (id, entry) :: r =>
      if invalidIntent id entry then Some (Plain "queue admission state has an invalid intent")
      else if invalidLink version entry then Some (Plain "queue admission state has an invalid receipt link")
      else
        let n := (default 0 (counts !! it_RequesterHash entry) + 1)%Z in
        if (requesterLimit <? n)%Z then Some (Plain "queue admission state exceeds requester capacity")
        else validateEntries version requesterLimit r (<[it_RequesterHash entry := n]> counts)
  end.

Definition validateState (current : state) : option error :=
  if (negb (st_Version current =? 1)%Z && negb (st_Version current =? 2)%Z) ||
     bool_decide (st_Intents current = None) ||
     negb (is_nil (validateLimits (st_GlobalLimit current) (st_RequesterLimit current))) ||
     (st_GlobalLimit current <? Z.of_nat (size (intents current)))%Z
  then Some (Plain "unsupported queue admission state")
  else validateEntries (st_Version current) (st_RequesterLimit current) (map_to_list (intents current)) ∅.

(** ** JSON form *)

Definition json_of_intent (e : Intent) : jvalue :=
  JObj (js "requesterHash" (it_RequesterHash e) ++ js "requestDigest" (it_RequestDigest e) ++
        js "nonce" (it_Nonce e) ++ jn "createdAtUnix" (it_CreatedAtUnix e) ++
        js_omit "receiptUID" (it_ReceiptUID e) ++ js_omit "receiptDigest" (it_ReceiptDigest e) ++
        js_omit "cleanupKind" (it_CleanupKind e)).

Definition json_of_state (s : state) : jvalue :=
  JObj (jn "version" (st_Version s) ++ jn "globalLimit" (st_GlobalLimit s) ++
        jn "requesterLimit" (st_RequesterLimit s) ++
        [("intents", match st_Intents s with
                     | None => JNull
                     | Some m => JObj (List.map (fun kv => (fst kv, json_of_intent (snd kv))) (sorted_entries m))
                     end)]).

Definition encodeState (current : state) : result string :=
  match validateState current with
  | Some e => Err e
  | None =>
      let data := json_print (json_of_state current) in
      if (maxLedgerBytes <? slen data)%Z then Err (Plain "queue ledger would exceed bytes") else Ok data
  end.

Definition allowedQueueField : Allowed := fun path key =>
  match path with
  | [] => bool_decide (key ∈ ["version"; "globalLimit"; "requesterLimit"; "intents"])
  | [p0] => seqb p0 "intents"
  | [p0; _] =>
      seqb p0 "intents" &&
      bool_decide (key ∈ ["requesterHash"; "requestDigest"; "nonce"; "createdAtUnix"; "receiptUID"; "receiptDigest"; "cleanupKind"])
  | _ => false
  end.

(** Typed [json.Unmarshal] into [Intent], its map and [state]. *)
Definition intent_of_json (v : jvalue) : option Intent :=
  match v with
  | JObj l =>
      match jstring (jfield l "requesterHash"), jstring (jfield l "requestDigest"), jstring (jfield l "nonce"),
            jint64 (jfield l "createdAtUnix"), jstring (jfield l "receiptUID"), jstring (jfield l "receiptDigest"),
            jstring (jfield l "cleanupKind") with
      | Some a, Some b, Some c, Some d, Some e, Some f, Some g => Some (mkIntent a b c d e f g)
      | _, _, _, _, _, _, _ => None
      end
  | _ => None
  end.

Fixpoint entries_of_json (l : list (string * jvalue)) : option (list (string * Intent)) :=
  match l with
  | [] => Some []
  | (k, v) :: r =>
      match intent_of_json v, entries_of_json r with
      | Some e, Some t => Some ((k, e) :: t)
      | _, _ => None
      end
  end.

Definition intents_of_json (o : option jvalue) : option (option (gmap string Intent)) :=
  match o with
  | None => Some None
  | Some (JObj l) => match entries_of_json l with Some t => Some (Some (list_to_map t)) | None => None end
  | Some _ => None
  end.

Definition state_of_json (v : jvalue) : option state :=
  match v with
  | JObj l =>
      match jint64 (jfield l "version"), jint64 (jfield l "globalLimit"), jint64 (jfield l "requesterLimit"),
            intents_of_json (jfield l "intents") with
      | Some a, Some b, Some c, Some d => Some (mkState a b c d)
      | _, _, _, _ => None
      end
  | _ => None
  end.

(** [admissionjson.Decode(raw, &current, allowedQueueField)]. *)
Definition decodeState (raw : string) : result state :=
  Decode raw allowedQueueField state_of_json.

(** [len(cm.Data) != 1 || len(cm.Data[dataKey]) == 0 || ... > maxLedgerBytes || len(cm.BinaryData) != 0]. *)
Definition badData (cm : ConfigMap) : bool :=
  negb (bool_decide (size (cm_data cm) = 1)) || (slen (mget (cm_data cm) dataKey) =? 0)%Z ||
  (maxLedgerBytes <? slen (mget (cm_data cm) dataKey))%Z || negb (bool_decide (size (cm_binary cm) = 0)).

Definition GenesisEmptyQueueData (globalLimit requesterLimit : Z) : result string :=
  encodeState {| st_Version := 2; st_GlobalLimit := globalLimit; st_RequesterLimit := requesterLimit; st_Intents := Some ∅ |}.

Definition ValidateQueueLedgerForGenesis (cm : ConfigMap) (globalLimit requesterLimit : Z) : option error :=
  if badData cm then Some (Plain "queue admission ledger has invalid data keys or size")
  else match decodeState (mget (cm_data cm) dataKey) with
  | Err e => Some e
  | Ok current =>
      if negb (st_GlobalLimit current =? globalLimit)%Z || negb (st_RequesterLimit current =? requesterLimit)%Z
      then Some (Plain "queue admission ledger limits differ from receipt")
      else if negb (st_Version current =? 2)%Z then Some (Plain "queue admission Genesis requires version 2")
      else validateState current
  end.
End ledger.
#[global] Arguments HashRequester : simpl never.
#[global] Arguments DigestBuild : simpl never.
