(* ===== verification/QueueCodec.v ===== *)
(** * The queue ledger's invariant and codec

    [validateState] decides one order-independent invariant; every state that
    passes it fits the 768 KiB guard and survives a write and a read unchanged. *)
From S2P Require Import Prelude GoText Json JsonFacts AdmissionJson Sha256 Types JsonSize Kube Contract Genesis QueueReceipt QueueLedger.

(** ** The invariant that [validateState] decides *)

(** Entries charged to one requester. *)
Fixpoint requesterEntries (r : string) (l : list (string * Intent)) : Z :=
  match l with
  | [] => 0
  | (_, e) :: t => ((if seqb (it_RequesterHash e) r then 1 else 0) + requesterEntries r t)%Z
  end.

Lemma requesterEntries_nonneg r l : (0 <= requesterEntries r l)%Z.
Proof. induction l as [|[k e] l IH]; simpl; [lia|]. destruct (seqb _ _); lia. Qed.

#[export] Instance requesterEntries_perm r : Proper ((≡ₚ) ==> eq) (requesterEntries r).
Proof.
  induction 1 as [|[k e] l l' _ IH|[k e] [k' e'] l|l1 l2 l3 _ IH1 _ IH2]; simpl; try lia.
Qed.

Section codec.
Context `{External}.

Definition goodEntry (version : Z) (kv : string * Intent) : Prop :=
  invalidIntent (fst kv) (snd kv) = false /\ invalidLink version (snd kv) = false.

(** The capacity and shape invariant of a queue ledger. *)
Record ledgerOK (s : state) : Prop := {
  ok_version : st_Version s = 1%Z \/ st_Version s = 2%Z;
  ok_map : exists m, st_Intents s = Some m;
  ok_global : (1 <= st_GlobalLimit s <= 1000)%Z;
  ok_requester : (1 <= st_RequesterLimit s <= st_GlobalLimit s)%Z;
  ok_size : (Z.of_nat (size (intents s)) <= st_GlobalLimit s)%Z;
  ok_entries : forall id e, intents s !! id = Some e -> goodEntry (st_Version s) (id, e);
  ok_share : forall r, (requesterEntries r (map_to_list (intents s)) <= st_RequesterLimit s)%Z }.

Lemma validateEntries_spec version lim l counts :
  validateEntries version lim l counts = None <->
  Forall (goodEntry version) l /\
  forall r, (0 < requesterEntries r l)%Z -> (default 0 (counts !! r) + requesterEntries r l <= lim)%Z.
Proof.
  revert counts. induction l as [|[k e] l IH]; intros counts; simpl.
  { split; [|done]. intros _. split; [constructor|]. intros; lia. }
  set (n := (default 0 (counts !! it_RequesterHash e) + 1)%Z).
  unfold seqb. split.
  - destruct (invalidIntent k e) eqn:E1; [done|]. destruct (invalidLink version e) eqn:E2; [done|].
    destruct (Z.ltb_spec lim n) as [|Hn]; [done|]. intros [Hl Hc]%IH.
    split; [constructor; [by split|done]|]. intros r Hr. case_bool_decide as Er.
    + subst r. specialize (Hc (it_RequesterHash e)). rewrite lookup_insert_eq in Hc. simpl in Hc.
      pose proof (requesterEntries_nonneg (it_RequesterHash e) l). unfold n in *.
      destruct (Z.eq_dec (requesterEntries (it_RequesterHash e) l) 0); [lia|].
      specialize (Hc ltac:(lia)). lia.
    + specialize (Hc r). rewrite lookup_insert_ne in Hc by done. simpl in Hr |- *. apply Hc. lia.
  - intros [[Hg Hl]%Forall_cons Hc]. destruct Hg as [G1 G2]. simpl in G1, G2. rewrite G1, G2.
    pose proof (requesterEntries_nonneg (it_RequesterHash e) l) as Hn0.
    pose proof (Hc (it_RequesterHash e)) as He. rewrite bool_decide_eq_true_2 in He by done.
    specialize (He ltac:(lia)). destruct (Z.ltb_spec lim n) as [Hlt|_]; [unfold n in Hlt; lia|].
    apply IH. split; [done|]. intros r Hr. destruct (decide (r = it_RequesterHash e)) as [->|Hne].
    + rewrite lookup_insert_eq. simpl. unfold n. lia.
    + rewrite lookup_insert_ne by done. specialize (Hc r).
      rewrite bool_decide_eq_false_2 in Hc by done. specialize (Hc ltac:(lia)). lia.
Qed.

Lemma goodEntries_lookup version (m : gmap string Intent) :
  Forall (goodEntry version) (map_to_list m) <-> forall id e, m !! id = Some e -> goodEntry version (id, e).
Proof.
  rewrite Forall_forall. split.
  - intros Hm id e He. apply Hm. by apply elem_of_map_to_list.
  - intros Hm [id e] He. apply Hm. by apply elem_of_map_to_list.
Qed.

Lemma validateLimits_spec g r :
  validateLimits g r = None <-> (1 <= g <= 1000)%Z /\ (1 <= r <= g)%Z.
Proof.
  unfold validateLimits, maxLedgerBytes, maxHeaderBytes, maxIntentBytes. split.
  - destruct (_ || _) eqn:E; [done|]. intros _. bool_simpl. lia.
  - intros Hg. destruct (_ || _) eqn:E; [|done]. exfalso.
    repeat (apply orb_true_iff in E as [E|E]); bool_simpl; lia.
Qed.

Lemma validateState_ok s : validateState s = None <-> ledgerOK s.
Proof.
  unfold validateState. split.
  - destruct (_ || _) eqn:E; [done|]. bool_simpl. intros [He Hs]%validateEntries_spec.
    destruct (validateLimits _ _) eqn:El; [done|]. apply validateLimits_spec in El.
    rewrite goodEntries_lookup in He. constructor; try done; try lia.
    + destruct (st_Intents s); [by eexists|done].
    + intros r. destruct (Z.eq_dec (requesterEntries r (map_to_list (intents s))) 0); [lia|].
      pose proof (requesterEntries_nonneg r (map_to_list (intents s))).
      specialize (Hs r ltac:(lia)). rewrite lookup_empty in Hs. simpl in Hs. lia.
  - intros [Hv [m Hm] Hg Hr Hsz He Hs].
    assert (Hl : validateLimits (st_GlobalLimit s) (st_RequesterLimit s) = None) by (apply validateLimits_spec; lia).
    rewrite Hl, Hm. rewrite bool_decide_eq_false_2 by done.
    destruct (Z.ltb_spec (st_GlobalLimit s) (Z.of_nat (size (intents s)))); [lia|].
    assert (negb (st_Version s =? 1)%Z && negb (st_Version s =? 2)%Z = false) as ->.
    { by destruct Hv as [-> | ->]. }
    simpl. apply validateEntries_spec. split; [by apply goodEntries_lookup|].
    intros r _. rewrite lookup_empty. simpl. apply Hs.
Qed.

(** [range] visits a Go map in an unspecified order; the verdict on each order
    is that of [validateState]. *)
Lemma validateEntries_order version lim l l' :
  l ≡ₚ l' -> validateEntries version lim l ∅ = None -> validateEntries version lim l' ∅ = None.
Proof.
  rewrite !validateEntries_spec. intros Hp [Hg Hc]. split; [by rewrite <- Hp|].
  intros r. rewrite <- Hp. apply Hc.
Qed.

(** ** Sizes *)

Lemma uid_plain s : validReceiptUID s = true -> str_forallb plain_byte s = true /\ (slen s <= 64)%Z.
Proof.
  unfold validReceiptUID. intros Hs. bool_simpl. split; [|done].
  eapply plain_of; [|eassumption].
  intros c. destruct c as [[] [] [] [] [] [] [] []]; intros E; vm_compute in E; try discriminate E; done.
Qed.

Lemma dns_plain s : IsDNS1123Subdomain s = true -> str_forallb plain_byte s = true.
Proof.
  intros Hs%dns1123_alphabet. revert Hs. apply plain_of.
  intros c. destruct c as [[] [] [] [] [] [] [] []]; intros E; vm_compute in E; try discriminate E; done.
Qed.

Lemma digest_plain s : validDigest s = true -> str_forallb plain_byte s = true /\ slen s = 71%Z.
Proof.
  unfold validDigest, validLowerHex. intros Hs. bool_simpl.
  destruct (HasPrefix_inv _ _ H0) as [t ->]. destruct (TrimPrefix_append "sha256:" t) as [_ E].
  rewrite E in *. split.
  - change ("sha256:" +:+ t) with
      (String "s" (String "h" (String "a" (String "2" (String "5" (String "6" (String ":" t))))))).
    simpl. by rewrite lower_hex_plain.
  - rewrite slen_append. change (slen "sha256:") with 7%Z. lia.
Qed.

Lemma kind_plain s : cleanupKindOK s = true -> str_forallb plain_byte s = true /\ (slen s <= 8)%Z.
Proof.
  unfold cleanupKindOK. intros [E|E]%orb_true_iff; bool_simpl; subst s; done.
Qed.

(** What a valid entry's strings look like. *)
Record plainEntry (kv : string * Intent) : Prop := {
  pe_id : str_forallb plain_byte (fst kv) = true /\ (slen (fst kv) <= 253)%Z;
  pe_hash : str_forallb plain_byte (it_RequesterHash (snd kv)) = true /\ slen (it_RequesterHash (snd kv)) = 64%Z;
  pe_digest : str_forallb plain_byte (it_RequestDigest (snd kv)) = true /\ slen (it_RequestDigest (snd kv)) = 64%Z;
  pe_nonce : str_forallb plain_byte (it_Nonce (snd kv)) = true /\ slen (it_Nonce (snd kv)) = 32%Z;
  pe_created : (1 <= it_CreatedAtUnix (snd kv))%Z;
  pe_uid : str_forallb plain_byte (it_ReceiptUID (snd kv)) = true /\ (slen (it_ReceiptUID (snd kv)) <= 64)%Z;
  pe_rdigest : str_forallb plain_byte (it_ReceiptDigest (snd kv)) = true /\ (slen (it_ReceiptDigest (snd kv)) <= 71)%Z;
  pe_kind : str_forallb plain_byte (it_CleanupKind (snd kv)) = true /\ (slen (it_CleanupKind (snd kv)) <= 8)%Z }.

Lemma goodEntry_plain version kv : goodEntry version kv -> plainEntry kv.
Proof.
  intros [Hi Hl]. destruct kv as [id e]. unfold invalidIntent, invalidLink, validLowerHex in Hi, Hl.
  simpl in Hi, Hl. bool_simpl.
  repeat match goal with E : negb (?a && ?b) = false |- _ => apply negb_false_iff in E end.
  bool_simpl. constructor; simpl; try lia; eauto using lower_hex_plain, dns_plain.
  - destruct (sempty (it_ReceiptUID e)) eqn:E; [bool_simpl; by rewrite E|].
    simpl in *. bool_simpl. by apply uid_plain.
  - destruct (sempty (it_ReceiptUID e)) eqn:E.
    + assert (sempty (it_ReceiptDigest e) = true) as E'.
      { destruct (sempty (it_ReceiptDigest e)); [done|]. done. }
      bool_simpl. by rewrite E'.
    + simpl in *. bool_simpl. edestruct digest_plain as [? Hd]; [eassumption|]. rewrite Hd. done.
  - destruct (sempty (it_CleanupKind e)) eqn:E; [bool_simpl; by rewrite E|].
    simpl in *. bool_simpl. by apply kind_plain.
Qed.

(** [CreatedAtUnix] is an [int64]. *)
Definition int64State (s : state) : Prop :=
  forall id e, intents s !! id = Some e -> (it_CreatedAtUnix e < 2 ^ 63)%Z.

Lemma intent_len kv :
  plainEntry kv -> (it_CreatedAtUnix (snd kv) < 2 ^ 63)%Z ->
  (1 + Z.of_nat (String.length (print_member (fst kv, json_of_intent (snd kv)))) <= 736)%Z.
Proof.
  intros [[P1 L1] [P2 L2] [P3 L3] [P4 L4] C [P5 L5] [P6 L6] [P7 L7]] Hb.
  unfold print_member. simpl fst. simpl snd. rewrite length_append, json_quote_plain by done.
  change (String.length (String ":" ?x)) with (S (String.length x)).
  unfold json_of_intent. pose proof (print_obj_len (js "requesterHash" (it_RequesterHash (snd kv)) ++
    js "requestDigest" (it_RequestDigest (snd kv)) ++
        js "nonce" (it_Nonce (snd kv)) ++ jn "createdAtUnix" (it_CreatedAtUnix (snd kv)) ++
        js_omit "receiptUID" (it_ReceiptUID (snd kv)) ++ js_omit "receiptDigest" (it_ReceiptDigest (snd kv)) ++
        js_omit "cleanupKind" (it_CleanupKind (snd kv)))) as Hp.
  rewrite !obj_len_app in Hp.
  rewrite !obj_len_js in Hp by done.
  pose proof (obj_len_jn "createdAtUnix" (it_CreatedAtUnix (snd kv)) 19 eq_refl ltac:(lia) ltac:(lia)) as Hn.
  specialize (Hn ltac:(change (10 ^ Z.of_nat 19)%Z with 10000000000000000000%Z; lia)).
  pose proof (obj_len_js_omit "receiptUID" (it_ReceiptUID (snd kv)) eq_refl P5).
  pose proof (obj_len_js_omit "receiptDigest" (it_ReceiptDigest (snd kv)) eq_refl P6).
  pose proof (obj_len_js_omit "cleanupKind" (it_CleanupKind (snd kv)) eq_refl P7).
  change (slen "requesterHash") with 13%Z in *. change (slen "requestDigest") with 13%Z in *.
  change (slen "nonce") with 5%Z in *. change (slen "createdAtUnix") with 13%Z in *.
  change (slen "receiptUID") with 10%Z in *. change (slen "receiptDigest") with 13%Z in *.
  change (slen "cleanupKind") with 11%Z in *. unfold slen in *. lia.
Qed.

Lemma entries_len l :
  Forall plainEntry l -> Forall (fun kv => (it_CreatedAtUnix (snd kv) < 2 ^ 63)%Z) l ->
  (obj_len (List.map (fun kv => (fst kv, json_of_intent (snd kv))) l) <= 736 * Z.of_nat (List.length l))%Z.
Proof.
  intros Hp Hb. induction Hp as [|kv l Hk Hl IH]; [simpl; lia|].
  apply Forall_cons in Hb as [Hb Hbl]. specialize (IH Hbl). pose proof (intent_len kv Hk Hb).
  change (obj_len (List.map ?f (kv :: l))) with
    (1 + Z.of_nat (String.length (print_member (f kv))) + obj_len (List.map f l))%Z.
  simpl List.length. lia.
Qed.

Lemma state_entries_plain s m :
  ledgerOK s -> st_Intents s = Some m -> Forall plainEntry (sorted_entries m).
Proof.
  intros Hs Hm. apply Forall_forall. intros [id e] He%elem_of_sorted_entries.
  apply (goodEntry_plain (st_Version s)). apply (ok_entries s Hs). unfold intents. by rewrite Hm.
Qed.

Lemma state_len s :
  ledgerOK s -> int64State s ->
  (slen (json_print (json_of_state s)) <= maxHeaderBytes + st_GlobalLimit s * maxIntentBytes)%Z.
Proof.
  intros Hs Hb. destruct (ok_map s Hs) as [m Hm]. pose proof (state_entries_plain s m Hs Hm) as Hp.
  unfold json_of_state, slen, maxHeaderBytes, maxIntentBytes. rewrite Hm.
  set (ms := List.map _ (sorted_entries m)).
  assert (Hms : (obj_len ms <= 736 * Z.of_nat (List.length (sorted_entries m)))%Z).
  { apply entries_len; [done|]. apply Forall_forall. intros [id e] He%elem_of_sorted_entries.
    apply (Hb id). unfold intents. by rewrite Hm. }
  assert (Hlen : List.length (sorted_entries m) = size (intents s)).
  { rewrite sorted_entries_perm. unfold intents. rewrite Hm. simpl. apply length_map_to_list. }
  rewrite Hlen in Hms.
  etransitivity; [apply print_obj_len|]. rewrite !obj_len_app, obj_len_one.
  pose proof (print_obj_len ms). pose proof (ok_global s Hs). pose proof (ok_requester s Hs).
  pose proof (ok_size s Hs).
  pose proof (obj_len_jn "version" (st_Version s) 1 eq_refl) as Hv.
  pose proof (obj_len_jn "globalLimit" (st_GlobalLimit s) 4 eq_refl) as Hg.
  pose proof (obj_len_jn "requesterLimit" (st_RequesterLimit s) 4 eq_refl) as Hr.
  change (10 ^ Z.of_nat 1)%Z with 10%Z in Hv. change (10 ^ Z.of_nat 4)%Z with 10000%Z in Hg, Hr.
  change (slen "version") with 7%Z in Hv. change (slen "globalLimit") with 11%Z in Hg.
  change (slen "requesterLimit") with 14%Z in Hr.
  change (String.length (json_quote "intents")) with 9.
  destruct (ok_version s Hs) as [E|E]; rewrite E in *; lia.
Qed.

Lemma encodeState_fits s :
  ledgerOK s -> int64State s -> encodeState s = Ok (json_print (json_of_state s)).
Proof.
  intros Hs Hb. unfold encodeState. rewrite (proj2 (validateState_ok s) Hs).
  pose proof (state_len s Hs Hb) as Hl. pose proof (ok_global s Hs) as Hg.
  destruct (Z.ltb_spec maxLedgerBytes (slen (json_print (json_of_state s)))); [|done].
  unfold maxLedgerBytes, maxHeaderBytes, maxIntentBytes in *. lia.
Qed.

(** ** Reading back *)

Lemma json_of_intent_wf kv : plainEntry kv -> jwf (json_of_intent (snd kv)).
Proof.
  intros [[P1 _] [P2 _] [P3 _] [P4 _] _ [P5 _] [P6 _] [P7 _]]. change (members_wf
    (js "requesterHash" (it_RequesterHash (snd kv)) ++ js "requestDigest" (it_RequestDigest (snd kv)) ++
        js "nonce" (it_Nonce (snd kv)) ++ jn "createdAtUnix" (it_CreatedAtUnix (snd kv)) ++
        js_omit "receiptUID" (it_ReceiptUID (snd kv)) ++ js_omit "receiptDigest" (it_ReceiptDigest (snd kv)) ++
        js_omit "cleanupKind" (it_CleanupKind (snd kv)))).
  repeat apply members_wf_app; first [apply js_wf|apply js_omit_wf|apply jn_wf];
    solve [done|by apply plain_valid].
Qed.

Lemma json_of_state_wf s : ledgerOK s -> jwf (json_of_state s).
Proof.
  intros Hs. destruct (ok_map s Hs) as [m Hm]. pose proof (state_entries_plain s m Hs Hm) as Hp.
  unfold json_of_state. rewrite Hm. match goal with |- jwf (JObj ?l) => change (members_wf l) end.
  repeat apply members_wf_app; try (by apply jn_wf). split; [done|]. split; [|done].
  match goal with |- jwf (JObj ?l) => change (members_wf l) end.
  induction Hp as [|[id e] l Hk Hl IH]; [done|]. simpl. split; [|split; [by apply (json_of_intent_wf (id, e))|done]].
  destruct Hk as [[? _]]. by apply plain_valid.
Qed.

Lemma intent_roundtrip e :
  (1 <= it_CreatedAtUnix e < 2 ^ 63)%Z -> intent_of_json (json_of_intent e) = Some e.
Proof.
  intros Hc. destruct e as [h d n c u rd k]. unfold json_of_intent, intent_of_json. simpl in *.
  assert (Hint : forall o, o = Some (JNum (dec_of_Z c)) -> jint64 o = Some c).
  { intros o ->. unfold jint64, jint. rewrite parse_dec_of_Z.
    destruct (Z.leb_spec (- 2 ^ 63) c), (Z.leb_spec c (2 ^ 63 - 1)); try lia. done. }
  unfold js_omit, sempty. repeat case_bool_decide; subst; simpl; rewrite Hint by done; done.
Qed.

Lemma entries_roundtrip l :
  Forall (fun kv => (1 <= it_CreatedAtUnix (snd kv) < 2 ^ 63)%Z) l ->
  entries_of_json (List.map (fun kv => (fst kv, json_of_intent (snd kv))) l) = Some l.
Proof.
  induction 1 as [|[k e] l Hk Hl IH]; [done|].
  cbn [List.map entries_of_json fst snd]. rewrite intent_roundtrip by done. by rewrite IH.
Qed.

Lemma state_roundtrip s :
  ledgerOK s -> int64State s -> state_of_json (json_of_state s) = Some s.
Proof.
  intros Hs Hb. destruct (ok_map s Hs) as [m Hm]. pose proof (state_entries_plain s m Hs Hm) as Hp.
  assert (He : Forall (fun kv => (1 <= it_CreatedAtUnix (snd kv) < 2 ^ 63)%Z) (sorted_entries m)).
  { rewrite Forall_forall in Hp |- *. intros [id e] Hie. split; [apply (Hp _ Hie)|].
    apply elem_of_sorted_entries in Hie. apply (Hb id). unfold intents. by rewrite Hm. }
  pose proof (ok_global s Hs). pose proof (ok_requester s Hs). pose proof (ok_version s Hs).
  destruct s as [v g r o]. simpl in *. subst o.
  unfold json_of_state, state_of_json. simpl.
  rewrite !jint64_dec by lia. by rewrite entries_roundtrip, sorted_entries_map.
Qed.

(** Fields, depths and duplicates of a printed ledger satisfy the strict schema. *)
Lemma check_intent id e : checkValue (json_of_intent e) ["intents"; id] allowedQueueField 2 = None.
Proof.
  unfold json_of_intent, js_omit. destruct (sempty (it_ReceiptUID e)), (sempty (it_ReceiptDigest e)),
    (sempty (it_CleanupKind e)); reflexivity.
Qed.

Lemma check_entries l seen :
  NoDup l.*1 -> (forall k, k ∈ seen -> k ∉ l.*1) ->
  checkMembers ["intents"] allowedQueueField 1 seen (List.map (fun kv => (fst kv, json_of_intent (snd kv))) l) = None.
Proof.
  revert seen. induction l as [|[k e] l IH]; intros seen Hd Hs; [done|]. cbn [List.map fst snd].
  rewrite checkMembers_cons; [|done|intros Hk; apply (Hs _ Hk); simpl; set_solver|apply check_intent].
  apply NoDup_cons in Hd as [Hk Hd]. apply IH; [done|]. intros k' Hk'.
  apply elem_of_cons in Hk' as [->|Hk']; [done|]. specialize (Hs _ Hk'). simpl in Hs. set_solver.
Qed.

Lemma check_state s m : st_Intents s = Some m -> checkValue (json_of_state s) [] allowedQueueField 0 = None.
Proof.
  intros Hm. unfold json_of_state. rewrite Hm, checkValue_obj. cbn [Z.ltb].
  pose proof (check_entries (sorted_entries m) [] (sorted_entries_nodup m)) as Hc.
  specialize (Hc ltac:(by intros k ?%elem_of_nil)).
  unfold jn. cbn [app]. rewrite !checkMembers_cons; try (done || set_solver).
Qed.

Lemma decodeState_print s :
  int64State s -> ledgerOK s -> decodeState (json_print (json_of_state s)) = Ok s.
Proof.
  intros Hb Hs. destruct (ok_map s Hs) as [m Hm]. unfold decodeState.
  apply Decode_print.
  - by apply json_of_state_wf.
  - by eapply check_state.
  - by rewrite state_roundtrip.
Qed.
End codec.
