(* ===== verification/QueueOps.v ===== *)
(** * The HTTP queue's compare-and-swap ledger: operations

    Every operation of [Store] in
    [src/internal/service/queueadmission/ledger.go].  A [*Guard] field is an
    option; an operation's [ctx] is a flag saying whether an ordinary context
    was passed (the [Observed] variants pass nil).  Pointers to builds, the
    direct reader and the guard's API client are never nil here: those fields
    are total. *)
From S2P Require Import Prelude GoText Json JsonFacts AdmissionJson Sha256 Types Kube Contract Genesis QueueReceipt QueueLedger.

Record Store := mkStore {
  s_hasReader : bool;                 (* Reader != nil *)
  s_hasClient : bool;                 (* Client != nil *)
  s_Genesis : option Guard;
  s_Namespace : string;
  s_GlobalLimit : Z;
  s_RequesterLimit : Z }.

(** [readErr == nil && found] and [readErr == nil && !found]. *)
Definition observed (l : result (option Intent)) : option Intent := match l with Ok o => o | Err _ => None end.
Definition absent (l : result (option Intent)) : bool := match l with Ok None => true | _ => false end.

Definition missing_observation := Plain "read-only queue observation is missing".

(** An [Intent] with its receipt link or its cleanup disposition replaced. *)
Definition with_link (e : Intent) (uid digest : string) : Intent :=
  mkIntent (it_RequesterHash e) (it_RequestDigest e) (it_Nonce e) (it_CreatedAtUnix e) uid digest (it_CleanupKind e).
Definition with_cleanup (e : Intent) (kind : string) : Intent :=
  mkIntent (it_RequesterHash e) (it_RequestDigest e) (it_Nonce e) (it_CreatedAtUnix e)
    (it_ReceiptUID e) (it_ReceiptDigest e) kind.

(** [current.Intents[id] = e] and [delete(current.Intents, id)]. *)
Definition put (current : state) (id : string) (e : Intent) : state :=
  with_intents current (<[id := e]> (intents current)).
Definition remove (current : state) (id : string) : state :=
  with_intents current (delete id (intents current)).

(** The counting loop of [Reserve]. *)
Definition requesterCount (m : gmap string Intent) (requester : string) : Z :=
  Z.of_nat (List.length (List.filter (fun kv => seqb (it_RequesterHash (snd kv)) requester) (map_to_list m))).

Definition terminalOrDeleting (build : KovaBuild) : bool :=
  kb_deleting build || isTerminalPhase (kb_phase build).

Definition annotation (b : KovaBuild) (k : string) : string := mget (kb_annotations b) k.
Definition set_annotation (b : KovaBuild) (k v : string) : KovaBuild :=
  {| kb_ns := kb_ns b; kb_name := kb_name b; kb_uid := kb_uid b; kb_rv := kb_rv b; kb_labels := kb_labels b;
     kb_annotations := <[k := v]> (kb_annotations b); kb_finalizers := kb_finalizers b; kb_owners := kb_owners b;
     kb_created := kb_created b; kb_deleting := kb_deleting b; kb_spec := kb_spec b; kb_phase := kb_phase b;
     kb_allocated := kb_allocated b; kb_runnerPod := kb_runnerPod b |}.

Section store.
Context `{External}.
Context (s : Store).

Definition key : okey := (s_Namespace s, ConfigMapName).

Definition freshState : state :=
  {| st_Version := 1; st_GlobalLimit := s_GlobalLimit s; st_RequesterLimit := s_RequesterLimit s; st_Intents := Some ∅ |}.

(** The checks of a read ledger object, after its Get succeeded. *)
Definition qualifyRead (cm : ConfigMap) : result (ConfigMap * state) :=
  if badData cm then Err (Plain "queue ledger has invalid data keys or size")
  else match decodeState (mget (cm_data cm) dataKey) with
  | Err e => Err (Wrap "queue ledger is invalid" e)
  | Ok current =>
      if negb (st_GlobalLimit current =? s_GlobalLimit s)%Z || negb (st_RequesterLimit current =? s_RequesterLimit s)%Z
      then Err (Plain "queue ledger has invalid state or mismatched replica limits")
      else if (bool_decide (is_Some (s_Genesis s)) && negb (st_Version current =? 2)%Z) ||
              (bool_decide (s_Genesis s = None) && negb (st_Version current =? 1)%Z)
      then Err (Plain "queue ledger has the wrong receipt protocol version")
      else match validateState current with
      | Some e => Err (Wrap "queue ledger has unsupported state" e)
      | None => Ok (cm, current)
      end
  end.

(** The [read] closure: a direct Get and the original-UID check. *)
Definition readObject : prog (result ConfigMap) :=
  get* cm := call (GetConfigMap (s_Namespace s) ConfigMapName) else (fun e => Ret (Err e)) in
  match s_Genesis s with
  | Some g => match CheckLedger g cm Queue with Some e => Ret (Err e) | None => Ret (Ok cm) end
  | None => Ret (Ok cm)
  end.

Definition readWithObservation (ctx : bool) (observation : option Observation) : prog (result (ConfigMap * state)) :=
  let* pre :=
    match s_Genesis s with
    | Some g =>
        if negb (s_hasReader s) then Ret (Some (Plain "Genesis queue admission requires a direct API reader"))
        else match observation with
        | None => Guard_Check g
        | Some o => Ret (AssertNoOrdinaryContext o g ctx)
        end
    | None =>
        match observation with
        | Some _ => Ret (Some (Plain "read-only observation requires a Genesis guard"))
        | None => Ret None
        end
    end in
  match pre with
  | Some e => Ret (Err e)
  | None =>
      get* cm := match observation, s_Genesis s with
                 | Some o, Some g => Observation_Read o g readObject
                 | _, _ => readObject
                 end else (fun e => Ret (Err e)) in
      Ret (qualifyRead cm)
  end.

Definition read : prog (result (ConfigMap * state)) := readWithObservation true None.

Definition error_of {A} (r : result A) : option error := match r with Ok _ => None | Err e => Some e end.

Definition CheckReady : prog (option error) := let* r := read in Ret (error_of r).

Definition CheckReadyObserved (observation : option Observation) : prog (option error) :=
  match observation with
  | None => Ret (Some missing_observation)
  | Some o => let* r := readWithObservation false (Some o) in Ret (error_of r)
  end.

Definition PreflightInitialization : prog (option error) :=
  match s_Genesis s with
  | Some _ => CheckReady
  | None =>
      match validateLimits (s_GlobalLimit s) (s_RequesterLimit s) with
      | Some _ => Ret (Some (Plain "queue ledger has invalid replica limits"))
      | None =>
          let* r := read in
          match r with
          | Ok _ => Ret None
          | Err e =>
              if negb (IsNotFound e) then Ret (Some e)
              else
                get* builds := call (ListBuilds (s_Namespace s) (Some 1%Z)) else (fun e => Ret (Some e)) in
                match builds with
                | [] => Ret None
                | _ :: _ =>
                    let* r := read in
                    match r with
                    | Ok _ => Ret None
                    | Err e =>
                        if negb (IsNotFound e) then Ret (Some e)
                        else Ret (Some (Plain "queue ledger is absent while KovaBuilds exist; drain and migrate before admission"))
                    end
                end
          end
      end
  end.

Definition freshLedger (data : string) : ConfigMap :=
  {| cm_ns := s_Namespace s; cm_name := ConfigMapName; cm_uid := ""; cm_rv := ""; cm_labels := ∅;
     cm_annotations := ∅; cm_owners := []; cm_deleting := false; cm_immutable := None;
     cm_data := {[dataKey := data]}; cm_binary := ∅ |}.

Definition initialize : prog (option error) :=
  chk* PreflightInitialization else (fun e => Ret (Some e)) in
  match encodeState freshState with
  | Err e => Ret (Some e)
  | Ok data => let* r := call (CreateConfigMap (freshLedger data)) in Ret (snd r)
  end.

Definition write (cm : ConfigMap) (next : state) : prog (option error) :=
  if negb (bool_decide (size (cm_data cm) = 1)) || (slen (mget (cm_data cm) dataKey) =? 0)%Z ||
     negb (bool_decide (size (cm_binary cm) = 0))
  then Ret (Some (Plain "queue ledger has unsupported data keys"))
  else match encodeState next with
  | Err e => Ret (Some e)
  | Ok data =>
      match s_Genesis s with
      | Some g => PatchLedgerData g cm Queue data
      | None => call (UpdateConfigMap (with_data cm {[dataKey := data]}))
      end
  end.

Definition EnsureInitialized : prog (option error) :=
  match s_Genesis s with
  | Some _ => CheckReady
  | None =>
      retry_loop maxCASAttempts 0 (fun retry =>
        chk* call CtxDone else (fun e => Ret (Some (Some e))) in
        let* r := read in
        match r with
        | Ok _ => Ret (Some None)
        | Err e =>
            if negb (IsNotFound e) then Ret (Some (Some e))
            else
              let* i := initialize in
              match i with
              | None => Ret (Some None)
              | Some err =>
                  if IsAlreadyExists err || IsTooManyRequests err then wait_continue retry (fun e => Some e)
                  else
                    let* again := read in
                    match again with
                    | Ok _ => Ret (Some None)
                    | Err _ => Ret (Some (Some err))
                    end
              end
        end) (Some ErrBusy)
  end.

Definition lookupWithObservation (ctx : bool) (id : string) (observation : option Observation) : prog (result (option Intent)) :=
  get* (_, current) := readWithObservation ctx observation else (fun e => Ret (Err e)) in
  Ret (Ok (intents current !! id)).

Definition Lookup (id : string) : prog (result (option Intent)) := lookupWithObservation true id None.

Definition LookupObserved (id : string) (observation : option Observation) : prog (result (option Intent)) :=
  match observation with
  | None => Ret (Err missing_observation)
  | Some o => lookupWithObservation false id (Some o)
  end.

(** The end of every compare-and-swap iteration: a conflict waits and
    continues, success runs [done], any other error runs [failed]. *)
Definition casWrite {A} (retry : nat) (cm : ConfigMap) (next : state) (fail : error -> A)
    (finish : prog (option A)) (failed : error -> prog (option A)) : prog (option A) :=
  let* w := write cm next in
  match w with
  | None => finish
  | Some err => if IsConflict err then wait_continue retry fail else failed err
  end.

Definition proposedIntent (build : KovaBuild) (nonce : string) (now : Z) : Intent :=
  mkIntent (HashRequester (rq_username (sp_requester (kb_spec build)))) (DigestBuild build) nonce now "" "" "".

Definition reserveIteration (build : KovaBuild) (proposed : Intent) (retry : nat) : prog (option (result (Intent * bool))) :=
  let requester := it_RequesterHash proposed in
  chk* call CtxDone else (fun e => Ret (Some (Err e))) in
  get* (cm, current) := read else (fun e => Ret (Some (Err e))) in
  match intents current !! kb_name build with
  | Some existing =>
      if negb (seqb (it_RequesterHash existing) requester) || negb (seqb (it_RequestDigest existing) (it_RequestDigest proposed))
      then Ret (Some (Err ErrConflict))
      else Ret (Some (Ok (existing, false)))
  | None =>
      if (s_GlobalLimit s <=? Z.of_nat (size (intents current)))%Z then Ret (Some (Err ErrFull))
      else if (s_RequesterLimit s <=? requesterCount (intents current) requester)%Z then Ret (Some (Err ErrFull))
      else
        casWrite retry cm (put current (kb_name build) proposed) Err
          (Ret (Some (Ok (proposed, true))))
          (fun err =>
             let* l := Lookup (kb_name build) in
             if bool_decide (observed l = Some proposed) then Ret (Some (Ok (proposed, true)))
             else if IsTooManyRequests err then Ret (Some (Err ErrBusy))
             else Ret (Some (Err err)))
  end.

Definition Reserve (build : KovaBuild) : prog (result (Intent * bool)) :=
  get* nonce := random_nonce else (fun e => Ret (Err e)) in
  let* now := call Now in
  retry_loop maxCASAttempts 0 (reserveIteration build (proposedIntent build nonce now)) (Err ErrBusy).

(** ** Receipts *)

Definition ReceiptIntent (build : KovaBuild) (entry : Intent) : result QueueIntent :=
  match s_Genesis s with
  | None => Err ErrDrift
  | Some g =>
      let receipt := bs_Receipt (gd_Bootstrap g) in
      let contract := rc_Contract receipt in
      let binding := gd_Original g in
      if negb (seqb (kb_ns build) (s_Namespace s)) || sempty (kb_name build) || sempty (it_Nonce entry)
      then Err ErrDrift
      else if negb (seqb (rc_Namespace receipt) (s_Namespace s)) ||
              negb (seqb (ct_NamespaceUID contract) (bd_NamespaceUID binding)) ||
              seqb (ct_ReceiptNamespace contract) (s_Namespace s) || sempty (ct_ReceiptNamespace contract) ||
              sempty (ct_ReceiptNamespaceUID contract) ||
              negb (seqb (rc_GenesisUID receipt) (bd_GenesisUID binding)) ||
              sempty (bd_ActiveLedgerUID binding) || sempty (bd_QueueLedgerUID binding)
      then Err ErrDrift
      else if negb (seqb (it_RequesterHash entry) (HashRequester (rq_username (sp_requester (kb_spec build))))) ||
              negb (seqb (it_RequestDigest entry) (DigestBuild build))
      then Err ErrDrift
      else
        let intent :=
          {| qi_Namespace := s_Namespace s; qi_NamespaceUID := bd_NamespaceUID binding;
             qi_ReceiptNamespace := ct_ReceiptNamespace contract;
             qi_ReceiptNamespaceUID := ct_ReceiptNamespaceUID contract;
             qi_GenesisName := rc_GenesisName receipt; qi_GenesisUID := bd_GenesisUID binding;
             qi_Generation := ct_Generation contract;
             qi_ActiveLedgerUID := bd_ActiveLedgerUID binding; qi_QueueLedgerUID := bd_QueueLedgerUID binding;
             qi_BuildName := kb_name build; qi_RequesterName := rq_username (sp_requester (kb_spec build));
             qi_RequesterHash := it_RequesterHash entry;
             qi_RequesterUID := rq_uid (sp_requester (kb_spec build));
             qi_RequestDigest := it_RequestDigest entry; qi_SourceDigest := src_digest (sp_source (kb_spec build));
             qi_QueueNonce := it_Nonce entry |} in
        match NewQueueConfigMap intent with
        | Err e => Err e
        | Ok _ => Ok intent
        end
  end.

Definition receiptNamespace : string :=
  match s_Genesis s with
  | None => ""
  | Some g => ct_ReceiptNamespace (rc_Contract (bs_Receipt (gd_Bootstrap g)))
  end.

Definition checkReceiptNamespaceWithObservation (ctx : bool) (observation : option Observation) : prog (option error) :=
  match s_Genesis s with
  | None => Ret (Some ErrDrift)
  | Some g =>
      match match observation with Some o => AssertNoOrdinaryContext o g ctx | None => None end with
      | Some e => Ret (Some e)
      | None =>
          let getNamespace := call (GetNamespace receiptNamespace) in
          get* ns := match observation with None => getNamespace | Some o => Observation_Read o g getNamespace end
            else (fun e => Ret (Some e)) in
          match QualifyReceiptNamespace (bs_Receipt (gd_Bootstrap g)) ns with
          | Some _ => Ret (Some (Wrap "receipt namespace" ErrDrift))
          | None => Ret None
          end
      end
  end.

Definition CheckReceiptNamespace : prog (option error) := checkReceiptNamespaceWithObservation true None.

Definition CheckReceiptNamespaceObserved (observation : option Observation) : prog (option error) :=
  match observation with
  | None => Ret (Some missing_observation)
  | Some o => checkReceiptNamespaceWithObservation false (Some o)
  end.

(** The link conditions on an observed entry after a pin or a cleanup mark. *)
Definition sameLink (o e : Intent) (kind : string) : bool :=
  seqb (it_Nonce o) (it_Nonce e) && seqb (it_ReceiptUID o) (it_ReceiptUID e) &&
  seqb (it_ReceiptDigest o) (it_ReceiptDigest e) && seqb (it_CleanupKind o) kind.

Definition observedLink (l : result (option Intent)) (e : Intent) (kind : string) : bool :=
  match observed l with Some o => sameLink o e kind | None => false end.

Definition last_check : prog (option (option error)) := let* e := CheckReceiptNamespace in Ret (Some e).

Definition pinIteration (build : KovaBuild) (reserved : Intent) (witness : ObservedQueueIntent) (retry : nat) : prog (option (option error)) :=
  get* (cm, current) := read else (fun e => Ret (Some (Some e))) in
  match intents current !! kb_name build with
  | None => Ret (Some (Some ErrDrift))
  | Some entry =>
      if negb (seqb (it_Nonce entry) (it_Nonce reserved)) || negb (seqb (it_RequestDigest entry) (it_RequestDigest reserved)) ||
         negb (seqb (it_RequesterHash entry) (it_RequesterHash reserved)) || negb (sempty (it_CleanupKind entry))
      then Ret (Some (Some ErrDrift))
      else if negb (sempty (it_ReceiptUID entry)) then
        if seqb (it_ReceiptUID entry) (oq_ReceiptUID witness) && seqb (it_ReceiptDigest entry) (oq_DataDigest witness)
        then last_check
        else Ret (Some (Some ErrDrift))
      else
        let entry := with_link entry (oq_ReceiptUID witness) (oq_DataDigest witness) in
        casWrite retry cm (put current (kb_name build) entry) Some
          (let* l := Lookup (kb_name build) in
           match l with
           | Err e => Ret (Some (Some e))
           | Ok _ => if observedLink l entry "" then last_check else Ret (Some (Some ErrDrift))
           end)
          (fun err =>
             let* l := Lookup (kb_name build) in
             if observedLink l entry "" then last_check else Ret (Some (Some err)))
  end.

Definition PinReceipt (build : KovaBuild) (reserved : Intent) (witness : ObservedQueueIntent) : prog (option error) :=
  chk* CheckReceiptNamespace else (fun e => Ret (Some e)) in
  match ReceiptIntent build reserved with
  | Err e => Ret (Some e)
  | Ok expected =>
      if negb (bool_decide (oq_Intent witness = expected)) || negb (validReceiptUID (oq_ReceiptUID witness)) ||
         negb (validDigest (oq_DataDigest witness))
      then Ret (Some ErrDrift)
      else retry_loop maxCASAttempts 0 (pinIteration build reserved witness) (Some ErrBusy)
  end.

Definition assertObservation (ctx : bool) (observation : option Observation) : option error :=
  match observation, s_Genesis s with
  | None, _ => None
  | Some o, Some g => AssertNoOrdinaryContext o g ctx
  | Some _, None => if ctx then Some (Plain "read-only Genesis observation cannot ignore a separate context") else Some errObservation
  end.

Definition observePinnedReceiptWithObservation (ctx : bool) (build : KovaBuild) (entry : Intent)
    (observation : option Observation) : prog (option error) :=
  match assertObservation ctx observation with
  | Some e => Ret (Some e)
  | None =>
      chk* checkReceiptNamespaceWithObservation ctx observation else (fun e => Ret (Some e)) in
      if sempty (it_ReceiptUID entry) || sempty (it_ReceiptDigest entry) || negb (sempty (it_CleanupKind entry)) ||
         negb (seqb (annotation build ReceiptUIDAnnotation) (it_ReceiptUID entry)) ||
         negb (seqb (annotation build ReceiptDigestAnnotation) (it_ReceiptDigest entry))
      then Ret (Some ErrDrift)
      else match ReceiptIntent build entry with
      | Err e => Ret (Some e)
      | Ok intent =>
          match NewQueueConfigMap intent, s_Genesis s with
          | Err e, _ => Ret (Some e)
          | Ok _, None => Ret (Some ErrDrift)
          | Ok expected, Some g =>
              let getReceipt := call (GetConfigMap receiptNamespace (cm_name expected)) in
              get* cm := match observation with None => getReceipt | Some o => Observation_Read o g getReceipt end
                else (fun _ => Ret (Some (Wrap "pinned queue receipt is unavailable" ErrDrift))) in
              match QualifyQueue intent cm with
              | Err _ => Ret (Some ErrDrift)
              | Ok witness =>
                  if negb (seqb (oq_ReceiptUID witness) (it_ReceiptUID entry)) ||
                     negb (seqb (oq_DataDigest witness) (it_ReceiptDigest entry))
                  then Ret (Some ErrDrift)
                  else match observation with
                  | Some o => Ret (Assert o g)
                  | None => Guard_Check g
                  end
              end
          end
      end
  end.

Definition observePinnedReceipt (build : KovaBuild) (entry : Intent) : prog (option error) :=
  observePinnedReceiptWithObservation true build entry None.

Definition markIteration (id : string) (expected : Intent) (kind : string) (retry : nat) : prog (option (option error)) :=
  get* (cm, current) := read else (fun e => Ret (Some (Some e))) in
  match intents current !! id with
  | None => Ret (Some (Some ErrDrift))
  | Some entry =>
      if negb (seqb (it_Nonce entry) (it_Nonce expected)) || negb (seqb (it_RequestDigest entry) (it_RequestDigest expected)) ||
         negb (seqb (it_RequesterHash entry) (it_RequesterHash expected)) ||
         negb (seqb (it_ReceiptUID entry) (it_ReceiptUID expected)) ||
         negb (seqb (it_ReceiptDigest entry) (it_ReceiptDigest expected)) || sempty (it_ReceiptUID entry)
      then Ret (Some (Some ErrDrift))
      else if seqb (it_CleanupKind entry) kind then Ret (Some None)
      else if negb (sempty (it_CleanupKind entry)) then Ret (Some (Some ErrDrift))
      else
        let entry := with_cleanup entry kind in
        casWrite retry cm (put current id entry) Some
          (Ret (Some None))
          (fun err =>
             let* l := Lookup id in
             if observedLink l entry kind then Ret (Some None) else Ret (Some (Some err)))
  end.

Definition markReceiptCleanupReady (id : string) (expected : Intent) (kind : string) : prog (option error) :=
  if negb (cleanupKindOK kind) then Ret (Some ErrDrift)
  else retry_loop maxCASAttempts 0 (markIteration id expected kind) (Some ErrBusy).

Definition receiptName (nonce : string) : string := queueReceiptPrefix +:+ nonce.

Definition deletePinnedReceipt (entry : Intent) : prog (option error) :=
  match s_Genesis s with
  | None => Ret (Some ErrDrift)
  | Some g =>
      if negb (s_hasClient s) || sempty (it_CleanupKind entry) || negb (validReceiptUID (it_ReceiptUID entry))
      then Ret (Some ErrDrift)
      else
        chk* CheckReceiptNamespace else (fun e => Ret (Some e)) in
        let name := receiptName (it_Nonce entry) in
        let* r := call (GetConfigMap receiptNamespace name) in
        match r with
        | Err e => if IsNotFound e then Guard_Check g else Ret (Some e)
        | Ok current =>
            let badReceipt :=
              match DigestData (cm_data current) with
              | Err _ => true
              | Ok digest =>
                  negb (seqb (cm_name current) name) || negb (seqb (cm_ns current) receiptNamespace) ||
                  negb (seqb (cm_uid current) (it_ReceiptUID entry)) || negb (seqb digest (it_ReceiptDigest entry)) ||
                  negb (is_true_ptr (cm_immutable current)) || cm_deleting current ||
                  negb (bool_decide (cm_owners current = [])) || negb (bool_decide (size (cm_binary current) = 0))
              end in
            if badReceipt then Ret (Some ErrDrift)
            else
              chk* Guard_Check g else (fun e => Ret (Some e)) in
              let uid := cm_uid current in
              let* deleteErr := call (DeleteConfigMap (cm_ns current) (cm_name current) uid) in
              let* after := call (GetConfigMap receiptNamespace name) in
              match after with
              | Err readErr => if IsNotFound readErr then Guard_Check g else Ret (Some readErr)
              | Ok after =>
                  if negb (seqb (cm_uid after) uid) then Ret (Some ErrDrift)
                  else match deleteErr with
                  | Some e => Ret (Some e)
                  | None => Ret (Some (Plain "queue receipt remains after UID-preconditioned Delete"))
                  end
              end
        end
  end.

Definition settleIteration (g : Guard) (build : KovaBuild) (entry : Intent) (retry : nat) : prog (option (option error)) :=
  get* current := call (GetBuild (kb_ns build) (kb_name build)) else (fun e => Ret (Some (Some e))) in
  if sempty (kb_uid current) || negb (seqb (kb_uid current) (kb_uid build)) || negb (terminalOrDeleting current) ||
     negb (seqb (annotation current IntentAnnotation) (it_Nonce entry)) ||
     negb (seqb (annotation current ReceiptUIDAnnotation) (it_ReceiptUID entry)) ||
     negb (seqb (annotation current ReceiptDigestAnnotation) (it_ReceiptDigest entry))
  then Ret (Some (Some ErrDrift))
  else if seqb (annotation current ReceiptSettledAnnotation) (it_ReceiptUID entry) then Ret (Some None)
  else if negb (sempty (annotation current ReceiptSettledAnnotation)) then Ret (Some (Some ErrDrift))
  else
    chk* Guard_Check g else (fun e => Ret (Some (Some e))) in
    let* writeErr := call (UpdateBuild (set_annotation current ReceiptSettledAnnotation (it_ReceiptUID entry))) in
    let* reread := call (GetBuild (kb_ns build) (kb_name build)) in
    let settled := match reread with
                   | Ok o => seqb (kb_uid o) (kb_uid build) && seqb (annotation o ReceiptSettledAnnotation) (it_ReceiptUID entry)
                   | Err _ => false
                   end in
    if settled then let* e := Guard_Check g in Ret (Some e)
    else match writeErr with
    | Some err => if IsConflict err then wait_continue retry Some else Ret (Some (Some err))
    | None =>
        match reread with
        | Err readErr => Ret (Some (Some readErr))
        | Ok _ => Ret (Some (Some ErrDrift))
        end
    end.

(** Called with a Genesis guard only. *)
Definition markReceiptSettled (build : KovaBuild) (entry : Intent) : prog (option error) :=
  match s_Genesis s with
  | None => Ret (Some ErrDrift)
  | Some g => retry_loop maxCASAttempts 0 (settleIteration g build entry) (Some ErrBusy)
  end.

(** [Ok None] is [(Intent{}, false, nil)]. *)
Definition verifyForBuildWithObservation (ctx : bool) (build : KovaBuild) (observation : option Observation) : prog (result (option Intent)) :=
  match assertObservation ctx observation with
  | Some e => Ret (Err e)
  | None =>
      let nonce := annotation build IntentAnnotation in
      if sempty nonce then
        match s_Genesis s, observation with
        | Some _, Some o => chk* CheckReadyObserved (Some o) else (fun e => Ret (Err e)) in Ret (Ok None)
        | Some _, None => chk* CheckReady else (fun e => Ret (Err e)) in Ret (Ok None)
        | None, Some _ => Ret (Err (Plain "read-only queue observation requires Genesis"))
        | None, None => Ret (Ok None)
        end
      else
        let* l := lookupWithObservation ctx (kb_name build) observation in
        match l with
        | Err e => if IsNotFound e then Ret (Err (Wrap "queue ledger is absent for KovaBuild" ErrDrift)) else Ret (Err e)
        | Ok None => Ret (Err (Wrap "KovaBuild has no matching queue intent" ErrDrift))
        | Ok (Some entry) =>
            if negb (seqb (it_Nonce entry) nonce) ||
               negb (seqb (it_RequesterHash entry) (HashRequester (rq_username (sp_requester (kb_spec build)))))
            then Ret (Err (Wrap "KovaBuild has no matching queue intent" ErrDrift))
            else if negb (seqb (it_RequestDigest entry) (DigestBuild build))
            then Ret (Err (Wrap "KovaBuild request digest differs from queue intent" ErrDrift))
            else
              chk* match s_Genesis s with
                   | Some _ => observePinnedReceiptWithObservation ctx build entry observation
                   | None => Ret None
                   end else (fun e => Ret (Err e)) in
              Ret (Ok (Some entry))
        end
  end.

Definition VerifyForBuildSnapshot (build : KovaBuild) : prog (result (option Intent)) :=
  verifyForBuildWithObservation true build None.

Definition VerifyForBuild (build : KovaBuild) : prog (option error) :=
  let* r := VerifyForBuildSnapshot build in Ret (error_of r).

Definition VerifyForBuildObserved (build : KovaBuild) (observation : option Observation) : prog (result (option Intent)) :=
  match observation with
  | None => Ret (Err missing_observation)
  | Some o => verifyForBuildWithObservation false build (Some o)
  end.

(** ** Release *)

(** [delete(current.Intents, id)] and its write: shared by the three releases. *)
Definition casRemove (retry : nat) (cm : ConfigMap) (current : state) (id : string) : prog (option (option error)) :=
  casWrite retry cm (remove current id) Some
    (Ret (Some None))
    (fun err =>
       let* l := Lookup id in
       if absent l then Ret (Some None) else Ret (Some (Some err))).

Definition releaseIteration (build : KovaBuild) (retry : nat) : prog (option (option error)) :=
  get* (cm, current) := read else (fun e => Ret (Some (Some e))) in
  match intents current !! kb_name build with
  | None => Ret (Some None)
  | Some entry =>
      if negb (seqb (it_Nonce entry) (annotation build IntentAnnotation)) ||
         negb (seqb (it_RequesterHash entry) (HashRequester (rq_username (sp_requester (kb_spec build))))) ||
         negb (seqb (it_RequestDigest entry) (DigestBuild build))
      then Ret (Some (Some (Wrap "KovaBuild has a different queue intent" ErrDrift)))
      else casRemove retry cm current (kb_name build)
  end.

(** The branch of [releaseReceiptedBuild] whose intent is already gone. *)
Definition confirmSettled (g : Guard) (build : KovaBuild) : prog (option error) :=
  get* persisted := call (GetBuild (kb_ns build) (kb_name build)) else (fun e => Ret (Some e)) in
  if negb (seqb (kb_uid persisted) (kb_uid build)) || negb (terminalOrDeleting persisted) ||
     negb (seqb (annotation persisted IntentAnnotation) (annotation build IntentAnnotation)) ||
     sempty (annotation persisted ReceiptSettledAnnotation) ||
     negb (seqb (annotation persisted ReceiptSettledAnnotation) (annotation persisted ReceiptUIDAnnotation))
  then Ret (Some ErrDrift)
  else
    chk* CheckReceiptNamespace else (fun e => Ret (Some e)) in
    let* r := call (GetConfigMap receiptNamespace (receiptName (annotation build IntentAnnotation))) in
    match r with
    | Ok _ => Ret (Some ErrDrift)
    | Err e => if IsNotFound e then Guard_Check g else Ret (Some e)
    end.

Definition releaseReceiptedIteration (g : Guard) (build : KovaBuild) (retry : nat) : prog (option (option error)) :=
  get* (cm, current) := read else (fun e => Ret (Some (Some e))) in
  match intents current !! kb_name build with
  | None => let* e := confirmSettled g build in Ret (Some e)
  | Some entry =>
      if negb (seqb (it_Nonce entry) (annotation build IntentAnnotation)) ||
         negb (seqb (it_RequesterHash entry) (HashRequester (rq_username (sp_requester (kb_spec build))))) ||
         negb (seqb (it_RequestDigest entry) (DigestBuild build)) || sempty (it_ReceiptUID entry) ||
         negb (seqb (annotation build ReceiptUIDAnnotation) (it_ReceiptUID entry)) ||
         negb (seqb (annotation build ReceiptDigestAnnotation) (it_ReceiptDigest entry))
      then Ret (Some (Some ErrDrift))
      else if sempty (it_CleanupKind entry) then
        chk* observePinnedReceipt build entry else (fun e => Ret (Some (Some e))) in
        chk* markReceiptCleanupReady (kb_name build) entry cleanupTerminal else (fun e => Ret (Some (Some e))) in
        Ret None
      else if negb (seqb (it_CleanupKind entry) cleanupTerminal) then Ret (Some (Some ErrDrift))
      else
        chk* deletePinnedReceipt entry else (fun e => Ret (Some (Some e))) in
        chk* markReceiptSettled build entry else (fun e => Ret (Some (Some e))) in
        casRemove retry cm current (kb_name build)
  end.

Definition releaseReceiptedBuild (g : Guard) (build : KovaBuild) : prog (option error) :=
  if sempty (kb_uid build) || negb (terminalOrDeleting build) then Ret (Some ErrDrift)
  else if sempty (annotation build IntentAnnotation) then Ret None
  else retry_loop maxCASAttempts 0 (releaseReceiptedIteration g build) (Some ErrBusy).

Definition ReleaseForBuild (build : KovaBuild) : prog (option error) :=
  match s_Genesis s with
  | Some g => releaseReceiptedBuild g build
  | None =>
      if sempty (annotation build IntentAnnotation) then Ret None
      else retry_loop maxCASAttempts 0 (releaseIteration build) (Some ErrBusy)
  end.

Definition rejectIteration (id nonce : string) (retry : nat) : prog (option (option error)) :=
  get* (cm, current) := read else (fun e => Ret (Some (Some e))) in
  match intents current !! id with
  | None => Ret (Some None)
  | Some entry =>
      if negb (seqb (it_Nonce entry) nonce)
      then Ret (Some (Some (Wrap "queue intent changed before rejection cleanup" ErrDrift)))
      else if bool_decide (is_Some (s_Genesis s)) &&
              (negb (seqb (it_CleanupKind entry) cleanupRejected) || sempty (it_ReceiptUID entry))
      then Ret (Some (Some ErrDrift))
      else casRemove retry cm current id
  end.

Definition releaseRejected (id nonce : string) : prog (option error) :=
  retry_loop maxCASAttempts 0 (rejectIteration id nonce) (Some ErrBusy).

Definition ReleaseRejected (id nonce : string) : prog (option error) :=
  match s_Genesis s with
  | Some _ => Ret (Some (Wrap "Genesis rejection cleanup requires its pinned receipt" ErrDrift))
  | None => releaseRejected id nonce
  end.

Definition ReleaseRejectedReceipt (build : KovaBuild) (witness : ObservedQueueIntent) : prog (option error) :=
  match s_Genesis s with
  | None => Ret (Some ErrDrift)
  | Some _ =>
      if negb (seqb (qi_BuildName (oq_Intent witness)) (kb_name build)) then Ret (Some ErrDrift)
      else
        get* found := Lookup (kb_name build) else (fun e => Ret (Some e)) in
        match found with
        | None => Ret (Some ErrDrift)
        | Some entry =>
            if negb (seqb (it_Nonce entry) (qi_QueueNonce (oq_Intent witness))) ||
               negb (seqb (it_ReceiptUID entry) (oq_ReceiptUID witness)) ||
               negb (seqb (it_ReceiptDigest entry) (oq_DataDigest witness)) || negb (sempty (it_CleanupKind entry))
            then Ret (Some ErrDrift)
            else
              chk* observePinnedReceipt build entry else (fun e => Ret (Some e)) in
              chk* markReceiptCleanupReady (kb_name build) entry cleanupRejected else (fun e => Ret (Some e)) in
              chk* deletePinnedReceipt (with_cleanup entry cleanupRejected) else (fun e => Ret (Some e)) in
              releaseRejected (kb_name build) (it_Nonce entry)
        end
  end.

Definition ResumeRejectedCleanup (id nonce : string) : prog (option error) :=
  match s_Genesis s with
  | None => Ret (Some ErrDrift)
  | Some _ =>
      get* found := Lookup id else (fun e => Ret (Some e)) in
      match found with
      | None => Ret (Some ErrDrift)
      | Some entry =>
          if negb (seqb (it_Nonce entry) nonce) || negb (seqb (it_CleanupKind entry) cleanupRejected)
          then Ret (Some ErrDrift)
          else
            let* b := call (GetBuild (s_Namespace s) id) in
            match b with
            | Ok _ => Ret (Some ErrDrift)
            | Err e =>
                if negb (IsNotFound e) then Ret (Some e)
                else
                  chk* deletePinnedReceipt entry else (fun e => Ret (Some e)) in
                  releaseRejected id nonce
            end
      end
  end.
End store.
