(* ===== verification/QueueSpec.v ===== *)
(** * What the queue ledger promises, and that [Store] keeps it

    [ledger_step] is the abstract specification of the ledger: the ways an
    intent table may move.  Every write of every [Store] operation, in the
    legacy Update mode and in the Genesis Patch mode, is one such step of the
    state that is committed at the moment of the write, whatever other clients
    do in between.  The kinds of steps a caller may take are a
    parameter, so that a run without releases can be told apart. *)
From S2P Require Import Prelude GoText Json JsonFacts AdmissionJson Sha256 Types JsonSize Kube Contract Genesis GenesisFacts QueueReceipt QueueLedger QueueCodec QueueOps.

(** ** The abstract ledger *)

Definition unlinked (e : Intent) : Prop :=
  it_ReceiptUID e = "" /\ it_ReceiptDigest e = "" /\ it_CleanupKind e = "".

(** The five ways the ledger moves. *)
Inductive step_kind := KInit | KReserve | KPin | KMark | KRemove.

Inductive ledger_step (st : state) : step_kind -> state -> Prop :=
| step_reserve id e :
    intents st !! id = None -> unlinked e ->
    (Z.of_nat (size (intents st)) < st_GlobalLimit st)%Z ->
    (requesterCount (intents st) (it_RequesterHash e) < st_RequesterLimit st)%Z ->
    ledger_step st KReserve (put st id e)
| step_pin id e uid digest :
    intents st !! id = Some e -> it_ReceiptUID e = "" -> it_CleanupKind e = "" ->
    validReceiptUID uid = true -> validDigest digest = true ->
    ledger_step st KPin (put st id (with_link e uid digest))
| step_mark id e kind :
    intents st !! id = Some e -> it_ReceiptUID e <> "" -> it_CleanupKind e = "" ->
    cleanupKindOK kind = true ->
    ledger_step st KMark (put st id (with_cleanup e kind))
| step_remove id e :
    intents st !! id = Some e ->
    (st_Version st = 2%Z -> it_ReceiptUID e <> "" /\ it_CleanupKind e <> "") ->
    ledger_step st KRemove (remove st id).

Lemma intents_put st id e : intents (put st id e) = <[id := e]> (intents st).
Proof. done. Qed.
Lemma intents_remove st id : intents (remove st id) = delete id (intents st).
Proof. done. Qed.

(** The identity of an intent, which no step changes. *)
Definition identity (e : Intent) : string * string * string * Z :=
  (it_RequesterHash e, it_RequestDigest e, it_Nonce e, it_CreatedAtUnix e).

Section spec.
Context `{External}.

Lemma qualifyRead_inv s cm r :
  qualifyRead s cm = Ok r ->
  exists st, r = (cm, st) /\ badData cm = false /\ decodeState (mget (cm_data cm) dataKey) = Ok st /\
    st_GlobalLimit st = s_GlobalLimit s /\ st_RequesterLimit st = s_RequesterLimit s /\
    st_Version st = (if decide (s_Genesis s = None) then 1 else 2)%Z /\ ledgerOK st.
Proof.
  unfold qualifyRead. destruct (badData cm) eqn:Eb; [done|].
  destruct (decodeState _) as [st|e] eqn:Ed; [|done].
  destruct (negb (st_GlobalLimit st =? _)%Z || _) eqn:El; [done|]. bool_simpl.
  destruct (_ || _) eqn:Ev; [done|]. destruct (validateState st) eqn:Es; [done|].
  intros [= <-]. exists st. apply validateState_ok in Es. split_and!; try done; try lia.
  destruct (s_Genesis s) as [g|]; simpl in Ev; bool_simpl; case_decide; try done; lia.
Qed.

Lemma decode_int64 raw st : decodeState raw = Ok st -> int64State st.
Proof.
  unfold decodeState, Decode. destruct (checkDocument _ _) as [v|]; [|done].
  destruct (state_of_json v) as [st'|] eqn:Es; [|done]. intros [= ->].
  unfold state_of_json in Es. destruct v as [| | | | |l]; try done.
  destruct (jint64 (jfield l "version")); [|done]. destruct (jint64 (jfield l "globalLimit")); [|done].
  destruct (jint64 (jfield l "requesterLimit")); [|done].
  destruct (intents_of_json (jfield l "intents")) as [o|] eqn:Ei; [|done]. simplify_eq.
  intros id e. unfold intents. simpl. unfold intents_of_json in Ei.
  destruct (jfield l "intents") as [[| | | | |l']|]; simplify_eq; try done.
  destruct (entries_of_json l') as [t|] eqn:Et; [|done]. simplify_eq. simpl. intros He.
  apply elem_of_list_to_map_2 in He. revert t Et He.
  induction l' as [|[k v] l' IH]; intros t Et He; simpl in Et; [by simplify_eq; apply elem_of_nil in He|].
  destruct (intent_of_json v) as [e'|] eqn:Ev; [|done].
  destruct (entries_of_json l') as [t'|] eqn:El; [|done]. simplify_eq.
  apply elem_of_cons in He as [[= -> ->]|He]; [|by eapply IH].
  unfold intent_of_json in Ev. destruct v as [| | | | |lv]; try done.
  repeat (case_match; [|done]). simplify_eq. simpl.
  match goal with Hj : jint64 _ = Some ?z |- (?z < _)%Z => by apply jint64_range in Hj as [_ Hj] end.
Qed.
End spec.

(** ** The guarantee of one request *)

Section guarantee.
Context `{External} `{ApiServer}.
Context (s : Store).
(** The kinds of steps that are allowed. *)
Context (K : step_kind -> Prop).

(** [c] is a committed ledger that the store reads as [st]. *)
Definition reads_as (c : ConfigMap) (st : state) : Prop := qualifyRead s c = Ok (c, st).

Inductive ledger_effect : option ConfigMap -> option ConfigMap -> Prop :=
| effect_none o : ledger_effect o o
| effect_init c : K KInit -> s_Genesis s = None -> reads_as c (freshState s) -> ledger_effect None (Some c)
| effect_step k c c' st st' :
    K k -> reads_as c st -> reads_as c' st' -> ledger_step st k st' -> ledger_effect (Some c) (Some c').

Definition queueG (w w' : world) : Prop :=
  ledger_effect (cm_now w (key s)) (cm_now w' (key s)) /\
  forall rv c, cm_version w' (key s) rv = Some c ->
    cm_version w (key s) rv = Some c \/ cm_now w' (key s) = Some c.

(** What [NewGuard] and the startup wiring establish for a Genesis store. *)
Definition store_ok : Prop :=
  match s_Genesis s with
  | Some g => Bootstrapper_validate (gd_Bootstrap g) = None /\ guard_reads g
  | None => True
  end.

Lemma queueG_same X (e : api X) w x w' :
  step X e w x w' -> cm_now w' (key s) = cm_now w (key s) -> queueG w w'.
Proof.
  intros Hs He. split; [rewrite He; constructor|]. intros rv c. by eapply version_new.
Qed.

(** A ledger version that was committed and its reading. *)
Definition committed (w : world) (st : state) : Prop :=
  exists rv c, cm_version w (key s) rv = Some c /\ reads_as c st.

Definition read_fact (w : world) (cm : ConfigMap) (st : state) : Prop :=
  cm_version w (key s) (cm_rv cm) = Some cm /\ cm_key cm = key s /\ reads_as cm st.

Lemma read_fact_stable w w' cm st : rely w w' -> read_fact w cm st -> read_fact w' cm st.
Proof. intros Hr (Hv & Hk & Hq). split_and!; try done. by eapply version_stable. Qed.

Lemma committed_stable w w' st : rely w w' -> committed w st -> committed w' st.
Proof. intros Hr (rv & c & Hv & Hq). exists rv, c. split; [by eapply version_stable|done]. Qed.

Lemma read_fact_committed w cm st : read_fact w cm st -> committed w st.
Proof. intros (Hv & _ & Hq). by exists (cm_rv cm), cm. Qed.

Lemma reads_as_int64 c st : reads_as c st -> int64State st /\ ledgerOK st.
Proof.
  intros (st' & [= <-] & _ & Hd & _ & _ & _ & Hok)%qualifyRead_inv. split; [by eapply decode_int64|done].
Qed.

(** An encoded next state is read back as itself. *)
Lemma encoded_reads c next data0 :
  encodeState next = Ok data0 -> int64State next ->
  st_GlobalLimit next = s_GlobalLimit s -> st_RequesterLimit next = s_RequesterLimit s ->
  st_Version next = (if decide (s_Genesis s = None) then 1 else 2)%Z ->
  cm_data c = {[dataKey := data0]} -> size (cm_binary c) = 0 -> reads_as c next.
Proof.
  intros He Hi Hg Hr Hv Hd Hb.
  assert (Hok : ledgerOK next).
  { apply validateState_ok. unfold encodeState in He. by destruct (validateState next). }
  rewrite encodeState_fits in He by done. injection He as <-.
  unfold reads_as, qualifyRead.
  assert (Hm : mget (cm_data c) dataKey = json_print (json_of_state next)).
  { rewrite Hd. unfold mget. by rewrite lookup_singleton_eq. }
  assert (Hbad : badData c = false).
  { unfold badData. rewrite Hm, Hd, map_size_singleton. rewrite !bool_decide_eq_true_2 by done.
    pose proof (state_len next Hok Hi). pose proof (ok_global next Hok).
    assert (0 < slen (json_print (json_of_state next)))%Z by (unfold json_of_state; simpl; unfold slen; rewrite append_cons; simpl; lia).
    unfold maxLedgerBytes, maxHeaderBytes, maxIntentBytes in *.
    repeat apply orb_false_intro; try done; lia. }
  rewrite Hbad, Hm, decodeState_print by done. rewrite Hg, Hr, !Z.eqb_refl, Hv.
  rewrite (proj2 (validateState_ok next) Hok).
  by destruct (s_Genesis s).
Qed.

Lemma wp_read_only {A} (p : prog A) w : emits (@read_only) p -> wp queueG p (fun _ _ => True) w.
Proof. apply wp_reads with (k := key s). apply queueG_same. Qed.

Hypothesis Hs : store_ok.

Lemma store_guard g : s_Genesis s = Some g -> Bootstrapper_validate (gd_Bootstrap g) = None /\ guard_reads g.
Proof. unfold store_ok in Hs. intros Eg. by rewrite Eg in Hs. Qed.

Lemma readObject_wp w :
  wp queueG (readObject s)
    (fun w' r => match r with Ok cm => cm_version w' (key s) (cm_rv cm) = Some cm /\ cm_key cm = key s | Err _ => True end) w.
Proof.
  unfold readObject. simpl. intros w1 _ x w2 Hst. split.
  { eapply queueG_same; [done|]. by eapply frame. }
  destruct x as [cm|e]; [|done]. pose proof (get_version _ _ _ _ _ Hst). pose proof (get_key _ _ _ _ _ Hst).
  destruct (s_Genesis s) as [g|]; [destruct (CheckLedger g cm Queue)|]; done.
Qed.

Definition read_post (w : world) (r : result (ConfigMap * state)) : Prop :=
  match r with Ok (cm, st) => read_fact w cm st | Err _ => True end.

Lemma readWithObservation_wp ctx o w : wp queueG (readWithObservation s ctx o) read_post w.
Proof.
  unfold readWithObservation. eapply wp_seq.
  { apply wp_read_only. destruct (s_Genesis s) as [g|] eqn:Eg; [|by destruct o].
    destruct (store_guard g Eg). emits_tac. }
  intros w1 [e|] _ _; [done|]. eapply wp_seq.
  { instantiate (1 := fun w' r => match r with Ok cm => cm_version w' (key s) (cm_rv cm) = Some cm /\ cm_key cm = key s | Err _ => True end).
    destruct o as [ob|], (s_Genesis s) as [g|] eqn:Eg; try apply readObject_wp.
    unfold Observation_Read. destruct (Assert ob g); [done|].
    eapply wp_seq; [apply wp_read_only; emits_tac|]. intros w2 [e|] _ _; [done|]. apply readObject_wp. }
  intros w2 [cm|e] _ HQ; [|done]. simpl. unfold read_post.
  destruct (qualifyRead s cm) as [[cm' st]|] eqn:Eq; [|done].
  pose proof Eq as (st' & [= -> <-] & _)%qualifyRead_inv. by destruct HQ.
Qed.

Lemma read_wp w : wp queueG (read s) read_post w.
Proof. apply readWithObservation_wp. Qed.

Lemma Lookup_wp id w :
  wp queueG (Lookup s id)
    (fun w' r => forall o, r = Ok o -> exists st, committed w' st /\ intents st !! id = o) w.
Proof.
  unfold Lookup, lookupWithObservation. eapply wp_seq; [apply readWithObservation_wp|].
  intros w1 [[cm st]|e] _ HQ; [|done]. simpl. intros o [= <-]. exists st. split; [by eapply read_fact_committed|done].
Qed.

(** The compare-and-swap contract of [write]. *)
Lemma write_wp k cm st next w :
  K k -> read_fact w cm st -> int64State next ->
  st_GlobalLimit next = st_GlobalLimit st -> st_RequesterLimit next = st_RequesterLimit st ->
  st_Version next = st_Version st -> ledger_step st k next ->
  wp queueG (write s cm next) (fun w' r => r = None -> committed w' next) w.
Proof.
  intros HK (Hv & Hk & Hq) Hi Eg Er Ev Hstep. unfold write.
  pose proof Hq as (st' & [= <-] & _ & _ & Lg & Lr & Lv & _)%qualifyRead_inv.
  destruct (_ || _) eqn:Eb; [done|]. bool_simpl.
  destruct (encodeState next) as [data0|] eqn:Ee; [|done].
  assert (Hnew : forall c, holds_data dataKey data0 c -> reads_as c next).
  { intros c [Hd Hb]. eapply encoded_reads; eauto; congruence. }
  assert (Hcommit : forall w1 w2 new X (e : api X) x, step X e w1 x w2 -> cm_now w1 (key s) = Some cm ->
            cm_now w2 (key s) = Some new -> holds_data dataKey data0 new -> queueG w1 w2).
  { intros w1 w2 new X e x Hst Hn1 Hn2 Hh. split; [|intros rv c; by eapply version_new].
    rewrite Hn1, Hn2. eapply effect_step; eauto. }
  destruct (s_Genesis s) as [g|] eqn:Egen.
  - destruct (store_guard g Egen) as [Hb Hg].
    eapply wp_mono; [apply (PatchLedgerData_wp queueG (key s))|]; eauto using queueG_same.
    intros w' r _ HQ ->. destruct (HQ eq_refl) as (c & Hc & Hh). exists (cm_rv c), c. eauto.
  - simpl. intros w1 Hr1 x w2 Hst.
    assert (Eck : cm_key (with_data cm {[dataKey := data0]}) = key s) by exact Hk.
    assert (Hdata : forall new, cm_data new = cm_data (with_data cm {[dataKey := data0]}) ->
              cm_binary new = cm_binary (with_data cm {[dataKey := data0]}) -> holds_data dataKey data0 new).
    { intros new Hd Hb. split; [done|]. by rewrite Hb. }
    split.
    + destruct (update_effect _ _ _ _ Hst) as [Hsame|(old & new & Ho & Hrv & Hn & Hd & Hb)]; rewrite Eck in *.
      { by eapply queueG_same. }
      assert (old = cm) as -> by (by eapply version_exact). eapply Hcommit; eauto.
    + intros ->. destruct (update_ok _ _ _ Hst) as (old & new & Ho & Hrv & Hn & Hd & Hb). rewrite Eck in *.
      exists (cm_rv new), new. split; [by apply now_version|]. auto.
Qed.

(** ** Compare-and-swap iterations *)

Definition loop_post {A} (Q : world -> A -> Prop) (w : world) (r : option A) : Prop :=
  match r with Some a => Q w a | None => True end.

Lemma wp_retry {A} n (body : nat -> prog (option A)) busy (Q : world -> A -> Prop) w :
  (forall w', Q w' busy) -> (forall i w', wp queueG (body i) (loop_post Q) w') ->
  wp queueG (retry_loop n 0 body busy) Q w.
Proof. intros Hb Hi. apply wp_loop with (I := fun _ => True); eauto. Qed.

Lemma wait_wp {A} retry (fail : error -> A) (Q : world -> A -> Prop) w :
  (forall w' e, Q w' (fail e)) -> wp queueG (wait_continue retry fail) (loop_post Q) w.
Proof.
  intros HQ. unfold wait_continue. eapply wp_seq; [apply wp_read_only; unfold waitCAS; emits_tac|].
  intros w' [e|] _ _; simpl; auto.
Qed.

Lemma casWrite_wp {A} k retry cm st m (fail : error -> A) finish failed (Q : world -> A -> Prop) w :
  K k -> read_fact w cm st -> int64State (with_intents st m) -> ledger_step st k (with_intents st m) ->
  (forall w', rely w w' -> committed w' (with_intents st m) -> wp queueG finish (loop_post Q) w') ->
  (forall w' e, rely w w' -> wp queueG (failed e) (loop_post Q) w') ->
  (forall w' e, Q w' (fail e)) ->
  wp queueG (casWrite s retry cm (with_intents st m) fail finish failed) (loop_post Q) w.
Proof.
  intros HK Hr Hi Hst Hfin Hfail HQ. unfold casWrite. eapply wp_seq; [by eapply write_wp|].
  intros w' [e|] Hr' Hc; [|by apply Hfin; auto]. destruct (IsConflict e); [by apply wait_wp|auto].
Qed.

Lemma int64_put st id e : int64State st -> (it_CreatedAtUnix e < 2 ^ 63)%Z -> int64State (put st id e).
Proof.
  intros Hi He id' e'. rewrite intents_put, lookup_insert_Some. intros [[_ <-]|[_ Hl]]; [done|by eapply Hi].
Qed.

Lemma int64_remove st id : int64State st -> int64State (remove st id).
Proof. intros Hi id' e'. rewrite intents_remove, lookup_delete_Some. intros [_ Hl]. by eapply Hi. Qed.

Definition seen (w : world) (id : string) (e : Intent) : Prop :=
  exists st, committed w st /\ intents st !! id = Some e.
Definition gone (w : world) (id : string) : Prop :=
  exists st, committed w st /\ intents st !! id = None.

(** Results of [Reserve] for [build]. *)
Definition reserve_post (build : KovaBuild) (w : world) (r : result (Intent * bool)) : Prop :=
  match r with
  | Err _ => True
  | Ok (e, fresh) =>
      seen w (kb_name build) e /\
      it_RequesterHash e = HashRequester (rq_username (sp_requester (kb_spec build))) /\
      it_RequestDigest e = DigestBuild build /\
      (fresh = true -> unlinked e /\ exists n, it_Nonce e = nonce_of n)
  end.

Lemma reserveIteration_wp build n now retry w :
  K KReserve -> (now < 2 ^ 63)%Z ->
  wp queueG (reserveIteration s build (proposedIntent build (nonce_of n) now) retry) (loop_post (reserve_post build)) w.
Proof.
  intros HK Hnow. set (p := proposedIntent build (nonce_of n) now).
  assert (Hp : unlinked p /\ exists n, it_Nonce p = nonce_of n) by (split; [done|by exists n]).
  unfold reserveIteration. eapply wp_seq; [apply wp_read_only; emits_tac|]. intros w1 [e|] _ _; [done|].
  eapply wp_seq; [apply read_wp|]. intros w2 [[cm st]|e] _ Hr; [|done]. simpl in Hr.
  pose proof Hr as (_ & _ & Hq). pose proof (reads_as_int64 _ _ Hq) as [Hi Hok].
  pose proof Hq as (st' & [= <-] & _ & _ & Lg & Lr & _)%qualifyRead_inv.
  destruct (intents st !! kb_name build) as [ex|] eqn:El.
  { destruct (_ || _) eqn:Ec; [done|]. bool_simpl. simpl. split_and!; try done.
    exists st. split; [by eapply read_fact_committed|done]. }
  destruct (Z.leb_spec (s_GlobalLimit s) (Z.of_nat (size (intents st)))); [done|].
  destruct (Z.leb_spec (s_RequesterLimit s) (requesterCount (intents st) (it_RequesterHash p))); [done|].
  apply (casWrite_wp KReserve); try done.
  - by apply int64_put.
  - apply step_reserve; try done; lia.
  - intros w3 _ Hc. simpl. split_and!; try done. exists (put st (kb_name build) p).
    split; [done|]. by rewrite intents_put, lookup_insert_eq.
  - intros w3 err _. eapply wp_seq; [apply Lookup_wp|]. intros w4 l _ Hl.
    case_bool_decide as Eo; [|by destruct (IsTooManyRequests err)].
    destruct l as [o|]; [|done]. simpl in Eo. subst o. simpl.
    split_and!; try done. exact (Hl _ eq_refl).
Qed.

Lemma Reserve_wp build w : K KReserve -> wp queueG (Reserve s build) (reserve_post build) w.
Proof.
  intros HK. unfold Reserve, random_nonce, call. cbn [wp bind]. intros w1 _ x w2 Hst. split; [eapply queueG_same; [done|by eapply frame]|].
  destruct x as [n|e]; [|done]. cbn [wp bind]. intros w3 _ now w4 Hst'. split; [eapply queueG_same; [done|by eapply frame]|].
  apply clock_int64 in Hst'. apply wp_retry; [done|]. intros i w'. apply reserveIteration_wp; [done|lia].
Qed.

(** ** Receipts and releases *)

Lemma CheckReceiptNamespace_wp w : wp queueG (CheckReceiptNamespace s) (fun _ _ => True) w.
Proof.
  apply wp_read_only. unfold CheckReceiptNamespace, checkReceiptNamespaceWithObservation.
  destruct (s_Genesis s); emits_tac.
Qed.

Lemma observePinnedReceipt_wp build e w : wp queueG (observePinnedReceipt s build e) (fun _ _ => True) w.
Proof.
  unfold observePinnedReceipt, observePinnedReceiptWithObservation. simpl.
  eapply wp_seq; [apply CheckReceiptNamespace_wp|]. intros w1 [err|] _ _; [done|].
  destruct (_ || _); [done|]. destruct (ReceiptIntent _ _ _) as [q|]; [|done].
  apply wp_read_only. destruct (NewQueueConfigMap q); [|done].
  destruct (s_Genesis s) as [g|] eqn:Eg; [|done]. destruct (store_guard g Eg). emits_tac.
Qed.

Lemma receiptName_off nonce : receiptName nonce <> ConfigMapName.
Proof. unfold receiptName, queueReceiptPrefix, ConfigMapName. rewrite !append_cons. discriminate. Qed.

Lemma deletePinnedReceipt_wp e w : wp queueG (deletePinnedReceipt s e) (fun _ _ => True) w.
Proof.
  unfold deletePinnedReceipt. destruct (s_Genesis s) as [g|] eqn:Eg; [|done].
  destruct (store_guard g Eg) as [_ Hg]. destruct (_ || _); [done|].
  eapply wp_seq; [apply CheckReceiptNamespace_wp|]. intros w1 [err|] _ _; [done|].
  apply wp_off with (k := key s); [apply queueG_same|].
  assert (Hck : emits (@off_key (key s)) (Guard_Check g)).
  { eapply emits_mono; [|by apply Guard_Check_reads]. apply read_only_off. }
  simpl. split; [done|]. intros [cur|err]; [|destruct (IsNotFound err); [apply Hck|done]].
  destruct (DigestData _); [|done]. destruct (_ || _) eqn:Eb; [done|]. bool_simpl.
  apply emits_bind; [done|]. intros [err|]; [done|]. simpl. split.
  { intros [= _ Hn]. apply (receiptName_off (it_Nonce e)). congruence. }
  intros de. split; [done|]. intros [after|err]; [|destruct (IsNotFound err); [done|done]].
  destruct (negb _); [done|]. by destruct de.
Qed.

Lemma settle_wp build e w : wp queueG (markReceiptSettled s build e) (fun _ _ => True) w.
Proof.
  unfold markReceiptSettled. destruct (s_Genesis s) as [g|] eqn:Eg; [|done].
  destruct (store_guard g Eg) as [_ Hg]. apply wp_off with (k := key s); [apply queueG_same|].
  assert (Hck : emits (@off_key (key s)) (Guard_Check g)).
  { eapply emits_mono; [|by apply Guard_Check_reads]. apply read_only_off. }
  apply emits_loop. intros i. unfold settleIteration, wait_continue, waitCAS. emits_tac.
Qed.

Lemma casRemove_wp retry cm st id e (Q : world -> option error -> Prop) w :
  K KRemove -> read_fact w cm st -> intents st !! id = Some e ->
  (s_Genesis s = None \/ it_ReceiptUID e <> "" /\ it_CleanupKind e <> "") ->
  (forall w' r, (r = None -> gone w' id) -> Q w' r) ->
  wp queueG (casRemove s retry cm st id) (loop_post Q) w.
Proof.
  intros HK Hr Hl Hm HQ. pose proof Hr as (_ & _ & Hq). pose proof (reads_as_int64 _ _ Hq) as [Hi Hok].
  pose proof Hq as (st' & [= <-] & _ & _ & Lg & Lr & Lv & _)%qualifyRead_inv.
  apply (casWrite_wp KRemove); try done.
  - by apply int64_remove.
  - apply (step_remove st id e); [done|]. intros E2. destruct Hm as [Hm|Hm]; [|done].
    rewrite Lv, decide_True in E2 by done. lia.
  - intros w1 _ Hc. simpl. apply HQ. intros _. exists (remove st id). split; [done|].
    by rewrite intents_remove, lookup_delete_eq.
  - intros w1 err _. eapply wp_seq; [apply Lookup_wp|]. intros w2 l _ Hlk.
    destruct (absent l) eqn:Ea; simpl; apply HQ; [|done]. intros _.
    destruct l as [[|]|]; try done. exact (Hlk _ eq_refl).
  - intros w1 err. by apply HQ.
Qed.

Definition release_post (id : string) (w : world) (r : option error) : Prop := r = None -> gone w id.

Lemma releaseRejected_wp id nonce w : K KRemove -> wp queueG (releaseRejected s id nonce) (release_post id) w.
Proof.
  intros HK. apply wp_retry; [done|]. intros i w1. unfold rejectIteration.
  eapply wp_seq; [apply read_wp|]. intros w2 [[cm st]|e] _ Hr; [|done]. simpl in Hr.
  destruct (intents st !! id) as [e|] eqn:El.
  2:{ simpl. intros _. exists st. split; [by eapply read_fact_committed|done]. }
  destruct (negb _); [done|]. destruct (_ && _) eqn:Eg; [done|].
  eapply casRemove_wp; try done. destruct (s_Genesis s); [right|by left].
  simpl in Eg. bool_simpl. subst. unfold sempty in *. split; [done|].
  match goal with Hk : it_CleanupKind e = _ |- _ => by rewrite Hk end.
Qed.

(** The intent with [e]'s nonce and link and the given disposition was committed. *)
Definition linked (id : string) (e : Intent) (kind : string) (w : world) : Prop :=
  exists o, seen w id o /\ it_Nonce o = it_Nonce e /\ it_ReceiptUID o = it_ReceiptUID e /\
    it_ReceiptDigest o = it_ReceiptDigest e /\ it_CleanupKind o = kind.

Lemma linked_stable id e kind w w' : rely w w' -> linked id e kind w -> linked id e kind w'.
Proof.
  intros Hr (o & (st & Hc & Hl) & Ho). exists o. split; [|done]. exists st. split; [by eapply committed_stable|done].
Qed.

Lemma linked_committed w st id e kind :
  committed w (put st id e) -> it_CleanupKind e = kind -> linked id e kind w.
Proof.
  intros Hc Hk. exists e. split; [|done]. exists (put st id e). split; [done|]. by rewrite intents_put, lookup_insert_eq.
Qed.

Lemma observedLink_linked w l id e kind :
  (forall o, l = Ok o -> exists st, committed w st /\ intents st !! id = o) ->
  observedLink l e kind = true -> linked id e kind w.
Proof.
  intros Hl. unfold observedLink, sameLink. destruct l as [[o|]|]; try done. simpl. intros Ho. bool_simpl.
  exists o. split; [exact (Hl _ eq_refl)|done].
Qed.

Lemma last_check_wp (P : world -> Prop) w :
  (forall w', rely w w' -> P w') ->
  wp queueG (last_check s) (loop_post (fun w' r => r = None -> P w')) w.
Proof.
  intros HP. unfold last_check. eapply wp_seq; [apply CheckReceiptNamespace_wp|].
  intros w' r Hr _. simpl. auto.
Qed.

Definition pinned (build : KovaBuild) (reserved : Intent) (witness : ObservedQueueIntent) (w : world) : Prop :=
  linked (kb_name build) (with_link reserved (oq_ReceiptUID witness) (oq_DataDigest witness)) "" w.

Lemma pinIteration_wp build reserved witness retry w :
  K KPin ->
  validReceiptUID (oq_ReceiptUID witness) = true -> validDigest (oq_DataDigest witness) = true ->
  wp queueG (pinIteration s build reserved witness retry)
    (loop_post (fun w' r => r = None -> pinned build reserved witness w')) w.
Proof.
  intros HK Hu Hd. unfold pinIteration. eapply wp_seq; [apply read_wp|].
  intros w2 [[cm st]|e] _ Hr; [|done]. simpl in Hr. pose proof Hr as (_ & _ & Hq).
  pose proof (reads_as_int64 _ _ Hq) as [Hi Hok].
  destruct (intents st !! kb_name build) as [e|] eqn:El; [|done].
  destruct (_ || _) eqn:Ed; [done|]. bool_simpl. unfold sempty. case_bool_decide as Ee; simpl.
  2:{ destruct (_ && _) eqn:Ew; [|done]. bool_simpl. apply last_check_wp. intros w3 Hr3.
      apply (linked_stable _ _ _ _ _ Hr3). exists e. split; [|by split_and!].
      exists st. split; [by eapply read_fact_committed|done]. }
  set (e' := with_link e (oq_ReceiptUID witness) (oq_DataDigest witness)).
  assert (Hsame : forall w', linked (kb_name build) e' "" w' -> pinned build reserved witness w').
  { intros w' (o & Ho & Hn & Ho'). exists o. split; [done|]. split; [|done]. simpl in *. congruence. }
  apply (casWrite_wp KPin); try done.
  - apply int64_put; [done|]. exact (Hi _ _ El).
  - by apply step_pin.
  - intros w3 _ Hc. eapply wp_seq; [apply Lookup_wp|]. intros w4 l _ Hl.
    destruct l as [o|]; [|done]. destruct (observedLink _ _ _) eqn:Eo; [|done].
    apply last_check_wp. intros w5 Hr5. apply Hsame, (linked_stable _ _ _ _ _ Hr5). eapply observedLink_linked; [exact Hl|exact Eo].
  - intros w3 err _. eapply wp_seq; [apply Lookup_wp|]. intros w4 l _ Hl.
    destruct (observedLink _ _ _) eqn:Eo; [|done].
    apply last_check_wp. intros w5 Hr5. apply Hsame, (linked_stable _ _ _ _ _ Hr5). eapply observedLink_linked; [exact Hl|exact Eo].
Qed.

Lemma PinReceipt_wp build reserved witness w :
  K KPin ->
  wp queueG (PinReceipt s build reserved witness) (fun w' r => r = None -> pinned build reserved witness w') w.
Proof.
  intros HK. unfold PinReceipt. eapply wp_seq; [apply CheckReceiptNamespace_wp|]. intros w1 [e|] _ _; [done|].
  destruct (ReceiptIntent _ _ _); [|done]. destruct (_ || _) eqn:E; [done|]. bool_simpl.
  apply wp_retry; [done|]. intros i w'. by apply pinIteration_wp.
Qed.

Lemma markReceiptCleanupReady_wp id e kind w :
  K KMark ->
  wp queueG (markReceiptCleanupReady s id e kind) (fun w' r => r = None -> linked id e kind w') w.
Proof.
  intros HK. unfold markReceiptCleanupReady. destruct (negb _) eqn:Ek; [done|]. bool_simpl.
  apply wp_retry; [done|]. intros i w1. unfold markIteration. eapply wp_seq; [apply read_wp|].
  intros w2 [[cm st]|err] _ Hr; [|done]. simpl in Hr. pose proof Hr as (_ & _ & Hq).
  pose proof (reads_as_int64 _ _ Hq) as [Hi Hok].
  destruct (intents st !! id) as [cur|] eqn:El; [|done].
  destruct (_ || _) eqn:Ed; [done|]. bool_simpl.
  destruct (seqb (it_CleanupKind cur) kind) eqn:Ec; simpl.
  { bool_simpl. intros _. exists cur. split; [|by split_and!]. exists st.
    split; [by eapply read_fact_committed|done]. }
  destruct (negb (sempty (it_CleanupKind cur))) eqn:En; [done|]. bool_simpl.
  assert (Hsame : forall w', linked id (with_cleanup cur kind) kind w' -> linked id e kind w').
  { intros w' (o & Ho & Hn & Ho1 & Ho2 & Ho3). exists o. simpl in *. split_and!; congruence. }
  apply (casWrite_wp KMark); try done.
  - apply int64_put; [done|]. exact (Hi _ _ El).
  - by apply step_mark.
  - intros w3 _ Hc. simpl. intros _. apply Hsame. by eapply linked_committed.
  - intros w3 err _. eapply wp_seq; [apply Lookup_wp|]. intros w4 l _ Hl.
    destruct (observedLink _ _ _) eqn:Eo; [|done]. simpl. intros _. apply Hsame. eapply observedLink_linked; [exact Hl|exact Eo].
Qed.

Lemma confirmSettled_wp g build w :
  guard_reads g -> wp queueG (confirmSettled s g build) (fun _ _ => True) w.
Proof.
  intros Hg. unfold confirmSettled. eapply wp_seq; [apply wp_read_only; emits_tac|].
  intros w1 [b|] _ _; [|done]. destruct (_ || _); [done|].
  eapply wp_seq; [apply CheckReceiptNamespace_wp|]. intros w2 [e|] _ _; [done|].
  apply wp_read_only. emits_tac.
Qed.

Lemma releaseReceiptedIteration_wp g build retry w :
  K KMark -> K KRemove -> s_Genesis s = Some g ->
  wp queueG (releaseReceiptedIteration s g build retry) (loop_post (release_post (kb_name build))) w.
Proof.
  intros HM HK Eg. destruct (store_guard g Eg) as [_ Hg]. unfold releaseReceiptedIteration.
  eapply wp_seq; [apply read_wp|]. intros w2 [[cm st]|e] _ Hr; [|done]. simpl in Hr.
  destruct (intents st !! kb_name build) as [e|] eqn:El.
  2:{ eapply wp_seq; [by apply confirmSettled_wp|]. intros w3 r Hr3 _. simpl. intros _. exists st.
      split; [|done]. eapply committed_stable; [done|]. by eapply read_fact_committed. }
  destruct (_ || _) eqn:Ed; [done|]. bool_simpl. destruct (sempty (it_CleanupKind e)) eqn:Ek.
  { eapply wp_seq; [apply observePinnedReceipt_wp|]. intros w3 [err|] _ _; [done|].
    eapply wp_seq; [by apply markReceiptCleanupReady_wp|]. by intros w4 [err|] _ _. }
  destruct (negb _) eqn:Et; [done|].
  eapply wp_seq; [apply deletePinnedReceipt_wp|]. intros w3 [err|] Hr3 _; [done|].
  eapply wp_seq; [apply settle_wp|]. intros w4 [err|] Hr4 _; [done|].
  bool_simpl. eapply casRemove_wp; try done; [|right; auto].
  eapply read_fact_stable; [exact Hr4|]. by eapply read_fact_stable.
Qed.

Lemma ReleaseForBuild_wp build w :
  K KMark -> K KRemove ->
  wp queueG (ReleaseForBuild s build)
    (fun w' r => annotation build IntentAnnotation <> "" -> release_post (kb_name build) w' r) w.
Proof.
  intros HM HK. unfold ReleaseForBuild, releaseReceiptedBuild. destruct (s_Genesis s) as [g|] eqn:Eg.
  - destruct (_ || _); [done|]. unfold sempty. case_bool_decide as Ea; [intros Hn; by destruct Hn|].
    eapply wp_mono; [apply (wp_retry _ _ _ (release_post (kb_name build)))|]; try done.
    intros i w'. by apply releaseReceiptedIteration_wp.
  - unfold sempty. case_bool_decide as Ea; [intros Hn; by destruct Hn|].
    eapply wp_mono; [apply (wp_retry _ _ _ (release_post (kb_name build)))|]; try done.
    intros i w1. unfold releaseIteration.
    eapply wp_seq; [apply read_wp|]. intros w2 [[cm st]|e] _ Hr; [|done]. simpl in Hr.
    destruct (intents st !! kb_name build) as [e|] eqn:El.
    2:{ simpl. intros _. exists st. split; [by eapply read_fact_committed|done]. }
    destruct (_ || _); [done|]. eapply casRemove_wp; try done. by left.
Qed.

Lemma ReleaseRejected_wp id nonce w : K KRemove -> wp queueG (ReleaseRejected s id nonce) (release_post id) w.
Proof. intros HK. unfold ReleaseRejected. destruct (s_Genesis s) eqn:Eg; [done|]. by apply releaseRejected_wp. Qed.

Lemma ReleaseRejectedReceipt_wp build witness w :
  K KMark -> K KRemove ->
  wp queueG (ReleaseRejectedReceipt s build witness) (release_post (kb_name build)) w.
Proof.
  intros HM HK. unfold ReleaseRejectedReceipt. destruct (s_Genesis s) eqn:Eg; [|done]. destruct (negb _); [done|].
  eapply wp_seq; [apply Lookup_wp|]. intros w1 [[e|]|] _ _; [|done|done]. destruct (_ || _); [done|].
  eapply wp_seq; [apply observePinnedReceipt_wp|]. intros w2 [err|] _ _; [done|].
  eapply wp_seq; [by apply markReceiptCleanupReady_wp|]. intros w3 [err|] _ _; [done|].
  eapply wp_seq; [apply deletePinnedReceipt_wp|]. intros w4 [err|] _ _; [done|]. by apply releaseRejected_wp.
Qed.

Lemma ResumeRejectedCleanup_wp id nonce w :
  K KRemove ->
  wp queueG (ResumeRejectedCleanup s id nonce) (release_post id) w.
Proof.
  intros HK. unfold ResumeRejectedCleanup. destruct (s_Genesis s) eqn:Eg; [|done].
  eapply wp_seq; [apply Lookup_wp|]. intros w1 [[e|]|] _ _; [|done|done]. destruct (_ || _); [done|].
  eapply wp_seq; [apply wp_read_only; emits_tac|]. intros w2 [b|err] _ _; [done|].
  destruct (negb _); [done|].
  eapply wp_seq; [apply deletePinnedReceipt_wp|]. intros w4 [err'|] _ _; [done|]. by apply releaseRejected_wp.
Qed.

Lemma CheckReady_wp w : wp queueG (CheckReady s) (fun _ _ => True) w.
Proof. unfold CheckReady. eapply wp_seq; [apply read_wp|]. done. Qed.

Lemma Preflight_wp w : wp queueG (PreflightInitialization s) (fun _ _ => True) w.
Proof.
  unfold PreflightInitialization. destruct (s_Genesis s); [apply CheckReady_wp|].
  destruct (validateLimits _ _); [done|].
  eapply wp_seq; [apply read_wp|]. intros w1 [r|e] _ _; [done|]. destruct (negb _); [done|].
  eapply wp_seq; [apply wp_read_only; emits_tac|]. intros w2 [[|b l]|err] _ _; [done| |done].
  eapply wp_seq; [apply read_wp|]. intros w3 [r|e'] _ _; [done|]. by destruct (negb _).
Qed.

Lemma initialize_wp w : K KInit -> s_Genesis s = None -> wp queueG (initialize s) (fun _ _ => True) w.
Proof.
  intros HK Eg. unfold initialize. eapply wp_seq; [apply Preflight_wp|]. intros w1 [e|] _ _; [done|].
  destruct (encodeState (freshState s)) as [d|] eqn:Ee; [|done].
  cbn [bind wp call]. intros w2 _ [o e] w3 Hst. split; [|done].
  destruct (create_effect _ _ _ _ Hst) as [Hsame|(Hn & new & Hnew & Hd & Hb)]; [by eapply queueG_same|].
  split; [|intros rv c; by eapply version_new].
  assert (Ek : cm_key (freshLedger s d) = key s) by done. rewrite Ek in *. rewrite Hn, Hnew.
  constructor; [done|done|]. apply (encoded_reads new (freshState s) d); try done.
  - simpl. by rewrite decide_True.
  - by rewrite Hb.
Qed.

Lemma EnsureInitialized_wp w : K KInit -> wp queueG (EnsureInitialized s) (fun _ _ => True) w.
Proof.
  intros HK. unfold EnsureInitialized. destruct (s_Genesis s) eqn:Eg; [apply CheckReady_wp|].
  apply wp_retry; [done|]. intros i w1.
  eapply wp_seq; [apply wp_read_only; emits_tac|]. intros w2 [e|] _ _; [done|].
  eapply wp_seq; [apply read_wp|]. intros w3 [r|e] _ _; [done|]. destruct (negb _); [done|].
  eapply wp_seq; [by apply initialize_wp|]. intros w4 [err|] _ _; [|done].
  destruct (_ || _); [by apply wait_wp|].
  eapply wp_seq; [apply read_wp|]. by intros w5 [r|e'] _ _.
Qed.

Lemma wp_emits_returns {A} (p : prog A) (Q : A -> Prop) w :
  emits (@read_only) p -> returns Q p -> wp queueG p (fun _ a => Q a) w.
Proof.
  intros He HQ. eapply wp_mono; [apply wp_returns; [by apply wp_read_only|exact HQ]|]. by intros w' a _ [_ Ha].
Qed.

(** A verified build's entry was committed and carries the build's identity. *)
Definition verify_post (build : KovaBuild) (w : world) (r : result (option Intent)) : Prop :=
  forall e, r = Ok (Some e) ->
    seen w (kb_name build) e /\ it_Nonce e = annotation build IntentAnnotation /\
    it_RequesterHash e = HashRequester (rq_username (sp_requester (kb_spec build))) /\
    it_RequestDigest e = DigestBuild build.

Lemma seen_stable w w' id e : rely w w' -> seen w id e -> seen w' id e.
Proof. intros Hr (st & Hc & Hl). exists st. split; [by eapply committed_stable|done]. Qed.

Lemma gone_stable w w' id : rely w w' -> gone w id -> gone w' id.
Proof. intros Hr (st & Hc & Hl). exists st. split; [by eapply committed_stable|done]. Qed.

Lemma VerifyForBuildSnapshot_wp build w : wp queueG (VerifyForBuildSnapshot s build) (verify_post build) w.
Proof.
  unfold VerifyForBuildSnapshot, verifyForBuildWithObservation. simpl. unfold sempty. case_bool_decide as En.
  { destruct (s_Genesis s); [|done]. eapply wp_seq; [apply CheckReady_wp|]. by intros w1 [e|] _ _. }
  eapply wp_seq; [apply Lookup_wp|]. intros w1 l _ Hl. destruct l as [[e|]|e]; [|done|by destruct (IsNotFound e)].
  destruct (_ || _) eqn:E1; [done|].
  destruct (negb (seqb (it_RequestDigest e) (DigestBuild build))) eqn:E2; [done|]. bool_simpl.
  assert (Hseen : seen w1 (kb_name build) e) by exact (Hl _ eq_refl).
  destruct (s_Genesis s).
  - eapply wp_seq; [apply observePinnedReceipt_wp|]. intros w2 [err|] Hr _; [done|]. simpl.
    intros e' [= <-]. split_and!; try done. by eapply seen_stable.
  - simpl. intros e' [= <-]. by split_and!.
Qed.
End guarantee.
