(* ===== verification/ActiveLedger.v ===== *)
(** * The active-capacity ledger: data, validation and codec

    Models the state of [src/internal/service/buildcontroller/reservation.go]:
    runner grants against the configured capacity, with their one-use nonces,
    receipt links and cleanup flags.  The operations are in [ActiveOps]. *)
From S2P Require Import Prelude GoText Json JsonFacts AdmissionJson Sha256 Types Kube Contract Genesis QueueReceipt QueueLedger.

Definition reservationConfigMap : string := "kova-service-admission".
Definition reservationDataKey : string := "reservations.json".
Definition bootstrapAttemptKey : string := "kova.cofy.dev/admission-bootstrap".
Definition podCreateAttemptKey : string := "kova.cofy.dev/create-attempt".
Definition maxReservationCASAttempts : nat := 16.
Definition maxReservationLedgerBytes : Z := 768 * 1024.
Definition maxReservationHeaderBytes : Z := 8192.
Definition maxReservationEntryBytes : Z := 6000.
Definition maxReservationUIDBytes : Z := 256.
Definition maxGrantObservedRVBytes : Z := 256.
Definition maxRequesterRunes : Z := 253.
Definition MaxActiveJobs : Z := 128.
Definition MaxWorkerSlots : Z := 65535.

Record activeReservation := mkReservation {
  ar_BuildName : string;
  ar_Requester : string;
  ar_Slots : Z;
  ar_GrantNonce : string;
  ar_GrantFence : Z;                   (* uint64 *)
  ar_GrantObservedRV : string;
  ar_GrantReceiptUID : string;
  ar_GrantReceiptDigest : string;
  ar_GrantCleanupReady : bool;
  ar_PodAttemptNonce : string;
  ar_PodTemplateDigest : string;
  ar_PodReceiptUID : string;
  ar_PodReceiptDigest : string;
  ar_PodCleanupReady : bool;
  ar_Closing : bool;
  ar_InFlight : list string }.

(** [rs_Active = None] is the nil map. *)
Record reservationState := mkReservations {
  rs_Version : Z;
  rs_Fence : Z;                        (* uint64 *)
  rs_MaxJobs : Z;
  rs_MaxPerRequester : Z;
  rs_WorkerSlots : Z;
  rs_LastGrantedRequesterHash : string;
  rs_Active : option (gmap string activeReservation) }.

#[export] Instance activeReservation_eq_dec : EqDecision activeReservation.
Proof. solve_decision. Defined.
#[export] Instance reservationState_eq_dec : EqDecision reservationState.
Proof. solve_decision. Defined.

Definition active (s : reservationState) : gmap string activeReservation := default ∅ (rs_Active s).

Definition reservationKey (build : KovaBuild) : string :=
  if negb (sempty (kb_uid build)) then kb_uid build else "name:" +:+ kb_name build.

(** ** Validation *)

Definition capacity_ok (maxJobs maxPerRequester workerSlots : Z) : bool :=
  negb ((maxJobs <? 1) || (MaxActiveJobs <? maxJobs) || (maxPerRequester <? 1) || (maxJobs <? maxPerRequester) ||
        (workerSlots <? 1) || (MaxWorkerSlots <? workerSlots) ||
        (maxReservationLedgerBytes <? maxReservationHeaderBytes + maxJobs * maxReservationEntryBytes))%Z.

Definition ValidateReservationCapacity (cfg : Config) : option error :=
  if capacity_ok (MaxActiveJobs_ cfg) (MaxActiveJobsPerRequester cfg) (WorkerSlots cfg) then None
  else Some (Plain "active admission limits exceed the supported encoded capacity").

(** [value != strings.ToLower(value)] and [hex.DecodeString]: on an even length
    both hold exactly for lower-case hexadecimal digits. *)
Definition validReservationHex (value : string) (length : Z) : bool :=
  (slen value =? length)%Z && str_forallb is_lower_hex value.

Definition validGrantReceiptUID (value : string) : bool := validReceiptUID value.

Definition validGrantObservedRV (value : string) : bool :=
  negb (sempty value) && (slen value <=? maxGrantObservedRVBytes)%Z && ValidString value &&
  forall_runes (fun r => negb (IsSpace r || IsControl r)) value.

Definition validGrantReceiptDigest (value : string) : bool :=
  HasPrefix value "sha256:" && validReservationHex (TrimPrefix value "sha256:") 64.

(** The legacy-field condition of version 1. *)
Definition genesisFieldsSet (e : activeReservation) : bool :=
  negb (sempty (ar_GrantNonce e)) || negb (ar_GrantFence e =? 0)%Z || negb (sempty (ar_GrantObservedRV e)) ||
  negb (sempty (ar_GrantReceiptUID e)) || negb (sempty (ar_GrantReceiptDigest e)) || ar_GrantCleanupReady e ||
  negb (sempty (ar_PodAttemptNonce e)) || negb (sempty (ar_PodTemplateDigest e)) || negb (sempty (ar_PodReceiptUID e)) ||
  negb (sempty (ar_PodReceiptDigest e)) || ar_PodCleanupReady e.

Definition inFlight (e : activeReservation) : bool := negb (bool_decide (ar_InFlight e = [])).

(** The grant and Pod receipt protocol condition of version 2. *)
Definition invalidReceiptState (e : activeReservation) : bool :=
  negb (validReservationHex (ar_GrantNonce e) 32) || (ar_GrantFence e =? 0)%Z ||
  (negb (sempty (ar_GrantObservedRV e)) && negb (validGrantObservedRV (ar_GrantObservedRV e))) ||
  xorb (sempty (ar_GrantReceiptUID e)) (sempty (ar_GrantReceiptDigest e)) ||
  (negb (sempty (ar_GrantReceiptUID e)) &&
     (sempty (ar_GrantObservedRV e) || negb (validGrantReceiptUID (ar_GrantReceiptUID e)) ||
      negb (validGrantReceiptDigest (ar_GrantReceiptDigest e)))) ||
  (ar_GrantCleanupReady e &&
     (negb (ar_Closing e) || inFlight e || sempty (ar_GrantReceiptUID e) ||
      (negb (sempty (ar_PodTemplateDigest e)) && negb (ar_PodCleanupReady e)))) ||
  (sempty (ar_PodAttemptNonce e) &&
     (negb (sempty (ar_PodTemplateDigest e)) || negb (sempty (ar_PodReceiptUID e)) ||
      negb (sempty (ar_PodReceiptDigest e)) || ar_PodCleanupReady e || inFlight e)) ||
  (negb (sempty (ar_PodAttemptNonce e)) && negb (validReservationHex (ar_PodAttemptNonce e) 32)) ||
  (sempty (ar_PodTemplateDigest e) &&
     (negb (sempty (ar_PodReceiptUID e)) || negb (sempty (ar_PodReceiptDigest e)) || ar_PodCleanupReady e || inFlight e)) ||
  (negb (sempty (ar_PodTemplateDigest e)) &&
     (negb (validGrantReceiptDigest (ar_PodTemplateDigest e)) || sempty (ar_GrantReceiptUID e))) ||
  xorb (sempty (ar_PodReceiptUID e)) (sempty (ar_PodReceiptDigest e)) ||
  (negb (sempty (ar_PodReceiptUID e)) &&
     (negb (validGrantReceiptUID (ar_PodReceiptUID e)) || negb (validGrantReceiptDigest (ar_PodReceiptDigest e)))) ||
  match ar_InFlight e with
  | [a] => negb (seqb a (ar_PodAttemptNonce e)) || sempty (ar_PodReceiptUID e)
  | _ => false
  end ||
  (ar_PodCleanupReady e && (negb (ar_Closing e) || inFlight e || sempty (ar_PodReceiptUID e))).

Section ledger.
Context `{External}.

Definition invalidReservation (workerSlots : Z) (key : string) (e : activeReservation) : bool :=
  sempty key || (maxReservationUIDBytes <? slen key)%Z || negb (ValidString key) ||
  (slen (ar_BuildName e) =? 0)%Z || (253 <? slen (ar_BuildName e))%Z || negb (IsDNS1123Subdomain (ar_BuildName e)) ||
  sempty (ar_Requester e) || negb (ValidString (ar_Requester e)) ||
  (maxRequesterRunes <? RuneCountInString (ar_Requester e))%Z ||
  (ar_Slots e <? 1)%Z || (workerSlots <? ar_Slots e)%Z || bool_decide (1 < List.length (ar_InFlight e)) ||
  match ar_InFlight e with [a] => negb (validReservationHex a 32) | _ => false end.

(** The [range] loop with [usedSlots] and [byRequester]. *)
Fixpoint validateActive (version workerSlots perRequester : Z) (l : list (string * activeReservation))
    (usedSlots : Z) (byRequester : gmap string Z) : option error :=
  match l with
  | [] => None
  | (key, e) :: r =>
      if invalidReservation workerSlots key e then Some (Plain "admission ledger has invalid active reservation")
      else if (version =? 1)%Z && genesisFieldsSet e
      then Some (Plain "legacy active reservation contains Genesis grant fields")
      else if negb (version =? 1)%Z && invalidReceiptState e
      then Some (Plain "Genesis active reservation has invalid grant receipt state")
      else if (workerSlots - ar_Slots e <? usedSlots)%Z then Some (Plain "admission ledger exceeds worker slots")
      else
        let n := (default 0 (byRequester !! ar_Requester e) + 1)%Z in
        if (perRequester <? n)%Z then Some (Plain "admission ledger exceeds requester capacity")
        else validateActive version workerSlots perRequester r (usedSlots + ar_Slots e) (<[ar_Requester e := n]> byRequester)
  end.

Definition validateReservationState (s : reservationState) : option error :=
  if (negb (rs_Version s =? 1)%Z && negb (rs_Version s =? 2)%Z) || bool_decide (rs_Active s = None) ||
     negb (capacity_ok (rs_MaxJobs s) (rs_MaxPerRequester s) (rs_WorkerSlots s)) ||
     (rs_MaxJobs s <? Z.of_nat (size (active s)))%Z ||
     (negb (sempty (rs_LastGrantedRequesterHash s)) && negb (validReservationHex (rs_LastGrantedRequesterHash s) 64))
  then Some (Plain "admission ledger has unsupported capacity or state")
  else validateActive (rs_Version s) (rs_WorkerSlots s) (rs_MaxPerRequester s) (map_to_list (active s)) 0 ∅.

(** ** JSON form *)

Definition json_of_reservation (e : activeReservation) : jvalue :=
  JObj (js "buildName" (ar_BuildName e) ++ js "requester" (ar_Requester e) ++ jn "slots" (ar_Slots e) ++
        js_omit "grantNonce" (ar_GrantNonce e) ++ jn_omit "grantFence" (ar_GrantFence e) ++
        js_omit "grantObservedRV" (ar_GrantObservedRV e) ++ js_omit "grantReceiptUID" (ar_GrantReceiptUID e) ++
        js_omit "grantReceiptDigest" (ar_GrantReceiptDigest e) ++ jb_omit "grantCleanupReady" (ar_GrantCleanupReady e) ++
        js_omit "podAttemptNonce" (ar_PodAttemptNonce e) ++ js_omit "podTemplateDigest" (ar_PodTemplateDigest e) ++
        js_omit "podReceiptUID" (ar_PodReceiptUID e) ++ js_omit "podReceiptDigest" (ar_PodReceiptDigest e) ++
        jb_omit "podCleanupReady" (ar_PodCleanupReady e) ++ jb_omit "closing" (ar_Closing e) ++
        jl_omit "inFlight" (ar_InFlight e)).

Definition json_of_reservations (s : reservationState) : jvalue :=
  JObj (jn "version" (rs_Version s) ++ jn "fence" (rs_Fence s) ++ jn "maxJobs" (rs_MaxJobs s) ++
        jn "maxPerRequester" (rs_MaxPerRequester s) ++ jn "workerSlots" (rs_WorkerSlots s) ++
        js_omit "lastGrantedRequesterHash" (rs_LastGrantedRequesterHash s) ++
        [("active", match rs_Active s with
                    | None => JNull
                    | Some m => JObj (List.map (fun kv => (fst kv, json_of_reservation (snd kv))) (sorted_entries m))
                    end)]).

Definition encodeReservations (s : reservationState) : result string :=
  match validateReservationState s with
  | Some e => Err e
  | None =>
      let data := json_print (json_of_reservations s) in
      if (maxReservationLedgerBytes <? slen data)%Z then Err (Plain "active admission ledger exceeds bytes") else Ok data
  end.

Definition allowedReservationField : Allowed := fun path key =>
  match path with
  | [] => bool_decide (key ∈ ["version"; "fence"; "maxJobs"; "maxPerRequester"; "workerSlots"; "lastGrantedRequesterHash"; "active"])
  | [p0] => seqb p0 "active"
  | [p0; _] =>
      seqb p0 "active" &&
      bool_decide (key ∈ ["buildName"; "requester"; "slots"; "grantNonce"; "grantFence"; "grantObservedRV"; "grantReceiptUID";
        "grantReceiptDigest"; "grantCleanupReady"; "podAttemptNonce"; "podTemplateDigest"; "podReceiptUID";
        "podReceiptDigest"; "podCleanupReady"; "closing"; "inFlight"])
  | _ => false
  end.

(** A [[]string] field. *)
Definition string_list (o : option jvalue) : option (list string) :=
  match o with None => Some [] | Some (JArr l) => jstrings l | Some _ => None end.

Definition reservation_of_json (v : jvalue) : option activeReservation :=
  match v with
  | JObj l =>
      let s k := jstring (jfield l k) in
      match s "buildName", s "requester", jint64 (jfield l "slots"), s "grantNonce", juint64 (jfield l "grantFence"),
            s "grantObservedRV", s "grantReceiptUID", s "grantReceiptDigest" with
      | Some a, Some b, Some c, Some d, Some f, Some g, Some h, Some i =>
          match jbool (jfield l "grantCleanupReady"), s "podAttemptNonce", s "podTemplateDigest", s "podReceiptUID",
                s "podReceiptDigest", jbool (jfield l "podCleanupReady"), jbool (jfield l "closing"), string_list (jfield l "inFlight") with
          | Some j, Some k, Some m, Some n, Some o, Some p, Some q, Some r =>
              Some (mkReservation a b c d f g h i j k m n o p q r)
          | _, _, _, _, _, _, _, _ => None
          end
      | _, _, _, _, _, _, _, _ => None
      end
  | _ => None
  end.

Fixpoint reservation_entries_of_json (l : list (string * jvalue)) : option (list (string * activeReservation)) :=
  match l with
  | [] => Some []
  | (k, v) :: r =>
      match reservation_of_json v, reservation_entries_of_json r with
      | Some e, Some t => Some ((k, e) :: t)
      | _, _ => None
      end
  end.

Definition active_of_json (o : option jvalue) : option (option (gmap string activeReservation)) :=
  match o with
  | None => Some None
  | Some (JObj l) => match reservation_entries_of_json l with Some t => Some (Some (list_to_map t)) | None => None end
  | Some _ => None
  end.

Definition reservations_of_json (v : jvalue) : option reservationState :=
  match v with
  | JObj l =>
      match jint64 (jfield l "version"), juint64 (jfield l "fence"), jint64 (jfield l "maxJobs"),
            jint64 (jfield l "maxPerRequester"), jint64 (jfield l "workerSlots"),
            jstring (jfield l "lastGrantedRequesterHash"), active_of_json (jfield l "active") with
      | Some a, Some b, Some c, Some d, Some e, Some f, Some g => Some (mkReservations a b c d e f g)
      | _, _, _, _, _, _, _ => None
      end
  | _ => None
  end.

Definition parseReservations (raw : string) : result reservationState :=
  Decode raw allowedReservationField reservations_of_json.

Definition decodeReservations (cm : ConfigMap) : result reservationState :=
  let raw := mget (cm_data cm) reservationDataKey in
  if negb (bool_decide (size (cm_data cm) = 1)) || (slen raw =? 0)%Z || (maxReservationLedgerBytes <? slen raw)%Z ||
     negb (bool_decide (size (cm_binary cm) = 0))
  then Err (Plain "admission ledger has invalid data keys or size")
  else match parseReservations raw with
  | Err e => Err (Wrap "admission ledger is invalid" e)
  | Ok s =>
      match validateReservationState s with
      | Some e => Err (Wrap "admission ledger has unsupported state" e)
      | None => Ok s
      end
  end.

Definition validateReservationLimits (cfg : Config) (s : reservationState) : option error :=
  match ValidateReservationCapacity cfg with
  | Some e => Some e
  | None =>
      if negb (rs_MaxJobs s =? MaxActiveJobs_ cfg)%Z || negb (rs_MaxPerRequester s =? MaxActiveJobsPerRequester cfg)%Z ||
         negb (rs_WorkerSlots s =? WorkerSlots cfg)%Z
      then Some (Plain "active admission ledger limits differ from this Service replica")
      else None
  end.

Definition freshReservations (cfg : Config) : reservationState :=
  {| rs_Version := 1; rs_Fence := 0; rs_MaxJobs := MaxActiveJobs_ cfg; rs_MaxPerRequester := MaxActiveJobsPerRequester cfg;
     rs_WorkerSlots := WorkerSlots cfg; rs_LastGrantedRequesterHash := ""; rs_Active := Some ∅ |}.

Definition GenesisEmptyAdmissionData (cfg : Config) : result string :=
  encodeReservations
    {| rs_Version := 2; rs_Fence := 1; rs_MaxJobs := MaxActiveJobs_ cfg; rs_MaxPerRequester := MaxActiveJobsPerRequester cfg;
       rs_WorkerSlots := WorkerSlots cfg; rs_LastGrantedRequesterHash := ""; rs_Active := Some ∅ |}.

Definition ValidateAdmissionLedgerForGenesis (cm : ConfigMap) (cfg : Config) : option error :=
  match decodeReservations cm with
  | Err e => Some e
  | Ok s =>
      if negb (rs_Version s =? 2)%Z then Some (Plain "admission Genesis requires active ledger version 2")
      else validateReservationLimits cfg s
  end.
End ledger.
