(* ===== verification/Fixture.v ===== *)
(** * A concrete Genesis installation

    A receipt, both canonical ledger templates and the committed objects of one
    admission epoch on the reference server.  They show that the hypotheses of
    the Genesis-mode theorems hold together; the witnesses run on them. *)
From S2P Require Import Prelude GoText Json JsonFacts AdmissionJson Sha256 Types JsonSize Kube Contract Server Genesis GenesisFacts QueueReceipt QueueLedger QueueOps ActiveLedger.

Definition ex_limits : Limits := mkLimits 4 2 8 10 3.

Definition ex_contract : Contract :=
  mkContract 3 "ns-uid" "receipts" "receipts-uid" "pool-a"
    "registry/runner@sha256:1111111111111111111111111111111111111111111111111111111111111111"
    "0123456789abcdef0123456789abcdef" ActiveLedgerName 2 QueueLedgerName 2 ex_limits.

Definition ex_receipt : Receipt := mkReceipt "kova" GenesisName "genesis-uid" ex_contract.

Definition ex_config : Config :=
  mkConfig "kova" 4 2 10 3 8 "pool-a"
    "registry/runner@sha256:1111111111111111111111111111111111111111111111111111111111111111"
    "sha256:1111111111111111111111111111111111111111111111111111111111111111".

Definition ok_data (r : result string) : string := match r with Ok d => d | Err _ => "" end.

Definition ex_queue_template : LedgerTemplate :=
  mkTemplate Queue QueueLedgerDataKey (ok_data (GenesisEmptyQueueData 10 3))
    (fun cm => ValidateQueueLedgerForGenesis cm 10 3).

Definition ex_active_template : LedgerTemplate :=
  mkTemplate Active ActiveLedgerDataKey (ok_data (GenesisEmptyAdmissionData ex_config))
    (fun cm => ValidateAdmissionLedgerForGenesis cm ex_config).

Definition ex_bootstrap : Bootstrapper :=
  mkBootstrapper ex_receipt ex_active_template ex_queue_template (Ret None) None.

Definition ex_binding : Binding := mkBinding "ns-uid" "genesis-uid" "active-uid" "queue-uid".

Definition ex_guard : Guard := mkGuard 1 ex_bootstrap ex_binding None.

Lemma ex_bootstrap_valid : Bootstrapper_validate ex_bootstrap = None.
Proof. vm_compute. reflexivity. Qed.

(** ** Objects *)

Definition ex_ledger (role : Role) (uid : string) (t : LedgerTemplate) : ConfigMap :=
  match NewLedgerObject ex_receipt role (lt_DataKey t) (lt_EmptyData t) "00000000000000000000000000000000" with
  | Ok c => set_version c uid "1" (cm_data c) ∅ None
  | Err _ => mkConfigMap "" "" "" "" ∅ ∅ [] false None ∅ ∅
  end.

Definition ex_genesis : ConfigMap :=
  mkConfigMap "kova" GenesisName "genesis-uid" "1" ∅ ∅ [] false (Some true)
    {[GenesisDataKey := json_print (json_of_genesis (mkGenesisData ex_contract PhaseCommitted "active-uid" "queue-uid"))]} ∅.

Definition ex_objects : gmap okey object :=
  {[("kova", GenesisName) := mkObject true [ex_genesis];
    ("kova", ActiveLedgerName) := mkObject true [ex_ledger Active "active-uid" ex_active_template];
    ("kova", QueueLedgerName) := mkObject true [ex_ledger Queue "queue-uid" ex_queue_template]]}.

Definition ex_build : KovaBuild :=
  mkBuild "kova" "build-1" "build-uid-1" "1" ∅ ∅ [] [] 100 false
    (mkSpec (mkRequester "alice" "alice-uid") [mkTarget "registry/app:v1" "linux/amd64"]
       (mkSource "https://src/app.tgz" "sha256:2222222222222222222222222222222222222222222222222222222222222222")
       (mkOptions "oci" 3 0 "" false false []) "") "" 0 "".

Definition ex_namespaces : gmap string Namespace :=
  {["kova" := mkNamespace "kova" "ns-uid" false NamespaceActive;
    "receipts" := mkNamespace "receipts" "receipts-uid" false NamespaceActive]}.

Definition ex_cluster : cluster :=
  mkCluster ex_objects {[("kova", "build-1") := ex_build]} ex_namespaces 5.

(** The installation passes its own runtime authority check. *)
Example ex_guard_checks : fst (run (Guard_Check ex_guard) ex_cluster) = None.
Proof. vm_compute. reflexivity. Qed.

(** ** Queue stores *)

Definition ex_store : Store := mkStore true true (Some ex_guard) "kova" 10 3.
Definition ex_legacy_store : Store := mkStore true true None "kova" 10 3.

(** A legacy cluster: only the queue ledger, with no intent. *)
Definition ex_legacy_ledger : ConfigMap :=
  set_version (freshLedger ex_legacy_store (ok_data (encodeState (freshState ex_legacy_store)))) "queue-uid" "1"
    {[dataKey := ok_data (encodeState (freshState ex_legacy_store))]} ∅ None.

Definition ex_legacy_cluster : cluster :=
  mkCluster {[("kova", ConfigMapName) := mkObject true [ex_legacy_ledger]]}
    {[("kova", "build-1") := ex_build]} ex_namespaces 5.
