(* ===== verification/QueueTheorems.v ===== *)
(** * Theorems about the queue ledger

    [store_op] lists the operations of [Store]; [run_op] runs one of them.  The
    theorems hold for every server that meets [ApiServer], every operation,
    every number of replicas and every interleaving of their requests. *)
From S2P Require Import Prelude GoText Json JsonFacts AdmissionJson Sha256 Types JsonSize Kube Contract Server Genesis GenesisFacts QueueReceipt QueueLedger QueueCodec QueueOps QueueSpec ActiveLedger Fixture.

(** ** Operations and their contracts *)

Inductive store_op :=
| OpCheckReady
| OpPreflight
| OpEnsureInitialized
| OpLookup (id : string)
| OpVerify (build : KovaBuild)
| OpReserve (build : KovaBuild)
| OpPin (build : KovaBuild) (reserved : Intent) (w : ObservedQueueIntent)
| OpRelease (build : KovaBuild)
| OpReleaseRejected (id nonce : string)
| OpReleaseRejectedReceipt (build : KovaBuild) (w : ObservedQueueIntent)
| OpResume (id nonce : string).

Inductive answer :=
| ADone (e : option error)
| ALookup (r : result (option Intent))
| AReserve (r : result (Intent * bool)).

(** The steps an operation may take. *)
Definition op_kinds (op : store_op) (k : step_kind) : Prop :=
  match op, k with
  | OpEnsureInitialized, KInit => True
  | OpReserve _, KReserve => True
  | OpPin _ _ _, KPin => True
  | (OpRelease _ | OpReleaseRejectedReceipt _ _), (KMark | KRemove) => True
  | (OpReleaseRejected _ _ | OpResume _ _), KRemove => True
  | _, _ => False
  end.

Definition releases (op : store_op) : bool :=
  match op with
  | OpRelease _ | OpReleaseRejected _ _ | OpReleaseRejectedReceipt _ _ | OpResume _ _ => true
  | _ => false
  end.

Lemma op_kinds_remove op : op_kinds op KRemove -> releases op = true.
Proof. by destruct op. Qed.

Section ops.
Context `{External} (s : Store).

Definition run_op (op : store_op) : prog answer :=
  let done p := let* e := p in Ret (ADone e) in
  match op with
  | OpCheckReady => done (CheckReady s)
  | OpPreflight => done (PreflightInitialization s)
  | OpEnsureInitialized => done (EnsureInitialized s)
  | OpLookup id => let* r := Lookup s id in Ret (ALookup r)
  | OpVerify build => let* r := VerifyForBuildSnapshot s build in Ret (ALookup r)
  | OpReserve build => let* r := Reserve s build in Ret (AReserve r)
  | OpPin build e w => done (PinReceipt s build e w)
  | OpRelease build => done (ReleaseForBuild s build)
  | OpReleaseRejected id nonce => done (ReleaseRejected s id nonce)
  | OpReleaseRejectedReceipt build w => done (ReleaseRejectedReceipt s build w)
  | OpResume id nonce => done (ResumeRejectedCleanup s id nonce)
  end.

Context `{ApiServer}.

(** What a finished operation has established about the committed ledgers. *)
Definition op_post (op : store_op) (w : world) (a : answer) : Prop :=
  match op, a with
  | OpLookup id, ALookup r => forall o, r = Ok o -> exists st, committed s w st /\ intents st !! id = o
  | OpVerify build, ALookup r => verify_post s build w r
  | OpReserve build, AReserve r => reserve_post s build w r
  | OpPin build e o, ADone r => r = None -> pinned s build e o w
  | OpRelease build, ADone r => annotation build IntentAnnotation <> "" -> release_post s (kb_name build) w r
  | OpReleaseRejected id _, ADone r => release_post s id w r
  | OpReleaseRejectedReceipt build _, ADone r => release_post s (kb_name build) w r
  | OpResume id _, ADone r => release_post s id w r
  | _, _ => True
  end.

Lemma op_post_stable op w w' a : rely w w' -> op_post op w a -> op_post op w' a.
Proof.
  intros Hr. destruct op, a; simpl; try done.
  - intros Hp o Ho. destruct (Hp o Ho) as (st & Hc & Hl). exists st. split; [by eapply committed_stable|done].
  - intros Hp e He. destruct (Hp e He) as (Hs & ?). split; [by eapply seen_stable|done].
  - destruct r as [[e f]|]; [|done]. simpl. intros (Hs & ?). split; [by eapply seen_stable|done].
  - intros Hp He. eapply linked_stable; [done|]. by apply Hp.
  - intros Hp Ha He. eapply gone_stable; [done|]. by apply Hp.
  - intros Hp He. eapply gone_stable; [done|]. by apply Hp.
  - intros Hp He. eapply gone_stable; [done|]. by apply Hp.
  - intros Hp He. eapply gone_stable; [done|]. by apply Hp.
Qed.

Lemma run_op_wp (K : step_kind -> Prop) op w :
  store_ok s -> (forall k, op_kinds op k -> K k) -> wp (queueG s K) (run_op op) (op_post op) w.
Proof.
  intros Hs HK. destruct op; unfold run_op; cbv zeta; apply wp_map.
  - eapply wp_mono; [by apply CheckReady_wp|done].
  - eapply wp_mono; [by apply Preflight_wp|done].
  - eapply wp_mono; [apply EnsureInitialized_wp; [done|by apply HK]|done].
  - by apply Lookup_wp.
  - by apply VerifyForBuildSnapshot_wp.
  - apply Reserve_wp; [done|by apply HK].
  - apply PinReceipt_wp; [done|by apply HK].
  - apply ReleaseForBuild_wp; [done|by apply HK|by apply HK].
  - apply ReleaseRejected_wp; [done|by apply HK].
  - apply ReleaseRejectedReceipt_wp; [done|by apply HK|by apply HK].
  - apply ResumeRejectedCleanup_wp; [done|by apply HK].
Qed.
End ops.

(** ** Replicas *)

(** Two replicas of one installation: the same ledger, limits and mode. *)
Record replica (s s' : Store) : Prop := {
  rp_ns : s_Namespace s = s_Namespace s';
  rp_global : s_GlobalLimit s = s_GlobalLimit s';
  rp_requester : s_RequesterLimit s = s_RequesterLimit s';
  rp_mode : s_Genesis s = None <-> s_Genesis s' = None }.

#[export] Instance replica_equivalence : Equivalence replica.
Proof.
  split.
  - by intros s.
  - intros s s' [? ? ? ?]. by split.
  - intros s1 s2 s3 [? ? ? ?] [? ? ? ?]. split; [congruence|congruence|congruence|]. by etransitivity.
Qed.

Section replicas.
Context `{External}.

Lemma qualifyRead_replica s s' cm : replica s s' -> qualifyRead s cm = qualifyRead s' cm.
Proof.
  intros [_ Hg Hr Hm]. unfold qualifyRead. rewrite Hg, Hr.
  assert (bool_decide (is_Some (s_Genesis s)) = bool_decide (is_Some (s_Genesis s'))) as ->.
  { apply bool_decide_ext. rewrite <- !not_eq_None_Some. by rewrite Hm. }
  by rewrite (bool_decide_ext _ _ Hm).
Qed.

Context `{ApiServer}.

Lemma key_replica s s' : replica s s' -> key s = key s'.
Proof. intros [Hn _ _ _]. unfold key. by rewrite Hn. Qed.

Lemma effect_replica s s' K o o' : replica s s' -> ledger_effect s K o o' -> ledger_effect s' K o o'.
Proof.
  intros Hp. destruct 1 as [o|c HK Hg Hc|k c c' st st' HK Hc Hc' Hs].
  - constructor.
  - constructor; [done|by apply (rp_mode _ _ Hp)|]. unfold reads_as in *.
    rewrite <- (qualifyRead_replica s s') by done. rewrite Hc. unfold freshState.
    by rewrite (rp_global _ _ Hp), (rp_requester _ _ Hp).
  - eapply effect_step; try done; unfold reads_as; by rewrite <- (qualifyRead_replica s s').
Qed.

#[export] Instance queueG_replica : Proper (replica ==> eq ==> eq ==> eq ==> iff) queueG.
Proof.
  assert (Hi : forall s s' K w w', replica s s' -> queueG s K w w' -> queueG s' K w w').
  { intros s s' K w w' Hp [He Hv]. unfold queueG. rewrite <- (key_replica s s') by done.
    split; [by eapply effect_replica|done]. }
  intros s s' Hp K ? <- w ? <- w' ? <-. split; [by apply Hi|]. apply Hi. by symmetry.
Qed.

#[export] Instance committed_replica : Proper (replica ==> eq ==> eq ==> iff) committed.
Proof.
  intros s s' Hp w ? <- st ? <-. unfold committed, reads_as.
  rewrite (key_replica s s') by done. by setoid_rewrite (qualifyRead_replica s s').
Qed.

(** ** Pools of replicas *)

(** A running installation: each thread is one operation of one replica. *)
Definition thread : Type := Store * store_op.
Definition start (t : thread) : prog answer := run_op (fst t) (snd t).

Definition installation (s : Store) (ts : list thread) : Prop :=
  Forall (fun t => replica s (fst t) /\ store_ok (fst t)) ts.

Lemma start_wp s K t w :
  replica s (fst t) -> store_ok (fst t) -> (forall k, op_kinds (snd t) k -> K k) ->
  wp (queueG s K) (start t) (op_post (fst t) (snd t)) w.
Proof.
  intros Hp Hs HK. eapply wp_weaken; [|by apply run_op_wp]. intros w1 w2 _ HG. by rewrite Hp.
Qed.

(** Every interleaving: each request is an allowed ledger step of what is
    committed, and each finished operation has met its contract. *)
Lemma installation_sound s (K : step_kind -> Prop) ts w w' ps :
  installation s ts -> (forall t k, t ∈ ts -> op_kinds (snd t) k -> K k) ->
  pool_steps (w, start <$> ts) (w', ps) ->
  rely w w' /\
  (forall i t a, ts !! i = Some t -> ps !! i = Some (Ret a) -> op_post (fst t) (snd t) w' a) /\
  (forall I : world -> Prop, (forall w1 w2, I w1 -> rely w1 w2 -> queueG s K w1 w2 -> I w2) -> I w -> I w').
Proof.
  intros Hi HK Hps.
  set (Q := fun (i : nat) (w : world) (a : answer) => forall t, ts !! i = Some t -> op_post (fst t) (snd t) w a).
  destruct (pool_sound (queueG s K) Q w (start <$> ts) w' ps) as (Hr & Hw & HI); [| |done|].
  - intros i w1 w2 a Hr HQ t Ht. eapply op_post_stable; [done|]. by apply HQ.
  - intros i p Hp. rewrite list_lookup_fmap in Hp. apply fmap_Some in Hp as (t & Ht & ->).
    eapply Forall_lookup_1 in Hi as [Hp Hs]; [|exact Ht].
    eapply wp_mono; [apply start_wp; [done|done|]|].
    + intros k. apply HK. by eapply list_elem_of_lookup_2.
    + intros w1 a _ Ha t' Ht'. by pose proof (eq_trans (eq_sym Ht) Ht') as [= <-].
  - split; [done|]. split; [|done]. intros i t a Ht Ha. exact (Hw _ _ Ha t Ht).
Qed.

(** ** Invariants *)

(** The current ledger, if any, is well formed and within its limits. *)
Definition ledger_live (s : Store) (w : world) : Prop :=
  forall c, cm_now w (key s) = Some c -> exists st, reads_as s c st.

Lemma ledger_live_step s K w w' : ledger_live s w -> queueG s K w w' -> ledger_live s w'.
Proof.
  intros Hl [He _] c Hc. rewrite Hc in He.
  inversion He as [o Ho Ho'|c' HK Hg Hr Ho Ho'|k c0 c' st st' HK Hr Hr' Hs Ho Ho']; subst.
  - by apply Hl.
  - by eexists.
  - by eexists.
Qed.

(** What a request may do to an intent: its identity never changes, its receipt
    link and its cleanup disposition are written once. *)
Record advances (e e' : Intent) : Prop := {
  adv_identity : identity e' = identity e;
  adv_link : it_ReceiptUID e <> "" -> it_ReceiptUID e' = it_ReceiptUID e /\ it_ReceiptDigest e' = it_ReceiptDigest e;
  adv_cleanup : it_CleanupKind e <> "" -> it_CleanupKind e' = it_CleanupKind e }.

Lemma advances_refl e : advances e e.
Proof. by split. Qed.

Lemma ledger_step_advances st k st' id e e' :
  ledger_step st k st' -> intents st !! id = Some e -> intents st' !! id = Some e' -> advances e e'.
Proof.
  assert (Hput : forall id0 e0 e0', intents st !! id0 = Some e0 -> advances e0 e0' ->
    intents st !! id = Some e -> <[id0 := e0']> (intents st) !! id = Some e' -> advances e e').
  { intros id0 e0 e0' Hl0 Ha He. rewrite lookup_insert_Some. intros [[-> ->]|[_ He']].
    - by simplify_eq.
    - simplify_eq. apply advances_refl. }
  destruct 1 as [id0 e0 Hn|id0 e0 uid d Hl0 Hu Hc|id0 e0 kind Hl0 Hu Hc|id0 e0 Hl0]; rewrite ?intents_put, ?intents_remove; intros He.
  - rewrite lookup_insert_ne by congruence. intros He'. simplify_eq. apply advances_refl.
  - eapply Hput; [done| |done]. by split.
  - eapply Hput; [done| |done]. by split.
  - rewrite lookup_delete_Some. intros [_ He']. simplify_eq. apply advances_refl.
Qed.

Lemma ledger_step_keeps st k st' id e :
  ledger_step st k st' -> k <> KRemove -> intents st !! id = Some e -> is_Some (intents st' !! id).
Proof.
  destruct 1; intros Hk He; rewrite ?intents_put; try done; apply lookup_insert_is_Some; destruct (decide (id0 = id)); eauto.
Qed.

(** Every committed reading of [id] has the identity of the current one. *)
Definition one_owner (s : Store) (id : string) (w : world) : Prop :=
  forall st e, committed s w st -> intents st !! id = Some e ->
    exists c st' e', cm_now w (key s) = Some c /\ reads_as s c st' /\ intents st' !! id = Some e' /\ identity e' = identity e.

Lemma reads_as_functional s c st st' : reads_as s c st -> reads_as s c st' -> st = st'.
Proof. unfold reads_as. congruence. Qed.

Lemma one_owner_step s id K w w' :
  ~ K KRemove -> one_owner s id w -> queueG s K w w' -> one_owner s id w'.
Proof.
  intros HK Ho [He Hv] st e (rv & c & Hc & Hr) Hl. destruct (Hv _ _ Hc) as [Hold|Hnew].
  2:{ by exists c, st, e. }
  destruct (Ho st e) as (c0 & st0 & e0 & Hn & Hr0 & Hl0 & Hi); [by exists rv, c|done|].
  rewrite Hn in He.
  inversion He as [o Eo Eo'|c' ? ? ? Eo Eo'|k c1 c' st1 st1' HK1 Hr1 Hr1' Hs1 Eo Eo'].
  - exists c0, st0, e0. by split_and!.
  - subst c1. assert (st1 = st0) as -> by (by eapply reads_as_functional).
    destruct (ledger_step_keeps _ _ _ _ _ Hs1 ltac:(by intros ->) Hl0) as [e1 He1].
    exists c', st1', e1. split_and!; try done.
    destruct (ledger_step_advances _ _ _ _ _ _ Hs1 Hl0 He1) as [Hid _ _]. congruence.
Qed.
End replicas.

(** ** Abstract steps keep the invariant *)

Lemma requesterCount_entries m r : requesterCount m r = requesterEntries r (map_to_list m).
Proof.
  unfold requesterCount. induction (map_to_list m) as [|[k e] l IH]; simpl; [done|].
  destruct (seqb (it_RequesterHash e) r); simpl; lia.
Qed.

Lemma entries_insert (m : gmap string Intent) id e r :
  m !! id = None ->
  requesterEntries r (map_to_list (<[id := e]> m)) =
  ((if seqb (it_RequesterHash e) r then 1 else 0) + requesterEntries r (map_to_list m))%Z.
Proof. intros Hn. by rewrite map_to_list_insert. Qed.

Lemma entries_delete (m : gmap string Intent) id e r :
  m !! id = Some e ->
  requesterEntries r (map_to_list m) =
  ((if seqb (it_RequesterHash e) r then 1 else 0) + requesterEntries r (map_to_list (delete id m)))%Z.
Proof.
  intros Hl. rewrite <- (insert_delete_id m id e Hl) at 1. apply entries_insert, lookup_delete_eq.
Qed.

Section preserve.
Context `{External}.

Lemma ledgerOK_reserve st id e :
  ledgerOK st -> intents st !! id = None -> goodEntry (st_Version st) (id, e) ->
  (Z.of_nat (size (intents st)) < st_GlobalLimit st)%Z ->
  (requesterCount (intents st) (it_RequesterHash e) < st_RequesterLimit st)%Z ->
  ledgerOK (put st id e).
Proof.
  intros [Hv _ Hg Hr Hsz He Hs] Hn Hgood Hlt Hcount. rewrite requesterCount_entries in Hcount.
  split; try done; rewrite ?intents_put.
  - by eexists.
  - rewrite map_size_insert_None by done. simpl. lia.
  - intros id' e'. rewrite lookup_insert_Some. intros [[<- <-]|[_ Hl]]; [done|by apply He].
  - intros r. rewrite entries_insert by done. simpl. specialize (Hs r). unfold seqb.
    case_bool_decide; subst; lia.
Qed.

(** Replacing an entry by another of the same requester. *)
Lemma ledgerOK_replace st id e e' :
  ledgerOK st -> intents st !! id = Some e -> goodEntry (st_Version st) (id, e') ->
  it_RequesterHash e' = it_RequesterHash e -> ledgerOK (put st id e').
Proof.
  intros [Hv _ Hg Hr Hsz He Hs] Hl Hgood Heq. split; try done; rewrite ?intents_put.
  - by eexists.
  - rewrite map_size_insert_Some by eauto. done.
  - intros id' e0. rewrite lookup_insert_Some. intros [[<- <-]|[_ Hl']]; [done|by apply He].
  - intros r. rewrite <- insert_delete_eq, entries_insert by (apply lookup_delete_eq).
    rewrite Heq. rewrite <- (entries_delete (intents st) id e r Hl). apply Hs.
Qed.

Lemma ledgerOK_remove st id e : ledgerOK st -> intents st !! id = Some e -> ledgerOK (remove st id).
Proof.
  intros [Hv _ Hg Hr Hsz He Hs] Hl. split; try done; rewrite ?intents_remove.
  - by eexists.
  - rewrite map_size_delete_Some by eauto. simpl. lia.
  - intros id' e0. rewrite lookup_delete_Some. intros [_ Hl']. by apply He.
  - intros r. specialize (Hs r). rewrite (entries_delete (intents st) id e r Hl) in Hs. simpl.
    destruct (seqb (it_RequesterHash e) r); lia.
Qed.

Lemma hex_valid s n : slen s = n -> str_forallb is_lower_hex s = true -> validLowerHex s n = true.
Proof. intros Hn Hh. unfold validLowerHex. rewrite Hn, Hh, Z.eqb_refl. done. Qed.

(** The entry [Reserve] proposes is well formed in both ledger versions. *)
Lemma proposed_good version build n now :
  IsDNS1123Subdomain (kb_name build) = true -> (slen (kb_name build) <= 253)%Z -> (1 <= now)%Z ->
  goodEntry version (kb_name build, proposedIntent build (nonce_of n) now).
Proof.
  intros Hd Hlen Hnow. split; simpl.
  - unfold invalidIntent. cbn [fst snd proposedIntent it_RequesterHash it_RequestDigest it_Nonce it_CreatedAtUnix]. rewrite Hd.
    pose proof (dns1123_subdomain_nonempty _ Hd) as Hne.
    assert (0 < slen (kb_name build))%Z by (destruct (kb_name build); [done|unfold slen; simpl; lia]).
    rewrite (hex_valid (HashRequester _) 64), (hex_valid (DigestBuild _) 64), (hex_valid (nonce_of n) 32).
    + simpl. rewrite !orb_false_r. repeat apply orb_false_intro; lia.
    + unfold slen. by rewrite nonce_of_length.
    + apply nonce_of_lower.
    + unfold slen, DigestBuild. by rewrite sha256_hex_length.
    + apply sha256_hex_lower.
    + unfold slen, HashRequester. by rewrite sha256_hex_length.
    + apply sha256_hex_lower.
  - unfold invalidLink. simpl. by destruct (version =? 1)%Z.
Qed.

Lemma link_good version id e uid digest :
  version <> 1%Z -> goodEntry version (id, e) -> it_CleanupKind e = "" ->
  validReceiptUID uid = true -> validDigest digest = true -> goodEntry version (id, with_link e uid digest).
Proof.
  intros Hv [Hi _] Hc Hu Hd. split; [exact Hi|]. unfold invalidLink. simpl. rewrite Hc, Hu, Hd.
  assert (uid <> "") by (intros ->; done). assert (digest <> "") by (intros ->; done).
  unfold sempty. rewrite !(bool_decide_eq_false_2 (_ = "")) by done. simpl.
  by destruct (Z.eqb_spec version 1).
Qed.

Lemma mark_good version id e kind :
  version <> 1%Z -> goodEntry version (id, e) -> it_ReceiptUID e <> "" -> cleanupKindOK kind = true ->
  goodEntry version (id, with_cleanup e kind).
Proof.
  intros Hv [Hi Hl] Hu Hk. split; [exact Hi|]. unfold invalidLink in *. simpl in *. unfold sempty in *.
  rewrite (bool_decide_eq_false_2 (it_ReceiptUID e = "")) in * by done. simpl in *.
  rewrite Hk. destruct (Z.eqb_spec version 1); [done|]. simpl in *. rewrite andb_false_r, orb_false_r.
  apply orb_false_iff in Hl as [Hl _]. exact Hl.
Qed.

(** The arguments the operations pass: a proposed intent, and receipt steps on a
    version 2 ledger only. *)
Definition well_formed_step (st : state) (k : step_kind) (st' : state) : Prop :=
  match k with
  | KReserve => exists build n now,
      IsDNS1123Subdomain (kb_name build) = true /\ (slen (kb_name build) <= 253)%Z /\ (1 <= now < 2 ^ 63)%Z /\
      intents st !! kb_name build = None /\
      st' = put st (kb_name build) (proposedIntent build (nonce_of n) now)
  | KPin | KMark => st_Version st = 2%Z
  | _ => True
  end.

Lemma put_inj st id e id' e' :
  put st id e = put st id' e' -> intents st !! id = None -> intents st !! id' = None -> id = id' /\ e = e'.
Proof.
  intros Hp Hn Hn'. assert (Hi : intents (put st id e) = intents (put st id' e')) by (by rewrite Hp).
  rewrite !intents_put in Hi.
  assert (Hl : <[id' := e']> (intents st) !! id = Some e) by (rewrite <- Hi; apply lookup_insert_eq).
  apply lookup_insert_Some in Hl as [[-> ->]|[_ Hl]]; [done|congruence].
Qed.

Lemma step_preserves st k st' :
  ledgerOK st -> int64State st -> ledger_step st k st' -> well_formed_step st k st' -> ledgerOK st' /\ int64State st'.
Proof.
  intros Hok Hi Hs. destruct Hs as [id e Hn Hu Hg Hr|id e uid d Hl Hu Hc Hvu Hvd|id e kind Hl Hu Hc Hk|id e Hl _]; simpl.
  - intros (build & n & now & Hd & Hlen & Hnow & Hn' & Hput).
    destruct (put_inj _ _ _ _ _ Hput Hn Hn') as [-> ->]. split.
    + apply ledgerOK_reserve; try done. apply proposed_good; try done. lia.
    + apply int64_put; [done|]. simpl. lia.
  - intros Hv. split.
    + eapply ledgerOK_replace; [done|done| |done]. apply link_good; try done; [lia|by apply (ok_entries st Hok)].
    + apply int64_put; [done|]. exact (Hi _ _ Hl).
  - intros Hv. split.
    + eapply ledgerOK_replace; [done|done| |done]. apply mark_good; try done; [lia|by apply (ok_entries st Hok)].
    + apply int64_put; [done|]. exact (Hi _ _ Hl).
  - intros _. split; [by eapply ledgerOK_remove|by apply int64_remove].
Qed.
End preserve.

(** ** Claims *)

Section claims.
Context `{External} `{ApiServer}.
Implicit Types (s : Store) (op : store_op) (w : world).

Lemma run_op_guarantee s op w (G : world -> world -> Prop) :
  store_ok s -> (forall w1 w2, queueG s (op_kinds op) w1 w2 -> G w1 w2) ->
  wp G (run_op s op) (fun _ _ => True) w.
Proof.
  intros Hs HG. eapply wp_weaken; [|eapply wp_mono; [by apply (run_op_wp s (op_kinds op))|done]]. eauto.
Qed.

(** An abstract step between the current readings of two worlds. *)
Lemma queueG_between s K w w' c c' st st' :
  queueG s K w w' -> cm_now w (key s) = Some c -> reads_as s c st ->
  cm_now w' (key s) = Some c' -> reads_as s c' st' ->
  st' = st \/ exists k, K k /\ ledger_step st k st'.
Proof.
  intros [He _] Hc Hr Hc' Hr'. rewrite Hc, Hc' in He.
  inversion He as [o Eo Eo'|c0 ? ? ? Eo Eo'|k c0 c0' s0 s0' HK Hr0 Hr0' Hs Eo Eo']; subst.
  - left. by eapply reads_as_functional.
  - right. exists k. assert (s0 = st) as -> by (by eapply reads_as_functional).
    by assert (s0' = st') as -> by (by eapply reads_as_functional).
Qed.

(** C3: Refinement.  Whatever other clients do between any two of its requests,
    every request of every [Store] operation either leaves the ledger object
    alone or replaces the version committed at that moment by one abstract
    ledger step of a kind that operation is entitled to, and the operation's
    result tells the truth about committed ledger versions. *)
Theorem store_operation_refines s op w :
  store_ok s -> wp (queueG s (op_kinds op)) (run_op s op) (op_post s op) w.
Proof. intros Hs. by apply run_op_wp. Qed.

(** C4: Capacity.  For any number of replicas of one installation running any
    operations in any interleaving, the current ledger is always readable by
    every replica, holds at most [GlobalLimit] intents and at most
    [RequesterLimit] of one requester. *)
Theorem replicas_stay_within_limits s ts w w' ps c :
  installation s ts -> ledger_live s w -> pool_steps (w, start <$> ts) (w', ps) -> cm_now w' (key s) = Some c ->
  exists st, (forall t, t ∈ ts -> reads_as (fst t) c st) /\
    (Z.of_nat (size (intents st)) <= s_GlobalLimit s)%Z /\
    (forall r, (requesterCount (intents st) r <= s_RequesterLimit s)%Z).
Proof.
  intros Hi Hl Hp Hc. destruct (installation_sound s (fun _ => True) ts w w' ps) as (_ & _ & HI); [done|done|done|].
  destruct (HI (ledger_live s)) with (c := c) as (st & Hst); [|done|done|].
  { intros w1 w2 Hl1 _. by apply ledger_live_step. }
  exists st. pose proof Hst as (st' & [= <-] & _ & _ & Lg & Lr & _ & Hok)%qualifyRead_inv. split_and!.
  - intros t Ht. eapply Forall_forall in Hi as [Hrep _]; [|exact Ht]. unfold reads_as.
    by rewrite <- (qualifyRead_replica s).
  - rewrite <- Lg. apply (ok_size st Hok).
  - intros r. rewrite requesterCount_entries, <- Lr. apply (ok_share st Hok).
Qed.

(** C7: One owner per name.  While no replica releases intents, all [Reserve]
    calls that succeed for one build name, on all replicas and in every
    interleaving, return the same requester, request digest, nonce and creation
    time: two different random nonces are never both accepted. *)
Theorem reserve_has_one_owner s ts w w' ps id i j t1 t2 b1 b2 e1 e2 f1 f2 :
  installation s ts -> (forall t, t ∈ ts -> releases (snd t) = false) ->
  (forall st, committed s w st -> intents st !! id = None) ->
  pool_steps (w, start <$> ts) (w', ps) ->
  ts !! i = Some (t1, OpReserve b1) -> kb_name b1 = id -> ps !! i = Some (Ret (AReserve (Ok (e1, f1)))) ->
  ts !! j = Some (t2, OpReserve b2) -> kb_name b2 = id -> ps !! j = Some (Ret (AReserve (Ok (e2, f2)))) ->
  identity e1 = identity e2.
Proof.
  intros Hi Hrel Hnone Hp H1 E1 R1 H2 E2 R2.
  destruct (installation_sound s (fun k => k <> KRemove) ts w w' ps) as (_ & HQ & HI); [done| |done|].
  { intros t k Ht Hk ->. apply op_kinds_remove in Hk. rewrite (Hrel t Ht) in Hk. done. }
  assert (Ho : one_owner s id w').
  { apply HI.
    - intros w1 w2 Hw1 _. apply one_owner_step; [by intros Hn; apply Hn|done].
    - intros st e Hst He. rewrite (Hnone st Hst) in He. done. }
  assert (Hseen : forall i t b e f, ts !! i = Some (t, OpReserve b) -> kb_name b = id ->
            ps !! i = Some (Ret (AReserve (Ok (e, f)))) -> exists c st e', cm_now w' (key s) = Some c /\
            reads_as s c st /\ intents st !! id = Some e' /\ identity e' = identity e).
  { intros i0 t b e f Ht Eb Ha. destruct (HQ _ _ _ Ht Ha) as ((st & Hst & Hl) & _). simpl in Hst, Hl. rewrite Eb in Hl.
    apply (Ho st e); [|done]. eapply Forall_lookup_1 in Hi as [Hrep _]; [|exact Ht]. by rewrite Hrep. }
  destruct (Hseen _ _ _ _ _ H1 E1 R1) as (c & st & e & Hc & Hr & Hl & <-).
  destruct (Hseen _ _ _ _ _ H2 E2 R2) as (c' & st' & e' & Hc' & Hr' & Hl' & <-).
  simplify_eq. assert (st = st') as -> by (by eapply reads_as_functional). by simplify_eq.
Qed.

(** Written once.  No request of any operation changes the requester, digest,
    nonce or creation time of an intent that stays in the ledger, nor a receipt
    link or a cleanup disposition that is already set. *)
Theorem intents_advance s op w :
  store_ok s ->
  wp (fun w1 w2 => forall c c' st st' id e e', cm_now w1 (key s) = Some c -> reads_as s c st ->
        cm_now w2 (key s) = Some c' -> reads_as s c' st' ->
        intents st !! id = Some e -> intents st' !! id = Some e' -> advances e e')
    (run_op s op) (fun _ _ => True) w.
Proof.
  intros Hs. apply run_op_guarantee; [done|]. intros w1 w2 HG c c' st st' id e e' Hc Hr Hc' Hr' Hl Hl'.
  destruct (queueG_between _ _ _ _ _ _ _ _ HG Hc Hr Hc' Hr') as [->|(k & _ & Hk)].
  - simplify_eq. apply advances_refl.
  - by eapply ledger_step_advances.
Qed.

(** Receipted removal.  With a Genesis guard, a request removes an intent only
    if that intent is linked to its receipt and carries a durable cleanup
    disposition at the moment of the removal. *)
Theorem genesis_removal_is_receipted s op w :
  store_ok s -> s_Genesis s <> None ->
  wp (fun w1 w2 => forall c c' st st' id e, cm_now w1 (key s) = Some c -> reads_as s c st ->
        cm_now w2 (key s) = Some c' -> reads_as s c' st' ->
        intents st !! id = Some e -> intents st' !! id = None ->
        it_ReceiptUID e <> "" /\ cleanupKindOK (it_CleanupKind e) = true)
    (run_op s op) (fun _ _ => True) w.
Proof.
  intros Hs Hg. apply run_op_guarantee; [done|]. intros w1 w2 HG c c' st st' id e Hc Hr Hc' Hr' Hl Hl'.
  pose proof Hr as (st0 & [= <-] & _ & _ & _ & _ & Hv & Hok)%qualifyRead_inv. rewrite decide_False in Hv by done.
  destruct (queueG_between _ _ _ _ _ _ _ _ HG Hc Hr Hc' Hr') as [->|(k & _ & Hk)]; [congruence|].
  pose proof (ok_entries st Hok id e Hl) as [_ Hlink]. unfold invalidLink in Hlink. simpl in Hlink.
  apply orb_false_iff in Hlink as [_ Hlink].
  destruct Hk as [id0 e0 Hn|id0 e0 uid d Hl0|id0 e0 kind Hl0|id0 e0 Hl0 H2]; rewrite ?intents_put, ?intents_remove in Hl'.
  - apply lookup_insert_None in Hl' as [? _]. congruence.
  - apply lookup_insert_None in Hl' as [? _]. congruence.
  - apply lookup_insert_None in Hl' as [? _]. congruence.
  - apply lookup_delete_None in Hl' as [->|?]; [|congruence]. simplify_eq. destruct (H2 Hv) as [Hu Hck].
    split; [done|]. unfold sempty in Hlink. rewrite (bool_decide_eq_false_2 (it_CleanupKind e = "")) in Hlink by done.
    rewrite (bool_decide_eq_false_2 (it_ReceiptUID e = "")) in Hlink by done. simpl in Hlink. by apply negb_false_iff in Hlink.
Qed.

(** Writable steps.  Every abstract step that the guards of the operations
    admit, with the arguments they pass, keeps the ledger invariant; its JSON fits
    the 768 KiB limit and reads back as the same state. *)
Theorem admitted_steps_are_writable st k st' :
  ledgerOK st -> int64State st -> ledger_step st k st' -> well_formed_step st k st' ->
  ledgerOK st' /\ exists data0, encodeState st' = Ok data0 /\ (slen data0 <= maxLedgerBytes)%Z /\ decodeState data0 = Ok st'.
Proof.
  intros Hok Hi Hs Hw. destruct (step_preserves _ _ _ Hok Hi Hs Hw) as [Hok' Hi']. split; [done|].
  exists (json_print (json_of_state st')). split_and!.
  - by apply encodeState_fits.
  - pose proof (state_len st' Hok' Hi'). pose proof (ok_global st' Hok').
    unfold maxLedgerBytes, maxHeaderBytes, maxIntentBytes in *. lia.
  - by apply decodeState_print.
Qed.

(** Validation.  [validateState] accepts exactly the ledgers that satisfy the
    capacity and shape invariant, and its verdict does not depend on the order in
    which Go ranges over the intent map. *)
Theorem validateState_decides st l :
  l ≡ₚ map_to_list (intents st) ->
  (validateState st = None <-> ledgerOK st) /\
  (validateState st = None -> validateEntries (st_Version st) (st_RequesterLimit st) l ∅ = None) /\
  (validateEntries (st_Version st) (st_RequesterLimit st) l ∅ = None ->
   validateEntries (st_Version st) (st_RequesterLimit st) (map_to_list (intents st)) ∅ = None).
Proof.
  intros Hl. split; [apply validateState_ok|]. split.
  - intros Hv. apply (validateEntries_order _ _ (map_to_list (intents st))); [done|].
    unfold validateState in Hv. by destruct (_ || _).
  - by apply validateEntries_order.
Qed.
End claims.

(** ** Witnesses: two Genesis replicas reserve the same build *)

Lemma ex_store_ok : store_ok ex_store.
Proof. split; [apply ex_bootstrap_valid|done]. Qed.

Lemma store_operation_refines_witness :
  store_ok ex_store /\
  wp (queueG ex_store (op_kinds (OpReserve ex_build))) (run_op ex_store (OpReserve ex_build))
    (op_post ex_store (OpReserve ex_build)) (ex_cluster : world).
Proof.
  split; [exact ex_store_ok|].
  exact (store_operation_refines ex_store (OpReserve ex_build) ex_cluster ex_store_ok).
Defined.

Definition ex_threads : list thread := [(ex_store, OpReserve ex_build); (ex_store, OpReserve ex_build)].

Lemma ex_installation : installation ex_store ex_threads.
Proof. repeat constructor; simpl; done || apply ex_store_ok. Qed.

Definition ex_after1 : answer * cluster := run (run_op ex_store (OpReserve ex_build)) ex_cluster.
Definition ex_after2 : answer * cluster := run (run_op ex_store (OpReserve ex_build)) (snd ex_after1).
Definition ex_final : list (prog answer) := [Ret (fst ex_after1); Ret (fst ex_after2)].

Lemma ex_pool : pool_steps (ex_cluster, start <$> ex_threads) (snd ex_after2, ex_final).
Proof.
  exact (run_two (run_op ex_store (OpReserve ex_build)) (run_op ex_store (OpReserve ex_build)) ex_cluster).
Qed.

Definition ex_queue_empty : state := mkState 2 10 3 (Some ∅).

Lemma ex_queue_reads : reads_as ex_store (ex_ledger Queue "queue-uid" ex_queue_template) ex_queue_empty.
Proof. vm_compute. reflexivity. Qed.

Lemma ex_committed st : committed ex_store (ex_cluster : world) st -> st = ex_queue_empty.
Proof.
  intros (rv & c & Hv & Hr).
  assert (c = ex_ledger Queue "queue-uid" ex_queue_template) as ->.
  { change (find_version [ex_ledger Queue "queue-uid" ex_queue_template] rv = Some c) in Hv. simpl in Hv.
    by case_decide; simplify_eq. }
  eapply reads_as_functional; [exact Hr|exact ex_queue_reads].
Qed.

Lemma ex_live : ledger_live ex_store (ex_cluster : world).
Proof.
  intros c Hc. exists ex_queue_empty.
  change (Some (ex_ledger Queue "queue-uid" ex_queue_template) = Some c) in Hc. injection Hc as <-. exact ex_queue_reads.
Qed.

Definition ex_final_ledger : ConfigMap :=
  default ex_genesis (now (snd ex_after2) (key ex_store)).

Lemma ex_final_now : cm_now (snd ex_after2 : world) (key ex_store) = Some ex_final_ledger.
Proof. vm_compute. reflexivity. Qed.

Lemma replicas_stay_within_limits_witness :
  exists st, (forall t, t ∈ ex_threads -> reads_as (fst t) ex_final_ledger st) /\
    (Z.of_nat (size (intents st)) <= s_GlobalLimit ex_store)%Z /\
    (forall r, (requesterCount (intents st) r <= s_RequesterLimit ex_store)%Z).
Proof.
  exact (replicas_stay_within_limits ex_store ex_threads ex_cluster (snd ex_after2) ex_final ex_final_ledger
           ex_installation ex_live ex_pool ex_final_now).
Defined.

Definition ex_intent : Intent :=
  proposedIntent ex_build "00000000000000000000000000000005" 1700000000.

Lemma reserve_has_one_owner_witness : identity ex_intent = identity ex_intent.
Proof.
  refine (reserve_has_one_owner ex_store ex_threads ex_cluster (snd ex_after2) ex_final "build-1" 0 1 ex_store ex_store
    ex_build ex_build ex_intent ex_intent true false ex_installation _ _ ex_pool eq_refl eq_refl _ eq_refl eq_refl _).
  - intros t [->|[->|[]%elem_of_nil]%elem_of_cons]%elem_of_cons; done.
  - by intros st ->%ex_committed.
  - vm_compute. reflexivity.
  - vm_compute. reflexivity.
Defined.

Lemma intents_advance_witness :
  store_ok ex_store /\
  wp (fun w1 w2 => forall c c' st st' id e e', cm_now w1 (key ex_store) = Some c -> reads_as ex_store c st ->
        cm_now w2 (key ex_store) = Some c' -> reads_as ex_store c' st' ->
        intents st !! id = Some e -> intents st' !! id = Some e' -> advances e e')
    (run_op ex_store (OpReserve ex_build)) (fun _ _ => True) (ex_cluster : world).
Proof. split; [exact ex_store_ok|]. exact (intents_advance ex_store (OpReserve ex_build) ex_cluster ex_store_ok). Defined.

Lemma genesis_removal_is_receipted_witness :
  store_ok ex_store /\ s_Genesis ex_store <> None /\
  wp (fun w1 w2 => forall c c' st st' id e, cm_now w1 (key ex_store) = Some c -> reads_as ex_store c st ->
        cm_now w2 (key ex_store) = Some c' -> reads_as ex_store c' st' ->
        intents st !! id = Some e -> intents st' !! id = None ->
        it_ReceiptUID e <> "" /\ cleanupKindOK (it_CleanupKind e) = true)
    (run_op ex_store (OpRelease ex_build)) (fun _ _ => True) (ex_cluster : world).
Proof.
  split; [exact ex_store_ok|]. split; [done|].
  exact (genesis_removal_is_receipted ex_store (OpRelease ex_build) (ex_cluster : world) ex_store_ok ltac:(discriminate)).
Defined.

Lemma ex_empty_ok : ledgerOK ex_queue_empty /\ int64State ex_queue_empty.
Proof. split; [apply validateState_ok; vm_compute; reflexivity|]. by intros id e. Qed.

Lemma admitted_steps_are_writable_witness :
  ledgerOK (put ex_queue_empty "build-1" (proposedIntent ex_build (nonce_of 5) 1700000000)) /\
  exists data0, encodeState (put ex_queue_empty "build-1" (proposedIntent ex_build (nonce_of 5) 1700000000)) = Ok data0 /\
    (slen data0 <= maxLedgerBytes)%Z /\
    decodeState data0 = Ok (put ex_queue_empty "build-1" (proposedIntent ex_build (nonce_of 5) 1700000000)).
Proof.
  apply (admitted_steps_are_writable ex_queue_empty KReserve); [apply ex_empty_ok|apply ex_empty_ok| |].
  - apply step_reserve; [reflexivity|done| |]; vm_compute; reflexivity.
  - exists ex_build, 5%N, 1700000000%Z. split_and!; vm_compute; congruence.
Defined.

Lemma validateState_decides_witness :
  (validateState ex_queue_empty = None <-> ledgerOK ex_queue_empty) /\
  (validateState ex_queue_empty = None -> validateEntries 2 3 [] ∅ = None) /\
  (validateEntries 2 3 [] ∅ = None -> validateEntries 2 3 (map_to_list (intents ex_queue_empty)) ∅ = None).
Proof. apply (validateState_decides ex_queue_empty []). reflexivity. Defined.
