(* ===== verification/StrictTheorems.v ===== *)
(** * What strict decoding and the Genesis documents promise

    [Decode] accepts exactly the documents of a declarative grammar (of string
    literals and of members) that the typed decoding takes; a receipt and a Genesis
    proposal read back as what was written. *)
From S2P Require Import Prelude GoText Json JsonFacts AdmissionJson Sha256 Types JsonSize Kube Contract Server Genesis GenesisFacts Fixture.

(** ** The strict grammar *)

Section strict.
Context (allowed : Allowed).

(** A value at a path and depth: no null, no unknown or duplicate member, at most
    five levels; array elements keep the path of their array. *)
Inductive strict : list string -> Z -> jvalue -> Prop :=
| strict_bool path d b : (d <= 5)%Z -> strict path d (JBool b)
| strict_num path d s : (d <= 5)%Z -> strict path d (JNum s)
| strict_str path d s : (d <= 5)%Z -> strict path d (JStr s)
| strict_arr path d l : (d <= 5)%Z -> (forall v, v ∈ l -> strict path (d + 1) v) -> strict path d (JArr l)
| strict_obj path d l : (d <= 5)%Z -> NoDup l.*1 -> (forall k, k ∈ l.*1 -> allowed path k = true) ->
    (forall k v, (k, v) ∈ l -> strict (path ++ [k]) (d + 1) v) -> strict path d (JObj l).

Definition checks (v : jvalue) : Prop :=
  forall path d, checkValue v path allowed d = None <-> strict path d v.

Lemma depth_iff d v path (body : option error) :
  (strict path d v -> (d <= 5)%Z) -> ((d <= 5)%Z -> (body = None <-> strict path d v)) ->
  ((if (5 <? d)%Z then Some (Plain "admission JSON exceeds nesting limit") else body) = None <-> strict path d v).
Proof. intros H1 H2. destruct (Z.ltb_spec 5 d); [|apply H2; lia]. split; [done|]. intros ?%H1. lia. Qed.

Lemma strict_depth path d v : strict path d v -> (d <= 5)%Z.
Proof. by destruct 1. Qed.

(** The element loop of [checkValue] under a name. *)
Definition checkElems (path : list string) (d : Z) :=
  fix elems (l : list jvalue) : option error :=
    match l with
    | [] => None
    | x :: r => match checkValue x path allowed (d + 1) with Some e => Some e | None => elems r end
    end.

Lemma checkValue_arr l path d :
  checkValue (JArr l) path allowed d =
  if (5 <? d)%Z then Some (Plain "admission JSON exceeds nesting limit") else checkElems path d l.
Proof. reflexivity. Qed.

Lemma checkMembers_iff path d l seen :
  Forall (fun kv => checks (snd kv)) l ->
  (checkMembers path allowed d seen l = None <->
   NoDup l.*1 /\ (forall k, k ∈ l.*1 -> (k ∉ seen) /\ allowed path k = true) /\
   (forall k v, (k, v) ∈ l -> strict (path ++ [k]) (d + 1) v)).
Proof.
  intros Hl. revert seen. induction Hl as [|[k v] l Hv Hl IH]; intros seen; simpl.
  { split; [intros _|done]. split_and!; [constructor|set_solver|set_solver]. }
  destruct (allowed path k) eqn:Ea; simpl.
  2:{ split; [done|]. intros (_ & H & _). destruct (H k ltac:(left)). congruence. }
  case_bool_decide as Es.
  { split; [done|]. intros (_ & H & _). by destruct (H k ltac:(left)). }
  pose proof (Hv (path ++ [k]) (d + 1)%Z) as Hk. simpl in Hk. rewrite NoDup_cons.
  destruct (checkValue v _ _ _).
  - split; [done|]. intros (_ & _ & H). by apply Hk, H; left.
  - rewrite IH. split.
    + intros (H1 & H2 & H3). split_and!; [|done| |].
      * intros Hin. destruct (H2 k Hin) as [Hn _]. apply Hn. left.
      * intros k' [->|Hin]%elem_of_cons; [done|]. destruct (H2 k' Hin). set_solver.
      * intros k' v' [E|Hin]%elem_of_cons; [|by apply H3]. injection E as -> ->. by apply Hk.
    + intros ([H0 H1] & H2 & H3). split_and!; [done| |].
      * intros k' Hin. destruct (H2 k' ltac:(by right)). split; [|done].
        intros [->|?]%elem_of_cons; [done|set_solver].
      * intros k' v' Hin. apply H3. by right.
Qed.

Lemma checkValue_strict v : checks v.
Proof.
  induction v as [|b|lit|s|l Hl|l Hl] using jvalue_nested_ind; intros path d.
  - split; [simpl; by case_match|by inversion 1].
  - apply depth_iff; [apply strict_depth|]. intros Hd. split; [intros _; by constructor|done].
  - apply depth_iff; [apply strict_depth|]. intros Hd. split; [intros _; by constructor|done].
  - apply depth_iff; [apply strict_depth|]. intros Hd. split; [intros _; by constructor|done].
  - rewrite checkValue_arr. apply depth_iff; [apply strict_depth|]. intros Hd.
    transitivity (forall v, v ∈ l -> strict path (d + 1) v).
    2:{ split; [by constructor|]. by inversion 1; subst. }
    induction Hl as [|v l Hv Hl IH]; [set_solver|].
    pose proof (Hv path (d + 1)%Z) as Hk. simpl. destruct (checkValue v _ _ _).
    + split; [done|]. intros H. by apply Hk, H; left.
    + rewrite IH. split; [|intros H x Hx; apply H; by right].
      intros H x [->|Hx]%elem_of_cons; [by apply Hk|by apply H].
  - rewrite checkValue_obj. apply depth_iff; [apply strict_depth|]. intros Hd.
    rewrite checkMembers_iff by done. split.
    + intros (H1 & H2 & H3). constructor; [done|done|intros k [_ ?]%H2; done|done].
    + inversion 1; subst. split_and!; [done| |done]. intros k Hk. split; [apply not_elem_of_nil|auto].
Qed.
End strict.

(** ** Surrogate escapes *)

(** The value of a hexadecimal digit, as its place in the table of digits. *)
Definition hexDigits : list (ascii * N) :=
  [("0", 0); ("1", 1); ("2", 2); ("3", 3); ("4", 4); ("5", 5); ("6", 6); ("7", 7); ("8", 8); ("9", 9);
   ("a", 10); ("b", 11); ("c", 12); ("d", 13); ("e", 14); ("f", 15);
   ("A", 10); ("B", 11); ("C", 12); ("D", 13); ("E", 14); ("F", 15)]%char%N.

(** The text [\uXXXX] denotes the UTF-16 code unit [n]. *)
Definition codeUnit (s : string) (n : N) : Prop :=
  exists a b c d va vb vc vd,
    s = String bs (String "u" (String a (String b (String c (String d "")))))%char /\
    (a, va) ∈ hexDigits /\ (b, vb) ∈ hexDigits /\ (c, vc) ∈ hexDigits /\ (d, vd) ∈ hexDigits /\
    n = (4096 * va + 256 * vb + 16 * vc + vd)%N.

Definition highSurrogate (n : N) : Prop := (0xd800 <= n <= 0xdbff)%N.
Definition lowSurrogate (n : N) : Prop := (0xdc00 <= n <= 0xdfff)%N.

(** One element of a string literal: a byte, a short escape, an escape of a
    code unit that is no surrogate, or a pair of surrogate escapes. *)
Inductive element : string -> Prop :=
| element_byte c : c <> dq -> c <> bs -> element (String c "")
| element_escape c : c <> "u"%char -> element (String bs (String c ""))
| element_unit s n : codeUnit s n -> ~ highSurrogate n -> ~ lowSurrogate n -> element s
| element_pair s n s' n' : codeUnit s n -> highSurrogate n -> codeUnit s' n' -> lowSurrogate n' -> element (s +:+ s').

(** A text in which every string literal is closed and consists of elements. *)
Inductive literalsOk : string -> Prop :=
| literals_end : literalsOk ""
| literals_byte c r : c <> dq -> literalsOk r -> literalsOk (String c r)
| literals_literal es r : Forall element es -> literalsOk r ->
    literalsOk (String dq (foldr String.append "" es +:+ String dq r)).

(** The digit that [hex4] reads. *)
Definition digit (b : ascii) : option N :=
  if in_range 48 57 b then Some (byte_of b - 48)%N
  else if in_range 97 102 b then Some ((byte_of b - 97) + 10)%N
  else if in_range 65 70 b then Some ((byte_of b - 65) + 10)%N
  else None.

Lemma digit_spec b x : digit b = Some x <-> (b, x) ∈ hexDigits.
Proof.
  split.
  - destruct b as [[] [] [] [] [] [] [] []]; intros E; vm_compute in E; try discriminate E; injection E as <-;
      apply (bool_decide_eq_true_1 _); vm_compute; reflexivity.
  - intros Hin. unfold hexDigits in Hin.
    repeat (apply elem_of_cons in Hin as [Hin|Hin]; [injection Hin as -> ->; reflexivity|]). by apply elem_of_nil in Hin.
Qed.

Lemma hexDigits_lt b x : (b, x) ∈ hexDigits -> (x < 16)%N.
Proof.
  intros Hin. unfold hexDigits in Hin.
  repeat (apply elem_of_cons in Hin as [Hin|Hin]; [injection Hin as -> ->; lia|]). by apply elem_of_nil in Hin.
Qed.

Lemma lor_shift v x : (x < 16)%N -> N.lor (N.shiftl v 4) x = (16 * v + x)%N.
Proof.
  intros Hx. assert (Hl : N.land (N.shiftl v 4) x = 0%N).
  { apply N.bits_inj_0. intros i. rewrite N.land_spec. destruct (N.lt_ge_cases i 4).
    - by rewrite N.shiftl_spec_low.
    - replace (N.testbit x i) with false; [apply andb_false_r|]. symmetry.
      destruct (N.eq_dec x 0) as [->|]; [apply N.bits_0|]. apply N.bits_above_log2. apply N.log2_lt_pow2; [lia|].
      eapply N.lt_le_trans; [exact Hx|]. change 16%N with (2 ^ 4)%N. apply N.pow_le_mono_r; lia. }
  rewrite <- N.lxor_lor, <- N.add_nocarry_lxor by done. rewrite N.shiftl_mul_pow2. lia.
Qed.

Lemma hex4_digit_spec v b w :
  (v < 4096)%N -> hex4_digit v b = Some w <-> exists x, (b, x) ∈ hexDigits /\ w = (16 * v + x)%N.
Proof.
  intros Hv. assert (E : hex4_digit v b = match digit b with Some x => Some (N.lor (N.shiftl v 4) x) | None => None end).
  { unfold hex4_digit, digit. rewrite N.mod_small by (rewrite N.shiftl_mul_pow2; lia). by repeat case_match. }
  rewrite E. split.
  - destruct (digit b) as [x|] eqn:Ed; [|done]. intros [= <-]. apply digit_spec in Ed. exists x. split; [done|].
    apply lor_shift. by eapply hexDigits_lt.
  - intros (x & Hx & ->). rewrite (proj2 (digit_spec b x) Hx). f_equal. apply lor_shift. by eapply hexDigits_lt.
Qed.

Lemma hex4_spec a b c d n :
  hex4 a b c d = Some n <-> codeUnit (String bs (String "u" (String a (String b (String c (String d "")))))) n.
Proof.
  unfold hex4. split.
  - destruct (hex4_digit 0 a) as [v1|] eqn:E1; [|done]. apply hex4_digit_spec in E1 as (va & Ha & ->); [|lia].
    destruct (hex4_digit _ b) as [v2|] eqn:E2; [|done]. pose proof (hexDigits_lt _ _ Ha).
    apply hex4_digit_spec in E2 as (vb & Hb & ->); [|lia]. pose proof (hexDigits_lt _ _ Hb).
    destruct (hex4_digit _ c) as [v3|] eqn:E3; [|done]. apply hex4_digit_spec in E3 as (vc & Hc & ->); [|lia].
    pose proof (hexDigits_lt _ _ Hc). intros E4. apply hex4_digit_spec in E4 as (vd & Hd & ->); [|lia].
    exists a, b, c, d, va, vb, vc, vd. split_and!; try done. lia.
  - intros (a' & b' & c' & d' & va & vb & vc & vd & [= <- <- <- <-] & Ha & Hb & Hc & Hd & ->).
    pose proof (hexDigits_lt _ _ Ha). pose proof (hexDigits_lt _ _ Hb). pose proof (hexDigits_lt _ _ Hc).
    rewrite (proj2 (hex4_digit_spec 0 a (16 * 0 + va) ltac:(lia))) by eauto.
    rewrite (proj2 (hex4_digit_spec (16 * 0 + va) b (16 * (16 * 0 + va) + vb) ltac:(lia))) by eauto.
    rewrite (proj2 (hex4_digit_spec (16 * (16 * 0 + va) + vb) c (16 * (16 * (16 * 0 + va) + vb) + vc) ltac:(lia))) by eauto.
    rewrite (proj2 (hex4_digit_spec (16 * (16 * (16 * 0 + va) + vb) + vc) d (16 * (16 * (16 * (16 * 0 + va) + vb) + vc) + vd) ltac:(lia))) by eauto. f_equal. lia.
Qed.

Lemma codeUnit_form s n : codeUnit s n ->
  exists a b c d, s = String bs (String "u" (String a (String b (String c (String d ""))))) /\ hex4 a b c d = Some n.
Proof.
  intros H. pose proof H as (a & b & c & d & va & vb & vc & vd & -> & _). exists a, b, c, d. split; [done|]. by apply hex4_spec.
Qed.

Lemma codeUnit_fun s n n' : codeUnit s n -> codeUnit s n' -> n = n'.
Proof.
  intros (a & b & c & d & -> & H)%codeUnit_form (a' & b' & c' & d' & [= <- <- <- <-] & H')%codeUnit_form. congruence.
Qed.

(** The scan passes over an element. *)
Lemma scan_element e t : element e -> validSurrogates_from true (e +:+ t) = validSurrogates_from true t.
Proof.
  destruct 1 as [c Hq Hb|c Hu|s n Hs Hh Hl|s n s' n' Hs Hh Hs' Hl].
  - rewrite append_cons. change ("" +:+ t) with t. cbn [validSurrogates_from negb].
    by rewrite !bool_decide_eq_false_2 by done.
  - rewrite !append_cons. change ("" +:+ t) with t. cbn [validSurrogates_from negb]. rewrite (bool_decide_eq_false_2 _ Hu). done.
  - apply codeUnit_form in Hs as (a & b & c & d & -> & E). rewrite !append_cons. change ("" +:+ t) with t.
    unfold highSurrogate, lowSurrogate in Hh, Hl. cbn [validSurrogates_from negb]. simpl bool_decide. cbv iota. rewrite E.
    destruct (N.leb_spec 56320 n), (N.leb_spec n 57343), (N.leb_spec 55296 n), (N.leb_spec n 56319); try lia; done.
  - apply codeUnit_form in Hs as (a & b & c & d & -> & E). apply codeUnit_form in Hs' as (a' & b' & c' & d' & -> & E').
    rewrite !append_cons. change ("" +:+ ?s) with s. rewrite !append_cons. change ("" +:+ t) with t.
    unfold highSurrogate, lowSurrogate in Hh, Hl. cbn [validSurrogates_from negb]. simpl bool_decide. cbv iota. rewrite E.
    destruct (N.leb_spec 56320 n), (N.leb_spec n 57343), (N.leb_spec 55296 n), (N.leb_spec n 56319); try lia. simpl negb. cbn [andb orb].
    rewrite E'. destruct (N.ltb_spec n' 56320), (N.ltb_spec 57343 n'); try lia. done.
Qed.

Lemma scan_elements es t : Forall element es -> validSurrogates_from true (foldr String.append "" es +:+ t) = validSurrogates_from true t.
Proof.
  induction 1 as [|e es He _ IH]; [done|]. simpl. rewrite append_assoc, scan_element by done. exact IH.
Qed.

Lemma literalsOk_scan raw : literalsOk raw -> validSurrogates_from false raw = true.
Proof.
  induction 1 as [|c r Hc _ IH|es r Hes _ IH]; [done| |]; cbn [validSurrogates_from negb].
  - by rewrite bool_decide_eq_false_2.
  - rewrite bool_decide_eq_true_2 by done. rewrite scan_elements by done. done.
Qed.

(** What a successful scan from inside a literal passed over. *)
Lemma scan_inv n : forall raw, String.length raw <= n ->
  (validSurrogates_from false raw = true -> literalsOk raw) /\
  (validSurrogates_from true raw = true -> exists es r, raw = foldr String.append "" es +:+ String dq r /\ Forall element es /\ literalsOk r).
Proof.
  assert (Hadd : forall e es r t, element e -> t = foldr String.append "" es +:+ String dq r -> Forall element es -> literalsOk r ->
    exists es' r', e +:+ t = foldr String.append "" es' +:+ String dq r' /\ Forall element es' /\ literalsOk r').
  { intros e es r t He -> Hes Hr. exists (e :: es), r. simpl. rewrite append_assoc. split_and!; try done. by constructor. }
  induction n as [|n IH]; intros raw Hn.
  { destruct raw; [|simpl in Hn; lia]. split; [intros _; constructor|done]. }
  destruct raw as [|c r]; [split; [intros _; constructor|done]|]. simpl in Hn. split.
  - cbn [validSurrogates_from negb]. case_bool_decide as E; intros H.
    + subst c. destruct (proj2 (IH r ltac:(lia)) H) as (es & r' & -> & Hes & Hr). by constructor.
    + constructor; [done|]. by apply (IH r ltac:(lia)).
  - cbn [validSurrogates_from negb]. case_bool_decide as Eq.
    { subst c. intros H. exists [], r. split_and!; [done|constructor|]. by apply (IH r ltac:(lia)). }
    case_bool_decide as Eb; cbn [negb].
    2: { intros H. destruct (proj2 (IH r ltac:(lia)) H) as (es & r' & E & Hes & Hr).
         exact (Hadd (String c "") es r' r (element_byte c Eq Eb) E Hes Hr). }
    subst c. destruct r as [|e r1]; [done|]. simpl in Hn. case_bool_decide as Eu; cbn [negb].
    2: { intros H. destruct (proj2 (IH r1 ltac:(lia)) H) as (es & r' & E & Hes & Hr).
         exact (Hadd (String bs (String e "")) es r' r1 (element_escape e Eu) E Hes Hr). }
    subst e. destruct r1 as [|h1 [|h2 [|h3 [|h4 r2]]]]; try done. simpl in Hn.
    destruct (hex4 h1 h2 h3 h4) as [v|] eqn:Ev; [|done]. apply hex4_spec in Ev.
    destruct (N.leb_spec 56320 v) as [L1|L1], (N.leb_spec v 57343) as [L2|L2], (N.leb_spec 55296 v) as [L3|L3], (N.leb_spec v 56319) as [L4|L4];
      cbn [andb]; try done; try lia;
      try (intros H; destruct (proj2 (IH r2 ltac:(lia)) H) as (es & r' & E & Hes & Hr);
           refine (Hadd _ es r' r2 (element_unit _ v Ev _ _) E Hes Hr); unfold highSurrogate, lowSurrogate; lia).
    destruct r2 as [|b1 [|u1 [|l1 [|l2 [|l3 [|l4 r3]]]]]]; try done. simpl in Hn.
    case_bool_decide as E1; cbn [negb orb]; [|done]. case_bool_decide as E2; cbn [negb]; [|done]. subst b1 u1.
    destruct (hex4 l1 l2 l3 l4) as [low|] eqn:El; [|done]. apply hex4_spec in El.
    destruct (N.ltb_spec low 56320), (N.ltb_spec 57343 low); cbn [orb]; try done. intros Hscan.
    destruct (proj2 (IH r3 ltac:(lia)) Hscan) as (es & r' & E & Hes & Hr).
    refine (Hadd _ es r' r3 (element_pair _ v _ low Ev _ El _) E Hes Hr); unfold highSurrogate, lowSurrogate; lia.
Qed.

Lemma validSurrogates_iff raw : validSurrogates raw = true <-> literalsOk raw.
Proof. split; [apply (scan_inv (String.length raw)); lia|apply literalsOk_scan]. Qed.

(** C38: Strict decoding.  With the standard library's UTF-8 check and JSON
    syntax, [Decode] succeeds with [x] exactly if the document is valid UTF-8,
    every string literal in it is closed and its surrogate escapes come in
    high-low pairs, it is one JSON value [v] with nothing after it, no object in
    [v] has an unknown or repeated member, no value in it is null, nothing is
    nested deeper than five levels, and [v] unmarshals to [x]. *)
Theorem decode_is_strict {T} raw allowed (unmarshal : jvalue -> option T) x :
  Decode raw allowed unmarshal = Ok x <->
  ValidString raw = true /\ literalsOk raw /\
  exists v, json_parse raw = Some v /\ strict allowed [] 0 v /\ unmarshal v = Some x.
Proof.
  unfold Decode, checkDocument. rewrite <- validSurrogates_iff.
  destruct (ValidString raw), (validSurrogates raw); simpl; try (split; [done|naive_solver]).
  destruct (json_parse raw) as [v'|]; [|naive_solver]. pose proof (checkValue_strict allowed v' [] 0%Z) as Hc.
  destruct (checkValue v' [] allowed 0); [naive_solver|].
  destruct (unmarshal v') eqn:E; split; intros; naive_solver.
Qed.

(** ** Genesis documents *)

Section documents.
Context `{External}.

(** The texts of a contract that validation does not force to be UTF-8. *)
Definition contractText (c : Contract) : Prop := ValidString (ct_RunnerImage c) = true.

(** What validation says of a contract's fields. *)
Record contractShape (c : Contract) : Prop := {
  cs_version : ct_Version c = 3%Z;
  cs_schemas : ct_ActiveLedgerSchema c = 2%Z /\ ct_QueueLedgerSchema c = 2%Z;
  cs_names : ct_ActiveLedgerName c = ActiveLedgerName /\ ct_QueueLedgerName c = QueueLedgerName;
  cs_uids : ValidUID (ct_NamespaceUID c) = true /\ ValidUID (ct_ReceiptNamespaceUID c) = true;
  cs_ns : IsDNS1123Label (ct_ReceiptNamespace c) = true;
  cs_pool : ValidWorkerPoolID (ct_WorkerPoolID c) = true;
  cs_generation : validNonce (ct_Generation c) = true;
  cs_limits : let l := ct_Limits c in
    (0 <= lm_MaxActiveJobs l <= 128 /\ 0 <= lm_MaxActiveJobsPerRequester l <= 128 /\ 0 <= lm_WorkerSlots l <= 65535 /\
     0 <= lm_MaxQueuedJobs l <= 1000 /\ 0 <= lm_MaxQueuedJobsPerRequester l <= 1000)%Z }.

Lemma Contract_validate_shape c : Contract_validate c = None -> contractShape c.
Proof.
  unfold Contract_validate. destruct (_ || _) eqn:E; [done|]. destruct (RunnerManifestDigest _); [|done].
  unfold Limits_validate. destruct (_ || _) eqn:El in |- *; [done|]. intros _. bool_simpl. constructor; auto.
  simpl. lia.
Qed.

Lemma Receipt_Validate_contract r : Receipt_Validate r = None -> contractShape (rc_Contract r).
Proof. unfold Receipt_Validate. destruct (_ || _); [done|]. apply Contract_validate_shape. Qed.

Lemma ascii_valid (f : ascii -> bool) s :
  (forall c, f c = true -> (byte_of c <? 128)%N = true) -> str_forallb f s = true -> ValidString s = true.
Proof. intros Hf Hs. apply ValidString_ascii. by eapply str_forallb_impl. Qed.

Lemma label_valid s : IsDNS1123Label s = true -> ValidString s = true.
Proof.
  intros Hs%dns1123_label_alphabet. revert Hs. apply ascii_valid.
  intros c. destruct c as [[] [] [] [] [] [] [] []]; intros E; vm_compute in E; try discriminate E; done.
Qed.

Lemma uid_valid s : ValidUID s = true -> ValidString s = true.
Proof. unfold ValidUID. intros E. by bool_simpl. Qed.

Lemma pool_valid s : ValidWorkerPoolID s = true -> ValidString s = true.
Proof.
  unfold ValidWorkerPoolID. intros E. bool_simpl. eapply ascii_valid; [|eassumption].
  intros c. destruct c as [[] [] [] [] [] [] [] []]; intros E; vm_compute in E; try discriminate E; done.
Qed.

Lemma nonce_valid s : validNonce s = true -> ValidString s = true.
Proof.
  unfold validNonce. intros E. bool_simpl. eapply ascii_valid; [|eassumption].
  intros c. destruct c as [[] [] [] [] [] [] [] []]; intros E; vm_compute in E; try discriminate E; done.
Qed.

Lemma json_of_contract_wf c : contractShape c -> contractText c -> jwf (json_of_contract c).
Proof.
  intros [_ _ [N1 N2] [U1 U2] L P G _] Ht. change (jwf (json_of_contract c)) with (members_wf (match json_of_contract c with JObj l => l | _ => [] end)).
  cbn [json_of_contract]. rewrite N1, N2.
  repeat apply members_wf_app;
    first [ by apply jn_wf | apply js_wf; [done|]; first [done|by apply uid_valid|by apply label_valid|by apply pool_valid|by apply nonce_valid] | idtac ].
  split; [done|]. split; [|done]. change (members_wf (match json_of_limits (ct_Limits c) with JObj l => l | _ => [] end)).
  cbn [json_of_limits]. repeat apply members_wf_app; by apply jn_wf.
Qed.

(** Reads every scalar member of the object [l] back; [E] is its equation. *)
Ltac jfields E :=
  repeat match goal with
  | |- context [jstring (jfield ?l ?k)] =>
      let F := fresh in eassert (jstring (jfield l k) = Some _) as F by (rewrite E; jread); rewrite F; clear F
  | |- context [jint64 (jfield ?l ?k)] =>
      let F := fresh in eassert (jint64 (jfield l k) = Some _) as F by (rewrite E; jread); rewrite F; clear F
  end.

Lemma limits_roundtrip c : contractShape c -> limits_of_json (Some (json_of_limits (ct_Limits c))) = Some (ct_Limits c).
Proof.
  intros [_ _ _ _ _ _ _ Hl]. cbn zeta in Hl. cbn [limits_of_json json_of_limits].
  match goal with |- context [jfield ?m "workerSlots"] => remember m as l eqn:E end.
  jfields E. by destruct (ct_Limits c).
Qed.

Lemma contract_roundtrip c : contractShape c -> contract_of_json (Some (json_of_contract c)) = Some c.
Proof.
  intros Hc. pose proof (limits_roundtrip c Hc) as Hl. destruct Hc as [V [S1 S2] _ _ _ _ _ _].
  cbn [contract_of_json json_of_contract].
  match goal with |- context [jfield ?m "version"] => remember m as l eqn:E end.
  assert (limits_of_json (jfield l "limits") = Some (ct_Limits c)) as F by (rewrite E; jskip; exact Hl).
  jfields E. rewrite F. by destruct c.
Qed.

(** ** The schema checks on printed documents *)

Lemma check_limits c : checkValue (json_of_limits (ct_Limits c)) ["contract"; "limits"] allowContract 2 = None.
Proof.
  unfold json_of_limits. apply (check_object limitKeys); [lia| |compute_decide|repeat constructor|].
  - unfold limitKeys. repeat (apply keyed_app; [solve [auto with kova]|]). apply keyed_jn.
  - intros k v Hin. unfold jn in Hin. repeat (apply elem_of_app in Hin as [Hin|Hin]);
      apply list_elem_of_singleton in Hin; injection Hin as -> ->; by apply check_scalar.
Qed.

Lemma check_contract c : checkValue (json_of_contract c) ["contract"] allowContract 1 = None.
Proof.
  unfold json_of_contract. apply (check_object contractKeys); [lia| |compute_decide|repeat constructor|].
  - unfold contractKeys. repeat (apply keyed_app; [solve [auto with kova]|]). apply (keyed_one "limits").
  - intros k v Hin. unfold jn, js in Hin. repeat (apply elem_of_app in Hin as [Hin|Hin]);
      apply list_elem_of_singleton in Hin; injection Hin as -> ->; try (by apply check_scalar). apply check_limits.
Qed.

Lemma check_receipt r : checkValue (json_of_receipt r) [] allowContract 0 = None.
Proof.
  unfold json_of_receipt. apply (check_object ["namespace"; "genesisName"; "genesisUID"; "contract"]); [lia| |compute_decide|repeat constructor|].
  - repeat (apply keyed_app; [solve [auto with kova]|]). apply (keyed_one "contract").
  - intros k v Hin. unfold js in Hin. repeat (apply elem_of_app in Hin as [Hin|Hin]);
      apply list_elem_of_singleton in Hin; injection Hin as -> ->; try (by apply check_scalar). apply check_contract.
Qed.

Lemma check_genesis g : checkValue (json_of_genesis g) [] allowContract 0 = None.
Proof.
  unfold json_of_genesis.
  apply (check_object ["contract"; "phase"; "activeLedgerUID"; "queueLedgerUID"]); [lia| |compute_decide|repeat constructor|].
  - change (("contract", json_of_contract (gd_Contract g)) :: ?l) with ([("contract", json_of_contract (gd_Contract g))] ++ l).
    repeat (apply keyed_app; [solve [auto with kova]|]). apply keyed_js.
  - intros k v [Hin|Hin]%elem_of_cons; [injection Hin as -> ->; apply check_contract|].
    unfold js in Hin. repeat (apply elem_of_app in Hin as [Hin|Hin]);
      apply list_elem_of_singleton in Hin; injection Hin as -> ->; by apply check_scalar.
Qed.

Lemma require_contract c : requireContractKeys (Some (json_of_contract c)) = None.
Proof. vm_compute. reflexivity. Qed.

Lemma json_of_receipt_wf r :
  Receipt_Validate r = None -> contractText (rc_Contract r) -> jwf (json_of_receipt r).
Proof.
  intros Hr Ht. pose proof (json_of_contract_wf _ (Receipt_Validate_contract r Hr) Ht) as Hc.
  unfold Receipt_Validate in Hr. destruct (_ || _) eqn:E in Hr; [done|]. bool_simpl.
  match goal with |- jwf ?v => change (members_wf (match v with JObj l => l | _ => [] end)) end.
  cbn [json_of_receipt]. repeat apply members_wf_app; try (apply js_wf; [done|]).
  - by apply label_valid.
  - by match goal with E : rc_GenesisName r = _ |- _ => rewrite E end.
  - by apply uid_valid.
  - by split.
Qed.

Lemma receipt_of_printed r :
  Receipt_Validate r = None -> receipt_of_json (json_of_receipt r) = Some r.
Proof.
  intros Hr%Receipt_Validate_contract. pose proof (contract_roundtrip _ Hr) as Hc.
  cbn [receipt_of_json json_of_receipt].
  match goal with |- context [jfield ?m "namespace"] => remember m as l eqn:E end.
  assert (contract_of_json (jfield l "contract") = Some (rc_Contract r)) as F by (rewrite E; jskip; exact Hc).
  jfields E. rewrite F. by destruct r.
Qed.

Lemma genesis_of_printed g :
  contractShape (gd_Contract g) -> genesis_of_json (json_of_genesis g) = Some g.
Proof.
  intros Hc%contract_roundtrip. cbn [genesis_of_json json_of_genesis].
  match goal with |- context [jfield ?m "phase"] => remember m as l eqn:E end.
  assert (contract_of_json (jfield l "contract") = Some (gd_Contract g)) as F by (rewrite E; exact Hc).
  change (?x :: ?l) with ([x] ++ l) in E. jfields E. rewrite F. by destruct g.
Qed.

(** The ledger UIDs and phase that a Genesis document may hold. *)
Definition genesisShape (g : GenesisData) : Prop :=
  (gd_Phase g = PhaseInitializing \/
   gd_Phase g = PhaseCommitted /\ gd_ActiveLedgerUID g <> "" /\ gd_QueueLedgerUID g <> "") /\
  (gd_ActiveLedgerUID g = "" \/ ValidUID (gd_ActiveLedgerUID g) = true) /\
  (gd_QueueLedgerUID g = "" \/ ValidUID (gd_QueueLedgerUID g) = true).

Lemma genesisShape_checks g :
  genesisShape g ->
  (negb (seqb (gd_Phase g) PhaseInitializing) && negb (seqb (gd_Phase g) PhaseCommitted)) ||
  (negb (sempty (gd_ActiveLedgerUID g)) && negb (ValidUID (gd_ActiveLedgerUID g))) ||
  (negb (sempty (gd_QueueLedgerUID g)) && negb (ValidUID (gd_QueueLedgerUID g))) ||
  (seqb (gd_Phase g) PhaseCommitted && (sempty (gd_ActiveLedgerUID g) || sempty (gd_QueueLedgerUID g))) = false.
Proof.
  intros (Hp & Ha & Hq). unfold sempty, seqb.
  destruct Hp as [Ep|(Ep & Hna & Hnq)], Ha as [Ea|Ea], Hq as [Eq|Eq]; try done; rewrite Ep, ?Ea, ?Eq; simpl;
    repeat case_bool_decide; simpl; first [done|discriminate|congruence].
Qed.

Lemma json_of_genesis_wf g :
  contractShape (gd_Contract g) -> contractText (gd_Contract g) -> genesisShape g -> jwf (json_of_genesis g).
Proof.
  intros Hc Ht (Hp & Ha & Hq). pose proof (json_of_contract_wf _ Hc Ht) as Hj.
  match goal with |- jwf ?v => change (members_wf (match v with JObj l => l | _ => [] end)) end.
  cbn [json_of_genesis]. split; [done|]. split; [done|].
  repeat apply members_wf_app; apply js_wf; try done.
  - by destruct Hp as [-> |[-> _]].
  - destruct Ha as [-> |?]; [done|by apply uid_valid].
  - destruct Hq as [-> |?]; [done|by apply uid_valid].
Qed.

Lemma decodeGenesis_print g r :
  Receipt_Validate r = None -> contractText (rc_Contract r) -> gd_Contract g = rc_Contract r -> genesisShape g ->
  (slen (json_print (json_of_genesis g)) <= MaxContractJSONBytes)%Z ->
  decodeGenesis (json_print (json_of_genesis g)) r = Ok g.
Proof.
  intros Hr Ht Ec Hg Hs. pose proof (Receipt_Validate_contract r Hr) as Hc. rewrite <- Ec in Hc, Ht.
  pose proof (json_of_genesis_wf g Hc Ht Hg) as Hj.
  unfold decodeGenesis. rewrite (Decode_print _ _ _ _ Hj (check_genesis g) (genesis_of_printed g Hc)), (json_parse_print _ Hj). change (sempty (json_print (json_of_genesis g))) with false.
  destruct (Z.ltb_spec MaxContractJSONBytes (slen (json_print (json_of_genesis g)))); [lia|]. cbn [orb].
  change (RequireKeys _ ["contract"; "phase"; "activeLedgerUID"; "queueLedgerUID"]) with (@None error).
  change (field_of (Some (json_of_genesis g)) "contract") with (Some (json_of_contract (gd_Contract g))).
  rewrite require_contract, <- !orb_assoc, orb_assoc. rewrite !orb_assoc in *.
  rewrite (bool_decide_eq_true_2 _ Ec). cbn [negb orb]. by rewrite genesisShape_checks.
Qed.
End documents.

(** A receipt that validates, printed within the size limit, is parsed back by
    [ParseReceipt] as the same receipt. *)
Theorem receipt_reads_back `{External} r :
  Receipt_Validate r = None -> contractText (rc_Contract r) ->
  (slen (json_print (json_of_receipt r)) <= MaxContractJSONBytes)%Z ->
  ParseReceipt (json_print (json_of_receipt r)) = Ok r.
Proof.
  intros Hr Ht Hs. unfold ParseReceipt.
  pose proof (json_of_receipt_wf r Hr Ht) as Hj.
  rewrite (Decode_print _ _ _ _ Hj (check_receipt r) (receipt_of_printed r Hr)), (json_parse_print _ Hj).
  change (sempty (json_print (json_of_receipt r))) with false.
  destruct (Z.ltb_spec MaxContractJSONBytes (slen (json_print (json_of_receipt r)))); [lia|]. cbn [orb].
  change (RequireKeys _ ["namespace"; "genesisName"; "genesisUID"; "contract"]) with (@None error).
  change (field_of (Some (json_of_receipt r)) "contract") with (Some (json_of_contract (rc_Contract r))).
  by rewrite require_contract, Hr.
Qed.

(** Every Genesis patch that [genesisPatch] lets through tests the exact UID,
    resourceVersion and data it was computed from, refuses an object that is
    already immutable, and leaves a document that [decodeGenesis] reads as exactly
    the proposed state. *)
Theorem genesis_patch_reads_back `{External} r original next commit ops :
  Receipt_Validate r = None -> contractText (rc_Contract r) -> gd_Contract next = rc_Contract r -> genesisShape next ->
  genesisPatch original next commit = Ok ops ->
  cm_immutable original <> Some true /\
  (forall c, forallb (patch_test c) ops = true ->
     cm_uid c = cm_uid original /\ cm_rv c = cm_rv original /\
     cm_data c !! GenesisDataKey = Some (mget (cm_data original) GenesisDataKey) /\
     decodeGenesis (mget (foldl patch_data (cm_data c) ops) GenesisDataKey) r = Ok next).
Proof.
  intros Hr Ht Ec Hg. unfold genesisPatch. destruct (_ || _); [done|].
  destruct (Z.ltb_spec MaxContractJSONBytes (slen (json_print (json_of_genesis next)))) as [|Hs]; [done|].
  assert (Hdec : forall d, decodeGenesis (mget (<[GenesisDataKey := json_print (json_of_genesis next)]> d) GenesisDataKey) r = Ok next).
  { intros d. unfold mget. rewrite lookup_insert_eq. by apply decodeGenesis_print. }
  destruct (cm_immutable original) as [[]|]; [done| |]; intros [= <-]; (split; [done|]); intros c Hc;
    cbn [app forallb patch_test] in Hc; bool_simpl; (split_and!; [done..|]);
    destruct commit; cbn [foldl patch_data app]; apply Hdec.
Qed.

Lemma receipt_reads_back_witness :
  Receipt_Validate ex_receipt = None /\ ParseReceipt (json_print (json_of_receipt ex_receipt)) = Ok ex_receipt.
Proof.
  split; [vm_compute; reflexivity|]. apply (receipt_reads_back ex_receipt).
  - vm_compute. reflexivity.
  - vm_compute. reflexivity.
  - vm_compute. discriminate.
Defined.

(** Committing the two pinned ledgers of an initializing Genesis object. *)
Definition ex_initializing : ConfigMap :=
  mkConfigMap "kova" GenesisName "genesis-uid" "1" ∅ ∅ [] false None
    {[GenesisDataKey := json_print (json_of_genesis (mkGenesisData ex_contract PhaseInitializing "active-uid" "queue-uid"))]} ∅.
Definition ex_committed : GenesisData := mkGenesisData ex_contract PhaseCommitted "active-uid" "queue-uid".
Definition ex_commit_ops : list patch_op :=
  match genesisPatch ex_initializing ex_committed true with Ok ops => ops | Err _ => [] end.

Lemma genesis_patch_reads_back_witness :
  genesisPatch ex_initializing ex_committed true = Ok ex_commit_ops /\
  decodeGenesis (mget (foldl patch_data (cm_data ex_initializing) ex_commit_ops) GenesisDataKey) ex_receipt = Ok ex_committed.
Proof.
  assert (E : genesisPatch ex_initializing ex_committed true = Ok ex_commit_ops) by (vm_compute; reflexivity).
  split; [exact E|].
  destruct (genesis_patch_reads_back ex_receipt ex_initializing ex_committed true ex_commit_ops) as [_ H].
  - vm_compute. reflexivity.
  - vm_compute. reflexivity.
  - reflexivity.
  - split; [right; split; [reflexivity|split; discriminate]|]. split; right; vm_compute; reflexivity.
  - exact E.
  - apply H. vm_compute. reflexivity.
Defined.
