(* ===== verification/ReceiptTheorems.v ===== *)
(** * What recovery receipts promise

    A recorded receipt is a committed immutable object with exactly the intended
    identity and data; recording never touches an existing object; and which objects
    qualify as a queue receipt, with the one case in which the data is not exactly
    the original. *)
From S2P Require Import Prelude GoText Json JsonFacts AdmissionJson Sha256 Types JsonSize Kube Contract Server Genesis GenesisFacts QueueReceipt Effects Fixture.

Section records.
Context `{External} `{ApiServer}.

(** Creations only: an object that exists is left alone. *)
Definition creates_only (w w' : world) : Prop :=
  forall k c, cm_now w k = Some c -> cm_now w' k = Some c.

Lemma creates_only_create c w x w' : step _ (CreateConfigMap c) w x w' -> creates_only w w'.
Proof.
  intros Hs k old Ho. destruct (decide (k = cm_key c)) as [->|Hne].
  - destruct (create_effect _ _ _ _ Hs) as [E|[E _]]; congruence.
  - rewrite (frame _ _ _ _ _ k Hs); [done|]. simpl. congruence.
Qed.

Lemma creates_only_read {X} (e : api X) w x w' : read_only e -> step _ e w x w' -> creates_only w w'.
Proof. intros He Hs k c Hc. by rewrite (frame _ _ _ _ _ k Hs (read_only_off k e He)). Qed.

(** A recorded effect: a committed version of the expected object. *)
Definition recorded (expected : ConfigMap) (kind : string) (w : world) (r : result EffectWitness) : Prop :=
  forall ew, r = Ok ew ->
    exists c, cm_version w (cm_key expected) (cm_rv c) = Some c /\ qualifyEffect expected c kind = Ok ew.

Lemma recordEffectOnce_wp expected kind w :
  wp creates_only (recordEffectOnce expected kind) (recorded expected kind) w.
Proof.
  unfold recordEffectOnce. cbn [bind call wp]. intros w1 _ [created createErr] w2 Hc.
  split; [by eapply creates_only_create|]. cbn [wp bind call]. intros w3 _ [readback|e] w4 Hg.
  2:{ split; [by eapply creates_only_read; [|exact Hg]|]. by intros ew. }
  split; [by eapply creates_only_read; [|exact Hg]|].
  pose proof (get_version _ _ _ _ _ Hg) as Hv. destruct (qualifyEffect expected readback kind) as [observed|] eqn:Eq; [|by intros ew].
  match goal with |- context [match ?x with Some e => Ret (Err e) | None => _ end] => destruct x; [by intros ew|] end.
  assert (Hok : recorded expected kind w4 (Ok observed)) by (intros ew [= <-]; by exists readback).
  destruct createErr as [e|]; [|exact Hok]. destruct (_ || _); [by intros ew|exact Hok].
Qed.

(** What qualification of an effect checks. *)
Lemma qualifyEffect_inv expected c kind ew :
  qualifyEffect expected c kind = Ok ew ->
  cm_key c = cm_key expected /\ cm_immutable c = Some true /\ cm_owners c = [] /\ cm_deleting c = false /\
  ew_ReceiptUID ew = cm_uid c /\ ew_ResourceVersion ew = cm_rv c /\ DigestData (cm_data c) = Ok (ew_DataDigest ew) /\
  size (cm_data c) = size (cm_data expected) /\
  (forall k v, cm_data expected !! k = Some v -> mget (cm_data c) k = v).
Proof.
  unfold qualifyEffect. match goal with |- context [if ?c then _ else _] => destruct c eqn:E1; [done|] end.
  match goal with |- context [if ?c then _ else _] => destruct c eqn:E2; [done|] end.
  destruct (DigestData (cm_data c)); [|done]. intros [= <-]. bool_simpl. unfold cm_key. split_and!; try done.
  - by f_equal.
  - by apply is_true_ptr_true.
  - intros k v Hk. rewrite forallb_forall in E2. specialize (E2 (k, v)).
    rewrite <- list_elem_of_In, elem_of_map_to_list in E2. specialize (E2 Hk). by apply bool_decide_eq_true in E2.
Qed.

(** Non-empty values read back under their keys leave room for nothing else. *)
Lemma same_data (d d' : gmap string string) :
  size d' = size d -> (forall k v, d !! k = Some v -> v <> "" /\ mget d' k = v) -> d' = d.
Proof.
  intros Hs Hd. assert (Hsub : d ⊆ d').
  { apply map_subseteq_spec. intros k v Hk. destruct (Hd k v Hk) as [Hne Hg]. unfold mget in Hg.
    destruct (d' !! k) as [v'|]; simpl in Hg; congruence. }
  symmetry. by apply map_subseteq_size_eq; [|rewrite Hs].
Qed.

Lemma effect_data_nonempty ns nm kind v expected k x :
  kind <> "" -> newEffectConfigMap ns nm kind v = Ok expected -> cm_data expected !! k = Some x -> x <> "" \/ json_print v = "".
Proof.
  unfold newEffectConfigMap, effectData. intros Hkind. destruct (_ <? _)%Z; [done|]. intros [= <-]. cbn [cm_data].
  rewrite !lookup_insert_Some, lookup_empty. intros [[_ <-]|[_ [[_ <-]|[_ [[_ <-]|[_ ?]]]]]]; [by left|by left| |done].
  destruct (decide (json_print v = "")); [by right|by left].
Qed.

Lemma qualifyEffect_data ns nm kind l expected c ew :
  kind <> "" -> newEffectConfigMap ns nm kind (JObj l) = Ok expected -> qualifyEffect expected c kind = Ok ew ->
  cm_data c = cm_data expected.
Proof.
  intros Hk He Hq. apply qualifyEffect_inv in Hq as (_ & _ & _ & _ & _ & _ & _ & Hs & Hd).
  apply same_data; [done|]. intros k v Hv. split; [|by apply Hd].
  by destruct (effect_data_nonempty _ _ _ _ _ _ _ Hk He Hv).
Qed.
End records.

(** Record once.  Under any interference, [RecordGrantOnce] never changes an
    object that exists; and when it reports success, a version of the receipt has
    been committed that is immutable, has no owner, carries exactly the data of
    the intended grant, and the reported UID and digest are those of that object. *)
Theorem grant_receipt_recorded `{External} `{ApiServer} g w :
  wp creates_only (RecordGrantOnce g)
    (fun w' r => forall ew, r = Ok ew ->
       exists expected c, NewGrantConfigMap g = Ok expected /\ cm_version w' (cm_key expected) (cm_rv c) = Some c /\
         cm_data c = cm_data expected /\ cm_immutable c = Some true /\ cm_owners c = [] /\
         ew_ReceiptUID ew = cm_uid c /\ DigestData (cm_data expected) = Ok (ew_DataDigest ew)) w.
Proof.
  unfold RecordGrantOnce. destruct (NewGrantConfigMap g) as [expected|] eqn:En; [|by intros ew].
  eapply wp_mono; [apply recordEffectOnce_wp|]. intros w' r _ Hr ew Ew.
  destruct (Hr ew Ew) as (c & Hv & Hq). exists expected, c. split; [done|]. split; [done|].
  assert (Hd : cm_data c = cm_data expected).
  { unfold NewGrantConfigMap in En. destruct (GrantIntent_validate g); [done|].
    by eapply qualifyEffect_data; [|exact En|exact Hq]. }
  rewrite <- Hd. apply qualifyEffect_inv in Hq as (_ & Hi & Ho & _ & Hu & _ & Hdig & _). done.
Qed.

(** Queue receipts.  If the requester has a UID, [QualifyQueue] accepts a
    ConfigMap only if its data is exactly the intent's, it sits at the intent's
    name in the receipt namespace, is immutable and has no owner; the digest it
    returns is that of the intent's data. *)
Theorem qualified_queue_receipt_is_exact `{External} q cm o :
  qi_RequesterUID q <> "" -> QualifyQueue q cm = Ok o ->
  cm_data cm = data q /\ cm_key cm = (qi_ReceiptNamespace q, name q) /\ cm_immutable cm = Some true /\ cm_owners cm = [] /\
  oq_ReceiptUID o = cm_uid cm /\ DigestData (data q) = Ok (oq_DataDigest o).
Proof.
  intros Hu Hq. apply QualifyQueue_inv in Hq as (Hval & Hk & Hi & Ho & Hs & Hd & _ & Hru & Hdig).
  assert (E : cm_data cm = data q).
  { apply same_data; [done|]. intros k v Hv. split; [by eapply data_values_nonempty|by apply Hd]. }
  rewrite E in Hdig. split_and!; assumption.
Qed.

(** ** The receipts of a concrete build *)

Definition ex_intent_of (requesterUID : string) : QueueIntent :=
  {| qi_Namespace := "kova"; qi_NamespaceUID := "ns-uid"; qi_ReceiptNamespace := "receipts";
     qi_ReceiptNamespaceUID := "receipts-uid"; qi_GenesisName := GenesisName; qi_GenesisUID := "genesis-uid";
     qi_Generation := "0123456789abcdef0123456789abcdef"; qi_ActiveLedgerUID := "active-uid";
     qi_QueueLedgerUID := "queue-uid"; qi_BuildName := "build-1"; qi_RequesterName := "alice";
     qi_RequesterHash := sha256_hex "alice"; qi_RequesterUID := requesterUID;
     qi_RequestDigest := sha256_hex "request"; qi_SourceDigest := "sha256:" +:+ sha256_hex "source";
     qi_QueueNonce := "00112233445566778899aabbccddeeff" |}.

Definition ex_receipt_object (q : QueueIntent) (d : gmap string string) : ConfigMap :=
  mkConfigMap (qi_ReceiptNamespace q) (name q) "receipt-uid" "7" {[queueReceiptLabel := queueReceiptData]} ∅ [] false
    (Some true) d ∅.

Definition ex_qualified (q : QueueIntent) (d : gmap string string) : bool :=
  is_ok (QualifyQueue q (ex_receipt_object q d)).

Lemma qualified_queue_receipt_is_exact_witness :
  ex_qualified (ex_intent_of "alice-uid") (data (ex_intent_of "alice-uid")) = true /\
  cm_data (ex_receipt_object (ex_intent_of "alice-uid") (data (ex_intent_of "alice-uid"))) = data (ex_intent_of "alice-uid").
Proof.
  assert (E : ex_qualified (ex_intent_of "alice-uid") (data (ex_intent_of "alice-uid")) = true) by (vm_compute; reflexivity).
  split; [exact E|]. unfold ex_qualified in E.
  destruct (QualifyQueue (ex_intent_of "alice-uid") (ex_receipt_object (ex_intent_of "alice-uid") (data (ex_intent_of "alice-uid")))) as [o|] eqn:Eq;
    [|discriminate E].
  apply (qualified_queue_receipt_is_exact (ex_intent_of "alice-uid") _ o); [discriminate|exact Eq].
Defined.

(** ** Which queue receipts qualify *)

Section queue_qualification.
Context `{External}.

(** The object identity and metadata that [QualifyQueue] asks for. *)
Record receiptObject (q : QueueIntent) (cm : ConfigMap) : Prop := {
  ro_key : cm_key cm = (qi_ReceiptNamespace q, name q);
  ro_uid : opaqueUID (cm_uid cm) = true;
  ro_rv : cm_rv cm <> "";
  ro_live : cm_deleting cm = false;
  ro_immutable : cm_immutable cm = Some true;
  ro_binary : cm_binary cm = ∅;
  ro_owners : cm_owners cm = [];
  ro_label : mget (cm_labels cm) queueReceiptLabel = queueReceiptData;
  ro_bytes : (slen (json_print (json_of_data (cm_data cm))) <= 2 * maxEffectJSONBytes)%Z }.

(** [d] is the intent's data with the member for the missing requester UID
    replaced by one of another name. *)
Definition foreignMember (q : QueueIntent) (d : gmap string string) : Prop :=
  qi_RequesterUID q = "" /\ exists k v, data q !! k = None /\ d = <[k := v]> (delete "requesterUID" (data q)).

(** What is compared of the data: the number of members, and each of the
    intent's members with the value read under its key. *)
Definition dataMatches (q : QueueIntent) (d : gmap string string) : Prop :=
  size d = size (data q) /\ forall k v, data q !! k = Some v -> mget d k = v.

Lemma size_delete_S (m : gmap string string) k v : m !! k = Some v -> S (size (delete k m)) = size m.
Proof. intros Hk. rewrite <- (insert_delete_id m k v Hk) at 2. by rewrite map_size_insert_None by apply lookup_delete_eq. Qed.

(** A map whose only possibly empty value is at [key] is determined by its
    readings and its size, up to what stands for that value. *)
Lemma readings_inv (m d : gmap string string) key u :
  m !! key = Some u -> (forall k, m !! k = Some "" -> k = key /\ u = "") ->
  size d = size m -> (forall k v, m !! k = Some v -> mget d k = v) ->
  d = m \/ (u = "" /\ exists k v, m !! k = None /\ d = <[k := v]> (delete key m)).
Proof.
  intros Hr Hempty Hs Hd.
  assert (Hin : forall k v, m !! k = Some v -> v <> "" -> d !! k = Some v).
  { intros k v Hk Hne. specialize (Hd k v Hk). unfold mget in Hd. destruct (d !! k); simpl in Hd; congruence. }
  destruct (decide (d !! key = Some u)) as [E|E].
  { left. symmetry. apply map_subseteq_size_eq; [|by rewrite Hs]. apply map_subseteq_spec. intros k v Hk.
    destruct (decide (v = "")) as [->|Hne]; [|by apply Hin]. by destruct (Hempty k Hk) as [-> ->]. }
  right. assert (Hu : u = "") by (destruct (decide (u = "")); [done|]; by destruct E; apply Hin).
  assert (Hnone : d !! key = None).
  { specialize (Hd _ _ Hr). unfold mget in Hd. destruct (d !! key) as [v|]; [|done]. simpl in Hd. congruence. }
  set (D := delete key m). pose proof (size_delete_S _ _ _ Hr) as HsD. fold D in HsD.
  assert (Hsub : D ⊆ d).
  { apply map_subseteq_spec. intros k v [Hk Hkv]%lookup_delete_Some. apply Hin; [done|]. intros ->. by destruct (Hempty k Hkv). }
  destruct (decide (d ∖ D = ∅)) as [Ed|Ed].
  { exfalso. assert (d ⊆ D) as Hle%map_subseteq_size; [|lia]. apply map_subseteq_spec. intros k v Hk. destruct (D !! k) as [v'|] eqn:EDk.
    - f_equal. pose proof (lookup_weaken _ _ _ _ EDk Hsub). congruence.
    - assert (Hc : (d ∖ D) !! k = Some v) by (by apply lookup_difference_Some). rewrite Ed in Hc. by rewrite lookup_empty in Hc. }
  apply map_choose in Ed as (k & v & [Hk HDk]%lookup_difference_Some).
  split; [done|]. exists k, v. split.
  - unfold D in HDk. apply lookup_delete_None in HDk as [<-|?]; [congruence|done].
  - symmetry. apply map_subseteq_size_eq; [by apply insert_subseteq_l|]. rewrite map_size_insert_None by done. lia.
Qed.

Lemma readings_foreign (m : gmap string string) key k v :
  m !! key = Some "" -> m !! k = None ->
  size (<[k := v]> (delete key m)) = size m /\ forall k' v', m !! k' = Some v' -> mget (<[k := v]> (delete key m)) k' = v'.
Proof.
  intros Hr Hk. assert (Hne : k <> key) by congruence. split.
  - rewrite map_size_insert_None by (by rewrite lookup_delete_ne). by eapply size_delete_S.
  - intros k' v' Hk'. unfold mget. rewrite lookup_insert_ne by congruence.
    destruct (decide (k' = key)) as [->|Hn]; [|by rewrite lookup_delete_ne, Hk'].
    rewrite lookup_delete_eq. simpl. congruence.
Qed.

Lemma data_requesterUID q : data q !! "requesterUID" = Some (qi_RequesterUID q).
Proof. reflexivity. Qed.

Lemma dataMatches_inv q d :
  QueueIntent_validate q = None -> dataMatches q d -> d = data q \/ foreignMember q d.
Proof.
  intros Hv [Hs Hd]. apply (readings_inv (data q) d _ _ (data_requesterUID q)); [|exact Hs|exact Hd].
  intros k Hk. exact (data_value_empty q k Hv Hk).
Qed.

Lemma foreign_matches q d : foreignMember q d -> dataMatches q d.
Proof.
  intros (Hu & k & v & Hk & ->). pose proof (data_requesterUID q) as E. rewrite Hu in E.
  exact (readings_foreign (data q) _ k v E Hk).
Qed.

#[local] Opaque data.

Lemma QualifyQueue_iff q cm :
  is_ok (QualifyQueue q cm) = true <-> QueueIntent_validate q = None /\ receiptObject q cm /\ dataMatches q (cm_data cm).
Proof.
  assert (Hsz : size (data q) <> 0) by (intros E; apply map_size_empty_inv in E; pose proof (data_requesterUID q) as Hr; by rewrite E in Hr).
  unfold QualifyQueue, dataMatches. destruct (QueueIntent_validate q) as [e|]; [by split; [|intros [? _]]|].
  revert Hsz. generalize (data q) as m. intros m Hsz. split.
  - match goal with |- context [if ?c then _ else _] => destruct c eqn:E1; [done|] end.
    match goal with |- context [if ?c then _ else _] => destruct c eqn:E2; [done|] end.
    unfold DigestData. destruct (bool_decide (size (cm_data cm) = 0)); [done|]. destruct (Z.ltb_spec (maxEffectJSONBytes * 2) (slen (json_print (json_of_data (cm_data cm))))); [done|].
    intros _. bool_simpl. split; [done|]. split; [split; try done|split; [done|]].
    + unfold cm_key. by f_equal.
    + by apply is_true_ptr_true.
    + by apply map_size_empty_inv.
    + intros k v Hk. rewrite forallb_forall in E2. specialize (E2 (k, v)).
      rewrite <- list_elem_of_In, elem_of_map_to_list in E2. specialize (E2 Hk). by apply bool_decide_eq_true in E2.
  - intros (_ & [Hk Hu Hrv Hl Hi Hb Ho Hlab Hby] & Hs & Hd). injection Hk as Hns Hnm.
    match goal with |- context [if ?c then _ else _] => assert (c = false) as -> end.
    { rewrite Hns, Hnm, Hu, Hl, Hi, Hb, Ho, Hlab, Hs. unfold seqb, sempty. rewrite (bool_decide_eq_false_2 _ Hrv).
      rewrite !bool_decide_eq_true_2 by (done || apply map_size_empty). done. }
    match goal with |- context [if negb ?c then _ else _] => assert (c = true) as -> end.
    { apply forallb_forall. intros [k v] Hin. apply list_elem_of_In, elem_of_map_to_list in Hin. simpl. unfold seqb.
      apply bool_decide_eq_true. by apply Hd. }
    unfold DigestData. rewrite bool_decide_eq_false_2 by (by rewrite Hs). simpl negb. cbv iota.
    destruct (Z.ltb_spec (maxEffectJSONBytes * 2) (slen (json_print (json_of_data (cm_data cm))))); [lia|done].
Qed.

(** C39: Which queue receipts qualify.  [QualifyQueue] accepts a ConfigMap exactly
    when the intent is valid, the object is the intent's (its name in the receipt
    namespace, live, immutable, unowned, labelled, with a usable UID and version
    and at most 32 KiB of data) and its data is exactly the intent's; or, and only
    for a requester without a UID, the data has some foreign member in place of
    [requesterUID].  The second case is one the code means to refuse: a missing
    key reads as the empty string, and only the number of members is compared. *)
Theorem queue_receipt_qualifies q cm :
  is_ok (QualifyQueue q cm) = true <->
  QueueIntent_validate q = None /\ receiptObject q cm /\ (cm_data cm = data q \/ foreignMember q (cm_data cm)).
Proof.
  rewrite QualifyQueue_iff. split; intros (Hv & Ho & Hd); (split; [done|]; split; [done|]).
  - by apply dataMatches_inv.
  - destruct Hd as [->|Hd]; [|by apply foreign_matches]. split; [done|]. intros k v Hk. unfold mget. by rewrite Hk.
Qed.
End queue_qualification.

(** For a requester without a UID, a receipt with a foreign member qualifies. *)
Example queue_receipt_foreign_member :
  let q := ex_intent_of "" in
  let d := <["foreign" := "x"]> (delete "requesterUID" (data q)) in
  d <> data q /\ is_ok (QualifyQueue q (ex_receipt_object q d)) = true.
Proof.
  cbv zeta. split; [|vm_compute; reflexivity]. intros E.
  apply (f_equal (fun m => m !! "foreign")) in E. vm_compute in E. discriminate E.
Qed.

Lemma queue_receipt_qualifies_witness :
  let cm := ex_receipt_object (ex_intent_of "") (<["foreign" := "x"]> (delete "requesterUID" (data (ex_intent_of "")))) in
  is_ok (QualifyQueue (ex_intent_of "") cm) = true /\ receiptObject (ex_intent_of "") cm.
Proof.
  set (cm := ex_receipt_object _ _). cbv zeta.
  assert (E : is_ok (QualifyQueue (ex_intent_of "") cm) = true) by (vm_compute; reflexivity).
  split; [exact E|]. exact (proj1 (proj2 (proj1 (queue_receipt_qualifies (ex_intent_of "") cm) E))).
Defined.
