(* ===== verification/ActiveCodec.v ===== *)
(** * The active ledger's invariant and codec

    [validateReservationState] decides one order-independent invariant: no more
    grants, per-requester grants or worker slots than configured, and per-grant
    receipt discipline.  Every state that passes it fits the 768 KiB guard and
    survives a write and a read unchanged. *)
From S2P Require Import Prelude GoText Json JsonFacts AdmissionJson Sha256 Types JsonSize Kube Contract Genesis QueueReceipt QueueLedger QueueCodec ActiveLedger.

(** Slots and grants charged by a list of entries. *)
Fixpoint slotSum (l : list (string * activeReservation)) : Z :=
  match l with [] => 0 | (_, e) :: t => (ar_Slots e + slotSum t)%Z end.

Fixpoint requesterGrants (r : string) (l : list (string * activeReservation)) : Z :=
  match l with
  | [] => 0
  | (_, e) :: t => ((if seqb (ar_Requester e) r then 1 else 0) + requesterGrants r t)%Z
  end.

#[export] Instance slotSum_perm : Proper ((≡ₚ) ==> eq) slotSum.
Proof. induction 1 as [|[k e] l l' _ IH|[k e] [k' e'] l|l1 l2 l3 _ IH1 _ IH2]; simpl; lia. Qed.

#[export] Instance requesterGrants_perm r : Proper ((≡ₚ) ==> eq) (requesterGrants r).
Proof. induction 1 as [|[k e] l l' _ IH|[k e] [k' e'] l|l1 l2 l3 _ IH1 _ IH2]; simpl; lia. Qed.

Lemma requesterGrants_nonneg r l : (0 <= requesterGrants r l)%Z.
Proof. induction l as [|[k e] l IH]; simpl; [lia|]. destruct (seqb _ _); lia. Qed.

Section codec.
Context `{External}.

Record goodReservation (version slots : Z) (kv : string * activeReservation) : Prop := {
  gr_shape : invalidReservation slots (fst kv) (snd kv) = false;
  gr_legacy : version = 1%Z -> genesisFieldsSet (snd kv) = false;
  gr_genesis : version <> 1%Z -> invalidReceiptState (snd kv) = false }.

Record reservationsOK (s : reservationState) : Prop := {
  ro_version : rs_Version s = 1%Z \/ rs_Version s = 2%Z;
  ro_map : exists m, rs_Active s = Some m;
  ro_capacity : capacity_ok (rs_MaxJobs s) (rs_MaxPerRequester s) (rs_WorkerSlots s) = true;
  ro_size : (Z.of_nat (size (active s)) <= rs_MaxJobs s)%Z;
  ro_cursor : rs_LastGrantedRequesterHash s = "" \/ validReservationHex (rs_LastGrantedRequesterHash s) 64 = true;
  ro_entries : forall k e, active s !! k = Some e -> goodReservation (rs_Version s) (rs_WorkerSlots s) (k, e);
  ro_slots : (slotSum (map_to_list (active s)) <= rs_WorkerSlots s)%Z;
  ro_share : forall r, (requesterGrants r (map_to_list (active s)) <= rs_MaxPerRequester s)%Z }.

Lemma good_slots version slots kv : goodReservation version slots kv -> (1 <= ar_Slots (snd kv) <= slots)%Z.
Proof. intros [Hs _ _]. unfold invalidReservation in Hs. bool_simpl. lia. Qed.

Lemma slotSum_nonneg version slots l : Forall (goodReservation version slots) l -> (0 <= slotSum l)%Z.
Proof.
  induction 1 as [|[k e] l Hg _ IH]; simpl; [lia|]. apply good_slots in Hg. simpl in Hg. lia.
Qed.

Lemma validateActive_spec version slots per l used counts :
  validateActive version slots per l used counts = None <->
  Forall (goodReservation version slots) l /\
  (l <> [] -> (used + slotSum l <= slots)%Z) /\
  forall r, (0 < requesterGrants r l)%Z -> (default 0 (counts !! r) + requesterGrants r l <= per)%Z.
Proof.
  revert used counts. induction l as [|[k e] l IH]; intros used counts.
  { simpl. split; [intros _; split_and!; [constructor|done|intros; lia]|done]. }
  cbn [validateActive slotSum requesterGrants]. set (n := (default 0 (counts !! ar_Requester e) + 1)%Z). unfold seqb. split.
  - destruct (invalidReservation slots k e) eqn:E1; [done|].
    destruct ((version =? 1)%Z && genesisFieldsSet e) eqn:E2; [done|].
    destruct (negb (version =? 1)%Z && invalidReceiptState e) eqn:E3; [done|].
    destruct (Z.ltb_spec (slots - ar_Slots e) used) as [|Hu]; [done|].
    destruct (Z.ltb_spec per n) as [|Hn]; [done|]. intros (Hl & Hs & Hc)%IH. split_and!.
    + constructor; [|done]. constructor; simpl; [done| |]; intros Hv.
      * subst version. by destruct (genesisFieldsSet e).
      * destruct (Z.eqb_spec version 1); [done|]. by destruct (invalidReceiptState e).
    + intros _. destruct l as [|kv l']; [simpl; lia|]. specialize (Hs ltac:(done)). lia.
    + intros r Hr. case_bool_decide as Er.
      * subst r. specialize (Hc (ar_Requester e)). rewrite lookup_insert_eq in Hc. simpl in Hc.
        pose proof (requesterGrants_nonneg (ar_Requester e) l). unfold n in *.
        destruct (Z.eq_dec (requesterGrants (ar_Requester e) l) 0); [lia|]. specialize (Hc ltac:(lia)). lia.
      * specialize (Hc r). rewrite lookup_insert_ne in Hc by done. simpl in Hr |- *. apply Hc. lia.
  - intros ([Hg Hl]%Forall_cons & Hs & Hc). specialize (Hs ltac:(done)).
    pose proof (slotSum_nonneg _ _ _ Hl) as Hsn. destruct Hg as [G1 G2 G3]. simpl in G1, G2, G3. rewrite G1.
    assert ((version =? 1)%Z && genesisFieldsSet e = false) as ->.
    { destruct (Z.eqb_spec version 1); [by rewrite G2|done]. }
    assert (negb (version =? 1)%Z && invalidReceiptState e = false) as ->.
    { destruct (Z.eqb_spec version 1); [done|by rewrite G3]. }
    destruct (Z.ltb_spec (slots - ar_Slots e) used); [lia|].
    pose proof (requesterGrants_nonneg (ar_Requester e) l) as Hn0.
    pose proof (Hc (ar_Requester e)) as He. rewrite bool_decide_eq_true_2 in He by done.
    specialize (He ltac:(lia)). destruct (Z.ltb_spec per n) as [Hlt|_]; [unfold n in Hlt; lia|].
    apply IH. split_and!; [done|intros _; lia|]. intros r Hr.
    destruct (decide (r = ar_Requester e)) as [->|Hne].
    + rewrite lookup_insert_eq. simpl. unfold n. lia.
    + rewrite lookup_insert_ne by done. specialize (Hc r).
      rewrite bool_decide_eq_false_2 in Hc by done. specialize (Hc ltac:(lia)). lia.
Qed.

Lemma goodReservations_lookup version slots (m : gmap string activeReservation) :
  Forall (goodReservation version slots) (map_to_list m) <->
  forall k e, m !! k = Some e -> goodReservation version slots (k, e).
Proof.
  rewrite Forall_forall. split.
  - intros Hm id e He. apply Hm. by apply elem_of_map_to_list.
  - intros Hm [id e] He. apply Hm. by apply elem_of_map_to_list.
Qed.

Lemma capacity_spec j p w :
  capacity_ok j p w = true <-> (1 <= j <= 128)%Z /\ (1 <= p <= j)%Z /\ (1 <= w <= 65535)%Z.
Proof.
  unfold capacity_ok, MaxActiveJobs, MaxWorkerSlots, maxReservationLedgerBytes, maxReservationHeaderBytes, maxReservationEntryBytes.
  split.
  - intros E. bool_simpl. lia.
  - intros Hb. apply negb_true_iff. repeat apply orb_false_intro; lia.
Qed.

Lemma validateReservationState_ok s : validateReservationState s = None <-> reservationsOK s.
Proof.
  unfold validateReservationState. split.
  - destruct (_ || _) eqn:E; [done|]. intros (He & Hs & Hc)%validateActive_spec.
    apply orb_false_iff in E as [E Ecur]. bool_simpl.
    rewrite goodReservations_lookup in He. constructor; try done; try lia.
    + destruct (rs_Active s); [by eexists|done].
    + destruct (sempty (rs_LastGrantedRequesterHash s)) eqn:Es; bool_simpl; [by left|right].
      simpl in Ecur. bool_simpl. done.
    + destruct (map_to_list (active s)) eqn:El; [|specialize (Hs ltac:(done)); lia].
      simpl. match goal with Hk : capacity_ok _ _ _ = true |- _ => apply capacity_spec in Hk end. lia.
    + intros r. destruct (Z.eq_dec (requesterGrants r (map_to_list (active s))) 0) as [->|].
      { match goal with Hk : capacity_ok _ _ _ = true |- _ => apply capacity_spec in Hk end. lia. }
      pose proof (requesterGrants_nonneg r (map_to_list (active s))).
      specialize (Hc r ltac:(lia)). rewrite lookup_empty in Hc. simpl in Hc. lia.
  - intros [Hv [m Hm] Hcap Hsz Hcur He Hs Hsh]. rewrite Hm, Hcap. rewrite bool_decide_eq_false_2 by done.
    destruct (Z.ltb_spec (rs_MaxJobs s) (Z.of_nat (size (active s)))); [lia|].
    assert (negb (rs_Version s =? 1)%Z && negb (rs_Version s =? 2)%Z = false) as -> by (by destruct Hv as [-> | ->]).
    assert (negb (sempty (rs_LastGrantedRequesterHash s)) && negb (validReservationHex (rs_LastGrantedRequesterHash s) 64) = false) as ->.
    { destruct Hcur as [-> | ->]; [done|]. by rewrite andb_false_r. }
    simpl. apply validateActive_spec. split_and!; [by apply goodReservations_lookup|intros _; lia|].
    intros r _. rewrite lookup_empty. simpl. apply Hsh.
Qed.

(** ** Sizes *)

(** A string printed verbatim, of at most [n] bytes. *)
Definition plain_upto (n : Z) (s : string) : Prop := str_forallb plain_byte s = true /\ (slen s <= n)%Z.

Lemma plain_empty n : (0 <= n)%Z -> plain_upto n "".
Proof. by split. Qed.

Lemma hex_plain s n : validReservationHex s n = true -> plain_upto n s.
Proof. unfold validReservationHex. intros E. bool_simpl. split; [by apply lower_hex_plain|lia]. Qed.

Lemma grant_digest_plain s : validGrantReceiptDigest s = true -> plain_upto 71 s.
Proof.
  intros Hs. assert (Hd : validDigest s = true) by exact Hs.
  apply digest_plain in Hd as [? ?]. split; [done|lia].
Qed.

Lemma grant_uid_plain s : validGrantReceiptUID s = true -> plain_upto 64 s.
Proof. intros Hs. by apply uid_plain in Hs. Qed.

Lemma rv_valid s : validGrantObservedRV s = true -> (slen s <= 256)%Z /\ ValidString s = true.
Proof. unfold validGrantObservedRV, maxGrantObservedRVBytes. intros E. bool_simpl. done. Qed.

(** What a valid entry's fields look like, in either version. *)
Record plainReservation (kv : string * activeReservation) : Prop := {
  pr_key : (slen (fst kv) <= 256)%Z /\ ValidString (fst kv) = true;
  pr_name : plain_upto 253 (ar_BuildName (snd kv));
  pr_requester : (RuneCountInString (ar_Requester (snd kv)) <= 253)%Z /\ ValidString (ar_Requester (snd kv)) = true;
  pr_slots : (1 <= ar_Slots (snd kv) <= 65535)%Z;
  pr_nonce : plain_upto 32 (ar_GrantNonce (snd kv));
  pr_rv : (slen (ar_GrantObservedRV (snd kv)) <= 256)%Z /\ ValidString (ar_GrantObservedRV (snd kv)) = true;
  pr_guid : plain_upto 64 (ar_GrantReceiptUID (snd kv));
  pr_gdigest : plain_upto 71 (ar_GrantReceiptDigest (snd kv));
  pr_attempt : plain_upto 32 (ar_PodAttemptNonce (snd kv));
  pr_template : plain_upto 71 (ar_PodTemplateDigest (snd kv));
  pr_puid : plain_upto 64 (ar_PodReceiptUID (snd kv));
  pr_pdigest : plain_upto 71 (ar_PodReceiptDigest (snd kv));
  pr_flight : ar_InFlight (snd kv) = [] \/ exists a, ar_InFlight (snd kv) = [a] /\ plain_upto 32 a }.

Lemma or_empty {P : string -> Prop} (f : string -> bool) s :
  P "" -> (f s = true -> P s) -> (sempty s = false -> f s = true) -> P s.
Proof. intros H0 Hf Hs. destruct (sempty s) eqn:E; [|auto]. bool_simpl. by subst. Qed.

(** The conditions of version 2 that bound the entry's strings. *)
Record receiptStrings (e : activeReservation) : Prop := {
  rs_nonce : validReservationHex (ar_GrantNonce e) 32 = true;
  rs_rv : sempty (ar_GrantObservedRV e) = false -> validGrantObservedRV (ar_GrantObservedRV e) = true;
  rs_glink : sempty (ar_GrantReceiptUID e) = sempty (ar_GrantReceiptDigest e);
  rs_guid : sempty (ar_GrantReceiptUID e) = false -> validGrantReceiptUID (ar_GrantReceiptUID e) = true;
  rs_gdigest : sempty (ar_GrantReceiptUID e) = false -> validGrantReceiptDigest (ar_GrantReceiptDigest e) = true;
  rs_attempt : sempty (ar_PodAttemptNonce e) = false -> validReservationHex (ar_PodAttemptNonce e) 32 = true;
  rs_template : sempty (ar_PodTemplateDigest e) = false -> validGrantReceiptDigest (ar_PodTemplateDigest e) = true;
  rs_plink : sempty (ar_PodReceiptUID e) = sempty (ar_PodReceiptDigest e);
  rs_puid : sempty (ar_PodReceiptUID e) = false -> validGrantReceiptUID (ar_PodReceiptUID e) = true;
  rs_pdigest : sempty (ar_PodReceiptUID e) = false -> validGrantReceiptDigest (ar_PodReceiptDigest e) = true }.

(** [set && (a || b || c)] is false and [set] holds: each disjunct is false. *)
Lemma guard_false (set bad : bool) : set && bad = false -> set = true -> bad = false.
Proof. by destruct set. Qed.

Lemma invalidReceiptState_strings e : invalidReceiptState e = false -> receiptStrings e.
Proof.
  unfold invalidReceiptState. rewrite !orb_false_iff.
  intros (((((((((((((Hn & _) & Hrv) & Hx) & Hg) & _) & _) & Ha) & _) & Ht) & Hx') & Hp) & _) & _).
  constructor; try (by apply negb_false_iff); try (by apply xorb_eq);
    intros Hs; apply negb_true_iff in Hs;
    first [apply (guard_false _ _ Hrv) in Hs | apply (guard_false _ _ Hg) in Hs | apply (guard_false _ _ Ha) in Hs
          | apply (guard_false _ _ Ht) in Hs | apply (guard_false _ _ Hp) in Hs];
    rewrite ?orb_false_iff in Hs; destruct_and?; by apply negb_false_iff.
Qed.

Lemma linked_plain {P : string -> Prop} (f : string -> bool) a s :
  P "" -> (f s = true -> P s) -> sempty a = sempty s -> (sempty a = false -> f s = true) -> P s.
Proof. intros H0 Hf Hl Hs. apply (or_empty f); [done|done|]. rewrite <- Hl. done. Qed.

Lemma goodReservation_plain version slots kv :
  (slots <= 65535)%Z -> goodReservation version slots kv -> plainReservation kv.
Proof.
  intros Hsl Hg. pose proof (good_slots _ _ _ Hg) as Hslots. destruct Hg as [Hs Hl Hgen]. destruct kv as [k e].
  unfold invalidReservation, maxReservationUIDBytes, maxRequesterRunes in Hs. simpl in *.
  apply orb_false_iff in Hs as [Hs Hf]. bool_simpl.
  assert (Hflight : ar_InFlight e = [] \/ exists a, ar_InFlight e = [a] /\ plain_upto 32 a).
  { destruct (ar_InFlight e) as [|a [|b l]]; [by left|right|simpl in *; lia]. exists a. split; [done|].
    apply hex_plain. by apply negb_false_iff. }
  assert (Hname : plain_upto 253 (ar_BuildName e)) by (split; [by apply dns_plain|lia]).
  destruct (Z.eq_dec version 1) as [Hv|Hv].
  - specialize (Hl Hv). unfold genesisFieldsSet in Hl. bool_simpl.
    repeat match goal with E : ?f e = "" |- _ => revert E end. intros.
    constructor; simpl; try done; try lia;
      match goal with |- context [?f e] => replace (f e) with "" by congruence end; done.
  - destruct (invalidReceiptState_strings e (Hgen Hv)) as [R1 R2 R3 R4 R5 R6 R7 R8 R9 R10].
    constructor; simpl; try done; try lia.
    + by apply hex_plain.
    + apply (or_empty (P := fun s => (slen s <= 256)%Z /\ ValidString s = true) validGrantObservedRV); [done|apply rv_valid|done].
    + eapply (or_empty validGrantReceiptUID); [done|apply grant_uid_plain|done].
    + eapply (linked_plain validGrantReceiptDigest); [done|apply grant_digest_plain|exact R3|done].
    + eapply (or_empty (fun s => validReservationHex s 32)); [done|apply hex_plain|done].
    + eapply (or_empty validGrantReceiptDigest); [done|apply grant_digest_plain|done].
    + eapply (or_empty validGrantReceiptUID); [done|apply grant_uid_plain|done].
    + eapply (linked_plain validGrantReceiptDigest); [done|apply grant_digest_plain|exact R8|done].
Qed.

(** The unsigned counters of a state and its entries. *)
Definition uint64Reservations (s : reservationState) : Prop :=
  (0 <= rs_Fence s < 2 ^ 64)%Z /\
  forall k e, active s !! k = Some e -> (0 <= ar_GrantFence e < 2 ^ 64)%Z.

Lemma obj_len_flight l :
  l = [] \/ (exists a, l = [a] /\ plain_upto 32 a) -> (obj_len (jl_omit "inFlight" l) <= 50)%Z.
Proof.
  intros [->|(a & -> & Hp & Hl)]; [done|]. unfold jl_omit. rewrite obj_len_one.
  change (json_print (JArr (List.map JStr [a]))) with (String "[" (json_quote a +:+ "]")).
  change (String.length (String "[" ?x)) with (S (String.length x)).
  change (String.length (json_quote "inFlight")) with 10. rewrite length_append, json_quote_plain by done.
  change (String.length "]") with 1. unfold slen in Hl. lia.
Qed.

Lemma reservation_len kv :
  plainReservation kv -> (0 <= ar_GrantFence (snd kv) < 2 ^ 64)%Z ->
  (1 + Z.of_nat (String.length (print_member (fst kv, json_of_reservation (snd kv)))) <= 6000)%Z.
Proof.
  intros [[K1 _] [N1 N2] [R1 _] Sl [P1 Q1] [V1 _] [P2 Q2] [P3 Q3] [P4 Q4] [P5 Q5] [P6 Q6] [P7 Q7] Hf] Hb.
  destruct kv as [k e]. cbn [fst snd] in *. unfold print_member. cbn [fst snd]. rewrite length_append.
  change (String.length (String ":" ?x)) with (S (String.length x)).
  pose proof (json_quote_length k) as Hk.
  assert (Ho : (Z.of_nat (String.length (json_print (json_of_reservation e))) <= 4400)%Z); [|unfold slen in *; lia].
  unfold json_of_reservation. etransitivity; [apply print_obj_len|]. rewrite !obj_len_app.
  rewrite (obj_len_js "buildName") by done.
  pose proof (obj_len_js_runes "requester" (ar_Requester e) 253 eq_refl R1) as L1.
  pose proof (obj_len_jn "slots" (ar_Slots e) 5 eq_refl ltac:(lia) ltac:(lia)
    ltac:(change (10 ^ Z.of_nat 5)%Z with 100000%Z; lia)) as L2.
  pose proof (obj_len_js_omit "grantNonce" _ eq_refl P1) as L3.
  pose proof (obj_len_jn_omit "grantFence" (ar_GrantFence e) 20 eq_refl ltac:(lia) ltac:(lia)
    ltac:(change (10 ^ Z.of_nat 20)%Z with 100000000000000000000%Z; lia)) as L4.
  pose proof (obj_len_js_omit_length "grantObservedRV" _ 256 eq_refl V1) as L5.
  pose proof (obj_len_js_omit "grantReceiptUID" _ eq_refl P2) as L6.
  pose proof (obj_len_js_omit "grantReceiptDigest" _ eq_refl P3) as L7.
  pose proof (obj_len_jb_omit "grantCleanupReady" (ar_GrantCleanupReady e) eq_refl) as L8.
  pose proof (obj_len_js_omit "podAttemptNonce" _ eq_refl P4) as L9.
  pose proof (obj_len_js_omit "podTemplateDigest" _ eq_refl P5) as L10.
  pose proof (obj_len_js_omit "podReceiptUID" _ eq_refl P6) as L11.
  pose proof (obj_len_js_omit "podReceiptDigest" _ eq_refl P7) as L12.
  pose proof (obj_len_jb_omit "podCleanupReady" (ar_PodCleanupReady e) eq_refl) as L13.
  pose proof (obj_len_jb_omit "closing" (ar_Closing e) eq_refl) as L14.
  pose proof (obj_len_flight _ Hf) as L15.
  slen_consts.
  change (slen "buildName") with 9%Z. lia.
Qed.

Lemma reservation_entries_len l :
  Forall plainReservation l -> Forall (fun kv => (0 <= ar_GrantFence (snd kv) < 2 ^ 64)%Z) l ->
  (obj_len (List.map (fun kv => (fst kv, json_of_reservation (snd kv))) l) <= 6000 * Z.of_nat (List.length l))%Z.
Proof.
  intros Hp Hb. induction Hp as [|kv l Hk Hl IH]; [simpl; lia|].
  apply Forall_cons in Hb as [Hb Hbl]. specialize (IH Hbl). pose proof (reservation_len kv Hk Hb).
  change (obj_len (List.map ?f (kv :: l))) with
    (1 + Z.of_nat (String.length (print_member (f kv))) + obj_len (List.map f l))%Z.
  simpl List.length. lia.
Qed.

Lemma active_entries_plain s m :
  reservationsOK s -> rs_Active s = Some m -> Forall plainReservation (sorted_entries m).
Proof.
  intros Hs Hm. apply Forall_forall. intros [k e] He%elem_of_sorted_entries.
  apply (goodReservation_plain (rs_Version s) (rs_WorkerSlots s)).
  - pose proof (ro_capacity s Hs) as Hc. apply capacity_spec in Hc. lia.
  - apply (ro_entries s Hs). unfold active. by rewrite Hm.
Qed.

Lemma active_entries_bounds s m :
  uint64Reservations s -> rs_Active s = Some m ->
  Forall (fun kv => (0 <= ar_GrantFence (snd kv) < 2 ^ 64)%Z) (sorted_entries m).
Proof.
  intros [_ Hb] Hm. apply Forall_forall. intros [k e] He%elem_of_sorted_entries.
  apply (Hb k). unfold active. by rewrite Hm.
Qed.

Lemma cursor_plain s : reservationsOK s -> plain_upto 64 (rs_LastGrantedRequesterHash s).
Proof. intros Hs. destruct (ro_cursor s Hs) as [->|Hc]; [done|by apply hex_plain]. Qed.

Lemma reservations_len s :
  reservationsOK s -> uint64Reservations s ->
  (slen (json_print (json_of_reservations s)) <= maxReservationHeaderBytes + rs_MaxJobs s * maxReservationEntryBytes)%Z.
Proof.
  intros Hs Hb. destruct (ro_map s Hs) as [m Hm].
  pose proof (reservation_entries_len _ (active_entries_plain s m Hs Hm) (active_entries_bounds s m Hb Hm)) as Hms.
  assert (Hlen : List.length (sorted_entries m) = size (active s)).
  { rewrite sorted_entries_perm. unfold active. rewrite Hm. simpl. apply length_map_to_list. }
  rewrite Hlen in Hms. unfold json_of_reservations, slen. rewrite Hm.
  set (ms := List.map _ (sorted_entries m)) in *.
  etransitivity; [apply print_obj_len|]. rewrite !obj_len_app, obj_len_one.
  pose proof (print_obj_len ms). pose proof (ro_size s Hs) as Hsz.
  pose proof (ro_capacity s Hs) as Hc. apply capacity_spec in Hc. destruct Hb as [Hf _].
  destruct (cursor_plain s Hs) as [C1 C2].
  assert (Hv : (0 <= rs_Version s < 10)%Z) by (destruct (ro_version s Hs) as [-> | ->]; lia).
  pose proof (obj_len_jn "version" (rs_Version s) 1 eq_refl ltac:(lia) ltac:(lia) ltac:(simpl; lia)).
  pose proof (obj_len_jn "fence" (rs_Fence s) 20 eq_refl ltac:(lia) ltac:(lia)
    ltac:(change (10 ^ Z.of_nat 20)%Z with 100000000000000000000%Z; lia)).
  pose proof (obj_len_jn "maxJobs" (rs_MaxJobs s) 3 eq_refl ltac:(lia) ltac:(lia) ltac:(change (10 ^ Z.of_nat 3)%Z with 1000%Z; lia)).
  pose proof (obj_len_jn "maxPerRequester" (rs_MaxPerRequester s) 3 eq_refl ltac:(lia) ltac:(lia) ltac:(change (10 ^ Z.of_nat 3)%Z with 1000%Z; lia)).
  pose proof (obj_len_jn "workerSlots" (rs_WorkerSlots s) 5 eq_refl ltac:(lia) ltac:(lia) ltac:(change (10 ^ Z.of_nat 5)%Z with 100000%Z; lia)).
  pose proof (obj_len_js_omit "lastGrantedRequesterHash" _ eq_refl C1).
  slen_consts.
  change (String.length (json_quote "active")) with 8.
  unfold maxReservationHeaderBytes, maxReservationEntryBytes. lia.
Qed.

Lemma encodeReservations_fits s :
  reservationsOK s -> uint64Reservations s -> encodeReservations s = Ok (json_print (json_of_reservations s)).
Proof.
  intros Hs Hb. unfold encodeReservations. rewrite (proj2 (validateReservationState_ok s) Hs).
  pose proof (reservations_len s Hs Hb) as Hl. pose proof (ro_capacity s Hs) as Hc. apply capacity_spec in Hc.
  destruct (Z.ltb_spec maxReservationLedgerBytes (slen (json_print (json_of_reservations s)))); [|done].
  unfold maxReservationLedgerBytes, maxReservationHeaderBytes, maxReservationEntryBytes in *. lia.
Qed.

(** ** Reading back *)

Lemma flight_roundtrip l : string_list (jfield (jl_omit "inFlight" l) "inFlight") = Some l.
Proof.
  destruct l as [|a l]; [done|]. simpl.
  assert (Hl : jstrings (List.map JStr l) = Some l) by (induction l as [|b l IH]; simpl; [done|by rewrite IH]).
  by rewrite Hl.
Qed.

Lemma reservation_roundtrip e :
  (0 <= ar_Slots e < 2 ^ 63)%Z -> (0 <= ar_GrantFence e < 2 ^ 64)%Z ->
  reservation_of_json (json_of_reservation e) = Some e.
Proof.
  intros Hs Hf. unfold json_of_reservation.
  match goal with |- reservation_of_json (JObj ?m) = _ => remember m as l eqn:E end.
  assert (jstring (jfield l "buildName") = Some (ar_BuildName e)) as FBuildName by (rewrite E; jread).
  assert (jstring (jfield l "requester") = Some (ar_Requester e)) as FRequester by (rewrite E; jread).
  assert (jint64 (jfield l "slots") = Some (ar_Slots e)) as FSlots by (rewrite E; jread).
  assert (jstring (jfield l "grantNonce") = Some (ar_GrantNonce e)) as FGrantNonce by (rewrite E; jread).
  assert (juint64 (jfield l "grantFence") = Some (ar_GrantFence e)) as FGrantFence by (rewrite E; jread).
  assert (jstring (jfield l "grantObservedRV") = Some (ar_GrantObservedRV e)) as FGrantObservedRV by (rewrite E; jread).
  assert (jstring (jfield l "grantReceiptUID") = Some (ar_GrantReceiptUID e)) as FGrantReceiptUID by (rewrite E; jread).
  assert (jstring (jfield l "grantReceiptDigest") = Some (ar_GrantReceiptDigest e)) as FGrantReceiptDigest by (rewrite E; jread).
  assert (jbool (jfield l "grantCleanupReady") = Some (ar_GrantCleanupReady e)) as FGrantCleanupReady by (rewrite E; jread).
  assert (jstring (jfield l "podAttemptNonce") = Some (ar_PodAttemptNonce e)) as FPodAttemptNonce by (rewrite E; jread).
  assert (jstring (jfield l "podTemplateDigest") = Some (ar_PodTemplateDigest e)) as FPodTemplateDigest by (rewrite E; jread).
  assert (jstring (jfield l "podReceiptUID") = Some (ar_PodReceiptUID e)) as FPodReceiptUID by (rewrite E; jread).
  assert (jstring (jfield l "podReceiptDigest") = Some (ar_PodReceiptDigest e)) as FPodReceiptDigest by (rewrite E; jread).
  assert (jbool (jfield l "podCleanupReady") = Some (ar_PodCleanupReady e)) as FPodCleanupReady by (rewrite E; jread).
  assert (jbool (jfield l "closing") = Some (ar_Closing e)) as FClosing by (rewrite E; jread).
  assert (string_list (jfield l "inFlight") = Some (ar_InFlight e)) as FInFlight
    by (rewrite E; jskip; apply flight_roundtrip).
  unfold reservation_of_json. rewrite FBuildName, FRequester, FSlots, FGrantNonce, FGrantFence, FGrantObservedRV, FGrantReceiptUID, FGrantReceiptDigest, FGrantCleanupReady, FPodAttemptNonce, FPodTemplateDigest, FPodReceiptUID, FPodReceiptDigest, FPodCleanupReady, FClosing, FInFlight.
  by destruct e.
Qed.

Lemma reservation_entries_roundtrip l :
  Forall plainReservation l -> Forall (fun kv => (0 <= ar_GrantFence (snd kv) < 2 ^ 64)%Z) l ->
  reservation_entries_of_json (List.map (fun kv => (fst kv, json_of_reservation (snd kv))) l) = Some l.
Proof.
  induction 1 as [|[k e] l Hk Hl IH]; intros Hb; [done|]. apply Forall_cons in Hb as [Hb Hbl].
  cbn [List.map reservation_entries_of_json fst snd].
  pose proof (pr_slots _ Hk) as Hs. simpl in Hs, Hb. rewrite reservation_roundtrip by lia. by rewrite IH.
Qed.

Lemma reservations_roundtrip s :
  reservationsOK s -> uint64Reservations s -> reservations_of_json (json_of_reservations s) = Some s.
Proof.
  intros Hs Hb. destruct (ro_map s Hs) as [m Hm].
  pose proof (reservation_entries_roundtrip _ (active_entries_plain s m Hs Hm) (active_entries_bounds s m Hb Hm)) as He.
  pose proof (ro_capacity s Hs) as Hc. apply capacity_spec in Hc. destruct Hb as [Hf _].
  assert (Hv : (0 <= rs_Version s < 10)%Z) by (destruct (ro_version s Hs) as [-> | ->]; lia).
  unfold json_of_reservations. rewrite Hm.
  match goal with |- reservations_of_json (JObj ?x) = _ => remember x as l eqn:E end.
  assert (jint64 (jfield l "version") = Some (rs_Version s)) as F1 by (rewrite E; jread).
  assert (juint64 (jfield l "fence") = Some (rs_Fence s)) as F2 by (rewrite E; jread).
  assert (jint64 (jfield l "maxJobs") = Some (rs_MaxJobs s)) as F3 by (rewrite E; jread).
  assert (jint64 (jfield l "maxPerRequester") = Some (rs_MaxPerRequester s)) as F4 by (rewrite E; jread).
  assert (jint64 (jfield l "workerSlots") = Some (rs_WorkerSlots s)) as F5 by (rewrite E; jread).
  assert (jstring (jfield l "lastGrantedRequesterHash") = Some (rs_LastGrantedRequesterHash s)) as F6 by (rewrite E; jread).
  assert (active_of_json (jfield l "active") = Some (Some m)) as F7.
  { rewrite E. jskip. simpl. rewrite He. by rewrite sorted_entries_map. }
  unfold reservations_of_json. rewrite F1, F2, F3, F4, F5, F6, F7. destruct s; simpl in *. by subst.
Qed.

Lemma flight_valid e :
  ar_InFlight e = [] \/ (exists a, ar_InFlight e = [a] /\ plain_upto 32 a) ->
  Forall (fun s => ValidString s = true) (ar_InFlight e).
Proof. intros [->|(a & -> & Ha & _)]; [constructor|]. constructor; [by apply plain_valid|constructor]. Qed.

Lemma json_of_reservation_wf kv : plainReservation kv -> jwf (json_of_reservation (snd kv)).
Proof.
  intros [_ [N1 _] [_ R1] _ [P1 _] [_ V1] [P2 _] [P3 _] [P4 _] [P5 _] [P6 _] [P7 _] Hf].
  unfold json_of_reservation. match goal with |- jwf (JObj ?l) => change (members_wf l) end.
  repeat apply members_wf_app;
    first [apply js_wf|apply js_omit_wf|apply jn_wf|apply jn_omit_wf|apply jb_omit_wf|apply jl_omit_wf];
    solve [done|by apply plain_valid|by apply flight_valid].
Qed.

Lemma json_of_reservations_wf s : reservationsOK s -> jwf (json_of_reservations s).
Proof.
  intros Hs. destruct (ro_map s Hs) as [m Hm]. pose proof (active_entries_plain s m Hs Hm) as Hp.
  destruct (cursor_plain s Hs) as [C1 _].
  unfold json_of_reservations. rewrite Hm. match goal with |- jwf (JObj ?l) => change (members_wf l) end.
  repeat apply members_wf_app; try (by apply jn_wf); try (apply js_omit_wf; [done|by apply plain_valid]).
  split; [done|]. split; [|done]. match goal with |- jwf (JObj ?l) => change (members_wf l) end.
  induction Hp as [|[k e] l Hk Hl IH]; [done|]. cbn [List.map fst snd]. split; [apply (pr_key _ Hk)|].
  split; [by apply (json_of_reservation_wf (k, e))|done].
Qed.

(** ** The strict schema *)

Definition reservationKeys : list string :=
  ["buildName"; "requester"; "slots"; "grantNonce"; "grantFence"; "grantObservedRV"; "grantReceiptUID";
   "grantReceiptDigest"; "grantCleanupReady"; "podAttemptNonce"; "podTemplateDigest"; "podReceiptUID";
   "podReceiptDigest"; "podCleanupReady"; "closing"; "inFlight"].

Lemma reservation_member_check e k v path :
  (k, v) ∈ match json_of_reservation e with JObj l => l | _ => [] end ->
  checkValue v path allowedReservationField 3 = None.
Proof.
  unfold json_of_reservation, js, js_omit, jn, jn_omit, jb_omit, jl_omit. intros Hin.
  repeat (apply elem_of_app in Hin as [Hin|Hin]);
    repeat match type of Hin with context [if ?b then _ else _] => destruct b end;
    try (by apply elem_of_nil in Hin); try (apply list_elem_of_singleton in Hin; injection Hin as -> ->; by apply check_scalar).
  apply list_elem_of_singleton in Hin. injection Hin as -> ->. simpl. induction l as [|b l IH]; [done|exact IH].
Qed.

Lemma check_reservation k e : checkValue (json_of_reservation e) ["active"; k] allowedReservationField 2 = None.
Proof.
  unfold json_of_reservation. apply (check_object reservationKeys); [lia| |compute_decide|repeat constructor|].
  - unfold reservationKeys. repeat (apply keyed_app; [solve [auto with kova]|]).
    apply (keyed_jl_omit "inFlight").
  - intros k' v' Hin. exact (reservation_member_check e k' v' _ Hin).
Qed.

Lemma check_active_entries m :
  checkValue (JObj (List.map (fun kv => (fst kv, json_of_reservation (snd kv))) (sorted_entries m)))
    ["active"] allowedReservationField 1 = None.
Proof.
  rewrite checkValue_obj. simpl. apply check_members.
  - rewrite <- list_fmap_compose. apply (sorted_entries_nodup m).
  - by intros k ?%elem_of_nil.
  - done.
  - intros k v Hin. apply list_elem_of_fmap in Hin as ([k' e] & [= -> ->] & _). apply check_reservation.
Qed.

Lemma check_reservations s m :
  rs_Active s = Some m -> checkValue (json_of_reservations s) [] allowedReservationField 0 = None.
Proof.
  intros Hm. unfold json_of_reservations. rewrite Hm.
  apply (check_object ["version"; "fence"; "maxJobs"; "maxPerRequester"; "workerSlots"; "lastGrantedRequesterHash"; "active"]);
    [lia| |compute_decide|repeat constructor|].
  - repeat (apply keyed_app; [solve [auto with kova]|]). apply (keyed_one "active").
  - unfold jn, js_omit. intros k v Hin.
    repeat (apply elem_of_app in Hin as [Hin|Hin]);
      repeat match type of Hin with context [if ?b then _ else _] => destruct b end;
      try (by apply elem_of_nil in Hin);
      apply list_elem_of_singleton in Hin; injection Hin as -> ->; try (by apply check_scalar).
    apply check_active_entries.
Qed.

Lemma parseReservations_print s :
  reservationsOK s -> uint64Reservations s -> parseReservations (json_print (json_of_reservations s)) = Ok s.
Proof.
  intros Hs Hb. destruct (ro_map s Hs) as [m Hm]. unfold parseReservations.
  apply Decode_print.
  - by apply json_of_reservations_wf.
  - by eapply check_reservations.
  - by rewrite reservations_roundtrip.
Qed.
End codec.
