(* ===== verification/FairQueue.v ===== *)
(** * Admission decisions

    Models the pure part of [src/internal/service/buildcontroller/admission.go]:
    which queued build may take the next runner grant.  Requesters are served
    round-robin, fewer current grants first, rotating after the last committed
    grant inside the cursor's tier. *)
From S2P Require Import Prelude GoText Json Types Sha256 QueueLedger ActiveLedger.

(** ** Build predicates *)

(** [src/internal/service/recoverydrain/drain.go]: the inert tombstone. *)
Definition markerKey : string := "kova.cofy.dev/recovery-tombstone".
Definition markerValue : string := "v1".
Definition holdFinalizer : string := "kova.cofy.dev/recovery-hold".

Definition inertBuildSpec : KovaBuildSpec :=
  {| sp_requester := {| rq_username := "recovery-tombstone"; rq_uid := "" |};
     sp_targets := [{| tg_target := "recovery.invalid/tombstone:never"; tg_platform := "linux/amd64" |}];
     sp_source := {| src_uri := "https://recovery.invalid/inert";
                     src_digest := "sha256:0000000000000000000000000000000000000000000000000000000000000000" |};
     sp_build := {| bo_format := "oci"; bo_concurrency := 1; bo_timeout := 0; bo_oomCooldown := "";
                    bo_failFast := false; bo_verbose := false; bo_vars := [] |};
     sp_idempotencyKey := "" |}.

Definition IsInertBuildTombstone (b : KovaBuild) : bool :=
  seqb (mget (kb_labels b) markerKey) markerValue && negb (sempty (mget (kb_annotations b) markerKey)) &&
  negb (sempty (mget (kb_annotations b) "kova.cofy.dev/recovery-epoch-uid")) &&
  bool_decide (holdFinalizer ∈ kb_finalizers b) && bool_decide (kb_owners b = []) &&
  bool_decide (kb_spec b = inertBuildSpec).

Definition buildLess (left right : KovaBuild) : bool :=
  if (kb_created left =? kb_created right)%Z then str_ltb (kb_name left) (kb_name right)
  else (kb_created left <? kb_created right)%Z.

Definition requesterKey (b : KovaBuild) : string :=
  if negb (sempty (rq_username (sp_requester (kb_spec b)))) then rq_username (sp_requester (kb_spec b))
  else "unknown/" +:+ kb_name b.

Definition requestedConcurrency (b : KovaBuild) : Z :=
  if (0 <? bo_concurrency (sp_build (kb_spec b)))%Z then bo_concurrency (sp_build (kb_spec b)) else 1.

Definition allocatedConcurrency (b : KovaBuild) : Z :=
  if (0 <? kb_allocated b)%Z then kb_allocated b else requestedConcurrency b.

(** ** Counting over the active map *)

Definition usedSlots (m : gmap string activeReservation) : Z := map_fold (fun _ e n => (n + ar_Slots e)%Z) 0%Z m.

(** [activeByRequester[r]]; an absent key reads 0. *)
Definition countRequester (m : gmap string activeReservation) (r : string) : Z :=
  map_fold (fun _ e n => if seqb (ar_Requester e) r then (n + 1)%Z else n) 0%Z m.

(** ** The fair queue *)

Definition queuedAdmissionCandidates (builds : list KovaBuild) (m : gmap string activeReservation) : list KovaBuild :=
  List.filter (fun b => negb (IsInertBuildTombstone b) && negb (kb_deleting b) && negb (cancellationRequested b) &&
    queuedPhase (kb_phase b) &&
    match m !! reservationKey b with Some e => (ar_Slots e =? 0)%Z | None => true end) builds.

(** [sort.Slice]: elements that compare equal keep their order here. *)
Fixpoint insert_by {A} (lt : A -> A -> bool) (x : A) (l : list A) : list A :=
  match l with
  | [] => [x]
  | y :: r => if lt y x then y :: insert_by lt x r else x :: l
  end.
Fixpoint sort_by {A} (lt : A -> A -> bool) (l : list A) : list A :=
  match l with [] => [] | x :: r => insert_by lt x (sort_by lt r) end.

(** [groups[key] = append(groups[key], build)]. *)
Definition add_to_group (g : gmap string (list KovaBuild)) (b : KovaBuild) : gmap string (list KovaBuild) :=
  <[requesterKey b := default [] (g !! requesterKey b) ++ [b]]> g.

Definition groups_of (builds : list KovaBuild) : gmap string (list KovaBuild) :=
  sort_by buildLess <$>
    foldl add_to_group ∅ builds.

Definition group (groups : gmap string (list KovaBuild)) (r : string) : list KovaBuild := default [] (groups !! r).

(** The requester comparison: fewer grants, then the older head, then the name. *)
Definition requesterLess (groups : gmap string (list KovaBuild)) (counts : string -> Z) (a b : string) : bool :=
  if negb (counts a =? counts b)%Z then (counts a <? counts b)%Z
  else match head (group groups a), head (group groups b) with
  | Some x, Some y =>
      if buildLess x y then true else if buildLess y x then false else str_ltb a b
  | _, _ => str_ltb a b
  end.

(** Splits a list at the first element satisfying [p]. *)
Fixpoint split_first {A} (p : A -> bool) (l : list A) : option (list A * A * list A) :=
  match l with
  | [] => None
  | x :: r =>
      if p x then Some ([], x, r)
      else match split_first p r with
           | Some (pre, y, post) => Some (x :: pre, y, post)
           | None => None
           end
  end.

(** The longest prefix of elements satisfying [p]. *)
Fixpoint span {A} (p : A -> bool) (l : list A) : list A * list A :=
  match l with
  | [] => ([], [])
  | x :: r => if p x then let '(a, b) := span p r in (x :: a, b) else ([], l)
  end.

(** The rotation loop: [requesters[start:end]] becomes
    [requesters[i+1:end] ++ requesters[start:i+1]]. *)
Definition rotate (counts : string -> Z) (last : string) (requesters : list string) : list string :=
  match split_first (fun r => seqb (HashRequester r) last) requesters with
  | None => requesters
  | Some (pre, r, post) =>
      let tier x := (counts x =? counts r)%Z in
      let '(before_rev, outer_rev) := span tier (rev pre) in
      let '(after, rest) := span tier post in
      rev outer_rev ++ after ++ rev before_rev ++ [r] ++ rest
  end.

Definition requesterOrder (builds : list KovaBuild) (counts : string -> Z) (last : string) : list string :=
  let groups := groups_of builds in
  rotate counts last (sort_by (requesterLess groups counts) (List.map fst (map_to_list groups))).

Definition round_of (groups : gmap string (list KovaBuild)) (requesters : list string) (round : nat) : list KovaBuild :=
  omap (fun r => group groups r !! round) requesters.

(** [for round := 0; len(ordered) < len(builds); round++]. *)
Fixpoint fairRounds (fuel : nat) (groups : gmap string (list KovaBuild)) (requesters : list string) (total round : nat)
    (ordered : list KovaBuild) : list KovaBuild :=
  match fuel with
  | O => ordered
  | S fuel' =>
      if (List.length ordered <? total)%nat
      then fairRounds fuel' groups requesters total (S round) (ordered ++ round_of groups requesters round)
      else ordered
  end.

Definition fairQueue (builds : list KovaBuild) (counts : string -> Z) (last : string) : list KovaBuild :=
  fairRounds (List.length builds) (groups_of builds) (requesterOrder builds counts last) (List.length builds) 0 [].

(** ** Decisions *)

Record admissionDecision := mkDecision {
  ad_Admitted : bool;
  ad_Allocation : Z;
  ad_Message : string;
  ad_Deferred : bool }.

Definition noDecision : admissionDecision := mkDecision false 0 "" false.
Definition waiting (msg : string) : admissionDecision := mkDecision false 0 msg false.
Definition admitted (allocation : Z) : admissionDecision := mkDecision true allocation "" false.

Definition saturatedAdmission (build : KovaBuild) (m : gmap string activeReservation)
    (maxJobs maxRequesterJobs workerSlots : Z) : option admissionDecision :=
  if (0 <? maxJobs)%Z && (maxJobs <=? Z.of_nat (size m))%Z then Some (waiting "waiting for an active job slot")
  else if (0 <? workerSlots)%Z && (workerSlots <=? usedSlots m)%Z then Some (waiting "waiting for worker capacity")
  else if (0 <? maxRequesterJobs)%Z && (maxRequesterJobs <=? countRequester m (requesterKey build))%Z
  then Some (waiting "waiting for fair-share capacity")
  else None.

(** The virtual allocation loop of [decideAdmission]. *)
Fixpoint allocate (key : string) (maxRequesterJobs : Z) (bounded : bool) (queue : list KovaBuild)
    (counts : string -> Z) (jobCapacity slotCapacity : Z) : admissionDecision :=
  match queue with
  | [] => waiting "waiting for fair-share capacity"
  | candidate :: rest =>
      let requester := requesterKey candidate in
      if (0 <? maxRequesterJobs)%Z && (maxRequesterJobs <=? counts requester)%Z
      then allocate key maxRequesterJobs bounded rest counts jobCapacity slotCapacity
      else
        let requested := requestedConcurrency candidate in
        let allocation := if bounded && (slotCapacity <? requested)%Z then slotCapacity else requested in
        if (allocation <=? 0)%Z || (jobCapacity <=? 0)%Z then waiting "waiting for fair-share capacity"
        else if seqb (reservationKey candidate) key then admitted allocation
        else allocate key maxRequesterJobs bounded rest
               (fun r => if seqb r requester then (counts r + 1)%Z else counts r) (jobCapacity - 1)
               (if bounded then (slotCapacity - allocation)%Z else slotCapacity)
  end.

Definition decideAdmission (build : KovaBuild) (builds : list KovaBuild) (m : gmap string activeReservation)
    (maxJobs maxRequesterJobs workerSlots : Z) (last : string) : admissionDecision :=
  let queued := queuedAdmissionCandidates builds m in
  let counts := countRequester m in
  let jobCapacity := if (0 <? maxJobs)%Z then (maxJobs - Z.of_nat (size m))%Z else Z.of_nat (List.length queued) in
  if (0 <? maxJobs)%Z && (jobCapacity <=? 0)%Z then waiting "waiting for an active job slot"
  else
    let bounded := (0 <? workerSlots)%Z in
    let slotCapacity := if bounded then (workerSlots - usedSlots m)%Z else 0%Z in
    if bounded && (slotCapacity <=? 0)%Z then waiting "waiting for worker capacity"
    else allocate (reservationKey build) maxRequesterJobs bounded (fairQueue queued counts last) counts jobCapacity slotCapacity.

(** ** The pump's choice ([queuepump.go]) *)

Definition activeCapacityExhausted (m : gmap string activeReservation) (maxJobs workerSlots : Z) : bool :=
  ((0 <? maxJobs)%Z && (maxJobs <=? Z.of_nat (size m))%Z) || ((0 <? workerSlots)%Z && (workerSlots <=? usedSlots m)%Z).

Fixpoint firstUnderShare (maxRequesterJobs : Z) (counts : string -> Z) (queue : list KovaBuild) : option KovaBuild :=
  match queue with
  | [] => None
  | c :: rest =>
      if (0 <? maxRequesterJobs)%Z && (maxRequesterJobs <=? counts (requesterKey c))%Z
      then firstUnderShare maxRequesterJobs counts rest else Some c
  end.

Definition nextAdmissionCandidate (builds : list KovaBuild) (s : reservationState) (cfg : Config) : option KovaBuild :=
  if activeCapacityExhausted (active s) (MaxActiveJobs_ cfg) (WorkerSlots cfg) then None
  else
    let counts := countRequester (active s) in
    firstUnderShare (MaxActiveJobsPerRequester cfg) counts
      (fairQueue (queuedAdmissionCandidates builds (active s)) counts (rs_LastGrantedRequesterHash s)).
