(* ===== verification/FairFacts.v ===== *)
(** * Fairness of the admission queue

    [fairQueue] loses and invents nothing, serves requesters in rounds, keeps
    less-served requesters first and puts the last granted requester at the end
    of its tier; [decideAdmission] never overcommits, and the pump wakes exactly
    a build that admission would grant. *)
From S2P Require Import Prelude GoText Json Types Sha256 QueueLedger ActiveLedger FairQueue.

(** ** Sorting *)

Lemma insert_by_perm {A} (lt : A -> A -> bool) x l : insert_by lt x l ≡ₚ x :: l.
Proof.
  induction l as [|y l IH]; simpl; [done|]. destruct (lt y x); [|done]. rewrite IH. apply Permutation_swap.
Qed.

Lemma sort_by_perm {A} (lt : A -> A -> bool) l : sort_by lt l ≡ₚ l.
Proof. induction l as [|x l IH]; simpl; [done|]. by rewrite insert_by_perm, IH. Qed.

Lemma split_first_spec {A} (p : A -> bool) l pre x post :
  split_first p l = Some (pre, x, post) -> l = pre ++ x :: post /\ p x = true /\ Forall (fun y => p y = false) pre.
Proof.
  revert pre. induction l as [|y l IH]; intros pre; simpl; [done|]. destruct (p y) eqn:E.
  { intros [= <- <- <-]. by repeat constructor. }
  destruct (split_first p l) as [[[pre' x'] post']|] eqn:Es; [|done]. intros [= <- <- <-].
  destruct (IH _ eq_refl) as (-> & ? & ?). split_and!; [done|done|by constructor].
Qed.

Lemma split_first_none {A} (p : A -> bool) l : split_first p l = None -> Forall (fun y => p y = false) l.
Proof.
  induction l as [|y l IH]; simpl; [constructor|]. destruct (p y) eqn:E; [done|].
  destruct (split_first p l) as [[[? ?] ?]|]; [done|]. constructor; auto.
Qed.

Lemma span_spec {A} (p : A -> bool) l a b :
  span p l = (a, b) -> l = a ++ b /\ Forall (fun y => p y = true) a /\ (forall y, head b = Some y -> p y = false).
Proof.
  revert a. induction l as [|x l IH]; intros a; simpl; [by intros [= <- <-]|]. destruct (p x) eqn:E.
  - destruct (span p l) as [a' b'] eqn:Es. intros [= <- <-]. destruct (IH _ eq_refl) as (-> & ? & ?).
    split_and!; [done|by constructor|done].
  - intros [= <- <-]. split_and!; [done|constructor|]. by intros y [= <-].
Qed.

Lemma rotate_perm counts last l : rotate counts last l ≡ₚ l.
Proof.
  unfold rotate. destruct (split_first _ l) as [[[pre r] post]|] eqn:Es; [|done].
  apply split_first_spec in Es as (-> & _ & _).
  destruct (span _ (rev pre)) as [b o] eqn:E1, (span _ post) as [a rest] eqn:E2.
  apply span_spec in E1 as (E1 & _ & _), E2 as (-> & _ & _).
  rewrite <- (rev_involutive pre), E1, rev_app_distr. simpl.
  rewrite <- !(assoc_L (++)). apply Permutation_app_head. rewrite (assoc_L (++) a), (Permutation_app_comm a).
  rewrite <- (assoc_L (++)). apply Permutation_app_head. simpl. by rewrite Permutation_middle.
Qed.

(** ** Groups *)

Definition of_requester (r : string) (l : list KovaBuild) : list KovaBuild := filter (fun b => requesterKey b = r) l.

Lemma of_requester_cons r b l :
  of_requester r (b :: l) = if decide (requesterKey b = r) then b :: of_requester r l else of_requester r l.
Proof. unfold of_requester. rewrite filter_cons. done. Qed.

Lemma raw_groups_lookup builds acc r :
  default [] (foldl add_to_group acc builds !! r)
  = default [] (acc !! r) ++ of_requester r builds.
Proof.
  revert acc. induction builds as [|b l IH]; intros acc; simpl; [by rewrite app_nil_r|].
  rewrite IH, of_requester_cons. unfold add_to_group. case_decide as E.
  - subst r. rewrite lookup_insert_eq. simpl. by rewrite <- (assoc_L (++)).
  - by rewrite lookup_insert_ne.
Qed.

Lemma raw_groups_dom builds acc r :
  is_Some (foldl add_to_group acc builds !! r) <->
  is_Some (acc !! r) \/ exists b, b ∈ builds /\ requesterKey b = r.
Proof.
  revert acc. induction builds as [|b l IH]; intros acc; simpl.
  { split; [by left|]. intros [?|(b & ?%elem_of_nil & _)]; done. }
  rewrite IH. unfold add_to_group. destruct (decide (requesterKey b = r)) as [<-|Hne].
  - rewrite lookup_insert_eq. split; [|by left]. intros _. right. exists b. split; [left|done].
  - rewrite lookup_insert_ne by done. split.
    + intros [?|(b' & ? & ?)]; [by left|]. right. exists b'. split; [by right|done].
    + intros [?|(b' & [->|?]%elem_of_cons & ?)]; [by left|done|]. right. by exists b'.
Qed.

Lemma group_lookup builds r : group (groups_of builds) r = sort_by buildLess (of_requester r builds).
Proof.
  unfold group, groups_of. rewrite lookup_fmap. pose proof (raw_groups_lookup builds ∅ r) as Hr.
  rewrite lookup_empty in Hr. simpl in Hr. destruct (foldl _ _ _ !! r); simpl in *; by rewrite <- Hr.
Qed.

Lemma groups_dom builds r : is_Some (groups_of builds !! r) <-> exists b, b ∈ builds /\ requesterKey b = r.
Proof.
  unfold groups_of. rewrite lookup_fmap, fmap_is_Some, raw_groups_dom, lookup_empty.
  split; [intros [[? ?]|?]; [done|done]|by right].
Qed.

Lemma requesterOrder_perm builds counts last :
  requesterOrder builds counts last ≡ₚ (map_to_list (groups_of builds)).*1.
Proof. unfold requesterOrder. by rewrite rotate_perm, sort_by_perm. Qed.

Lemma requesterOrder_nodup builds counts last : NoDup (requesterOrder builds counts last).
Proof. rewrite requesterOrder_perm. apply NoDup_fst_map_to_list. Qed.

Lemma requesterOrder_elem builds counts last r :
  r ∈ requesterOrder builds counts last <-> exists b, b ∈ builds /\ requesterKey b = r.
Proof.
  rewrite requesterOrder_perm, <- groups_dom, list_elem_of_fmap. split.
  - intros ([k v] & -> & Hk%elem_of_map_to_list). by exists v.
  - intros [v Hv]. exists (r, v). split; [done|]. by apply elem_of_map_to_list.
Qed.

(** Splitting a list by requester and gluing it back. *)
Lemma partition_perm (R : list string) l :
  NoDup R -> (forall b, b ∈ l -> requesterKey b ∈ R) -> List.concat (List.map (fun r => of_requester r l) R) ≡ₚ l.
Proof.
  intros HR. revert l. induction HR as [|r R Hr HR IH]; intros l Hl; simpl.
  { destruct l as [|b l]; [done|]. specialize (Hl b ltac:(left)). by apply elem_of_nil in Hl. }
  transitivity (of_requester r l ++ filter (fun b => ¬ requesterKey b = r) l);
    [apply Permutation_app_head|apply filter_app_complement].
  rewrite <- (IH (filter (fun b => ¬ requesterKey b = r) l)).
  - rewrite (map_ext_in (fun r' => of_requester r' l) (fun r' => of_requester r' (filter (fun b => ¬ requesterKey b = r) l)));
      [done|]. intros r' Hr'%list_elem_of_In. unfold of_requester. rewrite list_filter_filter.
    apply list_filter_iff. intros b. split; [|by intros [? ?]]. intros Eb. split; [done|]. congruence.
  - intros b [Hb Hin]%list_elem_of_filter. apply Hl in Hin. apply elem_of_cons in Hin as [?|?]; done.
Qed.

(** ** Rounds *)

Section rounds.
Context (groups : gmap string (list KovaBuild)) (R : list string).

(** The first [n] rounds. *)
Fixpoint rounds (n : nat) : list KovaBuild :=
  match n with O => [] | S n' => rounds n' ++ round_of groups R n' end.

Lemma rounds_perm n : rounds n ≡ₚ List.concat (List.map (fun r => take n (group groups r)) R).
Proof.
  induction n as [|n IH]; simpl.
  { induction R as [|r R' IH]; simpl; [done|exact IH]. }
  rewrite IH. clear IH. unfold round_of. induction R as [|r R' IH]; simpl; [done|].
  destruct (group groups r !! n) as [b|] eqn:Eb; simpl.
  - rewrite (take_S_r _ _ b Eb), <- IH. rewrite <- !(assoc_L (++)). apply Permutation_app_head. simpl.
    by rewrite Permutation_middle.
  - apply lookup_ge_None_1 in Eb. rewrite !(take_ge (group groups r)) by lia. rewrite <- IH. by rewrite (assoc_L (++)).
Qed.

Lemma rounds_all n :
  (forall r, r ∈ R -> List.length (group groups r) <= n) ->
  rounds n ≡ₚ List.concat (List.map (group groups) R).
Proof.
  intros Hn. rewrite rounds_perm. induction R as [|r R' IH]; simpl; [done|].
  rewrite take_ge by (apply Hn; left). by rewrite IH by (intros; apply Hn; by right).
Qed.

(** The loop stops after enough rounds or with every build placed. *)
Lemma fairRounds_spec fuel total round ordered :
  ordered = rounds round ->
  exists k, fairRounds fuel groups R total round ordered = rounds k /\
    (total <= List.length (rounds k) \/ k = round + fuel).
Proof.
  revert round ordered. induction fuel as [|fuel IH]; intros round ordered ->; simpl.
  { exists round. split; [done|]. right. lia. }
  destruct (Nat.ltb_spec (List.length (rounds round)) total) as [Hlt|Hge].
  - destruct (IH (S round) (rounds round ++ round_of groups R round) eq_refl) as (k & -> & Hk).
    exists k. split; [done|]. destruct Hk as [?|?]; [by left|right; lia].
  - exists round. split; [done|]. by left.
Qed.
End rounds.

(** ** The whole queue *)

Lemma concat_map_perm {A B} (f g : A -> list B) l :
  (forall x, f x ≡ₚ g x) -> List.concat (List.map f l) ≡ₚ List.concat (List.map g l).
Proof. intros Hfg. induction l as [|x l IH]; simpl; [done|]. by rewrite Hfg, IH. Qed.

Lemma groups_concat builds counts last :
  List.concat (List.map (group (groups_of builds)) (requesterOrder builds counts last)) ≡ₚ builds.
Proof.
  rewrite (concat_map_perm _ (fun r => of_requester r builds)).
  - apply partition_perm; [apply requesterOrder_nodup|]. intros b Hb. apply requesterOrder_elem. by exists b.
  - intros r. by rewrite group_lookup, sort_by_perm.
Qed.

Lemma group_length builds r : List.length (group (groups_of builds) r) <= List.length builds.
Proof. rewrite group_lookup, sort_by_perm. apply length_filter. Qed.

Lemma take_concat_submseteq {A B} (f : A -> list B) k l :
  List.concat (List.map (fun x => take k (f x)) l) ⊆+ List.concat (List.map f l).
Proof.
  induction l as [|x l IH]; simpl; [done|]. apply submseteq_app; [|done].
  rewrite <- (take_drop k (f x)) at 2. by apply submseteq_inserts_r.
Qed.

Lemma fairQueue_rounds builds counts last :
  exists k, fairQueue builds counts last = rounds (groups_of builds) (requesterOrder builds counts last) k.
Proof.
  destruct (fairRounds_spec (groups_of builds) (requesterOrder builds counts last) (List.length builds)
    (List.length builds) 0 [] eq_refl) as (k & Hk & _). by exists k.
Qed.

Lemma fairQueue_perm builds counts last : fairQueue builds counts last ≡ₚ builds.
Proof.
  destruct (fairRounds_spec (groups_of builds) (requesterOrder builds counts last) (List.length builds)
    (List.length builds) 0 [] eq_refl) as (k & Hk & Hend). unfold fairQueue. rewrite Hk.
  rewrite <- (groups_concat builds counts last) at 3. destruct Hend as [Hlen|Ek].
  - rewrite rounds_perm in Hlen |- *. apply submseteq_length_Permutation; [apply take_concat_submseteq|].
    by rewrite (groups_concat builds counts last).
  - apply rounds_all. intros r _. subst k. apply group_length.
Qed.

(** ** Round-robin *)

Lemma of_requester_app r l l' : of_requester r (l ++ l') = of_requester r l ++ of_requester r l'.
Proof. apply filter_app. Qed.

#[export] Instance of_requester_perm r : Proper ((≡ₚ) ==> (≡ₚ)) (of_requester r).
Proof. intros l l' Hl. unfold of_requester. by rewrite Hl. Qed.

Lemma group_keys builds r b : b ∈ group (groups_of builds) r -> requesterKey b = r.
Proof. rewrite group_lookup, sort_by_perm. by intros [? _]%list_elem_of_filter. Qed.

Lemma of_requester_all r l : (forall b, b ∈ l -> requesterKey b = r) -> of_requester r l = l.
Proof.
  intros Hl. unfold of_requester. induction l as [|b l IH]; [done|]. rewrite filter_cons_True by (apply Hl; left).
  rewrite IH; [done|]. intros b' Hb'. apply Hl. by right.
Qed.

Lemma of_requester_none r l : (forall b, b ∈ l -> requesterKey b <> r) -> of_requester r l = [].
Proof.
  intros Hl. unfold of_requester. induction l as [|b l IH]; [done|]. rewrite filter_cons_False by (apply Hl; left).
  apply IH. intros b' Hb'. apply Hl. by right.
Qed.

Section robin.
Context (groups : gmap string (list KovaBuild)) (R : list string).
Hypothesis keys : forall r b, b ∈ group groups r -> requesterKey b = r.
Hypothesis distinct : NoDup R.

Lemma rounds_count r n :
  r ∈ R -> List.length (of_requester r (rounds groups R n)) = Nat.min n (List.length (group groups r)).
Proof.
  intros Hr. rewrite rounds_perm. revert Hr. induction distinct as [|r' R' Hr' HR IH]; [by intros ?%elem_of_nil|].
  intros Hin. simpl. rewrite of_requester_app, length_app.
  assert (Htake : forall x b, b ∈ take n (group groups x) -> requesterKey b = x).
  { intros x b Hb. apply keys. eapply elem_of_submseteq; [done|]. apply sublist_submseteq, sublist_take. }
  destruct (decide (r = r')) as [->|Hne].
  - rewrite of_requester_all by apply Htake. rewrite (of_requester_none r'); [simpl; rewrite length_take; lia|].
    intros b (l & Hl & Hb)%list_elem_of_In%in_concat Eb.
    apply in_map_iff in Hl as (x & <- & Hx%list_elem_of_In). apply list_elem_of_In, Htake in Hb. congruence.
  - rewrite of_requester_none by (intros b ?%Htake; congruence). apply elem_of_cons in Hin as [?|?]; [done|]. by apply IH.
Qed.

Lemma round_count r n :
  List.length (of_requester r (round_of groups R n)) <= 1 /\
  (n < List.length (group groups r) \/ of_requester r (round_of groups R n) = []).
Proof.
  unfold round_of. induction distinct as [|r' R' Hr' HR IH]; simpl; [split; [lia|by right]|].
  destruct (group groups r' !! n) as [b|] eqn:Eb; [|exact (IH HR)].
  assert (Hb : requesterKey b = r') by (eapply keys, list_elem_of_lookup_2, Eb).
  rewrite of_requester_cons. case_decide as Er; [|exact (IH HR)]. assert (r = r') as -> by congruence.
  rewrite of_requester_none.
  - split; [simpl; lia|]. left. by eapply lookup_lt_Some.
  - intros c (x & Hx & Hc)%list_elem_of_omap. apply list_elem_of_lookup_2, keys in Hc. congruence.
Qed.

Lemma rounds_prefix p n :
  p `prefix_of` rounds groups R n ->
  exists k q, p = rounds groups R k ++ q /\ q `prefix_of` round_of groups R k.
Proof.
  induction n as [|n IH]; simpl; intros Hp.
  { apply prefix_nil_inv in Hp as ->. exists 0, []. split; [done|]. apply prefix_nil. }
  destruct Hp as [t Ht]. apply app_eq_inv in Ht as [(q & Hq & _)|(q & -> & Hq)].
  - apply IH. by exists q.
  - exists n, q. split; [done|]. by exists t.
Qed.

(** In every prefix, no requester is more than one build ahead of another that
    still has builds waiting. *)
Lemma robin_prefix p n r r' :
  p `prefix_of` rounds groups R n -> r ∈ R -> r' ∈ R ->
  List.length (of_requester r' p) < List.length (group groups r') ->
  List.length (of_requester r p) <= List.length (of_requester r' p) + 1.
Proof.
  intros (k & q & -> & [t Ht])%rounds_prefix Hr Hr' Hlt.
  rewrite !of_requester_app, !length_app in *. rewrite !rounds_count in * by done.
  pose proof (round_count r k) as [H1 _]. rewrite Ht, of_requester_app, length_app in H1. lia.
Qed.
End robin.

Lemma fairQueue_robin builds counts last p r r' :
  p `prefix_of` fairQueue builds counts last ->
  (exists b, b ∈ builds /\ requesterKey b = r) ->
  List.length (of_requester r' p) < List.length (of_requester r' builds) ->
  List.length (of_requester r p) <= List.length (of_requester r' p) + 1.
Proof.
  intros Hp Hr Hlt. destruct (fairQueue_rounds builds counts last) as [k Hk]. rewrite Hk in Hp.
  eapply robin_prefix; [apply group_keys|apply requesterOrder_nodup|done| | |].
  - by apply requesterOrder_elem.
  - apply requesterOrder_elem. destruct (of_requester r' builds) as [|b l] eqn:Eb; [simpl in Hlt; lia|].
    exists b. assert (Hb : b ∈ of_requester r' builds) by (rewrite Eb; left).
    apply list_elem_of_filter in Hb as [? ?]. done.
  - by rewrite group_lookup, sort_by_perm.
Qed.

(** ** Tiers and rotation *)

Section tiers.
Context (counts : string -> Z).
Definition served (a b : string) : Prop := (counts a <= counts b)%Z.

Lemma insert_by_sorted (lt : string -> string -> bool) x l :
  (forall a b, lt a b = true -> served a b) -> (forall a b, lt a b = false -> served b a) ->
  StronglySorted served l -> StronglySorted served (insert_by lt x l).
Proof.
  intros Hlt Hge. induction 1 as [|y l Hl IH Hy]; simpl; [by repeat constructor|].
  destruct (lt y x) eqn:E.
  - constructor; [done|]. rewrite insert_by_perm. constructor; [by apply Hlt|done].
  - constructor; [by constructor|]. apply Hge in E. constructor; [done|].
    eapply Forall_impl; [done|]. unfold served in *. intros z Hz. lia.
Qed.

Lemma sort_by_sorted (lt : string -> string -> bool) l :
  (forall a b, lt a b = true -> served a b) -> (forall a b, lt a b = false -> served b a) ->
  StronglySorted served (sort_by lt l).
Proof. intros Hlt Hge. induction l as [|x l IH]; simpl; [constructor|]. by apply insert_by_sorted. Qed.

Lemma requesterLess_true groups a b : requesterLess groups counts a b = true -> served a b.
Proof.
  unfold requesterLess, served. destruct (Z.eqb_spec (counts a) (counts b)); simpl; [lia|]. intros E. bool_simpl. lia.
Qed.
Lemma requesterLess_false groups a b : requesterLess groups counts a b = false -> served b a.
Proof.
  unfold requesterLess, served. destruct (Z.eqb_spec (counts a) (counts b)); simpl; [lia|]. intros E. bool_simpl. lia.
Qed.

Lemma sorted_app_all l1 l2 :
  StronglySorted served (l1 ++ l2) <->
  (forall x y, x ∈ l1 -> y ∈ l2 -> served x y) /\ StronglySorted served l1 /\ StronglySorted served l2.
Proof. apply StronglySorted_app. Qed.

Lemma tier_sorted c l : Forall (fun x => counts x = c) l -> StronglySorted served l.
Proof.
  induction 1 as [|x l Hx Hl IH]; constructor; [done|]. eapply Forall_impl; [exact Hl|]. unfold served. simpl. lia.
Qed.

Lemma rotate_tiers last l :
  StronglySorted served l ->
  match split_first (fun r => seqb (HashRequester r) last) l with
  | None => rotate counts last l = l
  | Some (_, q, _) =>
      exists l1 l2, rotate counts last l = l1 ++ q :: l2 /\ Forall (fun r => (counts q < counts r)%Z) l2 /\
        Forall (fun r => (counts r <= counts q)%Z) l1 /\ StronglySorted served (rotate counts last l)
  end.
Proof.
  intros Hl. unfold rotate. destruct (split_first _ l) as [[[pre q] post]|] eqn:Es; [|done].
  apply split_first_spec in Es as (-> & _ & _).
  destruct (span _ (rev pre)) as [b o] eqn:E1, (span _ post) as [a rest] eqn:E2.
  apply span_spec in E1 as (E1 & Hb & _), E2 as (-> & Ha & Hrest).
  assert (Epre : pre = rev o ++ rev b) by (by rewrite <- (rev_involutive pre), E1, rev_app_distr).
  subst pre. clear E1.
  assert (Tb : Forall (fun x => counts x = counts q) (rev b)).
  { apply Forall_rev. eapply Forall_impl; [exact Hb|]. simpl. intros x. apply Z.eqb_eq. }
  assert (Ta : Forall (fun x => counts x = counts q) a).
  { eapply Forall_impl; [exact Ha|]. simpl. intros x. apply Z.eqb_eq. }
  rewrite <- (assoc_L (++)) in Hl. change (rev b ++ q :: a ++ rest) with (rev b ++ (q :: a) ++ rest) in Hl.
  rewrite !sorted_app_all in Hl. destruct Hl as (Ho & So & Hbb & Sb & Hqr & Sq & Sr).
  assert (Lrest : Forall (fun r => (counts q < counts r)%Z) rest).
  { destruct rest as [|y rest]; [constructor|]. specialize (Hrest y eq_refl). apply Z.eqb_neq in Hrest.
    assert (counts q < counts y)%Z by (pose proof (Hqr q y ltac:(left) ltac:(left)); unfold served in *; lia).
    constructor; [done|]. inversion Sr as [|? ? _ Hy]; subst. eapply Forall_impl; [exact Hy|].
    unfold served. simpl. lia. }
  rewrite Forall_forall in Ta, Tb, Lrest.
  assert (Loo : forall x, x ∈ rev o -> (counts x <= counts q)%Z).
  { intros x Hx. apply (Ho x q Hx). set_solver. }
  exists (rev o ++ a ++ rev b), rest. split; [by rewrite <- !(assoc_L (++))|]. split; [by apply Forall_forall|]. split.
  { apply Forall_forall. intros x. rewrite !elem_of_app. intros [Hx|[Hx|Hx]]; [by apply Loo|rewrite (Ta x Hx); lia|rewrite (Tb x Hx); lia]. }
  rewrite !sorted_app_all. unfold served. split_and!; try done.
  - intros x y Hx. specialize (Loo x Hx). rewrite !elem_of_app, list_elem_of_singleton.
    intros [Hy|[Hy|[->|Hy]]]; [rewrite (Ta y Hy); lia|rewrite (Tb y Hy); lia|lia|specialize (Lrest y Hy); lia].
  - intros x y Hx. rewrite (Ta x Hx), !elem_of_app, list_elem_of_singleton.
    intros [Hy|[->|Hy]]; [rewrite (Tb y Hy); lia|lia|specialize (Lrest y Hy); lia].
  - apply (tier_sorted (counts q)). by apply Forall_forall.
  - intros x y Hx. rewrite (Tb x Hx), elem_of_app, list_elem_of_singleton.
    intros [->|Hy]; [lia|specialize (Lrest y Hy); lia].
  - intros x y ->%list_elem_of_singleton Hy. specialize (Lrest y Hy). lia.
  - by repeat constructor.
Qed.
End tiers.

Lemma requesterOrder_tiers builds counts last :
  StronglySorted (served counts) (requesterOrder builds counts last).
Proof.
  unfold requesterOrder. set (l := sort_by _ _).
  assert (Hl : StronglySorted (served counts) l).
  { apply sort_by_sorted; [apply requesterLess_true|apply requesterLess_false]. }
  pose proof (rotate_tiers counts last l Hl) as Hr.
  destruct (split_first _ l) as [[[pre q] post]|]; [|by rewrite Hr].
  by destruct Hr as (l1 & l2 & _ & _ & _ & Hr).
Qed.

(** The requester of the last committed grant goes to the end of its tier. *)
Lemma requesterOrder_last builds counts last q :
  (exists b, b ∈ builds /\ requesterKey b = q) -> HashRequester q = last ->
  (forall b, b ∈ builds -> HashRequester (requesterKey b) = last -> requesterKey b = q) ->
  exists l1 l2, requesterOrder builds counts last = l1 ++ q :: l2 /\
    Forall (fun r => (counts q < counts r)%Z) l2 /\ Forall (fun r => (counts r <= counts q)%Z) l1.
Proof.
  intros Hq Eq Huniq. pose proof (requesterOrder_elem builds counts last) as Hel.
  unfold requesterOrder in *. set (l := sort_by _ _) in *.
  assert (Hl : StronglySorted (served counts) l).
  { apply sort_by_sorted; [apply requesterLess_true|apply requesterLess_false]. }
  pose proof (rotate_tiers counts last l Hl) as Hr.
  assert (Hin : forall r, r ∈ l <-> exists b, b ∈ builds /\ requesterKey b = r).
  { intros r. rewrite <- Hel. by rewrite rotate_perm. }
  destruct (split_first _ l) as [[[pre x] post]|] eqn:Es.
  - apply split_first_spec in Es as (El & Ex & _).
    assert (x = q) as ->.
    { apply bool_decide_eq_true in Ex. assert (Hx : x ∈ l) by (rewrite El; apply elem_of_app; right; left). apply Hin in Hx as (b & Hb & <-). by apply Huniq. }
    destruct Hr as (l1 & l2 & -> & ? & ? & _). by exists l1, l2.
  - exfalso. apply split_first_none in Es. rewrite Forall_forall in Es. apply Hin in Hq.
    specialize (Es q Hq). cbv beta in Es. rewrite Eq in Es. unfold seqb in Es. by rewrite bool_decide_eq_true_2 in Es.
Qed.

(** ** Decisions *)

Lemma requestedConcurrency_pos b : (1 <= requestedConcurrency b)%Z.
Proof. unfold requestedConcurrency. destruct (Z.ltb_spec 0 (bo_concurrency (sp_build (kb_spec b)))); lia. Qed.

Lemma allocate_admitted key per bounded queue counts jobs slots a :
  allocate key per bounded queue counts jobs slots = admitted a ->
  exists c, c ∈ queue /\ reservationKey c = key /\ (1 <= a <= requestedConcurrency c)%Z /\ (1 <= jobs)%Z /\
    (bounded = true -> (a <= slots)%Z) /\ ((0 < per)%Z -> (counts (requesterKey c) < per)%Z).
Proof.
  revert counts jobs slots. induction queue as [|c queue IH]; intros counts jobs slots; [done|]. cbn [allocate].
  destruct (_ && _) eqn:Eshare.
  { intros (d & ? & ? & ? & ? & ? & ?)%IH. exists d.
    split; [by right|]. split_and!; solve [done|lia]. }
  pose proof (requestedConcurrency_pos c) as Hpos.
  set (alloc := if bounded && (slots <? requestedConcurrency c)%Z then slots else requestedConcurrency c).
  assert (Halloc : (alloc <= requestedConcurrency c)%Z /\ (bounded = true -> (alloc <= slots)%Z)).
  { unfold alloc. destruct bounded; simpl; [|done]. destruct (Z.ltb_spec slots (requestedConcurrency c)); lia. }
  clearbody alloc. destruct (_ || _) eqn:Estop; [done|]. bool_simpl. destruct (seqb (reservationKey c) key) eqn:Ek.
  - unfold admitted. intros [= <-]. bool_simpl. exists c.
    split; [left|]. split; [done|]. split; [lia|]. split; [lia|]. split; [apply Halloc|]. intros Hper. destruct (Z.ltb_spec 0 per); [|lia]. simpl in Eshare. bool_simpl. lia.
  - intros (d & ? & ? & ? & ? & Hs & Hp)%IH. exists d.
    split; [by right|]. split; [done|]. split; [done|]. split; [lia|]. split.
    + intros Eb. specialize (Hs Eb). rewrite Eb in Hs. lia.
    + intros Hper. specialize (Hp Hper). destruct (seqb (requesterKey d) (requesterKey c)); lia.
Qed.

Lemma decideAdmission_sound build builds m jobs per slots last a :
  (0 < jobs)%Z -> (0 < per)%Z -> (0 < slots)%Z ->
  decideAdmission build builds m jobs per slots last = admitted a ->
  exists c, c ∈ queuedAdmissionCandidates builds m /\ reservationKey c = reservationKey build /\
    (1 <= a <= requestedConcurrency c)%Z /\ (Z.of_nat (size m) < jobs)%Z /\ (usedSlots m + a <= slots)%Z /\
    (countRequester m (requesterKey c) < per)%Z.
Proof.
  intros Hj Hp Hs. unfold decideAdmission.
  destruct (Z.ltb_spec 0 jobs); [|lia]. destruct (Z.ltb_spec 0 slots); [|lia].
  cbn [andb]. destruct (Z.leb_spec (jobs - Z.of_nat (size m)) 0); [done|].
  destruct (Z.leb_spec (slots - usedSlots m) 0); [done|].
  intros (c & Hc & ? & ? & ? & Hsl & Hper)%allocate_admitted. exists c.
  rewrite fairQueue_perm in Hc. specialize (Hsl eq_refl). specialize (Hper Hp). split_and!; try done; lia.
Qed.

Lemma decideAdmission_form build builds m jobs per slots last :
  let d := decideAdmission build builds m jobs per slots last in
  ad_Admitted d = true -> d = admitted (ad_Allocation d).
Proof.
  cbv zeta. unfold decideAdmission. cbv zeta. destruct (_ && _); [done|]. destruct (_ && _); [done|].
  generalize (fairQueue (queuedAdmissionCandidates builds m) (countRequester m) last). intros queue.
  match goal with |- ad_Admitted (allocate _ _ _ _ _ ?j ?s) = true -> _ => generalize j s end. generalize (countRequester m).
  induction queue as [|c queue IH]; intros counts j s; [done|]. cbn [allocate].
  destruct (_ && _); [apply IH|]. destruct (_ || _); [done|]. destruct (seqb _ _); [done|apply IH].
Qed.

Lemma firstUnderShare_allocate per counts queue c jobs slots :
  firstUnderShare per counts queue = Some c -> (1 <= jobs)%Z -> (1 <= slots)%Z ->
  allocate (reservationKey c) per true queue counts jobs slots = admitted (Z.min (requestedConcurrency c) slots).
Proof.
  intros Hc Hj Hs. induction queue as [|d queue IH]; [done|]. cbn [allocate firstUnderShare] in *.
  destruct (_ && _); [by apply IH|]. injection Hc as ->. pose proof (requestedConcurrency_pos c) as Hpos.
  assert ((if true && (slots <? requestedConcurrency c)%Z then slots else requestedConcurrency c) =
          Z.min (requestedConcurrency c) slots) as ->.
  { simpl. destruct (Z.ltb_spec slots (requestedConcurrency c)); lia. }
  destruct (Z.leb_spec (Z.min (requestedConcurrency c) slots) 0); [lia|]. destruct (Z.leb_spec jobs 0); [lia|].
  unfold seqb. by rewrite bool_decide_eq_true_2.
Qed.

(** The pump wakes a build that [decideAdmission] admits in the same snapshot. *)
Lemma pump_agrees builds s cfg c :
  (0 < MaxActiveJobs_ cfg)%Z -> (0 < WorkerSlots cfg)%Z -> nextAdmissionCandidate builds s cfg = Some c ->
  decideAdmission c builds (active s) (MaxActiveJobs_ cfg) (MaxActiveJobsPerRequester cfg) (WorkerSlots cfg)
    (rs_LastGrantedRequesterHash s)
  = admitted (Z.min (requestedConcurrency c) (WorkerSlots cfg - usedSlots (active s))).
Proof.
  intros Hj Hw. unfold nextAdmissionCandidate, activeCapacityExhausted, decideAdmission.
  destruct (Z.ltb_spec 0 (MaxActiveJobs_ cfg)); [|lia]. destruct (Z.ltb_spec 0 (WorkerSlots cfg)); [|lia].
  destruct (_ || _) eqn:E; [done|]. simpl in E. bool_simpl. intros Hc.
  destruct (Z.leb_spec (MaxActiveJobs_ cfg - Z.of_nat (size (active s))) 0); [lia|].
  destruct (Z.leb_spec (WorkerSlots cfg - usedSlots (active s)) 0); [lia|].
  simpl. apply firstUnderShare_allocate; [done|lia|lia].
Qed.

(** No candidate while a requester is at its share, work conserving otherwise. *)
Lemma pump_none builds s cfg :
  nextAdmissionCandidate builds s cfg = None ->
  activeCapacityExhausted (active s) (MaxActiveJobs_ cfg) (WorkerSlots cfg) = true \/
  forall b, b ∈ queuedAdmissionCandidates builds (active s) ->
    (0 < MaxActiveJobsPerRequester cfg <= countRequester (active s) (requesterKey b))%Z.
Proof.
  unfold nextAdmissionCandidate. destruct (activeCapacityExhausted _ _ _); [by left|]. intros Hn. right.
  intros b Hb. rewrite <- (fairQueue_perm _ (countRequester (active s)) (rs_LastGrantedRequesterHash s)) in Hb.
  revert Hn Hb. generalize (fairQueue (queuedAdmissionCandidates builds (active s)) (countRequester (active s)) (rs_LastGrantedRequesterHash s)).
  intros l. induction l as [|c l IH]; intros Hn Hb; [by apply elem_of_nil in Hb|]. cbn [firstUnderShare] in Hn.
  destruct (_ && _) eqn:E; [|done]. bool_simpl. apply elem_of_cons in Hb as [->|Hb]; [lia|by apply IH].
Qed.
