(* ===== verification/FairTheorems.v ===== *)
(** * What the fair queue and the admission decision promise

    The claims about the pure part of [admission.go] and [queuepump.go]: the
    queue terminates and loses nothing, is first-in first-out for each requester,
    serves requesters in turn, starts with a least-served one and moves on after a
    grant; decisions never exceed a capacity, and the pump's choice is exactly
    the decision's. *)
From S2P Require Import Prelude GoText Json Types Sha256 QueueLedger ActiveLedger FairQueue FairFacts Fixture.

(** ** Order inside one requester *)

Section rounds.
Context (groups : gmap string (list KovaBuild)) (R : list string).
Hypothesis keys : forall r b, b ∈ group groups r -> requesterKey b = r.
Hypothesis distinct : NoDup R.

Lemma round_of_requester r n :
  r ∈ R -> of_requester r (round_of groups R n) = match group groups r !! n with Some b => [b] | None => [] end.
Proof.
  unfold round_of. induction distinct as [|r' R' Hr' HR IH]; [by intros ?%elem_of_nil|]. intros Hin. csimpl.
  assert (Hkey : forall x b, group groups x !! n = Some b -> requesterKey b = x).
  { intros x b Hb. by eapply keys, list_elem_of_lookup_2. }
  destruct (decide (r = r')) as [->|Hne].
  - assert (Hrest : of_requester r' (omap (fun r => group groups r !! n) R') = []).
    { apply of_requester_none. intros b (x & Hx & Hb)%list_elem_of_omap. apply Hkey in Hb. congruence. }
    destruct (group groups r' !! n) as [b|] eqn:Eb; [|done].
    rewrite of_requester_cons, decide_True, Hrest by (by apply Hkey). done.
  - apply elem_of_cons in Hin as [?|Hin]; [done|]. destruct (group groups r' !! n) as [b|] eqn:Eb; [|by apply IH].
    rewrite of_requester_cons, decide_False by (apply Hkey in Eb; congruence). by apply IH.
Qed.

Lemma rounds_of_requester r n : r ∈ R -> of_requester r (rounds groups R n) = take n (group groups r).
Proof.
  intros Hr. induction n as [|n IH]; [done|]. simpl. rewrite of_requester_app, IH, round_of_requester by done.
  destruct (group groups r !! n) as [b|] eqn:Eb; [by rewrite (take_S_r _ _ b)|].
  apply lookup_ge_None_1 in Eb. rewrite app_nil_r, !take_ge by lia. done.
Qed.
End rounds.

Lemma fairQueue_of_requester builds counts last r :
  of_requester r (fairQueue builds counts last) = sort_by buildLess (of_requester r builds).
Proof.
  destruct (fairQueue_rounds builds counts last) as [k Hk].
  pose proof (fairQueue_perm builds counts last) as Hperm.
  destruct (decide (r ∈ requesterOrder builds counts last)) as [Hr|Hr].
  - rewrite Hk, rounds_of_requester by (done || apply group_keys || apply requesterOrder_nodup).
    rewrite <- group_lookup. apply take_ge.
    pose proof (rounds_count _ _ (group_keys builds) (requesterOrder_nodup builds counts last) r k Hr) as Hc.
    rewrite <- Hk, Hperm in Hc. rewrite group_lookup, sort_by_perm in *. lia.
  - rewrite requesterOrder_elem in Hr. rewrite !of_requester_none; [done| |].
    + intros b Hb Eb. apply Hr. by exists b.
    + intros b Hb Eb. rewrite Hperm in Hb. apply Hr. by exists b.
Qed.

(** ** Age order *)

(** [a] is not to be served after [b]. *)
Definition notYounger (a b : KovaBuild) : Prop := buildLess b a = false.

Lemma str_ltb_le_trans s t u : str_ltb t s = false -> str_ltb u t = false -> str_ltb u s = false.
Proof.
  intros H1 H2. destruct (str_ltb u s) eqn:E; [|done]. destruct (str_ltb s t) eqn:E'.
  - pose proof (str_ltb_trans _ _ _ E E'). congruence.
  - pose proof (str_ltb_total _ _ E' H1). congruence.
Qed.

#[export] Instance notYounger_trans : Transitive notYounger.
Proof.
  intros a b c. unfold notYounger, buildLess.
  repeat match goal with |- context [(?x =? ?y)%Z] => destruct (Z.eqb_spec x y); try lia end;
    intros H1 H2; bool_simpl; try (apply Z.ltb_ge; lia). by eapply str_ltb_le_trans.
Qed.

Lemma buildLess_asym a b : buildLess a b = true -> notYounger a b.
Proof.
  unfold notYounger, buildLess.
  repeat match goal with |- context [(?x =? ?y)%Z] => destruct (Z.eqb_spec x y); try lia end. apply str_ltb_asym.
Qed.

Lemma sort_by_age l : StronglySorted notYounger (sort_by buildLess l).
Proof.
  induction l as [|x l IH]; simpl; [constructor|]. induction IH as [|y l' Hl IH Hy]; simpl; [by repeat constructor|].
  destruct (buildLess y x) eqn:E.
  - constructor; [done|]. rewrite insert_by_perm. constructor; [by apply buildLess_asym|done].
  - constructor; [by constructor|]. constructor; [done|]. eapply Forall_impl; [exact Hy|].
    intros z Hz. by transitivity y.
Qed.

(** ** Fuel *)

Lemma fairRounds_more fuel m groups R total round ordered :
  total <= List.length (fairRounds fuel groups R total round ordered) ->
  fairRounds (fuel + m) groups R total round ordered = fairRounds fuel groups R total round ordered.
Proof.
  revert round ordered. induction fuel as [|fuel IH]; intros round ordered; simpl.
  - intros Hl. destruct m; simpl; [done|]. by rewrite (proj2 (Nat.ltb_ge _ _) Hl).
  - destruct (_ <? _); [apply IH|done].
Qed.

(** ** The head of the queue *)

Lemma fairQueue_head builds counts last b :
  head (fairQueue builds counts last) = Some b -> head (requesterOrder builds counts last) = Some (requesterKey b).
Proof.
  destruct (fairQueue_rounds builds counts last) as [k ->].
  pose proof (requesterOrder_elem builds counts last) as Hel.
  destruct (requesterOrder builds counts last) as [|r R] eqn:ER.
  { induction k as [|k IH]; [done|]. simpl. by rewrite app_nil_r. }
  assert (Hr : exists x, group (groups_of builds) r !! 0 = Some x).
  { destruct (proj1 (Hel r) ltac:(left)) as (x & Hx & Ex). rewrite group_lookup.
    apply lookup_lt_is_Some_2. rewrite sort_by_perm.
    assert (Hin : x ∈ of_requester r builds) by (apply list_elem_of_filter; done).
    destruct (of_requester r builds); [by apply elem_of_nil in Hin|simpl; lia]. }
  destruct Hr as [x Hx].
  assert (Hhead : forall n, head (rounds (groups_of builds) (r :: R) (S n)) = Some x).
  { induction n as [|n IH]; [|simpl in *; by destruct (rounds _ _ n ++ _)].
    simpl. unfold round_of. csimpl. by rewrite Hx. }
  destruct k as [|k]; [done|]. rewrite Hhead. intros [= <-]. simpl. f_equal.
  symmetry. eapply group_keys, list_elem_of_lookup_2, Hx.
Qed.

(** ** Claims *)

(** Termination.  The round loop of [fairQueue] needs at most one round per
    build: with any larger bound it ends in the same list, and that list is a
    permutation of the queued builds (nothing is lost, duplicated or invented). *)
Theorem fairQueue_terminates builds counts last fuel :
  List.length builds <= fuel ->
  fairRounds fuel (groups_of builds) (requesterOrder builds counts last) (List.length builds) 0 []
    = fairQueue builds counts last /\
  fairQueue builds counts last ≡ₚ builds.
Proof.
  intros Hf. pose proof (fairQueue_perm builds counts last) as Hp. split; [|done].
  replace fuel with (List.length builds + (fuel - List.length builds)) by lia.
  apply fairRounds_more. change (List.length builds <= List.length (fairQueue builds counts last)). by rewrite Hp.
Qed.

(** First in, first out per requester.  The builds of one requester appear in
    the fair queue in order of creation time and name, whatever the grants and the
    cursor are. *)
Theorem fairQueue_fifo builds counts last r :
  of_requester r (fairQueue builds counts last) = sort_by buildLess (of_requester r builds) /\
  StronglySorted notYounger (of_requester r (fairQueue builds counts last)).
Proof. rewrite fairQueue_of_requester. split; [done|]. apply sort_by_age. Qed.

(** C36: Round robin.  In every prefix of the fair queue, a requester is never more
    than one build ahead of another requester that still has builds waiting. *)
Theorem fairQueue_round_robin builds counts last p r r' :
  p `prefix_of` fairQueue builds counts last ->
  r ∈ requesterKey <$> builds ->
  List.length (of_requester r' p) < List.length (of_requester r' builds) ->
  List.length (of_requester r p) <= List.length (of_requester r' p) + 1.
Proof.
  intros Hp (b & -> & Hb)%list_elem_of_fmap. apply (fairQueue_robin builds counts last); [done|]. by exists b.
Qed.

(** No starvation by load or by cursor.  The build at the head of the queue
    belongs to a requester with the fewest current grants.  It belongs to the
    requester of the last committed grant only if every other waiting requester
    holds strictly more grants. *)
Theorem fairQueue_head_is_fair builds counts last b c :
  (forall x y, x ∈ builds -> y ∈ builds -> HashRequester (requesterKey x) = HashRequester (requesterKey y) ->
     requesterKey x = requesterKey y) ->
  head (fairQueue builds counts last) = Some b -> c ∈ builds ->
  (counts (requesterKey b) <= counts (requesterKey c))%Z /\
  (HashRequester (requesterKey b) = last -> requesterKey c <> requesterKey b ->
   (counts (requesterKey b) < counts (requesterKey c))%Z).
Proof.
  intros Hinj Hb Hc. pose proof (fairQueue_perm builds counts last) as Hperm.
  assert (Hin : b ∈ builds).
  { rewrite <- Hperm. destruct (fairQueue _ _ _); [done|]. injection Hb as ->. left. }
  apply fairQueue_head in Hb. pose proof (requesterOrder_tiers builds counts last) as Hs.
  assert (Hrc : requesterKey c ∈ requesterOrder builds counts last) by (apply requesterOrder_elem; by exists c).
  pose proof (requesterOrder_nodup builds counts last) as Hnd. split.
  - destruct (requesterOrder _ _ _) as [|r R]; [done|]. injection Hb as ->.
    inversion Hs as [|? ? _ HR]; subst. rewrite Forall_forall in HR.
    apply elem_of_cons in Hrc as [->|Hrc]; [done|]. by apply HR.
  - intros El Hne. destruct (requesterOrder_last builds counts last (requesterKey b)) as (l1 & l2 & Eo & H2 & H1);
      [by exists b|done|intros x Hx Ex; apply Hinj; [done|done|congruence]|].
    rewrite Eo in *. assert (l1 = []) as ->.
    { destruct l1 as [|x l1]; [done|]. injection Hb as ->. apply NoDup_cons in Hnd as [Hx _]. set_solver. }
    simpl in Hrc. apply elem_of_cons in Hrc as [?|Hrc]; [congruence|]. rewrite Forall_forall in H2. by apply H2.
Qed.

(** C33: No overcommitment.  A build that [decideAdmission] admits is a queued,
    live candidate without a grant; it gets between one slot and what it asked
    for, and adding the grant keeps the number of active jobs, the worker slots
    and the requester's share within their limits. *)
Theorem decideAdmission_within_limits build builds m jobs per slots last a :
  (0 < jobs)%Z -> (0 < per)%Z -> (0 < slots)%Z ->
  decideAdmission build builds m jobs per slots last = admitted a ->
  exists c, c ∈ builds /\ kb_deleting c = false /\ cancellationRequested c = false /\ queuedPhase (kb_phase c) = true /\
    reservationKey c = reservationKey build /\
    (1 <= a <= requestedConcurrency c)%Z /\ (Z.of_nat (size m) + 1 <= jobs)%Z /\ (usedSlots m + a <= slots)%Z /\
    (countRequester m (requesterKey c) + 1 <= per)%Z.
Proof.
  intros Hj Hp Hs (c & Hc & Hkey & Ha & H1 & H2 & H3)%decideAdmission_sound; [|done..].
  apply list_elem_of_In, filter_In in Hc as [Hc%list_elem_of_In Hq]. bool_simpl. exists c. split_and!; first [done|lia].
Qed.

Lemma firstUnderShare_none per counts queue key jobs slots bounded :
  firstUnderShare per counts queue = None ->
  allocate key per bounded queue counts jobs slots = waiting "waiting for fair-share capacity".
Proof.
  induction queue as [|c queue IH]; [done|]. cbn [firstUnderShare allocate].
  destruct (_ && _); [apply IH|done].
Qed.

(** C34: The pump and the decision agree.  On one snapshot of builds and ledger, the
    build that the pump wakes is one that [decideAdmission] admits, with as many
    slots as it asked for or as are left; and when the pump wakes nobody,
    [decideAdmission] admits nobody. *)
Theorem pump_matches_decision builds s cfg build :
  (0 < MaxActiveJobs_ cfg)%Z -> (0 < WorkerSlots cfg)%Z ->
  let decide_for b := decideAdmission b builds (active s) (MaxActiveJobs_ cfg) (MaxActiveJobsPerRequester cfg)
                        (WorkerSlots cfg) (rs_LastGrantedRequesterHash s) in
  match nextAdmissionCandidate builds s cfg with
  | Some c => decide_for c = admitted (Z.min (requestedConcurrency c) (WorkerSlots cfg - usedSlots (active s)))
  | None => ad_Admitted (decide_for build) = false
  end.
Proof.
  intros Hj Hw decide_for. destruct (nextAdmissionCandidate builds s cfg) as [c|] eqn:E; [by apply pump_agrees|].
  unfold decide_for, nextAdmissionCandidate, activeCapacityExhausted, decideAdmission in *.
  destruct (Z.ltb_spec 0 (MaxActiveJobs_ cfg)); [|lia]. destruct (Z.ltb_spec 0 (WorkerSlots cfg)); [|lia]. simpl in *.
  destruct (Z.leb_spec (MaxActiveJobs_ cfg - Z.of_nat (size (active s))) 0); [done|].
  destruct (Z.leb_spec (WorkerSlots cfg - usedSlots (active s)) 0); [done|].
  destruct (_ || _) eqn:Ex; [bool_simpl; apply orb_true_iff in Ex as [?|?]; bool_simpl; lia|].
  by rewrite firstUnderShare_none.
Qed.

(** C35: Work conservation.  Whenever a job slot and a worker slot are free and some
    queued candidate's requester is below its share, one of the queued candidates
    is admitted, with at least one slot. *)
Theorem admission_progress builds s cfg b :
  (0 < MaxActiveJobs_ cfg)%Z -> (0 < WorkerSlots cfg)%Z ->
  (Z.of_nat (size (active s)) < MaxActiveJobs_ cfg)%Z -> (usedSlots (active s) < WorkerSlots cfg)%Z ->
  b ∈ queuedAdmissionCandidates builds (active s) ->
  (countRequester (active s) (requesterKey b) < MaxActiveJobsPerRequester cfg)%Z ->
  exists c a, c ∈ queuedAdmissionCandidates builds (active s) /\ (1 <= a)%Z /\
    decideAdmission c builds (active s) (MaxActiveJobs_ cfg) (MaxActiveJobsPerRequester cfg) (WorkerSlots cfg)
      (rs_LastGrantedRequesterHash s) = admitted a.
Proof.
  intros Hj Hw H1 H2 Hb Hshare. destruct (nextAdmissionCandidate builds s cfg) as [c|] eqn:E.
  - pose proof (pump_agrees _ _ _ _ Hj Hw E) as Hd. pose proof (requestedConcurrency_pos c).
    exists c. eexists. split; [|split; [|exact Hd]]; [|lia].
    unfold nextAdmissionCandidate in E. destruct (activeCapacityExhausted _ _ _); [done|].
    rewrite <- (fairQueue_perm _ (countRequester (active s)) (rs_LastGrantedRequesterHash s)).
    revert E. generalize (fairQueue (queuedAdmissionCandidates builds (active s)) (countRequester (active s)) (rs_LastGrantedRequesterHash s)).
    intros l. induction l as [|x l IH]; [done|]. cbn [firstUnderShare]. destruct (_ && _); [intros ?%IH; by right|].
    intros [= ->]. left.
  - exfalso. apply pump_none in E as [E|E].
    + unfold activeCapacityExhausted in E. apply orb_true_iff in E as [E|E]; bool_simpl; lia.
    + specialize (E b Hb). lia.
Qed.

(** ** Witnesses: two builds of alice, one of bob, and one grant of alice *)

Definition ex_queued (name user : string) (created concurrency : Z) : KovaBuild :=
  mkBuild "kova" name (name +:+ "-uid") "1" ∅ ∅ [] [] created false
    (mkSpec (mkRequester user "") [] (mkSource "" "") (mkOptions "oci" concurrency 0 "" false false []) "") "" 0 "".

Definition ex_builds : list KovaBuild :=
  [ex_queued "a2" "alice" 20 2; ex_queued "a1" "alice" 10 2; ex_queued "b1" "bob" 30 5].

Definition ex_grant : activeReservation :=
  mkReservation "a0" "alice" 4 "" 0 "" "" "" false "" "" "" "" false false [].
Definition ex_active : reservationState := mkReservations 1 7 4 2 8 (HashRequester "bob") (Some {["uid-a0" := ex_grant]}).

Lemma fairQueue_terminates_witness :
  List.length ex_builds <= 5 /\ fairQueue ex_builds (fun _ => 0%Z) "" ≡ₚ ex_builds.
Proof. split; [compute; lia|]. apply (fairQueue_terminates ex_builds (fun _ => 0%Z) "" 5). compute; lia. Defined.

Lemma fairQueue_round_robin_witness :
  kb_name <$> fairQueue ex_builds (fun _ => 0%Z) "" = ["a1"; "b1"; "a2"] /\
  List.length (of_requester "alice" (take 1 (fairQueue ex_builds (fun _ => 0%Z) ""))) <= 0 + 1.
Proof.
  split; [vm_compute; reflexivity|].
  apply (fairQueue_round_robin ex_builds (fun _ => 0%Z) "" (take 1 (fairQueue ex_builds (fun _ => 0%Z) "")) "alice" "bob").
  - apply prefix_take.
  - apply list_elem_of_fmap. exists (ex_queued "a1" "alice" 10 2). split; [reflexivity|]. right. left.
  - vm_compute. lia.
Defined.

Lemma ex_keys x : x ∈ ex_builds -> requesterKey x = "alice" \/ requesterKey x = "bob".
Proof.
  unfold ex_builds. intros [->|[->|[->|H]%elem_of_cons]%elem_of_cons]%elem_of_cons; [by left|by left|by right|].
  by apply elem_of_nil in H.
Qed.

Lemma ex_hashes : HashRequester "alice" <> HashRequester "bob".
Proof. vm_compute. discriminate. Qed.

Lemma fairQueue_head_is_fair_witness :
  head (fairQueue ex_builds (countRequester (active ex_active)) (HashRequester "alice")) = Some (ex_queued "b1" "bob" 30 5) /\
  (countRequester (active ex_active) "bob" <= countRequester (active ex_active) "alice")%Z.
Proof.
  split; [vm_compute; reflexivity|].
  apply (fairQueue_head_is_fair ex_builds (countRequester (active ex_active)) (HashRequester "alice")
    (ex_queued "b1" "bob" 30 5) (ex_queued "a1" "alice" 10 2)).
  - intros x y Hx%ex_keys Hy%ex_keys. pose proof ex_hashes as Hne.
    destruct Hx as [-> | ->], Hy as [-> | ->]; intros E; [reflexivity|by destruct Hne|by destruct Hne|reflexivity].
  - vm_compute. reflexivity.
  - right. left.
Defined.

Lemma decideAdmission_within_limits_witness :
  decideAdmission (ex_queued "b1" "bob" 30 5) ex_builds (active ex_active) 4 2 8 "" = admitted 4 /\
  (usedSlots (active ex_active) + 4 <= 8)%Z.
Proof.
  assert (E : decideAdmission (ex_queued "b1" "bob" 30 5) ex_builds (active ex_active) 4 2 8 "" = admitted 4)
    by (vm_compute; reflexivity).
  split; [exact E|].
  destruct (decideAdmission_within_limits _ _ _ 4 2 8 "" 4 eq_refl eq_refl eq_refl E) as (c & _ & _ & _ & _ & _ & _ & _ & H & _).
  exact H.
Defined.

Lemma pump_matches_decision_witness :
  nextAdmissionCandidate ex_builds ex_active ex_config = Some (ex_queued "b1" "bob" 30 5) /\
  decideAdmission (ex_queued "b1" "bob" 30 5) ex_builds (active ex_active) 4 2 8 (rs_LastGrantedRequesterHash ex_active) = admitted 4.
Proof.
  assert (E : nextAdmissionCandidate ex_builds ex_active ex_config = Some (ex_queued "b1" "bob" 30 5)) by (vm_compute; reflexivity).
  split; [exact E|].
  pose proof (pump_matches_decision ex_builds ex_active ex_config ex_build eq_refl eq_refl) as H.
  cbv zeta in H. rewrite E in H. exact H.
Defined.

Lemma admission_progress_witness :
  exists c a, c ∈ queuedAdmissionCandidates ex_builds (active ex_active) /\ (1 <= a)%Z /\
    decideAdmission c ex_builds (active ex_active) 4 2 8 (rs_LastGrantedRequesterHash ex_active) = admitted a.
Proof.
  apply (admission_progress ex_builds ex_active ex_config (ex_queued "b1" "bob" 30 5));
    try (vm_compute; reflexivity).
  apply list_elem_of_In. vm_compute. tauto.
Defined.
