(* ===== verification/ActiveOps.v ===== *)
(** * The active-capacity ledger: operations

    The reconciler's ledger operations of
    [src/internal/service/buildcontroller/reservation.go], the grant receipts of
    [grant_receipt.go], the ledger side of the Pod receipts of [pod_receipt.go]
    and [admission] of [admission.go].  Closures passed to [Genesis.Observe]
    assign local variables; here they return them through [observe_with]. *)
From S2P Require Import Prelude GoText Json JsonFacts AdmissionJson Sha256 Types Kube Contract Genesis QueueReceipt Effects QueueLedger QueueOps ActiveLedger FairQueue.

Record Reconciler := mkReconciler {
  r_hasClient : bool;                  (* Client != nil *)
  r_hasAPIReader : bool;               (* APIReader != nil *)
  r_hasReceipts : bool;                (* RecoveryReceipts != nil *)
  r_hasCoordinator : bool;             (* AdmissionCoordinator != nil *)
  r_Genesis : option Guard;
  r_Cfg : Config }.

Definition errAdmissionClosed := Sentinel "KovaBuild is no longer eligible for runner admission".
Definition errGrantUnpinned := Sentinel "active grant receipt is not pinned; recovery observation only".
Definition errPodReceiptUnpinned := Sentinel "Pod Create receipt is not pinned; recovery observation only".
(** [*admissionRecoveryError] with its [Pending] count, and [errors.As] for it. *)
Definition admissionRecovery (pending : Z) : error := Wrap (dec_of_Z pending) (Sentinel "admission recovery required").
Fixpoint as_recovery (e : error) : option string :=
  match e with
  | Wrap m (Sentinel n) => if seqb n "admission recovery required" then Some m else None
  | Wrap _ e' => as_recovery e'
  | Join e1 e2 => match as_recovery e1 with Some m => Some m | None => as_recovery e2 end
  | _ => None
  end.

(** ** Field updates *)

Definition with_active (s : reservationState) (m : gmap string activeReservation) : reservationState :=
  {| rs_Version := rs_Version s; rs_Fence := rs_Fence s; rs_MaxJobs := rs_MaxJobs s; rs_MaxPerRequester := rs_MaxPerRequester s;
     rs_WorkerSlots := rs_WorkerSlots s; rs_LastGrantedRequesterHash := rs_LastGrantedRequesterHash s; rs_Active := Some m |}.
Definition with_fence (s : reservationState) (f : Z) : reservationState :=
  {| rs_Version := rs_Version s; rs_Fence := f; rs_MaxJobs := rs_MaxJobs s; rs_MaxPerRequester := rs_MaxPerRequester s;
     rs_WorkerSlots := rs_WorkerSlots s; rs_LastGrantedRequesterHash := rs_LastGrantedRequesterHash s; rs_Active := rs_Active s |}.
Definition with_cursor (s : reservationState) (h : string) : reservationState :=
  {| rs_Version := rs_Version s; rs_Fence := rs_Fence s; rs_MaxJobs := rs_MaxJobs s; rs_MaxPerRequester := rs_MaxPerRequester s;
     rs_WorkerSlots := rs_WorkerSlots s; rs_LastGrantedRequesterHash := h; rs_Active := rs_Active s |}.

(** [state.Active[key] = entry] and [delete(state.Active, key)]. *)
Definition set_active (s : reservationState) (key : string) (e : activeReservation) : reservationState :=
  with_active s (<[key := e]> (active s)).
Definition drop_active (s : reservationState) (key : string) : reservationState :=
  with_active s (delete key (active s)).

Definition closing (e : activeReservation) : activeReservation :=
  mkReservation (ar_BuildName e) (ar_Requester e) (ar_Slots e) (ar_GrantNonce e) (ar_GrantFence e) (ar_GrantObservedRV e)
    (ar_GrantReceiptUID e) (ar_GrantReceiptDigest e) (ar_GrantCleanupReady e) (ar_PodAttemptNonce e) (ar_PodTemplateDigest e)
    (ar_PodReceiptUID e) (ar_PodReceiptDigest e) (ar_PodCleanupReady e) true (ar_InFlight e).
Definition with_flight (e : activeReservation) (l : list string) : activeReservation :=
  mkReservation (ar_BuildName e) (ar_Requester e) (ar_Slots e) (ar_GrantNonce e) (ar_GrantFence e) (ar_GrantObservedRV e)
    (ar_GrantReceiptUID e) (ar_GrantReceiptDigest e) (ar_GrantCleanupReady e) (ar_PodAttemptNonce e) (ar_PodTemplateDigest e)
    (ar_PodReceiptUID e) (ar_PodReceiptDigest e) (ar_PodCleanupReady e) (ar_Closing e) l.
Definition with_attempt (e : activeReservation) (nonce : string) : activeReservation :=
  mkReservation (ar_BuildName e) (ar_Requester e) (ar_Slots e) (ar_GrantNonce e) (ar_GrantFence e) (ar_GrantObservedRV e)
    (ar_GrantReceiptUID e) (ar_GrantReceiptDigest e) (ar_GrantCleanupReady e) nonce (ar_PodTemplateDigest e)
    (ar_PodReceiptUID e) (ar_PodReceiptDigest e) (ar_PodCleanupReady e) (ar_Closing e) (ar_InFlight e).
Definition with_observed_rv (e : activeReservation) (rv : string) : activeReservation :=
  mkReservation (ar_BuildName e) (ar_Requester e) (ar_Slots e) (ar_GrantNonce e) (ar_GrantFence e) rv
    (ar_GrantReceiptUID e) (ar_GrantReceiptDigest e) (ar_GrantCleanupReady e) (ar_PodAttemptNonce e) (ar_PodTemplateDigest e)
    (ar_PodReceiptUID e) (ar_PodReceiptDigest e) (ar_PodCleanupReady e) (ar_Closing e) (ar_InFlight e).
Definition with_grant_link (e : activeReservation) (uid digest : string) : activeReservation :=
  mkReservation (ar_BuildName e) (ar_Requester e) (ar_Slots e) (ar_GrantNonce e) (ar_GrantFence e) (ar_GrantObservedRV e)
    uid digest (ar_GrantCleanupReady e) (ar_PodAttemptNonce e) (ar_PodTemplateDigest e)
    (ar_PodReceiptUID e) (ar_PodReceiptDigest e) (ar_PodCleanupReady e) (ar_Closing e) (ar_InFlight e).
Definition with_grant_cleanup (e : activeReservation) : activeReservation :=
  mkReservation (ar_BuildName e) (ar_Requester e) (ar_Slots e) (ar_GrantNonce e) (ar_GrantFence e) (ar_GrantObservedRV e)
    (ar_GrantReceiptUID e) (ar_GrantReceiptDigest e) true (ar_PodAttemptNonce e) (ar_PodTemplateDigest e)
    (ar_PodReceiptUID e) (ar_PodReceiptDigest e) (ar_PodCleanupReady e) (ar_Closing e) (ar_InFlight e).
Definition with_template (e : activeReservation) (digest : string) : activeReservation :=
  mkReservation (ar_BuildName e) (ar_Requester e) (ar_Slots e) (ar_GrantNonce e) (ar_GrantFence e) (ar_GrantObservedRV e)
    (ar_GrantReceiptUID e) (ar_GrantReceiptDigest e) (ar_GrantCleanupReady e) (ar_PodAttemptNonce e) digest
    (ar_PodReceiptUID e) (ar_PodReceiptDigest e) (ar_PodCleanupReady e) (ar_Closing e) (ar_InFlight e).
Definition with_pod_link (e : activeReservation) (uid digest : string) : activeReservation :=
  mkReservation (ar_BuildName e) (ar_Requester e) (ar_Slots e) (ar_GrantNonce e) (ar_GrantFence e) (ar_GrantObservedRV e)
    (ar_GrantReceiptUID e) (ar_GrantReceiptDigest e) (ar_GrantCleanupReady e) (ar_PodAttemptNonce e) (ar_PodTemplateDigest e)
    uid digest (ar_PodCleanupReady e) (ar_Closing e) (ar_InFlight e).
Definition with_pod_cleanup (e : activeReservation) : activeReservation :=
  mkReservation (ar_BuildName e) (ar_Requester e) (ar_Slots e) (ar_GrantNonce e) (ar_GrantFence e) (ar_GrantObservedRV e)
    (ar_GrantReceiptUID e) (ar_GrantReceiptDigest e) (ar_GrantCleanupReady e) (ar_PodAttemptNonce e) (ar_PodTemplateDigest e)
    (ar_PodReceiptUID e) (ar_PodReceiptDigest e) true (ar_Closing e) (ar_InFlight e).

(** [build.Name] of the Pod ([runner.go]) and the owner check. *)
Definition buildPodName (name : string) : string := "kova-job-" +:+ name.
Definition podOwnedByBuild (pod : Pod) (build : KovaBuild) : bool :=
  existsb (fun o => seqb (or_apiVersion o) (Group +:+ "/" +:+ Version) && seqb (or_kind o) "KovaBuild" &&
                    seqb (or_name o) (kb_name build) && seqb (or_uid o) (kb_uid build)) (pod_owners pod).
Definition buildIDLabel : string := "kova.cofy.dev/build-id".

(** uint64 increment. *)
Definition fence_next (f : Z) : Z := ((f + 1) mod 2 ^ 64)%Z.

(** Both entries name the same grant, or the same Pod attempt of it. *)
Definition sameGrant (l r : activeReservation) : bool :=
  seqb (ar_BuildName l) (ar_BuildName r) && seqb (ar_Requester l) (ar_Requester r) && (ar_Slots l =? ar_Slots r)%Z &&
  seqb (ar_GrantNonce l) (ar_GrantNonce r) && (ar_GrantFence l =? ar_GrantFence r)%Z.
Definition samePodAttempt (l r : activeReservation) : bool :=
  sameGrant l r && seqb (ar_GrantObservedRV l) (ar_GrantObservedRV r) &&
  seqb (ar_GrantReceiptUID l) (ar_GrantReceiptUID r) && seqb (ar_GrantReceiptDigest l) (ar_GrantReceiptDigest r) &&
  seqb (ar_PodAttemptNonce l) (ar_PodAttemptNonce r).

Section ops.
Context `{External}.
Context (r : Reconciler).

Definition queueStoreForNamespace (ns : string) : Store :=
  {| s_hasReader := r_hasAPIReader r || r_hasClient r; s_hasClient := r_hasClient r; s_Genesis := r_Genesis r;
     s_Namespace := ns; s_GlobalLimit := MaxQueuedJobs (r_Cfg r); s_RequesterLimit := MaxQueuedJobsPerRequester (r_Cfg r) |}.

Definition ensureLiveAdmissionBuild (build : KovaBuild) : prog (option error) :=
  get* current := call (GetBuild (kb_ns build) (kb_name build)) else (fun e => Ret (Some e)) in
  if negb (seqb (kb_uid current) (kb_uid build)) || kb_deleting current || cancellationRequested current ||
     negb (queuedPhase (kb_phase current))
  then Ret (Some (Wrap "build" errAdmissionClosed))
  else Ret None.

(** ** Reading and writing the ledger *)

Definition readActiveObject (ns : string) : prog (result ConfigMap) :=
  get* cm := call (GetConfigMap ns reservationConfigMap) else (fun e => Ret (Err e)) in
  match r_Genesis r with
  | Some g => match CheckLedger g cm Active with Some e => Ret (Err e) | None => Ret (Ok cm) end
  | None => Ret (Ok cm)
  end.

Definition qualifyActive (cm : ConfigMap) : result (ConfigMap * reservationState) :=
  match decodeReservations cm with
  | Err e => Err e
  | Ok s =>
      match validateReservationLimits (r_Cfg r) s with
      | Some e => Err e
      | None =>
          if (bool_decide (is_Some (r_Genesis r)) && negb (rs_Version s =? 2)%Z) ||
             (bool_decide (r_Genesis r = None) && negb (rs_Version s =? 1)%Z)
          then Err (Plain "active admission ledger has the wrong receipt protocol version")
          else Ok (cm, s)
      end
  end.

Definition readReservationsWithObservation (ctx : bool) (ns : string) (observation : option Observation)
    : prog (result (ConfigMap * reservationState)) :=
  let* pre :=
    match r_Genesis r with
    | Some g =>
        if negb (r_hasAPIReader r) then Ret (Some (Plain "Genesis admission requires a direct API reader"))
        else match observation with
        | None => Guard_Check g
        | Some o => Ret (AssertNoOrdinaryContext o g ctx)
        end
    | None =>
        match observation with
        | Some _ => Ret (Some (Plain "read-only reservation observation requires Genesis"))
        | None => Ret None
        end
    end in
  match pre with
  | Some e => Ret (Err e)
  | None =>
      get* cm := match observation, r_Genesis r with
                 | Some o, Some g => Observation_Read o g (readActiveObject ns)
                 | _, _ => readActiveObject ns
                 end else (fun e => Ret (Err e)) in
      Ret (qualifyActive cm)
  end.

Definition readReservations (ns : string) : prog (result (ConfigMap * reservationState)) :=
  readReservationsWithObservation true ns None.

Definition writeReservations (cm : ConfigMap) (next : reservationState) : prog (option error) :=
  if negb (bool_decide (size (cm_data cm) = 1)) || (slen (mget (cm_data cm) reservationDataKey) =? 0)%Z ||
     negb (bool_decide (size (cm_binary cm) = 0))
  then Ret (Some (Plain "active admission ledger has unsupported data keys"))
  else match encodeReservations next with
  | Err e => Ret (Some e)
  | Ok data =>
      match r_Genesis r with
      | Some g => PatchLedgerData g cm Active data
      | None => call (UpdateConfigMap (with_data cm {[reservationDataKey := data]}))
      end
  end.

(** A write; a conflict waits and continues. *)
Definition casReservations {A} (retry : nat) (cm : ConfigMap) (next : reservationState) (fail : error -> A)
    (finish : prog (option A)) (failed : error -> prog (option A)) : prog (option A) :=
  let* w := writeReservations cm next in
  match w with
  | None => finish
  | Some err => if IsConflict err then wait_continue retry fail else failed err
  end.

(** ** Initialization *)

(** The receiver of [PreflightAdmissionLedger] has a reader and no guard. *)
Definition legacy : Reconciler :=
  {| r_hasClient := r_hasClient r; r_hasAPIReader := r_hasAPIReader r; r_hasReceipts := false; r_hasCoordinator := false;
     r_Genesis := None; r_Cfg := r_Cfg r |}.
End ops.

Section ops2.
Context `{External}.
Context (r : Reconciler).

Definition PreflightAdmissionLedger (ns : string) : prog (option error) :=
  let* first := readReservations (legacy r) ns in
  match first with
  | Ok _ => Ret None
  | Err e =>
      if negb (IsNotFound e) then Ret (Some e)
      else match ValidateReservationCapacity (r_Cfg r) with
      | Some _ => Ret (Some (Plain "active admission ledger has invalid replica limits"))
      | None =>
          get* builds := call (ListBuilds ns (Some 1%Z)) else (fun e => Ret (Some e)) in
          match builds with
          | _ :: _ => Ret (Some (Plain "active admission ledger is absent while KovaBuilds exist; drain and migrate before admission"))
          | [] =>
              get* pods := call (ListPods ns) else (fun e => Ret (Some e)) in
              if existsb (fun p => negb (sempty (mget (pod_labels p) buildIDLabel))) pods
              then Ret (Some (Plain "active admission ledger is absent while runner Pods exist; drain and migrate before admission"))
              else Ret None
          end
      end
  end.

Definition freshActiveLedger (ns nonce data : string) : ConfigMap :=
  {| cm_ns := ns; cm_name := reservationConfigMap; cm_uid := ""; cm_rv := ""; cm_labels := ∅;
     cm_annotations := {[bootstrapAttemptKey := nonce]}; cm_owners := []; cm_deleting := false; cm_immutable := None;
     cm_data := {[reservationDataKey := data]}; cm_binary := ∅ |}.

(** [bootstrapNonce] survives iterations; the result is the [created] flag. *)
Definition initializeIteration (ns : string) (retry : nat) (nonce : string) : prog (string + result bool) :=
  let* first := readReservations r ns in
  match first with
  | Ok _ => Ret (inr (Ok false))
  | Err e =>
      if negb (IsNotFound e) then Ret (inr (Err e))
      else
        let* q := call (GetConfigMap ns ConfigMapName) in
        match q with
        | Ok _ =>
            let* again := readReservations r ns in
            match again with
            | Ok _ => Ret (inr (Ok false))
            | Err e =>
                if negb (IsNotFound e) then Ret (inr (Err e))
                else Ret (inr (Err (Plain "active admission ledger is absent while queue admission ledger exists")))
            end
        | Err queueErr =>
            if negb (IsNotFound queueErr) then Ret (inr (Err queueErr))
            else
              chk* PreflightAdmissionLedger ns else (fun e => Ret (inr (Err e))) in
              match encodeReservations (freshReservations (r_Cfg r)) with
              | Err e => Ret (inr (Err e))
              | Ok data =>
                  get* nonce := (if sempty nonce then random_nonce else Ret (Ok nonce)) else (fun e => Ret (inr (Err e))) in
                  let* c := call (CreateConfigMap (freshActiveLedger ns nonce data)) in
                  match snd c with
                  | None => Ret (inr (Ok true))
                  | Some err =>
                      if IsAlreadyExists err then
                        let* w := waitCAS retry in
                        match w with Some e => Ret (inr (Err e)) | None => Ret (inl nonce) end
                      else
                        let* again := readReservations r ns in
                        match again with
                        | Ok (cm, _) => Ret (inr (Ok (seqb (mget (cm_annotations cm) bootstrapAttemptKey) nonce)))
                        | Err _ => Ret (inr (Err err))
                        end
                  end
              end
        end
  end.

Definition initializeReservations (ns : string) : prog (result bool) :=
  match r_Genesis r with
  | Some _ => let* x := readReservations r ns in Ret (match x with Ok _ => Ok false | Err e => Err e end)
  | None =>
      retry_state maxReservationCASAttempts 0 (initializeIteration ns) ""
        (fun _ => Err (Plain "active admission ledger is busy initializing"))
  end.

Definition CheckAdmissionLedger (ns : string) : prog (option error) :=
  get* cm := call (GetConfigMap ns reservationConfigMap) else (fun e => Ret (Some e)) in
  match decodeReservations cm with
  | Err e => Ret (Some e)
  | Ok s =>
      if negb (rs_Version s =? 1)%Z then Ret (Some (Plain "legacy admission requires active ledger version 1"))
      else Ret (validateReservationLimits (r_Cfg r) s)
  end.

(** ** Fencing *)

Definition fenceIteration (build : KovaBuild) (retry : nat) : prog (option (option error)) :=
  get* (cm, s) := readReservations r (kb_ns build) else (fun e => Ret (Some (Some e))) in
  let s := with_fence s (fence_next (rs_Fence s)) in
  let commit s' := casReservations r retry cm s' Some (Ret (Some None)) (fun err => Ret (Some (Some err))) in
  match active s !! reservationKey build with
  | Some entry =>
      if negb (seqb (ar_BuildName entry) (kb_name build))
      then Ret (Some (Some (Plain "admission reservation has mismatched build name")))
      else commit (set_active s (reservationKey build) (closing entry))
  | None => commit s
  end.

Definition fenceReservation (build : KovaBuild) : prog (option error) :=
  retry_loop maxReservationCASAttempts 0 (fenceIteration build) (Some (Plain "active admission ledger is busy fencing")).

(** ** Pods *)

Definition getOwnedPod (build : KovaBuild) : prog (result (option Pod)) :=
  let* p := call (GetPod (kb_ns build) (buildPodName (kb_name build))) in
  match p with
  | Err e => if IsNotFound e then Ret (Ok None) else Ret (Err e)
  | Ok pod =>
      if podOwnedByBuild pod build then Ret (Ok (Some pod))
      else Ret (Err (Plain "runner Pod is not owned by KovaBuild UID"))
  end.

Definition podCreateAttemptRecorded (build : KovaBuild) (attempt : string) : prog (result bool) :=
  get* (_, s) := readReservations r (kb_ns build) else (fun e => Ret (Err e)) in
  match active s !! reservationKey build with
  | None => Ret (Err (Plain "KovaBuild has no matching active reservation"))
  | Some entry =>
      if negb (seqb (ar_BuildName entry) (kb_name build)) then Ret (Err (Plain "KovaBuild has no matching active reservation"))
      else if bool_decide (is_Some (r_Genesis r)) then Ret (Ok (seqb (ar_PodAttemptNonce entry) attempt))
      else Ret (Ok (existsb (fun v => seqb v attempt) (ar_InFlight entry)))
  end.

Definition reservationCovered (ns : string) (s : reservationState) (build : KovaBuild) : prog (result bool) :=
  match active s !! reservationKey build with
  | Some entry => Ret (Ok (seqb (ar_BuildName entry) (kb_name build)))
  | None =>
      get* latest := readActiveObject r ns else (fun e => Ret (Err e)) in
      match decodeReservations latest with
      | Err e => Ret (Err e)
      | Ok current =>
          match validateReservationLimits (r_Cfg r) current with
          | Some e => Ret (Err e)
          | None =>
              Ret (Ok match active current !! reservationKey build with
                      | Some entry => seqb (ar_BuildName entry) (kb_name build)
                      | None => false
                      end)
          end
      end
  end.

Definition runningPhase (p : string) : bool :=
  seqb p PhaseStarting || seqb p PhaseRunning || seqb p PhaseVerifying || seqb p PhaseFailedVerifying.

Fixpoint coverBuilds (ns : string) (s : reservationState) (builds : list KovaBuild) : prog (option error) :=
  match builds with
  | [] => Ret None
  | build :: rest =>
      if runningPhase (kb_phase build) then
        get* covered := reservationCovered ns s build else (fun e => Ret (Some e)) in
        if covered then coverBuilds ns s rest else Ret (Some (Plain "active KovaBuild has no admission reservation"))
      else coverBuilds ns s rest
  end.

(** [byName[name]]: the last build of that name. *)
Definition byName (builds : list KovaBuild) (name : string) : option KovaBuild :=
  List.find (fun b => seqb (kb_name b) name) (rev builds).

Fixpoint coverPods (ns : string) (s : reservationState) (builds : list KovaBuild) (pods : list Pod) : prog (option error) :=
  match pods with
  | [] => Ret None
  | pod :: rest =>
      let name := mget (pod_labels pod) buildIDLabel in
      if sempty name then coverPods ns s builds rest
      else match byName builds name with
      | None => Ret (Some (Plain "runner Pod has no matching KovaBuild owner"))
      | Some build =>
          if negb (podOwnedByBuild pod build) then Ret (Some (Plain "runner Pod has no matching KovaBuild owner"))
          else
            get* covered := reservationCovered ns s build else (fun e => Ret (Some e)) in
            if covered then coverPods ns s builds rest else Ret (Some (Plain "runner Pod has no admission reservation"))
      end
  end.

Definition ensureNoUnreservedRunner (ns : string) (s : reservationState) (builds : list KovaBuild) : prog (option error) :=
  chk* coverBuilds ns s builds else (fun e => Ret (Some e)) in
  get* pods := call (ListPods ns) else (fun e => Ret (Some e)) in
  coverPods ns s builds pods.
End ops2.
