(* ===== verification/GrantOps.v ===== *)
(** * Grants, Pod attempts and their receipts

    The receipted grant protocol of
    [src/internal/service/buildcontroller/grant_receipt.go] and
    [pod_receipt.go], the release path of [reservation.go] and [admission] of
    [admission.go].  Variables that a [Genesis.Observe] callback assigns are
    returned by [observe_with].  The Pod object itself is in [Manifest] and
    [RunnerWitness], its Create request in [Reconcile]. *)
From S2P Require Import Prelude GoText Json JsonFacts AdmissionJson Sha256 Types Kube Contract Genesis QueueReceipt Effects QueueLedger QueueOps ActiveLedger FairQueue ActiveOps.

Section grants.
Context `{External}.
Context (r : Reconciler).

(** [Genesis.Observe] around a callback with a result. *)
Definition observe_with {A} (g : Guard) (read : Observation -> prog (result A)) : prog (result A) :=
  chk* Guard_Check g else (fun e => Ret (Err e)) in
  let* x := read {| ob_guard := gd_id g; ob_closed := false |} in
  let* ctxErr := call CtxDone in
  let* last := Guard_Check g in
  match join (join (error_of x) ctxErr) last with
  | Some e => Ret (Err e)
  | None => Ret x
  end.

Definition lift_error (p : prog (option error)) : prog (result unit) :=
  let* e := p in Ret (match e with Some e => Err e | None => Ok tt end).

Definition checkGrantReceiptNamespaceWithObservation (ctx : bool) (ns : string) (observation : option Observation)
    : prog (option error) :=
  match r_Genesis r with
  | None => Ret (Some (Plain "Genesis grant requires a direct receipt ConfigMap client"))
  | Some g =>
      if negb (r_hasReceipts r) then Ret (Some (Plain "Genesis grant requires a direct receipt ConfigMap client"))
      else match match observation with Some o => AssertNoOrdinaryContext o g ctx | None => None end with
      | Some e => Ret (Some e)
      | None =>
          let queue := queueStoreForNamespace r ns in
          match observation with
          | Some o => CheckReceiptNamespaceObserved queue (Some o)
          | None => CheckReceiptNamespace queue
          end
      end
  end.
Definition checkGrantReceiptNamespace (ns : string) : prog (option error) :=
  checkGrantReceiptNamespaceWithObservation true ns None.

(** The queue link of a verified queue entry: [None] is the direct mode. *)
Definition grantQueueLink (build : KovaBuild) (queueEntry : option Intent) : result (option ReceiptLink) :=
  let nonce := annotation build IntentAnnotation in
  if negb (sempty nonce) then
    match queueEntry with
    | None => Err ErrDrift
    | Some q =>
        if negb (seqb (it_Nonce q) nonce) || sempty (it_ReceiptUID q) || sempty (it_ReceiptDigest q) ||
           negb (seqb (it_RequestDigest q) (DigestBuild build)) || negb (sempty (it_CleanupKind q))
        then Err ErrDrift
        else match ReceiptIntent (queueStoreForNamespace r (kb_ns build)) build q with
        | Err e => Err e
        | Ok qi =>
            match NewQueueConfigMap qi with
            | Err e => Err e
            | Ok cm => Ok (Some {| rl_Name := cm_name cm; rl_UID := it_ReceiptUID q; rl_DataDigest := it_ReceiptDigest q |})
            end
        end
    end
  else match queueEntry with
  | Some _ => Err ErrDrift
  | None => Ok None
  end.

Definition pinnedBuild (g : Guard) (build : KovaBuild) : PinnedBuild :=
  let receipt := bs_Receipt (gd_Bootstrap g) in
  let w := gd_Original g in
  {| pb_Namespace := kb_ns build; pb_NamespaceUID := bd_NamespaceUID w;
     pb_ReceiptNamespace := ct_ReceiptNamespace (rc_Contract receipt);
     pb_ReceiptNamespaceUID := ct_ReceiptNamespaceUID (rc_Contract receipt);
     pb_GenesisName := rc_GenesisName receipt; pb_GenesisUID := bd_GenesisUID w;
     pb_Generation := ct_Generation (rc_Contract receipt);
     pb_ActiveLedgerUID := bd_ActiveLedgerUID w; pb_QueueLedgerUID := bd_QueueLedgerUID w;
     pb_BuildName := kb_name build; pb_BuildUID := kb_uid build;
     pb_RequesterName := rq_username (sp_requester (kb_spec build)); pb_RequesterUID := rq_uid (sp_requester (kb_spec build));
     pb_RequesterHash := HashRequester (rq_username (sp_requester (kb_spec build)));
     pb_RequestDigest := DigestBuild build; pb_SourceDigest := src_digest (sp_source (kb_spec build));
     pb_WorkerPoolID := cfg_WorkerPoolID (r_Cfg r) |}.

Definition grantIntentWithObservation (ctx : bool) (build : KovaBuild) (grant : activeReservation)
    (observation : option Observation) : prog (result GrantIntent) :=
  match r_Genesis r with
  | None => Ret (Err (Plain "Genesis grant has no reconstructible pre-effect identity"))
  | Some g =>
      if sempty (kb_uid build) || negb (seqb (ar_BuildName grant) (kb_name build)) ||
         negb (seqb (ar_Requester grant) (requesterKey build)) || negb (validReservationHex (ar_GrantNonce grant) 32) ||
         (ar_GrantFence grant =? 0)%Z || negb (validGrantObservedRV (ar_GrantObservedRV grant))
      then Ret (Err (Plain "Genesis grant has no reconstructible pre-effect identity"))
      else
        chk* match observation with None => Guard_Check g | Some o => Ret (AssertNoOrdinaryContext o g ctx) end
          else (fun e => Ret (Err e)) in
        let contract := rc_Contract (bs_Receipt (gd_Bootstrap g)) in
        if sempty (cfg_WorkerPoolID (r_Cfg r)) || negb (seqb (cfg_WorkerPoolID (r_Cfg r)) (ct_WorkerPoolID contract))
        then Ret (Err (Plain "configured worker pool differs from immutable admission Genesis"))
        else
          let queue := queueStoreForNamespace r (kb_ns build) in
          get* verified := match observation with
                           | None => VerifyForBuildSnapshot queue build
                           | Some o => VerifyForBuildObserved queue build (Some o)
                           end else (fun e => Ret (Err e)) in
          get* queueEntry := match observation with
                             | None => Lookup queue (kb_name build)
                             | Some o => LookupObserved queue (kb_name build) (Some o)
                             end else (fun e => Ret (Err e)) in
          if negb (bool_decide (queueEntry = verified)) then Ret (Err ErrDrift)
          else match grantQueueLink build queueEntry with
          | Err e => Ret (Err e)
          | Ok link =>
              Ret (Ok {| gi_Build := pinnedBuild g build;
                         gi_AdmissionMode := match link with Some _ => "queued" | None => "direct" end;
                         gi_QueueReceipt := link; gi_GrantNonce := ar_GrantNonce grant;
                         gi_ActiveLedgerFence := ar_GrantFence grant; gi_ActiveLedgerRV := ar_GrantObservedRV grant;
                         gi_AllocatedWorkerSlots := ar_Slots grant |})
          end
  end.
Definition grantIntent (build : KovaBuild) (grant : activeReservation) : prog (result GrantIntent) :=
  grantIntentWithObservation true build grant None.

(** Both receipt observations bracket an intent reconstruction and one direct
    read with receipt namespace checks. *)
Definition observeReceiptWith {I} (g : Guard) (build : KovaBuild) (o : Observation)
    (intent : prog (result I)) (observe : I -> prog (result EffectWitness)) : prog (result EffectWitness) :=
  match AssertNoOrdinaryContext o g false with
  | Some e => Ret (Err e)
  | None =>
      chk* checkGrantReceiptNamespaceWithObservation false (kb_ns build) (Some o) else (fun e => Ret (Err e)) in
      get* i := intent else (fun e => Ret (Err e)) in
      get* witness := Observation_Read o g (observe i) else (fun e => Ret (Err e)) in
      chk* checkGrantReceiptNamespaceWithObservation false (kb_ns build) (Some o) else (fun e => Ret (Err e)) in
      Ret (Ok witness)
  end.

Definition observeGrantReceiptWithObservation (g : Guard) (build : KovaBuild) (entry : activeReservation) (o : Observation)
    : prog (result EffectWitness) :=
  observeReceiptWith g build o (grantIntentWithObservation false build entry (Some o)) ObserveGrant.

Definition observeGrantReceipt (build : KovaBuild) (entry : activeReservation) : prog (result EffectWitness) :=
  match r_Genesis r with
  | None => Ret (Err (Plain "Genesis grant observation requires an original guard"))
  | Some g => observe_with g (observeGrantReceiptWithObservation g build entry)
  end.

Definition verifyPinnedGrantWithObservation (g : Guard) (build : KovaBuild) (entry : activeReservation) (o : Observation)
    : prog (option error) :=
  match AssertNoOrdinaryContext o g false with
  | Some e => Ret (Some e)
  | None =>
      if ar_Closing entry then Ret (Some (Wrap "grant is closing" errAdmissionClosed))
      else if sempty (ar_GrantReceiptUID entry) || sempty (ar_GrantReceiptDigest entry) then
        if negb (sempty (ar_GrantObservedRV entry))
        then let* _ := observeGrantReceiptWithObservation g build entry o in Ret (Some errGrantUnpinned)
        else Ret (Some errGrantUnpinned)
      else
        get* witness := observeGrantReceiptWithObservation g build entry o else (fun e => Ret (Some e)) in
        if negb (seqb (ew_ReceiptUID witness) (ar_GrantReceiptUID entry)) ||
           negb (seqb (ew_DataDigest witness) (ar_GrantReceiptDigest entry))
        then Ret (Some ErrReceiptChanged)
        else Ret None
  end.

Definition verifyPinnedGrant (build : KovaBuild) (entry : activeReservation) : prog (option error) :=
  match r_Genesis r with
  | None => Ret (Some (Plain "Genesis grant verification requires an original guard"))
  | Some g => Observe g (verifyPinnedGrantWithObservation g build entry)
  end.

(** ** Arming and pinning a fresh grant *)

Definition armIteration (build : KovaBuild) (original : activeReservation) (retry : nat)
    : prog (option (result activeReservation)) :=
  let key := reservationKey build in
  get* (cm, s) := readReservations r (kb_ns build) else (fun e => Ret (Some (Err e))) in
  match active s !! key with
  | None => Ret (Some (Err (Plain "fresh grant lost its unarmed active charge")))
  | Some entry =>
      if negb (sameGrant entry original) || ar_Closing entry || negb (sempty (ar_GrantObservedRV entry)) ||
         negb (sempty (ar_GrantReceiptUID entry))
      then Ret (Some (Err (Plain "fresh grant lost its unarmed active charge")))
      else
        chk* ensureLiveAdmissionBuild build else (fun e => Ret (Some (Err e))) in
        if negb (validGrantObservedRV (cm_rv cm))
        then Ret (Some (Err (Plain "active ledger observation has unsupported opaque resourceVersion")))
        else
          casReservations r retry cm (set_active s key (with_observed_rv entry (cm_rv cm))) Err
            (get* (_, confirmed) := readReservations r (kb_ns build) else (fun e => Ret (Some (Err e))) in
             match active confirmed !! key with
             | Some o =>
                 if negb (sameGrant o original) || negb (seqb (ar_GrantObservedRV o) (cm_rv cm)) || ar_Closing o ||
                    negb (sempty (ar_GrantReceiptUID o))
                 then Ret (Some (Err (Plain "armed grant changed before receipt Create")))
                 else Ret (Some (Ok o))
             | None => Ret (Some (Err (Plain "armed grant changed before receipt Create")))
             end)
            (fun err => Ret (Some (Err err)))
  end.

Definition armFreshGrant (build : KovaBuild) (original : activeReservation) : prog (result activeReservation) :=
  retry_loop maxReservationCASAttempts 0 (armIteration build original) (Err (Plain "active admission ledger is busy arming grant")).

Definition pinnedTo (same : activeReservation -> bool) (uid digest : activeReservation -> string) (w : EffectWitness)
    (o : option activeReservation) : option activeReservation :=
  match o with
  | Some p => if same p && seqb (uid p) (ew_ReceiptUID w) && seqb (digest p) (ew_DataDigest w) then Some p else None
  | None => None
  end.

Definition pinGrantIteration (build : KovaBuild) (armed : activeReservation) (w : EffectWitness) (retry : nat)
    : prog (option (result activeReservation)) :=
  let key := reservationKey build in
  let same p := sameGrant p armed && seqb (ar_GrantObservedRV p) (ar_GrantObservedRV armed) in
  let pinned s := pinnedTo same ar_GrantReceiptUID ar_GrantReceiptDigest w (active s !! key) in
  get* (cm, s) := readReservations r (kb_ns build) else (fun e => Ret (Some (Err e))) in
  match active s !! key with
  | None => Ret (Some (Err (Plain "grant changed before receipt pin")))
  | Some entry =>
      if negb (same entry) || ar_GrantCleanupReady entry then Ret (Some (Err (Plain "grant changed before receipt pin")))
      else if negb (sempty (ar_GrantReceiptUID entry)) then
        if negb (seqb (ar_GrantReceiptUID entry) (ew_ReceiptUID w)) || negb (seqb (ar_GrantReceiptDigest entry) (ew_DataDigest w))
        then Ret (Some (Err ErrReceiptChanged)) else Ret (Some (Ok entry))
      else
        casReservations r retry cm (set_active s key (with_grant_link entry (ew_ReceiptUID w) (ew_DataDigest w))) Err
          (get* (_, observed) := readReservations r (kb_ns build) else (fun e => Ret (Some (Err e))) in
           match pinned observed with Some p => Ret (Some (Ok p)) | None => Ret (Some (Err ErrReceiptChanged)) end)
          (fun err =>
             let* again := readReservations r (kb_ns build) in
             match again with
             | Ok (_, observed) => match pinned observed with Some p => Ret (Some (Ok p)) | None => Ret (Some (Err err)) end
             | Err _ => Ret (Some (Err err))
             end)
  end.

Definition pinGrantReceipt (build : KovaBuild) (armed : activeReservation) (w : EffectWitness) : prog (result activeReservation) :=
  if negb (validGrantReceiptUID (ew_ReceiptUID w)) || negb (validGrantReceiptDigest (ew_DataDigest w))
  then Ret (Err ErrReceiptChanged)
  else retry_loop maxReservationCASAttempts 0 (pinGrantIteration build armed w)
         (Err (Plain "active admission ledger is busy pinning grant receipt")).

(** Called by a Genesis reconciler only. *)
Definition finishFreshGrant (g : Guard) (build : KovaBuild) (original : activeReservation) : prog (option error) :=
  get* armed := armFreshGrant build original else (fun e => Ret (Some e)) in
  get* intent := observe_with g (fun o =>
      get* _ := Observation_Read o g (lift_error (ensureLiveAdmissionBuild build)) else (fun e => Ret (Err e)) in
      chk* checkGrantReceiptNamespaceWithObservation false (kb_ns build) (Some o) else (fun e => Ret (Err e)) in
      grantIntentWithObservation false build armed (Some o)) else (fun e => Ret (Some e)) in
  get* witness := RecordGrantOnce intent else (fun e => Ret (Some e)) in
  chk* checkGrantReceiptNamespace (kb_ns build) else (fun e => Ret (Some e)) in
  get* pinned := pinGrantReceipt build armed witness else (fun e => Ret (Some e)) in
  chk* ensureLiveAdmissionBuild build else (fun e => Ret (Some e)) in
  verifyPinnedGrant build pinned.

(** ** Pod attempts *)

(** [runnerexec.RequestID]. *)
Definition RequestID (build : KovaBuild) : string :=
  if negb (sempty (kb_uid build)) then kb_uid build else kb_ns build +:+ "/" +:+ kb_name build.

Definition podIntentWithObservation (ctx : bool) (build : KovaBuild) (entry : activeReservation)
    (observation : option Observation) : prog (result PodCreateIntent) :=
  match r_Genesis r with
  | None => Ret (Err (Plain "Genesis Pod attempt has no reconstructible pre-effect identity"))
  | Some g =>
      match match observation with Some o => AssertNoOrdinaryContext o g ctx | None => None end with
      | Some e => Ret (Err e)
      | None =>
          if negb (validReservationHex (ar_PodAttemptNonce entry) 32) || negb (validGrantReceiptDigest (ar_PodTemplateDigest entry)) ||
             negb (validGrantReceiptUID (ar_GrantReceiptUID entry)) || negb (validGrantReceiptDigest (ar_GrantReceiptDigest entry))
          then Ret (Err (Plain "Genesis Pod attempt has no reconstructible pre-effect identity"))
          else
            get* grant := grantIntentWithObservation ctx build entry observation else (fun e => Ret (Err e)) in
            match NewGrantConfigMap grant with
            | Err e => Ret (Err e)
            | Ok grantCM =>
                if negb (seqb (cfg_RunnerImage (r_Cfg r)) (ct_RunnerImage (rc_Contract (bs_Receipt (gd_Bootstrap g)))))
                then Ret (Err (Plain "runner image differs from immutable admission Genesis"))
                else match RunnerManifestDigest (cfg_RunnerImage (r_Cfg r)) with
                | Err _ => Ret (Err (Plain "runner image digest is not derived from the original manifest reference"))
                | Ok digest =>
                    if negb (seqb digest (cfg_RunnerImageDigest (r_Cfg r)))
                    then Ret (Err (Plain "runner image digest is not derived from the original manifest reference"))
                    else
                      Ret (Ok {| pi_Build := gi_Build grant;
                                 pi_GrantReceipt := {| rl_Name := cm_name grantCM; rl_UID := ar_GrantReceiptUID entry;
                                                       rl_DataDigest := ar_GrantReceiptDigest entry |};
                                 pi_PodName := buildPodName (kb_name build); pi_PodAttemptNonce := ar_PodAttemptNonce entry;
                                 pi_PodTemplateDigest := ar_PodTemplateDigest entry; pi_RunnerImageDigest := digest;
                                 pi_BuildRequestID := RequestID build |})
                end
            end
      end
  end.
Definition podIntent (build : KovaBuild) (entry : activeReservation) : prog (result PodCreateIntent) :=
  podIntentWithObservation true build entry None.

Definition observePodReceiptWithObservation (g : Guard) (build : KovaBuild) (entry : activeReservation) (o : Observation)
    : prog (result EffectWitness) :=
  observeReceiptWith g build o (podIntentWithObservation false build entry (Some o)) ObservePodCreate.

Definition observePodReceipt (build : KovaBuild) (entry : activeReservation) : prog (result EffectWitness) :=
  match r_Genesis r with
  | None => Ret (Err (Plain "Genesis Pod observation requires an original guard"))
  | Some g => observe_with g (observePodReceiptWithObservation g build entry)
  end.

Definition verifyPinnedPodReceiptWithObservation (g : Guard) (build : KovaBuild) (entry : activeReservation)
    (allowClosing : bool) (o : Observation) : prog (option error) :=
  match AssertNoOrdinaryContext o g false with
  | Some e => Ret (Some e)
  | None =>
      if negb allowClosing && ar_Closing entry then Ret (Some (Wrap "Pod attempt is closing" errAdmissionClosed))
      else if sempty (ar_PodReceiptUID entry) || sempty (ar_PodReceiptDigest entry) then
        if negb (sempty (ar_PodTemplateDigest entry))
        then let* _ := observePodReceiptWithObservation g build entry o in Ret (Some errPodReceiptUnpinned)
        else Ret (Some errPodReceiptUnpinned)
      else
        get* witness := observePodReceiptWithObservation g build entry o else (fun e => Ret (Some e)) in
        if negb (seqb (ew_ReceiptUID witness) (ar_PodReceiptUID entry)) ||
           negb (seqb (ew_DataDigest witness) (ar_PodReceiptDigest entry))
        then Ret (Some ErrReceiptChanged)
        else Ret None
  end.

Definition verifyPinnedPodReceipt (build : KovaBuild) (entry : activeReservation) (allowClosing : bool) : prog (option error) :=
  match r_Genesis r with
  | None => Ret (Some (Plain "Genesis Pod verification requires an original guard"))
  | Some g => Observe g (verifyPinnedPodReceiptWithObservation g build entry allowClosing)
  end.

(** The observed read of [armFreshPodAttempt] and [authorizeFreshPodCreate]:
    the entry must satisfy [ok] and its build must still be live. *)
Definition observeEntry (g : Guard) (build : KovaBuild) (ok : activeReservation -> bool) (lost : string)
    (verify : activeReservation -> Observation -> prog (option error))
    : prog (result (ConfigMap * reservationState * activeReservation)) :=
  observe_with g (fun o =>
    get* (cm, s) := readReservationsWithObservation r false (kb_ns build) (Some o) else (fun e => Ret (Err e)) in
    match active s !! reservationKey build with
    | None => Ret (Err (Plain lost))
    | Some entry =>
        if negb (ok entry) then Ret (Err (Plain lost))
        else
          get* _ := Observation_Read o g (lift_error (ensureLiveAdmissionBuild build)) else (fun e => Ret (Err e)) in
          chk* verify entry o else (fun e => Ret (Err e)) in
          Ret (Ok (cm, s, entry))
    end).

Definition armPodIteration (g : Guard) (build : KovaBuild) (attempt digest : string) (retry : nat)
    : prog (option (result activeReservation)) :=
  let key := reservationKey build in
  get* (cm, s, entry) := observeEntry g build (fun e =>
      seqb (ar_BuildName e) (kb_name build) && seqb (ar_PodAttemptNonce e) attempt && sempty (ar_PodTemplateDigest e) &&
      sempty (ar_PodReceiptUID e) && negb (ar_Closing e) && negb (inFlight e)) "fresh Pod attempt lost its unarmed active charge"
      (verifyPinnedGrantWithObservation g build)
    else (fun e => Ret (Some (Err e))) in
  let entry := with_template entry digest in
  casReservations r retry cm (set_active s key entry) Err
    (get* (_, observed) := readReservations r (kb_ns build) else (fun e => Ret (Some (Err e))) in
     match active observed !! key with
     | Some armed =>
         if negb (samePodAttempt armed entry) || negb (seqb (ar_PodTemplateDigest armed) digest) ||
            negb (sempty (ar_PodReceiptUID armed)) || ar_Closing armed || inFlight armed
         then Ret (Some (Err (Plain "armed Pod attempt changed before receipt Create")))
         else Ret (Some (Ok armed))
     | None => Ret (Some (Err (Plain "armed Pod attempt changed before receipt Create")))
     end)
    (fun err => Ret (Some (Err err))).

Definition armFreshPodAttempt (g : Guard) (build : KovaBuild) (attempt digest : string) : prog (result activeReservation) :=
  if negb (validReservationHex attempt 32) || negb (validGrantReceiptDigest digest)
  then Ret (Err (Plain "invalid Pod attempt or canonical template digest"))
  else retry_loop maxReservationCASAttempts 0 (armPodIteration g build attempt digest)
         (Err (Plain "active ledger is busy arming Pod attempt")).

Definition pinPodIteration (build : KovaBuild) (armed : activeReservation) (w : EffectWitness) (retry : nat)
    : prog (option (result activeReservation)) :=
  let key := reservationKey build in
  let same p := samePodAttempt p armed && seqb (ar_PodTemplateDigest p) (ar_PodTemplateDigest armed) in
  let pinned s := pinnedTo same ar_PodReceiptUID ar_PodReceiptDigest w (active s !! key) in
  get* (cm, s) := readReservations r (kb_ns build) else (fun e => Ret (Some (Err e))) in
  match active s !! key with
  | None => Ret (Some (Err (Plain "Pod attempt changed before receipt pin")))
  | Some entry =>
      if negb (same entry) || ar_PodCleanupReady entry then Ret (Some (Err (Plain "Pod attempt changed before receipt pin")))
      else if negb (sempty (ar_PodReceiptUID entry)) then
        if negb (seqb (ar_PodReceiptUID entry) (ew_ReceiptUID w)) || negb (seqb (ar_PodReceiptDigest entry) (ew_DataDigest w))
        then Ret (Some (Err ErrReceiptChanged)) else Ret (Some (Ok entry))
      else
        casReservations r retry cm (set_active s key (with_pod_link entry (ew_ReceiptUID w) (ew_DataDigest w))) Err
          (get* (_, observed) := readReservations r (kb_ns build) else (fun e => Ret (Some (Err e))) in
           match pinned observed with Some p => Ret (Some (Ok p)) | None => Ret (Some (Err ErrReceiptChanged)) end)
          (fun err =>
             let* again := readReservations r (kb_ns build) in
             match again with
             | Ok (_, observed) => match pinned observed with Some p => Ret (Some (Ok p)) | None => Ret (Some (Err err)) end
             | Err _ => Ret (Some (Err err))
             end)
  end.

Definition pinPodReceipt (build : KovaBuild) (armed : activeReservation) (w : EffectWitness) : prog (result activeReservation) :=
  if negb (validGrantReceiptUID (ew_ReceiptUID w)) || negb (validGrantReceiptDigest (ew_DataDigest w))
  then Ret (Err ErrReceiptChanged)
  else retry_loop maxReservationCASAttempts 0 (pinPodIteration build armed w)
         (Err (Plain "active ledger is busy pinning Pod receipt")).

Definition sameReceiptedAttempt (e p : activeReservation) : bool :=
  samePodAttempt e p && seqb (ar_PodTemplateDigest e) (ar_PodTemplateDigest p) &&
  seqb (ar_PodReceiptUID e) (ar_PodReceiptUID p) && seqb (ar_PodReceiptDigest e) (ar_PodReceiptDigest p).

Definition freshIssueRecorded (build : KovaBuild) (issued : activeReservation) : prog (option error) :=
  get* (_, s) := readReservations r (kb_ns build) else (fun e => Ret (Some e)) in
  match active s !! reservationKey build with
  | None => Ret (Some (Plain "Pod Create issue fence is not durably recorded"))
  | Some e =>
      if negb (sameReceiptedAttempt e issued) || ar_Closing e || ar_PodCleanupReady e ||
         negb (bool_decide (ar_InFlight e = [ar_PodAttemptNonce issued]))
      then Ret (Some (Plain "Pod Create issue fence is not durably recorded"))
      else Ret None
  end.

Definition authorizeIteration (g : Guard) (build : KovaBuild) (pinned : activeReservation) (retry : nat)
    : prog (option (option error)) :=
  get* (cm, s, entry) := observeEntry g build (fun e =>
      sameReceiptedAttempt e pinned && negb (ar_Closing e) && negb (ar_PodCleanupReady e) && negb (inFlight e))
      "pinned Pod attempt changed before Create issue"
      (fun e o =>
         chk* verifyPinnedGrantWithObservation g build e o else (fun x => Ret (Some x)) in
         verifyPinnedPodReceiptWithObservation g build e false o)
    else (fun e => Ret (Some (Some e))) in
  let entry := with_flight entry [ar_PodAttemptNonce pinned] in
  casReservations r retry cm (set_active s (reservationKey build) entry) Some
    (let* e := freshIssueRecorded build entry in Ret (Some e))
    (fun err =>
       let* e := freshIssueRecorded build entry in
       match e with None => Ret (Some None) | Some _ => Ret (Some (Some err)) end).

Definition authorizeFreshPodCreate (g : Guard) (build : KovaBuild) (pinned : activeReservation) : prog (option error) :=
  retry_loop maxReservationCASAttempts 0 (authorizeIteration g build pinned)
    (Some (Plain "active ledger is busy issuing Pod Create")).

Definition completeGenesisIteration (build : KovaBuild) (attempt : string) (retry : nat) : prog (option (option error)) :=
  let key := reservationKey build in
  get* (cm, s) := readReservations r (kb_ns build) else (fun e => Ret (Some (Some e))) in
  match active s !! key with
  | None => Ret (Some (Some (Plain "Genesis Pod completion lacks exact spent and receipted attempt")))
  | Some entry =>
      if negb (seqb (ar_BuildName entry) (kb_name build)) || negb (seqb (ar_PodAttemptNonce entry) attempt) ||
         sempty (ar_PodReceiptUID entry)
      then Ret (Some (Some (Plain "Genesis Pod completion lacks exact spent and receipted attempt")))
      else if negb (inFlight entry) then Ret (Some None)
      else if negb (bool_decide (ar_InFlight entry = [attempt]))
      then Ret (Some (Some (Plain "Genesis Pod completion differs from in-flight issue fence")))
      else
        chk* verifyPinnedPodReceipt build entry true else (fun e => Ret (Some (Some e))) in
        let entry := with_flight entry [] in
        casReservations r retry cm (set_active s key entry) Some
          (Ret (Some None))
          (fun err =>
             let* again := readReservations r (kb_ns build) in
             match again with
             | Ok (_, observed) =>
                 match active observed !! key with
                 | Some c =>
                     if samePodAttempt c entry && seqb (ar_PodReceiptUID c) (ar_PodReceiptUID entry) && negb (inFlight c)
                     then Ret (Some None) else Ret (Some (Some err))
                 | None => Ret (Some (Some err))
                 end
             | Err _ => Ret (Some (Some err))
             end)
  end.

Definition completeGenesisPodCreate (build : KovaBuild) (attempt : string) : prog (option error) :=
  retry_loop maxReservationCASAttempts 0 (completeGenesisIteration build attempt)
    (Some (Plain "active ledger is busy completing Pod Create")).

Definition beginIteration (build : KovaBuild) (attempt : string) (retry : nat) : prog (option (result string)) :=
  let key := reservationKey build in
  chk* call CtxDone else (fun e => Ret (Some (Err e))) in
  get* (cm, s) := readReservations r (kb_ns build) else (fun e => Ret (Some (Err e))) in
  chk* ensureLiveAdmissionBuild build else (fun e => Ret (Some (Err e))) in
  match active s !! key with
  | None => Ret (Some (Err (Plain "KovaBuild has no matching active reservation")))
  | Some entry =>
      if negb (seqb (ar_BuildName entry) (kb_name build))
      then Ret (Some (Err (Plain "KovaBuild has no matching active reservation")))
      else if ar_Closing entry then Ret (Some (Err (Wrap "grant is closing" errAdmissionClosed)))
      else
        chk* match r_Genesis r with
             | Some _ =>
                 chk* verifyPinnedGrant build entry else (fun e => Ret (Some e)) in
                 if negb (sempty (ar_PodAttemptNonce entry)) then Ret (Some (admissionRecovery 1)) else Ret None
             | None => Ret None
             end else (fun e => Ret (Some (Err e))) in
        if inFlight entry then Ret (Some (Err (admissionRecovery (Z.of_nat (List.length (ar_InFlight entry))))))
        else
          let entry' := match r_Genesis r with
                        | Some _ => with_attempt entry attempt
                        | None => with_flight entry (ar_InFlight entry ++ [attempt])
                        end in
          casReservations r retry cm (set_active s key entry') Err
            (Ret (Some (Ok attempt)))
            (fun err =>
               let* recorded := podCreateAttemptRecorded r build attempt in
               match recorded with
               | Ok true => Ret (Some (Ok attempt))
               | _ => Ret (Some (Err err))
               end)
  end.

Definition beginPodCreate (build : KovaBuild) : prog (result string) :=
  get* attempt := random_nonce else (fun e => Ret (Err e)) in
  retry_loop maxReservationCASAttempts 0 (beginIteration build attempt)
    (Err (Plain "active admission ledger is busy starting Pod create")).

(** [append(InFlight[:index], InFlight[index+1:]...)] at the first match. *)
Fixpoint remove_first (v : string) (l : list string) : option (list string) :=
  match l with
  | [] => None
  | x :: t => if seqb x v then Some t else match remove_first v t with Some t' => Some (x :: t') | None => None end
  end.

Definition completeIteration (build : KovaBuild) (attempt : string) (retry : nat) : prog (option (option error)) :=
  let key := reservationKey build in
  chk* call CtxDone else (fun e => Ret (Some (Some e))) in
  get* (cm, s) := readReservations r (kb_ns build) else (fun e => Ret (Some (Some e))) in
  match active s !! key with
  | None => Ret (Some (Some (Plain "KovaBuild lost its active reservation while completing Pod create")))
  | Some entry =>
      if negb (seqb (ar_BuildName entry) (kb_name build))
      then Ret (Some (Some (Plain "KovaBuild lost its active reservation while completing Pod create")))
      else match remove_first attempt (ar_InFlight entry) with
      | None => Ret (Some None)
      | Some rest =>
          casReservations r retry cm (set_active s key (with_flight entry rest)) Some
            (Ret (Some None))
            (fun err =>
               let* recorded := podCreateAttemptRecorded r build attempt in
               match recorded with
               | Ok false => Ret (Some None)
               | _ => Ret (Some (Some err))
               end)
      end
  end.

Definition completePodCreate (build : KovaBuild) (attempt : string) : prog (option error) :=
  match r_Genesis r with
  | Some _ => completeGenesisPodCreate build attempt
  | None =>
      retry_loop maxReservationCASAttempts 0 (completeIteration build attempt)
        (Some (Plain "active admission ledger is busy completing Pod create"))
  end.

(** ** Release *)

(** The tail shared by both receipt deletions: UID-preconditioned Delete of the
    exact receipt, then confirmed absence. *)
Definition deleteReceipt (g : Guard) (build : KovaBuild) (expected : ConfigMap) (uid : string)
    (qualifies : ConfigMap -> bool) : prog (option error) :=
  let get := call (GetConfigMap (cm_ns expected) (cm_name expected)) in
  let confirm :=
    let* after := get in
    match after with
    | Ok _ => Ret (Some (Plain "receipt still exists after UID-preconditioned Delete"))
    | Err e =>
        if negb (IsNotFound e) then Ret (Some e)
        else
          chk* checkGrantReceiptNamespace (kb_ns build) else (fun e => Ret (Some e)) in
          Guard_Check g
    end in
  let* observed := get in
  match observed with
  | Err e => if negb (IsNotFound e) then Ret (Some e) else confirm
  | Ok cm =>
      if negb (qualifies cm) then Ret (Some ErrReceiptChanged)
      else
        let* d := call (DeleteConfigMap (cm_ns expected) (cm_name expected) uid) in
        match d with
        | Some e => if negb (IsNotFound e) then Ret (Some e) else confirm
        | None => confirm
        end
  end.

Definition witnessed (w : result EffectWitness) (uid digest : string) : bool :=
  match w with Ok w => seqb (ew_ReceiptUID w) uid && seqb (ew_DataDigest w) digest | Err _ => false end.

Definition deletePinnedGrantReceipt (g : Guard) (build : KovaBuild) (entry : activeReservation) : prog (option error) :=
  if negb (ar_GrantCleanupReady entry) || negb (ar_Closing entry) || sempty (ar_GrantReceiptUID entry)
  then Ret (Some (Plain "grant receipt lacks durable cleanup disposition"))
  else
    chk* checkGrantReceiptNamespace (kb_ns build) else (fun e => Ret (Some e)) in
    get* intent := grantIntent build entry else (fun e => Ret (Some e)) in
    match NewGrantConfigMap intent with
    | Err e => Ret (Some e)
    | Ok expected =>
        deleteReceipt g build expected (ar_GrantReceiptUID entry)
          (fun cm => witnessed (QualifyGrant intent cm) (ar_GrantReceiptUID entry) (ar_GrantReceiptDigest entry))
    end.

Definition deletePinnedPodReceipt (g : Guard) (build : KovaBuild) (entry : activeReservation) : prog (option error) :=
  if negb (ar_PodCleanupReady entry) || negb (ar_Closing entry) || sempty (ar_PodReceiptUID entry)
  then Ret (Some (Plain "Pod receipt lacks durable cleanup disposition"))
  else
    chk* checkGrantReceiptNamespace (kb_ns build) else (fun e => Ret (Some e)) in
    get* intent := podIntent build entry else (fun e => Ret (Some e)) in
    match NewPodCreateConfigMap intent with
    | Err e => Ret (Some e)
    | Ok expected =>
        deleteReceipt g build expected (ar_PodReceiptUID entry)
          (fun cm => witnessed (QualifyPodCreate intent cm) (ar_PodReceiptUID entry) (ar_PodReceiptDigest entry))
    end.

(** [verifyPinnedGrantForCleanup]. *)
Definition verifyPinnedGrantForCleanup (build : KovaBuild) (entry : activeReservation) : prog (option error) :=
  get* w := observeGrantReceipt build entry else (fun e => Ret (Some e)) in
  if negb (seqb (ew_ReceiptUID w) (ar_GrantReceiptUID entry)) || negb (seqb (ew_DataDigest w) (ar_GrantReceiptDigest entry))
  then Ret (Some ErrReceiptChanged) else Ret None.

(** [(ready, err)] of the two receipt releases. *)
Definition releaseGenesisPodReceipt (g : Guard) (build : KovaBuild) (cm : ConfigMap) (s : reservationState)
    (entry : activeReservation) : prog (result bool) :=
  if sempty (ar_PodTemplateDigest entry) then Ret (Ok true)
  else if sempty (ar_PodReceiptUID entry) then
    get* w := observePodReceipt build entry else (fun e => Ret (Err (Wrap "armed Pod receipt outcome is unknown" e))) in
    get* _ := pinPodReceipt build entry w else (fun e => Ret (Err e)) in
    Ret (Ok false)
  else if negb (ar_PodCleanupReady entry) then
    chk* verifyPinnedPodReceipt build entry true else (fun e => Ret (Err e)) in
    chk* writeReservations r cm (set_active s (reservationKey build) (with_pod_cleanup entry)) else (fun e => Ret (Err e)) in
    Ret (Ok false)
  else
    chk* deletePinnedPodReceipt g build entry else (fun e => Ret (Err e)) in
    Ret (Ok true).

Definition releaseGenesisGrantReceipt (g : Guard) (build : KovaBuild) (cm : ConfigMap) (s : reservationState)
    (entry : activeReservation) : prog (result bool) :=
  if sempty (ar_GrantObservedRV entry) then Ret (Ok true)
  else if sempty (ar_GrantReceiptUID entry) then
    get* w := observeGrantReceipt build entry else (fun e => Ret (Err (Wrap "armed grant receipt outcome is unknown" e))) in
    get* _ := pinGrantReceipt build entry w else (fun e => Ret (Err e)) in
    Ret (Ok false)
  else if negb (ar_GrantCleanupReady entry) then
    chk* verifyPinnedGrantForCleanup build entry else (fun e => Ret (Err e)) in
    chk* writeReservations r cm (set_active s (reservationKey build) (with_grant_cleanup entry)) else (fun e => Ret (Err e)) in
    Ret (Ok false)
  else
    chk* deletePinnedGrantReceipt g build entry else (fun e => Ret (Err e)) in
    Ret (Ok true).

(** Waiting at the end of a [releaseReservation] iteration. *)
Definition wait_with {A} (retry : nat) (build : KovaBuild) (onerr : error -> A) : prog (KovaBuild + A) :=
  let* e := waitCAS retry in
  match e with
  | Some err => Ret (inr (onerr err))
  | None => Ret (inl build)
  end.

(** One receipt release inside the loop: ready, or another iteration. *)
Definition receiptStep (retry : nat) (build : KovaBuild) (p : prog (result bool)) (ready : prog (KovaBuild + option error))
    : prog (KovaBuild + option error) :=
  let* x := p in
  match x with
  | Err err => if IsConflict err then wait_with retry build Some else Ret (inr (Some err))
  | Ok false => Ret (inl build)
  | Ok true => ready
  end.

Definition releaseActiveIteration (retry : nat) (build : KovaBuild) : prog (KovaBuild + option error) :=
  chk* call CtxDone else (fun e => Ret (inr (Some e))) in
  get* (cm, s) := readReservations r (kb_ns build) else (fun e => Ret (inr (Some e))) in
  match active s !! reservationKey build with
  | None => Ret (inr None)
  | Some entry =>
      if negb (seqb (ar_BuildName entry) (kb_name build))
      then Ret (inr (Some (Plain "admission reservation has mismatched build name")))
      else if negb (ar_Closing entry)
      then Ret (inr (Some (Plain "admission reservation cannot be released before its cleanup fence")))
      else
        get* build := match r_Genesis r with
                      | None => Ret (Ok build)
                      | Some _ =>
                          get* current := call (GetBuild (kb_ns build) (kb_name build)) else (fun e => Ret (Err e)) in
                          if negb (seqb (kb_uid current) (kb_uid build)) ||
                             (negb (isTerminalPhase (kb_phase current)) && negb (kb_deleting current))
                          then Ret (Err (Plain "Genesis active grant cannot be released before its original CR is terminal or deleting"))
                          else Ret (Ok current)
                      end else (fun e => Ret (inr (Some e))) in
        if inFlight entry then Ret (inr (Some (admissionRecovery (Z.of_nat (List.length (ar_InFlight entry))))))
        else
          get* pod := getOwnedPod build else (fun e => Ret (inr (Some e))) in
          match pod with
          | Some _ => Ret (inr (Some (Plain "runner Pod still exists while releasing active capacity")))
          | None =>
              let drop :=
                let* w := writeReservations r cm (drop_active s (reservationKey build)) in
                match w with
                | None => Ret (inr None)
                | Some err => if IsConflict err then wait_with retry build Some else Ret (inr (Some err))
                end in
              match r_Genesis r with
              | None => drop
              | Some g =>
                  receiptStep retry build (releaseGenesisPodReceipt g build cm s entry)
                    (receiptStep retry build (releaseGenesisGrantReceipt g build cm s entry) drop)
              end
          end
  end.

Definition releaseReservation (build : KovaBuild) : prog (option error) :=
  retry_state maxReservationCASAttempts 0 releaseActiveIteration build
    (fun _ => Some (Plain "active admission ledger is busy releasing")).

(** ** Admission *)

Definition grantEntry (build : KovaBuild) (slots : Z) (nonce : string) (fence : Z) : activeReservation :=
  mkReservation (kb_name build) (requesterKey build) slots nonce fence "" "" "" false "" "" "" "" false false [].

(** The iteration's state is whether this call holds the local permit. *)
Definition admissionIteration (build : KovaBuild) (grantNonce : string) (retry : nat) (permit : bool)
    : prog (bool + (bool * result admissionDecision)) :=
  let done permit x := Ret (inr (permit, x)) in
  let cfg := r_Cfg r in
  let key := reservationKey build in
  let queue := queueStoreForNamespace r (kb_ns build) in
  chk* call CtxDone else (fun e => done permit (Err e)) in
  get* (cm, s) := readReservations r (kb_ns build) else (fun e => done permit (Err e)) in
  chk* ensureLiveAdmissionBuild build else (fun e => done permit (Err e)) in
  let proceed permit :=
    get* builds := call (ListBuilds (kb_ns build) None) else (fun e => done permit (Err e)) in
    chk* ensureNoUnreservedRunner r (kb_ns build) s builds else (fun e => done permit (Err e)) in
    match active s !! key with
    | Some existing =>
        if negb (seqb (ar_BuildName existing) (kb_name build)) || negb (seqb (ar_Requester existing) (requesterKey build))
        then done permit (Err (Plain "admission reservation does not match KovaBuild identity"))
        else if ar_Closing existing then done permit (Err (Wrap "grant is closing" errAdmissionClosed))
        else
          chk* match r_Genesis r with Some _ => verifyPinnedGrant build existing | None => Ret None end
            else (fun e => done permit (Err e)) in
          done permit (Ok (admitted (ar_Slots existing)))
    | None =>
        let decision := decideAdmission build builds (active s) (MaxActiveJobs_ cfg) (MaxActiveJobsPerRequester cfg)
                          (WorkerSlots cfg) (rs_LastGrantedRequesterHash s) in
        if negb (ad_Admitted decision) then done permit (Ok decision)
        else
          let fence := match r_Genesis r with
                       | Some _ => if (rs_Fence s =? 0)%Z then 1%Z else rs_Fence s
                       | None => rs_Fence s
                       end in
          let entry := match r_Genesis r with
                       | Some _ => grantEntry build (ad_Allocation decision) grantNonce fence
                       | None => grantEntry build (ad_Allocation decision) "" 0
                       end in
          let next := with_cursor (set_active (with_fence s fence) key entry) (HashRequester (requesterKey build)) in
          let* w := writeReservations r cm next in
          match w with
          | Some err =>
              if IsConflict err || IsAlreadyExists err then
                let* e := waitCAS retry in
                match e with Some e => done permit (Err e) | None => Ret (inl permit) end
              else done permit (Err err)
          | None =>
              chk* match r_Genesis r with Some g => finishFreshGrant g build entry | None => Ret None end
                else (fun e => done permit (Err e)) in
              done permit (Ok decision)
          end
    end in
  match active s !! key with
  | Some _ => proceed permit
  | None =>
      match saturatedAdmission build (active s) (MaxActiveJobs_ cfg) (MaxActiveJobsPerRequester cfg) (WorkerSlots cfg) with
      | Some blocked =>
          chk* VerifyForBuild queue build else (fun e => done permit (Err e)) in
          done permit (Ok blocked)
      | None =>
          let verified permit :=
            chk* VerifyForBuild queue build else (fun e => done permit (Err e)) in
            proceed permit in
          if bool_decide (is_Some (r_Genesis r)) && r_hasCoordinator r && negb permit then
            get* began := call (TryBegin (kb_ns build)) else (fun e => done permit (Err e)) in
            if began then verified true
            else done permit (Ok (mkDecision false 0 "" true))
          else verified permit
      end
  end.

Definition admission (build : KovaBuild) : prog (result admissionDecision) :=
  get* nonce := match r_Genesis r with Some _ => random_nonce | None => Ret (Ok "") end else (fun e => Ret (Err e)) in
  let* out := retry_state maxReservationCASAttempts 0 (admissionIteration build nonce) false
                (fun permit => (permit, Err (Plain "active admission ledger is busy granting"))) in
  let* _ := if fst out then call EndPermit else Ret tt in
  Ret (snd out).
End grants.
