(* ===== verification/ActiveReads.v ===== *)
(** * The reading half of the active ledger

    Every helper that observes (the queue verification, receipt observations,
    live-build checks, the runner audit) issues read-only requests, whatever the
    server answers.  [ActiveSpec] relies on this to frame them out. *)
From S2P Require Import Prelude GoText Json JsonFacts AdmissionJson Sha256 Types Kube Contract Genesis GenesisFacts QueueReceipt Effects QueueLedger QueueOps ActiveLedger FairQueue ActiveOps GrantOps.

Section queue_reads.
Context `{External} (s : Store).
Hypothesis Hg : forall g, s_Genesis s = Some g -> guard_reads g.

Lemma readObject_reads : emits (@read_only) (readObject s).
Proof. unfold readObject. emits_tac. Qed.
#[local] Hint Resolve readObject_reads : emits.

Lemma Observation_Read_reads {A} o g (p : prog (result A)) : emits (@read_only) p -> emits (@read_only) (Observation_Read o g p).
Proof. intros Hp. unfold Observation_Read. emits_tac. Qed.
#[local] Hint Resolve Observation_Read_reads : emits.

Lemma queue_read_reads ctx o : emits (@read_only) (readWithObservation s ctx o).
Proof.
  unfold readWithObservation. destruct (s_Genesis s) as [g|] eqn:Eg in |- *.
  - pose proof (Hg g Eg). emits_tac.
  - emits_tac.
Qed.
#[local] Hint Resolve queue_read_reads : emits.

Lemma queue_lookup_reads ctx id o : emits (@read_only) (lookupWithObservation s ctx id o).
Proof. unfold lookupWithObservation. emits_tac. Qed.

Lemma Lookup_reads id : emits (@read_only) (Lookup s id).
Proof. apply queue_lookup_reads. Qed.

Lemma LookupObserved_reads id o : emits (@read_only) (LookupObserved s id o).
Proof. unfold LookupObserved. destruct o; [apply queue_lookup_reads|done]. Qed.
#[local] Hint Resolve queue_lookup_reads Lookup_reads LookupObserved_reads : emits.

Lemma receipt_namespace_reads ctx o : emits (@read_only) (checkReceiptNamespaceWithObservation s ctx o).
Proof. unfold checkReceiptNamespaceWithObservation. emits_tac. Qed.
#[local] Hint Resolve receipt_namespace_reads : emits.

Lemma CheckReceiptNamespace_reads : emits (@read_only) (CheckReceiptNamespace s).
Proof. apply receipt_namespace_reads. Qed.

Lemma CheckReceiptNamespaceObserved_reads o : emits (@read_only) (CheckReceiptNamespaceObserved s o).
Proof. unfold CheckReceiptNamespaceObserved. emits_tac. Qed.

Lemma pinned_receipt_reads ctx b e o : emits (@read_only) (observePinnedReceiptWithObservation s ctx b e o).
Proof.
  unfold observePinnedReceiptWithObservation. destruct (s_Genesis s) as [g|] eqn:Eg in |- *.
  - pose proof (Hg g Eg). emits_tac.
  - emits_tac.
Qed.
#[local] Hint Resolve pinned_receipt_reads : emits.

Lemma verify_reads ctx b o : emits (@read_only) (verifyForBuildWithObservation s ctx b o).
Proof. unfold verifyForBuildWithObservation, CheckReadyObserved, CheckReady, read. emits_tac. Qed.
#[local] Hint Resolve verify_reads : emits.

Lemma VerifyForBuildSnapshot_reads b : emits (@read_only) (VerifyForBuildSnapshot s b).
Proof. apply verify_reads. Qed.

Lemma VerifyForBuild_reads b : emits (@read_only) (VerifyForBuild s b).
Proof. unfold VerifyForBuild, VerifyForBuildSnapshot. emits_tac. Qed.

Lemma VerifyForBuildObserved_reads b o : emits (@read_only) (VerifyForBuildObserved s b o).
Proof. unfold VerifyForBuildObserved. emits_tac. Qed.
End queue_reads.
#[export] Hint Resolve Observation_Read_reads queue_read_reads Lookup_reads LookupObserved_reads CheckReceiptNamespace_reads
  CheckReceiptNamespaceObserved_reads VerifyForBuildSnapshot_reads VerifyForBuild_reads VerifyForBuildObserved_reads : emits.

Section active_reads.
Context `{External} (r : Reconciler).
Hypothesis Hg : forall g, r_Genesis r = Some g -> guard_reads g.

Lemma store_reads ns g : s_Genesis (queueStoreForNamespace r ns) = Some g -> guard_reads g.
Proof. apply Hg. Qed.
#[local] Hint Resolve store_reads : emits.

Lemma ensureLive_reads b : emits (@read_only) (ensureLiveAdmissionBuild b).
Proof. unfold ensureLiveAdmissionBuild. emits_tac. Qed.

Lemma readActiveObject_reads ns : emits (@read_only) (readActiveObject r ns).
Proof. unfold readActiveObject. emits_tac. Qed.
#[local] Hint Resolve ensureLive_reads readActiveObject_reads : emits.

Lemma active_read_reads ctx ns o : emits (@read_only) (readReservationsWithObservation r ctx ns o).
Proof.
  unfold readReservationsWithObservation. destruct (r_Genesis r) as [g|] eqn:Eg in |- *.
  - pose proof (Hg g Eg). emits_tac.
  - emits_tac.
Qed.

Lemma readReservations_reads ns : emits (@read_only) (readReservations r ns).
Proof. apply active_read_reads. Qed.
#[local] Hint Resolve active_read_reads readReservations_reads : emits.

Lemma observe_with_reads {A} g (p : Observation -> prog (result A)) :
  guard_reads g -> (forall o, emits (@read_only) (p o)) -> emits (@read_only) (observe_with g p).
Proof. intros Hgr Hp. unfold observe_with. emits_tac. Qed.

Lemma Observe_reads g (p : Observation -> prog (option error)) :
  guard_reads g -> (forall o, emits (@read_only) (p o)) -> emits (@read_only) (Observe g p).
Proof. intros Hgr Hp. unfold Observe. emits_tac. Qed.

Lemma grant_namespace_reads ctx ns o : emits (@read_only) (checkGrantReceiptNamespaceWithObservation r ctx ns o).
Proof. unfold checkGrantReceiptNamespaceWithObservation. emits_tac. Qed.
#[local] Hint Resolve grant_namespace_reads : emits.

Lemma grantIntent_reads ctx b e o : emits (@read_only) (grantIntentWithObservation r ctx b e o).
Proof.
  unfold grantIntentWithObservation. destruct (r_Genesis r) as [g|] eqn:Eg in |- *; [|done].
  pose proof (Hg g Eg). emits_tac.
Qed.
#[local] Hint Resolve grantIntent_reads : emits.

Lemma ObserveGrant_reads i : emits (@read_only) (ObserveGrant i).
Proof. unfold ObserveGrant, observeEffect. emits_tac. Qed.
Lemma ObservePodCreate_reads i : emits (@read_only) (ObservePodCreate i).
Proof. unfold ObservePodCreate, observeEffect. emits_tac. Qed.
#[local] Hint Resolve ObserveGrant_reads ObservePodCreate_reads : emits.

Lemma observeReceiptWith_reads {I} g b o (i : prog (result I)) ob :
  emits (@read_only) i -> (forall x, emits (@read_only) (ob x)) -> emits (@read_only) (observeReceiptWith r g b o i ob).
Proof. intros Hi Hob. unfold observeReceiptWith. emits_tac. Qed.

Lemma observe_grant_reads g b e o : emits (@read_only) (observeGrantReceiptWithObservation r g b e o).
Proof. apply observeReceiptWith_reads; [apply grantIntent_reads|apply ObserveGrant_reads]. Qed.
#[local] Hint Resolve observe_grant_reads : emits.

Lemma observeGrantReceipt_reads b e : emits (@read_only) (observeGrantReceipt r b e).
Proof.
  unfold observeGrantReceipt. destruct (r_Genesis r) as [g|] eqn:Eg in |- *; [|done].
  apply observe_with_reads; [by apply Hg|]. apply observe_grant_reads.
Qed.

Lemma verify_grant_reads g b e o : emits (@read_only) (verifyPinnedGrantWithObservation r g b e o).
Proof. unfold verifyPinnedGrantWithObservation. emits_tac. Qed.

Lemma verifyPinnedGrant_reads b e : emits (@read_only) (verifyPinnedGrant r b e).
Proof.
  unfold verifyPinnedGrant. destruct (r_Genesis r) as [g|] eqn:Eg in |- *; [|done].
  apply Observe_reads; [by apply Hg|]. apply verify_grant_reads.
Qed.
#[local] Hint Resolve observeGrantReceipt_reads verify_grant_reads verifyPinnedGrant_reads : emits.

Lemma podIntent_reads ctx b e o : emits (@read_only) (podIntentWithObservation r ctx b e o).
Proof.
  unfold podIntentWithObservation. destruct (r_Genesis r) as [g|] eqn:Eg in |- *; [|done]. emits_tac.
Qed.
#[local] Hint Resolve podIntent_reads : emits.

Lemma observe_pod_reads g b e o : emits (@read_only) (observePodReceiptWithObservation r g b e o).
Proof. apply observeReceiptWith_reads; [apply podIntent_reads|apply ObservePodCreate_reads]. Qed.
#[local] Hint Resolve observe_pod_reads : emits.

Lemma observePodReceipt_reads b e : emits (@read_only) (observePodReceipt r b e).
Proof.
  unfold observePodReceipt. destruct (r_Genesis r) as [g|] eqn:Eg in |- *; [|done].
  apply observe_with_reads; [by apply Hg|]. apply observe_pod_reads.
Qed.

Lemma verify_pod_reads g b e c o : emits (@read_only) (verifyPinnedPodReceiptWithObservation r g b e c o).
Proof. unfold verifyPinnedPodReceiptWithObservation. emits_tac. Qed.

Lemma verifyPinnedPodReceipt_reads b e c : emits (@read_only) (verifyPinnedPodReceipt r b e c).
Proof.
  unfold verifyPinnedPodReceipt. destruct (r_Genesis r) as [g|] eqn:Eg in |- *; [|done].
  apply Observe_reads; [by apply Hg|]. intros o. apply verify_pod_reads.
Qed.

Lemma verifyForCleanup_reads b e : emits (@read_only) (verifyPinnedGrantForCleanup r b e).
Proof. unfold verifyPinnedGrantForCleanup. emits_tac. Qed.

Lemma getOwnedPod_reads b : emits (@read_only) (getOwnedPod b).
Proof. unfold getOwnedPod. emits_tac. Qed.

Lemma attemptRecorded_reads b a : emits (@read_only) (podCreateAttemptRecorded r b a).
Proof. unfold podCreateAttemptRecorded. emits_tac. Qed.

Lemma reservationCovered_reads ns s b : emits (@read_only) (reservationCovered r ns s b).
Proof. unfold reservationCovered. emits_tac. Qed.
#[local] Hint Resolve reservationCovered_reads : emits.

Lemma ensureNoUnreservedRunner_reads ns s builds : emits (@read_only) (ensureNoUnreservedRunner r ns s builds).
Proof.
  unfold ensureNoUnreservedRunner. apply emits_bind.
  { induction builds as [|b l IH]; [done|]. cbn [coverBuilds]. emits_tac. }
  intros [e|]; [done|]. apply emits_bind; [emits_tac|]. intros [pods|e]; [|done].
  induction pods as [|p l IH]; [done|]. cbn [coverPods]. emits_tac.
Qed.

Lemma freshIssue_reads b e : emits (@read_only) (freshIssueRecorded r b e).
Proof. unfold freshIssueRecorded. emits_tac. Qed.

End active_reads.
#[export] Hint Resolve ensureLive_reads active_read_reads readReservations_reads observe_with_reads Observe_reads
  grant_namespace_reads grantIntent_reads observe_grant_reads observeGrantReceipt_reads verify_grant_reads
  verifyPinnedGrant_reads podIntent_reads observe_pod_reads observePodReceipt_reads verify_pod_reads
  verifyPinnedPodReceipt_reads verifyForCleanup_reads getOwnedPod_reads attemptRecorded_reads
  ensureNoUnreservedRunner_reads freshIssue_reads : emits.

Lemma Preflight_reads `{External} r ns : emits (@read_only) (PreflightAdmissionLedger r ns).
Proof.
  assert (Hl : emits (@read_only) (readReservations (legacy r) ns)) by (by apply readReservations_reads).
  unfold PreflightAdmissionLedger. emits_tac.
Qed.
#[export] Hint Resolve Preflight_reads : emits.
