(* ===== verification/ActiveSpec.v ===== *)
(** * What the active ledger promises, and that the reconciler keeps it

    [active_step] is the abstract specification of the capacity ledger: one
    grant, one edit of one grant's protocol state, one cleanup fence or one
    removal at a time.  Every write of every reconciler operation is one such
    step of the state committed at the moment of the write. *)
From S2P Require Import Prelude GoText Json JsonFacts AdmissionJson Sha256 Types JsonSize Kube Contract Genesis GenesisFacts QueueReceipt Effects QueueLedger QueueCodec QueueOps ActiveLedger ActiveCodec FairQueue FairFacts ActiveOps GrantOps ActiveReads.

(** ** The abstract ledger *)

Inductive akind :=
| AInit | AGrant | AArm | APin | ABegin | ATemplate | APodPin | AIssue | AComplete | AFence | APodClean | AGrantClean | ADrop.

#[export] Instance akind_eq_dec : EqDecision akind.
Proof. solve_decision. Defined.

(** Edits of one grant's protocol state, each with its guard. *)
Inductive grant_edit (e : activeReservation) : akind -> activeReservation -> Prop :=
| edit_arm rv :
    ar_Closing e = false -> ar_GrantObservedRV e = "" -> ar_GrantReceiptUID e = "" ->
    grant_edit e AArm (with_observed_rv e rv)
| edit_pin uid digest :
    ar_GrantReceiptUID e = "" -> ar_GrantCleanupReady e = false -> validGrantReceiptUID uid = true ->
    grant_edit e APin (with_grant_link e uid digest)
| edit_begin_legacy a :
    ar_Closing e = false -> ar_InFlight e = [] -> grant_edit e ABegin (with_flight e [a])
| edit_begin a :
    ar_Closing e = false -> ar_InFlight e = [] -> ar_PodAttemptNonce e = "" -> grant_edit e ABegin (with_attempt e a)
| edit_template digest :
    ar_Closing e = false -> ar_InFlight e = [] -> ar_PodTemplateDigest e = "" -> ar_PodReceiptUID e = "" ->
    grant_edit e ATemplate (with_template e digest)
| edit_pod_pin uid digest :
    ar_PodReceiptUID e = "" -> ar_PodCleanupReady e = false -> validGrantReceiptUID uid = true ->
    grant_edit e APodPin (with_pod_link e uid digest)
| edit_issue :
    ar_Closing e = false -> ar_PodCleanupReady e = false -> ar_InFlight e = [] ->
    grant_edit e AIssue (with_flight e [ar_PodAttemptNonce e])
| edit_complete : ar_InFlight e <> [] -> grant_edit e AComplete (with_flight e [])
| edit_pod_clean :
    ar_Closing e = true -> ar_InFlight e = [] -> ar_PodReceiptUID e <> "" -> grant_edit e APodClean (with_pod_cleanup e)
| edit_grant_clean :
    ar_Closing e = true -> ar_InFlight e = [] -> ar_GrantReceiptUID e <> "" -> grant_edit e AGrantClean (with_grant_cleanup e).

(** Nothing of the grant is armed or in flight. *)
Definition fresh_grant (e : activeReservation) : Prop :=
  ar_GrantObservedRV e = "" /\ ar_GrantReceiptUID e = "" /\ ar_PodAttemptNonce e = "" /\ ar_PodTemplateDigest e = "" /\
  ar_PodReceiptUID e = "" /\ ar_Closing e = false /\ ar_InFlight e = [] /\ ar_GrantCleanupReady e = false /\
  ar_PodCleanupReady e = false.

(** The receipts of a Genesis grant have a durable cleanup disposition. *)
Definition receipts_settled (e : activeReservation) : Prop :=
  (ar_PodTemplateDigest e = "" \/ ar_PodCleanupReady e = true) /\
  (ar_GrantObservedRV e = "" \/ ar_GrantCleanupReady e = true).

Inductive active_step (st : reservationState) : akind -> reservationState -> Prop :=
| astep_edit k key e e' :
    active st !! key = Some e -> grant_edit e k e' -> active_step st k (set_active st key e')
| astep_fence key :
    active st !! key = None -> active_step st AFence (with_fence st (fence_next (rs_Fence st)))
| astep_close key e :
    active st !! key = Some e ->
    active_step st AFence (set_active (with_fence st (fence_next (rs_Fence st))) key (closing e))
| astep_grant key e f h :
    active st !! key = None -> fresh_grant e -> (1 <= ar_Slots e)%Z ->
    (Z.of_nat (size (active st)) < rs_MaxJobs st)%Z ->
    (slotSum (map_to_list (active st)) + ar_Slots e <= rs_WorkerSlots st)%Z ->
    active_step st AGrant (with_cursor (set_active (with_fence st f) key e) h)
| astep_drop key e :
    active st !! key = Some e -> ar_Closing e = true -> ar_InFlight e = [] ->
    (rs_Version st = 2%Z -> receipts_settled e) ->
    active_step st ADrop (drop_active st key).

Lemma active_set st key e : active (set_active st key e) = <[key := e]> (active st).
Proof. done. Qed.
Lemma active_drop st key : active (drop_active st key) = delete key (active st).
Proof. done. Qed.
Lemma active_with_fence st f : active (with_fence st f) = active st.
Proof. done. Qed.
Lemma active_with_cursor st h : active (with_cursor st h) = active st.
Proof. done. Qed.

(** No step changes the configured limits or the protocol version. *)
Definition same_limits (st st' : reservationState) : Prop :=
  rs_Version st' = rs_Version st /\ rs_MaxJobs st' = rs_MaxJobs st /\
  rs_MaxPerRequester st' = rs_MaxPerRequester st /\ rs_WorkerSlots st' = rs_WorkerSlots st.

Lemma active_step_limits st k st' : active_step st k st' -> same_limits st st'.
Proof. by destruct 1. Qed.

(** What a step may do to a grant that stays: its identity never changes, every
    link is written once, the flags only rise and a closing grant never gets a
    new Pod attempt in flight. *)
Record grant_advances (e e' : activeReservation) : Prop := {
  ga_identity : sameGrant e' e = true;
  ga_rv : ar_GrantObservedRV e <> "" -> ar_GrantObservedRV e' = ar_GrantObservedRV e;
  ga_grant : ar_GrantReceiptUID e <> "" ->
    ar_GrantReceiptUID e' = ar_GrantReceiptUID e /\ ar_GrantReceiptDigest e' = ar_GrantReceiptDigest e;
  ga_attempt : ar_PodAttemptNonce e <> "" -> ar_PodAttemptNonce e' = ar_PodAttemptNonce e;
  ga_template : ar_PodTemplateDigest e <> "" -> ar_PodTemplateDigest e' = ar_PodTemplateDigest e;
  ga_pod : ar_PodReceiptUID e <> "" ->
    ar_PodReceiptUID e' = ar_PodReceiptUID e /\ ar_PodReceiptDigest e' = ar_PodReceiptDigest e;
  ga_flags : (ar_GrantCleanupReady e = true -> ar_GrantCleanupReady e' = true) /\
    (ar_PodCleanupReady e = true -> ar_PodCleanupReady e' = true);
  ga_closing : ar_Closing e = true ->
    ar_Closing e' = true /\ (ar_InFlight e' = ar_InFlight e \/ ar_InFlight e' = []) /\
    ar_PodAttemptNonce e' = ar_PodAttemptNonce e }.

Lemma sameGrant_refl e : sameGrant e e = true.
Proof. unfold sameGrant, seqb. by rewrite !bool_decide_eq_true_2, !Z.eqb_refl. Qed.

Lemma grant_advances_refl e : grant_advances e e.
Proof. split; [exact (sameGrant_refl e)|..]; naive_solver congruence. Qed.

Lemma edit_advances e k e' : grant_edit e k e' -> grant_advances e e'.
Proof.
  destruct 1; (split; [exact (sameGrant_refl e)|..]); simpl; naive_solver congruence.
Qed.

Lemma closing_advances e : grant_advances e (closing e).
Proof. split; [exact (sameGrant_refl e)|..]; simpl; naive_solver congruence. Qed.

Lemma active_step_advances st k st' key e e' :
  active_step st k st' -> active st !! key = Some e -> active st' !! key = Some e' -> grant_advances e e'.
Proof.
  assert (Hput : forall k0 e0 e0', active st !! k0 = Some e0 -> grant_advances e0 e0' ->
    active st !! key = Some e -> <[k0 := e0']> (active st) !! key = Some e' -> grant_advances e e').
  { intros k0 e0 e0' Hl0 Ha He. rewrite lookup_insert_Some. intros [[-> ->]|[_ He']].
    - by simplify_eq.
    - simplify_eq. apply grant_advances_refl. }
  intros Hs. destruct Hs as [k k0 e0 e0' Hl0 Hed|k0 Hn|k0 e0 Hl0|k0 e0 f h Hn|k0 e0 Hl0];
    rewrite ?active_with_cursor, ?active_set, ?active_drop, ?active_with_fence; intros He.
  - eapply Hput; [done| |done]. by eapply edit_advances.
  - intros He'. simplify_eq. apply grant_advances_refl.
  - eapply Hput; [done|apply closing_advances|done].
  - rewrite lookup_insert_ne by congruence. intros He'. simplify_eq. apply grant_advances_refl.
  - rewrite lookup_delete_Some. intros [_ He']. simplify_eq. apply grant_advances_refl.
Qed.

Lemma active_step_keeps st k st' key e :
  active_step st k st' -> k <> ADrop -> active st !! key = Some e -> is_Some (active st' !! key).
Proof.
  intros Hs Hk He. destruct Hs as [k k0 e0 e0' Hl0 Hed|k0 Hn|k0 e0 Hl0|k0 e0 f h Hn|k0 e0 Hl0]; try done;
    rewrite ?active_with_cursor, ?active_set, ?active_with_fence; try (by eexists);
    apply lookup_insert_is_Some; destruct (decide (k0 = key)); eauto.
Qed.

(** ** Counting *)

Lemma usedSlots_sum m : usedSlots m = slotSum (map_to_list m).
Proof.
  unfold usedSlots. rewrite map_fold_foldr. induction (map_to_list m) as [|[k e] l IH]; simpl; [done|].
  rewrite <- IH. simpl. lia.
Qed.

Lemma countRequester_grants m q : countRequester m q = requesterGrants q (map_to_list m).
Proof.
  unfold countRequester. rewrite map_fold_foldr. induction (map_to_list m) as [|[k e] l IH]; simpl; [done|].
  rewrite <- IH. simpl. destruct (seqb (ar_Requester e) q); lia.
Qed.

Section spec.
Context `{External}.

Lemma qualifyActive_inv r cm x :
  qualifyActive r cm = Ok x ->
  exists st, x = (cm, st) /\ decodeReservations cm = Ok st /\ parseReservations (mget (cm_data cm) reservationDataKey) = Ok st /\
    reservationsOK st /\ rs_MaxJobs st = MaxActiveJobs_ (r_Cfg r) /\
    rs_MaxPerRequester st = MaxActiveJobsPerRequester (r_Cfg r) /\ rs_WorkerSlots st = WorkerSlots (r_Cfg r) /\
    rs_Version st = (if decide (r_Genesis r = None) then 1 else 2)%Z /\ ValidateReservationCapacity (r_Cfg r) = None.
Proof.
  unfold qualifyActive. destruct (decodeReservations cm) as [st|e] eqn:Ed; [|done].
  destruct (validateReservationLimits (r_Cfg r) st) eqn:El; [done|].
  destruct (_ || _) eqn:Ev; [done|]. intros [= <-]. exists st.
  assert (Hv : rs_Version st = (if decide (r_Genesis r = None) then 1 else 2)%Z).
  { clear -Ev. destruct (r_Genesis r) as [g|]; simpl in Ev; bool_simpl; case_decide; try done; lia. }
  unfold decodeReservations in Ed. destruct (_ || _); [done|].
  destruct (parseReservations _) as [st'|] eqn:Ep; [|done].
  destruct (validateReservationState st') eqn:Es; [done|]. injection Ed as ->. apply validateReservationState_ok in Es.
  unfold validateReservationLimits in El. destruct (ValidateReservationCapacity (r_Cfg r)) eqn:Ec; [done|].
  destruct (_ || _) eqn:El'; [done|]. clear Ev. bool_simpl. split_and!; try done; lia.
Qed.

Lemma parse_uint64 raw st : parseReservations raw = Ok st -> uint64Reservations st.
Proof.
  unfold parseReservations, Decode. destruct (checkDocument _ _) as [v|]; [|done].
  destruct (reservations_of_json v) as [st'|] eqn:Es; [|done]. intros [= ->].
  unfold reservations_of_json in Es. destruct v as [| | | | |l]; try done.
  destruct (jint64 (jfield l "version")); [|done]. destruct (juint64 (jfield l "fence")) as [f|] eqn:Ef; [|done].
  destruct (jint64 (jfield l "maxJobs")); [|done]. destruct (jint64 (jfield l "maxPerRequester")); [|done].
  destruct (jint64 (jfield l "workerSlots")); [|done]. destruct (jstring (jfield l "lastGrantedRequesterHash")); [|done].
  destruct (active_of_json (jfield l "active")) as [o|] eqn:Ei; [|done]. simplify_eq.
  split; [simpl; by apply juint64_range in Ef|].
  intros k e. unfold active. simpl. unfold active_of_json in Ei.
  destruct (jfield l "active") as [[| | | | |l']|]; simplify_eq; try done.
  destruct (reservation_entries_of_json l') as [t|] eqn:Et; [|done]. simplify_eq. simpl. intros He.
  apply elem_of_list_to_map_2 in He. revert t Et He.
  induction l' as [|[k' v] l' IH]; intros t Et He; simpl in Et; [by simplify_eq; apply elem_of_nil in He|].
  destruct (reservation_of_json v) as [e'|] eqn:Ev; [|done].
  destruct (reservation_entries_of_json l') as [t'|] eqn:El; [|done]. simplify_eq.
  apply elem_of_cons in He as [[= -> ->]|He]; [|by eapply IH].
  unfold reservation_of_json in Ev. destruct v as [| | | | |lv]; try done.
  cbv zeta in Ev. repeat (case_match; [|done]). simplify_eq. simpl.
  match goal with Hj : juint64 _ = Some ?z |- (0 <= ?z < _)%Z => by apply juint64_range in Hj end.
Qed.
End spec.

(** ** The guarantee of one request *)

Section guarantee.
Context `{External} `{ApiServer}.
Context (r : Reconciler) (ns : string).
Context (K : akind -> Prop).

Definition akey : okey := (ns, reservationConfigMap).

(** [c] is a committed ledger that the reconciler reads as [st]. *)
Definition areads (c : ConfigMap) (st : reservationState) : Prop := qualifyActive r c = Ok (c, st).

Inductive active_effect : option ConfigMap -> option ConfigMap -> Prop :=
| aeffect_none o : active_effect o o
| aeffect_init c : K AInit -> r_Genesis r = None -> areads c (freshReservations (r_Cfg r)) -> active_effect None (Some c)
| aeffect_step k c c' st st' :
    K k -> areads c st -> areads c' st' -> active_step st k st' -> active_effect (Some c) (Some c').

Definition activeG (w w' : world) : Prop :=
  active_effect (cm_now w akey) (cm_now w' akey) /\
  forall rv c, cm_version w' akey rv = Some c -> cm_version w akey rv = Some c \/ cm_now w' akey = Some c.

Definition reconciler_ok : Prop :=
  match r_Genesis r with
  | Some g => Bootstrapper_validate (gd_Bootstrap g) = None /\ guard_reads g
  | None => True
  end.

Lemma activeG_same X (e : api X) w x w' : step X e w x w' -> cm_now w' akey = cm_now w akey -> activeG w w'.
Proof. intros Hs He. split; [rewrite He; constructor|]. intros rv c. by eapply version_new. Qed.

Definition acommitted (w : world) (st : reservationState) : Prop :=
  exists rv c, cm_version w akey rv = Some c /\ areads c st.

Definition aread_fact (w : world) (cm : ConfigMap) (st : reservationState) : Prop :=
  cm_version w akey (cm_rv cm) = Some cm /\ cm_key cm = akey /\ areads cm st.

(** The grant at [key] in some committed ledger. *)
Definition aseen (w : world) (key : string) (e : activeReservation) : Prop :=
  exists st, acommitted w st /\ active st !! key = Some e.
Definition agone (w : world) (key : string) : Prop :=
  exists st, acommitted w st /\ active st !! key = None.

Lemma aread_fact_stable w w' cm st : rely w w' -> aread_fact w cm st -> aread_fact w' cm st.
Proof. intros Hr (Hv & Hk & Hq). split_and!; try done. by eapply version_stable. Qed.

Lemma acommitted_stable w w' st : rely w w' -> acommitted w st -> acommitted w' st.
Proof. intros Hr (rv & c & Hv & Hq). exists rv, c. split; [by eapply version_stable|done]. Qed.

Lemma aseen_stable w w' key e : rely w w' -> aseen w key e -> aseen w' key e.
Proof. intros Hr (st & Hc & Hl). exists st. split; [by eapply acommitted_stable|done]. Qed.

Lemma agone_stable w w' key : rely w w' -> agone w key -> agone w' key.
Proof. intros Hr (st & Hc & Hl). exists st. split; [by eapply acommitted_stable|done]. Qed.

Lemma aread_committed w cm st : aread_fact w cm st -> acommitted w st.
Proof. intros (Hv & _ & Hq). by exists (cm_rv cm), cm. Qed.

Lemma aread_seen w cm st key e : aread_fact w cm st -> active st !! key = Some e -> aseen w key e.
Proof. intros Hr Hl. exists st. split; [by eapply aread_committed|done]. Qed.

Lemma areads_ok c st : areads c st -> uint64Reservations st /\ reservationsOK st.
Proof.
  intros (st' & [= <-] & _ & Hp & Hok & _)%qualifyActive_inv. split; [by eapply parse_uint64|done].
Qed.

Lemma areads_functional c st st' : areads c st -> areads c st' -> st = st'.
Proof. unfold areads. congruence. Qed.

(** An encoded next state is read back as itself. *)
Lemma encoded_areads c next data0 :
  encodeReservations next = Ok data0 -> uint64Reservations next ->
  rs_MaxJobs next = MaxActiveJobs_ (r_Cfg r) -> rs_MaxPerRequester next = MaxActiveJobsPerRequester (r_Cfg r) ->
  rs_WorkerSlots next = WorkerSlots (r_Cfg r) -> rs_Version next = (if decide (r_Genesis r = None) then 1 else 2)%Z ->
  cm_data c = {[reservationDataKey := data0]} -> size (cm_binary c) = 0 -> areads c next.
Proof.
  intros He Hi Hj Hp Hw Hv Hd Hb.
  assert (Hok : reservationsOK next).
  { apply validateReservationState_ok. unfold encodeReservations in He. by destruct (validateReservationState next). }
  rewrite encodeReservations_fits in He by done. injection He as <-.
  assert (Hm : mget (cm_data c) reservationDataKey = json_print (json_of_reservations next)).
  { rewrite Hd. unfold mget. by rewrite lookup_singleton_eq. }
  pose proof (ro_capacity next Hok) as Hc.
  assert (Hdec : decodeReservations c = Ok next).
  { unfold decodeReservations. rewrite Hm, parseReservations_print by done.
    rewrite (proj2 (validateReservationState_ok next) Hok), Hd, map_size_singleton, !bool_decide_eq_true_2 by done.
    pose proof (reservations_len next Hok Hi). apply capacity_spec in Hc.
    assert (0 < slen (json_print (json_of_reservations next)))%Z
      by (unfold json_of_reservations; simpl; unfold slen; rewrite append_cons; simpl; lia).
    destruct (_ || _) eqn:Eb; [|done]. exfalso. unfold maxReservationLedgerBytes, maxReservationHeaderBytes, maxReservationEntryBytes in *.
    repeat (apply orb_true_iff in Eb as [Eb|Eb]); bool_simpl; try done; lia. }
  unfold areads, qualifyActive. rewrite Hdec. unfold validateReservationLimits, ValidateReservationCapacity.
  rewrite <- Hj, <- Hp, <- Hw, Hc, !Z.eqb_refl, Hv. by destruct (r_Genesis r).
Qed.

Lemma wp_aread_only {A} (p : prog A) w : emits (@read_only) p -> wp activeG p (fun _ _ => True) w.
Proof. apply wp_reads with (k := akey). apply activeG_same. Qed.

Lemma wp_aoff {A} (p : prog A) w : emits (@off_key akey) p -> wp activeG p (fun _ _ => True) w.
Proof. apply wp_off. apply activeG_same. Qed.

Hypothesis Hrok : reconciler_ok.

Lemma reconciler_guard g : r_Genesis r = Some g -> Bootstrapper_validate (gd_Bootstrap g) = None /\ guard_reads g.
Proof. unfold reconciler_ok in Hrok. intros Eg. by rewrite Eg in Hrok. Qed.

Lemma reconciler_reads g : r_Genesis r = Some g -> guard_reads g.
Proof. intros Eg. by apply reconciler_guard. Qed.
#[local] Hint Resolve reconciler_reads : emits.

Definition aread_post (w : world) (x : result (ConfigMap * reservationState)) : Prop :=
  match x with Ok (cm, st) => aread_fact w cm st | Err _ => True end.

Lemma readActiveObject_wp w :
  wp activeG (readActiveObject r ns)
    (fun w' x => match x with Ok cm => cm_version w' akey (cm_rv cm) = Some cm /\ cm_key cm = akey | Err _ => True end) w.
Proof.
  unfold readActiveObject. simpl. intros w1 _ x w2 Hst. split.
  { eapply activeG_same; [done|]. by eapply frame. }
  destruct x as [cm|e]; [|done]. pose proof (get_version _ _ _ _ _ Hst). pose proof (get_key _ _ _ _ _ Hst).
  destruct (r_Genesis r) as [g|]; [destruct (CheckLedger g cm Active)|]; done.
Qed.

Lemma readReservations_obs_wp ctx o w : wp activeG (readReservationsWithObservation r ctx ns o) aread_post w.
Proof.
  unfold readReservationsWithObservation. eapply wp_seq.
  { apply wp_aread_only. destruct (r_Genesis r) as [g|] eqn:Eg in |- *; [|by destruct o].
    pose proof (reconciler_reads g Eg). emits_tac. }
  intros w1 [e|] _ _; [done|]. eapply wp_seq.
  { instantiate (1 := fun w' x => match x with Ok cm => cm_version w' akey (cm_rv cm) = Some cm /\ cm_key cm = akey | Err _ => True end).
    destruct o as [ob|]; [|apply readActiveObject_wp].
    destruct (r_Genesis r) as [g|] eqn:Eg in |- *; [|apply readActiveObject_wp].
    unfold Observation_Read. destruct (Assert ob g); [done|].
    eapply wp_seq; [apply wp_aread_only; emits_tac|]. intros w2 [e|] _ _; [done|]. apply readActiveObject_wp. }
  intros w2 [cm|e] _ HQ; [|done]. simpl. unfold aread_post.
  destruct (qualifyActive r cm) as [[cm' st]|] eqn:Eq; [|done].
  pose proof Eq as (st' & [= -> <-] & _)%qualifyActive_inv. by destruct HQ.
Qed.

Lemma readReservations_wp w : wp activeG (readReservations r ns) aread_post w.
Proof. apply readReservations_obs_wp. Qed.

(** The compare-and-swap contract of [writeReservations]. *)
Lemma writeReservations_wp k cm st next w :
  K k -> aread_fact w cm st -> uint64Reservations next -> active_step st k next ->
  wp activeG (writeReservations r cm next) (fun w' x => x = None -> acommitted w' next) w.
Proof.
  intros HK (Hv & Hk & Hq) Hi Hstep. unfold writeReservations.
  pose proof Hq as (st' & [= <-] & _ & _ & _ & Lj & Lp & Lw & Lv & _)%qualifyActive_inv.
  destruct (active_step_limits _ _ _ Hstep) as (Ev & Ej & Ep & Ew).
  destruct (_ || _) eqn:Eb; [done|]. bool_simpl.
  destruct (encodeReservations next) as [data0|] eqn:Ee; [|done].
  assert (Hnew : forall c, holds_data reservationDataKey data0 c -> areads c next).
  { intros c [Hd Hb]. eapply encoded_areads; eauto; congruence. }
  assert (Hcommit : forall w1 w2 new X (e : api X) x, step X e w1 x w2 -> cm_now w1 akey = Some cm ->
            cm_now w2 akey = Some new -> holds_data reservationDataKey data0 new -> activeG w1 w2).
  { intros w1 w2 new X e x Hst Hn1 Hn2 Hh. split; [|intros rv c; by eapply version_new].
    rewrite Hn1, Hn2. eapply aeffect_step; eauto. }
  destruct (r_Genesis r) as [g|] eqn:Egen in |- *.
  - destruct (reconciler_guard g Egen) as [Hb Hg].
    eapply wp_mono; [apply (PatchLedgerData_wp activeG akey)|]; eauto using activeG_same.
    intros w' x _ HQ ->. destruct (HQ eq_refl) as (c & Hc & Hh). exists (cm_rv c), c. eauto.
  - simpl. intros w1 Hr1 x w2 Hst.
    assert (Eck : cm_key (with_data cm {[reservationDataKey := data0]}) = akey) by exact Hk.
    assert (Hdata : forall new, cm_data new = cm_data (with_data cm {[reservationDataKey := data0]}) ->
              cm_binary new = cm_binary (with_data cm {[reservationDataKey := data0]}) -> holds_data reservationDataKey data0 new).
    { intros new Hd Hb. split; [done|]. by rewrite Hb. }
    split.
    + destruct (update_effect _ _ _ _ Hst) as [Hsame|(old & new & Ho & Hrv & Hn & Hd & Hb)]; rewrite Eck in *.
      { by eapply activeG_same. }
      assert (old = cm) as -> by (by eapply version_exact). eapply Hcommit; eauto.
    + intros ->. destruct (update_ok _ _ _ Hst) as (old & new & Ho & Hrv & Hn & Hd & Hb). rewrite Eck in *.
      exists (cm_rv new), new. split; [by apply now_version|]. auto.
Qed.

(** ** Compare-and-swap iterations *)

Definition aloop_post {A} (Q : world -> A -> Prop) (w : world) (x : option A) : Prop :=
  match x with Some a => Q w a | None => True end.

Lemma wp_aretry {A} n (body : nat -> prog (option A)) busy (Q : world -> A -> Prop) w :
  (forall w', Q w' busy) -> (forall i w', wp activeG (body i) (aloop_post Q) w') ->
  wp activeG (retry_loop n 0 body busy) Q w.
Proof. intros Hb Hi. apply wp_loop with (I := fun _ => True); eauto. Qed.

Lemma await_wp {A} retry (fail : error -> A) (Q : world -> A -> Prop) w :
  (forall w' e, Q w' (fail e)) -> wp activeG (wait_continue retry fail) (aloop_post Q) w.
Proof.
  intros HQ. unfold wait_continue. eapply wp_seq; [apply wp_aread_only; unfold waitCAS; emits_tac|].
  intros w' [e|] _ _; simpl; auto.
Qed.

Lemma casReservations_wp {A} k retry cm st next (fail : error -> A) finish failed (Q : world -> A -> Prop) w :
  K k -> aread_fact w cm st -> uint64Reservations next -> active_step st k next ->
  (forall w', rely w w' -> acommitted w' next -> wp activeG finish (aloop_post Q) w') ->
  (forall w' e, rely w w' -> wp activeG (failed e) (aloop_post Q) w') ->
  (forall w' e, Q w' (fail e)) ->
  wp activeG (casReservations r retry cm next fail finish failed) (aloop_post Q) w.
Proof.
  intros HK Hr Hi Hst Hfin Hfail HQ. unfold casReservations. eapply wp_seq; [by eapply writeReservations_wp|].
  intros w' [e|] Hr' Hc; [|by apply Hfin; auto]. destruct (IsConflict e); [by apply await_wp|auto].
Qed.

Lemma uint64_set st key e :
  uint64Reservations st -> (0 <= ar_GrantFence e < 2 ^ 64)%Z -> uint64Reservations (set_active st key e).
Proof.
  intros [Hf Hi] He. split; [done|]. intros k' e'. rewrite active_set, lookup_insert_Some.
  intros [[_ <-]|[_ Hl]]; [done|by eapply Hi].
Qed.

Lemma uint64_edit st key e e' :
  uint64Reservations st -> active st !! key = Some e -> ar_GrantFence e' = ar_GrantFence e ->
  uint64Reservations (set_active st key e').
Proof. intros Hu Hl He. apply uint64_set; [done|]. rewrite He. by apply (proj2 Hu key). Qed.

Lemma uint64_drop st key : uint64Reservations st -> uint64Reservations (drop_active st key).
Proof.
  intros [Hf Hi]. split; [done|]. intros k' e'. rewrite active_drop, lookup_delete_Some. intros [_ Hl]. by eapply Hi.
Qed.

Lemma uint64_fence st f : uint64Reservations st -> (0 <= f < 2 ^ 64)%Z -> uint64Reservations (with_fence st f).
Proof. intros [_ Hi] Hf. by split. Qed.

Lemma fence_next_range f : (0 <= fence_next f < 2 ^ 64)%Z.
Proof. unfold fence_next. apply Z.mod_pos_bound. lia. Qed.
End guarantee.
