(* ===== verification/ActiveWp.v ===== *)
(** * The contracts of the reconciler's ledger operations

    For every operation of the active ledger: each of its requests is one
    [active_step] that the operation is entitled to, and what it reports was true
    of a committed ledger. *)
From S2P Require Import Prelude GoText Json JsonFacts AdmissionJson Sha256 Types JsonSize Kube Contract Genesis GenesisFacts QueueReceipt Effects QueueLedger QueueCodec QueueOps ActiveLedger ActiveCodec FairQueue FairFacts ActiveOps GrantOps ActiveReads ActiveSpec.

Section contracts.
Context `{External} `{ApiServer}.
Context (r : Reconciler) (ns : string).
Context (K : akind -> Prop).
Hypothesis Hrok : reconciler_ok r.

#[local] Abbreviation G := (activeG r ns K).
#[local] Abbreviation seen_at := (aseen r ns).
#[local] Hint Resolve reconciler_reads : emits.

Lemma reads_guard g : r_Genesis r = Some g -> guard_reads g.
Proof. by apply reconciler_reads. Qed.
#[local] Hint Resolve reads_guard : emits.

Lemma lift_error_reads (p : prog (option error)) : emits (@read_only) p -> emits (@read_only) (lift_error p).
Proof. intros Hp. unfold lift_error. emits_tac. Qed.
#[local] Hint Resolve lift_error_reads : emits.

(** A read followed by a continuation that may use what it read. *)
Lemma read_then {B} (f : result (ConfigMap * reservationState) -> prog B) (Q : world -> B -> Prop) w :
  (forall w' cm st, rely w w' -> aread_fact r ns w' cm st -> wp G (f (Ok (cm, st))) Q w') ->
  (forall w' e, rely w w' -> wp G (f (Err e)) Q w') ->
  wp G (bind (readReservations r ns) f) Q w.
Proof.
  intros Hok Herr. eapply wp_seq; [by apply readReservations_wp|]. intros w' [[cm st]|e] Hr HQ; auto.
Qed.

(** A read-only program followed by a continuation. *)
Lemma off_then {A B} (p : prog A) (f : A -> prog B) (Q : world -> B -> Prop) w :
  emits (@read_only) p -> (forall w' a, rely w w' -> wp G (f a) Q w') -> wp G (bind p f) Q w.
Proof. intros Hp Hf. eapply wp_seq; [by apply wp_aread_only|]. auto. Qed.

(** A program that stays off the ledger, followed by a continuation. *)
Lemma away_then {A B} (p : prog A) (f : A -> prog B) (Q : world -> B -> Prop) w :
  emits (@off_key (akey ns)) p -> (forall w' a, rely w w' -> wp G (f a) Q w') -> wp G (bind p f) Q w.
Proof. intros Hp Hf. eapply wp_seq; [by apply wp_aoff|]. auto. Qed.

(** One compare-and-swap of one grant. *)
Lemma edit_cas {A} k retry cm st key e e' (fail : error -> A) finish failed (Q : world -> A -> Prop) w :
  K k -> aread_fact r ns w cm st -> active st !! key = Some e -> grant_edit e k e' ->
  (forall w', rely w w' -> seen_at w' key e' -> wp G finish (aloop_post Q) w') ->
  (forall w' err, rely w w' -> wp G (failed err) (aloop_post Q) w') ->
  (forall w' err, Q w' (fail err)) ->
  wp G (casReservations r retry cm (set_active st key e') fail finish failed) (aloop_post Q) w.
Proof.
  intros HK Hr He Hed Hfin Hfail HQ. destruct (areads_ok _ _ _ (proj2 (proj2 Hr))) as [Hu _].
  eapply casReservations_wp; try done.
  - eapply uint64_edit; [done|done|]. by destruct Hed.
  - by econstructor.
  - intros w' Hr' Hc. apply Hfin; [done|]. exists (set_active st key e'). split; [done|].
    by rewrite active_set, lookup_insert_eq.
Qed.

(** ** Fencing *)

(** Some committed ledger has no open grant at [key]. *)
Definition fenced (w : world) (key : string) : Prop :=
  exists st, acommitted r ns w st /\
    (active st !! key = None \/ exists e, active st !! key = Some e /\ ar_Closing e = true).

Lemma fenceReservation_wp build w :
  kb_ns build = ns -> K AFence ->
  wp G (fenceReservation r build) (fun w' x => x = None -> fenced w' (reservationKey build)) w.
Proof.
  intros Hns HK. apply wp_aretry; [done|]. intros i w1. unfold fenceIteration. rewrite Hns.
  apply read_then; [|done]. intros w2 cm st _ Hr. cbv zeta. destruct (areads_ok _ _ _ (proj2 (proj2 Hr))) as [Hu _].
  assert (Huf : uint64Reservations (with_fence st (fence_next (rs_Fence st)))) by (apply uint64_fence; [done|apply fence_next_range]).
  rewrite active_with_fence. destruct (active st !! reservationKey build) as [e|] eqn:Ee.
  - destruct (negb _); [done|]. eapply casReservations_wp with (k := AFence); try done.
    + apply uint64_set; [done|]. exact (proj2 Hu _ e Ee).
    + by constructor.
    + intros w3 _ Hc _. eexists. split; [exact Hc|]. right. exists (closing e). by rewrite active_set, lookup_insert_eq.
  - eapply casReservations_wp with (k := AFence); try done.
    + by econstructor.
    + intros w3 _ Hc _. eexists. split; [exact Hc|]. by left.
Qed.

(** ** The grant receipt *)

Definition armed_post (key : string) (original : activeReservation) (w : world) (x : result activeReservation) : Prop :=
  forall e, x = Ok e ->
    seen_at w key e /\ sameGrant e original = true /\ ar_GrantObservedRV e <> "" /\ ar_Closing e = false /\ ar_GrantReceiptUID e = "".

Lemma rv_nonempty s : validGrantObservedRV s = true -> s <> "".
Proof. by intros Hs ->. Qed.

Lemma uid_nonempty s : validGrantReceiptUID s = true -> s <> "".
Proof. by intros Hs ->. Qed.

Lemma armFreshGrant_wp build original w :
  kb_ns build = ns -> K AArm -> wp G (armFreshGrant r build original) (armed_post (reservationKey build) original) w.
Proof.
  intros Hns HK. apply wp_aretry; [by intros w' e|]. intros i w1. unfold armIteration. rewrite Hns. cbv zeta.
  apply read_then; [|by intros w' e _ x]. intros w2 cm st _ Hr.
  destruct (active st !! reservationKey build) as [e|] eqn:Ee; [|by intros x].
  destruct (_ || _) eqn:Eb; [by intros x|]. bool_simpl.
  apply off_then; [auto with emits|]. intros w3 [err|] Hr3; [by intros x|].
  destruct (validGrantObservedRV (cm_rv cm)) eqn:Erv; [|by intros x]. simpl.
  apply (edit_cas AArm _ _ _ _ e); try done.
  - by eapply aread_fact_stable.
  - by apply edit_arm.
  - intros w4 _ _. apply read_then; [|by intros w' e' _ x]. intros w5 cm' st' _ Hr5.
    destruct (active st' !! reservationKey build) as [o|] eqn:Eo; [|by intros x].
    destruct (_ || _) eqn:Eb'; [by intros x|]. bool_simpl. intros x [= <-].
    split; [by eapply aread_seen|]. split_and!; try done. apply rv_nonempty in Erv. congruence.
Qed.

Definition pinned_post (key : string) (same : activeReservation -> bool) (uid digest : activeReservation -> string)
    (ew : EffectWitness) (w : world) (x : result activeReservation) : Prop :=
  forall e, x = Ok e -> seen_at w key e /\ same e = true /\ uid e = ew_ReceiptUID ew /\ digest e = ew_DataDigest ew.

Lemma pinnedTo_post key same uid digest ew w cm st p :
  aread_fact r ns w cm st -> pinnedTo same uid digest ew (active st !! key) = Some p ->
  pinned_post key same uid digest ew w (Ok p).
Proof.
  intros Hr. unfold pinnedTo. destruct (active st !! key) as [e|] eqn:Ee; [|done].
  destruct (_ && _) eqn:Eb; [|done]. intros [= <-] x [= <-]. bool_simpl. split; [by eapply aread_seen|]. done.
Qed.

(** Both pin loops end by looking for the pinned entry. *)
Lemma confirm_wp key same uid digest ew (other : result activeReservation) w :
  (forall e, other <> Ok e) ->
  wp G (let* again := readReservations r ns in
        match again with
        | Ok (_, observed) =>
            match pinnedTo same uid digest ew (active observed !! key) with Some p => Ret (Some (Ok p)) | None => Ret (Some other) end
        | Err _ => Ret (Some other)
        end) (aloop_post (pinned_post key same uid digest ew)) w.
Proof.
  intros Ho. apply read_then; [|by intros w' e _ x ?; destruct (Ho x)]. intros w' cm st _ Hr.
  destruct (pinnedTo _ _ _ _ _) as [p|] eqn:Ep; [by eapply pinnedTo_post|]. by intros x ?; destruct (Ho x).
Qed.

Lemma confirm_ok_wp key same uid digest ew (other : error) w :
  wp G (get* (_, observed) := readReservations r ns else (fun e => Ret (Some (Err e))) in
        match pinnedTo same uid digest ew (active observed !! key) with
        | Some p => Ret (Some (Ok p)) | None => Ret (Some (Err other)) end)
    (aloop_post (pinned_post key same uid digest ew)) w.
Proof.
  apply read_then; [|by intros w' e _ x]. intros w' cm st _ Hr.
  destruct (pinnedTo _ _ _ _ _) as [p|] eqn:Ep; [by eapply pinnedTo_post|by intros x].
Qed.

Lemma differs_false a b c d : negb (seqb a b) || negb (seqb c d) = false -> a = b /\ c = d.
Proof. intros E. by bool_simpl. Qed.

Lemma pinGrantReceipt_wp build armed ew w :
  kb_ns build = ns -> K APin ->
  wp G (pinGrantReceipt r build armed ew)
    (pinned_post (reservationKey build) (fun p => sameGrant p armed && seqb (ar_GrantObservedRV p) (ar_GrantObservedRV armed))
       ar_GrantReceiptUID ar_GrantReceiptDigest ew) w.
Proof.
  intros Hns HK. unfold pinGrantReceipt. destruct (_ || _) eqn:Ev; [by intros e|]. bool_simpl.
  apply wp_aretry; [by intros w' e|]. intros i w1. unfold pinGrantIteration. rewrite Hns. cbv zeta.
  apply read_then; [|by intros w' e _ x]. intros w2 cm st _ Hr.
  destruct (active st !! reservationKey build) as [e|] eqn:Ee; [|by intros x].
  destruct (_ || _) eqn:Eb; [by intros x|]. apply orb_false_iff in Eb as [Es Ec]. apply negb_false_iff in Es.
  destruct (negb (sempty (ar_GrantReceiptUID e))) eqn:Eu.
  - destruct (_ || _) eqn:El; [by intros x|]. apply differs_false in El as [E1 E2].
    intros x [= <-]. split; [by eapply aread_seen|done].
  - bool_simpl. eapply (edit_cas APin _ _ _ _ e); try done.
    + by apply edit_pin.
    + intros w3 _ _. apply confirm_ok_wp.
    + intros w3 err _. by apply confirm_wp.
Qed.

(** Receipts are not the ledger: their names start with another prefix. *)
Lemma newEffect_key n1 n2 kind v cm : newEffectConfigMap n1 n2 kind v = Ok cm -> cm_key cm = (n1, n2).
Proof. unfold newEffectConfigMap. destruct (effectData _ _); [|done]. by intros [= <-]. Qed.

Lemma grant_receipt_off g cm : NewGrantConfigMap g = Ok cm -> cm_key cm <> akey ns.
Proof.
  unfold NewGrantConfigMap. destruct (GrantIntent_validate g); [done|]. intros ->%newEffect_key.
  unfold akey. by intros [=].
Qed.

Lemma pod_receipt_off p cm : NewPodCreateConfigMap p = Ok cm -> cm_key cm <> akey ns.
Proof.
  unfold NewPodCreateConfigMap. destruct (PodCreateIntent_validate p); [done|]. intros ->%newEffect_key.
  unfold akey. by intros [=].
Qed.

Lemma recordEffect_off cm kind : cm_key cm <> akey ns -> emits (@off_key (akey ns)) (recordEffectOnce cm kind).
Proof.
  intros Hk. unfold recordEffectOnce. cbn [bind call]. split; [exact Hk|]. intros [created err].
  apply (emits_bind _ (call _)); [by split|]. intros [rb|e]; [|done]. destruct (qualifyEffect _ _ _); [|done].
  repeat case_match; done.
Qed.

Lemma RecordGrantOnce_off g : emits (@off_key (akey ns)) (RecordGrantOnce g).
Proof.
  unfold RecordGrantOnce. destruct (NewGrantConfigMap g) as [cm|] eqn:E; [|done].
  by apply recordEffect_off, (grant_receipt_off g).
Qed.

Lemma RecordPodCreateOnce_off p : emits (@off_key (akey ns)) (RecordPodCreateOnce p).
Proof.
  unfold RecordPodCreateOnce. destruct (NewPodCreateConfigMap p) as [cm|] eqn:E; [|done].
  by apply recordEffect_off, (pod_receipt_off p).
Qed.

(** A pinned grant of the same identity as [original] has been committed. *)
Definition receipted (w : world) (key : string) (original : activeReservation) : Prop :=
  exists e, seen_at w key e /\ sameGrant e original = true /\ ar_GrantReceiptUID e <> "".

Lemma sameGrant_trans a b c : sameGrant a b = true -> sameGrant b c = true -> sameGrant a c = true.
Proof.
  unfold sameGrant. intros E1 E2. bool_simpl. unfold seqb.
  rewrite !bool_decide_eq_true_2 by congruence. simpl. rewrite !(proj2 (Z.eqb_eq _ _)) by congruence. done.
Qed.

Lemma pin_valid build armed ew :
  returns (fun x => forall e, x = Ok e -> validGrantReceiptUID (ew_ReceiptUID ew) = true) (pinGrantReceipt r build armed ew).
Proof.
  unfold pinGrantReceipt. destruct (_ || _) eqn:Eb; [by intros e|]. bool_simpl.
  assert (Hr : forall p : prog (result activeReservation),
    returns (fun x => forall e, x = Ok e -> validGrantReceiptUID (ew_ReceiptUID ew) = true) p).
  { intros p. induction p; simpl; auto. }
  apply Hr.
Qed.

Lemma finishFreshGrant_wp g build original w :
  kb_ns build = ns -> r_Genesis r = Some g -> K AArm -> K APin ->
  wp G (finishFreshGrant r g build original) (fun w' x => x = None -> receipted w' (reservationKey build) original) w.
Proof.
  intros Hns Eg HA HP. unfold finishFreshGrant. pose proof (reads_guard g Eg) as Hg.
  eapply wp_seq; [by apply armFreshGrant_wp|]. intros w1 [armed|e] _ Harm; [|done].
  destruct (Harm armed eq_refl) as (_ & Hsame & _).
  apply off_then.
  { apply observe_with_reads; [done|]. intros o. emits_tac. }
  intros w2 [intent|e] _; [|done].
  eapply wp_seq; [apply wp_aoff, RecordGrantOnce_off|]. intros w3 [ew|e] _ _; [|done].
  apply off_then; [unfold checkGrantReceiptNamespace; emits_tac|]. intros w4 [e|] _; [done|].
  eapply wp_seq; [apply wp_returns; [by apply pinGrantReceipt_wp|apply pin_valid]|].
  intros w5 [pinned|e] _ [Hp Hv]; [|done]. destruct (Hp pinned eq_refl) as (Hseen & Hs & Hu & _).
  specialize (Hv pinned eq_refl). bool_simpl.
  apply off_then; [auto with emits|]. intros w6 [e|] Hr6; [done|].
  eapply wp_mono; [apply wp_aread_only; auto with emits|]. intros w7 x Hr7 _ _.
  exists pinned. split; [|split].
  - eapply aseen_stable; [|exact Hseen]. by eapply rely_trans.
  - by eapply sameGrant_trans.
  - rewrite Hu. by apply uid_nonempty.
Qed.

(** ** Pod attempts *)

Lemma inFlight_none e : inFlight e = false -> ar_InFlight e = [].
Proof. unfold inFlight. intros E. by bool_simpl. Qed.

(** The attempt is recorded in the grant: in flight, or as the grant's only nonce. *)
Definition attempted (e : activeReservation) (a : string) : Prop :=
  match r_Genesis r with Some _ => ar_PodAttemptNonce e = a | None => a ∈ ar_InFlight e end.

Lemma recorded_then {B} build attempt (f : result bool -> prog B) (Q : world -> B -> Prop) w :
  kb_ns build = ns ->
  (forall w' e b, rely w w' -> seen_at w' (reservationKey build) e -> (b = true <-> attempted e attempt) -> wp G (f (Ok b)) Q w') ->
  (forall w' err, rely w w' -> wp G (f (Err err)) Q w') ->
  wp G (bind (podCreateAttemptRecorded r build attempt) f) Q w.
Proof.
  intros Hns Hok Herr. eapply wp_seq with (R := fun w' x => match x with
    | Ok b => exists e, seen_at w' (reservationKey build) e /\ (b = true <-> attempted e attempt) | Err _ => True end).
  - unfold podCreateAttemptRecorded. rewrite Hns. apply read_then; [|done]. intros w' cm st _ Hr.
    destruct (active st !! reservationKey build) as [e|] eqn:Ee; [|done]. destruct (negb _); [done|].
    assert (Hs : seen_at w' (reservationKey build) e) by (by eapply aread_seen).
    unfold attempted. destruct (r_Genesis r) as [g|] eqn:Eg in |- *; simpl; exists e; split; try done.
    + unfold seqb. by rewrite bool_decide_eq_true.
    + rewrite existsb_exists. split.
      * intros (x & Hx%list_elem_of_In & ->%bool_decide_eq_true). done.
      * intros Hx. exists attempt. split; [by apply list_elem_of_In|]. by apply bool_decide_eq_true.
  - intros w' [b|err] Hr HQ; [|auto]. destruct HQ as (e & He & Hb). eauto.
Qed.

Lemma beginPodCreate_wp build w :
  kb_ns build = ns -> K ABegin ->
  wp G (beginPodCreate r build)
    (fun w' x => forall a, x = Ok a -> exists e, seen_at w' (reservationKey build) e /\ attempted e a) w.
Proof.
  intros Hns HK. unfold beginPodCreate. apply off_then; [unfold random_nonce; emits_tac|].
  intros w1 [attempt|e] _; [|by intros a]. apply wp_aretry; [by intros w' a|]. intros i w2.
  unfold beginIteration. rewrite Hns. apply off_then; [emits_tac|]. intros w3 [e|] _; [by intros a|].
  apply read_then; [|by intros w' e _ a]. intros w4 cm st _ Hr.
  apply off_then; [auto with emits|]. intros w5 [e|] Hr5; [by intros a|].
  destruct (active st !! reservationKey build) as [e|] eqn:Ee; [|by intros a].
  destruct (negb _); [by intros a|]. destruct (ar_Closing e) eqn:Ec; [by intros a|].
  apply (wp_seq _ _ _ (fun w' x => aread_fact r ns w' cm st /\ (x = None -> r_Genesis r <> None -> ar_PodAttemptNonce e = ""))).
  { assert (Hst : forall w', rely w5 w' -> aread_fact r ns w' cm st).
    { intros w' Hr'. eapply aread_fact_stable; [|done]. by eapply rely_trans. }
    destruct (r_Genesis r) as [g|] eqn:Eg in |- *; [|split; [apply Hst, rely_refl|done]].
    apply off_then; [auto with emits|]. intros w6 [x|] Hr6; [split; [by apply Hst|done]|].
    unfold sempty. case_bool_decide; (split; [by apply Hst|done]). }
  intros w6 [x|] Hr6 [Hrd Hn]; [by intros a|]. specialize (Hn eq_refl).
  destruct (inFlight e) eqn:Ef; [by intros a|]. apply inFlight_none in Ef.
  assert (Hfailed : forall w' err, wp G (let* recorded := podCreateAttemptRecorded r build attempt in
    match recorded with Ok true => Ret (Some (Ok attempt)) | _ => Ret (Some (Err err)) end)
    (aloop_post (fun w' x => forall a, x = Ok a -> exists e, seen_at w' (reservationKey build) e /\ attempted e a)) w').
  { intros w' err. apply recorded_then; [done| |by intros w7 e' _ a].
    intros w7 e' [] _ Hs Hb; [|by intros a]. intros a [= <-]. exists e'. split; [done|]. by apply Hb. }
  cbv zeta. unfold attempted in *. destruct (r_Genesis r) as [g|] eqn:Eg in Hn, Hfailed |- *.
  - apply (edit_cas ABegin _ _ _ _ e); try done; [by apply edit_begin; auto|].
    intros w7 _ Hs a [= <-]. eexists. split; [exact Hs|done].
  - rewrite Ef. apply (edit_cas ABegin _ _ _ _ e); try done; [by apply edit_begin_legacy|].
    intros w7 _ Hs a [= <-]. eexists. split; [exact Hs|]. left.
Qed.

(** An observed entry passed its test in a committed ledger. *)
Definition observed_entry (key : string) (ok : activeReservation -> bool) (w : world)
    (x : result (ConfigMap * reservationState * activeReservation)) : Prop :=
  forall cm st e, x = Ok (cm, st, e) -> aread_fact r ns w cm st /\ active st !! key = Some e /\ ok e = true.

Lemma observe_with_wp {A} g (p : Observation -> prog (result A)) (Q : world -> result A -> Prop) w :
  r_Genesis r = Some g -> (forall w w' x, rely w w' -> Q w x -> Q w' x) -> (forall w e, Q w (Err e)) ->
  (forall o w', wp G (p o) Q w') -> wp G (observe_with g p) Q w.
Proof.
  intros Eg Hst Herr Hp. unfold observe_with. pose proof (reads_guard g Eg).
  apply off_then; [auto with emits|]. intros w1 [e|] _; [by apply Herr|].
  eapply wp_seq; [apply Hp|]. intros w2 x _ HQ. apply off_then; [emits_tac|]. intros w3 c Hr3.
  apply off_then; [auto with emits|]. intros w4 last Hr4. destruct (join _ _); [by apply Herr|].
  simpl. eapply Hst; [|exact HQ]. by eapply rely_trans.
Qed.

Lemma observeEntry_wp g build ok lost verify w :
  kb_ns build = ns -> r_Genesis r = Some g -> (forall e o, emits (@read_only) (verify e o)) ->
  wp G (observeEntry r g build ok lost verify) (observed_entry (reservationKey build) ok) w.
Proof.
  intros Hns Eg Hv. apply observe_with_wp; [done| |by intros w' e cm|].
  { intros w1 w2 x Hr HQ cm st e Hx. destruct (HQ cm st e Hx) as (? & ? & ?).
    split; [by eapply aread_fact_stable|done]. }
  intros o w1. rewrite Hns. eapply wp_seq; [by apply readReservations_obs_wp|].
  intros w2 [[cm st]|e] _ Hr; [|by intros c]. destruct (active st !! reservationKey build) as [e|] eqn:Ee; [|by intros c].
  destruct (ok e) eqn:Eok; [|by intros c]. simpl. apply off_then; [auto with emits|]. intros w3 [u|err] Hr3; [|by intros c].
  apply off_then; [apply Hv|]. intros w4 [err|] Hr4; [by intros c|]. intros c s' e' [= <- <- <-].
  split; [|done]. eapply aread_fact_stable; [|exact Hr]. by eapply rely_trans.
Qed.

Lemma samePod_same a b : samePodAttempt a b = true -> sameGrant a b = true /\ ar_PodAttemptNonce a = ar_PodAttemptNonce b.
Proof. unfold samePodAttempt. rewrite !andb_true_iff. intros [[[[? ?] ?] ?] ?%bool_decide_eq_true]. done. Qed.

Lemma armFreshPodAttempt_wp g build attempt digest w :
  kb_ns build = ns -> r_Genesis r = Some g -> K ATemplate ->
  wp G (armFreshPodAttempt r g build attempt digest)
    (fun w' x => forall e, x = Ok e -> seen_at w' (reservationKey build) e /\ ar_PodAttemptNonce e = attempt /\
       ar_PodTemplateDigest e = digest /\ ar_PodReceiptUID e = "" /\ ar_Closing e = false) w.
Proof.
  intros Hns Eg HK. unfold armFreshPodAttempt. destruct (_ || _); [by intros e|].
  apply wp_aretry; [by intros w' e|]. intros i w1. unfold armPodIteration. cbv zeta.
  eapply wp_seq; [apply observeEntry_wp; [done|done|intros; auto with emits]|].
  intros w2 [[[cm st] e]|err] _ Hob; [|by intros x]. destruct (Hob cm st e eq_refl) as (Hr & Ee & Hok). bool_simpl.
  match goal with E : inFlight e = false |- _ => apply inFlight_none in E end.
  apply (edit_cas ATemplate _ _ _ _ e); try done; [by apply edit_template|].
  intros w3 _ _. rewrite Hns. apply read_then; [|by intros w' e' _ x]. intros w4 cm' st' _ Hr4.
  destruct (active st' !! reservationKey build) as [o|] eqn:Eo; [|by intros x].
  destruct (_ || _) eqn:Eb; [by intros x|]. bool_simpl.
  match goal with E : samePodAttempt o _ = true |- _ => apply samePod_same in E as [_ E]; simpl in E end.
  intros x [= <-]. split; [by eapply aread_seen|]. split_and!; congruence.
Qed.

Lemma pinPodReceipt_wp build armed ew w :
  kb_ns build = ns -> K APodPin ->
  wp G (pinPodReceipt r build armed ew)
    (pinned_post (reservationKey build) (fun p => samePodAttempt p armed && seqb (ar_PodTemplateDigest p) (ar_PodTemplateDigest armed))
       ar_PodReceiptUID ar_PodReceiptDigest ew) w.
Proof.
  intros Hns HK. unfold pinPodReceipt. destruct (_ || _) eqn:Ev; [by intros e|]. bool_simpl.
  apply wp_aretry; [by intros w' e|]. intros i w1. unfold pinPodIteration. rewrite Hns. cbv zeta.
  apply read_then; [|by intros w' e _ x]. intros w2 cm st _ Hr.
  destruct (active st !! reservationKey build) as [e|] eqn:Ee; [|by intros x].
  destruct (_ || _) eqn:Eb; [by intros x|]. apply orb_false_iff in Eb as [Es Ec]. apply negb_false_iff in Es.
  destruct (negb (sempty (ar_PodReceiptUID e))) eqn:Eu.
  - destruct (_ || _) eqn:El; [by intros x|]. apply differs_false in El as [E1 E2].
    intros x [= <-]. split; [by eapply aread_seen|done].
  - bool_simpl. eapply (edit_cas APodPin _ _ _ _ e); try done.
    + by apply edit_pod_pin.
    + intros w3 _ _. apply confirm_ok_wp.
    + intros w3 err _. by apply confirm_wp.
Qed.

(** The issue fence of [pinned] is durable. *)
Definition issued (w : world) (key : string) (pinned : activeReservation) : Prop :=
  exists e, seen_at w key e /\ sameReceiptedAttempt e pinned = true /\ ar_Closing e = false /\
    ar_PodCleanupReady e = false /\ ar_InFlight e = [ar_PodAttemptNonce pinned].

Lemma freshIssue_wp build target w :
  kb_ns build = ns ->
  wp G (freshIssueRecorded r build target) (fun w' x => x = None -> issued w' (reservationKey build) target) w.
Proof.
  intros Hns. unfold freshIssueRecorded. rewrite Hns. apply read_then; [|done]. intros w' cm st _ Hr.
  destruct (active st !! reservationKey build) as [e|] eqn:Ee; [|done].
  destruct (_ || _) eqn:Eb; [done|]. bool_simpl. intros _. exists e. split; [by eapply aread_seen|]. done.
Qed.

Lemma sameReceipted_spec a b :
  sameReceiptedAttempt a b = true <->
  sameGrant a b = true /\ ar_GrantObservedRV a = ar_GrantObservedRV b /\ ar_GrantReceiptUID a = ar_GrantReceiptUID b /\
  ar_GrantReceiptDigest a = ar_GrantReceiptDigest b /\ ar_PodAttemptNonce a = ar_PodAttemptNonce b /\
  ar_PodTemplateDigest a = ar_PodTemplateDigest b /\ ar_PodReceiptUID a = ar_PodReceiptUID b /\
  ar_PodReceiptDigest a = ar_PodReceiptDigest b.
Proof.
  unfold sameReceiptedAttempt, samePodAttempt, seqb. rewrite !andb_true_iff, !bool_decide_eq_true. tauto.
Qed.

(** Issuing changes the flight list only. *)
Lemma issued_flight w key e l pinned :
  sameReceiptedAttempt e pinned = true -> issued w key (with_flight e l) -> issued w key pinned.
Proof.
  intros (S0 & S1 & S2 & S3 & S4 & S5 & S6 & S7)%sameReceipted_spec (e' & Hs & Hsame & Hc & Hp & Hf).
  exists e'. split; [done|]. apply sameReceipted_spec in Hsame as (T0 & T1 & T2 & T3 & T4 & T5 & T6 & T7). simpl in *.
  split; [|split_and!; congruence]. apply sameReceipted_spec. split; [|split_and!; congruence].
  by eapply (sameGrant_trans _ (with_flight e l)).
Qed.

Lemma authorizeFreshPodCreate_wp g build pinned w :
  kb_ns build = ns -> r_Genesis r = Some g -> K AIssue ->
  wp G (authorizeFreshPodCreate r g build pinned) (fun w' x => x = None -> issued w' (reservationKey build) pinned) w.
Proof.
  intros Hns Eg HK. apply wp_aretry; [done|]. intros i w1. unfold authorizeIteration. cbv zeta.
  eapply wp_seq; [apply observeEntry_wp; [done|done|intros; emits_tac]|].
  intros w2 [[[cm st] e]|err] _ Hob; [|done]. destruct (Hob cm st e eq_refl) as (Hr & Ee & Hok).
  rewrite !andb_true_iff in Hok. destruct Hok as [[[Hok ?] ?] ?]. bool_simpl.
  match goal with E : inFlight e = false |- _ => apply inFlight_none in E end.
  pose proof Hok as (_ & _ & _ & _ & En & _)%sameReceipted_spec. rewrite <- En.
  assert (Hiss : forall w', wp G (freshIssueRecorded r build (with_flight e [ar_PodAttemptNonce e]))
    (fun w' x => x = None -> issued w' (reservationKey build) pinned) w').
  { intros w'. eapply wp_mono; [by apply freshIssue_wp|]. intros w3 x _ HQ Hx. by eapply issued_flight, HQ. }
  apply (edit_cas AIssue _ _ _ _ e); try done; [by apply edit_issue| |].
  - intros w3 _ _. eapply wp_seq; [apply Hiss|]. intros w4 x _ HQ. exact HQ.
  - intros w3 err _. eapply wp_seq; [apply Hiss|]. intros w4 [x|] _ HQ; [done|]. intros _. by apply HQ.
Qed.

(** ** Completing a Pod attempt *)

Lemma remove_first_single v a rest : remove_first v [a] = Some rest -> a = v /\ rest = [].
Proof. simpl. unfold seqb. case_bool_decide; [|done]. by intros [= <-]. Qed.

Lemma flight_single st key e :
  reservationsOK st -> active st !! key = Some e -> ar_InFlight e = [] \/ exists a, ar_InFlight e = [a].
Proof.
  intros Hok He. pose proof (ro_capacity st Hok) as Hc. apply capacity_spec in Hc.
  assert (Hp : plainReservation (key, e)).
  { apply (goodReservation_plain (rs_Version st) (rs_WorkerSlots st)); [lia|]. by apply (ro_entries st Hok). }
  destruct (pr_flight _ Hp) as [?|(a & ? & _)]; eauto.
Qed.

(** The grant no longer has [attempt] in flight. *)
Definition landed (w : world) (key attempt : string) : Prop :=
  exists e, seen_at w key e /\ (attempt ∉ ar_InFlight e).

Lemma remove_first_none v l : remove_first v l = None -> v ∉ l.
Proof.
  induction l as [|x l IH]; simpl; [by intros _ ?%elem_of_nil|]. unfold seqb. case_bool_decide; [done|].
  destruct (remove_first v l); [done|]. intros _ [->|?]%elem_of_cons; [done|]. by apply IH.
Qed.

Lemma completeGenesis_wp build attempt w :
  kb_ns build = ns -> K AComplete ->
  wp G (completeGenesisPodCreate r build attempt) (fun w' x => x = None -> landed w' (reservationKey build) attempt) w.
Proof.
  intros Hns HK. apply wp_aretry; [done|]. intros i w1. unfold completeGenesisIteration. rewrite Hns. cbv zeta.
  apply read_then; [|done]. intros w2 cm st _ Hr.
  destruct (active st !! reservationKey build) as [e|] eqn:Ee; [|done]. destruct (_ || _); [done|].
  assert (Hland : forall w' e', seen_at w' (reservationKey build) e' -> ar_InFlight e' = [] -> landed w' (reservationKey build) attempt).
  { intros w' e' Hs Hf. exists e'. split; [done|]. rewrite Hf. apply not_elem_of_nil. }
  destruct (inFlight e) eqn:Ef; simpl.
  2:{ intros _. apply inFlight_none in Ef. eapply Hland; [|done]. by eapply aread_seen. }
  case_bool_decide as Efl; [|done]. simpl. apply off_then; [auto with emits|]. intros w3 [x|] Hr3; [done|].
  apply (edit_cas AComplete _ _ _ _ e); try done.
  - by eapply aread_fact_stable.
  - apply edit_complete. by rewrite Efl.
  - intros w4 _ Hs _. by eapply Hland.
  - intros w4 err _. apply read_then; [|done]. intros w5 cm' st' _ Hr5.
    destruct (active st' !! reservationKey build) as [c|] eqn:Ec; [|done]. destruct (_ && _) eqn:Eb; [|done].
    rewrite !andb_true_iff in Eb. destruct Eb as [_ Eb]. apply negb_true_iff, inFlight_none in Eb.
    intros _. eapply Hland; [|done]. by eapply aread_seen.
Qed.

Lemma completePodCreate_wp build attempt w :
  kb_ns build = ns -> K AComplete ->
  wp G (completePodCreate r build attempt) (fun w' x => x = None -> landed w' (reservationKey build) attempt) w.
Proof.
  intros Hns HK. unfold completePodCreate. destruct (r_Genesis r) as [g|] eqn:Eg in |- *; [by apply completeGenesis_wp|].
  apply wp_aretry; [done|]. intros i w1. unfold completeIteration. rewrite Hns. cbv zeta.
  apply off_then; [emits_tac|]. intros w2 [x|] _; [done|]. apply read_then; [|done]. intros w3 cm st _ Hr.
  destruct (active st !! reservationKey build) as [e|] eqn:Ee; [|done]. destruct (negb _); [done|].
  destruct (remove_first attempt (ar_InFlight e)) as [rest|] eqn:Er.
  2:{ intros _. exists e. split; [by eapply aread_seen|]. by apply remove_first_none. }
  destruct (areads_ok _ _ _ (proj2 (proj2 Hr))) as [_ Hok].
  destruct (flight_single st _ e Hok Ee) as [Ef|[a Ef]]; rewrite Ef in Er; [done|].
  apply remove_first_single in Er as [-> ->].
  apply (edit_cas AComplete _ _ _ _ e); try done.
  - apply edit_complete. by rewrite Ef.
  - intros w4 _ Hs _. exists (with_flight e []). split; [done|]. apply not_elem_of_nil.
  - intros w4 err _. apply recorded_then; [done| |done]. intros w5 e' [] _ Hs Hb; [done|]. intros _.
    exists e'. split; [done|]. unfold attempted in Hb. rewrite Eg in Hb. intros Hin. by apply Hb in Hin.
Qed.

(** ** Release *)

Lemma deleteReceipt_off g build cm uid q :
  guard_reads g -> cm_key cm <> akey ns -> emits (@off_key (akey ns)) (deleteReceipt r g build cm uid q).
Proof.
  intros Hg Hk. unfold deleteReceipt. cbv zeta.
  assert (Hget : emits (@off_key (akey ns)) (call (GetConfigMap (cm_ns cm) (cm_name cm)))) by (by split).
  assert (Hchk : emits (@off_key (akey ns)) (Guard_Check g)).
  { eapply emits_mono; [|by apply Guard_Check_reads]. apply read_only_off. }
  assert (Hns : emits (@off_key (akey ns)) (checkGrantReceiptNamespace r (kb_ns build))).
  { eapply emits_mono; [|unfold checkGrantReceiptNamespace; auto with emits]. apply read_only_off. }
  assert (Hdel : emits (@off_key (akey ns)) (call (DeleteConfigMap (cm_ns cm) (cm_name cm) uid))) by (split; [exact Hk|done]).
  emits_tac.
Qed.

Lemma deletePod_off g build e :
  r_Genesis r = Some g -> emits (@off_key (akey ns)) (deletePinnedPodReceipt r g build e).
Proof.
  intros Eg. unfold deletePinnedPodReceipt. destruct (_ || _); [done|].
  apply emits_bind; [eapply emits_mono; [apply read_only_off|unfold checkGrantReceiptNamespace; auto with emits]|]. intros [x|]; [done|].
  apply emits_bind; [eapply emits_mono; [apply read_only_off|unfold podIntent; auto with emits]|]. intros [i|x]; [|done].
  destruct (NewPodCreateConfigMap i) as [cm|] eqn:Ec; [|done].
  apply deleteReceipt_off; [by apply reads_guard|by apply (pod_receipt_off i)].
Qed.

Lemma deleteGrant_off g build e :
  r_Genesis r = Some g -> emits (@off_key (akey ns)) (deletePinnedGrantReceipt r g build e).
Proof.
  intros Eg. unfold deletePinnedGrantReceipt. destruct (_ || _); [done|].
  apply emits_bind; [eapply emits_mono; [apply read_only_off|unfold checkGrantReceiptNamespace; auto with emits]|]. intros [x|]; [done|].
  apply emits_bind; [eapply emits_mono; [apply read_only_off|unfold grantIntent; auto with emits]|]. intros [i|x]; [|done].
  destruct (NewGrantConfigMap i) as [cm|] eqn:Ec; [|done].
  apply deleteReceipt_off; [by apply reads_guard|by apply (grant_receipt_off i)].
Qed.

Lemma write_edit_wp k cm st key e e' w :
  K k -> aread_fact r ns w cm st -> active st !! key = Some e -> grant_edit e k e' ->
  wp G (writeReservations r cm (set_active st key e')) (fun _ _ => True) w.
Proof.
  intros HK Hr He Hed. destruct (areads_ok _ _ _ (proj2 (proj2 Hr))) as [Hu _].
  eapply wp_mono; [eapply writeReservations_wp|by intros]; try done.
  - eapply uint64_edit; [done|done|]. by destruct Hed.
  - by econstructor.
Qed.

Lemma releasePod_wp g build cm st e w :
  kb_ns build = ns -> r_Genesis r = Some g -> K APodPin -> K APodClean ->
  aread_fact r ns w cm st -> active st !! reservationKey build = Some e -> ar_Closing e = true -> ar_InFlight e = [] ->
  wp G (releaseGenesisPodReceipt r g build cm st e)
    (fun _ x => x = Ok true -> ar_PodTemplateDigest e = "" \/ ar_PodCleanupReady e = true) w.
Proof.
  intros Hns Eg HP HC Hr He Hcl Hf. unfold releaseGenesisPodReceipt.
  unfold sempty. case_bool_decide; [by left|]. case_bool_decide as Eu.
  { apply off_then; [auto with emits|]. intros w1 [ew|x] _; [|done].
    eapply wp_seq; [by apply pinPodReceipt_wp|]. by intros w2 [p|x] _ _. }
  destruct (ar_PodCleanupReady e) eqn:Er; simpl.
  { eapply wp_seq; [by apply wp_aoff, deletePod_off|]. intros w1 [x|] _ _; [done|]. intros _. by right. }
  apply off_then; [auto with emits|]. intros w1 [x|] Hr1; [done|].
  eapply wp_seq; [eapply (write_edit_wp APodClean); [done|by eapply aread_fact_stable|done|by apply edit_pod_clean]|].
  by intros w2 [x|] _ _.
Qed.

Lemma releaseGrant_wp g build cm st e w :
  kb_ns build = ns -> r_Genesis r = Some g -> K APin -> K AGrantClean ->
  aread_fact r ns w cm st -> active st !! reservationKey build = Some e -> ar_Closing e = true -> ar_InFlight e = [] ->
  wp G (releaseGenesisGrantReceipt r g build cm st e)
    (fun _ x => x = Ok true -> ar_GrantObservedRV e = "" \/ ar_GrantCleanupReady e = true) w.
Proof.
  intros Hns Eg HP HC Hr He Hcl Hf. unfold releaseGenesisGrantReceipt.
  unfold sempty. case_bool_decide; [by left|]. case_bool_decide as Eu.
  { apply off_then; [auto with emits|]. intros w1 [ew|x] _; [|done].
    eapply wp_seq; [by apply pinGrantReceipt_wp|]. by intros w2 [p|x] _ _. }
  destruct (ar_GrantCleanupReady e) eqn:Er; simpl.
  { eapply wp_seq; [by apply wp_aoff, deleteGrant_off|]. intros w1 [x|] _ _; [done|]. intros _. by right. }
  apply off_then; [auto with emits|]. intros w1 [x|] Hr1; [done|].
  eapply wp_seq; [eapply (write_edit_wp AGrantClean); [done|by eapply aread_fact_stable|done|by apply edit_grant_clean]|].
  by intros w2 [x|] _ _.
Qed.

Definition release_kinds : Prop := K APin /\ K APodPin /\ K APodClean /\ K AGrantClean /\ K ADrop.

(** The release loop keeps working on the same grant. *)
Definition same_build (key : string) (b : KovaBuild) : Prop := kb_ns b = ns /\ reservationKey b = key.

Definition release_iter (key : string) (w : world) (x : KovaBuild + option error) : Prop :=
  match x with inl b => same_build key b | inr e => e = None -> agone r ns w key end.

Lemma wait_with_wp key retry b w :
  same_build key b -> wp G (wait_with retry b Some) (release_iter key) w.
Proof.
  intros Hb. unfold wait_with. apply off_then; [unfold waitCAS; emits_tac|]. by intros w' [e|] _.
Qed.

Lemma receiptStep_wp key retry b p ready (Q : world -> Prop) w :
  same_build key b ->
  (wp G p (fun w' x => x = Ok true -> Q w') w) ->
  (forall w', rely w w' -> Q w' -> wp G ready (release_iter key) w') ->
  wp G (receiptStep retry b p ready) (release_iter key) w.
Proof.
  intros Hb Hp Hready. unfold receiptStep. eapply wp_seq; [exact Hp|]. intros w' [[]|e] Hr HQ; [auto|done|].
  destruct (IsConflict e); [by apply wait_with_wp|done].
Qed.

Lemma drop_wp key retry b cm st e w :
  K ADrop -> same_build key b -> aread_fact r ns w cm st -> active st !! key = Some e ->
  ar_Closing e = true -> ar_InFlight e = [] -> (r_Genesis r <> None -> receipts_settled e) ->
  wp G (let* x := writeReservations r cm (drop_active st (reservationKey b)) in
        match x with
        | None => Ret (inr None)
        | Some err => if IsConflict err then wait_with retry b Some else Ret (inr (Some err))
        end) (release_iter key) w.
Proof.
  intros HK Hb Hr He Hc Hf Hset. pose proof Hb as [_ Ek]. rewrite Ek.
  destruct (areads_ok _ _ _ (proj2 (proj2 Hr))) as [Hu _].
  eapply wp_seq; [eapply (writeReservations_wp r ns K Hrok ADrop cm st)|]; try done.
  - by apply uint64_drop.
  - econstructor; [done..|]. intros Hv. apply Hset. intros En.
    pose proof (proj2 (proj2 Hr)) as (st' & [= <-] & _ & _ & _ & _ & _ & _ & Lv & _)%qualifyActive_inv.
    rewrite decide_True in Lv by done. lia.
  - intros w' [err|] _ Hcm; [destruct (IsConflict err); [by apply wait_with_wp|done]|].
    intros _. eexists. split; [by apply Hcm|]. by rewrite active_drop, lookup_delete_eq.
Qed.

Lemma getCurrent_wp b key w :
  same_build key b ->
  wp G (match r_Genesis r with
        | None => Ret (Ok b)
        | Some _ =>
            get* current := call (GetBuild ns (kb_name b)) else (fun e => Ret (Err e)) in
            if negb (seqb (kb_uid current) (kb_uid b)) || (negb (isTerminalPhase (kb_phase current)) && negb (kb_deleting current))
            then Ret (Err (Plain "Genesis active grant cannot be released before its original CR is terminal or deleting"))
            else Ret (Ok current)
        end) (fun _ x => match x with Ok b' => same_build key b' | Err _ => True end) w.
Proof.
  intros [Hns Hk]. destruct (r_Genesis r); [|done]. cbn [bind call wp]. intros w1 _ [cur|e] w2 Hs.
  - split; [eapply activeG_same; [exact Hs|by eapply frame]|].
    apply get_build_key in Hs as [E1 E2]. destruct (_ || _) eqn:Eb; [done|]. simpl.
    apply orb_false_iff in Eb as [Eu _]. bool_simpl. split; [done|].
    unfold reservationKey in *. by rewrite Eu, E2.
  - split; [eapply activeG_same; [exact Hs|by eapply frame]|done].
Qed.

Lemma releaseReservation_wp build w :
  kb_ns build = ns -> release_kinds ->
  wp G (releaseReservation r build) (fun w' x => x = None -> agone r ns w' (reservationKey build)) w.
Proof.
  intros Hns (K1 & K2 & K3 & K4 & K5). set (key := reservationKey build).
  apply wp_state with (I := fun _ b => same_build key b); [by split|done|].
  intros i w1 b Hb. pose proof Hb as [Ens Ek]. change (wp G (releaseActiveIteration r i b) (release_iter key) w1).
  unfold releaseActiveIteration. rewrite Ens, Ek. apply off_then; [emits_tac|]. intros w2 [x|] _; [done|].
  apply read_then; [|done]. intros w3 cm st _ Hr. destruct (active st !! key) as [e|] eqn:Ee.
  2:{ intros _. exists st. split; [by eapply aread_committed|done]. }
  destruct (negb (seqb _ _)); [done|]. destruct (ar_Closing e) eqn:Ec; [|done]. cbn [negb].
  eapply wp_seq; [by apply (getCurrent_wp b key)|]. intros w4 [b'|x] Hr4 Hb'; [|done].
  destruct (inFlight e) eqn:Ef; [done|]. apply inFlight_none in Ef. clear b Hb Ens Ek.
  apply off_then; [auto with emits|]. intros w5 [[p|]|x] Hr5; [done| |done]. pose proof Hb' as [Ens Ek].
  assert (Hr' : aread_fact r ns w5 cm st) by (eapply aread_fact_stable; [|done]; by eapply rely_trans).
  cbv zeta. destruct (r_Genesis r) as [g|] eqn:Eg in |- *; [|by eapply drop_wp].
  eapply receiptStep_wp; [done|eapply releasePod_wp with (e := e); rewrite ?Ek; done|]. intros w6 Hr6 Hpod.
  eapply receiptStep_wp; [done|eapply releaseGrant_wp with (e := e); rewrite ?Ek; try done; by eapply aread_fact_stable|].
  intros w7 Hr7 Hgrant. eapply drop_wp; try done. eapply aread_fact_stable; [|done]. by eapply rely_trans.
Qed.

(** ** Admission *)

Lemma verifyPinned_returns build e :
  returns (fun x => x = None -> ar_GrantReceiptUID e <> "") (verifyPinnedGrant r build e).
Proof.
  unfold verifyPinnedGrant, Observe. destruct (r_Genesis r) as [g|]; [|done].
  apply returns_bind. intros [x|]; [done|]. eapply (returns_seq (fun x => x = None -> ar_GrantReceiptUID e <> "")).
  - unfold verifyPinnedGrantWithObservation. destruct (AssertNoOrdinaryContext _ _ _); [done|].
    destruct (ar_Closing e); [done|]. destruct (_ || _) eqn:Eb.
    + destruct (negb _); [|done]. by apply returns_bind.
    + apply returns_bind. intros [ew|x]; [|done]. apply orb_false_iff in Eb as [Eb _]. bool_simpl. case_match; simpl; auto.
  - intros x Hx. apply returns_bind. intros c. apply returns_bind. intros l. simpl. destruct x as [x|]; [|by auto].
    unfold join. by destruct c, l.
Qed.

Definition admit_post (build : KovaBuild) (w : world) (x : result admissionDecision) : Prop :=
  forall d, x = Ok d -> ad_Admitted d = true ->
    exists e, seen_at w (reservationKey build) e /\ ar_BuildName e = kb_name build /\ ar_Requester e = requesterKey build /\
      ar_Slots e = ad_Allocation d /\ (r_Genesis r <> None -> ar_GrantReceiptUID e <> "").

Definition admit_iter (build : KovaBuild) (w : world) (x : bool + (bool * result admissionDecision)) : Prop :=
  match x with inl _ => True | inr (_, y) => admit_post build w y end.

Lemma sameGrant_fields a b :
  sameGrant a b = true -> ar_BuildName a = ar_BuildName b /\ ar_Requester a = ar_Requester b /\ ar_Slots a = ar_Slots b.
Proof. unfold sameGrant. intros E. by bool_simpl. Qed.

(** The grant that [decideAdmission] allows is an abstract grant step. *)
Lemma grant_step cm st build builds nonce f h w :
  aread_fact r ns w cm st -> active st !! reservationKey build = None -> (0 <= f < 2 ^ 64)%Z ->
  let d := decideAdmission build builds (active st) (MaxActiveJobs_ (r_Cfg r)) (MaxActiveJobsPerRequester (r_Cfg r))
             (WorkerSlots (r_Cfg r)) (rs_LastGrantedRequesterHash st) in
  ad_Admitted d = true -> forall gf, (0 <= gf < 2 ^ 64)%Z ->
  let next := with_cursor (set_active (with_fence st f) (reservationKey build) (grantEntry build (ad_Allocation d) nonce gf)) h in
  active_step st AGrant next /\ uint64Reservations next /\
  active next !! reservationKey build = Some (grantEntry build (ad_Allocation d) nonce gf).
Proof.
  intros Hr En Hf d Hd gf Hgf next. destruct (areads_ok _ _ _ (proj2 (proj2 Hr))) as [Hu Hok].
  pose proof (proj2 (proj2 Hr)) as (st' & [= <-] & _ & _ & _ & Lj & Lp & Lw & _)%qualifyActive_inv.
  pose proof (ro_capacity st Hok) as Hc. apply capacity_spec in Hc.
  apply decideAdmission_form in Hd. apply decideAdmission_sound in Hd as (c & _ & _ & Ha & Hj & Hs & _); [|lia..].
  fold d in Ha, Hs. split; [|split].
  - apply astep_grant; [done|by split_and!|simpl; lia|lia|].
    rewrite <- usedSlots_sum. simpl. lia.
  - change (uint64Reservations (set_active (with_fence st f) (reservationKey build) (grantEntry build (ad_Allocation d) nonce gf))).
    apply uint64_set; [by apply uint64_fence|done].
  - unfold next. by rewrite active_with_cursor, active_set, lookup_insert_eq.
Qed.

Lemma proceed_grant_wp build builds nonce retry permit cm st w :
  kb_ns build = ns -> K AGrant -> K AArm -> K APin ->
  aread_fact r ns w cm st -> active st !! reservationKey build = None ->
  let cfg := r_Cfg r in
  let decision := decideAdmission build builds (active st) (MaxActiveJobs_ cfg) (MaxActiveJobsPerRequester cfg)
                    (WorkerSlots cfg) (rs_LastGrantedRequesterHash st) in
  ad_Admitted decision = true ->
  let fence := match r_Genesis r with Some _ => if (rs_Fence st =? 0)%Z then 1%Z else rs_Fence st | None => rs_Fence st end in
  let entry := match r_Genesis r with
               | Some _ => grantEntry build (ad_Allocation decision) nonce fence
               | None => grantEntry build (ad_Allocation decision) "" 0
               end in
  wp G (let* x := writeReservations r cm (with_cursor (set_active (with_fence st fence) (reservationKey build) entry) (HashRequester (requesterKey build))) in
        match x with
        | Some err =>
            if IsConflict err || IsAlreadyExists err then
              let* e := waitCAS retry in
              match e with Some e => Ret (inr (permit, Err e)) | None => Ret (inl permit) end
            else Ret (inr (permit, Err err))
        | None =>
            chk* match r_Genesis r with Some g => finishFreshGrant r g build entry | None => Ret None end
              else (fun e => Ret (inr (permit, Err e))) in
            Ret (inr (permit, Ok decision))
        end) (admit_iter build) w.
Proof.
  intros Hns HK HA HP Hr En cfg decision Hd fence entry.
  destruct (areads_ok _ _ _ (proj2 (proj2 Hr))) as [Hu _].
  assert (Hf : (0 <= fence < 2 ^ 64)%Z).
  { unfold fence. destruct Hu as [Hu _]. destruct (r_Genesis r); [destruct (rs_Fence st =? 0)%Z; lia|lia]. }
  assert (Hent : exists n gf, (0 <= gf < 2 ^ 64)%Z /\ entry = grantEntry build (ad_Allocation decision) n gf).
  { unfold entry. destruct (r_Genesis r); eexists _, _; split; try reflexivity; lia. }
  destruct Hent as (n & gf & Hgf & Eentry).
  destruct (grant_step cm st build builds n fence (HashRequester (requesterKey build)) w Hr En Hf Hd gf Hgf) as (Hstep & Hu' & Hl).
  rewrite Eentry. eapply wp_seq; [by eapply (writeReservations_wp r ns K Hrok AGrant)|].
  intros w1 [err|] _ Hc.
  { destruct (_ || _); [|by intros d]. apply off_then; [unfold waitCAS; emits_tac|]. intros w2 [e|] _; [by intros d|done]. }
  specialize (Hc eq_refl). assert (Hseen : seen_at w1 (reservationKey build) (grantEntry build (ad_Allocation decision) n gf)).
  { eexists. split; [exact Hc|]. exact Hl. }
  destruct (r_Genesis r) as [g|] eqn:Eg in |- *.
  - eapply wp_seq; [by apply finishFreshGrant_wp|]. intros w2 [e|] _ Hfin; [by intros d|].
    destruct (Hfin eq_refl) as (e & He & Hs & Huid). apply sameGrant_fields in Hs as (S1 & S2 & S3).
    intros d [= <-] _. exists e. simpl in *. by split_and!.
  - intros d [= <-] _. eexists. split; [exact Hseen|]. by split_and!.
Qed.

Lemma proceed_wp build nonce retry permit cm st w :
  kb_ns build = ns -> K AGrant -> K AArm -> K APin -> aread_fact r ns w cm st ->
  let cfg := r_Cfg r in
  let key := reservationKey build in
  wp G (get* builds := call (ListBuilds ns None) else (fun e => Ret (inr (permit, Err e))) in
        chk* ensureNoUnreservedRunner r ns st builds else (fun e => Ret (inr (permit, Err e))) in
        match active st !! key with
        | Some existing =>
            if negb (seqb (ar_BuildName existing) (kb_name build)) || negb (seqb (ar_Requester existing) (requesterKey build))
            then Ret (inr (permit, Err (Plain "admission reservation does not match KovaBuild identity")))
            else if ar_Closing existing then Ret (inr (permit, Err (Wrap "grant is closing" errAdmissionClosed)))
            else
              chk* match r_Genesis r with Some _ => verifyPinnedGrant r build existing | None => Ret None end
                else (fun e => Ret (inr (permit, Err e))) in
              Ret (inr (permit, Ok (admitted (ar_Slots existing))))
        | None =>
            let decision := decideAdmission build builds (active st) (MaxActiveJobs_ cfg) (MaxActiveJobsPerRequester cfg)
                              (WorkerSlots cfg) (rs_LastGrantedRequesterHash st) in
            if negb (ad_Admitted decision) then Ret (inr (permit, Ok decision))
            else
              let fence := match r_Genesis r with
                           | Some _ => if (rs_Fence st =? 0)%Z then 1%Z else rs_Fence st
                           | None => rs_Fence st
                           end in
              let entry := match r_Genesis r with
                           | Some _ => grantEntry build (ad_Allocation decision) nonce fence
                           | None => grantEntry build (ad_Allocation decision) "" 0
                           end in
              let next := with_cursor (set_active (with_fence st fence) key entry) (HashRequester (requesterKey build)) in
              let* x := writeReservations r cm next in
              match x with
              | Some err =>
                  if IsConflict err || IsAlreadyExists err then
                    let* e := waitCAS retry in
                    match e with Some e => Ret (inr (permit, Err e)) | None => Ret (inl permit) end
                  else Ret (inr (permit, Err err))
              | None =>
                  chk* match r_Genesis r with Some g => finishFreshGrant r g build entry | None => Ret None end
                    else (fun e => Ret (inr (permit, Err e))) in
                  Ret (inr (permit, Ok decision))
              end
        end) (admit_iter build) w.
Proof.
  intros Hns HK HA HP Hr cfg key. apply off_then; [emits_tac|]. intros w1 [builds|e] Hr1; [|by intros d].
  apply off_then; [auto with emits|]. intros w2 [e|] Hr2; [by intros d|].
  assert (Hr' : aread_fact r ns w2 cm st) by (eapply aread_fact_stable; [|done]; by eapply rely_trans).
  destruct (active st !! key) as [e|] eqn:Ee.
  - destruct (_ || _) eqn:Eb; [by intros d|]. bool_simpl. destruct (ar_Closing e); [by intros d|].
    assert (Hseen : seen_at w2 key e) by (by eapply aread_seen).
    apply (wp_seq _ _ _ (fun w' x => seen_at w' key e /\ (x = None -> r_Genesis r <> None -> ar_GrantReceiptUID e <> ""))).
    { destruct (r_Genesis r) as [g|] eqn:Eg in |- *; [|by split].
      eapply wp_mono; [apply wp_returns; [apply wp_aread_only; auto with emits|apply verifyPinned_returns]|].
      intros w3 x Hr3 [_ Hx]. split; [by eapply aseen_stable|auto]. }
    intros w3 [x|] _ [Hs Hg]; [by intros d|]. intros d [= <-] _. exists e. by split_and!; auto.
  - cbv zeta. destruct (negb (ad_Admitted _)) eqn:Ed.
    { intros d [= <-] Hd. rewrite Hd in Ed. done. }
    apply proceed_grant_wp; try done. by apply negb_false_iff.
Qed.

Lemma admission_wp build w :
  kb_ns build = ns -> K AGrant -> K AArm -> K APin -> wp G (admission r build) (admit_post build) w.
Proof.
  intros Hns HK HA HP. unfold admission. apply off_then; [destruct (r_Genesis r) in |- *; unfold random_nonce; emits_tac|].
  intros w1 [nonce|e] _; [|by intros d].
  eapply wp_seq with (R := fun w' x => admit_post build w' (snd x)).
  2:{ intros w2 [p x] _ Hx. apply away_then; [destruct p; emits_tac|]. intros w3 _ Hr3. simpl in *.
      intros d Hd Ha. destruct (Hx d Hd Ha) as (e & He & ?). exists e. split; [by eapply aseen_stable|done]. }
  apply wp_state with (I := fun _ _ => True); [done|by intros w' s _ d|].
  intros i w2 permit _.
  eapply wp_mono with (Q := admit_iter build); [|intros w' [s|[p x]] _ Hx; [done|exact Hx]].
  unfold admissionIteration. rewrite Hns. apply off_then; [emits_tac|]. intros w3 [e|] _; [by intros d|].
  apply read_then; [|by intros w' e _ d]. intros w4 cm st _ Hr.
  apply off_then; [auto with emits|]. intros w5 [e|] Hr5; [by intros d|]. cbv beta zeta.
  assert (Hproceed : forall w', rely w5 w' -> aread_fact r ns w' cm st).
  { intros w' Hr'. eapply aread_fact_stable; [|done]. by eapply rely_trans. }
  assert (Hgo : forall p w', rely w5 w' -> _) by (intros p w' Hr'; exact (proceed_wp build nonce i p cm st w' Hns HK HA HP (Hproceed w' Hr'))).
  cbv zeta in Hgo. destruct (active st !! reservationKey build) as [x|] eqn:Ex; [apply Hgo, rely_refl|].
  destruct (saturatedAdmission _ _ _ _ _) as [blocked|] eqn:Es.
  { apply off_then; [auto with emits|]. intros w6 [e|] _; [by intros d|]. intros d [= <-].
    unfold saturatedAdmission in Es. repeat case_match; simplify_eq; done. }
  destruct (_ && _).
  - apply away_then; [emits_tac|]. intros w6 [[]|e] Hr6; [|by intros d [= <-]|by intros d].
    apply off_then; [auto with emits|]. intros w7 [e|] Hr7; [by intros d|]. apply Hgo. by eapply rely_trans.
  - apply off_then; [auto with emits|]. intros w7 [e|] Hr7; [by intros d|]. by apply Hgo.
Qed.

(** ** Initialization *)

Lemma initializeReservations_wp w :
  K AInit -> wp G (initializeReservations r ns) (fun _ _ => True) w.
Proof.
  intros HK. unfold initializeReservations. destruct (r_Genesis r) as [g|] eqn:Eg in |- *.
  { apply wp_aread_only. emits_tac. }
  apply wp_state with (I := fun _ _ => True); [done|done|]. intros i w1 nonce _.
  eapply wp_mono with (Q := fun _ _ => True); [|by intros w' [] _ _].
  unfold initializeIteration. apply off_then; [auto with emits|]. intros w2 [x|e] _; [done|].
  destruct (negb _); [done|]. apply off_then; [emits_tac|]. intros w3 [c|qe] _.
  { apply wp_aread_only. emits_tac. }
  destruct (negb _); [done|]. apply off_then; [auto with emits|]. intros w4 [e'|] _; [done|].
  destruct (encodeReservations (freshReservations (r_Cfg r))) as [data0|] eqn:Ee; [|done].
  apply off_then; [destruct (sempty nonce); unfold random_nonce; emits_tac|]. intros w5 [n|e'] _; [|done].
  cbn [bind call wp]. intros w6 _ x w7 Hs. split.
  - destruct (create_effect _ _ _ _ Hs) as [Hsame|(Hn & new & Hnew & Hd & Hb)]; [by eapply activeG_same|].
    split; [|intros rv c; by eapply version_new]. change (cm_key (freshActiveLedger ns n data0)) with (akey ns) in *.
    rewrite Hn, Hnew. apply aeffect_init; [done|done|].
    eapply encoded_areads; [exact Ee| |done|done|done|by rewrite decide_True|done|by rewrite Hb].
    split; [simpl; lia|]. intros k e0. unfold active. simpl. by rewrite lookup_empty.
  - destruct (snd x) as [err|]; [|done]. apply wp_aread_only. unfold waitCAS. emits_tac.
Qed.
End contracts.
