(* ===== verification/ActiveTheorems.v ===== *)
(** * Theorems about the active ledger

    [active_op] lists the reconciler operations on the capacity ledger;
    [run_aop] runs one of them.  The theorems hold for every server that meets
    [ApiServer], for any number of replicas and every interleaving. *)
From S2P Require Import Prelude GoText Json JsonFacts AdmissionJson Sha256 Types JsonSize Kube Contract Server Genesis GenesisFacts QueueReceipt Effects QueueLedger QueueCodec QueueOps ActiveLedger Fixture ActiveCodec FairQueue FairFacts ActiveOps GrantOps ActiveReads ActiveSpec ActiveWp.

(** ** Operations and their contracts *)

Inductive active_op :=
| AOpInit
| AOpAdmit (build : KovaBuild)
| AOpBegin (build : KovaBuild)
| AOpArmPod (build : KovaBuild) (attempt digest : string)
| AOpPinPod (build : KovaBuild) (armed : activeReservation) (w : EffectWitness)
| AOpAuthorize (build : KovaBuild) (pinned : activeReservation)
| AOpComplete (build : KovaBuild) (attempt : string)
| AOpFence (build : KovaBuild)
| AOpRelease (build : KovaBuild).

Inductive active_answer :=
| AFinished (e : option error)
| AInitialized (x : result bool)
| ADecided (x : result admissionDecision)
| AAttempt (x : result string)
| AEntry (x : result activeReservation).

(** The steps an operation may take. *)
Definition aop_kinds (op : active_op) (k : akind) : Prop :=
  match op, k with
  | AOpInit, AInit => True
  | AOpAdmit _, (AGrant | AArm | APin) => True
  | AOpBegin _, ABegin => True
  | AOpArmPod _ _ _, ATemplate => True
  | AOpPinPod _ _ _, APodPin => True
  | AOpAuthorize _ _, AIssue => True
  | AOpComplete _ _, AComplete => True
  | AOpFence _, AFence => True
  | AOpRelease _, (APin | APodPin | APodClean | AGrantClean | ADrop) => True
  | _, _ => False
  end.

Definition drops (op : active_op) : bool := match op with AOpRelease _ => true | _ => false end.

(** Every build handed to an operation lives in the reconciled namespace. *)
Definition in_namespace (ns : string) (op : active_op) : Prop :=
  match op with
  | AOpInit => True
  | AOpAdmit b | AOpBegin b | AOpArmPod b _ _ | AOpPinPod b _ _ | AOpAuthorize b _ | AOpComplete b _ | AOpFence b
  | AOpRelease b => kb_ns b = ns
  end.

Section ops.
Context `{External} (r : Reconciler) (ns : string).

Definition run_aop (op : active_op) : prog active_answer :=
  match op with
  | AOpInit => let* x := initializeReservations r ns in Ret (AInitialized x)
  | AOpAdmit b => let* x := admission r b in Ret (ADecided x)
  | AOpBegin b => let* x := beginPodCreate r b in Ret (AAttempt x)
  | AOpArmPod b attempt digest =>
      let* x := match r_Genesis r with
                | Some g => armFreshPodAttempt r g b attempt digest
                | None => Ret (Err (Plain "fresh Pod attempts require Genesis"))
                end in Ret (AEntry x)
  | AOpPinPod b armed w => let* x := pinPodReceipt r b armed w in Ret (AEntry x)
  | AOpAuthorize b pinned =>
      let* x := match r_Genesis r with
                | Some g => authorizeFreshPodCreate r g b pinned
                | None => Ret (Some (Plain "fresh Pod attempts require Genesis"))
                end in Ret (AFinished x)
  | AOpComplete b attempt => let* x := completePodCreate r b attempt in Ret (AFinished x)
  | AOpFence b => let* x := fenceReservation r b in Ret (AFinished x)
  | AOpRelease b => let* x := releaseReservation r b in Ret (AFinished x)
  end.

Context `{ApiServer}.

(** What a finished operation has established about the committed ledgers. *)
Definition aop_post (op : active_op) (w : world) (a : active_answer) : Prop :=
  match op, a with
  | AOpAdmit b, ADecided x => admit_post r ns b w x
  | AOpBegin b, AAttempt x =>
      forall n, x = Ok n -> n <> "" /\ exists e, aseen r ns w (reservationKey b) e /\ attempted r e n
  | AOpArmPod b attempt digest, AEntry x =>
      forall e, x = Ok e -> aseen r ns w (reservationKey b) e /\ ar_PodAttemptNonce e = attempt /\
        ar_PodTemplateDigest e = digest /\ ar_PodReceiptUID e = "" /\ ar_Closing e = false
  | AOpPinPod b armed ew, AEntry x =>
      pinned_post r ns (reservationKey b)
        (fun p => samePodAttempt p armed && seqb (ar_PodTemplateDigest p) (ar_PodTemplateDigest armed))
        ar_PodReceiptUID ar_PodReceiptDigest ew w x
  | AOpAuthorize b pinned, AFinished x => x = None -> issued r ns w (reservationKey b) pinned
  | AOpComplete b attempt, AFinished x => x = None -> landed r ns w (reservationKey b) attempt
  | AOpFence b, AFinished x => x = None -> fenced r ns w (reservationKey b)
  | AOpRelease b, AFinished x => x = None -> agone r ns w (reservationKey b)
  | _, _ => True
  end.

Lemma aop_post_stable op w w' a : rely w w' -> aop_post op w a -> aop_post op w' a.
Proof.
  intros Hr. pose proof (aseen_stable r ns w w') as Hs. destruct op, a; simpl; try done.
  - intros Hp d Hd Ha. destruct (Hp d Hd Ha) as (e & He & ?). exists e. split; [by apply Hs|done].
  - intros Hp n Hn. destruct (Hp n Hn) as (? & e & He & ?). split; [done|]. exists e. split; [by apply Hs|done].
  - intros Hp e He. destruct (Hp e He) as (? & ?). split; [by apply Hs|done].
  - intros Hp e He. destruct (Hp e He) as (? & ?). split; [by apply Hs|done].
  - intros Hp He. destruct (Hp He) as (e' & ? & ?). exists e'. split; [by apply Hs|done].
  - intros Hp He. destruct (Hp He) as (e' & ? & ?). exists e'. split; [by apply Hs|done].
  - intros Hp He. destruct (Hp He) as (st & ? & ?). exists st. split; [by eapply acommitted_stable|done].
  - intros Hp He. eapply agone_stable; [done|]. by apply Hp.
Qed.

(** The nonce of a Pod attempt is 32 hexadecimal digits. *)
Lemma loop_returns {A} (Q : A -> Prop) n retry (body : nat -> prog (option A)) busy :
  Q busy -> (forall i, returns (fun x => match x with Some a => Q a | None => True end) (body i)) ->
  returns Q (retry_loop n retry body busy).
Proof.
  intros Hb Hbody. revert retry. induction n as [|n IH]; intros retry; [done|].
  change (returns Q (let* x := body retry in match x with Some a => Ret a | None => retry_loop n (S retry) body busy end)).
  eapply returns_seq; [apply Hbody|]. intros [a|] Ha; [done|apply IH].
Qed.

Lemma begin_nonempty build : returns (fun x => forall n, x = Ok n -> n <> "") (beginPodCreate r build).
Proof.
  unfold beginPodCreate. apply (returns_seq (fun x => forall n, x = Ok n -> n <> "")).
  { unfold random_nonce. apply returns_bind. intros [n|e]; [|by intros n]. intros a [= <-] E.
    pose proof (nonce_of_length n) as Hl. by rewrite E in Hl. }
  intros [attempt|e] Ha; [|by intros n]. specialize (Ha attempt eq_refl).
  apply loop_returns; [by intros n|]. intros i. unfold beginIteration, casReservations, wait_continue.
  repeat first [ progress intros | apply returns_bind | case_match | progress simplify_eq/= | done ].
Qed.

Lemma run_aop_wp (K : akind -> Prop) op w :
  reconciler_ok r -> in_namespace ns op -> (forall k, aop_kinds op k -> K k) ->
  wp (activeG r ns K) (run_aop op) (aop_post op) w.
Proof.
  intros Hr Hns HK. destruct op; unfold run_aop; apply wp_map.
  - eapply wp_mono; [apply initializeReservations_wp; [done|by apply HK]|done].
  - apply admission_wp; try done; by apply HK.
  - eapply wp_mono; [apply wp_returns; [apply beginPodCreate_wp; [done|done|by apply HK]|apply begin_nonempty]|].
    intros w' x _ [Hx Hn] n ->. split; [by apply Hn|by apply Hx].
  - destruct (r_Genesis r) as [g|] eqn:Eg in |- *; [|by intros e]. apply armFreshPodAttempt_wp; try done. by apply HK.
  - apply pinPodReceipt_wp; try done. by apply HK.
  - destruct (r_Genesis r) as [g|] eqn:Eg in |- *; [|done]. apply authorizeFreshPodCreate_wp; try done. by apply HK.
  - apply completePodCreate_wp; try done. by apply HK.
  - apply fenceReservation_wp; try done. by apply HK.
  - apply releaseReservation_wp; try done. split_and!; by apply HK.
Qed.
End ops.

(** ** Replicas *)

(** Two controller replicas of one installation: the same limits and mode. *)
Record areplica (r r' : Reconciler) : Prop := {
  ar_jobs : MaxActiveJobs_ (r_Cfg r) = MaxActiveJobs_ (r_Cfg r');
  ar_share : MaxActiveJobsPerRequester (r_Cfg r) = MaxActiveJobsPerRequester (r_Cfg r');
  ar_slots : WorkerSlots (r_Cfg r) = WorkerSlots (r_Cfg r');
  ar_mode : r_Genesis r = None <-> r_Genesis r' = None }.

#[export] Instance areplica_equivalence : Equivalence areplica.
Proof.
  split.
  - by intros r.
  - intros r r' [? ? ? ?]. by split.
  - intros r1 r2 r3 [? ? ? ?] [? ? ? ?]. split; [congruence|congruence|congruence|]. by etransitivity.
Qed.

Section replicas.
Context `{External}.

Lemma qualifyActive_replica r r' cm : areplica r r' -> qualifyActive r cm = qualifyActive r' cm.
Proof.
  intros [Hj Hp Hw Hm]. unfold qualifyActive, validateReservationLimits, ValidateReservationCapacity. rewrite Hj, Hp, Hw.
  assert (bool_decide (is_Some (r_Genesis r)) = bool_decide (is_Some (r_Genesis r'))) as ->.
  { apply bool_decide_ext. rewrite <- !not_eq_None_Some. by rewrite Hm. }
  by rewrite (bool_decide_ext _ _ Hm).
Qed.

Context `{ApiServer}.

Lemma areads_replica r r' c st : areplica r r' -> areads r c st -> areads r' c st.
Proof. intros Hp. unfold areads. by rewrite (qualifyActive_replica r r'). Qed.

Lemma aeffect_replica r r' K o o' : areplica r r' -> active_effect r K o o' -> active_effect r' K o o'.
Proof.
  intros Hp. destruct 1 as [o|c HK Hg Hc|k c c' st st' HK Hc Hc' Hs].
  - constructor.
  - apply aeffect_init; [done|by apply (ar_mode _ _ Hp)|]. apply (areads_replica r); [done|].
    unfold freshReservations in *. by rewrite <- (ar_jobs _ _ Hp), <- (ar_share _ _ Hp), <- (ar_slots _ _ Hp).
  - eapply aeffect_step; try done; by apply (areads_replica r).
Qed.

#[export] Instance activeG_replica : Proper (areplica ==> eq ==> eq ==> eq ==> eq ==> iff) activeG.
Proof.
  assert (Hi : forall r r' ns K w w', areplica r r' -> activeG r ns K w w' -> activeG r' ns K w w').
  { intros r r' ns K w w' Hp [He Hv]. split; [by eapply aeffect_replica|done]. }
  intros r r' Hp ns ? <- K ? <- w ? <- w' ? <-. split; [by apply Hi|]. apply Hi. by symmetry.
Qed.

#[export] Instance acommitted_replica : Proper (areplica ==> eq ==> eq ==> eq ==> iff) acommitted.
Proof.
  intros r r' Hp ns ? <- w ? <- st ? <-. unfold acommitted, areads. by setoid_rewrite (qualifyActive_replica r r' _ Hp).
Qed.

(** ** Pools *)

Definition athread : Type := Reconciler * active_op.
Definition astart (ns : string) (t : athread) : prog active_answer := run_aop (fst t) ns (snd t).

Definition controllers (r : Reconciler) (ns : string) (ts : list athread) : Prop :=
  Forall (fun t => areplica r (fst t) /\ reconciler_ok (fst t) /\ in_namespace ns (snd t)) ts.

(** Every interleaving: each request is an allowed ledger step of what is
    committed, and each finished operation has met its contract. *)
Lemma controllers_sound r ns (K : akind -> Prop) ts w w' ps :
  controllers r ns ts -> (forall t k, t ∈ ts -> aop_kinds (snd t) k -> K k) ->
  pool_steps (w, astart ns <$> ts) (w', ps) ->
  rely w w' /\
  (forall i t a, ts !! i = Some t -> ps !! i = Some (Ret a) -> aop_post (fst t) ns (snd t) w' a) /\
  (forall I : world -> Prop, (forall w1 w2, I w1 -> rely w1 w2 -> activeG r ns K w1 w2 -> I w2) -> I w -> I w').
Proof.
  intros Hi HK Hps.
  set (Q := fun (i : nat) (w : world) (a : active_answer) => forall t, ts !! i = Some t -> aop_post (fst t) ns (snd t) w a).
  destruct (pool_sound (activeG r ns K) Q w (astart ns <$> ts) w' ps) as (Hr & Hw & HI); [| |done|].
  - intros i w1 w2 a Hr HQ t Ht. eapply aop_post_stable; [done|]. by apply HQ.
  - intros i p Hp. rewrite list_lookup_fmap in Hp. apply fmap_Some in Hp as (t & Ht & ->).
    eapply Forall_lookup_1 in Hi as (Hp & Hok & Hns); [|exact Ht].
    eapply wp_mono; [eapply wp_weaken; [|apply run_aop_wp with (K := K); [done|done|]]|].
    + intros w1 w2 _ HG. by rewrite Hp.
    + intros k. apply HK. by eapply list_elem_of_lookup_2.
    + intros w1 a _ Ha t' Ht'. by pose proof (eq_trans (eq_sym Ht) Ht') as [= <-].
  - split; [done|]. split; [|done]. intros i t a Ht Ha. exact (Hw _ _ Ha t Ht).
Qed.

(** ** Invariants *)

Definition active_live (r : Reconciler) (ns : string) (w : world) : Prop :=
  forall c, cm_now w (akey ns) = Some c -> exists st, areads r c st.

Lemma active_live_step r ns K w w' : active_live r ns w -> activeG r ns K w w' -> active_live r ns w'.
Proof.
  intros Hl [He _] c Hc. rewrite Hc in He.
  inversion He as [o Ho Ho'|c' HK Hg Hr Ho Ho'|k c0 c' st st' HK Hr Hr' Hs Ho Ho']; subst;
    [by apply Hl|by eexists|by eexists].
Qed.

(** An abstract step between the current readings of two worlds. *)
Lemma activeG_between r ns K w w' c c' st st' :
  activeG r ns K w w' -> cm_now w (akey ns) = Some c -> areads r c st ->
  cm_now w' (akey ns) = Some c' -> areads r c' st' ->
  st' = st \/ exists k, K k /\ active_step st k st'.
Proof.
  intros [He _] Hc Hr Hc' Hr'. rewrite Hc, Hc' in He.
  inversion He as [o Eo Eo'|c0 ? ? ? Eo Eo'|k c0 c0' s0 s0' HK Hr0 Hr0' Hs Eo Eo']; subst.
  - left. by eapply areads_functional.
  - right. exists k. assert (s0 = st) as -> by (by eapply areads_functional).
    by assert (s0' = st') as -> by (by eapply areads_functional).
Qed.

(** Every committed Pod attempt of [key] is the current one. *)
Definition one_attempt (r : Reconciler) (ns key : string) (w : world) : Prop :=
  forall st e, acommitted r ns w st -> active st !! key = Some e -> ar_PodAttemptNonce e <> "" ->
    exists c st' e', cm_now w (akey ns) = Some c /\ areads r c st' /\ active st' !! key = Some e' /\
      ar_PodAttemptNonce e' = ar_PodAttemptNonce e.

Lemma one_attempt_step r ns key K w w' :
  ~ K ADrop -> one_attempt r ns key w -> activeG r ns K w w' -> one_attempt r ns key w'.
Proof.
  intros HK Ho [He Hv] st e (rv & c & Hc & Hr) Hl Hne. destruct (Hv _ _ Hc) as [Hold|Hnew]; [|by exists c, st, e].
  destruct (Ho st e) as (c0 & st0 & e0 & Hn & Hr0 & Hl0 & Hi); [by exists rv, c|done|done|]. rewrite Hn in He.
  inversion He as [o Eo Eo'|c' ? ? ? Eo Eo'|k c1 c' st1 st1' HK1 Hr1 Hr1' Hs1 Eo Eo'].
  - exists c0, st0, e0. by split_and!.
  - subst c1. assert (st1 = st0) as -> by (by eapply areads_functional).
    destruct (active_step_keeps _ _ _ _ _ Hs1 ltac:(by intros ->) Hl0) as [e1 He1].
    exists c', st1', e1. split_and!; try done. pose proof (active_step_advances _ _ _ _ _ _ Hs1 Hl0 He1) as Ha.
    rewrite (ga_attempt _ _ Ha); congruence.
Qed.

(** A ledger that a reconciler reads is within the reconciler's limits. *)
Lemma areads_within r c st :
  areads r c st ->
  (Z.of_nat (size (active st)) <= MaxActiveJobs_ (r_Cfg r))%Z /\ (usedSlots (active st) <= WorkerSlots (r_Cfg r))%Z /\
  (forall q, (countRequester (active st) q <= MaxActiveJobsPerRequester (r_Cfg r))%Z).
Proof.
  intros (st' & [= <-] & _ & _ & Hok & Lj & Lp & Lw & _)%qualifyActive_inv. split_and!.
  - rewrite <- Lj. apply (ro_size st Hok).
  - rewrite <- Lw, usedSlots_sum. apply (ro_slots st Hok).
  - intros q. rewrite <- Lp, countRequester_grants. apply (ro_share st Hok).
Qed.

(** What happens to a grant in one step of the ledger. *)
Lemma activeG_grant r ns K w w' c c' st st' key e :
  activeG r ns K w w' -> cm_now w (akey ns) = Some c -> areads r c st -> cm_now w' (akey ns) = Some c' -> areads r c' st' ->
  active st !! key = Some e ->
  (exists e', active st' !! key = Some e' /\ grant_advances e e') \/
  (active st' !! key = None /\ ar_Closing e = true /\ ar_InFlight e = [] /\ (r_Genesis r <> None -> receipts_settled e)).
Proof.
  intros HG Hc Hrd Hc' Hrd' Hl.
  pose proof Hrd as (st0 & [= <-] & _ & _ & _ & _ & _ & _ & Lv & _)%qualifyActive_inv.
  destruct (activeG_between _ _ _ _ _ _ _ _ _ HG Hc Hrd Hc' Hrd') as [->|(k & _ & Hk)].
  { left. exists e. split; [done|apply grant_advances_refl]. }
  destruct (active st' !! key) as [e'|] eqn:Hl'.
  { left. exists e'. split; [done|]. by eapply active_step_advances. }
  right. split; [done|]. destruct (decide (k = ADrop)) as [->|Hne].
  2:{ destruct (active_step_keeps _ _ _ _ _ Hk Hne Hl) as [e' He']. congruence. }
  inversion Hk as [? key0 e0 e0' ? Hed| | | |key0 e0 Hl0 Hcl Hf Hs]; subst; [by inversion Hed|].
  rewrite active_drop in Hl'. apply lookup_delete_None in Hl' as [->|?]; [|congruence]. simplify_eq.
  split_and!; try done. intros Hg. apply Hs. rewrite Lv. by rewrite decide_False.
Qed.
End replicas.

(** ** Claims *)

Section claims.
Context `{External} `{ApiServer}.
Implicit Types (r : Reconciler) (op : active_op) (w : world).

Lemma run_aop_guarantee r ns op w (G : world -> world -> Prop) :
  reconciler_ok r -> in_namespace ns op -> (forall w1 w2, activeG r ns (aop_kinds op) w1 w2 -> G w1 w2) ->
  wp G (run_aop r ns op) (fun _ _ => True) w.
Proof.
  intros Hr Hns HG. eapply wp_weaken; [|eapply wp_mono; [by apply (run_aop_wp r ns (aop_kinds op))|done]]. eauto.
Qed.

(** C2: Refinement of the capacity ledger.  Whatever other clients do between any
    two of its requests, every request of every reconciler operation leaves the
    active ledger alone or replaces the version committed at that moment by one
    abstract step of a kind that operation is entitled to; and an admission, a Pod
    attempt, a pin, an issue fence, a completion, a cleanup fence or a release
    that reports success was true of a committed ledger. *)
Theorem reconciler_operation_refines r ns op w :
  reconciler_ok r -> in_namespace ns op -> wp (activeG r ns (aop_kinds op)) (run_aop r ns op) (aop_post r ns op) w.
Proof. intros Hr Hns. by apply run_aop_wp. Qed.

(** Capacity is never overcommitted.  For any number of controller replicas in
    any interleaving, the current active ledger stays readable by every replica,
    holds at most [MaxActiveJobs] grants and [WorkerSlots] slots, and at most
    [MaxActiveJobsPerRequester] grants of one requester. *)
Theorem controllers_never_overcommit r ns ts w w' ps c :
  controllers r ns ts -> active_live r ns w -> pool_steps (w, astart ns <$> ts) (w', ps) -> cm_now w' (akey ns) = Some c ->
  exists st, (forall t, t ∈ ts -> areads (fst t) c st) /\
    (Z.of_nat (size (active st)) <= MaxActiveJobs_ (r_Cfg r))%Z /\ (usedSlots (active st) <= WorkerSlots (r_Cfg r))%Z /\
    (forall q, (countRequester (active st) q <= MaxActiveJobsPerRequester (r_Cfg r))%Z).
Proof.
  intros Hi Hl Hp Hc. destruct (controllers_sound r ns (fun _ => True) ts w w' ps) as (_ & _ & HI); [done|done|done|].
  destruct (HI (active_live r ns)) with (c := c) as (st & Hst); [|done|done|].
  { intros w1 w2 Hl1 _. by apply active_live_step. }
  exists st. split; [|by eapply areads_within].
  intros t Ht. eapply Forall_forall in Hi as (Hrep & _); [|exact Ht]. by eapply areads_replica.
Qed.

(** Grants only advance.  No request of any operation changes the build,
    requester, slots, nonce or fence of a grant that stays, rewrites a link, a Pod
    attempt or a template digest that is set, or lowers a cleanup flag; once a
    grant is closing it stays closing and no Pod attempt is added to it. *)
Theorem grants_only_advance r ns op w :
  reconciler_ok r -> in_namespace ns op ->
  wp (fun w1 w2 => forall c c' st st' key e e', cm_now w1 (akey ns) = Some c -> areads r c st ->
        cm_now w2 (akey ns) = Some c' -> areads r c' st' ->
        active st !! key = Some e -> active st' !! key = Some e' -> grant_advances e e')
    (run_aop r ns op) (fun _ _ => True) w.
Proof.
  intros Hr Hns. apply run_aop_guarantee; [done|done|]. intros w1 w2 HG c c' st st' key e e' Hc Hrd Hc' Hrd' Hl Hl'.
  destruct (activeG_grant _ _ _ _ _ _ _ _ _ _ _ HG Hc Hrd Hc' Hrd' Hl) as [(e1 & ? & ?)|(? & _)]; congruence.
Qed.

(** C6: Capacity is returned last.  A request removes a grant only if the grant is
    closing and has no Pod attempt in flight; under Genesis, moreover, every
    receipt it armed carries a durable cleanup disposition. *)
Theorem grant_removed_only_settled r ns op w :
  reconciler_ok r -> in_namespace ns op ->
  wp (fun w1 w2 => forall c c' st st' key e, cm_now w1 (akey ns) = Some c -> areads r c st ->
        cm_now w2 (akey ns) = Some c' -> areads r c' st' ->
        active st !! key = Some e -> active st' !! key = None ->
        ar_Closing e = true /\ ar_InFlight e = [] /\ (r_Genesis r <> None -> receipts_settled e))
    (run_aop r ns op) (fun _ _ => True) w.
Proof.
  intros Hr Hns. apply run_aop_guarantee; [done|done|]. intros w1 w2 HG c c' st st' key e Hc Hrd Hc' Hrd' Hl Hl'.
  destruct (activeG_grant _ _ _ _ _ _ _ _ _ _ _ HG Hc Hrd Hc' Hrd' Hl) as [(e1 & ? & ?)|(_ & ?)]; [congruence|done].
Qed.

(** C5: One Pod attempt per Genesis grant.  Start from a ledger in which the
    build's grant, if any, has no Pod attempt.  While no replica releases grants, all
    [beginPodCreate] calls that succeed for one build, on all replicas and in
    every interleaving, return the same attempt nonce: a second runner Pod is
    never authorised beside the first. *)
Theorem one_pod_attempt_per_grant r ns ts w w' ps key i j r1 r2 b1 b2 n1 n2 :
  controllers r ns ts -> (forall t, t ∈ ts -> drops (snd t) = false) -> r_Genesis r <> None ->
  (forall st e, acommitted r ns w st -> active st !! key = Some e -> ar_PodAttemptNonce e = "") ->
  pool_steps (w, astart ns <$> ts) (w', ps) ->
  ts !! i = Some (r1, AOpBegin b1) -> reservationKey b1 = key -> ps !! i = Some (Ret (AAttempt (Ok n1))) ->
  ts !! j = Some (r2, AOpBegin b2) -> reservationKey b2 = key -> ps !! j = Some (Ret (AAttempt (Ok n2))) ->
  n1 = n2.
Proof.
  intros Hi Hdrop Hg Hnone Hp H1 E1 R1 H2 E2 R2.
  destruct (controllers_sound r ns (fun k => k <> ADrop) ts w w' ps) as (_ & HQ & HI); [done| |done|].
  { intros t k Ht Hk ->. specialize (Hdrop t Ht). by destruct t as [rt []]. }
  assert (Ho : one_attempt r ns key w').
  { apply HI.
    - intros w1 w2 Hw1 _. apply one_attempt_step; [by intros Hn; apply Hn|done].
    - intros st e Hst He Hne. by rewrite (Hnone st e Hst He) in Hne. }
  assert (Hseen : forall i rt b n, ts !! i = Some (rt, AOpBegin b) -> reservationKey b = key ->
            ps !! i = Some (Ret (AAttempt (Ok n))) -> exists c st e, cm_now w' (akey ns) = Some c /\
            areads r c st /\ active st !! key = Some e /\ ar_PodAttemptNonce e = n).
  { intros i0 rt b n Ht Eb Ha. destruct (HQ _ _ _ Ht Ha n eq_refl) as (Hne & e & (st & Hst & Hl) & Hatt). simpl in *.
    eapply Forall_lookup_1 in Hi as (Hrep & _); [|exact Ht]. simpl in Hrep. rewrite <- Hrep in Hst. rewrite Eb in Hl.
    unfold attempted in Hatt. destruct (r_Genesis rt) as [g|] eqn:Eg; [|by destruct Hg; apply (ar_mode _ _ Hrep)].
    destruct (Ho st e Hst Hl) as (c & st' & e' & ? & ? & ? & ?); [congruence|]. exists c, st', e'. split_and!; congruence. }
  destruct (Hseen _ _ _ _ H1 E1 R1) as (c & st & e & Hc & Hr & Hl & <-).
  destruct (Hseen _ _ _ _ H2 E2 R2) as (c' & st' & e' & Hc' & Hr' & Hl' & <-).
  simplify_eq. assert (st = st') as -> by (by eapply areads_functional). by simplify_eq.
Qed.

(** C37: The active ledger is always writable.  A state that satisfies the ledger
    invariant, with uint64 fences, is encoded within its configured bound
    ([8192 + 6000 * MaxJobs] bytes, at most 768 KiB) and decodes to itself. *)
Theorem active_ledger_roundtrip st :
  reservationsOK st -> uint64Reservations st ->
  exists data0, encodeReservations st = Ok data0 /\ (slen data0 <= 8192 + 6000 * rs_MaxJobs st <= 786432)%Z /\
    parseReservations data0 = Ok st.
Proof.
  intros Hok Hu. exists (json_print (json_of_reservations st)). split_and!.
  - by apply encodeReservations_fits.
  - pose proof (reservations_len st Hok Hu) as Hl. unfold maxReservationHeaderBytes, maxReservationEntryBytes in Hl. lia.
  - pose proof (ro_capacity st Hok) as Hc. apply capacity_spec in Hc. lia.
  - by apply parseReservations_print.
Qed.

Lemma validateActive_order version slots per l l' :
  l ≡ₚ l' -> validateActive version slots per l 0 ∅ = None -> validateActive version slots per l' 0 ∅ = None.
Proof.
  rewrite !validateActive_spec. intros Hp (Hg & Hs & Hc). split_and!.
  - by rewrite <- Hp.
  - intros Hn. rewrite <- Hp. apply Hs. intros ->. apply Hn. by apply Permutation_nil.
  - intros q. rewrite <- Hp. apply Hc.
Qed.

(** [validateReservationState] accepts exactly the ledgers within the job,
    slot and per-requester capacities whose entries are well formed for their
    protocol version, in whatever order Go ranges over the grants. *)
Theorem validateReservationState_decides st l :
  l ≡ₚ map_to_list (active st) ->
  (validateReservationState st = None <-> reservationsOK st) /\
  (validateActive (rs_Version st) (rs_WorkerSlots st) (rs_MaxPerRequester st) l 0 ∅ = None <->
   validateActive (rs_Version st) (rs_WorkerSlots st) (rs_MaxPerRequester st) (map_to_list (active st)) 0 ∅ = None).
Proof.
  intros Hl. split; [apply validateReservationState_ok|]. split; apply validateActive_order; by rewrite Hl.
Qed.
End claims.

(** ** Witnesses: two Genesis controllers start the Pod of one admitted build *)

Definition ex_reconciler : Reconciler := mkReconciler true true true true (Some ex_guard) ex_config.

Lemma ex_reconciler_ok : reconciler_ok ex_reconciler.
Proof. split; [apply ex_bootstrap_valid|done]. Qed.

(** The cluster after the build's admission. *)
Definition ex_admitted : active_answer * cluster :=
  Eval vm_compute in run (run_aop ex_reconciler "kova" (AOpAdmit ex_build)) ex_cluster.
Definition ex_granted : cluster := snd ex_admitted.

Example ex_admission_succeeds : fst ex_admitted = ADecided (Ok (admitted 3)).
Proof. reflexivity. Qed.

Lemma reconciler_operation_refines_witness :
  reconciler_ok ex_reconciler /\
  wp (activeG ex_reconciler "kova" (aop_kinds (AOpAdmit ex_build))) (run_aop ex_reconciler "kova" (AOpAdmit ex_build))
    (aop_post ex_reconciler "kova" (AOpAdmit ex_build)) (ex_cluster : world).
Proof.
  split; [exact ex_reconciler_ok|].
  exact (reconciler_operation_refines ex_reconciler "kova" (AOpAdmit ex_build) ex_cluster ex_reconciler_ok eq_refl).
Defined.

Definition ex_controllers : list athread := [(ex_reconciler, AOpBegin ex_build); (ex_reconciler, AOpBegin ex_build)].

Lemma ex_controllers_ok : controllers ex_reconciler "kova" ex_controllers.
Proof. repeat constructor; simpl; done || apply ex_reconciler_ok. Qed.

Definition ex_begun1 : active_answer * cluster :=
  Eval vm_compute in run (run_aop ex_reconciler "kova" (AOpBegin ex_build)) ex_granted.
Definition ex_begun2 : active_answer * cluster :=
  Eval vm_compute in run (run_aop ex_reconciler "kova" (AOpBegin ex_build)) (snd ex_begun1).

Lemma ex_run1 : run (run_aop ex_reconciler "kova" (AOpBegin ex_build)) ex_granted = ex_begun1.
Proof. vm_compute. reflexivity. Qed.
Lemma ex_run2 : run (run_aop ex_reconciler "kova" (AOpBegin ex_build)) (snd ex_begun1) = ex_begun2.
Proof. vm_compute. reflexivity. Qed.

Definition ex_begun : list (prog active_answer) := [Ret (fst ex_begun1); Ret (fst ex_begun2)].

Lemma ex_begin_pool : pool_steps (ex_granted, astart "kova" <$> ex_controllers) (snd ex_begun2, ex_begun).
Proof.
  pose proof (run_two (run_aop ex_reconciler "kova" (AOpBegin ex_build)) (run_aop ex_reconciler "kova" (AOpBegin ex_build)) ex_granted) as Hp.
  rewrite ex_run1, ex_run2 in Hp. exact Hp.
Qed.

(** Reading every committed version of the ledger. *)
Definition ex_reading (c : ConfigMap) : option reservationState :=
  match qualifyActive ex_reconciler c with Ok (_, st) => Some st | Err _ => None end.

Lemma ex_committed_forall (P : reservationState -> bool) (w : cluster) :
  forallb (fun c => match ex_reading c with Some st => P st | None => true end) (versions w (akey "kova")) = true ->
  forall st, acommitted ex_reconciler "kova" (w : world) st -> P st = true.
Proof.
  intros Hall st (rv & c & Hv & Hr). apply find_version_elem in Hv as [Hv _]. rewrite forallb_forall in Hall.
  specialize (Hall c). rewrite <- list_elem_of_In in Hall. specialize (Hall Hv).
  unfold ex_reading in Hall. unfold areads in Hr. by rewrite Hr in Hall.
Qed.

Lemma ex_unattempted st e :
  acommitted ex_reconciler "kova" (ex_granted : world) st -> active st !! "build-uid-1" = Some e -> ar_PodAttemptNonce e = "".
Proof.
  intros Hst He. pose proof (ex_committed_forall
    (fun st => match active st !! "build-uid-1" with Some e => sempty (ar_PodAttemptNonce e) | None => true end) ex_granted) as Hall.
  specialize (Hall ltac:(vm_compute; reflexivity) st Hst). cbv beta in Hall. rewrite He in Hall. by bool_simpl.
Qed.

Lemma ex_granted_live : active_live ex_reconciler "kova" (ex_granted : world).
Proof.
  intros c Hc. assert (Hr : is_Some (ex_reading c)).
  { change (now ex_granted (akey "kova") = Some c) in Hc.
    assert (Hb : match now ex_granted (akey "kova") with Some c => bool_decide (is_Some (ex_reading c)) | None => true end = true)
      by (vm_compute; reflexivity).
    rewrite Hc in Hb. by apply bool_decide_eq_true in Hb. }
  destruct Hr as [st Hr]. unfold ex_reading in Hr. destruct (qualifyActive ex_reconciler c) as [[c' st']|] eqn:Eq; [|done].
  exists st'. unfold areads. by pose proof Eq as (st0 & [= -> <-] & _)%qualifyActive_inv.
Qed.

Definition ex_begun_ledger : ConfigMap := default ex_genesis (now (snd ex_begun2) (akey "kova")).

Lemma controllers_never_overcommit_witness :
  exists st, (forall t, t ∈ ex_controllers -> areads (fst t) ex_begun_ledger st) /\
    (Z.of_nat (size (active st)) <= 4)%Z /\ (usedSlots (active st) <= 8)%Z /\
    (forall q, (countRequester (active st) q <= 2)%Z).
Proof.
  refine (controllers_never_overcommit ex_reconciler "kova" ex_controllers ex_granted (snd ex_begun2) ex_begun ex_begun_ledger
    ex_controllers_ok ex_granted_live ex_begin_pool _).
  vm_compute. reflexivity.
Defined.

Lemma grants_only_advance_witness :
  reconciler_ok ex_reconciler /\
  wp (fun w1 w2 => forall c c' st st' key e e', cm_now w1 (akey "kova") = Some c -> areads ex_reconciler c st ->
        cm_now w2 (akey "kova") = Some c' -> areads ex_reconciler c' st' ->
        active st !! key = Some e -> active st' !! key = Some e' -> grant_advances e e')
    (run_aop ex_reconciler "kova" (AOpFence ex_build)) (fun _ _ => True) (ex_granted : world).
Proof.
  split; [exact ex_reconciler_ok|].
  exact (grants_only_advance ex_reconciler "kova" (AOpFence ex_build) ex_granted ex_reconciler_ok eq_refl).
Defined.

Lemma grant_removed_only_settled_witness :
  reconciler_ok ex_reconciler /\
  wp (fun w1 w2 => forall c c' st st' key e, cm_now w1 (akey "kova") = Some c -> areads ex_reconciler c st ->
        cm_now w2 (akey "kova") = Some c' -> areads ex_reconciler c' st' ->
        active st !! key = Some e -> active st' !! key = None ->
        ar_Closing e = true /\ ar_InFlight e = [] /\ (r_Genesis ex_reconciler <> None -> receipts_settled e))
    (run_aop ex_reconciler "kova" (AOpRelease ex_build)) (fun _ _ => True) (ex_granted : world).
Proof.
  split; [exact ex_reconciler_ok|].
  exact (grant_removed_only_settled ex_reconciler "kova" (AOpRelease ex_build) ex_granted ex_reconciler_ok eq_refl).
Defined.

Lemma one_pod_attempt_per_grant_witness :
  ex_begun !! 0 = Some (Ret (AAttempt (Ok "00000000000000000000000000000006"))) /\
  ("00000000000000000000000000000006" = "00000000000000000000000000000006")%string.
Proof.
  assert (E : ex_begun !! 0 = Some (Ret (AAttempt (Ok "00000000000000000000000000000006")))) by reflexivity.
  split; [exact E|].
  refine (one_pod_attempt_per_grant ex_reconciler "kova" ex_controllers ex_granted (snd ex_begun2) ex_begun "build-uid-1" 0 0
    ex_reconciler ex_reconciler ex_build ex_build _ _ ex_controllers_ok _ _ ex_unattempted ex_begin_pool eq_refl eq_refl E
    eq_refl eq_refl E).
  - intros t [->|[->|[]%elem_of_nil]%elem_of_cons]%elem_of_cons; reflexivity.
  - discriminate.
Defined.

Definition ex_ledger_state : reservationState := mkReservations 1 7 4 2 8 ""
  (Some {["uid-a0" := mkReservation "a0" "alice" 4 "" 0 "" "" "" false "" "" "" "" false false []]}).

Lemma ex_ledger_state_ok : reservationsOK ex_ledger_state /\ uint64Reservations ex_ledger_state.
Proof.
  split; [apply validateReservationState_ok; vm_compute; reflexivity|]. split; [simpl; lia|].
  intros k e He. unfold active, ex_ledger_state in He. simpl in He. apply lookup_singleton_Some in He as [_ <-]. simpl. lia.
Qed.

Lemma active_ledger_roundtrip_witness :
  exists data0, encodeReservations ex_ledger_state = Ok data0 /\ (slen data0 <= 8192 + 6000 * 4 <= 786432)%Z /\
    parseReservations data0 = Ok ex_ledger_state.
Proof. exact (active_ledger_roundtrip ex_ledger_state (proj1 ex_ledger_state_ok) (proj2 ex_ledger_state_ok)). Defined.

Lemma validateReservationState_decides_witness :
  validateReservationState ex_ledger_state = None <-> reservationsOK ex_ledger_state.
Proof. apply (validateReservationState_decides ex_ledger_state (map_to_list (active ex_ledger_state))). reflexivity. Defined.
