(* ===== verification/Coordinator.v ===== *)
(** * The in-process admission coordinator

    [internal/service/buildcontroller/admission_coordinator.go].  One mutex
    protects every field, so each exported call is one atomic transition of the
    coordinator; [ctrace] interleaves the calls of any number of goroutines
    with the Pump's receives from the release channel.

    A [*freshGrantPermit] is compared by pointer, so a permit is its address:
    [co_next] is the allocator, which never hands out an address twice.
    [co_generation] is a uint64 and wraps. *)
From S2P Require Import Prelude GoText Json Types Sha256 Kube.

Definition admissionReleaseRequestName : string := "kova-service-admission-release".

(** [event.GenericEvent]: the namespace and name of its object. *)
Record GenericEvent := mkEvent { ev_ns : string; ev_name : string }.

(** [freshGrantPermit]: its address and whether its [owner] is this coordinator. *)
Record freshGrantPermit := mkPermit { pm_addr : nat; pm_owned : bool }.

#[export] Instance freshGrantPermit_eq_dec : EqDecision freshGrantPermit.
Proof. solve_decision. Defined.

Record AdmissionCoordinator := mkCoordinator {
  co_namespace : string;
  co_holder : option freshGrantPermit;
  co_pending : bool;
  co_generation : Z;
  co_release : option (list GenericEvent);   (* a nil channel, or the buffer of capacity 1 *)
  co_next : nat }.

Definition NewAdmissionCoordinator (namespace : string) : AdmissionCoordinator :=
  mkCoordinator namespace None false 0 (Some []) 0.

Definition with_pending (g : AdmissionCoordinator) : AdmissionCoordinator :=
  mkCoordinator (co_namespace g) (co_holder g) true (co_generation g) (co_release g) (co_next g).

(** A nil receiver is [None]. *)
Definition coordinator_validate (g : option AdmissionCoordinator) (namespace : string) : option error :=
  match g with
  | Some g =>
      if sempty namespace || negb (seqb (co_namespace g) namespace) || bool_decide (co_release g = None)
      then Some (Plain "local admission coordinator differs from configured Namespace")
      else None
  | None => Some (Plain "local admission coordinator differs from configured Namespace")
  end.

(** [ctx1] and [ctx2] are the answers of [ctx.Err()] before and under the lock. *)
Definition tryBegin (g : AdmissionCoordinator) (ctx1 ctx2 : option error) (namespace : string)
    : AdmissionCoordinator * result (option freshGrantPermit) :=
  match coordinator_validate (Some g) namespace with
  | Some err => (g, Err err)
  | None =>
      match ctx1, ctx2 with
      | Some err, _ => (g, Err err)
      | None, Some err => (g, Err err)
      | None, None =>
          match co_holder g with
          | Some _ => (with_pending g, Ok None)
          | None =>
              let permit := mkPermit (co_next g) true in
              (mkCoordinator (co_namespace g) (Some permit) (co_pending g) (co_generation g) (co_release g)
                 (S (co_next g)), Ok (Some permit))
          end
      end
  end.

Definition deferIfBusy (g : AdmissionCoordinator) (namespace : string)
    : AdmissionCoordinator * result (bool * Z) :=
  match coordinator_validate (Some g) namespace with
  | Some err => (g, Err err)
  | None =>
      match co_holder g with
      | Some _ => (with_pending g, Ok (true, co_generation g))
      | None => (g, Ok (false, co_generation g))
      end
  end.

(** [select { case ch <- e: default: }] on a buffer of capacity 1; a send on a
    nil channel never proceeds. *)
Definition offer (ch : option (list GenericEvent)) (e : GenericEvent) : option (list GenericEvent) :=
  match ch with
  | Some [] => Some [e]
  | _ => ch
  end.

Definition releaseEvent (namespace : string) : GenericEvent := mkEvent namespace admissionReleaseRequestName.

Definition release (p : option freshGrantPermit) (g : AdmissionCoordinator) : AdmissionCoordinator :=
  match p with
  | Some p =>
      if negb (pm_owned p) then g
      else if negb (bool_decide (co_holder g = Some p)) then g
      else
        let generation := ((co_generation g + 1) mod 2 ^ 64)%Z in
        if negb (co_pending g)
        then mkCoordinator (co_namespace g) None false generation (co_release g) (co_next g)
        else mkCoordinator (co_namespace g) None false generation
               (offer (co_release g) (releaseEvent (co_namespace g))) (co_next g)
  | None => g
  end.

(** The Pump's receive from [ReleaseEvents]. *)
Definition ReleaseEvents (g : AdmissionCoordinator) : AdmissionCoordinator * option GenericEvent :=
  match co_release g with
  | Some (e :: ch) =>
      (mkCoordinator (co_namespace g) (co_holder g) (co_pending g) (co_generation g) (Some ch) (co_next g), Some e)
  | _ => (g, None)
  end.

(** ** Interleavings *)

Inductive ccall :=
| CTryBegin (ctx1 ctx2 : option error) (namespace : string) (r : result (option freshGrantPermit))
| CDefer (namespace : string) (r : result (bool * Z))
| CRelease (p : option freshGrantPermit)
| CReceive (e : option GenericEvent).

(** The call with its answer, as one transition. *)
Inductive cstep (g : AdmissionCoordinator) : ccall -> AdmissionCoordinator -> Prop :=
| cstep_begin ctx1 ctx2 ns : cstep g (CTryBegin ctx1 ctx2 ns (snd (tryBegin g ctx1 ctx2 ns))) (fst (tryBegin g ctx1 ctx2 ns))
| cstep_defer ns : cstep g (CDefer ns (snd (deferIfBusy g ns))) (fst (deferIfBusy g ns))
| cstep_release p : cstep g (CRelease p) (release p g)
| cstep_receive : cstep g (CReceive (snd (ReleaseEvents g))) (fst (ReleaseEvents g)).

Inductive ctrace : AdmissionCoordinator -> list ccall -> AdmissionCoordinator -> Prop :=
| ctrace_nil g : ctrace g [] g
| ctrace_cons g c g1 t g2 : cstep g c g1 -> ctrace g1 t g2 -> ctrace g (c :: t) g2.

(** A call that was told to come back after the current holder. *)
Definition told_busy (c : ccall) : bool :=
  match c with
  | CTryBegin _ _ _ (Ok None) => true
  | CDefer _ (Ok (true, _)) => true
  | _ => false
  end.

Definition received (c : ccall) : bool :=
  match c with CReceive (Some _) => true | _ => false end.

Definition releases (p : freshGrantPermit) (c : ccall) : bool :=
  match c with CRelease (Some q) => bool_decide (q = p) | _ => false end.

Definition is_release (c : ccall) : bool :=
  match c with CRelease _ => true | _ => false end.

Definition granted (c : ccall) : option freshGrantPermit :=
  match c with CTryBegin _ _ _ (Ok (Some p)) => Some p | _ => None end.

(** ** Invariant and the steps one at a time *)

(** The channel is the live one and holds release events only; addresses in use
    are below the allocator. *)
Record coordinator_ok (ns : string) (g : AdmissionCoordinator) : Prop := {
  ok_namespace : co_namespace g = ns;
  ok_channel : co_release g = Some [] \/ co_release g = Some [releaseEvent ns];
  ok_holder : forall p, co_holder g = Some p -> pm_owned p = true /\ pm_addr p < co_next g;
  ok_generation : (0 <= co_generation g < 2 ^ 64)%Z }.

Lemma new_ok ns : coordinator_ok ns (NewAdmissionCoordinator ns).
Proof. by split; [|left| |]. Qed.

Ltac coordinator_cases :=
  repeat match goal with
  | H : context [match ?x with _ => _ end] |- _ => let E := fresh "E" in destruct x eqn:E; simpl in *
  | |- context [match ?x with _ => _ end] => let E := fresh "E" in destruct x eqn:E; simpl in *
  end; simplify_eq/=.

Lemma cstep_ok ns g c g' : cstep g c g' -> coordinator_ok ns g -> coordinator_ok ns g'.
Proof.
  intros Hs [Hns Hch Hho Hge].
  destruct Hs; unfold tryBegin, deferIfBusy, release, ReleaseEvents, offer, with_pending; coordinator_cases;
    split; simpl; try done; try (by destruct Hch as [Ech|Ech]; simplify_eq/=; auto);
    try (apply Z.mod_pos_bound; lia).
  - intros p [= <-]. simpl. split; [done|lia].
  - intros p Hp. apply Hho. congruence.
Qed.

Lemma ctrace_ok ns g t g' : ctrace g t g' -> coordinator_ok ns g -> coordinator_ok ns g'.
Proof. induction 1 as [|g c g1 t g2 Hs Ht IH]; eauto using cstep_ok. Qed.

Lemma ctrace_app g t1 t2 g' : ctrace g (t1 ++ t2) g' <-> exists g1, ctrace g t1 g1 /\ ctrace g1 t2 g'.
Proof.
  revert g. induction t1 as [|c t1 IH]; intros g; simpl.
  - split; [intros Ht; exists g; split; [constructor|done]|].
    intros (g1 & H1 & H2). by inversion H1; subst.
  - split.
    + inversion 1 as [|? ? g1 ? ? Hs Ht]; subst. apply IH in Ht as (g2 & H1 & H2).
      exists g2. split; [by econstructor|done].
    + intros (g2 & H1 & H2). inversion H1 as [|? ? g1 ? ? Hs Ht]; subst.
      econstructor; [done|]. apply IH. eauto.
Qed.

Lemma ctrace_one g c g' : ctrace g [c] g' <-> cstep g c g'.
Proof.
  split; [|intros; by econstructor; [|constructor]].
  inversion 1 as [|? ? g1 ? ? Hs Ht]; subst. by inversion Ht; subst.
Qed.

(** A held permit stays held until it is released. *)
Lemma holder_step p g c g' :
  cstep g c g' -> co_holder g = Some p -> releases p c = false -> co_holder g' = Some p.
Proof.
  intros Hs Hp Hr. destruct Hs; simpl in Hr;
    unfold tryBegin, deferIfBusy, release, ReleaseEvents, with_pending; coordinator_cases; try done.
  all: rewrite bool_decide_eq_false in Hr; exfalso; apply Hr; repeat case_bool_decide; simplify_eq/=; done.
Qed.


Lemma holder_trace p g t g' :
  ctrace g t g' -> co_holder g = Some p -> existsb (releases p) t = false -> co_holder g' = Some p.
Proof.
  induction 1 as [|g c g1 t g2 Hs Ht IH]; simpl; [done|].
  intros Hp [Hc Hr]%orb_false_iff. apply IH; [by eapply holder_step|done].
Qed.

(** A permit is granted only to an idle coordinator, at a new address. *)
Lemma granted_step p g c g' :
  cstep g c g' -> granted c = Some p ->
  co_holder g = None /\ co_holder g' = Some p /\ pm_addr p = co_next g /\ co_next g' = S (co_next g).
Proof.
  intros Hs Hg. destruct Hs; simpl in Hg; try done.
  unfold tryBegin in *; coordinator_cases; done.
Qed.

Lemma next_step g c g' : cstep g c g' -> co_next g <= co_next g'.
Proof.
  destruct 1; unfold tryBegin, deferIfBusy, release, ReleaseEvents, with_pending; coordinator_cases; lia.
Qed.

Lemma next_trace g t g' : ctrace g t g' -> co_next g <= co_next g'.
Proof. induction 1 as [|g c g1 t g2 Hs Ht IH]; [lia|]. apply next_step in Hs. lia. Qed.

(** Demand that the Pump will hear of: it is registered with the holder, or its
    event waits in the channel. *)
Definition demand_kept (ns : string) (g : AdmissionCoordinator) : Prop :=
  (is_Some (co_holder g) /\ co_pending g = true) \/ co_release g = Some [releaseEvent ns].

Lemma busy_demands ns g c g' : cstep g c g' -> told_busy c = true -> demand_kept ns g'.
Proof.
  intros Hs Hb. left. destruct Hs; simpl in Hb; unfold tryBegin, deferIfBusy, with_pending in *;
    coordinator_cases; eauto.
Qed.

Lemma demand_step ns g c g' :
  cstep g c g' -> coordinator_ok ns g -> received c = false -> demand_kept ns g -> demand_kept ns g'.
Proof.
  intros Hs [Hns Hch _ _] Hr Hd.
  assert (Hev : offer (co_release g) (releaseEvent (co_namespace g)) = Some [releaseEvent ns]).
  { destruct Hch as [-> | ->]; simpl; by rewrite ?Hns. }
  destruct Hd as [[[p Hp] Hpe]|Hq];
    destruct Hs; simpl in Hr; unfold demand_kept, tryBegin, deferIfBusy, release, ReleaseEvents, with_pending in *;
    rewrite ?Hev; coordinator_cases; eauto; left; rewrite ?Hp; eauto.
  by rewrite Hpe in E2.
Qed.

Lemma demand_trace ns g t g' :
  ctrace g t g' -> coordinator_ok ns g -> existsb received t = false -> demand_kept ns g -> demand_kept ns g'.
Proof.
  induction 1 as [|g c g1 t g2 Hs Ht IH]; simpl; [done|].
  intros Hok [Hc Hr]%orb_false_iff Hd. apply IH; eauto using cstep_ok, demand_step.
Qed.

(** The generation counts the releases that ended an interval. *)
Lemma generation_step g c g' :
  cstep g c g' ->
  (co_generation g' = co_generation g /\ (co_holder g' = None -> co_holder g = None /\ granted c = None)) \/
  (is_release c = true /\ co_generation g' = ((co_generation g + 1) mod 2 ^ 64)%Z).
Proof.
  destruct 1; simpl; unfold tryBegin, deferIfBusy, release, ReleaseEvents, with_pending; coordinator_cases; eauto.
Qed.

Definition release_count (t : list ccall) : nat := List.length (List.filter is_release t).

Lemma generation_trace ns g t g' :
  ctrace g t g' -> coordinator_ok ns g ->
  exists n, n <= release_count t /\ co_generation g' = ((co_generation g + Z.of_nat n) mod 2 ^ 64)%Z /\
    (n = 0 -> co_holder g' = None -> co_holder g = None /\ Forall (fun c => granted c = None) t).
Proof.
  induction 1 as [g|g c g1 t g2 Hs Ht IH]; intros Hok.
  { exists 0. split; [unfold release_count; simpl; lia|]. split; [|by auto].
    rewrite Z.add_0_r, Z.mod_small; [done|apply (ok_generation _ _ Hok)]. }
  destruct (IH (cstep_ok _ _ _ _ Hs Hok)) as (n & Hn & Hg & H0).
  destruct (generation_step _ _ _ Hs) as [[E Hh]|[Hr E]]; rewrite E in Hg.
  - exists n. split; [unfold release_count in *; simpl; destruct (is_release c); simpl; lia|]. split; [done|].
    intros En Hi. destruct (H0 En Hi) as [Hi1 Hf]. destruct (Hh Hi1). eauto.
  - exists (S n). split; [unfold release_count in *; simpl; rewrite Hr; simpl; lia|]. split; [|lia].
    rewrite Hg, Zplus_mod_idemp_l. f_equal. lia.
Qed.

(** ** Claims *)

(** At most one fresh grant runs at a time.  In every interleaving of
    [tryBegin], [deferIfBusy], [release] and receives, two permits granted by
    the same coordinator are different pointers, and before the second is
    granted the first has been released by a [release] on that very permit: a
    duplicate release, or one of any other permit, never opens a successor's
    interval. *)
Theorem permits_are_exclusive ns t1 c1 p1 t2 c2 p2 g :
  ctrace (NewAdmissionCoordinator ns) (t1 ++ c1 :: t2 ++ [c2]) g ->
  granted c1 = Some p1 -> granted c2 = Some p2 ->
  p1 <> p2 /\ existsb (releases p1) t2 = true.
Proof.
  intros Ht Hg1 Hg2. apply ctrace_app in Ht as (ga & _ & Ht).
  inversion Ht as [|? ? gb ? ? Hs1 Ht2]; subst. apply ctrace_app in Ht2 as (gc & Ht2 & Hs2%ctrace_one).
  apply granted_step with (p := p1) in Hs1 as (_ & Hb & Ha1 & Hn1); [|done].
  apply granted_step with (p := p2) in Hs2 as (Hc & _ & Ha2 & _); [|done].
  apply next_trace in Ht2 as Hle. split; [intros ->; lia|].
  apply not_false_is_true. intros Hr. by rewrite (holder_trace _ _ _ _ Ht2 Hb Hr) in Hc.
Qed.

(** C27: No wakeup is lost.  A caller that was told the coordinator is busy
    leaves a demand that survives every later call: until an event is received
    from the release channel, either a permit is held with the demand
    registered, or an event addressed to the Pump (the coordinator's own
    namespace and the release request name) waits in the channel. *)
Theorem no_lost_wakeup ns t1 c t2 g :
  ctrace (NewAdmissionCoordinator ns) (t1 ++ c :: t2) g ->
  told_busy c = true -> existsb received t2 = false ->
  (is_Some (co_holder g) /\ co_pending g = true) \/ co_release g = Some [releaseEvent ns].
Proof.
  intros Ht Hb Hr. apply ctrace_app in Ht as (ga & Ht1 & Ht).
  inversion Ht as [|? ? gb ? ? Hs Ht2]; subst. pose proof (ctrace_ok _ _ _ _ Ht1 (new_ok ns)) as Hok.
  apply (demand_trace _ _ _ _ Ht2); eauto using cstep_ok, busy_demands.
Qed.

(** The release generation identifies an idle interval.  Two observations of
    an idle coordinator that report the same uint64 generation, with fewer than
    2^64 releases between them, had no permit granted between them: what the
    Pump suppresses as a repetition of its last wake is one. *)
Theorem same_generation_no_grant ns t1 n1 gen1 t2 n2 gen2 g :
  ctrace (NewAdmissionCoordinator ns) (t1 ++ CDefer n1 (Ok (false, gen1)) :: t2 ++ [CDefer n2 (Ok (false, gen2))]) g ->
  gen1 = gen2 -> (Z.of_nat (release_count t2) < 2 ^ 64)%Z ->
  Forall (fun c => granted c = None) t2.
Proof.
  intros Ht <- Hc. apply ctrace_app in Ht as (ga & Ht1 & Ht).
  pose proof (ctrace_ok _ _ _ _ Ht1 (new_ok ns)) as Hok.
  inversion Ht as [|? ? gb ? ? Hs1 Ht2]; subst. apply ctrace_app in Ht2 as (gc & Ht2 & Hs2%ctrace_one).
  assert (Hob : coordinator_ok ns gb) by eauto using cstep_ok.
  destruct (generation_trace _ _ _ _ Ht2 Hob) as (n & Hn & Hg & H0).
  assert (Hb : co_generation gb = gen1).
  { inversion Hs1 as [|? E| |]; subst. unfold deferIfBusy in *. by coordinator_cases. }
  assert (Hd : co_holder gc = None /\ co_generation gc = gen1).
  { inversion Hs2 as [|? E| |]; subst. unfold deferIfBusy in *. by coordinator_cases. }
  destruct Hd as [Hd Hgc]. apply H0; [|done]. pose proof (ok_generation _ _ Hob) as Hr.
  rewrite Hgc, Hb in Hg. rewrite Hb in Hr. destruct (decide (gen1 + Z.of_nat n < 2 ^ 64)%Z).
  - rewrite Z.mod_small in Hg; lia.
  - replace (gen1 + Z.of_nat n)%Z with (gen1 + Z.of_nat n - 2 ^ 64 + 1 * 2 ^ 64)%Z in Hg by lia.
    rewrite Z_mod_plus_full, Z.mod_small in Hg; lia.
Qed.

(** ** Witnesses: a grant, a busy caller and Pump, a release and a second grant *)

Definition ex_permit (n : nat) : freshGrantPermit := mkPermit n true.
Definition ex_begin (r : option freshGrantPermit) : ccall := CTryBegin None None "kova" (Ok r).

Ltac run_calls := repeat (eapply ctrace_cons; [first
  [ exact (cstep_begin _ None None "kova") | exact (cstep_defer _ "kova")
  | exact (cstep_release _ _) | exact (cstep_receive _)]|]); apply ctrace_nil.

Definition ex_between : list ccall :=
  [ex_begin None; CDefer "kova" (Ok (true, 0%Z)); CRelease (Some (ex_permit 0)); CRelease (Some (ex_permit 0))].
Definition ex_after_busy : list ccall :=
  [CRelease (Some (ex_permit 0)); ex_begin (Some (ex_permit 1)); CRelease (Some (ex_permit 1))].
Definition ex_idle : list ccall := [CRelease (Some (ex_permit 0)); CReceive None].

Lemma ex_two_grants : exists g, ctrace (NewAdmissionCoordinator "kova")
  ([] ++ ex_begin (Some (ex_permit 0)) :: ex_between ++ [ex_begin (Some (ex_permit 1))]) g.
Proof. eexists. simpl. run_calls. Qed.

Lemma ex_busy : exists g, ctrace (NewAdmissionCoordinator "kova")
  ([ex_begin (Some (ex_permit 0))] ++ ex_begin None :: ex_after_busy) g.
Proof. eexists. simpl. run_calls. Qed.

Lemma ex_generation : exists g, ctrace (NewAdmissionCoordinator "kova")
  ([ex_begin (Some (ex_permit 0)); CRelease (Some (ex_permit 0))] ++
   CDefer "kova" (Ok (false, 1%Z)) :: ex_idle ++ [CDefer "kova" (Ok (false, 1%Z))]) g.
Proof. eexists. simpl. run_calls. Qed.

Lemma permits_are_exclusive_witness :
  ex_permit 0 <> ex_permit 1 /\ existsb (releases (ex_permit 0)) ex_between = true.
Proof. destruct ex_two_grants as [g Ht]. exact (permits_are_exclusive _ _ _ _ _ _ _ _ Ht eq_refl eq_refl). Defined.

Lemma no_lost_wakeup_witness :
  exists g, (is_Some (co_holder g) /\ co_pending g = true) \/ co_release g = Some [releaseEvent "kova"].
Proof. destruct ex_busy as [g Ht]. exists g. exact (no_lost_wakeup _ _ _ _ _ Ht eq_refl eq_refl). Defined.

Lemma same_generation_no_grant_witness : Forall (fun c => granted c = None) ex_idle.
Proof. destruct ex_generation as [g Ht]. exact (same_generation_no_grant _ _ _ _ _ _ _ _ Ht eq_refl eq_refl). Defined.
