(* ===== verification/Pump.v ===== *)
(** * The admission pump

    [internal/service/buildcontroller/queuepump.go]: [Reconcile] with the audit
    of granted builds, the choice and the check of the build to wake, the
    recovery of a concurrent queue-to-active handoff, and the watch predicate.
    The pump's leader-local fields are threaded through [Reconcile]; its
    channel sends are [WakeBuild] requests.  [time.Time] readings are
    nanoseconds, and [None] is the zero [time.Time], whose [time.Since] is the
    largest duration. *)
From S2P Require Import Prelude GoText Json JsonFacts AdmissionJson Sha256 Types Kube Contract Genesis QueueReceipt Effects QueueLedger QueueOps ActiveLedger FairQueue ActiveOps GrantOps Coordinator.

Definition admissionAuditRequestName : string := "kova-service-admission-audit".
Definition admissionAuditInterval : Z := 30 * 1000000000.
Definition admissionAuditGrantBatch : Z := 32.
Definition admissionAuditContinuation : Z := 4 * 1000000000.
Definition admissionHandoffRetry : Z := 100 * 1000000.

Record AdmissionPump := mkPump {
  p_Cfg : Config;
  p_Genesis : option Guard;
  p_hasCoordinator : bool;            (* AdmissionCoordinator != nil *)
  lastWakeUID : string;
  lastWakeLedgerRV : string;
  lastWakeAt : option Z;
  lastWakeReleaseGeneration : Z;
  auditCursor : string;
  auditRemaining : Z }.

Definition NewAdmissionPump (cfg : Config) (genesis : option Guard) (coordinator : bool) : AdmissionPump :=
  mkPump cfg genesis coordinator "" "" None 0 "" 0.

Definition with_cursor_remaining (p : AdmissionPump) (cursor : string) (remaining : Z) : AdmissionPump :=
  mkPump (p_Cfg p) (p_Genesis p) (p_hasCoordinator p) (lastWakeUID p) (lastWakeLedgerRV p) (lastWakeAt p)
    (lastWakeReleaseGeneration p) cursor remaining.
Definition with_last_wake (p : AdmissionPump) (uid rv : string) (at_ : Z) (generation : Z) : AdmissionPump :=
  mkPump (p_Cfg p) (p_Genesis p) (p_hasCoordinator p) uid rv (Some at_) generation (auditCursor p) (auditRemaining p).

(** [ctrl.Request] and [ctrl.Result]. *)
Record Request := mkRequest { req_Namespace : string; req_Name : string }.
Definition Result : Type := Z.   (* RequeueAfter in nanoseconds *)

(** ** Watch predicate *)

(** [admissionBuildEvents(namespace).Update]: does this update move the queue? *)
Definition admissionBuildUpdate (namespace : string) (old current : KovaBuild) : bool :=
  if negb (seqb (kb_ns current) namespace) then false
  else
    let queuedTransition :=
      negb (seqb (kb_phase old) (kb_phase current)) &&
      (sempty (kb_phase old) || seqb (kb_phase old) PhaseQueued || seqb (kb_phase current) PhaseQueued) in
    queuedTransition || negb (Bool.eqb (kb_deleting old) (kb_deleting current)) ||
    negb (Bool.eqb (cancellationRequested old) (cancellationRequested current)).

(** ** Waking granted builds *)

Definition wakeBuild (build : KovaBuild) : prog (option error) := call (WakeBuild (kb_ns build) (kb_name build)).

(** [sort.Search]: the first index where [keys[i] > cursor]. *)
Fixpoint search_after (cursor : string) (keys : list string) : nat :=
  match keys with
  | [] => 0
  | k :: rest => if str_ltb cursor k then 0 else S (search_after cursor rest)
  end.

(** The keys in audit order: sorted, from the first one after the cursor, and
    around the end. *)
Definition audit_start (cursor : string) (keys : list string) : nat :=
  let start := search_after cursor keys in
  if Nat.eqb start (List.length keys) then 0 else start.

Definition unfinished (entry : activeReservation) (build : KovaBuild) : bool :=
  queuedPhase (kb_phase build) || ar_Closing entry || inFlight entry.

(** The zero [activeReservation] that a map lookup yields for a missing key. *)
Definition zeroReservation : activeReservation :=
  mkReservation "" "" 0 "" 0 "" "" "" false "" "" "" "" false false [].

(** The loop body for the key at [(start+offset)%len(keys)], [n] iterations left. *)
Fixpoint auditLoop (ns : string) (s : reservationState) (keys : list string) (start offset n : nat)
    (cursor : string) (inspected : Z) : prog (string * Z * option error) :=
  match n with
  | O => Ret (cursor, inspected, None)
  | S n' =>
      let key := nth ((start + offset) mod List.length keys) keys "" in
      let entry := default zeroReservation (active s !! key) in
      get* build := call (GetBuild ns (ar_BuildName entry))
        else (fun e => Ret (cursor, inspected, Some (Wrap "active admission grant has no readable KovaBuild" e))) in
      if negb (seqb (reservationKey build) key) || negb (seqb (requesterKey build) (ar_Requester entry))
      then Ret (cursor, inspected, Some (Plain "active admission grant does not match its KovaBuild identity"))
      else
        chk* if unfinished entry build then wakeBuild build else Ret None
          else (fun e => Ret (cursor, inspected, Some e)) in
        auditLoop ns s keys start (S offset) n' key (inspected + 1)
  end.

Definition active_keys (s : reservationState) : list string := sort_by str_ltb (map_to_list (active s)).*1.

(** [wakeGrantedBuilds]: the new cursor, the number inspected, the error. *)
Definition wakeGrantedBuilds (p : AdmissionPump) (s : reservationState) (remaining : Z)
    : prog (string * Z * option error) :=
  let keys := active_keys s in
  match keys with
  | [] => Ret ("", 0%Z, None)
  | _ =>
      auditLoop (cfg_namespace (p_Cfg p)) s keys (audit_start (auditCursor p) keys) 0
        (Z.to_nat (Z.min (Z.min (Z.of_nat (List.length keys)) admissionAuditGrantBatch) remaining))
        (auditCursor p) 0
  end.

(** ** Choosing the build to wake *)

Section reconcile.
Context `{External}.
Context (p : AdmissionPump).

(** The reconciler value the pump reads with: no client, no receipts. *)
Definition pumpReconciler : Reconciler := mkReconciler false true false false (p_Genesis p) (p_Cfg p).

Definition pumpQueue : Store :=
  mkStore true false (p_Genesis p) (cfg_namespace (p_Cfg p)) (MaxQueuedJobs (p_Cfg p)) (MaxQueuedJobsPerRequester (p_Cfg p)).

(** The phases a build may be in after a legal queue-to-active handoff. *)
Definition handoffPhase (phase : string) : bool :=
  sempty phase || seqb phase PhaseQueued || seqb phase PhaseStarting || seqb phase PhaseRunning ||
  seqb phase PhaseVerifying || seqb phase PhaseFailedVerifying.

Definition recoverConcurrentGrant (selectedLedgerRV : string) (selected : KovaBuild) (queue : Store) : prog (result bool) :=
  get* (ledger, s) := readReservations pumpReconciler (cfg_namespace (p_Cfg p)) else (fun e => Ret (Err e)) in
  match active s !! reservationKey selected with
  | None => Ret (Ok false)
  | Some entry =>
      if seqb (cm_rv ledger) selectedLedgerRV || sempty (kb_uid selected) || ar_Closing entry ||
         negb (seqb (ar_BuildName entry) (kb_name selected)) || negb (seqb (ar_Requester entry) (requesterKey selected))
      then Ret (Ok false)
      else
        get* current := call (GetBuild (kb_ns selected) (kb_name selected)) else (fun e => Ret (Err e)) in
        if negb (seqb (kb_uid current) (kb_uid selected)) || negb (seqb (kb_name current) (ar_BuildName entry)) ||
           negb (seqb (requesterKey current) (ar_Requester entry)) || kb_deleting current || cancellationRequested current ||
           (requestedConcurrency current <? ar_Slots entry)%Z ||
           ((0 <? WorkerSlots (p_Cfg p))%Z && (WorkerSlots (p_Cfg p) <? ar_Slots entry)%Z)
        then Ret (Ok false)
        else if negb (handoffPhase (kb_phase current)) then Ret (Ok false)
        else
          get* found := Lookup queue (kb_name current) else (fun e => Ret (Err e)) in
          match found with
          | Some _ => Ret (Ok false)
          | None =>
              chk* wakeBuild current else (fun e => Ret (Err e)) in
              Ret (Ok true)
          end
  end.

(** [time.Since(p.lastWakeAt) < admissionAuditInterval]. *)
Definition recently (now : Z) : bool :=
  match lastWakeAt p with
  | Some t => (now - t <? admissionAuditInterval)%Z
  | None => false
  end.

(** The audit half of [Reconcile]: the pump with its new cursor and remaining
    count, and the requeue delay or the error that ends the request. *)
Definition auditGranted (s : reservationState) (name : string) : prog (AdmissionPump * result Result) :=
  if negb (seqb name admissionAuditRequestName) then Ret (p, Ok 0%Z)
  else
    let remaining := if (auditRemaining p =? 0)%Z then Z.of_nat (size (active s)) else auditRemaining p in
    let* (cursor, inspected, err) := wakeGrantedBuilds p s remaining in
    let remaining := (remaining - inspected)%Z in
    match err with
    | Some e => Ret (with_cursor_remaining p cursor remaining, Err e)
    | None =>
        let remaining := if Nat.eqb (size (active s)) 0 then 0%Z else remaining in
        Ret (with_cursor_remaining p cursor remaining,
             Ok (if (0 <? remaining)%Z then admissionAuditContinuation else 0%Z))
    end.

(** A concurrent update that invalidates the selection. *)
Definition selectionStale (candidate current : KovaBuild) : bool :=
  negb (seqb (kb_uid current) (kb_uid candidate)) || kb_deleting current || cancellationRequested current ||
  (negb (sempty (kb_phase current)) && negb (seqb (kb_phase current) PhaseQueued)).

(** From the read candidate on: verify its queue intent, wake it unless it was
    woken for the same ledger version, release generation and interval. *)
Definition wakeCandidate (result : Result) (ledgerRV : string) (generation : Z) (current : KovaBuild)
    : prog (AdmissionPump * Prelude.result Result) :=
  let* verified := VerifyForBuild pumpQueue current in
  match verified with
  | Some err =>
      let* recovered := if errors_Is err driftName then recoverConcurrentGrant ledgerRV current pumpQueue else Ret (Ok false) in
      match recovered with
      | Err e => Ret (p, Err e)
      | Ok true =>
          Ret (p, Ok (if (result =? 0)%Z || (admissionHandoffRetry <? result)%Z then admissionHandoffRetry else result))
      | Ok false =>
          chk* wakeBuild current else (fun e => Ret (p, Err e)) in
          Ret (p, Err err)
      end
  | None =>
      let* repeated :=
        if seqb (lastWakeUID p) (kb_uid current) && seqb (lastWakeLedgerRV p) ledgerRV &&
           (lastWakeReleaseGeneration p =? generation)%Z
        then let* now := call Monotonic in Ret (recently now) else Ret false in
      if repeated then Ret (p, Ok result)
      else
        chk* wakeBuild current else (fun e => Ret (p, Err e)) in
        let* now := call Monotonic in
        Ret (with_last_wake p (kb_uid current) ledgerRV now generation, Ok result)
  end.

(** Everything after the audit, on the snapshot [(ledger, s)]. *)
Definition selectAndWake (result : Result) (ledger : ConfigMap) (s : reservationState)
    : prog (AdmissionPump * Prelude.result Result) :=
  let cfg := p_Cfg p in
  let ns := cfg_namespace cfg in
  if activeCapacityExhausted (active s) (MaxActiveJobs_ cfg) (WorkerSlots cfg) then Ret (p, Ok result)
  else
    get* (busy, generation) :=
      (if bool_decide (is_Some (p_Genesis p)) && p_hasCoordinator p
       then call (DeferIfBusy ns) else Ret (Ok (false, 0%Z))) else (fun e => Ret (p, Err e)) in
    if busy then Ret (p, Ok result)
    else
      chk* CheckReady pumpQueue else (fun e => Ret (p, Err e)) in
      get* builds := call (ListBuilds ns None) else (fun e => Ret (p, Err e)) in
      chk* ensureNoUnreservedRunner pumpReconciler ns s builds else (fun e => Ret (p, Err e)) in
      match nextAdmissionCandidate builds s cfg with
      | None => Ret (p, Ok result)
      | Some candidate =>
          get* current := call (GetBuild (kb_ns candidate) (kb_name candidate)) else (fun e => Ret (p, Err e)) in
          if selectionStale candidate current then Ret (p, Ok result)
          else wakeCandidate result (cm_rv ledger) generation current
      end.
End reconcile.

Definition Reconcile `{External} (p : AdmissionPump) (req : Request) : prog (AdmissionPump * result Result) :=
  let ns := cfg_namespace (p_Cfg p) in
  if negb (seqb (req_Namespace req) ns) ||
     (negb (seqb (req_Name req) reservationConfigMap) && negb (seqb (req_Name req) admissionAuditRequestName) &&
      negb (seqb (req_Name req) admissionReleaseRequestName))
  then Ret (p, Ok 0%Z)
  else
    get* (ledger, s) := readReservations (pumpReconciler p) ns else (fun e => Ret (p, Err e)) in
    let* (p, audited) := auditGranted p s (req_Name req) in
    match audited with
    | Err e => Ret (p, Err e)
    | Ok result => selectAndWake p result ledger s
    end.
