(* ===== verification/PumpTheorems.v ===== *)
(** * What the admission pump promises

    The pump never writes, wakes at most the head of the fair queue outside an
    audit, and its bounded audit slices end after ceil(n/32) requests having
    visited each of the n active grants once.  The first two are statements about every complete run of its
    [Reconcile], whatever the server answers; the audit's is about every sequence of
    runs without an error while the ledger keeps its grants. *)
From S2P Require Import Prelude GoText Json JsonFacts AdmissionJson Sha256 Types Kube Contract Server Genesis GenesisFacts QueueReceipt Effects QueueLedger QueueOps ActiveLedger Fixture FairQueue FairFacts ActiveOps GrantOps ActiveReads Coordinator Pump.

(** * Complete runs of a program

    [runs p tr a]: the program issued exactly the requests of [tr], was answered
    as [tr] records and returned [a].  Any answer is possible, so a theorem about
    all runs holds whatever the server and the other clients do. *)
(** A request with its answer. *)
Definition exchange : Type := { X : Type & (api X * X)%type }.
Definition asked {X} (e : api X) (x : X) : exchange := existT X (e, x).

Fixpoint runs {A} (p : prog A) (tr : list exchange) (a : A) : Prop :=
  match p with
  | Ret b => tr = [] /\ a = b
  | Vis e k => exists x tr', tr = asked e x :: tr' /\ runs (k x) tr' a
  end.

Lemma runs_call {X} (e : api X) tr x : runs (call e) tr x <-> tr = [asked e x].
Proof.
  split.
  - intros (y & tr' & -> & -> & ->). done.
  - intros ->. by exists x, [].
Qed.

Lemma runs_bind {A B} (p : prog A) (f : A -> prog B) tr b :
  runs (bind p f) tr b <-> exists tr1 a tr2, tr = tr1 ++ tr2 /\ runs p tr1 a /\ runs (f a) tr2 b.
Proof.
  revert tr. induction p as [a|X e k IH]; intros tr; simpl.
  - split; [intros Hr; by exists [], a, tr|]. intros (tr1 & a' & tr2 & E & [E1 E2] & Hr). by subst.
  - split.
    + intros (x & tr' & -> & Hr). apply IH in Hr as (tr1 & a & tr2 & -> & H1 & H2).
      exists (asked e x :: tr1), a, tr2. split; [done|]. split; [|done]. by exists x, tr1.
    + intros (tr1 & a & tr2 & -> & (x & tr' & -> & H1) & H2). exists x, (tr' ++ tr2).
      split; [done|]. apply IH. by exists tr', a, tr2.
Qed.

(** Requests of a sequence, using what the first part can return. *)
Lemma emits_seq (P : forall X, api X -> Prop) {A B} (Q : A -> Prop) (p : prog A) (f : A -> prog B) :
  emits P p -> returns Q p -> (forall a, Q a -> emits P (f a)) -> emits P (bind p f).
Proof.
  induction p as [a|X e k IH]; simpl; [auto|]. intros [He Hk] Hq Hf. split; [done|]. intros x. by apply IH.
Qed.

(** ** What a run asked *)

(** Targeted wakes that were delivered or attempted. *)
Definition wake_of (x : exchange) : option okey :=
  match projT2 x with
  | (WakeBuild ns n, _) => Some (ns, n)
  | _ => None
  end.
Definition wakes (tr : list exchange) : list okey := omap wake_of tr.

(** Builds read by name, with the answer. *)
Definition build_get_of (x : exchange) : option (okey * result KovaBuild) :=
  match x with
  | existT X (e, v) =>
      match e in api X return X -> option (okey * result KovaBuild) with
      | GetBuild ns n => fun v => Some ((ns, n), v)
      | _ => fun _ => None
      end v
  end.
Definition build_gets (tr : list exchange) : list (okey * result KovaBuild) := omap build_get_of tr.

(** Builds listed, with the answer. *)
Definition build_list_of (x : exchange) : option (string * result (list KovaBuild)) :=
  match x with
  | existT X (e, v) =>
      match e in api X return X -> option (string * result (list KovaBuild)) with
      | ListBuilds ns None => fun v => Some (ns, v)
      | _ => fun _ => None
      end v
  end.
Definition build_lists (tr : list exchange) : list (string * result (list KovaBuild)) := omap build_list_of tr.

(** The object read is the object asked for. *)
Definition honest (tr : list exchange) : Prop :=
  Forall (fun g => match snd g with Ok b => (kb_ns b, kb_name b) = fst g | Err _ => True end) (build_gets tr).

Lemma wakes_app tr1 tr2 : wakes (tr1 ++ tr2) = wakes tr1 ++ wakes tr2.
Proof. apply omap_app. Qed.
Lemma build_gets_app tr1 tr2 : build_gets (tr1 ++ tr2) = build_gets tr1 ++ build_gets tr2.
Proof. apply omap_app. Qed.
Lemma build_lists_app tr1 tr2 : build_lists (tr1 ++ tr2) = build_lists tr1 ++ build_lists tr2.
Proof. apply omap_app. Qed.
Lemma honest_app tr1 tr2 : honest (tr1 ++ tr2) <-> honest tr1 /\ honest tr2.
Proof. unfold honest. rewrite build_gets_app. apply Forall_app. Qed.

Lemma honest_get ns n b : honest [asked (GetBuild ns n) (Ok b)] -> kb_ns b = ns /\ kb_name b = n.
Proof. intros Hh. inversion Hh as [|? ? Hb _]; subst. by injection Hb as <- <-. Qed.

(** Observing wakes nobody. *)
Lemma quiet_run {A} (p : prog A) tr a : emits (@read_only) p -> runs p tr a -> wakes tr = [].
Proof.
  revert tr. induction p as [b|X e k IH]; intros tr; simpl.
  - by intros _ [-> _].
  - intros [He Hk] (x & tr' & -> & Hr). unfold wakes. simpl.
    replace (wake_of (asked e x)) with (@None okey) by (by destruct e). by eapply IH.
Qed.

(** ** Executing a program against fixed answers *)

Fixpoint play {A} (o : forall X, api X -> X) (p : prog A) : list exchange * A :=
  match p with
  | Ret a => ([], a)
  | Vis e k => let x := o _ e in let '(tr, a) := play o (k x) in (asked e x :: tr, a)
  end.

Lemma play_runs {A} o (p : prog A) : runs p (play o p).1 (play o p).2.
Proof.
  induction p as [a|X e k IH]; simpl; [done|]. specialize (IH (o X e)).
  destruct (play o (k (o X e))) as [tr a]. by exists (o X e), tr.
Qed.

Lemma play_honest {A} (o : forall X, api X -> X) (p : prog A) :
  (forall ns n b, o _ (GetBuild ns n) = Ok b -> (kb_ns b, kb_name b) = (ns, n)) -> honest (play o p).1.
Proof.
  intros Ho. induction p as [a|X e k IH]; simpl; [by constructor|]. specialize (IH (o X e)).
  destruct (play o (k (o X e))) as [tr a]. apply (honest_app [_]). split; [|done].
  destruct e; try (by constructor). constructor; [|constructor]. simpl.
  destruct (o _ (GetBuild ns name)) eqn:E; [by apply Ho|done].
Qed.

#[global] Arguments runs : simpl never.

Ltac run_step :=
  match goal with
  | H : runs (bind _ _) _ _ |- _ => apply runs_bind in H as (? & ? & ? & -> & ? & ?)
  | H : runs (call _) _ _ |- _ => apply runs_call in H as ->
  | H : runs (Vis _ _) _ _ |- _ => destruct H as (? & ? & -> & ?)
  | H : runs (Ret _) _ _ |- _ => let E := fresh "E" in destruct H as [-> E]; simplify_eq/=
  | H : runs (match ?x with _ => _ end) _ _ |- _ => let E := fresh "E" in destruct x eqn:E
  end.

(** ** The observations of the pump *)

Section pump.
Context `{External} (p : AdmissionPump).
Hypothesis Hg : forall g, p_Genesis p = Some g -> guard_reads g.

Lemma pump_read_reads ns : emits (@read_only) (readReservations (pumpReconciler p) ns).
Proof. by apply readReservations_reads. Qed.

Lemma pump_ready_reads : emits (@read_only) (CheckReady (pumpQueue p)).
Proof. unfold CheckReady, read. apply emits_bind; [by apply queue_read_reads|done]. Qed.

Lemma pump_verify_reads b : emits (@read_only) (VerifyForBuild (pumpQueue p) b).
Proof. by apply VerifyForBuild_reads. Qed.

Lemma pump_lookup_reads n : emits (@read_only) (Lookup (pumpQueue p) n).
Proof. by apply Lookup_reads. Qed.

Lemma pump_covered_reads ns s l : emits (@read_only) (ensureNoUnreservedRunner (pumpReconciler p) ns s l).
Proof. by apply ensureNoUnreservedRunner_reads. Qed.

#[local] Hint Resolve pump_read_reads pump_ready_reads pump_verify_reads pump_lookup_reads pump_covered_reads : emits.

Lemma observing_writes_nothing {A} (q : prog A) : emits (@read_only) q -> emits (@writes_nothing) q.
Proof. apply emits_mono. intros X e. apply read_only_writes_nothing. Qed.

Lemma audit_writes_nothing s remaining : emits (@writes_nothing) (wakeGrantedBuilds p s remaining).
Proof.
  unfold wakeGrantedBuilds. destruct (active_keys s); [done|].
  generalize (Z.to_nat (Z.min (Z.min (Z.of_nat (List.length (s0 :: l))) admissionAuditGrantBatch) remaining)).
  intros n. generalize 0 at 1. generalize (auditCursor p) at 2. generalize 0%Z.
  induction n as [|n IH]; intros z c o; cbn [auditLoop]; [done|]. unfold wakeBuild. emits_tac.
Qed.

Lemma recover_writes_nothing rv b : emits (@writes_nothing) (recoverConcurrentGrant p rv b (pumpQueue p)).
Proof.
  pose proof (observing_writes_nothing _ (pump_read_reads (cfg_namespace (p_Cfg p)))).
  pose proof (fun n => observing_writes_nothing _ (pump_lookup_reads n)).
  unfold recoverConcurrentGrant, wakeBuild. emits_tac.
Qed.

Lemma select_writes_nothing res ledger s : emits (@writes_nothing) (selectAndWake p res ledger s).
Proof.
  pose proof (observing_writes_nothing _ pump_ready_reads).
  pose proof (fun b => observing_writes_nothing _ (pump_verify_reads b)).
  pose proof (fun ns s l => observing_writes_nothing _ (pump_covered_reads ns s l)).
  pose proof recover_writes_nothing. unfold selectAndWake, wakeCandidate, wakeBuild. emits_tac.
Qed.

(** ** Wakes of a selection *)

(** At most one wake, of the given build. *)
Definition wakes_at_most (k : okey) (tr : list exchange) : Prop := wakes tr = [] \/ wakes tr = [k].

Lemma single_wake (a b c d : string) : a = c -> b = d -> [(a, b)] = [(c, d)] :> list okey.
Proof. by intros -> ->. Qed.

(** Observing runs are silent. *)
Ltac quiet_tac :=
  repeat match goal with
  | H : runs (wakeBuild _) _ _ |- _ => apply runs_call in H as ->
  | H : runs ?q ?tr _ |- _ =>
      lazymatch goal with
      | _ : wakes tr = [] |- _ => fail
      | _ => assert (wakes tr = []) by (refine (quiet_run q _ _ _ H); solve [eauto with emits])
      end
  end.

(** The builds read are the builds asked for. *)
Ltac honest_tac :=
  repeat match goal with
  | H : honest (_ ++ _) |- _ => apply honest_app in H as [? ?]
  | H : honest (?x :: ?tr) |- _ => lazymatch tr with [] => fail | _ => apply (honest_app [x] tr) in H as [? ?] end
  | H : honest [asked (GetBuild _ _) (Ok _)] |- _ => apply honest_get in H as [? ?]
  end.

(** Compute the wakes of a run from those of its parts. *)
Ltac wakes_simpl :=
  simpl; rewrite ?wakes_app;
  repeat match goal with
  | H : wakes ?tr = [] |- context [wakes ?tr] => rewrite H
  | |- context [wakes (asked (WakeBuild ?n ?m) ?x :: ?tr)] =>
      change (wakes (asked (WakeBuild n m) x :: tr)) with ((n, m) :: wakes tr)
  | |- context [wakes (asked ?e ?x :: ?tr)] => change (wakes (asked e x :: tr)) with (wakes tr)
  | |- context [wakes (_ ++ _)] => rewrite !wakes_app
  | |- context [wakes []] => change (wakes []) with (@nil okey)
  end; simpl; rewrite ?app_nil_r.

Ltac wakes_tac :=
  quiet_tac; honest_tac; unfold wakes_at_most in *; wakes_simpl; simplify_eq/=;
  try (left; done); try (right; by apply single_wake); try done.

Lemma recover_wakes rv b tr r :
  runs (recoverConcurrentGrant p rv b (pumpQueue p)) tr r -> honest tr ->
  match r with Ok false => wakes tr = [] | _ => wakes_at_most (kb_ns b, kb_name b) tr end.
Proof. unfold recoverConcurrentGrant. intros Hr Hh. repeat run_step; wakes_tac. Qed.

Lemma wakeCandidate_wakes res rv gen b tr out :
  runs (wakeCandidate p res rv gen b) tr out -> honest tr -> wakes_at_most (kb_ns b, kb_name b) tr.
Proof.
  unfold wakeCandidate. intros Hr Hh. repeat run_step;
    repeat match goal with
    | H : runs (recoverConcurrentGrant _ _ _ _) _ _ |- _ =>
        apply recover_wakes in H; [|by repeat (apply honest_app in Hh as [? Hh])]
    end; wakes_tac; rewrite ?app_nil_r; try done.
Qed.
(** Any wake after the audit is of the candidate chosen from the listed builds. *)
Lemma select_wakes res ledger s tr out :
  runs (selectAndWake p res ledger s) tr out -> honest tr ->
  wakes tr = [] \/
  exists builds c, (cfg_namespace (p_Cfg p), Ok builds) ∈ build_lists tr /\
    nextAdmissionCandidate builds s (p_Cfg p) = Some c /\ wakes tr = [(kb_ns c, kb_name c)].
Proof.
  unfold selectAndWake. cbv zeta. intros Hr Hh. repeat run_step; try (left; wakes_tac; fail).
  all: match goal with
  | Hw : runs (wakeCandidate _ _ _ _ _) _ _, Hc : nextAdmissionCandidate ?builds _ _ = Some ?c |- _ =>
      honest_tac; apply wakeCandidate_wakes in Hw as [Hw|Hw]; [| |done]; quiet_tac; [left; by wakes_simpl|];
      right; exists builds, c; split_and!; [|done|wakes_simpl; rewrite Hw; by apply single_wake]
  end.
  all: rewrite ?build_lists_app; cbn; rewrite ?build_lists_app; set_solver.
Qed.
End pump.

(** ** The audit order *)

Definition str_lt (a b : string) : Prop := str_ltb a b = true.

Lemma insert_strict x l : x ∉ l -> StronglySorted str_lt l -> StronglySorted str_lt (insert_by str_ltb x l).
Proof.
  unfold str_lt. intros Hx Hl. induction Hl as [|y l Hl IH Hy]; simpl; [by repeat constructor|].
  apply not_elem_of_cons in Hx as [Hne Hx]. destruct (str_ltb y x) eqn:E.
  - constructor; [by apply IH|]. rewrite insert_by_perm. by constructor.
  - assert (Hxy : str_ltb x y = true).
    { apply not_false_is_true. intros F. apply Hne. by apply str_ltb_total. }
    constructor; [by constructor|]. constructor; [done|].
    eapply Forall_impl; [exact Hy|]. simpl. intros z. by apply str_ltb_trans.
Qed.

Lemma sort_strict l : NoDup l -> StronglySorted str_lt (sort_by str_ltb l).
Proof.
  induction 1 as [|x l Hx Hl IH]; simpl; [constructor|]. apply insert_strict; [by rewrite sort_by_perm|done].
Qed.

Lemma active_keys_sorted s : StronglySorted str_lt (active_keys s).
Proof. apply sort_strict, NoDup_fst_map_to_list. Qed.

Lemma active_keys_perm s : active_keys s ≡ₚ (map_to_list (active s)).*1.
Proof. apply sort_by_perm. Qed.

Lemma active_keys_length s : List.length (active_keys s) = size (active s).
Proof. rewrite active_keys_perm, length_fmap. apply length_map_to_list. Qed.

Lemma active_keys_elem s k : k ∈ active_keys s <-> is_Some (active s !! k).
Proof.
  rewrite active_keys_perm, list_elem_of_fmap. split.
  - intros ([k' e] & -> & He%elem_of_map_to_list). by exists e.
  - intros [e He]. exists (k, e). split; [done|]. by apply elem_of_map_to_list.
Qed.

(** The search resumes after the key inspected last. *)
Lemma search_after_nth l i :
  StronglySorted str_lt l -> i < List.length l -> search_after (nth i l "") l = S i.
Proof.
  intros Hl. revert i. induction Hl as [|y l Hl IH Hy]; intros i Hi; simpl in *; [lia|].
  destruct i as [|i].
  - rewrite str_ltb_irrefl. f_equal. destruct l as [|z l]; [done|]. inversion Hy as [|? ? Hz]; subst.
    simpl. by rewrite Hz.
  - assert (Hn : str_ltb (nth i l "") y = false).
    { apply str_ltb_asym. rewrite Forall_forall in Hy. apply Hy, list_elem_of_In, nth_In. lia. }
    rewrite Hn. f_equal. apply IH. lia.
Qed.

Lemma audit_start_nth l i :
  StronglySorted str_lt l -> i < List.length l -> audit_start (nth i l "") l = (i + 1) mod List.length l.
Proof.
  intros Hl Hi. unfold audit_start. rewrite search_after_nth by done.
  destruct (Nat.eqb_spec (S i) (List.length l)) as [E|E].
  - replace (i + 1) with (List.length l) by lia. by rewrite Nat.Div0.mod_same.
  - rewrite Nat.mod_small; lia.
Qed.

Lemma audit_start_lt c l : l <> [] -> audit_start c l < List.length l.
Proof.
  intros Hl. unfold audit_start. assert (Hs : search_after c l <= List.length l).
  { clear Hl. induction l as [|k l IH]; simpl; [lia|]. destruct (str_ltb c k); lia. }
  destruct (Nat.eqb_spec (search_after c l) (List.length l)); [|lia].
  destruct l; simpl; [done|lia].
Qed.

(** ** One audit loop *)

(** The key at a position of the audit order. *)
Definition key_at (keys : list string) (i : nat) : string := nth (i mod List.length keys) keys "".

(** The grant at [key] was inspected: its build was read under the grant's name,
    carries the grant's identity, and was woken if the grant is unfinished. *)
Definition grant_visited (ns : string) (s : reservationState) (tr : list exchange) (key : string) : Prop :=
  exists entry build, active s !! key = Some entry /\ ((ns, ar_BuildName entry), Ok build) ∈ build_gets tr /\
    reservationKey build = key /\ requesterKey build = ar_Requester entry /\
    (unfinished entry build = true -> (kb_ns build, kb_name build) ∈ wakes tr).

Lemma grant_visited_mono ns s tr tr' k :
  build_gets tr ⊆ build_gets tr' -> wakes tr ⊆ wakes tr' -> grant_visited ns s tr k -> grant_visited ns s tr' k.
Proof. intros Hg Hw (e & b & He & Hb & Hk & Hr & Hu). exists e, b. split_and!; auto. Qed.

Lemma grant_visited_l ns s tr tr' k : grant_visited ns s tr k -> grant_visited ns s (tr ++ tr') k.
Proof. apply grant_visited_mono; rewrite ?build_gets_app, ?wakes_app; set_solver. Qed.

Lemma grant_visited_r ns s tr tr' k : grant_visited ns s tr' k -> grant_visited ns s (tr ++ tr') k.
Proof. apply grant_visited_mono; rewrite ?build_gets_app, ?wakes_app; set_solver. Qed.

(** A loop that ends without error inspected its [n] positions in order, read
    one build for each and left the cursor at the last one. *)
Lemma auditLoop_visits ns s keys start n offset cursor inspected tr cursor' inspected' :
  (forall k, k ∈ keys -> is_Some (active s !! k)) -> keys <> [] ->
  runs (auditLoop ns s keys start offset n cursor inspected) tr (cursor', inspected', None) ->
  inspected' = (inspected + Z.of_nat n)%Z /\ List.length (build_gets tr) = n /\
  cursor' = match n with O => cursor | S m => key_at keys (start + offset + m) end /\
  forall i, i < n -> grant_visited ns s tr (key_at keys (start + offset + i)).
Proof.
  intros Hk Hne. revert offset cursor inspected tr.
  induction n as [|n IH]; intros offset cursor inspected tr Hr; cbn [auditLoop] in Hr.
  { run_step. split_and!; [lia|done|done|lia]. }
  assert (He : is_Some (active s !! key_at keys (start + offset))).
  { apply Hk, list_elem_of_In, nth_In. apply Nat.mod_upper_bound. by destruct keys. }
  fold (key_at keys (start + offset)) in Hr. destruct He as [entry He]. rewrite He in Hr. simpl default in Hr.
  apply runs_bind in Hr as (tr1 & got & tr2 & -> & ->%runs_call & Hr).
  destruct got as [build|e]; [|run_step; done].
  destruct (negb _ || negb _) eqn:Ei; [run_step; done|].
  apply orb_false_iff in Ei as [Ek%negb_false_iff%bool_decide_eq_true Eq%negb_false_iff%bool_decide_eq_true].
  apply runs_bind in Hr as (tw & woken & tr3 & -> & Hw & Hr). destruct woken as [e|]; [run_step; done|].
  assert (Hwk : build_gets tw = [] /\ (unfinished entry build = true -> (kb_ns build, kb_name build) ∈ wakes tw)).
  { destruct (unfinished entry build); [|by run_step]. apply runs_call in Hw as ->. split; [done|]. intros _. by left. }
  destruct Hwk as [Hgw Hu]. apply IH in Hr as (-> & Hlen & -> & Hvis).
  replace (start + S offset) with (start + offset + 1) in * by lia. split_and!.
  - lia.
  - simpl. change (build_gets (asked ?e ?x :: ?t)) with (((ns, ar_BuildName entry), Ok build) :: build_gets t).
    rewrite build_gets_app, Hgw. simpl. by rewrite Hlen.
  - destruct n as [|n]; f_equal; lia.
  - intros [|i] Hi.
    + rewrite Nat.add_0_r. exists entry, build. split_and!; [done| |done|done|].
      * left.
      * intros Hun. rewrite !wakes_app. apply elem_of_app. right. apply elem_of_app. left. auto.
    + replace (start + offset + S i) with (start + offset + 1 + i) by lia.
      apply grant_visited_r, grant_visited_r, Hvis. lia.
Qed.

(** ** Audit passes *)

Lemma key_at_mod keys i j : keys <> [] -> key_at keys (i mod List.length keys + j) = key_at keys (i + j).
Proof. intros Hk. unfold key_at. by rewrite Nat.Div0.add_mod_idemp_l. Qed.

Lemma audit_start_key keys i :
  StronglySorted str_lt keys -> keys <> [] -> audit_start (key_at keys i) keys = (i + 1) mod List.length keys.
Proof.
  intros Hs Hk. unfold key_at. rewrite audit_start_nth; [|done|apply Nat.mod_upper_bound; by destruct keys].
  by rewrite Nat.Div0.add_mod_idemp_l.
Qed.

(** How many grants an audit has still to inspect. *)
Definition to_inspect (p : AdmissionPump) (s : reservationState) : nat :=
  if (auditRemaining p =? 0)%Z then size (active s) else Z.to_nat (auditRemaining p).

(** One slice that ends without error. *)
Lemma audit_slice p s tr p' d :
  runs (auditGranted p s admissionAuditRequestName) tr (p', Ok d) -> active_keys s <> [] ->
  (0 <= auditRemaining p <= Z.of_nat (size (active s)))%Z ->
  exists m, 0 < m <= 32 /\ m <= to_inspect p s /\ (m < to_inspect p s -> m = 32) /\ p_Cfg p' = p_Cfg p /\
    auditRemaining p' = Z.of_nat (to_inspect p s - m) /\
    d = (if (0 <? auditRemaining p')%Z then admissionAuditContinuation else 0%Z) /\
    audit_start (auditCursor p') (active_keys s) = (audit_start (auditCursor p) (active_keys s) + m) mod size (active s) /\
    List.length (build_gets tr) = m /\
    forall i, i < m -> grant_visited (cfg_namespace (p_Cfg p)) s tr
                         (key_at (active_keys s) (audit_start (auditCursor p) (active_keys s) + i)).
Proof.
  intros Hr Hne Hrem. pose proof (active_keys_length s) as Hlen.
  assert (HN : 0 < size (active s)) by (rewrite <- Hlen; destruct (active_keys s); simpl; [done|lia]).
  assert (HR : Z.of_nat (to_inspect p s) = if (auditRemaining p =? 0)%Z then Z.of_nat (size (active s)) else auditRemaining p).
  { unfold to_inspect. destruct (Z.eqb_spec (auditRemaining p) 0); lia. }
  assert (HR1 : 0 < to_inspect p s <= size (active s)).
  { unfold to_inspect. destruct (Z.eqb_spec (auditRemaining p) 0); lia. }
  unfold auditGranted in Hr. change (negb (seqb _ _)) with false in Hr. cbv iota zeta in Hr. rewrite <- HR in Hr.
  apply runs_bind in Hr as (tr1 & [[cursor inspected] err] & tr2 & -> & Hw & Hr).
  destruct err as [e|]; [run_step; done|]. destruct Hr as [-> [= -> ->]].
  unfold wakeGrantedBuilds in Hw. destruct (active_keys s) as [|k0 ks] eqn:Ek; [done|]. rewrite <- Ek in *.
  set (m := Z.to_nat (Z.min (Z.min (Z.of_nat (List.length (active_keys s))) admissionAuditGrantBatch) (Z.of_nat (to_inspect p s)))) in Hw.
  assert (Hm : m = Nat.min 32 (to_inspect p s)) by (unfold m, admissionAuditGrantBatch; lia).
  apply auditLoop_visits in Hw as (-> & Hg & -> & Hv); [|by intros k; rewrite active_keys_elem|done].
  rewrite Nat.add_0_r in Hv. rewrite Nat.add_0_r. rewrite app_nil_r.
  exists m. destruct (Nat.eqb_spec (size (active s)) 0); [lia|]. simpl auditRemaining. simpl auditCursor.
  destruct m as [|m']; [lia|]. split_and!; try lia; try done.
  rewrite audit_start_key; [|apply active_keys_sorted|done]. rewrite Hlen. f_equal. lia.
Qed.

(** [k] audit requests in a row on one ledger state, each of which ended without
    error; [d] is the requeue delay the last one asked for.  Nothing is assumed
    about the delays. *)
Inductive audit_slices (s : reservationState) (p : AdmissionPump) : nat -> list exchange -> AdmissionPump -> Result -> Prop :=
| slices_one tr p' d :
    runs (auditGranted p s admissionAuditRequestName) tr (p', Ok d) -> audit_slices s p 1 tr p' d
| slices_next k tr p' d tr' p'' d' :
    audit_slices s p k tr p' d ->
    runs (auditGranted p' s admissionAuditRequestName) tr' (p'', Ok d') -> audit_slices s p (S k) (tr ++ tr') p'' d'.

(** From a completed pass the [k]-th slice ends at position [32k] of the audit
    order, or at the last grant. *)
Lemma slices_visit s p k tr p' d :
  audit_slices s p k tr p' d -> active_keys s <> [] -> auditRemaining p = 0%Z -> 32 * (k - 1) < size (active s) ->
  0 < k /\ p_Cfg p' = p_Cfg p /\ auditRemaining p' = Z.of_nat (size (active s) - 32 * k) /\
  d = (if decide (32 * k < size (active s)) then admissionAuditContinuation else 0%Z) /\
  audit_start (auditCursor p') (active_keys s)
  = (audit_start (auditCursor p) (active_keys s) + Nat.min (32 * k) (size (active s))) mod size (active s) /\
  List.length (build_gets tr) = Nat.min (32 * k) (size (active s)) /\
  forall i, i < Nat.min (32 * k) (size (active s)) ->
    grant_visited (cfg_namespace (p_Cfg p)) s tr
      (key_at (active_keys s) (audit_start (auditCursor p) (active_keys s) + i)).
Proof.
  intros Hs Hne H0. induction Hs as [tr p' d Hr|k tr p' d tr' p'' d' Hs IH Hr]; intros Hk.
  - destruct (audit_slice _ _ _ _ _ Hr Hne ltac:(lia)) as (m & Hm & Hle & Hm32 & Hc & Hrem' & Hd & Hst & Hg & Hv).
    assert (E : to_inspect p s = size (active s)) by (unfold to_inspect; by rewrite H0). rewrite E in *.
    replace m with (Nat.min (32 * 1) (size (active s))) in * by lia.
    split_and!; try done; [lia|rewrite Hrem'; lia|]. rewrite Hd. case_decide; destruct (Z.ltb_spec 0 (auditRemaining p')); [done|lia|lia|done].
  - destruct (IH ltac:(lia)) as (Hk0 & Hc & Hrem & _ & Hst & Hg & Hv). clear IH.
    destruct (audit_slice _ _ _ _ _ Hr Hne ltac:(lia)) as (m & Hm & Hle & Hm32 & Hc' & Hrem' & Hd & Hst' & Hg' & Hv').
    assert (E : to_inspect p' s = size (active s) - 32 * k) by (unfold to_inspect; destruct (Z.eqb_spec (auditRemaining p') 0); lia).
    rewrite E, Hc in *. replace (Nat.min (32 * S k) (size (active s))) with (32 * k + m) by lia.
    replace (Nat.min (32 * k) (size (active s))) with (32 * k) in * by lia.
    split_and!; try done; try lia.
    + rewrite Hd. case_decide; destruct (Z.ltb_spec 0 (auditRemaining p'')); [done|lia|lia|done].
    + rewrite Hst', Hst, Nat.Div0.add_mod_idemp_l. f_equal. lia.
    + rewrite build_gets_app, length_app. lia.
    + intros i Hi. destruct (decide (i < 32 * k)) as [Hlt|Hge]; [by apply grant_visited_l, Hv|].
      apply grant_visited_r. specialize (Hv' (i - 32 * k) ltac:(lia)).
      rewrite Hst, <- (active_keys_length s), key_at_mod in Hv' by done.
      by replace (audit_start (auditCursor p) (active_keys s) + 32 * k + (i - 32 * k))
        with (audit_start (auditCursor p) (active_keys s) + i) in Hv' by lia.
Qed.

(** ** No slice fails while the grants' builds can be read *)

(** The API answers the read of every grant's build with a build of the grant's
    identity, and takes every targeted wake. *)
Definition answers_grants (o : forall X, api X -> X) (ns : string) (s : reservationState) : Prop :=
  (forall key entry, active s !! key = Some entry ->
     exists build, o _ (GetBuild ns (ar_BuildName entry)) = Ok build /\
       reservationKey build = key /\ requesterKey build = ar_Requester entry) /\
  (forall ns' n, o _ (WakeBuild ns' n) = None).

Lemma play_bind {A B} o (p : prog A) (f : A -> prog B) : (play o (bind p f)).2 = (play o (f (play o p).2)).2.
Proof.
  induction p as [a|X e k IH]; simpl; [done|]. specialize (IH (o X e)).
  destruct (play o (bind (k (o X e)) f)), (play o (k (o X e))). done.
Qed.

Lemma auditLoop_answered o ns s keys start n offset cursor inspected :
  answers_grants o ns s -> (forall k, k ∈ keys -> is_Some (active s !! k)) -> keys <> [] ->
  (play o (auditLoop ns s keys start offset n cursor inspected)).2.2 = None.
Proof.
  intros [Hb Hw] Hk Hne. revert offset cursor inspected.
  induction n as [|n IH]; intros offset cursor inspected; cbn [auditLoop]; [done|].
  assert (He : is_Some (active s !! key_at keys (start + offset))).
  { apply Hk, list_elem_of_In, nth_In. apply Nat.mod_upper_bound. by destruct keys. }
  fold (key_at keys (start + offset)). destruct He as [entry He]. rewrite He. cbv zeta. simpl default.
  destruct (Hb _ _ He) as (build & Hget & Hkey & Hreq).
  rewrite play_bind. replace (play o (call _)).2 with (@Ok KovaBuild build) by (symmetry; exact Hget). cbv beta iota.
  rewrite Hkey, Hreq. unfold seqb at 1 2. rewrite !bool_decide_eq_true_2 by done. simpl orb. cbv iota.
  rewrite play_bind. replace (play o _).2 with (@None error); [apply IH|].
  destruct (unfinished entry build); [|done]. symmetry. apply Hw.
Qed.

Lemma audit_slice_answered o p s :
  answers_grants o (cfg_namespace (p_Cfg p)) s -> active_keys s <> [] ->
  exists tr p' d, runs (auditGranted p s admissionAuditRequestName) tr (p', Ok d) /\ p_Cfg p' = p_Cfg p.
Proof.
  intros Ho Hne. pose proof (play_runs o (auditGranted p s admissionAuditRequestName)) as Hr.
  set (out := play o (auditGranted p s admissionAuditRequestName)) in Hr.
  assert (E : exists p' d, out.2 = (p', Ok d) /\ p_Cfg p' = p_Cfg p).
  { unfold out, auditGranted. change (negb (seqb _ _)) with false. cbv iota zeta. rewrite play_bind.
    assert (Hw : forall n, (play o (wakeGrantedBuilds p s n)).2.2 = None).
    { intros n. unfold wakeGrantedBuilds. destruct (active_keys s) as [|k0 ks] eqn:Ek; [done|]. rewrite <- Ek in *.
      apply auditLoop_answered; [done| |done]. by intros k; rewrite active_keys_elem. }
    specialize (Hw (if (auditRemaining p =? 0)%Z then Z.of_nat (size (active s)) else auditRemaining p)).
    destruct (play o _).2 as [[cursor inspected] err]. simpl in Hw. subst err. simpl. eauto. }
  destruct E as (p' & d & E & Hc). rewrite E in Hr. eauto.
Qed.

Lemma slices_exist o p s k :
  answers_grants o (cfg_namespace (p_Cfg p)) s -> active_keys s <> [] ->
  exists tr p' d, audit_slices s p (S k) tr p' d /\ p_Cfg p' = p_Cfg p.
Proof.
  intros Ho Hne. induction k as [|k (tr & p' & d & Hs & Hc)].
  - destruct (audit_slice_answered o p s Ho Hne) as (tr & p' & d & Hr & Hc).
    exists tr, p', d. split; [by apply slices_one|done].
  - destruct (audit_slice_answered o p' s) as (tr' & p'' & d' & Hr & Hc'); [by rewrite Hc|done|].
    exists (tr ++ tr'), p'', d'. split; [by eapply slices_next|by rewrite Hc'].
Qed.

(** Every key is at some position of the audit order. *)
Lemma key_positions keys start k :
  k ∈ keys -> start < List.length keys -> exists i, i < List.length keys /\ key_at keys (start + i) = k.
Proof.
  intros Hk Hs. apply list_elem_of_In, (In_nth _ _ "") in Hk as (j & Hj & <-). unfold key_at.
  destruct (decide (start <= j)).
  - exists (j - start). split; [lia|]. rewrite Nat.mod_small by lia. f_equal. lia.
  - exists (j + List.length keys - start). split; [lia|].
    replace (start + (j + List.length keys - start)) with (j + 1 * List.length keys) by lia.
    rewrite Nat.Div0.mod_add, Nat.mod_small by lia. done.
Qed.

(** ** Claims *)

(** The pump never grants or changes anything itself: whatever the server
    answers, no request of [Reconcile] creates, updates, patches or deletes an
    object. *)
Theorem pump_never_writes `{External} p req :
  (forall g, p_Genesis p = Some g -> guard_reads g) -> emits (@writes_nothing) (Reconcile p req).
Proof.
  intros Hg. unfold Reconcile. destruct (_ || _); [done|]. cbv zeta.
  apply emits_bind; [by apply observing_writes_nothing, pump_read_reads|]. intros [[ledger s]|e]; [|done].
  apply (emits_seq _ (fun out => p_Genesis out.1 = p_Genesis p)).
  - unfold auditGranted. pose proof (audit_writes_nothing p s). emits_tac.
  - unfold auditGranted. destruct (negb _); [done|]. apply returns_bind. by intros [[c i] [e|]].
  - intros [p' [d|e]] Hp; simpl in Hp; [|done]. apply select_writes_nothing. by rewrite Hp.
Qed.

(** Outside an audit the pump wakes at most one build, and only one that the
    admission decision admits.  In every complete run of [Reconcile] on a
    capacity or release event whose reads return the objects asked for, there is
    no wake, or exactly one, of a build [c] such that: the run begins by reading
    a ledger state [s], it lists the builds of the namespace, and on these
    [decideAdmission] admits [c] with its slots. *)
Theorem pump_wakes_only_admissible `{External} p req tr out :
  (forall g, p_Genesis p = Some g -> guard_reads g) ->
  (0 < MaxActiveJobs_ (p_Cfg p))%Z -> (0 < WorkerSlots (p_Cfg p))%Z ->
  req_Name req <> admissionAuditRequestName ->
  runs (Reconcile p req) tr out -> honest tr ->
  wakes tr = [] \/
  exists ledger s builds c tr1 tr2, tr = tr1 ++ tr2 /\
    runs (readReservations (pumpReconciler p) (cfg_namespace (p_Cfg p))) tr1 (Ok (ledger, s)) /\
    (cfg_namespace (p_Cfg p), Ok builds) ∈ build_lists tr2 /\
    decideAdmission c builds (active s) (MaxActiveJobs_ (p_Cfg p)) (MaxActiveJobsPerRequester (p_Cfg p))
      (WorkerSlots (p_Cfg p)) (rs_LastGrantedRequesterHash s)
    = admitted (Z.min (requestedConcurrency c) (WorkerSlots (p_Cfg p) - usedSlots (active s))) /\
    wakes tr = [(kb_ns c, kb_name c)].
Proof.
  intros Hg Hj Hw Hn Hr Hh. unfold Reconcile in Hr. destruct (_ || _); [run_step; by left|].
  apply runs_bind in Hr as (tr1 & [[ledger s]|e] & tr2 & -> & Hread & Hr).
  2: { run_step. left. rewrite app_nil_r. by apply (quiet_run _ _ _ (pump_read_reads p Hg _) Hread). }
  assert (Hq : wakes tr1 = []) by (by apply (quiet_run _ _ _ (pump_read_reads p Hg _) Hread)).
  unfold auditGranted in Hr. destruct (negb (seqb _ _)) eqn:En.
  2: { bool_simpl. done. }
  simpl in Hr. apply honest_app in Hh as [_ Hh].
  destruct (select_wakes p Hg _ _ _ _ _ Hr Hh) as [H0|(builds & c & Hl & Hc & Hwk)].
  - left. by rewrite wakes_app, Hq, H0.
  - right. exists ledger, s, builds, c, tr1, tr2. rewrite wakes_app, Hq, Hwk.
    split_and!; try done. by apply pump_agrees.
Qed.

(** C28: The bounded audit ends and covers every grant.  Let the ledger state
    stay unchanged with [n > 0] grants, and start from a completed pass.  Then
    the [k]-th error-free audit request, for every [k] up to [ceil(n/32)], leaves
    [n - 32k] grants to inspect (none, if that is negative) after
    [min(32k, n)] build reads in all; it asks to be continued at once exactly
    when grants are left, and when none is left every grant was inspected: its
    build was read under the grant's name, has the grant's identity, and was
    woken if the grant is unfinished.  No request fails while the API answers
    the read of each grant's build with a build of its identity and takes the
    wakes, so the audit then ends after exactly [ceil(n/32)] requests. *)
Theorem audit_covers_every_grant s p :
  auditRemaining p = 0%Z -> active s <> ∅ ->
  (forall k tr p' d, audit_slices s p k tr p' d -> 32 * (k - 1) < size (active s) ->
     auditRemaining p' = Z.of_nat (size (active s) - 32 * k) /\
     List.length (build_gets tr) = Nat.min (32 * k) (size (active s)) /\
     (32 * k < size (active s) -> d = admissionAuditContinuation /\ (0 < d)%Z) /\
     (size (active s) <= 32 * k -> d = 0%Z /\
        forall key, is_Some (active s !! key) -> grant_visited (cfg_namespace (p_Cfg p)) s tr key)) /\
  (forall o, answers_grants o (cfg_namespace (p_Cfg p)) s ->
     exists k tr p', 32 * (k - 1) < size (active s) <= 32 * k /\ audit_slices s p k tr p' 0%Z).
Proof.
  intros H0 Hne. assert (Hk : active_keys s <> []).
  { intros E. apply Hne, map_size_empty_iff. by rewrite <- active_keys_length, E. }
  assert (HN : 0 < size (active s)) by (rewrite <- active_keys_length; destruct (active_keys s); simpl; [done|lia]).
  split.
  - intros k tr p' d Hs Hlt. destruct (slices_visit _ _ _ _ _ _ Hs Hk H0 Hlt) as (Hk0 & _ & Hrem & Hd & _ & Hg & Hv).
    split_and!; try done; intros Hle; rewrite Hd; case_decide; try lia; [by split|].
    split; [done|]. intros key Hkey. apply active_keys_elem in Hkey.
    destruct (key_positions _ (audit_start (auditCursor p) (active_keys s)) _ Hkey) as (i & Hi & <-);
      [by apply audit_start_lt|]. apply Hv. rewrite active_keys_length in Hi. lia.
  - intros o Ho. pose proof (Nat.div_mod (size (active s) - 1) 32 ltac:(done)).
    pose proof (Nat.mod_upper_bound (size (active s) - 1) 32 ltac:(done)).
    set (j := (size (active s) - 1) / 32) in *.
    destruct (slices_exist o p s j Ho Hk) as (tr & p' & d & Hs & _). exists (S j), tr, p'. split; [lia|].
    destruct (slices_visit _ _ _ _ _ _ Hs Hk H0 ltac:(lia)) as (_ & _ & _ & Hd & _).
    rewrite decide_False in Hd by lia. by subst d.
Qed.

(** ** Witnesses: one grant of alice, one queued build of bob, no Genesis *)

Definition ex_pump : AdmissionPump := NewAdmissionPump ex_config None false.
Definition ex_pump_build (name user : string) (created : Z) : KovaBuild :=
  mkBuild "kova" name (name +:+ "-uid") "1" ∅ ∅ [] [] created false
    (mkSpec (mkRequester user "") [] (mkSource "" "") (mkOptions "oci" 2 0 "" false false []) "") "" 0 "".
Definition ex_pump_grant : activeReservation :=
  mkReservation "a0" "alice" 4 "" 0 "" "" "" false "" "" "" "" false false [].
Definition ex_pump_state : reservationState :=
  mkReservations 1 7 4 2 8 "" (Some {["a0-uid" := ex_pump_grant]}).
Definition ex_pump_ledger : ConfigMap :=
  mkConfigMap "kova" reservationConfigMap "active-uid" "1" ∅ ∅ [] false None
    {[reservationDataKey := ok_data (encodeReservations ex_pump_state)]} ∅.
Definition ex_pump_cluster : cluster :=
  mkCluster {[("kova", ConfigMapName) := mkObject true [ex_legacy_ledger];
              ("kova", reservationConfigMap) := mkObject true [ex_pump_ledger]]}
    {[("kova", "a0") := ex_pump_build "a0" "alice" 1; ("kova", "b1") := ex_pump_build "b1" "bob" 2]} ex_namespaces 5.
Definition ex_answers : forall X, api X -> X := fun X e => fst (serve e ex_pump_cluster).

Definition ex_capacity_event : Request := mkRequest "kova" reservationConfigMap.
Definition ex_pump_run : list exchange * (AdmissionPump * result Result) :=
  play ex_answers (Reconcile ex_pump ex_capacity_event).
Definition ex_audit_run : list exchange * (AdmissionPump * result Result) :=
  play ex_answers (auditGranted ex_pump ex_pump_state admissionAuditRequestName).

(** The run wakes bob's build and remembers it. *)
Example ex_pump_wakes :
  wakes ex_pump_run.1 = [("kova", "b1")] /\ lastWakeUID ex_pump_run.2.1 = "b1-uid" /\ is_ok ex_pump_run.2.2 = true.
Proof. vm_compute. auto. Qed.

Lemma ex_answers_honest ns n b : ex_answers _ (GetBuild ns n) = Ok b -> (kb_ns b, kb_name b) = (ns, n).
Proof.
  unfold ex_answers, serve, get_build. simpl fst. destruct (_ !! _) as [b'|]; [|done].
  case_decide as E; [|done]. by intros [= <-].
Qed.

Lemma pump_never_writes_witness :
  (forall g, Some ex_guard = Some g -> guard_reads g) /\
  emits (@writes_nothing) (Reconcile (NewAdmissionPump ex_config (Some ex_guard) true) ex_capacity_event).
Proof.
  assert (Hg : forall g, Some ex_guard = Some g -> guard_reads g) by (intros g [= <-]; exact I).
  split; [exact Hg|]. exact (pump_never_writes (NewAdmissionPump ex_config (Some ex_guard) true) ex_capacity_event Hg).
Defined.

Lemma pump_wakes_only_admissible_witness :
  runs (Reconcile ex_pump ex_capacity_event) ex_pump_run.1 ex_pump_run.2 /\
  exists s builds c,
    decideAdmission c builds (active s) 4 2 8 (rs_LastGrantedRequesterHash s)
    = admitted (Z.min (requestedConcurrency c) (8 - usedSlots (active s))) /\
    wakes ex_pump_run.1 = [(kb_ns c, kb_name c)].
Proof.
  assert (Hr : runs (Reconcile ex_pump ex_capacity_event) ex_pump_run.1 ex_pump_run.2) by apply play_runs.
  split; [exact Hr|].
  destruct (pump_wakes_only_admissible ex_pump ex_capacity_event _ _
    ltac:(discriminate) eq_refl eq_refl ltac:(discriminate) Hr (play_honest _ _ ex_answers_honest))
    as [H0|(l & s & builds & c & tr1 & tr2 & _ & _ & _ & Hd & Hw)].
  - exfalso. rewrite (proj1 ex_pump_wakes) in H0. discriminate.
  - exists s, builds, c. exact (conj Hd Hw).
Defined.

(** The cluster answers the audit of its one grant, so one slice ends the pass. *)
Lemma ex_answers_grants : answers_grants ex_answers "kova" ex_pump_state.
Proof.
  split; [|by intros]. intros key entry He. unfold ex_pump_state, active in He. simpl in He.
  apply lookup_singleton_Some in He as [<- <-]. exists (ex_pump_build "a0" "alice" 1). vm_compute. auto.
Qed.

Lemma audit_covers_every_grant_witness :
  (exists k tr p', audit_slices ex_pump_state ex_pump k tr p' 0%Z) /\
  grant_visited "kova" ex_pump_state ex_audit_run.1 "a0-uid".
Proof.
  assert (Hs : audit_slices ex_pump_state ex_pump 1 ex_audit_run.1 ex_audit_run.2.1 0%Z).
  { apply slices_one. replace (ex_audit_run.2.1, Ok 0%Z) with ex_audit_run.2 by (vm_compute; reflexivity). apply play_runs. }
  destruct (audit_covers_every_grant ex_pump_state ex_pump eq_refl ltac:(vm_compute; discriminate)) as [Hcover Hends].
  split.
  - destruct (Hends ex_answers ex_answers_grants) as (k & tr & p' & _ & H). eauto.
  - destruct (Hcover _ _ _ _ Hs ltac:(vm_compute; lia)) as (_ & _ & _ & Hend).
    apply (proj2 (Hend ltac:(vm_compute; lia))). exists ex_pump_grant. vm_compute. reflexivity.
Defined.
