(* ===== verification/PermitTheorems.v ===== *)
(** * Admissions and the coordinator together

    [admission] takes the coordinator's permit at most once and gives it back on
    every path; any number of concurrent admissions of one process therefore
    keep at most one fresh grant in progress and never leave the coordinator
    busy.  The calls of [admission] on its coordinator ([TryBegin], [EndPermit])
    are answered here by the coordinator of [Coordinator.v]. *)
From S2P Require Import Prelude GoText Json JsonFacts AdmissionJson Sha256 Types Kube Contract Server Genesis GenesisFacts QueueReceipt Effects QueueLedger QueueOps ActiveLedger FairQueue ActiveOps GrantOps ActiveReads Coordinator Fixture.

(** ** The permit protocol of one call *)

Definition keeps_permit {X} (e : api X) : Prop :=
  match e with TryBegin _ | EndPermit => False | _ => True end.

(** Whether the call holds the permit after a request; [None] is a second
    acquisition, or a return of what was not acquired. *)
Definition permit_step (held : bool) {X} (e : api X) : X -> option bool :=
  match e in api X return X -> option bool with
  | TryBegin _ => fun x => if held then None else Some (match x with Ok began => began | Err _ => false end)
  | EndPermit => fun _ => if held then Some false else None
  | _ => fun _ => Some held
  end.

Fixpoint permits {A} (held : bool) (p : prog A) (Q : bool -> A -> Prop) : Prop :=
  match p with
  | Ret a => Q held a
  | Vis e k => forall x, match permit_step held e x with Some h => permits h (k x) Q | None => False end
  end.

Lemma permits_mono {A} held (p : prog A) (Q Q' : bool -> A -> Prop) :
  permits held p Q -> (forall h a, Q h a -> Q' h a) -> permits held p Q'.
Proof.
  revert held. induction p as [a|X e k IH]; intros held Hp HQ; simpl in *; [auto|].
  intros x. specialize (Hp x). destruct (permit_step held e x); [eauto|done].
Qed.

Lemma permits_bind {A B} held (p : prog A) (f : A -> prog B) (Q : bool -> B -> Prop) :
  permits held p (fun h a => permits h (f a) Q) -> permits held (bind p f) Q.
Proof.
  revert held. induction p as [a|X e k IH]; intros held Hp; simpl in *; [done|].
  intros x. specialize (Hp x). destruct (permit_step held e x); [auto|done].
Qed.

(** A part that does not touch the permit. *)
Lemma permits_skip {A B} held (p : prog A) (f : A -> prog B) (Q : bool -> B -> Prop) :
  emits (@keeps_permit) p -> (forall a, permits held (f a) Q) -> permits held (bind p f) Q.
Proof.
  intros Hp Hf. apply permits_bind. revert Hp. induction p as [a|X e k IH]; simpl; [auto|].
  intros [He Hk] x. replace (permit_step held e x) with (Some held) by (by destruct e). auto.
Qed.

Lemma permits_try {A} ns (f : result bool -> prog A) (Q : bool -> A -> Prop) :
  permits true (f (Ok true)) Q -> permits false (f (Ok false)) Q -> (forall e, permits false (f (Err e)) Q) ->
  permits false (bind (call (TryBegin ns)) f) Q.
Proof. intros H1 H2 H3 [[]|e]; simpl; auto. Qed.

Lemma permits_state {S A} n retry (body : nat -> S -> prog (S + A)) (holds : S -> bool) (Q : bool -> A -> Prop) s busy :
  (forall s, Q (holds s) (busy s)) ->
  (forall i s, permits (holds s) (body i s)
     (fun h r => match r with inl s' => h = holds s' | inr a => Q h a end)) ->
  permits (holds s) (retry_state n retry body s busy) Q.
Proof.
  intros Hbusy Hbody. revert retry s. induction n as [|n IH]; intros retry s; [apply Hbusy|].
  change (permits (holds s) (bind (body retry s) (fun r => match r with inr a => Ret a | inl s' => retry_state n (Datatypes.S retry) body s' busy end)) Q).
  apply permits_bind. eapply permits_mono; [apply Hbody|]. intros h [s'|a]; simpl; [|done].
  intros ->. apply IH.
Qed.

(** ** The parts of [admission] *)

Lemma read_only_keeps {X} (e : api X) : read_only e -> keeps_permit e.
Proof. by destruct e. Qed.

Lemma observing_keeps {A} (p : prog A) : emits (@read_only) p -> emits (@keeps_permit) p.
Proof. apply emits_mono. intros X e. apply read_only_keeps. Qed.

Section admission.
Context `{External} (r : Reconciler).
Hypothesis Hg : forall g, r_Genesis r = Some g -> guard_reads g.

#[local] Hint Extern 4 (emits (@keeps_permit) _) => (apply observing_keeps; solve [eauto with emits]) : emits.
#[local] Hint Resolve Guard_Check_reads classify_reads : emits.
#[local] Hint Extern 3 (guard_reads _) => (apply Hg; eassumption) : emits.

Lemma write_keeps cm next : emits (@keeps_permit) (writeReservations r cm next).
Proof.
  unfold writeReservations. destruct (r_Genesis r) as [g|] eqn:Eg in |- *; [|emits_tac].
  unfold PatchLedgerData. emits_tac.
Qed.
#[local] Hint Resolve write_keeps : emits.

Lemma cas_keeps {A} retry cm next (fail : error -> A) finish failed :
  emits (@keeps_permit) finish -> (forall e, emits (@keeps_permit) (failed e)) ->
  emits (@keeps_permit) (casReservations r retry cm next fail finish failed).
Proof. intros H1 H2. unfold casReservations, wait_continue, waitCAS. emits_tac. Qed.

Lemma finish_keeps g build entry : r_Genesis r = Some g -> emits (@keeps_permit) (finishFreshGrant r g build entry).
Proof.
  intros Eg. unfold finishFreshGrant, armFreshGrant, pinGrantReceipt, RecordGrantOnce, recordEffectOnce.
  emits_tac.
  - apply emits_loop. intros i. unfold armIteration. emits_tac. apply cas_keeps; intros; emits_tac.
  - apply observing_keeps, observe_with_reads; [eauto|]. intros o. unfold lift_error. emits_tac.
    apply Observation_Read_reads. emits_tac.
  - apply emits_loop. intros i. unfold pinGrantIteration. emits_tac. apply cas_keeps; intros; emits_tac.
Qed.
#[local] Hint Resolve finish_keeps : emits.

(** One iteration ends holding the permit it says it holds. *)
Definition iteration_post (h : bool) (x : bool + (bool * result admissionDecision)) : Prop :=
  match x with inl s => h = s | inr (permit, _) => h = permit end.

Ltac permits_tac :=
  repeat first
    [ done
    | match goal with
      | |- permits _ (bind (call (TryBegin _)) _) _ => apply permits_try; [| |intros ?]
      | |- permits _ (bind _ _) _ => apply permits_skip; [solve [unfold waitCAS; emits_tac]|intros ?]
      | |- permits _ (match ?x with _ => _ end) _ => first [is_var x; destruct x | destruct x eqn:? in |- *]
      end ].

Lemma iteration_permits build nonce retry permit :
  permits permit (admissionIteration r build nonce retry permit) iteration_post.
Proof.
  unfold admissionIteration. cbv zeta. destruct permit; rewrite ?andb_false_r; permits_tac.
Qed.

Lemma admission_permits build : permits false (admission r build) (fun h _ => h = false).
Proof.
  unfold admission. apply permits_skip; [destruct (r_Genesis r) in |- *; unfold random_nonce; emits_tac|].
  intros [nonce|e]; [|done]. apply permits_bind.
  apply permits_mono with (Q := fun h out => h = fst out).
  - apply (permits_state _ _ _ (fun s => s)); [done|]. intros i s.
    eapply permits_mono; [apply iteration_permits|]. by intros h [s'|[p x]].
  - intros h [p x] ->. simpl. apply permits_bind. by destruct p.
Qed.
End admission.

(** ** One process: admissions, the pump and the coordinator *)

Section process.
Context {A : Type}.

(** A goroutine in the middle of a call, with the value of its [permit] variable. *)
Definition goroutine : Type := prog A * option freshGrantPermit.
Record process := mkProcess { pr_coordinator : AdmissionCoordinator; pr_calls : list goroutine }.

(** What [TryBegin] answers and the permit it leaves. *)
Definition begin_answer (r : result (option freshGrantPermit)) : result bool :=
  match r with Ok (Some _) => Ok true | Ok None => Ok false | Err e => Err e end.
Definition begin_permit (r : result (option freshGrantPermit)) : option freshGrantPermit :=
  match r with Ok p => p | Err _ => None end.

Inductive process_step : process -> process -> Prop :=
| step_begin g ts i ns k permit ctx1 ctx2 :
    ts !! i = Some (Vis (TryBegin ns) k, permit) ->
    process_step (mkProcess g ts)
      (mkProcess (fst (tryBegin g ctx1 ctx2 ns))
         (<[i := (k (begin_answer (snd (tryBegin g ctx1 ctx2 ns))), begin_permit (snd (tryBegin g ctx1 ctx2 ns)))]> ts))
| step_end g ts i k permit :
    ts !! i = Some (Vis EndPermit k, permit) ->
    process_step (mkProcess g ts) (mkProcess (release permit g) (<[i := (k tt, None)]> ts))
| step_other g ts i X (e : api X) k x permit :
    keeps_permit e -> ts !! i = Some (Vis e k, permit) ->
    process_step (mkProcess g ts) (mkProcess g (<[i := (k x, permit)]> ts))
| step_pump_defer g ts ns : process_step (mkProcess g ts) (mkProcess (fst (deferIfBusy g ns)) ts)
| step_pump_receive g ts : process_step (mkProcess g ts) (mkProcess (fst (ReleaseEvents g)) ts).

Record process_ok (ns : string) (s : process) : Prop := {
  po_coordinator : coordinator_ok ns (pr_coordinator s);
  po_calls : forall i p permit, pr_calls s !! i = Some (p, permit) ->
    permits (bool_decide (is_Some permit)) p (fun h _ => h = false);
  po_held : forall i p pm, pr_calls s !! i = Some (p, Some pm) -> co_holder (pr_coordinator s) = Some pm;
  po_unique : forall i j p q pm pm', pr_calls s !! i = Some (p, Some pm) -> pr_calls s !! j = Some (q, Some pm') -> i = j;
  po_holder : forall pm, co_holder (pr_coordinator s) = Some pm -> exists i p, pr_calls s !! i = Some (p, Some pm) }.

(** Replacing the goroutine [i]. *)
Lemma insert_cases (ts : list goroutine) i t old j u :
  ts !! i = Some old -> <[i := t]> ts !! j = Some u -> (j = i /\ u = t) \/ (j <> i /\ ts !! j = Some u).
Proof.
  intros Hi Hj. destruct (decide (j = i)) as [->|Hne].
  - left. rewrite list_lookup_insert_eq in Hj by (by eapply lookup_lt_Some). by simplify_eq.
  - right. by rewrite list_lookup_insert_ne in Hj.
Qed.

Lemma insert_here (ts : list goroutine) i t old : ts !! i = Some old -> <[i := t]> ts !! i = Some t.
Proof. intros Hi. apply list_lookup_insert_eq. by eapply lookup_lt_Some. Qed.
End process.
Arguments process : clear implicits.

Section process_facts.
Context {A : Type} (ns : string).
Implicit Types ts : list (@goroutine A).

Lemma move_ok g g' ts i p perm p' perm' :
  process_ok ns (mkProcess g ts) -> ts !! i = Some (p, perm) -> coordinator_ok ns g' ->
  permits (bool_decide (is_Some perm')) p' (fun h _ => h = false) ->
  (forall pm, perm' = Some pm -> co_holder g' = Some pm /\ (perm = Some pm \/ co_holder g = None)) ->
  (perm' = None -> (perm = None /\ co_holder g' = co_holder g) \/ (is_Some perm /\ co_holder g' = None)) ->
  process_ok ns (mkProcess g' (<[i := (p', perm')]> ts)).
Proof.
  intros [_ Hc Hh Hu Ho] Hi Hg' Hp' H1 H2; simpl in *.
  (* another goroutine that holds a permit keeps it only if [i] held none and gets none *)
  assert (Hother : forall j q pm, j <> i -> ts !! j = Some (q, Some pm) -> perm' = None /\ co_holder g' = Some pm).
  { intros j q pm Hne Hj. pose proof (Hh _ _ _ Hj) as Hpm. destruct perm' as [pm'|].
    - destruct (H1 _ eq_refl) as [_ [->|Hn]]; [|congruence]. by destruct Hne; eapply Hu.
    - split; [done|]. destruct (H2 eq_refl) as [[_ ->]|[[x ->] _]]; [done|]. by destruct Hne; eapply Hu. }
  split; simpl; [done|..].
  - intros j q x Hj. destruct (insert_cases _ _ _ _ _ _ Hi Hj) as [[-> [= -> ->]]|[_ Hj']]; eauto.
  - intros j q pm Hj. destruct (insert_cases _ _ _ _ _ _ Hi Hj) as [[-> [= -> <-]]|[Hne Hj']]; [by apply H1|].
    by destruct (Hother _ _ _ Hne Hj').
  - intros j k q q' pm pm' Hj Hk.
    destruct (insert_cases _ _ _ _ _ _ Hi Hj) as [[-> [= -> <-]]|[Hne Hj']],
      (insert_cases _ _ _ _ _ _ Hi Hk) as [[-> Ek]|[Hne' Hk']]; [done| | |by eapply Hu].
    + by destruct (Hother _ _ _ Hne' Hk').
    + simplify_eq. by destruct (Hother _ _ _ Hne Hj').
  - intros pm Hpm. destruct perm' as [pm'|].
    + destruct (H1 _ eq_refl) as [E _]. simplify_eq. exists i, p'. by eapply insert_here.
    + destruct (H2 eq_refl) as [[-> E]|[_ E]]; [|congruence]. rewrite E in Hpm.
      destruct (Ho _ Hpm) as (j & q & Hj). exists j, q.
      rewrite list_lookup_insert_ne; [done|]. intros ->. congruence.
Qed.

Lemma tryBegin_holder g ctx1 ctx2 n :
  match snd (tryBegin g ctx1 ctx2 n) with
  | Ok (Some pm) => co_holder g = None /\ co_holder (fst (tryBegin g ctx1 ctx2 n)) = Some pm
  | _ => co_holder (fst (tryBegin g ctx1 ctx2 n)) = co_holder g
  end.
Proof. unfold tryBegin, with_pending. coordinator_cases; auto. Qed.

Lemma release_holder g pm :
  coordinator_ok ns g -> co_holder g = Some pm -> co_holder (release (Some pm) g) = None.
Proof.
  intros Hok Hpm. destruct (ok_holder _ _ Hok _ Hpm) as [Ho _]. unfold release. rewrite Ho. simpl.
  rewrite bool_decide_eq_true_2 by done. simpl. by destruct (negb _).
Qed.

Lemma process_step_ok (s s' : process A) : process_step s s' -> process_ok ns s -> process_ok ns s'.
Proof.
  intros Hs Hok. destruct Hs as [g ts i n k perm c1 c2 Hi|g ts i k perm Hi|g ts i X e k x perm He Hi|g ts n|g ts].
  - pose proof (po_calls _ _ Hok _ _ _ Hi (begin_answer (snd (tryBegin g c1 c2 n)))) as Hp.
    destruct perm as [pm|]; [done|]. simpl in Hp. pose proof (tryBegin_holder g c1 c2 n) as Hh.
    eapply (move_ok _ _ _ _ _ _ _ _ Hok Hi).
    + eapply cstep_ok; [apply cstep_begin|apply (po_coordinator _ _ Hok)].
    + by destruct (snd (tryBegin g c1 c2 n)) as [[pm|]|e].
    + intros pm Hpm. destruct (snd (tryBegin g c1 c2 n)) as [[pm'|]|e]; simplify_eq/=. split; [|right]; tauto.
    + intros Hn. left. split; [done|]. by destruct (snd (tryBegin g c1 c2 n)) as [[pm'|]|e].
  - pose proof (po_calls _ _ Hok _ _ _ Hi tt) as Hp. destruct perm as [pm|]; [|done]. simpl in Hp.
    pose proof (po_held _ _ Hok _ _ _ Hi) as Hh. pose proof (po_coordinator _ _ Hok) as Hc. simpl in Hh, Hc.
    eapply (move_ok _ _ _ _ _ _ _ _ Hok Hi); [|done|done|].
    + exact (cstep_ok ns g _ _ (cstep_release g (Some pm)) Hc).
    + intros _. right. split; [done|]. by apply release_holder.
  - pose proof (po_calls _ _ Hok _ _ _ Hi x) as Hp.
    replace (permit_step (bool_decide (is_Some perm)) e x) with (Some (bool_decide (is_Some perm))) in Hp by (by destruct e).
    eapply (move_ok _ _ _ _ _ _ _ _ Hok Hi); [apply (po_coordinator _ _ Hok)|done| |by left].
    intros pm ->. split; [|by left]. exact (po_held _ _ Hok _ _ _ Hi).
  - destruct Hok as [Hc H1 H2 H3 H4]. simpl in *.
    assert (E : co_holder (fst (deferIfBusy g n)) = co_holder g)
      by (unfold deferIfBusy, with_pending; coordinator_cases; done).
    split; simpl; rewrite ?E; try done. eapply cstep_ok; [apply cstep_defer|done].
  - destruct Hok as [Hc H1 H2 H3 H4]. simpl in *.
    assert (E : co_holder (fst (ReleaseEvents g)) = co_holder g) by (unfold ReleaseEvents; coordinator_cases; done).
    split; simpl; rewrite ?E; try done. eapply cstep_ok; [apply cstep_receive|done].
Qed.
End process_facts.

(** ** Claim *)

(** The calls of a process: admissions of any builds by any reconcilers. *)
Definition admissions `{External} (calls : list (Reconciler * KovaBuild)) : list (@goroutine (result admissionDecision)) :=
  (fun c => (admission (fst c) (snd c), None)) <$> calls.

Definition returned {A} (t : @goroutine A) : Prop := match fst t with Ret _ => True | Vis _ _ => False end.

Lemma admissions_ok `{External} ns calls :
  Forall (fun c => forall g, r_Genesis (fst c) = Some g -> guard_reads g) calls ->
  process_ok ns (mkProcess (NewAdmissionCoordinator ns) (admissions calls)).
Proof.
  intros Hg. rewrite Forall_forall in Hg.
  assert (Hn : forall i p pm, admissions calls !! i <> Some (p, Some pm)).
  { intros i p pm Hi. unfold admissions in Hi. rewrite list_lookup_fmap in Hi. destruct (calls !! i); simplify_eq/=. }
  split; simpl.
  - apply new_ok.
  - intros i p permit Hi. unfold admissions in Hi. rewrite list_lookup_fmap in Hi.
    destruct (calls !! i) as [c|] eqn:E; simplify_eq/=. apply admission_permits, Hg. by eapply list_elem_of_lookup_2.
  - by intros i p pm Hi%Hn.
  - by intros i j p q pm pm' Hi%Hn.
  - done.
Qed.

(** C26: Concurrent admissions share one permit and give it back.  A process runs
    any number of [admission] calls against one coordinator, in any interleaving
    with the pump's observations of it and with any answers to the other
    requests.  At every point at most one call has a permit, the coordinator is
    busy exactly while an unfinished call has it, and once every call has
    returned, on whatever path, the coordinator is idle. *)
Theorem admissions_share_one_permit `{External} ns calls g ts :
  Forall (fun c => forall gd, r_Genesis (fst c) = Some gd -> guard_reads gd) calls ->
  rtc process_step (mkProcess (NewAdmissionCoordinator ns) (admissions calls)) (mkProcess g ts) ->
  (forall i j p q pm pm', ts !! i = Some (p, Some pm) -> ts !! j = Some (q, Some pm') -> i = j) /\
  (forall pm, co_holder g = Some pm <-> exists i t, ts !! i = Some t /\ snd t = Some pm /\ ~ returned t) /\
  (Forall returned ts -> co_holder g = None).
Proof.
  intros Hg Hs. assert (Hok : process_ok ns (mkProcess g ts)).
  { pose proof (admissions_ok ns calls Hg) as Hok. revert Hok.
    induction Hs as [s|s1 s2 s3 H1 _ IH]; [done|]. eauto using process_step_ok. }
  assert (Hr : forall i t pm, ts !! i = Some t -> snd t = Some pm -> ~ returned t).
  { intros i [p permit] pm Hi E Hret. simpl in E. subst permit.
    pose proof (po_calls _ _ Hok _ _ _ Hi) as Hp. by destruct p. }
  split_and!.
  - exact (po_unique _ _ Hok).
  - intros pm. split.
    + intros Hh. destruct (po_holder _ _ Hok _ Hh) as (i & p & Hi). exists i, (p, Some pm). eauto.
    + intros (i & [p permit] & Hi & E & _). simpl in E. subst permit. exact (po_held _ _ Hok _ _ _ Hi).
  - intros Hall. destruct (co_holder g) as [pm|] eqn:Hh; [|done].
    destruct (po_holder _ _ Hok _ Hh) as (i & p & Hi). exfalso.
    apply (Hr _ _ _ Hi eq_refl). rewrite Forall_forall in Hall. apply Hall. by eapply list_elem_of_lookup_2.
Qed.

(** ** Witness: an admission that takes the permit, fails to confirm its grant
    and returns *)

Definition coordinated (o : forall X, api X -> X) (g : AdmissionCoordinator) (perm : option freshGrantPermit)
    {X} (e : api X) : X * AdmissionCoordinator * option freshGrantPermit :=
  match e in api X return X -> X * AdmissionCoordinator * option freshGrantPermit with
  | TryBegin ns => fun _ => let r := tryBegin g None None ns in (begin_answer (snd r), fst r, begin_permit (snd r))
  | EndPermit => fun _ => (tt, release perm g, None)
  | _ => fun x => (x, g, perm)
  end (o X e).

Fixpoint solo {A} (o : forall X, api X -> X) (g : AdmissionCoordinator) (perm : option freshGrantPermit) (p : prog A)
    : list (option freshGrantPermit) * AdmissionCoordinator * option freshGrantPermit * A :=
  match p with
  | Ret a => ([], g, perm, a)
  | Vis e k =>
      let '(x, g', perm') := coordinated o g perm e in
      let '(l, g2, perm2, a) := solo o g' perm' (k x) in (perm' :: l, g2, perm2, a)
  end.

Lemma solo_steps {A} o g perm (p : prog A) :
  let '(_, g', perm', a) := solo o g perm p in
  rtc process_step (mkProcess g [(p, perm)]) (mkProcess g' [(Ret a, perm')]).
Proof.
  revert g perm. induction p as [a|X e k IH]; intros g perm; simpl; [apply rtc_refl|].
  destruct (coordinated o g perm e) as [[x g'] perm'] eqn:E. specialize (IH x g' perm').
  destruct (solo o g' perm' (k x)) as [[[l g2] perm2] a]. eapply rtc_l; [|exact IH]. revert E. unfold coordinated.
  destruct e; intros [= <- <- <-];
    match goal with |- process_step (mkProcess _ [(Vis ?e _, _)]) _ =>
      first [ exact (step_begin g [(Vis e k, perm)] 0 _ k perm None None eq_refl)
            | exact (step_end g [(Vis e k, perm)] 0 k perm eq_refl)
            | exact (step_other g [(Vis e k, perm)] 0 _ e k (o _ e) perm I eq_refl) ]
    end.
Qed.

Definition ex_coordinated : Reconciler := mkReconciler true true true true (Some ex_guard) ex_config.
Definition ex_solo := solo (fun X e => fst (serve e ex_cluster)) (NewAdmissionCoordinator "kova") None (admission ex_coordinated ex_build).

(** The permit was taken on the way. *)
Example ex_solo_takes_permit : existsb (fun p => bool_decide (is_Some p)) ex_solo.1.1.1 = true.
Proof. vm_compute. reflexivity. Qed.

Lemma admissions_share_one_permit_witness :
  Forall (fun c => forall gd, r_Genesis (fst c) = Some gd -> guard_reads gd) [(ex_coordinated, ex_build)] /\
  co_holder ex_solo.1.1.2 = None.
Proof.
  assert (Hg : Forall (fun c => forall gd, r_Genesis (fst c) = Some gd -> guard_reads gd) [(ex_coordinated, ex_build)])
    by (constructor; [intros gd [= <-]; exact I|constructor]).
  split; [exact Hg|].
  pose proof (solo_steps (fun X e => fst (serve e ex_cluster)) (NewAdmissionCoordinator "kova") None (admission ex_coordinated ex_build)) as Hs.
  fold ex_solo in Hs. destruct ex_solo as [[[l g] perm] a].
  apply (proj2 (proj2 (admissions_share_one_permit "kova" _ _ _ Hg Hs))). constructor; [exact I|constructor].
Defined.
