(* ===== verification/HashRing.v ===== *)
(** * The consistent-hash ring of the build scheduler

    [internal/scheduler/hash.go].  The preference order of a key is found by
    walking the ring from the key's hash until every node was met; the Go loop
    has no other bound, so it ends only if every node still owns a point of the
    ring after hash collisions.  [getSlotOrder] is the loop with fuel; the
    theorem shows when it ends, that one turn of the ring is then enough, and
    what it returns. *)
From S2P Require Import Prelude GoText.

(** uint32 arithmetic. *)
Definition fnv_step (h : Z) (c : ascii) : Z := (Z.lxor h (Z.of_N (byte_of c)) * 16777619 mod 2 ^ 32)%Z.
Fixpoint fnv1a_from (h : Z) (s : string) : Z :=
  match s with
  | EmptyString => h
  | String c r => fnv1a_from (fnv_step h c) r
  end.
Definition fnv1a (s : string) : Z := fnv1a_from 2166136261 s.

Record consistentHash := mkHash {
  ch_ring : list Z;
  ch_nodeMap : gmap Z nat;
  ch_numNodes : nat }.

(** [fmt.Sprintf("node-%d-replica-%d", i, r)]. *)
Definition replicaName (i r : nat) : string :=
  "node-" +:+ dec_of_N (N.of_nat i) +:+ "-replica-" +:+ dec_of_N (N.of_nat r).

Definition add_point (acc : list Z * gmap Z nat) (i : nat) (h : Z) : list Z * gmap Z nat :=
  (fst acc ++ [h], <[h := i]> (snd acc)).

(** The points of node [i] are appended to the ring and entered in the map. *)
Definition add_node (replicas : nat) (acc : list Z * gmap Z nat) (i : nat) : list Z * gmap Z nat :=
  foldl (fun acc r => add_point acc i (fnv1a (replicaName i r))) acc (seq 0 replicas).

Definition hash_points (numNodes replicas : nat) : list Z * gmap Z nat :=
  foldl (add_node replicas) ([], ∅) (seq 0 numNodes).

Definition newConsistentHash (numNodes replicas : nat) : consistentHash :=
  let points := hash_points numNodes replicas in
  mkHash (merge_sort Z.le (fst points)) (snd points) numNodes.

(** [sort.Search]: the first index whose point is at or after [h]. *)
Fixpoint search_point (h : Z) (ring : list Z) : nat :=
  match ring with
  | [] => 0
  | x :: rest => if (h <=? x)%Z then 0 else S (search_point h rest)
  end.

Definition ring_start (ch : consistentHash) (h : Z) : nat :=
  let idx := search_point h (ch_ring ch) in
  if Nat.leb (List.length (ch_ring ch)) idx then 0 else idx.

(** The node that owns the point at position [idx], around the ring; a missing
    map key reads as 0. *)
Definition owner (ch : consistentHash) (idx : nat) : nat :=
  default 0 (ch_nodeMap ch !! nth (idx mod List.length (ch_ring ch)) (ch_ring ch) 0%Z).

(** The loop; [None] is out of fuel. *)
Fixpoint orderLoop (fuel : nat) (ch : consistentHash) (idx : nat) (seen : gset nat) (order : list nat) : option (list nat) :=
  if Nat.ltb (List.length order) (ch_numNodes ch) then
    match fuel with
    | O => None
    | S fuel' =>
        let nodeIdx := owner ch idx in
        if bool_decide (nodeIdx ∈ seen) then orderLoop fuel' ch (S idx) seen order
        else orderLoop fuel' ch (S idx) ({[nodeIdx]} ∪ seen) (order ++ [nodeIdx])
    end
  else Some order.

(** [Some []] stands for the nil order of an empty ring. *)
Definition getSlotOrder (fuel : nat) (ch : consistentHash) (key : string) : option (list nat) :=
  match ch_ring ch with
  | [] => Some []
  | _ => orderLoop fuel ch (ring_start ch (fnv1a key)) ∅ []
  end.

(** ** Points and owners *)

(** Every node owns a point of the ring. *)
Definition covered (ch : consistentHash) : Prop :=
  forall i, i < ch_numNodes ch -> exists h, ch_nodeMap ch !! h = Some i.

Lemma add_points replicas i acc :
  (forall h j, snd acc !! h = Some j -> h ∈ fst acc) -> (forall h, h ∈ fst acc -> is_Some (snd acc !! h)) ->
  (forall h j, snd (add_node replicas acc i) !! h = Some j -> h ∈ fst (add_node replicas acc i)) /\
  (forall h, h ∈ fst (add_node replicas acc i) -> is_Some (snd (add_node replicas acc i) !! h)) /\
  (forall h j, snd (add_node replicas acc i) !! h = Some j -> j = i \/ snd acc !! h = Some j).
Proof.
  unfold add_node. generalize (seq 0 replicas). intros l. revert acc.
  induction l as [|r l IH]; intros acc H1 H2; simpl; [eauto|].
  set (h := fnv1a (replicaName i r)).
  destruct (IH (fst acc ++ [h], <[h := i]> (snd acc))) as (Ha & Hb & Hc); simpl.
  - intros x j [[<- <-]|[_ Hx]]%lookup_insert_Some; [set_solver|]. apply elem_of_app. left. eauto.
  - intros x [Hx|Hx%list_elem_of_singleton]%elem_of_app.
    + destruct (decide (x = h)) as [->|Hne]; [rewrite lookup_insert_eq; eauto|]. rewrite lookup_insert_ne by done. eauto.
    + subst x. rewrite lookup_insert_eq. eauto.
  - split_and!; [done|done|]. intros x j Hx. destruct (Hc _ _ Hx) as [->|Hx']; [by left|]. simpl in Hx'.
    apply lookup_insert_Some in Hx' as [[_ ->]|[_ ?]]; auto.
Qed.

(** The points of [n] nodes: map and ring agree, owners are nodes, and a node's
    surviving points survive in every smaller ring that has the node. *)
Lemma points_ok n replicas :
  (forall h j, snd (hash_points n replicas) !! h = Some j -> h ∈ fst (hash_points n replicas) /\ j < n) /\
  (forall h, h ∈ fst (hash_points n replicas) -> is_Some (snd (hash_points n replicas) !! h)).
Proof.
  unfold hash_points. induction n as [|n [IH1 IH2]]; [split; [done|]; intros h Hh; by apply elem_of_nil in Hh|].
  rewrite seq_S, foldl_app. simpl.
  destruct (add_points replicas n (foldl (add_node replicas) ([], ∅) (seq 0 n))) as (Ha & Hb & Hc);
    [intros h j Hj; by apply IH1 in Hj as [? _]|done|].
  split; [|done]. intros h j Hj. split; [eauto|]. destruct (Hc _ _ Hj) as [->|Hj']; [lia|].
  apply IH1 in Hj' as [_ ?]. lia.
Qed.

Lemma points_smaller n m replicas h i :
  n <= m -> i < n -> snd (hash_points m replicas) !! h = Some i -> snd (hash_points n replicas) !! h = Some i.
Proof.
  intros Hnm Hi. induction Hnm as [|m Hnm IH]; [done|]. intros Hh. apply IH.
  revert Hh. unfold hash_points. rewrite seq_S, foldl_app. simpl. intros Hh.
  destruct (points_ok m replicas) as [H1 H2].
  destruct (add_points replicas m (hash_points m replicas)) as (_ & _ & Hc);
    [intros x j Hj; by apply H1 in Hj as [? _]|done|].
  destruct (Hc _ _ Hh) as [->|?]; [lia|done].
Qed.

(** ** The walk *)

(** The part of a ring that the walk relies on. *)
Record ring_ok (ch : consistentHash) : Prop := {
  ro_nonempty : ch_ring ch <> [];
  ro_owner : forall idx, owner ch idx < ch_numNodes ch;
  ro_point : forall i h, ch_nodeMap ch !! h = Some i -> exists k, k < List.length (ch_ring ch) /\ owner ch k = i;
  ro_owned : forall idx, exists h, ch_nodeMap ch !! h = Some (owner ch idx) }.

Lemma add_node_length replicas i acc :
  List.length (fst (add_node replicas acc i)) = List.length (fst acc) + replicas.
Proof.
  unfold add_node. assert (Hl : forall l acc, List.length (fst (foldl (fun acc r => add_point acc i (fnv1a (replicaName i r))) acc l))
      = List.length (fst acc) + List.length l).
  { intros l. induction l as [|r l IH]; intros a; simpl; [lia|]. rewrite IH. simpl. rewrite length_app. simpl. lia. }
  by rewrite Hl, length_seq.
Qed.

Lemma points_length n replicas : List.length (fst (hash_points n replicas)) = n * replicas.
Proof.
  unfold hash_points. induction n as [|n IH]; [done|]. rewrite seq_S, foldl_app. simpl.
  rewrite add_node_length, IH. lia.
Qed.

Lemma new_ring_ok n replicas : 0 < n -> 0 < replicas -> ring_ok (newConsistentHash n replicas).
Proof.
  intros Hn Hr. destruct (points_ok n replicas) as [H1 H2].
  assert (Hperm : ch_ring (newConsistentHash n replicas) ≡ₚ fst (hash_points n replicas)) by apply merge_sort_Permutation.
  assert (Hne : ch_ring (newConsistentHash n replicas) <> []).
  { intros E. apply (f_equal List.length) in E. rewrite Hperm, points_length in E. simpl in E. nia. }
  assert (Hown : forall idx, exists h, ch_nodeMap (newConsistentHash n replicas) !! h = Some (owner (newConsistentHash n replicas) idx)).
  { intros idx. unfold owner.
    set (h := nth _ _ _). assert (Hh : h ∈ ch_ring (newConsistentHash n replicas)).
    { apply list_elem_of_In, nth_In, Nat.mod_upper_bound. by destruct (ch_ring _). }
    rewrite Hperm in Hh. apply H2 in Hh as [j Hj]. exists h. simpl. by rewrite Hj. }
  split; [done| | |done].
  - intros idx. destruct (Hown idx) as [h Hh]. by apply H1 in Hh as [_ ?].
  - intros i h Hh. pose proof Hh as Hh'. apply H1 in Hh' as [Hin _]. rewrite <- Hperm in Hin.
    apply list_elem_of_In, (In_nth _ _ 0%Z) in Hin as (k & Hk & E). exists k. split; [done|].
    unfold owner. rewrite Nat.mod_small, E by done. simpl in *. by rewrite Hh.
Qed.

Section walk.
Context (ch : consistentHash) (Hok : ring_ok ch).
Local Notation n := (ch_numNodes ch).
Local Notation L := (List.length (ch_ring ch)).

Record walk_inv (seen : gset nat) (order : list nat) : Prop := {
  wi_nodup : NoDup order;
  wi_seen : forall i, i ∈ seen <-> i ∈ order;
  wi_node : forall i, i ∈ order -> i < n }.

Lemma walk_step idx seen order :
  walk_inv seen order -> owner ch idx ∉ seen -> walk_inv ({[owner ch idx]} ∪ seen) (order ++ [owner ch idx]).
Proof.
  intros [Hn Hs Hb] Ho. split.
  - apply NoDup_app. split_and!; [done| |apply NoDup_singleton].
    intros x Hx ->%list_elem_of_singleton. by apply Ho, Hs.
  - intros i. rewrite elem_of_union, elem_of_singleton, elem_of_app, list_elem_of_singleton, Hs. tauto.
  - intros i [?| ->%list_elem_of_singleton]%elem_of_app; [auto|apply (ro_owner _ Hok)].
Qed.

(** Nodes, all different and in range, as many as there are: all of them. *)
Lemma walk_complete seen order : walk_inv seen order -> n <= List.length order -> order ≡ₚ seq 0 n.
Proof.
  intros [Hn _ Hb] Hl. apply submseteq_length_Permutation; [|by rewrite length_seq].
  apply NoDup_submseteq; [done|]. intros x Hx. apply elem_of_seq. specialize (Hb x Hx). lia.
Qed.

Lemma walk_missing seen order i : walk_inv seen order -> i < n -> i ∉ order -> List.length order < n.
Proof.
  intros Hw Hi Hni. destruct (decide (n <= List.length order)) as [Hl|]; [|lia].
  exfalso. apply Hni. rewrite (walk_complete _ _ Hw Hl). apply elem_of_seq. lia.
Qed.

(** Whatever is returned is an order of all the nodes. *)
Lemma loop_result fuel idx seen order out :
  walk_inv seen order -> orderLoop fuel ch idx seen order = Some out -> out ≡ₚ seq 0 n.
Proof.
  revert idx seen order. induction fuel as [|fuel IH]; intros idx seen order Hw; simpl;
    destruct (Nat.ltb_spec (List.length order) n) as [Hl|Hl]; try done;
    try (by intros [= <-]; eapply walk_complete).
  case_bool_decide as Ho; [by apply IH|]. apply IH. by apply walk_step.
Qed.

(** With a point for every node, one turn of the ring meets them all. *)
Lemma loop_ends fuel idx seen order k :
  covered ch -> walk_inv seen order -> fuel + k = L -> k <= L ->
  (forall j, j < k -> owner ch (idx + L - k + j) ∈ order) ->
  is_Some (orderLoop fuel ch idx seen order).
Proof.
  intros Hc. revert idx seen order k. induction fuel as [|fuel IH]; intros idx seen order k Hw Hf Hk Hin; simpl.
  - destruct (Nat.ltb_spec (List.length order) n) as [Hl|Hl]; [|done]. exfalso.
    assert (k = L) as -> by lia.
    assert (Hall : forall i, i < n -> i ∈ order).
    { intros i Hi. destruct (Hc i Hi) as [h Hh]. destruct (ro_point _ Hok _ _ Hh) as (p & Hp & <-).
      assert (HL : 0 < L) by lia. pose proof (Nat.mod_upper_bound idx L ltac:(lia)) as Hm.
      (* the position [p] as an offset of at most one turn from [idx] *)
      set (j := if decide (idx mod L <= p) then p - idx mod L else p + L - idx mod L).
      assert (Hj : j < L) by (unfold j; destruct (decide _); lia).
      specialize (Hin j Hj). replace (owner ch p) with (owner ch (idx + L - L + j)); [done|].
      unfold owner. f_equal. f_equal. f_equal.
      replace (idx + L - L + j) with (idx + j) by lia.
      rewrite <- Nat.Div0.add_mod_idemp_l. rewrite (Nat.mod_small p) by done. unfold j. destruct (decide _).
      - rewrite Nat.mod_small; lia.
      - replace (idx mod L + (p + L - idx mod L)) with (p + 1 * L) by lia.
        rewrite Nat.Div0.mod_add, Nat.mod_small; lia. }
    assert (Hs : seq 0 n ⊆+ order).
    { apply NoDup_submseteq; [apply NoDup_seq|]. intros i Hi%elem_of_seq. apply Hall. lia. }
    apply submseteq_length in Hs. rewrite length_seq in Hs. lia.
  - destruct (Nat.ltb_spec (List.length order) n) as [Hl|Hl]; [|done].
    assert (Hshift : forall o, owner ch idx ∈ o -> order ⊆ o -> forall j, j < S k -> owner ch (S idx + L - S k + j) ∈ o).
    { intros o Ho Hsub j Hj. replace (S idx + L - S k + j) with (idx + L - k + j) by lia.
      destruct (decide (j = k)) as [->|Hne]; [|apply Hsub, Hin; lia].
      replace (idx + L - k + k) with (idx + 1 * L) by lia.
      unfold owner. rewrite Nat.Div0.mod_add. exact Ho. }
    case_bool_decide as Ho.
    + apply (IH _ _ _ (S k)); [done|lia|lia|]. apply Hshift; [by apply (wi_seen _ _ Hw)|done].
    + apply (IH _ _ _ (S k)); [by apply walk_step|lia|lia|]. apply Hshift; set_solver.
Qed.

(** Without a point for some node, the loop never ends. *)
Lemma loop_diverges fuel idx seen order i :
  i < n -> (forall idx, owner ch idx <> i) -> walk_inv seen order -> i ∉ order -> orderLoop fuel ch idx seen order = None.
Proof.
  intros Hi Hno. revert idx seen order. induction fuel as [|fuel IH]; intros idx seen order Hw Hni; simpl;
    pose proof (walk_missing _ _ _ Hw Hi Hni) as Hl; destruct (Nat.ltb_spec (List.length order) n); try lia; [done|].
  case_bool_decide as Ho; [by apply IH|]. apply IH; [by apply walk_step|].
  intros [?|E%list_elem_of_singleton]%elem_of_app; [done|]. by apply (Hno idx).
Qed.
End walk.

Lemma walk_start ch : walk_inv ch ∅ [].
Proof. split; [constructor|set_solver|set_solver]. Qed.

(** Every node of a pool of up to 64 workers keeps a point under the 150 replicas
    of [Pool.Replace]: one evaluation for the largest pool, the smaller ones
    keep more points. *)
Definition owners_of (m : gmap Z nat) : gset nat := map_fold (fun _ i s => {[i]} ∪ s) ∅ m.

Lemma owners_of_elem m i : i ∈ owners_of m -> exists h, m !! h = Some i.
Proof.
  unfold owners_of. apply (map_fold_weak_ind (fun (s : gset nat) m => i ∈ s -> exists h, m !! h = Some i)).
  - set_solver.
  - intros h j m' s Hh IH [->%elem_of_singleton|Hs]%elem_of_union.
    + exists h. apply lookup_insert_eq.
    + destruct (IH Hs) as [h' Hh']. exists h'. rewrite lookup_insert_ne; [done|]. intros ->. congruence.
Qed.

Definition owners_cover (n : nat) (m : gmap Z nat) : bool :=
  let owners := owners_of m in forallb (fun i => bool_decide (i ∈ owners)) (seq 0 n).

(** The map alone, without the ring. *)
Definition node_map (numNodes replicas : nat) : gmap Z nat :=
  foldl (fun m i => foldl (fun m r => <[fnv1a (replicaName i r) := i]> m) m (seq 0 replicas)) ∅ (seq 0 numNodes).

Lemma node_map_points n replicas : node_map n replicas = snd (hash_points n replicas).
Proof.
  unfold node_map, hash_points. induction n as [|n IH]; [done|]. rewrite seq_S, !foldl_app. simpl. rewrite IH.
  generalize (foldl (add_node replicas) ([], ∅) (seq 0 n)). clear IH. unfold add_node.
  generalize (seq 0 replicas). intros l. induction l as [|r l IHl]; intros acc; [done|]. simpl. by rewrite <- IHl.
Qed.

(** The same map with the hash of the common prefix of a node's replicas taken
    once and the reduction modulo 2^32 as a mask. *)
Fixpoint fast_from (h : Z) (s : string) : Z :=
  match s with
  | EmptyString => h
  | String c r => fast_from (Z.land (Z.lxor h (Z.of_N (byte_of c)) * 16777619) (Z.ones 32)) r
  end.
Definition replica_names (replicas : nat) : list string := (fun r => dec_of_N (N.of_nat r)) <$> seq 0 replicas.
Definition fast_map (numNodes replicas : nat) : gmap Z nat :=
  let names := replica_names replicas in
  foldl (fun m i =>
    let prefix := fast_from 2166136261 ("node-" +:+ dec_of_N (N.of_nat i) +:+ "-replica-") in
    foldl (fun m name => <[fast_from prefix name := i]> m) m names) ∅ (seq 0 numNodes).

Lemma fast_from_eq s : forall h, fast_from h s = fnv1a_from h s.
Proof. induction s as [|c s IH]; intros h; simpl; [done|]. rewrite IH, Z.land_ones by lia. done. Qed.

Lemma fnv1a_from_app s t : forall h, fnv1a_from h (s +:+ t) = fnv1a_from (fnv1a_from h s) t.
Proof. induction s as [|c s IH]; intros h; simpl; [done|]. apply IH. Qed.

Lemma fast_map_eq n replicas : fast_map n replicas = node_map n replicas.
Proof.
  unfold fast_map, node_map, replica_names. cbv zeta. generalize (∅ : gmap Z nat).
  induction (seq 0 n) as [|i nodes IHn]; intros m0; [done|]. cbn [foldl]. rewrite IHn. f_equal. clear IHn.
  revert m0. induction (seq 0 replicas) as [|r l IH]; intros m; simpl; [done|]. rewrite IH. do 2 f_equal.
  rewrite !fast_from_eq, <- fnv1a_from_app. unfold fnv1a, replicaName. by rewrite !append_assoc.
Qed.

Lemma points_64 : owners_cover 64 (fast_map 64 150) = true.
Proof. vm_cast_no_check (eq_refl true). Qed.

Lemma covered_64 n : n <= 64 -> covered (newConsistentHash n 150).
Proof.
  intros Hn i Hi. simpl in Hi. pose proof points_64 as Hp. unfold owners_cover in Hp. rewrite forallb_forall in Hp.
  specialize (Hp i). destruct (owners_of_elem (fast_map 64 150) i) as [h Hh].
  { refine (proj1 (bool_decide_eq_true _) (Hp _)). apply list_elem_of_In, elem_of_seq. lia. }
  rewrite fast_map_eq, node_map_points in Hh. exists h. by apply (points_smaller n 64).
Qed.

Lemma order_ends n replicas key :
  0 < n -> 0 < replicas -> covered (newConsistentHash n replicas) ->
  exists order, getSlotOrder (n * replicas) (newConsistentHash n replicas) key = Some order /\ order ≡ₚ seq 0 n.
Proof.
  intros Hn Hr Hc. set (ch := newConsistentHash n replicas) in *. pose proof (new_ring_ok n replicas Hn Hr : ring_ok ch) as Hok.
  assert (HL : List.length (ch_ring ch) = n * replicas).
  { unfold ch. simpl. rewrite merge_sort_Permutation. apply points_length. }
  unfold getSlotOrder. destruct (ch_ring ch) as [|x ring] eqn:E; [by destruct (ro_nonempty _ Hok)|]. rewrite <- E in HL.
  destruct (loop_ends ch Hok (n * replicas) (ring_start ch (fnv1a key)) ∅ [] 0 Hc (walk_start ch)) as [order Ho];
    [lia|lia|lia|]. exists order. split; [done|]. by eapply (loop_result ch Hok), Ho; apply walk_start.
Qed.

(** The walk around the ring ends exactly when every node owns a point, and
    then one turn of the ring is enough and gives every node once.  A node whose
    points were all taken over by colliding replicas makes [getSlotOrder] loop
    for every key; for pools of up to 64 workers with the 150 replicas the pool
    uses there is no such node, so the order of every key is a permutation of
    the workers. *)
Theorem slot_order_visits_each_node n replicas key :
  0 < n -> 0 < replicas ->
  let ch := newConsistentHash n replicas in
  (covered ch -> exists order, getSlotOrder (n * replicas) ch key = Some order /\ order ≡ₚ seq 0 n) /\
  (forall i, i < n -> (forall h, ch_nodeMap ch !! h <> Some i) -> forall fuel, getSlotOrder fuel ch key = None) /\
  (replicas = 150 -> n <= 64 -> covered ch).
Proof.
  intros Hn Hr ch. pose proof (new_ring_ok n replicas Hn Hr : ring_ok ch) as Hok.
  split_and!.
  - by apply order_ends.
  - intros i Hi Hno fuel. unfold getSlotOrder. destruct (ch_ring ch) eqn:E; [by destruct (ro_nonempty _ Hok)|].
    eapply (loop_diverges ch Hok); [exact Hi| |apply walk_start|set_solver].
    intros idx Hidx. destruct (ro_owned _ Hok idx) as [h Hh]. rewrite Hidx in Hh. by apply (Hno h).
  - intros -> Hle. by apply covered_64.
Qed.

Lemma slot_order_visits_each_node_witness :
  exists order, getSlotOrder (4 * 150) (newConsistentHash 4 150) "localhost:5001/kova-examples/simple:dev" = Some order /\
    order ≡ₚ seq 0 4.
Proof.
  destruct (slot_order_visits_each_node 4 150 "localhost:5001/kova-examples/simple:dev" ltac:(lia) ltac:(lia)) as (H1 & _ & H3).
  apply H1, H3; [reflexivity|lia].
Defined.
