(* ===== verification/Pool.v ===== *)
(** * The worker pool of the build scheduler

    [internal/scheduler/pool.go] and the cooldown of [addr.go].  Slots and
    addresses are shared through pointers: a snapshot, the pool and every running
    build hold the same [*Slot], so they live in a heap and are named by
    location.  The semaphore channel of a slot is its capacity and its number of
    buffered tokens.  [clock] gives the readings of [time.Now()] in the order of
    the calls; a zero [cooldownUntil] is [None]. *)
From S2P Require Import Prelude GoText FairQueue HashRing.

Record Addr := mkAddr {
  ad_Original : string;
  ad_Addr : string;
  ad_NodeIP : string;
  ad_Cooldown : Z;
  ad_cooldownUntil : option Z }.

Record Slot := mkSlot {
  sl_Addr : option nat;               (* *Addr, a location of [hp_addrs] *)
  sl_Sem_cap : nat;
  sl_Sem_len : nat }.

Record heap := mkHeap {
  hp_addrs : gmap nat Addr;
  hp_slots : gmap nat Slot;
  hp_next : nat }.

Record Pool := mkPool {
  pl_concurrency : nat;
  pl_slots : list (option nat);
  pl_hash : option consistentHash }.

Record PoolSnapshot := mkSnapshot { sn_Slots : list (option nat); sn_hash : option consistentHash }.

Definition Snapshot (p : Pool) : PoolSnapshot := mkSnapshot (pl_slots p) (pl_hash p).

(** ** Addresses *)

Definition IsInCooldown (a : Addr) (now : Z) : bool :=
  match ad_cooldownUntil a with Some t => (now <? t)%Z | None => false end.

Definition SetCooldown (h : heap) (a : nat) (now : Z) : heap :=
  match hp_addrs h !! a with
  | Some x => mkHeap (<[a := mkAddr (ad_Original x) (ad_Addr x) (ad_NodeIP x) (ad_Cooldown x) (Some (now + ad_Cooldown x)%Z)]> (hp_addrs h))
                (hp_slots h) (hp_next h)
  | None => h
  end.

(** [slot != nil && slot.Addr != nil], with the location of the address. *)
Definition slot_addr (h : heap) (slot : option nat) : option (nat * nat) :=
  match slot with
  | Some l => match hp_slots h !! l with
              | Some s => match sl_Addr s with Some a => Some (l, a) | None => None end
              | None => None
              end
  | None => None
  end.

Definition addr_text (h : heap) (a : nat) : string :=
  match hp_addrs h !! a with Some x => ad_Addr x | None => "" end.

(** [slotAddressKeys] and [Addresses]. *)
Definition slotAddressKeys (h : heap) (slots : list (option nat)) : list string :=
  omap (fun s => match slot_addr h s with Some (_, a) => Some (addr_text h a) | None => None end) slots.

Definition Addresses (h : heap) (p : Pool) : list string := slotAddressKeys h (pl_slots p).

(** ** Replace *)

(** [existing]: the last slot of each address. *)
Definition existing_slots (h : heap) (slots : list (option nat)) : gmap string nat :=
  foldl (fun m s => match slot_addr h s with Some (l, a) => <[addr_text h a := l]> m | None => m end) ∅ slots.

(** The loop over the new addresses: keep a slot of the same address, or make one. *)
Fixpoint newSlots (concurrency : nat) (existing : gmap string nat) (h : heap) (addrs : list (option nat))
    : heap * list nat :=
  match addrs with
  | [] => (h, [])
  | None :: rest => newSlots concurrency existing h rest
  | Some a :: rest =>
      match existing !! addr_text h a with
      | Some l => let '(h', ls) := newSlots concurrency existing h rest in (h', l :: ls)
      | None =>
          let l := hp_next h in
          let h1 := mkHeap (hp_addrs h) (<[l := mkSlot (Some a) concurrency 0]> (hp_slots h)) (S l) in
          let '(h', ls) := newSlots concurrency existing h1 rest in (h', l :: ls)
      end
  end.

Definition slot_text (h : heap) (l : nat) : string :=
  match slot_addr h (Some l) with Some (_, a) => addr_text h a | None => "" end.

Definition Replace (h : heap) (p : Pool) (addrs : list (option nat)) : heap * Pool :=
  let '(h', ls) := newSlots (pl_concurrency p) (existing_slots h (pl_slots p)) h addrs in
  let sorted := sort_by (fun x y => str_ltb (slot_text h' x) (slot_text h' y)) ls in
  (h', mkPool (pl_concurrency p) (Some <$> sorted)
         (match sorted with [] => None | _ => Some (newConsistentHash (List.length sorted) 150) end)).

Definition NewPool (h : heap) (addrs : list (option nat)) (concurrency : nat) : heap * Pool :=
  Replace h (mkPool concurrency [] None) addrs.

(** ** Picking *)

(** [idx >= 0 && idx < len(Slots)] and the nil checks: the slot and its address. *)
Definition usable (h : heap) (sn : PoolSnapshot) (idx : nat) : option (nat * nat) :=
  match sn_Slots sn !! idx with Some s => slot_addr h s | None => None end.

Definition in_cooldown (h : heap) (a : nat) (now : Z) : bool :=
  match hp_addrs h !! a with Some x => IsInCooldown x now | None => false end.

(** The loop of [PickSlot]; [t] counts the clock readings. *)
Fixpoint pickLoop (h : heap) (sn : PoolSnapshot) (clock : nat -> Z) (t : nat) (fallback : option nat) (order : list nat) : option nat :=
  match order with
  | [] => fallback
  | idx :: rest =>
      match usable h sn idx with
      | None => pickLoop h sn clock t fallback rest
      | Some (l, a) =>
          if negb (in_cooldown h a (clock t)) then Some l
          else pickLoop h sn clock (S t) (match fallback with None => Some l | f => f end) rest
      end
  end.

(** Outer [None]: the order of the key never ends. *)
Definition PickSlot (fuel : nat) (h : heap) (sn : PoolSnapshot) (clock : nat -> Z) (key : string) : option (option nat) :=
  match sn_Slots sn, sn_hash sn with
  | [], _ | _, None => Some None
  | _, Some ch =>
      match getSlotOrder fuel ch key with
      | None => None
      | Some order => Some (pickLoop h sn clock 0 None order)
      end
  end.

(** [select { case sem <- struct{}{}: true; default: false }]. *)
Definition TryAcquireSlot (h : heap) (l : nat) : option heap :=
  match hp_slots h !! l with
  | Some s =>
      if Nat.ltb (sl_Sem_len s) (sl_Sem_cap s)
      then Some (mkHeap (hp_addrs h) (<[l := mkSlot (sl_Addr s) (sl_Sem_cap s) (S (sl_Sem_len s))]> (hp_slots h)) (hp_next h))
      else None
  | None => None
  end.

(** One pass over the order; the result carries the clock for the next pass. *)
Fixpoint availableLoop (requireReady : bool) (h : heap) (sn : PoolSnapshot) (clock : nat -> Z) (t : nat) (order : list nat)
    : nat * option (heap * nat) :=
  match order with
  | [] => (t, None)
  | idx :: rest =>
      match usable h sn idx with
      | None => availableLoop requireReady h sn clock t rest
      | Some (l, a) =>
          let t' := if requireReady then S t else t in
          if requireReady && in_cooldown h a (clock t) then availableLoop requireReady h sn clock t' rest
          else match TryAcquireSlot h l with
               | None => availableLoop requireReady h sn clock t' rest
               | Some h' => (t', Some (h', l))
               end
      end
  end.

Definition PickAvailableSlot (fuel : nat) (h : heap) (sn : PoolSnapshot) (clock : nat -> Z) (key : string)
    : option (option (heap * nat)) :=
  match sn_Slots sn, sn_hash sn with
  | [], _ | _, None => Some None
  | _, Some ch =>
      match getSlotOrder fuel ch key with
      | None => None
      | Some order =>
          match availableLoop true h sn clock 0 order with
          | (_, Some r) => Some (Some r)
          | (t, None) => Some (snd (availableLoop false h sn clock t order))
          end
      end
  end.

(** [<-slot.Sem] of a finished build. *)
Definition ReleaseSlot (h : heap) (l : nat) : heap :=
  match hp_slots h !! l with
  | Some s => mkHeap (hp_addrs h) (<[l := mkSlot (sl_Addr s) (sl_Sem_cap s) (pred (sl_Sem_len s))]> (hp_slots h)) (hp_next h)
  | None => h
  end.
