(* ===== verification/PoolTheorems.v ===== *)
(** * What the worker pool promises

    No worker runs more builds than its concurrency while it stays listed, across
    refreshes of the address list, stale snapshots, releases and cooldowns; and picking is
    work-conserving: it finds a free slot whenever there is one. *)
From S2P Require Import Prelude GoText FairQueue FairFacts HashRing Pool.

(** ** The dispatcher, its builds and the refresher *)

(** [ParseAddrs] allocates the addresses of a refresh. *)
Fixpoint alloc_addrs (h : heap) (addrs : list (option Addr)) : heap * list (option nat) :=
  match addrs with
  | [] => (h, [])
  | None :: rest => let '(h', ps) := alloc_addrs h rest in (h', None :: ps)
  | Some a :: rest =>
      let '(h', ps) := alloc_addrs (mkHeap (<[hp_next h := a]> (hp_addrs h)) (hp_slots h) (S (hp_next h))) rest in
      (h', Some (hp_next h) :: ps)
  end.

(** [running]: the slots of the builds in progress, one entry per build. *)
Record dispatch := mkDispatch {
  ds_heap : heap;
  ds_pool : Pool;
  ds_snapshot : PoolSnapshot;
  ds_running : list nat }.

Definition refresh (d : dispatch) (addrs : list (option Addr)) : dispatch :=
  let '(h1, ps) := alloc_addrs (ds_heap d) addrs in
  let '(h2, p) := Replace h1 (ds_pool d) ps in
  mkDispatch h2 p (ds_snapshot d) (ds_running d).

(** The refreshes are those whose address list satisfies [listed]. *)
Inductive dispatch_step (listed : list (option Addr) -> Prop) : dispatch -> dispatch -> Prop :=
| step_refresh d addrs : listed addrs -> dispatch_step listed d (refresh d addrs)
| step_snapshot d : dispatch_step listed d (mkDispatch (ds_heap d) (ds_pool d) (Snapshot (ds_pool d)) (ds_running d))
| step_pick d fuel clock key h' l :
    PickAvailableSlot fuel (ds_heap d) (ds_snapshot d) clock key = Some (Some (h', l)) ->
    dispatch_step listed d (mkDispatch h' (ds_pool d) (ds_snapshot d) (l :: ds_running d))
| step_finish d l before after :
    ds_running d = before ++ l :: after ->
    dispatch_step listed d (mkDispatch (ReleaseSlot (ds_heap d) l) (ds_pool d) (ds_snapshot d) (before ++ after))
| step_cooldown d a now :
    dispatch_step listed d (mkDispatch (SetCooldown (ds_heap d) a now) (ds_pool d) (ds_snapshot d) (ds_running d)).

Definition started (addrs : list (option Addr)) (concurrency : nat) : dispatch :=
  refresh (mkDispatch (mkHeap ∅ ∅ 0) (Pool.mkPool concurrency [] None) (mkSnapshot [] None) []) addrs.

Definition builds_on (running : list nat) (l : nat) : nat := List.length (List.filter (Nat.eqb l) running).

(** ** Capacity *)

(** Every slot's tokens are its running builds, at most [c]. *)
Record capacity_ok (c : nat) (d : dispatch) : Prop := {
  cp_pool : pl_concurrency (ds_pool d) = c;
  cp_slot : forall l s, hp_slots (ds_heap d) !! l = Some s ->
    l < hp_next (ds_heap d) /\ sl_Sem_cap s = c /\ sl_Sem_len s = builds_on (ds_running d) l /\ sl_Sem_len s <= c;
  cp_running : forall l, l ∈ ds_running d -> is_Some (hp_slots (ds_heap d) !! l) }.

Lemma builds_on_app r1 r2 l : builds_on (r1 ++ r2) l = builds_on r1 l + builds_on r2 l.
Proof. unfold builds_on. by rewrite List.filter_app, length_app. Qed.

Lemma builds_on_cons l' r l : builds_on (l' :: r) l = (if decide (l = l') then 1 else 0) + builds_on r l.
Proof. unfold builds_on. simpl. destruct (Nat.eqb_spec l l'), (decide (l = l')); simpl; lia || done. Qed.

Lemma builds_on_none r l : l ∉ r -> builds_on r l = 0.
Proof.
  intros Hl. induction r as [|x r IH]; [done|]. apply not_elem_of_cons in Hl as [? ?].
  rewrite builds_on_cons, IH by done. by rewrite decide_False by done.
Qed.

(** A heap that only gained empty slots of the same capacity. *)
Definition grows (c : nat) (h h' : heap) : Prop :=
  hp_next h <= hp_next h' /\ (forall l s, hp_slots h !! l = Some s -> hp_slots h' !! l = Some s) /\
  forall l s, hp_slots h' !! l = Some s ->
    hp_slots h !! l = Some s \/ (hp_next h <= l < hp_next h' /\ sl_Sem_cap s = c /\ sl_Sem_len s = 0).

Lemma grows_refl c h : grows c h h.
Proof. split_and!; auto. Qed.

Lemma grows_trans c h1 h2 h3 : grows c h1 h2 -> grows c h2 h3 -> grows c h1 h3.
Proof.
  intros (N1 & K1 & F1) (N2 & K2 & F2). split_and!; [lia|eauto|].
  intros l s Hs. destruct (F2 _ _ Hs) as [Hs'|(? & ? & ?)]; [|right; split_and!; lia || done].
  destruct (F1 _ _ Hs') as [?|(? & ? & ?)]; [by left|right; split_and!; lia || done].
Qed.

Lemma alloc_grows c addrs : forall h, grows c h (fst (alloc_addrs h addrs)).
Proof.
  induction addrs as [|[a|] addrs IH]; intros h; simpl; [apply grows_refl| |].
  - specialize (IH (mkHeap (<[hp_next h := a]> (hp_addrs h)) (hp_slots h) (S (hp_next h)))).
    destruct (alloc_addrs _ addrs). simpl in *. eapply grows_trans; [|exact IH]. split_and!; simpl; auto.
  - specialize (IH h). by destruct (alloc_addrs h addrs).
Qed.

Lemma newSlots_grows c existing addrs : forall h,
  (forall l s, hp_slots h !! l = Some s -> l < hp_next h) -> grows c h (fst (newSlots c existing h addrs)).
Proof.
  induction addrs as [|[a|] addrs IH]; intros h Hb; simpl; [apply grows_refl| |by apply IH].
  destruct (existing !! addr_text h a) as [l|].
  { specialize (IH h Hb). by destruct (newSlots c existing h addrs). }
  match goal with |- context [newSlots c existing ?x addrs] => set (h1 := x) end.
  assert (H1 : grows c h h1).
  { split_and!; simpl; [lia| |].
    - intros k s Hs. rewrite lookup_insert_ne; [done|]. intros <-. apply Hb in Hs. lia.
    - intros k s [[<- <-]|[_ Hs]]%lookup_insert_Some; [|by left]. right. simpl. split_and!; lia || done. }
  specialize (IH h1). destruct (newSlots c existing h1 addrs). simpl in *. eapply grows_trans; [exact H1|apply IH].
  intros k s [[<- <-]|[_ Hs]]%lookup_insert_Some; [lia|]. apply Hb in Hs. lia.
Qed.

Lemma Replace_grows h p addrs :
  (forall l s, hp_slots h !! l = Some s -> l < hp_next h) -> grows (pl_concurrency p) h (fst (Replace h p addrs)) /\
  pl_concurrency (snd (Replace h p addrs)) = pl_concurrency p.
Proof.
  intros Hb. unfold Replace.
  pose proof (newSlots_grows (pl_concurrency p) (existing_slots h (pl_slots p)) addrs h Hb).
  by destruct (newSlots _ _ h addrs).
Qed.

Lemma refresh_ok c d addrs : capacity_ok c d -> capacity_ok c (refresh d addrs).
Proof.
  intros [Hp Hs Hr]. unfold refresh.
  pose proof (alloc_grows c addrs (ds_heap d)) as G1. destruct (alloc_addrs (ds_heap d) addrs) as [h1 ps]. simpl in G1.
  assert (Hb : forall l s, hp_slots h1 !! l = Some s -> l < hp_next h1).
  { intros l s Hl. destruct G1 as (Hn & _ & F). destruct (F _ _ Hl) as [Hl'|?]; [|lia]. apply Hs in Hl'. lia. }
  destruct (Replace_grows h1 (ds_pool d) ps Hb) as [G2 Hc]. destruct (Replace h1 (ds_pool d) ps) as [h2 p]. simpl in *.
  rewrite Hp in *. pose proof (grows_trans _ _ _ _ G1 G2) as (Hn & K & F). split; simpl; [done| |].
  - intros l s Hl. destruct (F _ _ Hl) as [Hl'|(Hle & Hcap & Hlen)].
    + destruct (Hs _ _ Hl') as (? & ? & ? & ?). split_and!; lia.
    + rewrite Hlen, builds_on_none; [split_and!; lia|]. intros Hin. destruct (Hr _ Hin) as [s' Hs']. apply Hs in Hs'. lia.
  - intros l Hin. destruct (Hr _ Hin) as [s Hl]. eauto.
Qed.

(** ** Picking *)

Definition full (h : heap) (l : nat) : Prop :=
  exists s, hp_slots h !! l = Some s /\ sl_Sem_cap s <= sl_Sem_len s.

(** One more token on [l]. *)
Definition acquired (h : heap) (l : nat) (h' : heap) : Prop :=
  exists s, hp_slots h !! l = Some s /\ sl_Sem_len s < sl_Sem_cap s /\
    h' = mkHeap (hp_addrs h) (<[l := mkSlot (sl_Addr s) (sl_Sem_cap s) (S (sl_Sem_len s))]> (hp_slots h)) (hp_next h).

Lemma TryAcquire_spec h l :
  is_Some (hp_slots h !! l) ->
  match TryAcquireSlot h l with Some h' => acquired h l h' | None => full h l end.
Proof.
  intros [s Hs]. unfold TryAcquireSlot, acquired, full. rewrite Hs.
  destruct (Nat.ltb_spec (sl_Sem_len s) (sl_Sem_cap s)); eauto.
Qed.

Lemma slot_addr_inv h s l a : slot_addr h s = Some (l, a) -> s = Some l /\ is_Some (hp_slots h !! l).
Proof.
  unfold slot_addr. destruct s as [l'|]; [|done]. destruct (hp_slots h !! l') as [sl|] eqn:E; [|done].
  destruct (sl_Addr sl); [|done]. intros [= <- <-]. rewrite E. eauto.
Qed.

Lemma usable_inv h sn idx l a : usable h sn idx = Some (l, a) -> sn_Slots sn !! idx = Some (Some l) /\ is_Some (hp_slots h !! l).
Proof.
  unfold usable. destruct (sn_Slots sn !! idx) as [s|]; [|done]. intros [-> ?]%slot_addr_inv. done.
Qed.

(** A pass acquires a slot of the snapshot that had a free token. *)
Lemma availableLoop_some ready h sn clock t order t' h' l :
  availableLoop ready h sn clock t order = (t', Some (h', l)) -> acquired h l h' /\ Some l ∈ sn_Slots sn.
Proof.
  revert t. induction order as [|idx order IH]; intros t; simpl; [done|].
  destruct (usable h sn idx) as [[l0 a]|] eqn:Eu; [|apply IH]. apply usable_inv in Eu as [Hl Hs].
  destruct (ready && _); [apply IH|]. pose proof (TryAcquire_spec h l0 Hs) as Ht.
  destruct (TryAcquireSlot h l0); [|apply IH]. intros [= _ <- <-]. split; [done|]. by eapply list_elem_of_lookup_2.
Qed.

(** The second pass gives up only when every slot it names is full. *)
Lemma availableLoop_none h sn clock t order t' idx l a :
  availableLoop false h sn clock t order = (t', None) -> idx ∈ order -> usable h sn idx = Some (l, a) -> full h l.
Proof.
  revert t. induction order as [|i order IH]; intros t; simpl; [by intros _ ?%elem_of_nil|].
  destruct (usable h sn i) as [[l0 a0]|] eqn:Eu; simpl.
  - pose proof (TryAcquire_spec h l0 (proj2 (usable_inv _ _ _ _ _ Eu))) as Ht.
    destruct (TryAcquireSlot h l0); [done|]. intros Hn [->|Hin]%elem_of_cons Hu; [by simplify_eq|eauto].
  - intros Hn [->|Hin]%elem_of_cons Hu; [congruence|eauto].
Qed.

(** Full slots cannot be acquired. *)
Lemma acquired_not_full h l h' : acquired h l h' -> ~ full h l.
Proof. intros (s & Hs & Hlt & _) (s' & Hs' & Hle). simplify_eq. lia. Qed.

Lemma pick_acquires fuel h sn clock key h' l :
  PickAvailableSlot fuel h sn clock key = Some (Some (h', l)) -> acquired h l h' /\ Some l ∈ sn_Slots sn.
Proof.
  unfold PickAvailableSlot. destruct (sn_Slots sn) as [|s0 ss] eqn:Es; [done|]. destruct (sn_hash sn) as [ch|]; [|done].
  destruct (getSlotOrder fuel ch key) as [order|]; [|done]. rewrite <- Es.
  destruct (availableLoop true h sn clock 0 order) as [t [r|]] eqn:E1.
  - intros [= ->]. by eapply availableLoop_some.
  - destruct (availableLoop false h sn clock t order) as [t' r] eqn:E2. simpl. intros [= ->]. by eapply availableLoop_some.
Qed.

(** ** Every step keeps the capacity *)

Lemma acquire_ok c d l h' :
  capacity_ok c d -> acquired (ds_heap d) l h' ->
  capacity_ok c (mkDispatch h' (ds_pool d) (ds_snapshot d) (l :: ds_running d)).
Proof.
  intros [Hp Hs Hr] (s & Hl & Hlt & ->). split; simpl; [done| |].
  - intros k x [[<- <-]|[Hne Hk]]%lookup_insert_Some; rewrite builds_on_cons.
    + destruct (Hs _ _ Hl) as (? & ? & ? & ?). rewrite decide_True by done. simpl. split_and!; lia.
    + rewrite decide_False by done. destruct (Hs _ _ Hk) as (? & ? & ? & ?). split_and!; simpl; lia.
  - intros k [->|Hk]%elem_of_cons; [rewrite lookup_insert_eq; eauto|].
    destruct (decide (k = l)) as [->|Hne]; [rewrite lookup_insert_eq; eauto|]. rewrite lookup_insert_ne by done. auto.
Qed.

Lemma finish_ok c d l before after :
  capacity_ok c d -> ds_running d = before ++ l :: after ->
  capacity_ok c (mkDispatch (ReleaseSlot (ds_heap d) l) (ds_pool d) (ds_snapshot d) (before ++ after)).
Proof.
  intros [Hp Hs Hr] E. rewrite E in *. destruct (Hr l) as [s Hl]; [set_solver|].
  unfold ReleaseSlot. rewrite Hl. split; simpl; [done| |].
  - intros k x [[<- <-]|[Hne Hk]]%lookup_insert_Some.
    + destruct (Hs _ _ Hl) as (? & ? & Hb & ?). rewrite builds_on_app, builds_on_cons, decide_True in Hb by done.
      rewrite builds_on_app. simpl. split_and!; lia.
    + destruct (Hs _ _ Hk) as (? & ? & Hb & ?). rewrite builds_on_app, builds_on_cons, decide_False in Hb by done.
      rewrite builds_on_app. split_and!; lia.
  - intros k Hk. destruct (decide (k = l)) as [->|Hne]; [rewrite lookup_insert_eq; eauto|].
    rewrite lookup_insert_ne by done. apply Hr. set_solver.
Qed.

Lemma dispatch_step_ok c listed d d' : dispatch_step listed d d' -> capacity_ok c d -> capacity_ok c d'.
Proof.
  intros Hstep Hok. destruct Hstep as [d addrs _|d|d fuel clock key h' l Hpick|d l before after E|d a now].
  - by apply refresh_ok.
  - by destruct Hok.
  - apply acquire_ok; [done|]. by apply pick_acquires in Hpick as [? _].
  - by apply finish_ok.
  - destruct Hok as [Hp Hs Hr]. unfold SetCooldown. split; simpl; [done| |]; by destruct (hp_addrs (ds_heap d) !! a).
Qed.

Lemma started_ok addrs c : capacity_ok c (started addrs c).
Proof. apply refresh_ok. split; simpl; [done| |]; [intros l s Hl; by rewrite lookup_empty in Hl|by intros l ?%elem_of_nil]. Qed.

(** ** Snapshots stay usable *)

#[local] Arguments slot_addr : simpl never.

Definition keeps_slots (h h' : heap) : Prop :=
  forall s l a, slot_addr h s = Some (l, a) -> slot_addr h' s = Some (l, a).

Lemma keeps_by h h' :
  (forall l s, hp_slots h !! l = Some s -> exists s', hp_slots h' !! l = Some s' /\ sl_Addr s' = sl_Addr s) -> keeps_slots h h'.
Proof.
  intros Hk [l|] l' a; unfold slot_addr; [|done]. destruct (hp_slots h !! l) as [s|] eqn:E; [|done].
  destruct (Hk _ _ E) as (s' & -> & ->). done.
Qed.

Lemma grows_keeps c h h' : grows c h h' -> keeps_slots h h'.
Proof. intros (_ & K & _). apply keeps_by. eauto. Qed.

Lemma update_keeps h l s s' addrs next :
  hp_slots h !! l = Some s -> sl_Addr s' = sl_Addr s -> keeps_slots h (mkHeap addrs (<[l := s']> (hp_slots h)) next).
Proof.
  intros Hl E. apply keeps_by. intros k x Hk. simpl. destruct (decide (k = l)) as [->|Hne].
  - rewrite lookup_insert_eq. exists s'. by simplify_eq.
  - rewrite lookup_insert_ne by done. eauto.
Qed.

Record snapshot_ok (h : heap) (sn : PoolSnapshot) : Prop := {
  so_slots : forall s, s ∈ sn_Slots sn -> is_Some (slot_addr h s);
  so_hash : sn_hash sn = match sn_Slots sn with [] => None | _ => Some (newConsistentHash (List.length (sn_Slots sn)) 150) end }.

Lemma snapshot_keeps h h' sn : keeps_slots h h' -> snapshot_ok h sn -> snapshot_ok h' sn.
Proof. intros Hk [Hs Hh]. split; [|done]. intros s Hin. destruct (Hs s Hin) as [[l a] E]. exists (l, a). by apply Hk. Qed.

Lemma existing_valid h slots text l :
  existing_slots h slots !! text = Some l -> is_Some (slot_addr h (Some l)).
Proof.
  unfold existing_slots.
  assert (Hf : forall m : gmap string nat, (forall k l', m !! k = Some l' -> is_Some (slot_addr h (Some l'))) ->
    foldl (fun m s => match slot_addr h s with Some (l, a) => <[addr_text h a := l]> m | None => m end) m slots !! text = Some l ->
    is_Some (slot_addr h (Some l))).
  { induction slots as [|s slots IH]; intros m Hm; simpl; [apply Hm|]. apply IH. intros k l'.
    destruct (slot_addr h s) as [[l0 a]|] eqn:E; [|apply Hm].
    intros [[_ <-]|[_ ?]]%lookup_insert_Some; [|by eapply Hm]. apply slot_addr_inv in E as E'. destruct E' as [-> _]. eauto. }
  apply Hf. intros k l' Hk. by rewrite lookup_empty in Hk.
Qed.

Lemma newSlots_valid c existing addrs : forall h,
  (forall l s, hp_slots h !! l = Some s -> l < hp_next h) ->
  (forall k l, existing !! k = Some l -> is_Some (slot_addr h (Some l))) ->
  forall l, l ∈ snd (newSlots c existing h addrs) -> is_Some (slot_addr (fst (newSlots c existing h addrs)) (Some l)).
Proof.
  induction addrs as [|[a|] addrs IH]; intros h Hb He l; simpl; [by intros ?%elem_of_nil| |by apply IH].
  destruct (existing !! addr_text h a) as [l0|] eqn:Ea.
  { specialize (IH h Hb He l). pose proof (grows_keeps c _ _ (newSlots_grows c existing addrs h Hb)) as Hk.
    destruct (newSlots c existing h addrs). simpl in *. intros [->|Hl]%elem_of_cons; [|auto].
    destruct (He _ _ Ea) as [[x y] E]. exists (x, y). by apply Hk. }
  match goal with |- context [newSlots c existing ?x addrs] => set (h1 := x) end.
  assert (Hb1 : forall k s, hp_slots h1 !! k = Some s -> k < hp_next h1).
  { intros k s Hks. simpl in Hks. apply lookup_insert_Some in Hks as [[<- <-]|[_ Hs]]; simpl; [lia|]. apply Hb in Hs. lia. }
  assert (Hk1 : keeps_slots h h1).
  { apply keeps_by. intros k s Hs. exists s. split; [|done]. simpl. rewrite lookup_insert_ne; [done|].
    intros <-. apply Hb in Hs. lia. }
  specialize (IH h1 Hb1). pose proof (grows_keeps c _ _ (newSlots_grows c existing addrs h1 Hb1)) as Hk.
  destruct (newSlots c existing h1 addrs). simpl in *. intros [->|Hl]%elem_of_cons.
  - exists (hp_next h, a). apply Hk. unfold slot_addr. simpl. by rewrite lookup_insert_eq.
  - apply IH; [|done]. intros k x Hx. destruct (He _ _ Hx) as [[u v] E]. exists (u, v). by apply Hk1.
Qed.

Lemma Replace_snapshot h p addrs :
  (forall l s, hp_slots h !! l = Some s -> l < hp_next h) ->
  snapshot_ok (fst (Replace h p addrs)) (Snapshot (snd (Replace h p addrs))).
Proof.
  intros Hb. unfold Replace.
  pose proof (newSlots_valid (pl_concurrency p) _ addrs h Hb (existing_valid h (pl_slots p))) as Hv.
  destruct (newSlots _ _ h addrs) as [h' ls]. simpl in *. split; simpl.
  - intros s (l & -> & Hl)%list_elem_of_fmap. apply Hv. by rewrite sort_by_perm in Hl.
  - destruct (sort_by _ ls) as [|x xs]; [done|]. simpl. by rewrite length_fmap.
Qed.

(** The pool and the last snapshot of a run are usable. *)
Definition snapshots_ok (d : dispatch) : Prop :=
  snapshot_ok (ds_heap d) (Snapshot (ds_pool d)) /\ snapshot_ok (ds_heap d) (ds_snapshot d).

Lemma refresh_snapshots c d addrs : capacity_ok c d -> snapshots_ok d -> snapshots_ok (refresh d addrs).
Proof.
  intros [Hp Hs Hr] [_ Hsn]. unfold refresh.
  pose proof (alloc_grows c addrs (ds_heap d)) as G1. destruct (alloc_addrs (ds_heap d) addrs) as [h1 ps]. simpl in G1.
  assert (Hb : forall l s, hp_slots h1 !! l = Some s -> l < hp_next h1).
  { intros l s Hl. destruct G1 as (Hn & _ & F). destruct (F _ _ Hl) as [Hl'|?]; [|lia]. apply Hs in Hl'. lia. }
  destruct (Replace_grows h1 (ds_pool d) ps Hb) as [G2 _]. pose proof (Replace_snapshot h1 (ds_pool d) ps Hb) as Hn.
  destruct (Replace h1 (ds_pool d) ps) as [h2 p]. simpl in *. split; [done|].
  apply (snapshot_keeps (ds_heap d)); [|done]. intros s l a E. eapply grows_keeps, grows_keeps, E; [exact G2|exact G1].
Qed.

Lemma step_snapshots c listed d d' : dispatch_step listed d d' -> capacity_ok c d -> snapshots_ok d -> snapshots_ok d'.
Proof.
  intros Hstep Hok [H1 H2]. destruct Hstep as [d addrs _|d|d fuel clock key h' l Hpick|d l before after E|d a now].
  - by eapply refresh_snapshots.
  - done.
  - apply pick_acquires in Hpick as [(s & Hl & _ & ->) _].
    split; simpl; (eapply snapshot_keeps; [by eapply update_keeps|done]).
  - unfold ReleaseSlot, snapshots_ok. simpl. destruct (hp_slots (ds_heap d) !! l) as [s|] eqn:Hl; [|done].
    split; (eapply snapshot_keeps; [by eapply update_keeps|done]).
  - assert (Hk : keeps_slots (ds_heap d) (SetCooldown (ds_heap d) a now)).
    { apply keeps_by. intros l s Hl. exists s. split; [|done]. unfold SetCooldown. by destruct (hp_addrs (ds_heap d) !! a). }
    split; simpl; by eapply snapshot_keeps.
Qed.

Lemma started_snapshots addrs c : snapshots_ok (started addrs c).
Proof.
  apply (refresh_snapshots c).
  - split; simpl; [done|intros l s Hl; by rewrite lookup_empty in Hl|by intros l ?%elem_of_nil].
  - split; split; simpl; try done; by intros s ?%elem_of_nil.
Qed.

Lemma reachable_ok listed addrs c d :
  rtc (dispatch_step listed) (started addrs c) d -> capacity_ok c d /\ snapshots_ok d.
Proof.
  intros Hr. assert (Hgo : capacity_ok c (started addrs c) /\ snapshots_ok (started addrs c)).
  { split; [apply started_ok|apply started_snapshots]. }
  revert Hgo. induction Hr as [d|d1 d2 d3 Hs _ IH]; [done|]. intros [H1 H2]. apply IH.
  eauto using dispatch_step_ok, step_snapshots.
Qed.

(** ** One slot object per worker *)

Definition names (w : string) (o : option Addr) : bool := match o with Some a => seqb (ad_Addr a) w | None => false end.
(** How often an address list names the worker [w]. *)
Definition occurrences (w : string) (addrs : list (option Addr)) : nat := List.length (List.filter (names w) addrs).

(** The builds running on the worker [w], over all slots of its address. *)
Definition builds_at (d : dispatch) (w : string) : nat :=
  List.length (List.filter (fun l => seqb (slot_text (ds_heap d) l) w) (ds_running d)).

(** Every slot has an address, and locations below [hp_next] are used up. *)
Record heap_ok (h : heap) : Prop := {
  hk_addrs : forall a x, hp_addrs h !! a = Some x -> a < hp_next h;
  hk_slots : forall l s, hp_slots h !! l = Some s -> l < hp_next h /\ exists a x, sl_Addr s = Some a /\ hp_addrs h !! a = Some x }.

Lemma slot_text_at h l s a x : hp_slots h !! l = Some s -> sl_Addr s = Some a -> hp_addrs h !! a = Some x -> slot_text h l = ad_Addr x.
Proof. intros Hl Ha Hx. unfold slot_text, slot_addr, addr_text. by rewrite Hl, Ha, Hx. Qed.

(** The slot [l] is the only one of worker [w] and is in the pool. *)
Record worker_ok (w : string) (l : nat) (d : dispatch) : Prop := {
  wk_heap : heap_ok (ds_heap d);
  wk_slot : exists s a x, hp_slots (ds_heap d) !! l = Some s /\ sl_Addr s = Some a /\ hp_addrs (ds_heap d) !! a = Some x /\ ad_Addr x = w;
  wk_pool : Some l ∈ pl_slots (ds_pool d);
  wk_unique : forall k, is_Some (hp_slots (ds_heap d) !! k) -> slot_text (ds_heap d) k = w -> k = l }.

Lemma worker_text w l d : worker_ok w l d -> slot_text (ds_heap d) l = w.
Proof. intros [_ (s & a & x & Hl & Ha & Hx & <-) _ _]. by eapply slot_text_at. Qed.

Lemma builds_at_one d w l :
  (forall k, k ∈ ds_running d -> slot_text (ds_heap d) k = w -> k = l) -> slot_text (ds_heap d) l = w ->
  builds_at d w = builds_on (ds_running d) l.
Proof.
  intros Hu Hl. unfold builds_at, builds_on. induction (ds_running d) as [|k r IH]; [done|]. simpl.
  specialize (IH ltac:(intros k' Hk'; apply Hu; by right)). unfold seqb at 1. case_bool_decide as E; destruct (Nat.eqb_spec l k) as [->|Hn].
  - simpl. by rewrite IH.
  - by destruct Hn; symmetry; apply Hu; [left|].
  - by destruct E.
  - done.
Qed.

(** ** Refreshing keeps it *)

Definition addr_at (h : heap) (o : option Addr) (q : option nat) : Prop :=
  match o, q with Some a, Some q => hp_addrs h !! q = Some a | None, None => True | _, _ => False end.

Lemma alloc_spec addrs : forall h, heap_ok h ->
  let '(h', ps) := alloc_addrs h addrs in
  heap_ok h' /\ hp_slots h' = hp_slots h /\ hp_addrs h ⊆ hp_addrs h' /\ Forall2 (addr_at h') addrs ps.
Proof.
  induction addrs as [|[a|] addrs IH]; intros h Hok; simpl; [by split_and!| |].
  - assert (Hok' : heap_ok (mkHeap (<[hp_next h := a]> (hp_addrs h)) (hp_slots h) (S (hp_next h)))).
    { destruct Hok as [Ha Hs]. split; simpl.
      - intros b x [[<- _]|[_ Hb]]%lookup_insert_Some; [lia|]. apply Ha in Hb. lia.
      - intros l s Hl. destruct (Hs _ _ Hl) as (? & b & x & ? & Hb). split; [lia|]. exists b, x. split; [done|].
        rewrite lookup_insert_ne; [done|]. intros <-. apply Ha in Hb. lia. }
    specialize (IH _ Hok'). destruct (alloc_addrs _ addrs) as [h' ps]. destruct IH as (Hk & Hsl & Hsub & Hf). simpl in Hsl, Hsub.
    split_and!; [done|done| |constructor; [|done]].
    + etrans; [|exact Hsub]. apply insert_subseteq. apply eq_None_not_Some. intros [x Hx]. apply (hk_addrs _ Hok) in Hx. lia.
    + simpl. eapply lookup_weaken; [|exact Hsub]. apply lookup_insert_eq.
  - specialize (IH h Hok). destruct (alloc_addrs h addrs). destruct IH as (? & ? & ? & ?). split_and!; try done. by constructor.
Qed.

(** The new locations name the worker as often as the list does. *)
Definition points (h : heap) (w : string) (q : option nat) : Prop :=
  exists a x, q = Some a /\ hp_addrs h !! a = Some x /\ ad_Addr x = w.

Lemma occurrences_points h w addrs ps :
  Forall2 (addr_at h) addrs ps -> 0 < occurrences w addrs -> exists q, q ∈ ps /\ points h w q.
Proof.
  unfold occurrences. intros Hf. induction Hf as [|o q addrs ps Ho _ IH]; simpl; [lia|]. destruct (names w o) eqn:E; simpl.
  - intros _. exists q. split; [left|]. destruct o as [a|], q as [q|]; try done. unfold names, seqb in E. apply bool_decide_eq_true in E.
    by exists q, a.
  - intros H. destruct (IH H) as (q' & ? & ?). exists q'. split; [by right|done].
Qed.

Lemma occurrences_none h w addrs ps :
  Forall2 (addr_at h) addrs ps -> occurrences w addrs = 0 -> forall q, q ∈ ps -> ~ points h w q.
Proof.
  unfold occurrences. intros Hf. induction Hf as [|o q addrs ps Ho _ IH]; simpl; [by intros _ q ?%elem_of_nil|].
  destruct (names w o) eqn:E; simpl; [done|]. intros H q' [->|Hq]%elem_of_cons; [|by apply IH].
  intros (a & x & -> & Hx & Hw). destruct o as [y|]; [|done]. simpl in Ho. rewrite Ho in Hx. injection Hx as ->.
  unfold names, seqb in E. by apply bool_decide_eq_false in E.
Qed.

(** One more slot for the address at [a]. *)
Definition with_slot (c : nat) (h : heap) (a : nat) : heap :=
  mkHeap (hp_addrs h) (<[hp_next h := mkSlot (Some a) c 0]> (hp_slots h)) (S (hp_next h)).

Lemma with_slot_ok c h a x : heap_ok h -> hp_addrs h !! a = Some x -> heap_ok (with_slot c h a) /\ hp_slots h ⊆ hp_slots (with_slot c h a).
Proof.
  intros [Ha Hs] Hx. assert (Hf : hp_slots h !! hp_next h = None).
  { apply eq_None_not_Some. intros [s Hl]. apply Hs in Hl as [? _]. lia. }
  split; [split; simpl|by apply insert_subseteq].
  - intros b y Hb. apply Ha in Hb. lia.
  - intros l s [[<- <-]|[_ Hl]]%lookup_insert_Some; [split; [lia|]; by exists a, x|].
    destruct (Hs _ _ Hl) as (? & ?). split; [lia|done].
Qed.

(** Making slots only adds slots. *)
Lemma newSlots_extends c existing ps : forall h,
  heap_ok h -> (forall a, Some a ∈ ps -> is_Some (hp_addrs h !! a)) ->
  let h' := fst (newSlots c existing h ps) in heap_ok h' /\ hp_addrs h' = hp_addrs h /\ hp_slots h ⊆ hp_slots h'.
Proof.
  induction ps as [|[a|] ps IH]; intros h Hok Hps; simpl; [done| |apply IH; set_solver].
  destruct (existing !! addr_text h a) as [l|].
  { specialize (IH h Hok ltac:(set_solver)). by destruct (newSlots c existing h ps). }
  fold (with_slot c h a). destruct (Hps a ltac:(left)) as [x Hx]. destruct (with_slot_ok c h a x Hok Hx) as [Hok' Hsub].
  specialize (IH (with_slot c h a) Hok' ltac:(set_solver)). destruct (newSlots c existing _ ps). simpl in *.
  destruct IH as (? & ? & ?). split_and!; try done. by etrans.
Qed.

(** No slot is made for an address that has one, or that is not listed. *)
Lemma newSlots_none c existing w ps : forall h,
  heap_ok h -> (forall a, Some a ∈ ps -> is_Some (hp_addrs h !! a)) ->
  (is_Some (existing !! w) \/ forall q, q ∈ ps -> ~ points h w q) ->
  let h' := fst (newSlots c existing h ps) in
  forall k, is_Some (hp_slots h' !! k) -> slot_text h' k = w -> is_Some (hp_slots h !! k).
Proof.
  induction ps as [|[a|] ps IH]; intros h Hok Hps Hex; simpl; [done| |apply IH; set_solver].
  destruct (existing !! addr_text h a) as [l|] eqn:Ea.
  { specialize (IH h Hok ltac:(set_solver) ltac:(set_solver)). by destruct (newSlots c existing h ps). }
  fold (with_slot c h a). destruct (Hps a ltac:(left)) as [x Hx]. destruct (with_slot_ok c h a x Hok Hx) as [Hok' Hsub].
  pose proof (newSlots_extends c existing ps (with_slot c h a) Hok' ltac:(set_solver)) as (_ & Haddr & Hext).
  specialize (IH (with_slot c h a) Hok' ltac:(set_solver) ltac:(set_solver)). destruct (newSlots c existing _ ps) as [h' ls]. simpl in *.
  intros k Hk Hw. destruct (IH k Hk Hw) as [s Hs]. apply lookup_insert_Some in Hs as [[<- <-]|[_ Hs]]; [|by eexists]. exfalso.
  assert (Ht : slot_text h' (hp_next h) = ad_Addr x).
  { eapply slot_text_at; [eapply lookup_weaken; [|exact Hext]; apply lookup_insert_eq|done|by rewrite Haddr]. }
  unfold addr_text in Ea. rewrite Hx in Ea. rewrite Ht in Hw. subst w. destruct Hex as [Hex|Hex]; [rewrite Ea in Hex; by destruct Hex|].
  apply (Hex (Some a)); [left|]. by exists a, x.
Qed.

(** A listed address keeps its slot. *)
Lemma newSlots_keeps c existing w l ps : forall h,
  heap_ok h -> (forall a, Some a ∈ ps -> is_Some (hp_addrs h !! a)) ->
  existing !! w = Some l -> (exists q, q ∈ ps /\ points h w q) -> l ∈ snd (newSlots c existing h ps).
Proof.
  induction ps as [|[a|] ps IH]; intros h Hok Hps Hex (q & Hq & Hp); [by apply elem_of_nil in Hq| |].
  2: { simpl. apply IH; [done|set_solver|done|]. exists q. split; [|done]. apply elem_of_cons in Hq as [->|Hq]; [|done].
       by destruct Hp as (? & ? & ? & _). }
  simpl. destruct (Hps a ltac:(left)) as [x Hx]. apply elem_of_cons in Hq as [->|Hq].
  - destruct Hp as (b & y & [= <-] & Hy & Hw). unfold addr_text. rewrite Hy, Hw, Hex. destruct (newSlots _ _ _ _). left.
  - destruct (existing !! addr_text h a) as [k|].
    + specialize (IH h Hok ltac:(set_solver) Hex ltac:(by exists q)). destruct (newSlots _ _ _ _). by right.
    + fold (with_slot c h a). destruct (with_slot_ok c h a x Hok Hx) as [Hok' _].
      specialize (IH (with_slot c h a) Hok' ltac:(set_solver) Hex ltac:(by exists q)). destruct (newSlots _ _ _ _). by right.
Qed.

(** An address that has no slot and is listed once gets exactly one. *)
Lemma newSlots_one c w addrs : forall h ps,
  heap_ok h -> Forall2 (addr_at h) addrs ps -> occurrences w addrs = 1 ->
  (forall k, is_Some (hp_slots h !! k) -> slot_text h k <> w) ->
  let '(h', ls) := newSlots c ∅ h ps in
  exists l, l ∈ ls /\ (exists s a x, hp_slots h' !! l = Some s /\ sl_Addr s = Some a /\ hp_addrs h' !! a = Some x /\ ad_Addr x = w) /\
    forall k, is_Some (hp_slots h' !! k) -> slot_text h' k = w -> k = l.
Proof.
  induction addrs as [|o addrs IH]; intros h ps Hok Hf Hw Hno; [done|]. inversion Hf as [|? q ? ps' Ho Hf']; subst.
  assert (Hps : forall a, Some a ∈ ps' -> is_Some (hp_addrs h !! a)).
  { intros a Ha. apply list_elem_of_lookup in Ha as [i Hi]. destruct (Forall2_lookup_r _ _ _ _ _ Hf' Hi) as (y & _ & Hy).
    destruct y; [by eexists|done]. }
  destruct o as [y|], q as [a|]; try done; cbn [newSlots]; [|by apply IH]. rewrite lookup_empty. fold (with_slot c h a). simpl in Ho.
  destruct (with_slot_ok c h a y Hok Ho) as [Hok' Hsub].
  assert (Hnew : forall k, is_Some (hp_slots (with_slot c h a) !! k) -> slot_text (with_slot c h a) k = w ->
    k = hp_next h /\ ad_Addr y = w).
  { intros k [s Hs] Ht. pose proof Hs as Hs0. simpl in Hs. apply lookup_insert_Some in Hs as [[<- <-]|[_ Hs]].
    - split; [done|]. rewrite <- Ht. symmetry. by eapply slot_text_at.
    - destruct (Hno k); [by eexists|]. rewrite <- Ht. destruct (hk_slots _ Hok _ _ Hs) as (_ & b & z & Hb & Hz).
      rewrite (slot_text_at h k s b z Hs Hb Hz). symmetry. by eapply slot_text_at. }
  pose proof (newSlots_extends c ∅ ps' (with_slot c h a) Hok' Hps) as (_ & Haddr & Hext).
  unfold occurrences in Hw. simpl in Hw. unfold seqb in Hw. case_bool_decide as E; simpl in Hw.
  - pose proof (newSlots_none c ∅ w ps' (with_slot c h a) Hok' Hps) as Hnone.
    destruct (newSlots c ∅ _ ps') as [h' ls]. simpl in *. exists (hp_next h). split; [left|]. split.
    + exists (mkSlot (Some a) c 0), a, y. split_and!; [|done|by rewrite Haddr|done]. eapply lookup_weaken; [|exact Hext]. apply lookup_insert_eq.
    + intros k Hk Ht. assert (Hkn : is_Some (hp_slots (with_slot c h a) !! k)).
      { apply Hnone; [right|done|done]. apply (occurrences_none _ w addrs); [done|]. unfold occurrences. lia. }
      destruct Hkn as [s Hs]. apply (Hnew k); [by eexists|]. rewrite <- Ht. destruct (hk_slots _ Hok' _ _ Hs) as (_ & b & z & Hb & Hz).
      rewrite (slot_text_at _ k s b z Hs Hb Hz). symmetry. eapply slot_text_at; [by eapply lookup_weaken|done|by rewrite Haddr].
  - specialize (IH (with_slot c h a) ps' Hok' Hf' Hw). destruct (newSlots c ∅ _ ps') as [h' ls].
    destruct IH as (l & Hl & ?); [intros k Hk Ht; by destruct (Hnew k Hk Ht)|]. exists l. split; [by right|done].
Qed.

Lemma existing_sound h slots w l :
  existing_slots h slots !! w = Some l -> exists a, slot_addr h (Some l) = Some (l, a) /\ addr_text h a = w.
Proof.
  unfold existing_slots.
  assert (Hf : forall m : gmap string nat, (forall k l', m !! k = Some l' -> exists a, slot_addr h (Some l') = Some (l', a) /\ addr_text h a = k) ->
    foldl (fun m s => match slot_addr h s with Some (l, a) => <[addr_text h a := l]> m | None => m end) m slots !! w = Some l ->
    exists a, slot_addr h (Some l) = Some (l, a) /\ addr_text h a = w).
  { induction slots as [|s slots IH]; intros m Hm; simpl; [apply Hm|]. apply IH. intros k l'.
    destruct (slot_addr h s) as [[l0 a]|] eqn:E; [|apply Hm].
    intros [[<- <-]|[_ ?]]%lookup_insert_Some; [|by eapply Hm]. apply slot_addr_inv in E as E'. destruct E' as [-> _]. by exists a. }
  apply Hf. intros k l' Hk. by rewrite lookup_empty in Hk.
Qed.

Lemma existing_complete h slots l a :
  Some l ∈ slots -> slot_addr h (Some l) = Some (l, a) -> is_Some (existing_slots h slots !! addr_text h a).
Proof.
  unfold existing_slots. intros Hin Ha.
  assert (Hf : forall m : gmap string nat, Some l ∈ slots \/ is_Some (m !! addr_text h a) ->
    is_Some (foldl (fun m s => match slot_addr h s with Some (l, a) => <[addr_text h a := l]> m | None => m end) m slots !! addr_text h a)).
  { clear Hin. induction slots as [|s slots IH]; intros m [Hm|Hm]; simpl; [by apply elem_of_nil in Hm|done|..]; apply IH.
    - apply elem_of_cons in Hm as [<-|Hm]; [|by left]. right. rewrite Ha, lookup_insert_eq. by eexists.
    - right. destruct (slot_addr h s) as [[l0 a0]|]; [|done]. destruct (decide (addr_text h a0 = addr_text h a)) as [->|Hn].
      + rewrite lookup_insert_eq. by eexists.
      + by rewrite lookup_insert_ne. }
  apply Hf. by left.
Qed.

Lemma refresh_worker w l d addrs : 0 < occurrences w addrs -> worker_ok w l d -> worker_ok w l (refresh d addrs).
Proof.
  intros Hw [Hok (s & a & x & Hl & Ha & Hx & Hxw) Hpool Hu]. unfold refresh.
  pose proof (alloc_spec addrs _ Hok) as Hal. destruct (alloc_addrs (ds_heap d) addrs) as [h1 ps].
  destruct Hal as (Hok1 & Hsl & Hsub & Hf).
  assert (Hps : forall a, Some a ∈ ps -> is_Some (hp_addrs h1 !! a)).
  { intros b Hb. apply list_elem_of_lookup in Hb as [i Hi]. destruct (Forall2_lookup_r _ _ _ _ _ Hf Hi) as (y & _ & Hy).
    destruct y; [by eexists|done]. }
  assert (Hx1 : hp_addrs h1 !! a = Some x) by by eapply lookup_weaken.
  assert (Hu1 : forall k, is_Some (hp_slots h1 !! k) -> slot_text h1 k = w -> k = l).
  { intros k Hk Ht. rewrite Hsl in Hk. apply Hu; [done|]. rewrite <- Ht. destruct Hk as [s' Hs'].
    destruct (hk_slots _ Hok _ _ Hs') as (_ & b & z & Hb & Hz). rewrite (slot_text_at _ k s' b z Hs' Hb Hz). symmetry.
    eapply slot_text_at; [by rewrite Hsl|done|by eapply lookup_weaken]. }
  assert (Hex : existing_slots h1 (pl_slots (ds_pool d)) !! w = Some l).
  { assert (Hla : slot_addr h1 (Some l) = Some (l, a)) by (unfold slot_addr; by rewrite Hsl, Hl, Ha).
    destruct (existing_complete _ _ _ _ Hpool Hla) as [l' He]. unfold addr_text in He. rewrite Hx1, Hxw in He. rewrite He. f_equal.
    destruct (existing_sound _ _ _ _ He) as (b & Hb & Hbw). apply Hu1; [by destruct (slot_addr_inv _ _ _ _ Hb)|].
    unfold slot_text. by rewrite Hb. }
  unfold Replace. set (ex := existing_slots h1 _) in *. set (c := pl_concurrency (ds_pool d)).
  pose proof (newSlots_extends c ex ps h1 Hok1 Hps) as (Hok2 & Haddr & Hext).
  pose proof (newSlots_none c ex w ps h1 Hok1 Hps ltac:(left; by eexists)) as Hnone.
  pose proof (newSlots_keeps c ex w l ps h1 Hok1 Hps Hex (occurrences_points _ _ _ _ Hf Hw)) as Hkeep.
  destruct (newSlots c ex h1 ps) as [h2 ls]. simpl in *. split; simpl; [done| | |].
  - exists s, a, x. rewrite Haddr. split_and!; try done. eapply lookup_weaken; [|exact Hext]. by rewrite Hsl.
  - apply list_elem_of_fmap. exists l. split; [done|]. by rewrite sort_by_perm.
  - intros k Hk Ht. destruct (Hnone k Hk Ht) as [s' Hs']. apply Hu1; [by eexists|]. rewrite <- Ht.
    destruct (hk_slots _ Hok1 _ _ Hs') as (_ & b & z & Hb & Hz). rewrite (slot_text_at _ k s' b z Hs' Hb Hz). symmetry.
    eapply slot_text_at; [by eapply lookup_weaken|done|by rewrite Haddr].
Qed.

Lemma started_worker w addrs c : occurrences w addrs = 1 -> exists l, worker_ok w l (started addrs c).
Proof.
  intros Hw. unfold started, refresh. cbn [ds_heap ds_pool].
  assert (Hok0 : heap_ok (mkHeap ∅ ∅ 0)) by (split; simpl; intros *; by rewrite lookup_empty).
  pose proof (alloc_spec addrs _ Hok0) as Hal. destruct (alloc_addrs _ addrs) as [h1 ps]. destruct Hal as (Hok1 & Hsl & _ & Hf).
  simpl in Hsl. unfold Replace. cbn [pl_slots pl_concurrency]. change (existing_slots h1 []) with (∅ : gmap string nat).
  assert (Hps : forall a, Some a ∈ ps -> is_Some (hp_addrs h1 !! a)).
  { intros b Hb. apply list_elem_of_lookup in Hb as [i Hi]. destruct (Forall2_lookup_r _ _ _ _ _ Hf Hi) as (y & _ & Hy).
    destruct y; [by eexists|done]. }
  pose proof (newSlots_extends c ∅ ps h1 Hok1 Hps) as (Hok2 & _).
  pose proof (newSlots_one c w addrs h1 ps Hok1 Hf Hw ltac:(intros k [s Hs]; by rewrite Hsl, lookup_empty in Hs)) as H1.
  destruct (newSlots c ∅ h1 ps) as [h2 ls]. destruct H1 as (l & Hl & Hslot & Hu). exists l. split; simpl; try done.
  apply list_elem_of_fmap. exists l. split; [done|]. by rewrite sort_by_perm.
Qed.

(** A step that only changes tokens or cooldowns. *)
Definition same_slots (h h' : heap) : Prop :=
  hp_next h' = hp_next h /\
  (forall l, sl_Addr <$> hp_slots h' !! l = sl_Addr <$> hp_slots h !! l) /\
  (forall a, ad_Addr <$> hp_addrs h' !! a = ad_Addr <$> hp_addrs h !! a).

Lemma same_slots_text h h' k : same_slots h h' -> slot_text h' k = slot_text h k.
Proof.
  intros (_ & Hs & Ha). unfold slot_text, slot_addr, addr_text. specialize (Hs k).
  destruct (hp_slots h' !! k) as [s'|], (hp_slots h !! k) as [s|]; simpl in Hs; try done. injection Hs as ->.
  destruct (sl_Addr s) as [a|]; [|done]. specialize (Ha a).
  destruct (hp_addrs h' !! a), (hp_addrs h !! a); simpl in Ha; try done. by injection Ha.
Qed.

Lemma fmap_some {A B} (f : A -> B) (o o' : option A) x : f <$> o' = f <$> o -> o = Some x -> exists y, o' = Some y /\ f y = f x.
Proof. intros E ->. destruct o' as [y|]; [|done]. exists y. split; [done|]. by injection E. Qed.

Lemma same_slots_worker w l d h' sn running :
  same_slots (ds_heap d) h' -> worker_ok w l d -> worker_ok w l (mkDispatch h' (ds_pool d) sn running).
Proof.
  intros Hsame [[Hka Hks] (s & a & x & Hl & Ha & Hx & Hxw) Hpool Hu]. pose proof Hsame as (Hn & Hs & Had). split; simpl; [split| | |].
  - intros b y Hb. destruct (fmap_some _ _ _ _ (eq_sym (Had b)) Hb) as (z & Hz & _). rewrite Hn. by eapply Hka.
  - intros k s' Hk. destruct (fmap_some _ _ _ _ (eq_sym (Hs k)) Hk) as (z & Hz & Ez).
    destruct (Hks _ _ Hz) as (? & b & y & Hb & Hy). split; [by rewrite Hn|]. destruct (fmap_some _ _ _ _ (Had b) Hy) as (y' & Hy' & _).
    exists b, y'. split; [by rewrite <- Ez|done].
  - destruct (fmap_some _ _ _ _ (Hs l) Hl) as (s' & Hs' & E). destruct (fmap_some _ _ _ _ (Had a) Hx) as (x' & Hx' & Ex).
    exists s', a, x'. split_and!; try done; [by rewrite E|by rewrite Ex].
  - done.
  - intros k [s' Hk] Ht. rewrite (same_slots_text _ _ _ Hsame) in Ht. apply Hu; [|done].
    destruct (fmap_some _ _ _ _ (eq_sym (Hs k)) Hk) as (z & Hz & _). by eexists.
Qed.

Lemma token_same h l s n :
  hp_slots h !! l = Some s -> same_slots h (mkHeap (hp_addrs h) (<[l := mkSlot (sl_Addr s) (sl_Sem_cap s) n]> (hp_slots h)) (hp_next h)).
Proof.
  intros Hl. split_and!; simpl; try done. intros k. destruct (decide (k = l)) as [->|Hn].
  - by rewrite lookup_insert_eq, Hl.
  - by rewrite lookup_insert_ne.
Qed.

Lemma same_slots_refl h : same_slots h h.
Proof. done. Qed.

Lemma step_worker w l d d' :
  dispatch_step (fun refreshed => 0 < occurrences w refreshed) d d' -> worker_ok w l d -> worker_ok w l d'.
Proof.
  intros Hstep Hok. destruct Hstep as [d addrs Hw|d|d fuel clock key h' k Hpick|d k before after E|d a now].
  - by apply refresh_worker.
  - by apply same_slots_worker.
  - apply pick_acquires in Hpick as [(s & Hs & _ & ->) _]. by apply same_slots_worker, Hok; apply token_same.
  - apply same_slots_worker, Hok. unfold ReleaseSlot. destruct (hp_slots (ds_heap d) !! k) eqn:Hk; [by apply token_same|done].
  - apply same_slots_worker, Hok. unfold SetCooldown. destruct (hp_addrs (ds_heap d) !! a) as [x|] eqn:Hx; [|done].
    split_and!; simpl; try done. intros b. destruct (decide (b = a)) as [->|Hn].
    + by rewrite lookup_insert_eq, Hx.
    + by rewrite lookup_insert_ne.
Qed.

Lemma worker_reachable w l addrs c d :
  rtc (dispatch_step (fun refreshed => 0 < occurrences w refreshed)) (started addrs c) d ->
  worker_ok w l (started addrs c) -> worker_ok w l d.
Proof. induction 1 as [d|d1 d2 d3 Hs _ IH]; [done|]. intros H. eauto using step_worker. Qed.

(** ** Claims *)

(** C32: A worker runs at most its concurrency of builds, across refreshes.  Let
    the initial address list name the worker [w] once and every refresh name it
    at all.  Then through any sequence of refreshes, snapshots (also stale ones),
    picks, finished builds and cooldowns one slot object serves [w]: it is the
    one of the initial pool, it is still in the pool, and no other slot of that
    address was ever made.  Its tokens are exactly the builds running on [w],
    whichever pool or snapshot they were picked from, at most the configured
    concurrency. *)
Theorem builds_within_capacity w addrs c d :
  occurrences w addrs = 1 -> rtc (dispatch_step (fun refreshed => 0 < occurrences w refreshed)) (started addrs c) d ->
  exists l s, Some l ∈ pl_slots (ds_pool (started addrs c)) /\ slot_text (ds_heap (started addrs c)) l = w /\
    Some l ∈ pl_slots (ds_pool d) /\ hp_slots (ds_heap d) !! l = Some s /\ sl_Sem_cap s = c /\
    (forall k, is_Some (hp_slots (ds_heap d) !! k) -> slot_text (ds_heap d) k = w -> k = l) /\
    builds_at d w = sl_Sem_len s /\ builds_at d w <= c.
Proof.
  intros Hw Hr. destruct (started_worker w addrs c Hw) as (l & Hl0).
  destruct (reachable_ok _ _ _ _ Hr) as [[_ Hs Hrun] _]. pose proof (worker_reachable _ _ _ _ _ Hr Hl0) as Hl.
  destruct (wk_slot _ _ _ Hl) as (s & a & x & Hls & Ha & Hx & <-). exists l, s.
  destruct (Hs _ _ Hls) as (_ & Hcap & Hlen & Hle). pose proof (wk_unique _ _ _ Hl) as Hu.
  assert (E : builds_at d (ad_Addr x) = builds_on (ds_running d) l).
  { apply builds_at_one; [|by apply (worker_text _ l d)]. intros k Hk E. by apply Hu; [apply Hrun|]. }
  split_and!; try done; [apply Hl0|by apply (worker_text _ l (started addrs c))|apply Hl|by rewrite E|by rewrite E, <- Hlen].
Qed.

(** Picking is work-conserving.  At any point of such a run, with at most 64
    workers in the snapshot, [PickAvailableSlot] returns for every key and
    clock; it returns no slot exactly when every slot of the snapshot runs its
    full concurrency, and otherwise a slot of the snapshot that had room. *)
Theorem picking_is_work_conserving listed addrs c d clock key :
  rtc (dispatch_step listed) (started addrs c) d ->
  List.length (sn_Slots (ds_snapshot d)) <= 64 ->
  exists r, PickAvailableSlot (List.length (sn_Slots (ds_snapshot d)) * 150) (ds_heap d) (ds_snapshot d) clock key = Some r /\
    (r = None <-> forall l, Some l ∈ sn_Slots (ds_snapshot d) -> builds_on (ds_running d) l = c) /\
    (forall h' l, r = Some (h', l) -> Some l ∈ sn_Slots (ds_snapshot d) /\ builds_on (ds_running d) l < c).
Proof.
  intros Hr Hn. destruct (reachable_ok _ _ _ _ Hr) as [[_ Hs _] [_ [Hslots Hhash]]].
  set (sn := ds_snapshot d) in *. set (h := ds_heap d) in *.
  assert (Hfull : forall l, full h l -> builds_on (ds_running d) l = c).
  { intros l (s & Hl & Hle). destruct (Hs _ _ Hl) as (_ & ? & ? & ?). lia. }
  assert (Hroom : forall l h', acquired h l h' -> builds_on (ds_running d) l < c).
  { intros l h' (s & Hl & Hlt & _). destruct (Hs _ _ Hl) as (_ & ? & ? & ?). lia. }
  destruct (sn_Slots sn) as [|s0 ss] eqn:Es.
  { exists None. split_and!; [unfold PickAvailableSlot; by rewrite Es| |done]. split; [|done]. intros _ l Hl. by apply elem_of_nil in Hl. }
  assert (Horder : exists order, getSlotOrder (List.length (s0 :: ss) * 150) (newConsistentHash (List.length (s0 :: ss)) 150) key = Some order /\
    order ≡ₚ seq 0 (List.length (s0 :: ss))) by (apply order_ends; [simpl; lia|lia|by apply covered_64]).
  destruct Horder as (order & Ho & Hperm).
  assert (Hpick : PickAvailableSlot (List.length (s0 :: ss) * 150) h sn clock key =
    match availableLoop true h sn clock 0 order with
    | (_, Some r) => Some (Some r) | (t, None) => Some (snd (availableLoop false h sn clock t order)) end).
  { unfold PickAvailableSlot. rewrite Es, Hhash, Ho. done. }
  assert (Hdone : forall r, (exists h' l, r = Some (h', l) /\ acquired h l h' /\ Some l ∈ sn_Slots sn) ->
    (r = None <-> forall l, Some l ∈ s0 :: ss -> builds_on (ds_running d) l = c) /\
    (forall h' l, r = Some (h', l) -> Some l ∈ s0 :: ss /\ builds_on (ds_running d) l < c)).
  { intros r (h' & l & -> & Ha & Hin). rewrite Es in Hin. pose proof (Hroom _ _ Ha) as Hlt. split.
    - split; [done|]. intros Hall. specialize (Hall _ Hin). lia.
    - intros h2 l2 [= <- <-]. done. }
  destruct (availableLoop true h sn clock 0 order) as [t [[h1 l1]|]] eqn:E1.
  { exists (Some (h1, l1)). split; [done|]. apply Hdone. exists h1, l1. split; [done|]. by eapply availableLoop_some. }
  destruct (availableLoop false h sn clock t order) as [t' [[h1 l1]|]] eqn:E2.
  { exists (Some (h1, l1)). split; [done|]. apply Hdone. exists h1, l1. split; [done|]. by eapply availableLoop_some. }
  exists None. split_and!; [done| |done]. split; [|done]. intros _ l Hin. apply Hfull.
  rewrite <- Es in Hin, Hperm. apply list_elem_of_lookup in Hin as [idx Hidx].
  destruct (Hslots (Some l)) as [[l' a] Ha]; [rewrite <- Es; by eapply list_elem_of_lookup_2|].
  apply slot_addr_inv in Ha as Hl'. destruct Hl' as [[= <-] _].
  eapply availableLoop_none; [exact E2| |unfold usable; rewrite Hidx; exact Ha].
  rewrite Hperm. apply elem_of_seq. apply lookup_lt_Some in Hidx. lia.
Qed.

(** ** Witnesses: two workers of concurrency 1, one build running *)

Definition ex_addr (n : string) : Addr := mkAddr n n "" 0 None.
Definition ex_addrs : list (option Addr) := [Some (ex_addr "tcp://w1:1"); Some (ex_addr "tcp://w2:1")].
Definition ex_start : dispatch := started ex_addrs 1.
Definition ex_ready : dispatch := mkDispatch (ds_heap ex_start) (ds_pool ex_start) (Snapshot (ds_pool ex_start)) (ds_running ex_start).

Lemma ex_reaches listed : rtc (dispatch_step listed) ex_start ex_ready.
Proof. eapply rtc_l; [apply step_snapshot|apply rtc_refl]. Qed.

Lemma ex_picks : exists h' l,
  PickAvailableSlot 300 (ds_heap ex_ready) (ds_snapshot ex_ready) (fun _ => 0%Z) "img" = Some (Some (h', l)).
Proof.
  assert (E : match PickAvailableSlot 300 (ds_heap ex_ready) (ds_snapshot ex_ready) (fun _ => 0%Z) "img" with
              | Some (Some _) => true | _ => false end = true) by (vm_cast_no_check (eq_refl true)).
  destruct (PickAvailableSlot _ _ _ _ _) as [[[h' l]|]|]; [by exists h', l|done|done].
Qed.

Lemma ex_two : List.length (sn_Slots (ds_snapshot ex_ready)) = 2.
Proof. vm_cast_no_check (eq_refl 2). Qed.

Lemma picking_is_work_conserving_witness :
  exists r, PickAvailableSlot (List.length (sn_Slots (ds_snapshot ex_ready)) * 150) (ds_heap ex_ready) (ds_snapshot ex_ready)
    (fun _ => 0%Z) "img" = Some r.
Proof.
  destruct (picking_is_work_conserving (fun _ => True) _ _ _ (fun _ => 0%Z) "img" (ex_reaches _) ltac:(rewrite ex_two; lia)) as (r & Hr & _).
  exists r. exact Hr.
Defined.

(** A build is picked, and then the addresses are refreshed: the second worker
    is replaced, the first one stays. *)
Lemma builds_within_capacity_witness :
  exists d, rtc (dispatch_step (fun refreshed => 0 < occurrences "tcp://w1:1" refreshed)) ex_start d /\ ds_running d <> [] /\
    builds_at d "tcp://w1:1" <= 1.
Proof.
  destruct ex_picks as (h' & l & Hp).
  assert (Hr : rtc (dispatch_step (fun refreshed => 0 < occurrences "tcp://w1:1" refreshed)) ex_start
    (refresh (mkDispatch h' (ds_pool ex_ready) (ds_snapshot ex_ready) (l :: ds_running ex_ready))
       [Some (ex_addr "tcp://w3:1"); Some (ex_addr "tcp://w1:1")])).
  { eapply rtc_r; [eapply rtc_r; [exact (ex_reaches _)|exact (step_pick _ _ _ _ _ _ _ Hp)]|]. apply step_refresh. vm_compute. lia. }
  eexists. split; [exact Hr|]. split.
  - unfold refresh. destruct (alloc_addrs _ _). by destruct (Replace _ _ _).
  - destruct (builds_within_capacity "tcp://w1:1" ex_addrs 1 _ eq_refl Hr) as (k & s & _ & _ & _ & _ & _ & _ & _ & Hle). exact Hle.
Defined.
