(* ===== verification/GoPath.v ===== *)
(** * Go's [strings] and [path] as the archive code uses them

    [path.Clean] is given by its documented rules on the slash-separated
    elements; [clean] is their effect on the list of elements of a relative
    path.  The lemmas describe cleaned relative paths: some [..] elements, then
    plain names. *)
From S2P Require Import Prelude GoText.

Definition slash : ascii := "/"%char.

(** [strings.Split(s, "/")]. *)
Fixpoint split_slash (s : string) : list string :=
  match s with
  | EmptyString => [""]
  | String c r =>
      if bool_decide (c = slash) then "" :: split_slash r
      else match split_slash r with
           | x :: l => String c x :: l
           | [] => [String c ""]
           end
  end.

(** [strings.Join(l, "/")]. *)
Fixpoint join_slash (l : list string) : string :=
  match l with
  | [] => ""
  | [x] => x
  | x :: r => x +:+ String slash (join_slash r)
  end.

(** [strings.ReplaceAll] of one character by another. *)
Fixpoint replace_char (old new : ascii) (s : string) : string :=
  match s with
  | EmptyString => EmptyString
  | String c r => String (if bool_decide (c = old) then new else c) (replace_char old new r)
  end.
Definition slashes (s : string) : string := replace_char "\"%char slash s.

(** [strings.TrimSpace]: leading and trailing white-space runes.  A rune that is
    not valid UTF-8 is not white space. *)
Definition space_runes : list string :=
  [String (ascii_of_N 9) ""; String (ascii_of_N 10) ""; String (ascii_of_N 11) ""; String (ascii_of_N 12) "";
   String (ascii_of_N 13) ""; " "] ++
  List.map (List.fold_right (fun b s => String (ascii_of_N b) s) "")
    ([[194; 133]; [194; 160]; [225; 154; 128]] ++
     List.map (fun b => [226; 128; b])
       [128; 129; 130; 131; 132; 133; 134; 135; 136; 137; 138; 168; 169; 175] ++
     [[226; 129; 159]; [227; 128; 128]])%N.

Definition trim_one (s : string) : option string :=
  match List.find (fun p => HasPrefix s p) space_runes with
  | Some p => Some (str_drop (String.length p) s)
  | None => None
  end.
Fixpoint trim_left (fuel : nat) (s : string) : string :=
  match fuel with
  | O => s
  | S fuel' => match trim_one s with Some r => trim_left fuel' r | None => s end
  end.

Definition take_str (n : nat) (s : string) : string := String.substring 0 n s.
Definition has_suffix (s p : string) : bool :=
  Nat.leb (String.length p) (String.length s) && seqb (str_drop (String.length s - String.length p) s) p.
Definition trim_last (s : string) : option string :=
  match List.find (fun p => has_suffix s p) space_runes with
  | Some p => Some (take_str (String.length s - String.length p) s)
  | None => None
  end.
Fixpoint trim_right (fuel : nat) (s : string) : string :=
  match fuel with
  | O => s
  | S fuel' => match trim_last s with Some r => trim_right fuel' r | None => s end
  end.

Definition TrimSpace (s : string) : string :=
  let t := trim_left (String.length s) s in trim_right (String.length t) t.

(** ** [path.Clean] *)

(** One element of a path onto the reversed stack of cleaned elements. *)
Definition clean_step (rooted : bool) (stack : list string) (e : string) : list string :=
  if seqb e "" || seqb e "." then stack
  else if seqb e ".." then
    match stack with
    | [] => if rooted then [] else [".."]
    | top :: rest => if seqb top ".." then ".." :: stack else rest
    end
  else e :: stack.

Definition clean_elements (rooted : bool) (l : list string) : list string :=
  rev (foldl (clean_step rooted) [] l).

Definition Clean (s : string) : string :=
  if sempty s then "."
  else
    let rooted := HasPrefix s "/" in
    let out := (if rooted then "/" else "") +:+ join_slash (clean_elements rooted (split_slash s)) in
    if sempty out then "." else out.

(** [path.Dir]: everything up to the last slash, cleaned. *)
Definition dir_part (s : string) : string :=
  match split_slash s with
  | [] | [_] => ""
  | l => join_slash (removelast l) +:+ "/"
  end.
Definition Dir (s : string) : string := Clean (dir_part s).

(** [path.Join] of two elements. *)
Definition Join2 (a b : string) : string :=
  if sempty a && sempty b then ""
  else if sempty a then Clean b
  else if sempty b then Clean a
  else Clean (a +:+ String slash b).

Example clean_examples :
  List.map Clean [""; "a//b/./c/.."; "../x/../../y"; "/../a"; "a/.."; "./a/"] = ["."; "a/b"; "../../y"; "/a"; "."; "a"].
Proof. reflexivity. Qed.
Example dir_examples : List.map Dir ["a/b/c"; "a"; ""; "/a"; "a/"] = ["a/b"; "."; "."; "/"; "a"].
Proof. reflexivity. Qed.
Example trim_examples : List.map TrimSpace ["  a b "; ""; "   "; "x"] = ["a b"; ""; ""; "x"].
Proof. reflexivity. Qed.

(** ** Elements of paths *)

Definition no_slash (e : string) : Prop := str_forallb (fun c => negb (bool_decide (c = slash))) e = true.

(** A plain name. *)
Definition normal (e : string) : Prop := no_slash e /\ e <> "" /\ e <> "." /\ e <> "..".

Lemma split_nonempty s : split_slash s <> [].
Proof. induction s as [|c s IH]; simpl; [done|]. case_bool_decide; [done|]. by destruct (split_slash s). Qed.

Lemma split_no_slash s : Forall no_slash (split_slash s).
Proof.
  induction s as [|c s IH]; simpl; [by repeat constructor|]. case_bool_decide as Ec; [by constructor|].
  destruct (split_slash s) as [|x l]; [|inversion IH as [|? ? Hx Hl]; subst; constructor; [|done]].
  - constructor; [|constructor]. unfold no_slash. simpl. by rewrite bool_decide_eq_false_2.
  - unfold no_slash in *. simpl. by rewrite bool_decide_eq_false_2, Hx.
Qed.

Lemma split_no_slash_one e : no_slash e -> split_slash e = [e].
Proof.
  unfold no_slash. induction e as [|c e IH]; simpl; [done|]. intros [Hc%negb_true_iff He]%andb_true_iff.
  rewrite Hc, IH by done. done.
Qed.

Lemma split_app a b : split_slash (a +:+ String slash b) = split_slash a ++ split_slash b.
Proof.
  induction a as [|c a IH]; [done|]. rewrite append_cons. simpl. rewrite IH. case_bool_decide; [done|].
  destruct (split_slash a) as [|x l] eqn:E; [by destruct (split_nonempty a)|done].
Qed.

Lemma split_join l : l <> [] -> Forall no_slash l -> split_slash (join_slash l) = l.
Proof.
  induction l as [|x l IH]; [done|]. intros _ Hl. inversion Hl as [|? ? Hx Hl']; subst.
  destruct l as [|y l]; [by apply split_no_slash_one|].
  change (join_slash (x :: y :: l)) with (x +:+ String slash (join_slash (y :: l))).
  rewrite split_app, (split_no_slash_one x) by done. by rewrite IH.
Qed.

(** ** Cleaning a relative path *)

Abbreviation clean := (clean_elements false).

Lemma clean_snoc l e : clean (l ++ [e]) = rev (clean_step false (rev (clean l)) e).
Proof. unfold clean_elements. by rewrite foldl_app, rev_involutive. Qed.

(** Some [..] elements, then plain names. *)
Definition clean_form (l : list string) : Prop :=
  exists k names, l = replicate k ".." ++ names /\ Forall normal names.

Lemma rev_replicate {A} k (x : A) : rev (replicate k x) = replicate k x.
Proof. induction k as [|k IH]; [done|]. simpl. by rewrite IH, <- replicate_cons_app. Qed.

(** What a stack of this form looks like after one more element. *)
Lemma clean_step_form k names e :
  no_slash e -> Forall normal names -> clean_form (rev (clean_step false (rev (replicate k ".." ++ names)) e)).
Proof.
  intros He Hn. unfold clean_step. destruct (seqb e "" || seqb e ".") eqn:E1.
  { exists k, names. by rewrite rev_involutive. }
  apply orb_false_iff in E1 as [E1 E2]. unfold seqb in *. apply bool_decide_eq_false in E1, E2.
  case_bool_decide as E3.
  - subst e. destruct names as [|x names _] using rev_ind.
    + rewrite app_nil_r, rev_replicate. destruct k as [|k]; [by exists 1, []|].
      exists (S (S k)), []. split; [|done]. rewrite app_nil_r. exact (rev_replicate (S (S k)) "..").
    + rewrite app_assoc, rev_app_distr. simpl. apply Forall_app in Hn as [Hn Hx].
      inversion Hx as [|? ? (_ & _ & _ & Hx') _]; subst. rewrite bool_decide_eq_false_2 by done.
      exists k, names. by rewrite rev_involutive.
  - exists k, (names ++ [e]). simpl. rewrite rev_involutive, app_assoc. split; [done|].
    apply Forall_app. split; [done|]. constructor; [|done]. by split_and!.
Qed.

Lemma clean_is_clean l : Forall no_slash l -> clean_form (clean l).
Proof.
  induction l as [|e l IH] using rev_ind; [by exists 0, []|]. intros [Hl He]%Forall_app.
  destruct (IH Hl) as (k & names & E & Hn). inversion He as [|? ? He' _]; subst.
  rewrite clean_snoc, E. by apply clean_step_form.
Qed.

Lemma clean_no_dots l : Forall (fun e => e <> "" /\ e <> ".") (clean l).
Proof.
  unfold clean_elements. apply Forall_rev. assert (Hf : forall st, Forall (fun e => e <> "" /\ e <> ".") st ->
    Forall (fun e => e <> "" /\ e <> ".") (foldl (clean_step false) st l)); [|by apply Hf].
  induction l as [|e l IH]; intros st Hst; simpl; [done|]. apply IH. unfold clean_step, seqb.
  repeat case_bool_decide; simpl; try done.
  - destruct st as [|top rest]; [by repeat constructor|]. inversion Hst; subst. case_bool_decide; [by constructor|done].
  - by constructor.
Qed.

Lemma step_skip st e : seqb e "" || seqb e "." = true -> clean_step false st e = st.
Proof. intros E. unfold clean_step. by rewrite E. Qed.

Lemma step_name st e : seqb e "" || seqb e "." = false -> seqb e ".." = false -> clean_step false st e = e :: st.
Proof. intros E1 E2. unfold clean_step. by rewrite E1, E2. Qed.

Lemma step_up st :
  clean_step false st ".." = match st with [] => [".."] | top :: rest => if seqb top ".." then ".." :: st else rest end.
Proof. done. Qed.

(** Cleaning a part first does not change what it does to what precedes it. *)
Lemma clean_absorb l : forall st, foldl (clean_step false) st l = foldl (clean_step false) st (clean l).
Proof.
  induction l as [|e l IH] using rev_ind; intros st; [done|].
  rewrite foldl_app, IH, clean_snoc. cbn [foldl]. pose proof (clean_no_dots l) as Hd. revert Hd. generalize (clean l). intros c Hd.
  destruct (seqb e "" || seqb e ".") eqn:E1.
  { by rewrite !step_skip, rev_involutive. }
  destruct (seqb e "..") eqn:E2.
  - apply bool_decide_eq_true in E2. subst e. destruct c as [|x c _] using rev_ind; [done|].
    rewrite rev_app_distr, (step_up (rev [x] ++ rev c)). cbn [rev app]. destruct (seqb x "..") eqn:E3.
    + change (".." :: x :: rev c) with ([".."] ++ [x] ++ rev c).
      rewrite !rev_app_distr, rev_involutive, !foldl_app. done.
    + rewrite rev_involutive, foldl_app. cbn [foldl]. apply Forall_app in Hd as [_ Hx].
      inversion Hx as [|? ? [H1 H2] _]; subst. rewrite (step_name _ x); [|unfold seqb; by rewrite !bool_decide_eq_false_2|done].
      rewrite step_up. by rewrite E3.
  - rewrite (step_name (rev c)) by done. cbn [rev]. by rewrite rev_involutive, foldl_app.
Qed.

Lemma clean_app l1 l2 : clean (l1 ++ l2) = rev (foldl (clean_step false) (rev (clean l1)) (clean l2)).
Proof. unfold clean_elements at 1. rewrite foldl_app, clean_absorb. unfold clean_elements at 2. by rewrite rev_involutive. Qed.

Lemma push_names st r : Forall normal r -> foldl (clean_step false) st r = rev r ++ st.
Proof.
  intros Hf. revert st. induction Hf as [|x r (_ & H1 & H2 & H3) _ IH]; intros st; [done|]. cbn [foldl].
  rewrite IH, step_name; [cbn [rev]; by rewrite <- app_assoc| |]; unfold seqb; by rewrite ?bool_decide_eq_false_2.
Qed.

Lemma push_ups j k : foldl (clean_step false) (replicate j "..") (replicate k "..") = replicate (j + k) "..".
Proof.
  revert j. induction k as [|k IH]; intros j; [by rewrite Nat.add_0_r|]. cbn [replicate foldl].
  replace (clean_step false (replicate j "..") "..") with (replicate (S j) ".."); [|by destruct j].
  rewrite IH. f_equal. lia.
Qed.

(** Plain names followed by a cleaned path: the [..] elements go up. *)
Lemma clean_names names k rest :
  Forall normal names -> Forall normal rest ->
  rev (foldl (clean_step false) (rev names) (replicate k ".." ++ rest)) =
  replicate (k - List.length names) ".." ++ take (List.length names - k) names ++ rest.
Proof.
  intros Hn Hr. rewrite foldl_app, push_names, rev_app_distr, rev_involutive, app_assoc by done. f_equal.
  revert names Hn. induction k as [|k IH]; intros names Hn.
  { simpl. by rewrite rev_involutive, Nat.sub_0_r, firstn_all. }
  destruct names as [|x names _] using rev_ind.
  { change (rev []) with (replicate 0 ".."). rewrite push_ups, rev_replicate. simpl. by rewrite app_nil_r. }
  cbn [replicate foldl]. rewrite rev_app_distr. cbn [rev app]. rewrite step_up.
  apply Forall_app in Hn as [Hn Hx]. inversion Hx as [|? ? (_ & _ & _ & H3) _]; subst.
  unfold seqb. rewrite bool_decide_eq_false_2, IH by done. rewrite length_app. simpl.
  replace (List.length names + 1) with (S (List.length names)) by lia. simpl.
  rewrite take_app_le by lia. done.
Qed.

(** ** The cleaned string *)

Lemma join_nonempty l : l <> [] -> Forall (fun e => e <> "" /\ e <> ".") l -> join_slash l <> "".
Proof.
  destruct l as [|x [|y l]]; [done| |]; intros _ Hl; inversion Hl as [|? ? [H _] _]; subst; simpl; [done|].
  by destruct x.
Qed.

Lemma Clean_relative s :
  HasPrefix s "/" = false -> Clean s = match clean (split_slash s) with [] => "." | l => join_slash l end.
Proof.
  intros Hp. unfold Clean. destruct (sempty s) eqn:Es.
  { apply bool_decide_eq_true in Es. by subst. }
  rewrite Hp. pose proof (clean_no_dots (split_slash s)) as Hd. destruct (clean (split_slash s)) as [|x l] eqn:E; [done|].
  assert (Hj : join_slash (x :: l) <> "") by (by apply join_nonempty). 
  change ("" +:+ join_slash (x :: l)) with (join_slash (x :: l)). unfold sempty. by rewrite bool_decide_eq_false_2.
Qed.

Lemma clean_no_slash l : Forall no_slash l -> Forall no_slash (clean l).
Proof.
  intros Hl. destruct (clean_is_clean l Hl) as (k & names & -> & Hn). apply Forall_app. split.
  - apply Forall_replicate. done.
  - eapply Forall_impl; [exact Hn|]. by intros x [? _].
Qed.

Lemma split_Clean s :
  HasPrefix s "/" = false ->
  split_slash (Clean s) = match clean (split_slash s) with [] => ["."] | l => l end.
Proof.
  intros Hp. rewrite Clean_relative by done.
  pose proof (clean_no_slash _ (split_no_slash s)) as Hn. destruct (clean (split_slash s)) as [|x l]; [done|].
  by apply split_join.
Qed.
