(* ===== verification/Archive.v ===== *)
(** * Source archives: members, paths and header checks

    [internal/source/archive.go] with [CopyArchive] and [checkArchiveSize] of
    [limits.go] and [resolveArchiveSymlinkTarget] of [single.go].

    A member of an archive is what [archive/zip] reports for it: its name, the
    type bits of its mode, the size its header declares, and what reading it
    yields (the bytes, then an error or end of file, or an error at once), which
    need not agree with the header.  Sizes are uint64: the subtractions of the code are on [Z] and never
    go below zero, because the running total stays within the budget. *)
From S2P Require Import Prelude GoText GoPath.

Definition MaxArchiveBytes : Z := 512 * 2 ^ 20.
Definition MaxExpandedBytes : Z := 2 * 2 ^ 30.
Definition MaxArchiveEntries : Z := 100000.
Definition MaxDockerfileBytes : Z := 2 ^ 20.
Definition maxArchiveMetadataBytes : Z := 2 ^ 20.
Definition maxArchiveSymlinkTargetBytes : Z := 4 * 2 ^ 10.

Definition ErrArchiveTooLarge := Sentinel "source archive exceeds 512 MiB compressed size limit".
Definition expandedName : string := "source archive exceeds 2 GiB expanded size limit".
Definition ErrExpandedTooLarge := Sentinel expandedName.
Definition ErrTooManyEntries := Sentinel "source archive exceeds 100000 entry limit".
Definition ErrDockerfileTooLarge := Sentinel "Dockerfile exceeds 1 MiB limit".
Definition ErrMetadataTooLarge := Sentinel "metadata.json exceeds 1 MiB limit".
Definition invalidName : string := "invalid source archive".
Definition ErrInvalidBuildArchive := Sentinel invalidName.
Definition zipErrFormat := Sentinel "zip: not a valid zip file".
Definition zipErrChecksum := Sentinel "zip: checksum error".
Definition zipErrAlgorithm := Sentinel "zip: unsupported compression algorithm".

Record archiveBudget := mkBudget {
  compressedBytes : Z;
  expandedBytes : Z;
  entries : Z }.
Definition defaultArchiveBudget : archiveBudget := mkBudget MaxArchiveBytes MaxExpandedBytes MaxArchiveEntries.

(** ** Members *)

(** What reading a member yields: its bytes and the error that ends them, if not
    end of file. *)
Record zipContent := mkContent { zc_bytes : string; zc_err : option error; zc_closeErr : option error }.

Record zipFile := mkFile {
  zf_Name : string;
  zf_dir : bool;                       (* Mode()&ModeDir *)
  zf_symlink : bool;                   (* Mode()&ModeSymlink *)
  zf_special : bool;                   (* any other type bit *)
  zf_UncompressedSize64 : Z;
  zf_Open : result zipContent }.

Definition IsDir (f : zipFile) : bool := zf_dir f.
Definition IsRegular (f : zipFile) : bool := negb (zf_dir f || zf_symlink f || zf_special f).

(** ** Paths and errors *)

Definition invalidBuildArchive (err : error) : error :=
  if errors_Is err invalidName then err else Join ErrInvalidBuildArchive err.

Definition classifyBuildArchiveError (err : option error) : option error :=
  match err with
  | None => None
  | Some e =>
      if existsb (fun known => match known with Sentinel n => errors_Is e n | _ => false end)
           [ErrInvalidBuildArchive; ErrArchiveTooLarge; ErrExpandedTooLarge; ErrTooManyEntries; ErrDockerfileTooLarge;
            ErrMetadataTooLarge; zipErrFormat; zipErrChecksum; zipErrAlgorithm]
      then Some (invalidBuildArchive e) else Some e
  end.

(** [Ok ""] for a member that names the root itself. *)
Definition ValidateBuildArchivePath (name : string) : result string :=
  let normalized := slashes (TrimSpace name) in
  if sempty normalized then Ok ""
  else if HasPrefix normalized "/" then Err (invalidBuildArchive (Plain "zip contains absolute path"))
  else
    let cleaned := Clean normalized in
    if seqb cleaned "." then Ok ""
    else if seqb cleaned ".." || HasPrefix cleaned "../" then Err (invalidBuildArchive (Plain "zip contains invalid path"))
    else Ok cleaned.

Definition resolveArchiveSymlinkTarget (name target : string) : result string :=
  let normalized := slashes (TrimSpace target) in
  if sempty normalized then Err (Plain "symlink has empty target")
  else if HasPrefix normalized "/" then Err (Plain "symlink points to absolute path")
  else
    let cleanedName := Clean (slashes name) in
    let buildRoot := List.hd "" (split_slash cleanedName) in
    let resolved := Clean (Join2 (Dir cleanedName) normalized) in
    if negb (seqb resolved buildRoot) && negb (HasPrefix resolved (buildRoot +:+ "/"))
    then Err (Plain "symlink points outside the build context")
    else Ok (Clean normalized).

(** A limit of 0 stands for none. *)
Definition requiredBuildFileLimit (cleaned : string) : Z * option error :=
  match split_slash cleaned with
  | [_; base] =>
      if seqb base "Dockerfile" then (MaxDockerfileBytes, Some ErrDockerfileTooLarge)
      else if seqb base "metadata.json" then (maxArchiveMetadataBytes, Some ErrMetadataTooLarge)
      else (0%Z, None)
  | _ => (0%Z, None)
  end.

(** [tooLarge] wrapped with [%w]; the code reaches it only with a limit. *)
Definition wrapTooLarge (tooLarge : option error) : error :=
  match tooLarge with Some e => Wrap "source archive member" e | None => Plain "source archive member" end.

(** ** Header checks *)

Definition headerStep (budget : archiveBudget) (acc : result (Z * list string * gset string)) (file : zipFile)
    : result (Z * list string * gset string) :=
  match acc with
  | Err e => Err e
  | Ok (expanded, cleanedPaths, symlinks) =>
      if (expandedBytes budget - expanded <? zf_UncompressedSize64 file)%Z then Err ErrExpandedTooLarge
      else match ValidateBuildArchivePath (zf_Name file) with
      | Err e => Err e
      | Ok cleaned =>
          let symlinks' := if zf_symlink file then {[cleaned]} ∪ symlinks else symlinks in
          let '(fileLimit, tooLarge) := requiredBuildFileLimit cleaned in
          if (0 <? fileLimit)%Z && negb (IsRegular file)
          then Err (invalidBuildArchive (Plain "source archive member must be a regular file"))
          else if (0 <? fileLimit)%Z && (fileLimit <? zf_UncompressedSize64 file)%Z then Err (wrapTooLarge tooLarge)
          else Ok ((expanded + zf_UncompressedSize64 file)%Z, cleanedPaths ++ [cleaned], symlinks')
      end
  end.

(** [for parent := path.Dir(cleaned); parent != "."; parent = path.Dir(parent)]:
    the parents of a cleaned path, one element less each time. *)
Fixpoint parents (fuel : nat) (p : string) : list string :=
  match fuel with
  | O => []
  | S fuel' => let d := Dir p in if seqb d "." then [] else d :: parents fuel' d
  end.
Definition symlinkParent (symlinks : gset string) (cleaned : string) : bool :=
  existsb (fun p => bool_decide (p ∈ symlinks)) (parents (List.length (split_slash cleaned)) cleaned).

Definition checkArchiveHeaders (files : list zipFile) (budget : archiveBudget) : option error :=
  if (entries budget <? Z.of_nat (List.length files))%Z then Some ErrTooManyEntries
  else match foldl (headerStep budget) (Ok (0%Z, [], ∅)) files with
  | Err e => Some e
  | Ok (_, cleanedPaths, symlinks) =>
      if existsb (symlinkParent symlinks) cleanedPaths
      then Some (invalidBuildArchive (Plain "source archive member has symlink parent")) else None
  end.

(** [io.Copy(dst, io.LimitReader(src, remaining+1))] and the check after it: the
    number of bytes copied and the error. *)
Definition copyExpanded (c : zipContent) (remaining : Z) : string * option error :=
  let n := Z.to_nat (Z.min (slen (zc_bytes c)) (remaining + 1)) in
  let data := take_str n (zc_bytes c) in
  if (remaining <? Z.of_nat n)%Z then (data, Some ErrExpandedTooLarge)
  else (data, zc_err c).

(** [CopyArchive]: the extra byte tells an archive at the limit from a larger one. *)
Definition CopyArchive (src : zipContent) (limit : Z) : string * option error :=
  let n := Z.to_nat (Z.min (slen (zc_bytes src)) (limit + 1)) in
  let data := take_str n (zc_bytes src) in
  if (limit <? Z.of_nat n)%Z then (data, Some ErrArchiveTooLarge) else (data, zc_err src).

(** [file] is the archive on disk, or the error of opening it. *)
Definition checkArchiveSize (file : result string) (limit : Z) : option error :=
  match file with
  | Err e => Some e
  | Ok bytes => if (limit <? slen bytes)%Z then Some ErrArchiveTooLarge else None
  end.
