(* ===== verification/ZipDirectory.v ===== *)
(** * Counting the members of a zip file

    [internal/source/zip_directory.go]: the central directory is walked on the
    raw bytes before [archive/zip] allocates one object per member.  A file is
    its bytes; reads outside it fail.  Fields are little-endian; offsets are
    int64 and sizes uint64, kept in [Z] with the comparisons of the code. *)
From S2P Require Import Prelude GoText GoPath Archive.

Definition zipDirectoryHeaderSignature : Z := 0x02014b50.
Definition zipDirectoryEndSignature : Z := 0x06054b50.
Definition zip64DirectoryEndSignature : Z := 0x06064b50.
Definition zip64LocatorSignature : Z := 0x07064b50.

Definition ioEOF := Sentinel "EOF".

(** [binary.LittleEndian] of the first [n] bytes. *)
Fixpoint le (n : nat) (s : string) : Z :=
  match n, s with
  | S n', String c r => (Z.of_N (byte_of c) + 256 * le n' r)%Z
  | _, _ => 0%Z
  end.
Definition field (n : nat) (s : string) (offset : Z) : Z := le n (str_drop (Z.to_nat offset) s).
Definition Uint16 := field 2.
Definition Uint32 := field 4.
Definition Uint64 := field 8.

(** [ReadAt] of exactly [n] bytes of a file or section. *)
Definition ReadAt (s : string) (offset n : Z) : result string :=
  if (offset <? 0)%Z || (slen s <? offset + n)%Z then Err ioEOF
  else Ok (take_str (Z.to_nat n) (str_drop (Z.to_nat offset) s)).

(** The last end-of-directory record whose comment fits, scanning [offset] down
    from [k]. *)
Fixpoint find_end (tail : string) (k : nat) : option Z :=
  let offset := Z.of_nat k in
  let here := (Uint32 tail offset =? zipDirectoryEndSignature)%Z &&
              (offset + 22 + Uint16 tail (offset + 20) <=? slen tail)%Z in
  if here then Some offset
  else match k with O => None | S k' => find_end tail k' end.

Definition find_end_record (tail : string) : option Z :=
  if (slen tail <? 22)%Z then None else find_end tail (Z.to_nat (slen tail - 22)).

(** Where the central directory ends, its size and its declared count. *)
Record directory := mkDirectory { dir_count : Z; dir_size : Z; dir_end : Z }.

Definition zip64Directory (file : string) (endOffset : Z) : result directory :=
  let size := slen file in
  if (endOffset <? 20)%Z then Err zipErrFormat
  else match ReadAt file (endOffset - 20) 20 with
  | Err e => Err e
  | Ok locator =>
      if negb (Uint32 locator 0 =? zip64LocatorSignature)%Z then Err zipErrFormat
      else
        let zip64Offset := Uint64 locator 8 in
        if (size <? 56)%Z || (size - 56 <? zip64Offset)%Z then Err zipErrFormat
        else match ReadAt file zip64Offset 56 with
        | Err e => Err e
        | Ok zip64End =>
            if negb (Uint32 zip64End 0 =? zip64DirectoryEndSignature)%Z then Err zipErrFormat
            else Ok (mkDirectory (Uint64 zip64End 32) (Uint64 zip64End 40) zip64Offset)
        end
  end.

Definition findDirectory (file : string) : result directory :=
  let size := slen file in
  let tailSize := Z.min size (22 + 65535) in
  match ReadAt file (size - tailSize) tailSize with
  | Err e => Err e
  | Ok tail =>
      match find_end_record tail with
      | None => Err zipErrFormat
      | Some offset =>
          let endOffset := (size - tailSize + offset)%Z in
          let end_ := str_drop (Z.to_nat offset) tail in
          let count := Uint16 end_ 10 in
          let directorySize := Uint32 end_ 12 in
          if (count =? 0xffff)%Z || (directorySize =? 0xffffffff)%Z || (Uint32 end_ 16 =? 0xffffffff)%Z
          then zip64Directory file endOffset
          else Ok (mkDirectory count directorySize endOffset)
      end
  end.

(** The length of the record a header begins. *)
Definition entryBytes (header : string) : Z := 46 + Uint16 header 28 + Uint16 header 30 + Uint16 header 32.

(** The walk over the [directorySize] bytes of the directory; [None] is out of
    fuel. *)
Fixpoint walkDirectory (fuel : nat) (section : string) (directorySize maxEntries offset found : Z) : option (result Z) :=
  if (offset <? directorySize)%Z then
    match fuel with
    | O => None
    | S fuel' =>
        match ReadAt section offset 46 with
        | Err e => Some (Err e)
        | Ok header =>
            if negb (Uint32 header 0 =? zipDirectoryHeaderSignature)%Z then Some (Err zipErrFormat)
            else if (directorySize - offset <? entryBytes header)%Z then Some (Err zipErrFormat)
            else if (maxEntries <? found + 1)%Z then Some (Err ErrTooManyEntries)
            else walkDirectory fuel' section directorySize maxEntries (offset + entryBytes header) (found + 1)
        end
    end
  else Some (Ok found).

(** Each round of the walk counts one member, so [maxEntries + 1] rounds are
    enough; [walkDirectory_enough] shows the [None] of the walk is never met. *)
Definition checkZipEntryCount (file : result string) (maxEntries : Z) : option error :=
  match file with
  | Err e => Some e
  | Ok bytes =>
      match findDirectory bytes with
      | Err e => Some e
      | Ok d =>
          if (maxEntries <? dir_count d)%Z then Some ErrTooManyEntries
          else if (dir_end d <? dir_size d)%Z then Some zipErrFormat
          else
            let section := take_str (Z.to_nat (dir_size d)) (str_drop (Z.to_nat (dir_end d - dir_size d)) bytes) in
            match walkDirectory (S (Z.to_nat maxEntries)) section (dir_size d) maxEntries 0 0 with
            | None => Some (Plain "out of fuel")
            | Some (Err e) => Some e
            | Some (Ok found) => if negb (found =? dir_count d)%Z then Some zipErrFormat else None
            end
      end
  end.
