(* ===== verification/Extract.v ===== *)
(** * Validating and extracting a source archive

    [validateBuildArchiveWithBudget], [validateArchiveContents] and
    [extractZipWithBudget] of [internal/source/archive.go].

    An archive is the file on disk, for the checks on its raw bytes, and the
    members [archive/zip] reports for it; nothing ties the two together.
    Extraction acts on the file system: it is a function from the operations
    performed so far to its result and the operations after it, where the
    environment [fs] answers every operation from the whole history, so any of
    them may fail at any time. *)
From S2P Require Import Prelude GoText GoPath Archive ZipDirectory.

Record zipArchive := mkArchive {
  za_file : result string;
  za_OpenReader : result (list zipFile) }.

(** The checks that precede any work on the members. *)
Definition openChecked (a : zipArchive) (budget : archiveBudget) : result (list zipFile) :=
  match checkArchiveSize (za_file a) (compressedBytes budget) with
  | Some e => Err e
  | None =>
      match checkZipEntryCount (za_file a) (entries budget) with
      | Some e => Err e
      | None =>
          match za_OpenReader a with
          | Err e => Err e
          | Ok files => match checkArchiveHeaders files budget with Some e => Err e | None => Ok files end
          end
      end
  end.

(** ** Validation *)

Record buildArchiveTopLevel := mkTop { tl_children : gset string; tl_rootFile : bool }.

(** One round of the loop over the members: [topLevels] and [seenPaths]. *)
Definition topLevelStep (acc : result (gmap string buildArchiveTopLevel * gset string)) (file : zipFile)
    : result (gmap string buildArchiveTopLevel * gset string) :=
  match acc with
  | Err e => Err e
  | Ok (topLevels, seenPaths) =>
      match ValidateBuildArchivePath (zf_Name file) with
      | Err e => Err e
      | Ok cleaned =>
          if sempty cleaned then Ok (topLevels, seenPaths)
          else if bool_decide (cleaned ∈ seenPaths) then Err (invalidBuildArchive (Plain "zip contains duplicate path"))
          else
            let seenPaths' := {[cleaned]} ∪ seenPaths in
            let parts := split_slash cleaned in
            let top := List.hd "" parts in
            let entry := default (mkTop ∅ false) (topLevels !! top) in
            match parts with
            | _ :: child :: _ => Ok (<[top := mkTop ({[child]} ∪ tl_children entry) (tl_rootFile entry)]> topLevels, seenPaths')
            | _ => Ok (<[top := mkTop (tl_children entry) (tl_rootFile entry || negb (IsDir file))]> topLevels, seenPaths')
            end
      end
  end.

Definition has_child (child : string) (e : buildArchiveTopLevel) : bool := bool_decide (child ∈ tl_children e).
Definition validTop (e : buildArchiveTopLevel) : bool := has_child "Dockerfile" e && has_child "metadata.json" e.

Fixpoint validateContentsFrom (maxExpandedBytes expanded : Z) (files : list zipFile) : option error :=
  match files with
  | [] => None
  | file :: rest =>
      if IsDir file then validateContentsFrom maxExpandedBytes expanded rest
      else match ValidateBuildArchivePath (zf_Name file) with
      | Err e => Some e
      | Ok cleaned =>
          let '(fileLimit, tooLarge) := requiredBuildFileLimit cleaned in
          let left := (maxExpandedBytes - expanded)%Z in
          let remaining := if (0 <? fileLimit)%Z && (fileLimit <? left)%Z then fileLimit else left in
          match zf_Open file with
          | Err e => Some (Wrap "source archive member" e)
          | Ok c =>
              let '(data, copyErr) := copyExpanded c remaining in
              match copyErr with
              | Some e =>
                  if errors_Is e expandedName && (0 <? fileLimit)%Z &&
                     (remaining =? fileLimit)%Z
                  then Some (wrapTooLarge tooLarge) else Some (Wrap "source archive member" e)
              | None =>
                  match zc_closeErr c with
                  | Some e => Some (Wrap "source archive member" e)
                  | None => validateContentsFrom maxExpandedBytes (expanded + slen data)%Z rest
                  end
              end
          end
      end
  end.
Definition validateArchiveContents (files : list zipFile) (maxExpandedBytes : Z) : option error :=
  validateContentsFrom maxExpandedBytes 0 files.

Definition validateBuildArchiveWithBudget (a : zipArchive) (budget : archiveBudget) : result Z :=
  match openChecked a budget with
  | Err e => Err e
  | Ok files =>
      match foldl topLevelStep (Ok (∅, ∅)) files with
      | Err e => Err e
      | Ok (topLevels, _) =>
          let tops := (sorted_entries topLevels).*2 in
          let rootFiles := List.filter tl_rootFile tops in
          let dirs := List.filter (fun e => negb (tl_rootFile e)) tops in
          let validCount := Z.of_nat (List.length (List.filter validTop dirs)) in
          let invalidDirs := List.filter (fun e => negb (validTop e)) dirs in
          if bool_decide (topLevels = ∅)
          then Err (invalidBuildArchive (Plain "zip archive is empty or does not contain any image directories"))
          else if (0 <? Z.of_nat (List.length rootFiles))%Z
          then Err (invalidBuildArchive (Plain "zip root must contain only image directories"))
          else if (0 <? Z.of_nat (List.length invalidDirs))%Z
          then Err (invalidBuildArchive (Plain "zip root must directly contain image directories with Dockerfile and metadata.json"))
          else if (validCount =? 0)%Z
          then Err (invalidBuildArchive (Plain "zip archive does not contain any valid image directories"))
          else match validateArchiveContents files (expandedBytes budget) with
               | Some e => Err e
               | None => Ok validCount
               end
      end
  end.

Definition ValidateBuildArchive (a : zipArchive) : result Z :=
  match validateBuildArchiveWithBudget a defaultArchiveBudget with
  | Ok count => Ok count
  | Err e => match classifyBuildArchiveError (Some e) with Some e' => Err e' | None => Err e end
  end.

(** ** Extraction *)

(** Operations on the file system, in the order they are performed.  The paths
    of the second group are relative to the root opened on the stage. *)
Inductive fsop :=
| MkdirAllParent | MkdirTemp | OpenRoot | Rename | RemoveAllStage
| MkdirAll (path : string) | Remove (path : string) | Symlink (target path : string)
| OpenFile (path : string) | Write (path data : string) | CloseFile (path : string).

(** The answer to an operation: its error, whether that is [os.IsNotExist], and
    for a write the number of bytes that reached the file. *)
Record fsAnswer := mkAnswer { fa_err : option error; fa_notExist : bool; fa_n : nat }.

Definition fsM (A : Type) : Type := list fsop -> A * list fsop.
Definition fs_ret {A} (x : A) : fsM A := fun log => (x, log).
Definition fs_bind {A B} (m : fsM A) (k : A -> fsM B) : fsM B := fun log => let '(x, log') := m log in k x log'.

Declare Scope fs_scope.
Delimit Scope fs_scope with fs.
Notation "'let%' x ':=' m 'in' k" := (fs_bind m (fun x => k)) (at level 200, x name, k at level 200) : fs_scope.

Definition errShortWrite := Sentinel "short write".

(** [io.ReadAll(io.LimitReader(rc, limit))]. *)
Definition readLimited (c : zipContent) (limit : Z) : string * option error :=
  if (limit <=? slen (zc_bytes c))%Z then (take_str (Z.to_nat limit) (zc_bytes c), None)
  else (zc_bytes c, zc_err c).

Section Extraction.

Variable fs : list fsop -> fsop -> fsAnswer.
Variable budget : archiveBudget.

Local Open Scope fs_scope.

Definition perform (op : fsop) : fsM fsAnswer := fun log => (fs log op, log ++ [op]).

(** An operation whose error ends the extraction. *)
Definition must {A} (op : fsop) (k : fsM (result A)) : fsM (result A) :=
  let% ans := perform op in
  match fa_err ans with Some e => fs_ret (Err e) | None => k end.

(** [copyExpanded(out, rc, remaining)]: what was written, and the error. *)
Definition copyOut (path : string) (c : zipContent) (remaining : Z) : fsM (Z * option error) :=
  let data := take_str (Z.to_nat (Z.min (slen (zc_bytes c)) (remaining + 1))) (zc_bytes c) in
  let% ans := perform (Write path data) in
  let n := Z.min (Z.of_nat (fa_n ans)) (slen data) in
  fs_ret (n, if (remaining <? n)%Z then Some ErrExpandedTooLarge
             else match fa_err ans with
                  | Some e => Some e
                  | None => if (n <? slen data)%Z then Some errShortWrite else zc_err c
                  end).

Definition extractSymlink (expanded : Z) (cleaned : string) (f : zipFile) : fsM (result Z) :=
  if (maxArchiveSymlinkTargetBytes <? zf_UncompressedSize64 f)%Z then fs_ret (Err (Plain "symlink target exceeds 4 KiB"))
  else match zf_Open f with
  | Err e => fs_ret (Err e)
  | Ok c =>
      let remaining := (expandedBytes budget - expanded)%Z in
      let readLimit := if (remaining + 1 <? maxArchiveSymlinkTargetBytes + 1)%Z then (remaining + 1)%Z
                       else (maxArchiveSymlinkTargetBytes + 1)%Z in
      let '(linkTarget, readErr) := readLimited c readLimit in
      match readErr with
      | Some e => fs_ret (Err e)
      | None =>
          if (remaining <? slen linkTarget)%Z then fs_ret (Err ErrExpandedTooLarge)
          else if (maxArchiveSymlinkTargetBytes <? slen linkTarget)%Z then fs_ret (Err (Plain "symlink target exceeds 4 KiB"))
          else match zc_closeErr c with
          | Some e => fs_ret (Err e)
          | None =>
              match resolveArchiveSymlinkTarget cleaned linkTarget with
              | Err e => fs_ret (Err e)
              | Ok safeTarget =>
                  must (MkdirAll (Dir cleaned)) (
                  let% removed := perform (Remove cleaned) in
                  match fa_err removed, fa_notExist removed with
                  | Some e, false => fs_ret (Err e)
                  | _, _ => must (Symlink safeTarget cleaned) (fs_ret (Ok (expanded + slen linkTarget)%Z))
                  end)
              end
          end
      end
  end.

Definition extractRegular (expanded : Z) (cleaned : string) (f : zipFile) : fsM (result Z) :=
  must (MkdirAll (Dir cleaned)) (
  must (OpenFile cleaned) (
  match zf_Open f with
  | Err e => let% _ := perform (CloseFile cleaned) in fs_ret (Err e)
  | Ok c =>
      let '(fileLimit, tooLarge) := requiredBuildFileLimit cleaned in
      let left := (expandedBytes budget - expanded)%Z in
      let remaining := if (0 <? fileLimit)%Z && (fileLimit <? left)%Z then fileLimit else left in
      let% copied := copyOut cleaned c remaining in
      let% closed := perform (CloseFile cleaned) in
      match snd copied with
      | Some e =>
          if errors_Is e expandedName && (0 <? fileLimit)%Z && (remaining =? fileLimit)%Z
          then fs_ret (Err (wrapTooLarge tooLarge)) else fs_ret (Err e)
      | None =>
          match zc_closeErr c, fa_err closed with
          | Some e, _ => fs_ret (Err e)
          | None, Some e => fs_ret (Err e)
          | None, None => fs_ret (Ok (expanded + fst copied)%Z)
          end
      end
  end)).

Definition extractMember (expanded : Z) (f : zipFile) : fsM (result Z) :=
  match ValidateBuildArchivePath (zf_Name f) with
  | Err e => fs_ret (Err e)
  | Ok cleaned =>
      if sempty cleaned then fs_ret (Ok expanded)
      else if IsDir f then must (MkdirAll cleaned) (fs_ret (Ok expanded))
      else if zf_symlink f then extractSymlink expanded cleaned f
      else extractRegular expanded cleaned f
  end.

Fixpoint extractMembers (expanded : Z) (files : list zipFile) : fsM (result Z) :=
  match files with
  | [] => fs_ret (Ok expanded)
  | f :: rest =>
      let% r := extractMember expanded f in
      match r with Err e => fs_ret (Err e) | Ok expanded' => extractMembers expanded' rest end
  end.

(** Everything between [MkdirTemp] and the deferred [RemoveAll] of the stage. *)
Definition extractStaged (files : list zipFile) : fsM (result unit) :=
  must OpenRoot (
  let% r := extractMembers 0 files in
  match r with
  | Err e => fs_ret (Err e)
  | Ok _ => must Rename (fs_ret (Ok tt))
  end).

Definition extractZipWithBudget (a : zipArchive) : fsM (result unit) :=
  match openChecked a budget with
  | Err e => fs_ret (Err e)
  | Ok files =>
      must MkdirAllParent (
      must MkdirTemp (
      let% r := extractStaged files in
      let% _ := perform RemoveAllStage in
      fs_ret r))
  end.

End Extraction.

Definition ExtractZip (fs : list fsop -> fsop -> fsAnswer) (a : zipArchive) : fsM (result unit) :=
  extractZipWithBudget fs defaultArchiveBudget a.
