(* ===== verification/ExtractFacts.v ===== *)
(** * What the header checks establish, and reasoning about extraction

    The guarantees of [checkArchiveHeaders], and a weakest-precondition rule per
    construct of the extraction programs, for any answers of the file system. *)
From S2P Require Import Prelude GoText GoPath Archive ZipDirectory Extract.

(** * Paths and link targets of archive members

    What [ValidateBuildArchivePath] and [resolveArchiveSymlinkTarget] guarantee
    of the strings they return, in terms of path elements. *)
(** ** Relative strings and their elements *)

Lemma HasPrefix_slash s : List.hd "" (split_slash s) <> "" -> HasPrefix s "/" = false.
Proof.
  intros Hh. destruct (HasPrefix s "/") eqn:E; [|done]. apply HasPrefix_inv in E as [t ->]. by destruct Hh.
Qed.

(** The string of a list of elements; the empty list is the directory itself. *)
Definition show (l : list string) : string := match l with [] => "." | _ => join_slash l end.
Definition elements (p : string) : list string := if seqb p "." then [] else split_slash p.

Lemma clean_relative_show s : HasPrefix s "/" = false -> Clean s = show (clean (split_slash s)).
Proof. intros H. rewrite Clean_relative by done. by destruct (clean _). Qed.

Lemma clean_fixed l : clean_form l -> clean l = l.
Proof.
  intros (k & names & -> & Hn). unfold clean_elements. rewrite foldl_app, push_names by done.
  change [] with (replicate 0 ".."). rewrite push_ups. by rewrite rev_app_distr, rev_involutive, rev_replicate.
Qed.

Lemma clean_form_no_slash l : clean_form l -> Forall no_slash l.
Proof.
  intros (k & names & -> & Hn). apply Forall_app. split; [by apply Forall_replicate|].
  eapply Forall_impl; [exact Hn|]. by intros x [? _].
Qed.

Lemma split_show l : clean_form l -> l <> [] -> split_slash (show l) = l.
Proof. intros Hl Hn. destruct l; [done|]. apply split_join; [done|]. by apply clean_form_no_slash. Qed.

Lemma clean_form_hd l : clean_form l -> l <> [] -> List.hd "" l <> "" /\ List.hd "" l <> ".".
Proof.
  intros (k & names & -> & Hn) Hne. destruct k as [|k]; [|done]. destruct names as [|x names]; [done|].
  inversion Hn as [|? ? (_ & H1 & H2 & _) _]; subst. by split.
Qed.

Lemma clean_names_form names : Forall normal names -> clean_form names.
Proof. intros H. by exists 0, names. Qed.

Lemma show_inj l : clean_form l -> elements (show l) = l.
Proof.
  intros Hl. unfold elements, seqb. case_bool_decide as E.
  - destruct l as [|x l]; [done|]. pose proof (split_show _ Hl ltac:(done)) as Hs. rewrite E in Hs.
    destruct (clean_form_hd _ Hl) as [_ Hd]; [done|]. rewrite <- Hs in Hd. done.
  - destruct l as [|x l]; [done|]. by apply split_show.
Qed.

Lemma show_relative l : clean_form l -> HasPrefix (show l) "/" = false.
Proof.
  intros Hl. destruct l as [|x l]; [done|]. apply HasPrefix_slash. rewrite split_show by done.
  by apply clean_form_hd.
Qed.

(** A cleaned string is left alone. *)
Lemma Clean_show l : clean_form l -> Clean (show l) = show l.
Proof.
  intros Hl. rewrite clean_relative_show by (by apply show_relative). destruct l as [|x l]; [done|].
  rewrite split_show by done. by rewrite clean_fixed.
Qed.

Lemma clean_split_show l : clean_form l -> clean (split_slash (show l)) = l.
Proof. intros Hl. destruct l as [|x l]; [done|]. rewrite split_show by done. by apply clean_fixed. Qed.

(** ** Directories of plain paths *)

Lemma removelast_normal names : Forall normal names -> Forall normal (removelast names).
Proof.
  intros H. destruct names as [|x l _] using rev_ind; [done|]. rewrite removelast_last. by apply Forall_app in H as [? _].
Qed.

Lemma Dir_show names : Forall normal names -> Dir (show names) = show (removelast names).
Proof.
  intros Hn. unfold Dir, dir_part. destruct names as [|x l _] using rev_ind; [done|].
  rewrite removelast_last. pose proof Hn as [Hl Hx]%Forall_app. rewrite split_show.
  2: { by apply clean_names_form. }
  2: { by destruct l. }
  destruct l as [|y l]; [done|]. change ((y :: l) ++ [x]) with (y :: l ++ [x]).
  assert (Hr : removelast (y :: l ++ [x]) = y :: l) by (change (y :: l ++ [x]) with ((y :: l) ++ [x]); by rewrite removelast_last).
  destruct (l ++ [x]) eqn:El; [by destruct l|]. rewrite Hr. clear El Hr.
  pose proof (clean_names_form _ Hl) as Hf.
  assert (Hs : split_slash (join_slash (y :: l) +:+ "/") = (y :: l) ++ [""]).
  { rewrite <- (split_show (y :: l)) at 2 by done. exact (split_app _ ""). }
  rewrite clean_relative_show; [|apply HasPrefix_slash; rewrite Hs; by apply (clean_form_hd (y :: l))].
  rewrite Hs. rewrite clean_snoc. rewrite (clean_fixed (y :: l)) by done. f_equal. rewrite step_skip by done.
  by rewrite rev_involutive.
Qed.

(** ** What a validated path looks like *)

Definition no_backslash (e : string) : Prop := str_forallb (fun c => negb (bool_decide (c = "\"%char))) e = true.

(** The elements of the path of a member: plain names, without backslashes. *)
Definition memberPath (l : list string) : Prop := l <> [] /\ Forall normal l /\ Forall no_backslash l.

Lemma slashes_no_backslash s : no_backslash (slashes s).
Proof.
  unfold no_backslash, slashes. induction s as [|c s IH]; [done|]. simpl. rewrite IH, andb_true_r.
  destruct (decide (c = "\"%char)) as [->|E]; [done|]. by rewrite !(bool_decide_eq_false_2 (c = _)).
Qed.

Lemma no_backslash_split s : no_backslash s -> Forall no_backslash (split_slash s).
Proof.
  unfold no_backslash. induction s as [|c s IH]; simpl; [by repeat constructor|].
  intros [Hc Hs]%andb_true_iff. specialize (IH Hs). destruct (bool_decide (c = slash)); [by constructor|].
  destruct (split_slash s) as [|x l]; [constructor; [|done]; simpl; by rewrite Hc|].
  inversion IH; subst. constructor; [|done]. simpl. by rewrite Hc.
Qed.

Lemma clean_forall (P : string -> Prop) l : P ".." -> Forall P l -> Forall P (clean l).
Proof.
  intros Hd Hl. unfold clean_elements. apply Forall_rev.
  assert (Hf : forall st, Forall P st -> Forall P (foldl (clean_step false) st l)); [|by apply Hf].
  induction Hl as [|e l He Hl IH]; intros st Hst; simpl; [done|]. apply IH. unfold clean_step.
  destruct (_ || _); [done|]. destruct (seqb e ".."); [|by constructor].
  destruct st as [|top rest]; [by constructor|]. destruct (seqb top ".."); [by constructor|]. by inversion Hst.
Qed.

Lemma slashes_id s : no_backslash s -> slashes s = s.
Proof.
  unfold no_backslash, slashes. induction s as [|c s IH]; [done|]. simpl. intros [Hc Hs]%andb_true_iff.
  rewrite IH by done. apply negb_true_iff, bool_decide_eq_false in Hc. by rewrite bool_decide_eq_false_2.
Qed.

Lemma no_backslash_app a b : no_backslash a -> no_backslash b -> no_backslash (a +:+ b).
Proof.
  unfold no_backslash. intros Ha Hb. induction a as [|c a IH]; [done|]. rewrite append_cons. simpl in *.
  apply andb_true_iff in Ha as [Hc Ha]. by rewrite Hc, IH.
Qed.

Lemma no_backslash_show l : Forall no_backslash l -> no_backslash (show l).
Proof.
  intros Hl. destruct Hl as [|x l Hx Hl]; [done|]. simpl. revert x Hx. induction Hl as [|y l Hy Hl IH]; intros x Hx; [done|].
  change (join_slash (x :: y :: l)) with (x +:+ String slash (join_slash (y :: l))).
  apply no_backslash_app; [done|]. exact (IH y Hy).
Qed.

(** A path that begins with [..] is one of the two forms the code refuses. *)
Lemma show_up k names : Forall normal names -> let c := show (replicate (S k) ".." ++ names) in seqb c ".." || HasPrefix c "../" = true.
Proof.
  intros Hn c. subst c. unfold seqb. simpl. destruct (replicate k ".." ++ names) as [|x l]; [done|].
  apply orb_true_iff. right. change ".." with (String "." (String "." "")). rewrite !append_cons. by destruct (join_slash (x :: l)).
Qed.

Lemma ValidateBuildArchivePath_ok name c :
  ValidateBuildArchivePath name = Ok c -> c <> "" -> exists l, c = show l /\ memberPath l.
Proof.
  unfold ValidateBuildArchivePath. destruct (sempty _); [by intros [= <-]|].
  destruct (HasPrefix (slashes _) "/") eqn:Ep; [done|]. rewrite clean_relative_show by done.
  pose proof (clean_is_clean _ (split_no_slash (slashes (TrimSpace name)))) as Hf.
  pose proof (clean_forall no_backslash _ eq_refl (no_backslash_split _ (slashes_no_backslash (TrimSpace name)))) as Hb.
  destruct (clean _) as [|x l] eqn:Ec; [by intros [= <-]|]. set (l' := x :: l) in *.
  destruct (seqb _ "."); [by intros [= <-]|].
  destruct (seqb (show l') ".." || HasPrefix (show l') "../") eqn:Eu; [done|]. intros [= <-] _.
  exists l'. split; [done|]. split; [done|]. split; [|done].
  destruct Hf as (k & names & E & Hn). destruct k as [|k]; [by rewrite E|].
  rewrite E in Eu. by rewrite show_up in Eu.
Qed.

Lemma show_nonempty l : Forall normal l -> show l <> "".
Proof.
  intros Hl. destruct Hl as [|x l (_ & Hx & _) _]; [done|]. destruct l as [|y l]; [done|]. simpl. by destruct x.
Qed.

(** ** Link targets *)

(** [t] leaves [j] directories above the link, then names, and lexically ends at
    or below the first element of the link's own path. *)
Definition safeTarget (link : list string) (t : string) : Prop :=
  exists j rest, t = show (replicate j ".." ++ rest) /\ Forall normal rest /\ j <= List.length (removelast link) /\
    List.hd_error (take (List.length (removelast link) - j) (removelast link) ++ rest) = List.hd_error link.

Lemma hd_split_prefix s root : no_slash root -> s = root \/ HasPrefix s (root +:+ "/") = true -> List.hd_error (split_slash s) = Some root.
Proof.
  intros Hr [-> | Hp]; [by rewrite split_no_slash_one|]. apply HasPrefix_inv in Hp as [t ->].
  rewrite append_assoc. change ("/" +:+ t) with (String slash t). rewrite split_app, split_no_slash_one by done. done.
Qed.

Lemma Join2_dir l s :
  Forall normal l -> sempty s = false -> HasPrefix s "/" = false ->
  Clean (Join2 (show l) s) = show (rev (foldl (clean_step false) (rev l) (clean (split_slash s)))).
Proof.
  intros Hl Hs Hp. unfold Join2. pose proof (clean_names_form _ Hl) as Hf.
  assert (Hd : sempty (show l) = false) by (unfold sempty; apply bool_decide_eq_false; by apply show_nonempty).
  rewrite Hd, Hs. cbn [andb].
  assert (Hpd : HasPrefix (show l +:+ String slash s) "/" = false).
  { apply HasPrefix_slash. rewrite split_app. destruct l as [|x l]; [done|]. rewrite split_show by done.
    by apply (clean_form_hd (x :: l)). }
  rewrite (clean_relative_show (show l +:+ String slash s)) by done. rewrite Clean_show.
  - rewrite split_app, clean_app, clean_split_show by done. done.
  - apply clean_is_clean. apply split_no_slash.
Qed.

Lemma resolveArchiveSymlinkTarget_safe names target t :
  memberPath names -> resolveArchiveSymlinkTarget (show names) target = Ok t -> safeTarget names t.
Proof.
  intros (Hne & Hn & Hb). unfold resolveArchiveSymlinkTarget. set (s := slashes (TrimSpace target)).
  destruct (sempty s) eqn:Es; [done|]. destruct (HasPrefix s "/") eqn:Ep; [done|].
  rewrite slashes_id by (by apply no_backslash_show). pose proof (clean_names_form _ Hn) as Hf.
  rewrite Clean_show, split_show, Dir_show by done.
  rewrite Join2_dir by (by first [apply removelast_normal | idtac]).
  destruct (clean_is_clean _ (split_no_slash s)) as (j & rest & Ec & Hr).
  rewrite (clean_relative_show s), Ec by done. rewrite clean_names by (by first [apply removelast_normal | idtac]).
  set (dir := removelast names). set (l := replicate _ _ ++ _ ++ rest).
  destruct (_ && _) eqn:Eg; [done|]. intros [= <-]. exists j, rest. split; [done|]. split; [done|].
  assert (Hdir : Forall normal dir) by (by apply removelast_normal).
  assert (Hl : clean_form l).
  { exists (j - List.length dir), (take (List.length dir - j) dir ++ rest). split; [done|]. apply Forall_app.
    split; [by apply Forall_take|done]. }
  destruct names as [|root names]; [done|]. inversion Hn as [|? ? (Hrs & Hr1 & Hr2 & Hr3) _]; subst. cbn [List.hd] in Eg.
  assert (Hh : List.hd_error (split_slash (show l)) = Some root).
  { apply hd_split_prefix; [done|]. apply andb_false_iff in Eg as [Eg | Eg]; apply negb_false_iff in Eg; [left|by right].
    by apply bool_decide_eq_true in Eg. }
  destruct l as [|x l'] eqn:El; [by injection Hh as <-|]. rewrite split_show in Hh by done. injection Hh as ->. subst l.
  destruct (j - List.length dir) as [|d] eqn:Ed; [|by injection El; intros _ <-].
  subst dir. split; [lia|]. cbn [replicate app] in El. by rewrite El.
Qed.

(** ** Members and their paths *)

(** The member [f] has path [l]. *)
Definition pathOf (f : zipFile) (l : list string) : Prop :=
  ValidateBuildArchivePath (zf_Name f) = Ok (show l) /\ memberPath l.

Lemma pathOf_intro f c : ValidateBuildArchivePath (zf_Name f) = Ok c -> sempty c = false -> exists l, c = show l /\ pathOf f l.
Proof.
  intros H He. unfold sempty in He. apply bool_decide_eq_false in He.
  destruct (ValidateBuildArchivePath_ok _ _ H He) as (l & -> & Hl). by exists l.
Qed.

Lemma memberPath_form l : memberPath l -> clean_form l.
Proof. intros (_ & Hn & _). by apply clean_names_form. Qed.

Lemma pathOf_elements f l : pathOf f l -> split_slash (show l) = l.
Proof. intros [_ Hl]. apply split_show; [by apply memberPath_form|by destruct Hl]. Qed.

Lemma show_eq l l' : clean_form l -> clean_form l' -> show l = show l' -> l = l'.
Proof. intros H H' E. rewrite <- (show_inj l), <- (show_inj l') by done. by rewrite E. Qed.

Lemma pathOf_fun f l l' : pathOf f l -> pathOf f l' -> l = l'.
Proof.
  intros [E Hl] [E' Hl']. rewrite E in E'. injection E' as E'.
  apply show_eq; by try apply memberPath_form.
Qed.

(** ** Parents *)

Lemma prefix_removelast (p l : list string) : p `prefix_of` l -> p <> l -> p `prefix_of` removelast l.
Proof.
  intros [k ->] Hn. destruct k as [|x k _] using rev_ind; [by rewrite app_nil_r in Hn|].
  rewrite app_assoc, removelast_last. by exists k.
Qed.

Lemma length_removelast (l : list string) : List.length (removelast l) = List.length l - 1.
Proof.
  destruct l as [|x l _] using rev_ind; [done|]. rewrite removelast_last, length_app. simpl. lia.
Qed.

Lemma parents_prefixes fuel : forall l p,
  Forall normal l -> List.length l <= fuel -> p <> [] -> p `prefix_of` l -> p <> l -> show p ∈ parents fuel (show l).
Proof.
  induction fuel as [|fuel IH]; intros l p Hl Hf Hp Hpl Hne.
  { destruct l; [|simpl in Hf; lia]. by apply prefix_nil_inv in Hpl. }
  cbn [parents]. rewrite Dir_show by done. pose proof (prefix_removelast _ _ Hpl Hne) as Hr.
  pose proof (removelast_normal _ Hl) as Hrn. pose proof (length_removelast l) as Hlen.
  destruct (removelast l) as [|y l'] eqn:Er; [by apply prefix_nil_inv in Hr|].
  assert (Ed : seqb (show (y :: l')) "." = false).
  { unfold seqb. apply bool_decide_eq_false. intros E. apply (show_eq (y :: l') []) in E; [done| |];
      by apply clean_names_form. }
  rewrite Ed. destruct (decide (p = y :: l')) as [->|Hn]; [left|]. right. apply IH; try done. lia.
Qed.

Lemma symlinkParent_false links l p :
  memberPath l -> symlinkParent links (show l) = false -> p <> [] -> p `prefix_of` l -> p <> l -> show p ∉ links.
Proof.
  intros Hm Hs Hp Hpl Hne Hin. enough (symlinkParent links (show l) = true) by congruence.
  unfold symlinkParent. apply existsb_exists. exists (show p). split.
  - apply list_elem_of_In. apply parents_prefixes; try done; [by destruct Hm as (_ & ? & _)|].
    rewrite split_show; [done|by apply memberPath_form|by destruct Hm].
  - by apply bool_decide_eq_true.
Qed.

(** ** The header checks *)

(** What the loop over the members checks of one of them. *)
Definition headerOk (f : zipFile) (c : string) : Prop :=
  ValidateBuildArchivePath (zf_Name f) = Ok c /\
  ((0 < fst (requiredBuildFileLimit c))%Z ->
    IsRegular f = true /\ (zf_UncompressedSize64 f <= fst (requiredBuildFileLimit c))%Z).

Definition declared (files : list zipFile) : Z := foldr (fun f n => (zf_UncompressedSize64 f + n)%Z) 0%Z files.

Lemma headerStep_err budget e files : foldl (headerStep budget) (Err e) files = Err e.
Proof. by induction files. Qed.

Lemma headers_fold budget files : forall e ps ls e' ps' ls',
  foldl (headerStep budget) (Ok (e, ps, ls)) files = Ok (e', ps', ls') ->
  exists cs, Forall2 (fun f c => headerOk f c /\ (zf_symlink f = true -> c ∈ ls')) files cs /\ ps' = ps ++ cs /\ ls ⊆ ls' /\
    e' = (e + declared files)%Z /\ (files <> [] -> e' <= expandedBytes budget)%Z.
Proof.
  induction files as [|f files IH]; intros e ps ls e' ps' ls' H.
  { injection H as <- <- <-. exists []. rewrite app_nil_r. split_and!; try done. simpl. lia. }
  cbn [foldl] in H. unfold headerStep at 2 in H. destruct (Z.ltb_spec (expandedBytes budget - e) (zf_UncompressedSize64 f)) as [|Hs];
    [by rewrite headerStep_err in H|].
  destruct (ValidateBuildArchivePath (zf_Name f)) as [c|] eqn:Ec; [|by rewrite headerStep_err in H].
  destruct (requiredBuildFileLimit c) as [limit tooLarge] eqn:El.
  destruct ((0 <? limit)%Z && negb (IsRegular f)) eqn:E1; [by rewrite headerStep_err in H|].
  destruct ((0 <? limit)%Z && (limit <? zf_UncompressedSize64 f)%Z) eqn:E2; [by rewrite headerStep_err in H|].
  apply IH in H as (cs & Hok & -> & Hls & -> & Hle). exists (c :: cs).
  split_and!.
  - constructor; [|done]. split; [|intros Hsym; rewrite Hsym in Hls; set_solver].
    split; [done|]. rewrite El. cbn [fst]. intros Hl. apply Z.ltb_lt in Hl. rewrite Hl in *.
    apply negb_false_iff in E1. apply Z.ltb_ge in E2. done.
  - by rewrite <- app_assoc.
  - destruct (zf_symlink f); set_solver.
  - simpl. lia.
  - intros _. destruct files as [|g files]; [simpl; lia|]. by apply Hle.
Qed.

(** The facts about an archive whose headers were accepted. *)
Record headersOk (budget : archiveBudget) (files : list zipFile) : Prop := {
  ho_entries : (Z.of_nat (List.length files) <= entries budget)%Z;
  ho_each : Forall (fun f => exists c, headerOk f c) files;
  ho_declared : files <> [] -> (declared files <= expandedBytes budget)%Z;
  ho_links : forall f g l p, f ∈ files -> g ∈ files -> zf_symlink g = true -> pathOf f l -> pathOf g p ->
    p `prefix_of` l -> p = l }.

Lemma Forall2_pick {A B} (P : A -> B -> Prop) l k x : Forall2 P l k -> x ∈ l -> exists y, y ∈ k /\ P x y.
Proof.
  intros H. revert x. induction H as [|a b l k Hab _ IH]; intros x Hx; [by apply elem_of_nil in Hx|].
  apply elem_of_cons in Hx as [->|Hx]; [exists b; split; [left|done]|].
  destruct (IH _ Hx) as (y & Hy & Hp). exists y. split; [by right|done].
Qed.

Lemma checkArchiveHeaders_ok budget files : checkArchiveHeaders files budget = None -> headersOk budget files.
Proof.
  unfold checkArchiveHeaders. destruct (Z.ltb_spec (entries budget) (Z.of_nat (List.length files))) as [|Hn]; [done|].
  destruct (foldl _ _ _) as [[[e ps] ls]|] eqn:Ef; [|done]. destruct (existsb _ _) eqn:Ex; [done|]. intros _.
  apply headers_fold in Ef as (cs & Hok & -> & _ & -> & Hle). rewrite app_nil_l in Ex.
  split; [done| |intros Hx; specialize (Hle Hx); lia|].
  - clear -Hok. induction Hok as [|f c files cs [Hf _] _ IH]; constructor; [by exists c|done].
  - intros f g l p Hf Hg Hsym Hl Hp Hpre. destruct (decide (p = l)) as [|Hne]; [done|]. exfalso.
    destruct (Forall2_pick _ _ _ _ Hok Hf) as (c & Hc & [Hfc _] & _).
    destruct (Forall2_pick _ _ _ _ Hok Hg) as (d & _ & [Hgv _] & Hgd).
    destruct Hl as [Hl Hlm]. destruct Hp as [Hp Hpm]. rewrite Hfc in Hl. injection Hl as ->. rewrite Hgv in Hp. injection Hp as ->.
    assert (Hs : symlinkParent ls (show l) = false).
    { destruct (symlinkParent ls (show l)) eqn:E; [|done]. rewrite <- Ex. symmetry. apply existsb_exists.
      exists (show l). split; [by apply list_elem_of_In|done]. }
    eapply symlinkParent_false; [exact Hlm|exact Hs| |exact Hpre|exact Hne|by apply Hgd]. by destruct Hpm.
Qed.

Lemma openChecked_ok a budget files : openChecked a budget = Ok files -> headersOk budget files.
Proof.
  unfold openChecked. repeat (case_match; try done). intros [= <-]. by apply checkArchiveHeaders_ok.
Qed.

(** ** Programs over the file system *)

(** Whatever the history and the answers, [m] appends operations [ops] and
    returns [x] with [Q x ops]. *)
Definition fswp {A} (m : fsM A) (Q : A -> list fsop -> Prop) : Prop :=
  forall log, exists x ops, m log = (x, log ++ ops) /\ Q x ops.

Lemma fswp_ret {A} (x : A) (Q : A -> list fsop -> Prop) : Q x [] -> fswp (fs_ret x) Q.
Proof. intros H log. exists x, []. by rewrite app_nil_r. Qed.

Lemma fswp_bind {A B} (m : fsM A) (k : A -> fsM B) Q :
  fswp m (fun x ops => fswp (k x) (fun y ops' => Q y (ops ++ ops'))) -> fswp (fs_bind m k) Q.
Proof.
  intros H log. destruct (H log) as (x & ops & E & Hk). destruct (Hk (log ++ ops)) as (y & ops' & E' & Hq).
  exists y, (ops ++ ops'). unfold fs_bind. rewrite E, E'. by rewrite app_assoc.
Qed.

Lemma fswp_mono {A} (m : fsM A) (Q R : A -> list fsop -> Prop) : fswp m Q -> (forall x ops, Q x ops -> R x ops) -> fswp m R.
Proof. intros H HQ log. destruct (H log) as (x & ops & E & Hq). exists x, ops. auto. Qed.

Lemma fswp_and {A} (m : fsM A) (Q R : A -> list fsop -> Prop) : fswp m Q -> fswp m R -> fswp m (fun x ops => Q x ops /\ R x ops).
Proof.
  intros H1 H2 log. destruct (H1 log) as (x & ops & E & Hq). destruct (H2 log) as (y & ops' & E' & Hr).
  rewrite E in E'. injection E' as <- E'. apply app_inv_head in E' as <-. by exists x, ops.
Qed.

Lemma fswp_perform fs op (Q : fsAnswer -> list fsop -> Prop) : (forall ans, Q ans [op]) -> fswp (perform fs op) Q.
Proof. intros H log. by exists (fs log op), [op]. Qed.

Lemma fswp_must {A} fs op (k : fsM (result A)) Q :
  (forall e, Q (Err e) [op]) -> fswp k (fun r ops => Q r (op :: ops)) -> fswp (must fs op k) Q.
Proof.
  intros He Hk. apply fswp_bind, fswp_perform. intros ans. destruct (fa_err ans) as [e|]; [by apply fswp_ret|]. exact Hk.
Qed.

Lemma fswp_run {A} (m : fsM A) Q x log : fswp m Q -> m [] = (x, log) -> Q x log.
Proof. intros H E. destruct (H []) as (y & ops & E' & Hq). rewrite E in E'. by injection E' as -> ->. Qed.

(** Works through the constructs of a program. *)
Ltac fswp_step :=
  first
    [ apply fswp_ret | apply fswp_must; [intros ?|] | apply fswp_bind | apply fswp_perform; intros ?
    | match goal with |- fswp (match ?x with _ => _ end) _ => destruct x eqn:? end ].
Ltac wps := repeat (cbv beta; fswp_step).
