(* ===== verification/ExtractTheorems.v ===== *)
(** * Extraction stays inside its root and within its budget

    Theorems about [extractZipWithBudget] for every archive and every behaviour
    of the file system. *)
From S2P Require Import Prelude GoText GoPath Archive ZipDirectory Extract ExtractFacts.

(** ** A sample archive *)

Definition byteChar (n : Z) : ascii := ascii_of_N (Z.to_N n).
Fixpoint le_bytes (n : nat) (z : Z) : string :=
  match n with O => "" | S n' => String (byteChar (z mod 256)) (le_bytes n' (z / 256)) end.
Fixpoint zeros (n : nat) : string := match n with O => "" | S n' => String (byteChar 0) (zeros n') end.

(** The central directory of [n] members without names, and its end record. *)
Fixpoint sampleDirectory (n : nat) : string :=
  match n with O => "" | S n' => le_bytes 4 zipDirectoryHeaderSignature +:+ zeros 42 +:+ sampleDirectory n' end.
Definition sampleZip (n : nat) : string :=
  sampleDirectory n +:+ le_bytes 4 zipDirectoryEndSignature +:+ zeros 4 +:+ le_bytes 2 (Z.of_nat n) +:+
  le_bytes 2 (Z.of_nat n) +:+ le_bytes 4 (46 * Z.of_nat n) +:+ zeros 6.

Definition sampleFile (name data : string) : zipFile :=
  mkFile name false false false (slen data) (Ok (mkContent data None None)).
Definition sampleArchive (files : list zipFile) : zipArchive := mkArchive (Ok (sampleZip (List.length files))) (Ok files).

Definition zipSample : zipArchive :=
  sampleArchive
    [mkFile "img/" true false false 0 (Ok (mkContent "" None None)); sampleFile "img/Dockerfile" "FROM scratch";
     sampleFile "img/metadata.json" "{}"; mkFile "img/sub/link" false true false 13 (Ok (mkContent "../Dockerfile" None None))].
Definition zipBudget : archiveBudget := mkBudget 4096 64 8.
Definition answersOk (_ : list fsop) (_ : fsop) : fsAnswer := mkAnswer None false 64.
Definition sampleLog : list fsop := snd (extractZipWithBudget answersOk zipBudget zipSample []).
Definition sampleLink : fsop := Symlink "../Dockerfile" "img/sub/link".

#[export] Instance fsop_eq_dec : EqDecision fsop.
Proof. solve_decision. Defined.

Lemma sampleLog_run : extractZipWithBudget answersOk zipBudget zipSample [] = (Ok tt, sampleLog).
Proof. vm_compute. reflexivity. Qed.

(** ** Which operations an extraction performs *)

(** The paths an operation names, relative to the stage. *)
Definition opPaths (op : fsop) : list string :=
  match op with
  | MkdirAll p | Remove p | Symlink _ p | OpenFile p | Write p _ | CloseFile p => [p]
  | _ => []
  end.

Definition memberOp (files : list zipFile) (op : fsop) : Prop :=
  match op with
  | MkdirAll p => exists f l q, f ∈ files /\ pathOf f l /\ q `prefix_of` l /\ p = show q
  | Remove p | OpenFile p | CloseFile p | Write p _ => exists f l, f ∈ files /\ pathOf f l /\ p = show l
  | Symlink t p => exists f l, f ∈ files /\ zf_symlink f = true /\ pathOf f l /\ p = show l /\ safeTarget l t
  | _ => False
  end.

(** An operation of a whole extraction. *)
Definition logOp (files : list zipFile) (op : fsop) : Prop := opPaths op = [] \/ memberOp files op.

Lemma removelast_prefix (l : list string) : removelast l `prefix_of` l.
Proof. destruct l as [|x l _] using rev_ind; [done|]. rewrite removelast_last. by exists [x]. Qed.

Section Operations.
Context (fs : list fsop -> fsop -> fsAnswer) (budget : archiveBudget).

Lemma mkdir_parent files f l : f ∈ files -> pathOf f l -> memberOp files (MkdirAll (Dir (show l))).
Proof.
  intros Hf Hl. rewrite Dir_show by (by destruct Hl as (_ & _ & ? & _)). exists f, l, (removelast l).
  split_and!; [done|done|apply removelast_prefix|done].
Qed.

Lemma extractMember_ops files f expanded :
  f ∈ files -> fswp (extractMember fs budget expanded f) (fun _ ops => Forall (memberOp files) ops).
Proof.
  intros Hf. unfold extractMember. destruct (ValidateBuildArchivePath (zf_Name f)) as [c|] eqn:Ev; [|by apply fswp_ret].
  destruct (sempty c) eqn:Ec; [by apply fswp_ret|]. destruct (pathOf_intro _ _ Ev Ec) as (l & -> & Hl).
  assert (Hd : memberOp files (MkdirAll (Dir (show l)))) by (by eapply mkdir_parent).
  assert (Hm : forall p, p = show l -> exists f l, f ∈ files /\ pathOf f l /\ p = show l) by (intros p ->; by exists f, l).
  destruct (IsDir f).
  { wps; repeat constructor; exists f, l, l; done. }
  destruct (zf_symlink f) eqn:Es.
  - unfold extractSymlink. wps; repeat constructor; try done; try (by apply Hm).
    all: exists f, l; split_and!; try done.
    all: by eapply resolveArchiveSymlinkTarget_safe; [by destruct Hl|].
  - unfold extractRegular, copyOut. wps; repeat constructor; try done; by apply Hm.
Qed.

Lemma extractMembers_ops files rest : forall expanded,
  (forall f, f ∈ rest -> f ∈ files) -> fswp (extractMembers fs budget expanded rest) (fun _ ops => Forall (memberOp files) ops).
Proof.
  induction rest as [|f rest IH]; intros expanded Hs; cbn [extractMembers]; [by apply fswp_ret|].
  apply fswp_bind. eapply fswp_mono; [apply extractMember_ops; apply Hs; left|]. intros [e|] ops Hops; [|apply fswp_ret; by rewrite app_nil_r].
  eapply fswp_mono; [apply IH; intros g Hg; apply Hs; by right|]. intros r ops' Hops'. by apply Forall_app.
Qed.

Lemma extractZip_ops a files :
  openChecked a budget = Ok files -> fswp (extractZipWithBudget fs budget a) (fun _ ops => Forall (logOp files) ops).
Proof.
  intros Ha. unfold extractZipWithBudget. rewrite Ha.
  apply fswp_must; [by repeat constructor|]. apply fswp_must; [by repeat constructor|]. apply fswp_bind. unfold extractStaged.
  apply fswp_must; [intros e; apply fswp_bind, fswp_perform; intros ans; apply fswp_ret; by repeat constructor|].
  apply fswp_bind. eapply fswp_mono; [by apply extractMembers_ops|]. intros r ops Hops.
  assert (Hl : Forall (logOp files) ops) by (eapply Forall_impl; [exact Hops|]; by right).
  wps; repeat (constructor; [by left|]); rewrite ?Forall_app; split_and?; by repeat constructor.
Qed.

End Operations.

(** ** Following links *)

(** A resolution under way: the directory reached, as elements below the stage,
    and the elements still to walk; [None] is above the stage. *)
Definition place : Type := option (list string * list string).

(** One step of resolving a path.  A name may be entered, and any link ever
    created at its place may be followed, so this covers the tree as it is at any
    moment of the extraction or after it. *)
Inductive resolve_step (log : list fsop) : place -> place -> Prop :=
| step_enter cur n r : n <> ".." -> resolve_step log (Some (cur, n :: r)) (Some (cur ++ [n], r))
| step_follow cur n r t : n <> ".." -> Symlink t (show (cur ++ [n])) ∈ log ->
    resolve_step log (Some (cur, n :: r)) (Some (cur, elements t ++ r))
| step_up cur x r : resolve_step log (Some (cur ++ [x], ".." :: r)) (Some (cur, r))
| step_above r : resolve_step log (Some ([], ".." :: r)) None.

(** At the stage itself or inside the image directory [root], and inside it once
    the resolution is complete. *)
Definition inside (root : string) (w : place) : Prop :=
  match w with
  | None => False
  | Some (cur, rest) => (cur = [] \/ List.hd_error cur = Some root) /\ (rest = [] -> List.hd_error cur = Some root)
  end.

Definition on_course (root : string) (w : place) : Prop :=
  exists cur k names, w = Some (cur, replicate k ".." ++ names) /\ Forall normal cur /\ Forall normal names /\
    k <= List.length cur /\ (cur = [] \/ List.hd_error cur = Some root) /\
    List.hd_error (take (List.length cur - k) cur ++ names) = Some root.

Lemma on_course_inside root w : on_course root w -> inside root w.
Proof.
  intros (cur & k & names & -> & _ & _ & Hk & Hc & Hh). split; [done|]. intros Hr.
  apply app_eq_nil in Hr as [Hr ->]. destruct k as [|k]; [|done]. rewrite Nat.sub_0_r, firstn_all, app_nil_r in Hh. done.
Qed.

Lemma hd_error_app {A} (l k : list A) : List.hd_error (l ++ k) = match l with [] => List.hd_error k | x :: _ => Some x end.
Proof. by destruct l. Qed.

Lemma normal_snoc l n : Forall normal l -> normal n -> Forall normal (l ++ [n]).
Proof. intros Hl Hn. apply Forall_app. split; [done|by constructor]. Qed.

Lemma on_course_enter root cur n r :
  n <> ".." -> on_course root (Some (cur, n :: r)) -> on_course root (Some (cur ++ [n], r)).
Proof.
  intros Hn (cur' & k & names & E & Hc & Hnm & Hk & Hr & Hh). injection E as <- E. destruct k as [|k]; [|by injection E as ->].
  simpl in E. subst names. inversion Hnm as [|? ? Hn' Hr']; subst. rewrite Nat.sub_0_r, firstn_all in Hh.
  exists (cur ++ [n]), 0, r. rewrite Nat.sub_0_r, firstn_all, <- app_assoc. split_and!; try done; try lia.
  - by apply normal_snoc.
  - right. rewrite hd_error_app in *. by destruct cur.
Qed.

Lemma on_course_up root cur x r : on_course root (Some (cur ++ [x], ".." :: r)) -> on_course root (Some (cur, r)).
Proof.
  intros (cur' & k & names & E & Hc & Hnm & Hk & Hr & Hh). injection E as <- E.
  destruct k as [|k]. { simpl in E. subst names. inversion Hnm as [|? ? (_ & _ & _ & H) _]. done. }
  injection E as E. rewrite length_app in *. simpl in *. apply Forall_app in Hc as [Hc _].
  exists cur, k, names. split_and!; try done; try lia; [by subst| |].
  - destruct cur as [|y cur]; [by left|right]. destruct Hr as [Hr|Hr]; done.
  - replace (List.length cur + 1 - S k) with (List.length cur - k) in Hh by lia. by rewrite take_app_le in Hh by lia.
Qed.

Lemma on_course_follow root files log cur n r t :
  Forall (logOp files) log -> n <> ".." -> Symlink t (show (cur ++ [n])) ∈ log ->
  on_course root (Some (cur, n :: r)) -> on_course root (Some (cur, elements t ++ r)).
Proof.
  intros Hlog Hn Hin (cur' & k & names & E & Hc & Hnm & Hk & Hr & Hh). injection E as <- E.
  destruct k as [|k]; [|by injection E as ->]. simpl in E. subst names. inversion Hnm as [|? ? Hn' Hr']; subst.
  rewrite Nat.sub_0_r, firstn_all in Hh. rewrite Forall_forall in Hlog. apply Hlog in Hin as [?|(f & l & _ & _ & Hl & Hs & Hsafe)]; [done|].
  assert (El : cur ++ [n] = l).
  { apply show_eq; [|by apply memberPath_form; destruct Hl|done]. by apply clean_names_form, normal_snoc. }
  subst l. destruct Hsafe as (j & rest & -> & Hrest & Hj & Hhd). rewrite removelast_last in Hj, Hhd.
  rewrite show_inj by (by exists j, rest). rewrite <- app_assoc.
  exists cur, j, (rest ++ r). split_and!; try done; [by apply Forall_app|].
  assert (Hroot : List.hd_error (cur ++ [n]) = Some root) by (rewrite hd_error_app in *; by destruct cur).
  rewrite Hroot in Hhd. rewrite app_assoc, hd_error_app. by destruct (_ ++ rest).
Qed.

Lemma on_course_step root files log w w' :
  Forall (logOp files) log -> resolve_step log w w' -> on_course root w -> on_course root w'.
Proof.
  intros Hlog [cur n r Hn | cur n r t Hn Hin | cur x r | r] Hw.
  - by apply on_course_enter.
  - by eapply on_course_follow.
  - by eapply on_course_up.
  - destruct Hw as (cur & k & names & E & _ & Hnm & Hk & _). injection E as <- E. simpl in Hk.
    replace k with 0 in E by lia. simpl in E. subst names. inversion Hnm as [|? ? (_ & _ & _ & H) _]. done.
Qed.

Lemma on_course_reach root files log w w' :
  Forall (logOp files) log -> rtc (resolve_step log) w w' -> on_course root w -> on_course root w'.
Proof. intros Hlog. induction 1 as [|? ? ? Hs _ IH]; [done|]. intros Hw. apply IH. by eapply on_course_step. Qed.

(** Every path an extraction names is a plain path of a member or a directory
    above one. *)
Lemma memberOp_path files op p :
  logOp files op -> p ∈ opPaths op -> exists f l q, f ∈ files /\ pathOf f l /\ q `prefix_of` l /\ p = show q.
Proof.
  intros [Hop|Hop] Hp; [rewrite Hop in Hp; by apply elem_of_nil in Hp|].
  destruct op; simpl in Hp; try (by apply elem_of_nil in Hp); apply list_elem_of_singleton in Hp; subst p; [done|..].
  - destruct Hop as (f & l & ? & ? & ->). by exists f, l, l.
  - destruct Hop as (f & l & ? & _ & ? & -> & _). by exists f, l, l.
  - destruct Hop as (f & l & ? & ? & ->). by exists f, l, l.
  - destruct Hop as (f & l & ? & ? & ->). by exists f, l, l.
  - destruct Hop as (f & l & ? & ? & ->). by exists f, l, l.
Qed.

(** C24: Extraction is confined.  Whatever the archive contains and however the
    file system answers, every path that [extractZipWithBudget] creates, replaces
    or opens consists of plain names below the stage, no directory above it is a
    link the extraction ever creates, and resolving it through all links the
    extraction creates, in any order, never leaves the stage and ends inside the
    image directory the path begins with. *)
Theorem extraction_confined fs budget a r log op p :
  extractZipWithBudget fs budget a [] = (r, log) -> op ∈ log -> p ∈ opPaths op ->
  exists l, p = show l /\ Forall normal l /\
    (forall q t, q `prefix_of` l -> q <> l -> Symlink t (show q) ∉ log) /\
    (forall root w, List.hd_error l = Some root -> rtc (resolve_step log) (Some ([], l)) w -> inside root w).
Proof.
  intros Hrun Hop Hp. destruct (openChecked a budget) as [files|e] eqn:Ha.
  2: { unfold extractZipWithBudget in Hrun. rewrite Ha in Hrun. injection Hrun as <- <-. by apply elem_of_nil in Hop. }
  pose proof (fswp_run _ _ _ _ (extractZip_ops fs budget a files Ha) Hrun) as Hlog. simpl in Hlog.
  pose proof (openChecked_ok _ _ _ Ha) as Hh. pose proof Hlog as Hall. rewrite Forall_forall in Hall.
  destruct (memberOp_path _ _ _ (Hall _ Hop) Hp) as (f & l & q & Hf & Hl & Hq & ->).
  assert (Hqn : Forall normal q).
  { destruct Hq as [k ->]. destruct Hl as (_ & _ & Hn & _). by apply Forall_app in Hn as [? _]. }
  exists q. split_and!; try done.
  - intros q' t Hpre Hne Hin. apply Hall in Hin as [?|(g & lg & Hg & Hsym & Hlg & Eq & _)]; [done|].
    assert (q' = lg) as ->.
    { apply show_eq; [|by apply memberPath_form; destruct Hlg|done]. apply clean_names_form.
      destruct Hpre as [k ->]. by apply Forall_app in Hqn as [? _]. }
    assert (lg = l) as -> by (eapply (ho_links _ _ Hh f g); try done; by trans q).
    apply Hne. destruct Hpre as [k1 ->], Hq as [k2 E]. rewrite <- app_assoc in E. rewrite <- (app_nil_r l) in E at 1.
    apply app_inv_head in E. symmetry in E. apply app_eq_nil in E as [-> _]. by rewrite app_nil_r.
  - intros root w Hr Hw. apply on_course_inside. eapply on_course_reach; [exact Hlog|exact Hw|].
    exists [], 0, q. split_and!; try done. by left.
Qed.

Lemma extraction_confined_witness :
  sampleLink ∈ sampleLog /\
  exists l, "img/sub/link" = show l /\ Forall normal l /\
    (forall q t, q `prefix_of` l -> q <> l -> Symlink t (show q) ∉ sampleLog) /\
    (forall root w, List.hd_error l = Some root -> rtc (resolve_step sampleLog) (Some ([], l)) w -> inside root w).
Proof.
  assert (Hin : sampleLink ∈ sampleLog) by (apply (bool_decide_unpack _); vm_compute; exact I).
  split; [exact Hin|].
  apply (extraction_confined answersOk zipBudget zipSample (Ok tt) sampleLog sampleLink "img/sub/link" sampleLog_run Hin).
  apply list_elem_of_singleton. reflexivity.
Defined.

(** ** What reaches the disk *)

Definition written (ops : list fsop) : Z :=
  foldr (fun op n => match op with Write _ d => slen d + n | _ => n end)%Z 0%Z ops.

(** The operations that give a member its content. *)
Definition isEffect (op : fsop) : bool := match op with Write _ _ | Symlink _ _ => true | _ => false end.

(** What a member is to leave in the tree: a link, or a file with the whole
    content of the member. *)
Definition memberEffect (f : zipFile) : list fsop :=
  match ValidateBuildArchivePath (zf_Name f) with
  | Ok cleaned =>
      if sempty cleaned || IsDir f then []
      else match zf_Open f with
           | Ok c =>
               if zf_symlink f then
                 match resolveArchiveSymlinkTarget cleaned (zc_bytes c) with Ok t => [Symlink t cleaned] | Err _ => [] end
               else [Write cleaned (zc_bytes c)]
           | Err _ => []
           end
  | Err _ => []
  end.

(** At most one byte more than its limit reaches a required file. *)
Definition withinLimit (op : fsop) : Prop :=
  match op with
  | Write p d => (0 < fst (requiredBuildFileLimit p) -> slen d <= fst (requiredBuildFileLimit p) + 1)%Z
  | _ => True
  end.

Lemma written_app ops ops' : written (ops ++ ops') = (written ops + written ops')%Z.
Proof. induction ops as [|op ops IH]; [done|]. simpl. destruct op; try done. rewrite IH. lia. Qed.

Lemma take_str_length n s : String.length (take_str n s) = Nat.min n (String.length s).
Proof. revert n. induction s as [|c s IH]; intros [|n]; [done..|]. simpl. f_equal. apply IH. Qed.

Lemma take_str_all n s : String.length s <= n -> take_str n s = s.
Proof. revert n. induction s as [|c s IH]; intros [|n] H; simpl in H; [done|done|lia|]. unfold take_str. simpl. f_equal. apply IH. lia. Qed.

Section Budget.
Context (fs : list fsop -> fsop -> fsAnswer) (budget : archiveBudget).

Lemma copyOut_wp p c remaining :
  (0 <= remaining)%Z ->
  fswp (copyOut fs p c remaining) (fun out ops => exists data, ops = [Write p data] /\ (slen data <= remaining + 1)%Z /\
    (snd out = None -> data = zc_bytes c /\ fst out = slen data /\ fst out <= remaining)%Z).
Proof.
  intros Hr. unfold copyOut. set (data := take_str _ _). apply fswp_bind, fswp_perform. intros ans. apply fswp_ret.
  assert (Hd : slen data = Z.min (slen (zc_bytes c)) (remaining + 1)).
  { unfold slen, data. rewrite take_str_length. pose proof (slen_nonneg (zc_bytes c)). unfold slen in *. lia. }
  exists data. split; [done|]. split; [lia|]. cbn [fst snd].
  destruct (Z.ltb_spec remaining (Z.min (Z.of_nat (fa_n ans)) (slen data))) as [|Hle]; [done|].
  destruct (fa_err ans); [done|]. destruct (Z.ltb_spec (Z.min (Z.of_nat (fa_n ans)) (slen data)) (slen data)) as [|Hfull]; [done|].
  intros _. split; [|lia]. apply take_str_all. unfold slen in *. lia.
Qed.

(** What a member adds, on success and on failure. *)
Definition member_post (expanded : Z) (f : zipFile) (r : result Z) (ops : list fsop) : Prop :=
  (written ops <= expandedBytes budget - expanded + 1)%Z /\ Forall withinLimit ops /\
  match r with
  | Ok expanded' => (expanded <= expanded' <= expandedBytes budget)%Z /\ (written ops <= expanded' - expanded)%Z /\
      List.filter isEffect ops = memberEffect f
  | Err _ => True
  end.

Lemma member_post_quiet expanded f r ops :
  (0 <= expanded <= expandedBytes budget)%Z -> Forall (fun op => isEffect op = false) ops ->
  match r with Ok e => e = expanded /\ memberEffect f = [] | Err _ => True end -> member_post expanded f r ops.
Proof.
  intros He Hq Hr. assert (Hw : written ops = 0%Z /\ List.filter isEffect ops = []).
  { induction Hq as [|op ops Hop _ [IH1 IH2]]; [done|]. simpl. rewrite Hop. by destruct op. }
  destruct Hw as [Hw Hf]. split; [lia|]. split.
  - eapply Forall_impl; [exact Hq|]. intros [] ?; done.
  - destruct r; [|done]. destruct Hr as [-> ->]. split; [lia|]. split; [lia|done].
Qed.

Lemma readLimited_spec c limit data :
  (0 < limit)%Z -> readLimited c limit = (data, None) -> (slen data < limit)%Z -> data = zc_bytes c.
Proof.
  intros Hl. unfold readLimited. destruct (Z.leb_spec limit (slen (zc_bytes c))) as [Hle|]; [|by intros [= <- _]].
  intros [= <-]. unfold slen in *. rewrite take_str_length. lia.
Qed.

Lemma extractSymlink_wp expanded f c :
  (0 <= expanded <= expandedBytes budget)%Z -> ValidateBuildArchivePath (zf_Name f) = Ok c -> sempty c = false ->
  IsDir f = false -> zf_symlink f = true -> fswp (extractSymlink fs budget expanded c f) (member_post expanded f).
Proof.
  intros He Ev Ec Ed Es. unfold extractSymlink. wps; try (apply member_post_quiet; [done|by repeat constructor|done]).
  all: match goal with H : readLimited _ ?limit = (?s, _) |- _ =>
         assert (Hs : (0 < limit)%Z /\ (slen s < limit)%Z); [unfold maxArchiveSymlinkTargetBytes in *; bool_simpl;
           destruct (Z.ltb_spec (expandedBytes budget - expanded + 1) (4 * 2 ^ 10 + 1)); lia|];
         subst; apply readLimited_spec in H as ->; [|apply Hs..] end; bool_simpl.
  all: split; [simpl; lia|]; split; [by repeat constructor|]; try done.
  all: pose proof (slen_nonneg (zc_bytes a)); split_and!; simpl; try lia.
  all: unfold memberEffect, sempty; rewrite Ev, Ed, bool_decide_eq_false_2, Es by done; cbn [orb].
  all: by repeat match goal with H : zf_Open _ = _ |- _ => rewrite H | H : resolveArchiveSymlinkTarget _ _ = _ |- _ => rewrite H end.
Qed.

Lemma extractRegular_wp expanded f c :
  (0 <= expanded <= expandedBytes budget)%Z -> ValidateBuildArchivePath (zf_Name f) = Ok c -> sempty c = false ->
  IsDir f = false -> zf_symlink f = false -> fswp (extractRegular fs budget expanded c f) (member_post expanded f).
Proof.
  intros He Ev Ec Ed Es. unfold extractRegular.
  apply fswp_must; [intros e; apply member_post_quiet; [done|by repeat constructor|done]|].
  apply fswp_must; [intros e; apply member_post_quiet; [done|by repeat constructor|done]|].
  destruct (zf_Open f) as [ct|e] eqn:Eo; [|wps; apply member_post_quiet; [done|by repeat constructor|done]].
  destruct (requiredBuildFileLimit c) as [limit tooLarge] eqn:El.
  set (remaining := if _ && _ then limit else _).
  assert (Hr : (0 <= remaining <= expandedBytes budget - expanded)%Z /\ (0 < limit -> remaining <= limit)%Z).
  { unfold remaining. destruct (Z.ltb_spec 0 limit), (Z.ltb_spec limit (expandedBytes budget - expanded)); simpl; lia. }
  destruct Hr as [Hr1 Hr2]. apply fswp_bind. eapply fswp_mono; [apply copyOut_wp; lia|].
  intros [n err] ops (data & -> & Hd & Hok). apply fswp_bind, fswp_perform. intros ans. cbn [fst snd] in *.
  assert (Hpost : forall r, match r with Ok e => err = None /\ e = (expanded + n)%Z | Err _ => True end ->
    member_post expanded f r (MkdirAll (Dir c) :: OpenFile c :: [Write c data] ++ [CloseFile c])).
  { intros r Hres. split; [simpl; lia|]. split.
    - repeat constructor. simpl. rewrite El. cbn [fst]. lia.
    - destruct r as [e|]; [|done]. destruct Hres as [-> ->]. destruct (Hok eq_refl) as (-> & -> & Hle).
      pose proof (slen_nonneg (zc_bytes ct)). split_and!; simpl; try lia.
      unfold memberEffect. by rewrite Ev, Ed, Ec, Eo, Es. }
  wps; by apply Hpost.
Qed.

Lemma extractMember_wp expanded f :
  (0 <= expanded <= expandedBytes budget)%Z -> fswp (extractMember fs budget expanded f) (member_post expanded f).
Proof.
  intros He. unfold extractMember. destruct (ValidateBuildArchivePath (zf_Name f)) as [c|] eqn:Ev.
  2: { apply fswp_ret, member_post_quiet; done. }
  destruct (sempty c) eqn:Ec.
  { apply fswp_ret, member_post_quiet; try done. split; [done|]. unfold memberEffect. by rewrite Ev, Ec. }
  destruct (IsDir f) eqn:Ed.
  { wps; apply member_post_quiet; try done; try (by repeat constructor). split; [done|]. unfold memberEffect. by rewrite Ev, Ed, orb_true_r. }
  destruct (zf_symlink f) eqn:Es; [by apply extractSymlink_wp|by apply extractRegular_wp].
Qed.

Definition members_post (expanded : Z) (files : list zipFile) (r : result Z) (ops : list fsop) : Prop :=
  (written ops <= expandedBytes budget - expanded + 1)%Z /\ Forall withinLimit ops /\
  match r with
  | Ok expanded' => (expanded <= expanded' <= expandedBytes budget)%Z /\ (written ops <= expanded' - expanded)%Z /\
      List.filter isEffect ops = flat_map memberEffect files
  | Err _ => True
  end.

Lemma extractMembers_wp files : forall expanded,
  (0 <= expanded <= expandedBytes budget)%Z -> fswp (extractMembers fs budget expanded files) (members_post expanded files).
Proof.
  induction files as [|f files IH]; intros expanded He; cbn [extractMembers].
  { apply fswp_ret. split; [simpl; lia|]. split; [done|]. split_and!; simpl; try lia. done. }
  apply fswp_bind. eapply fswp_mono; [by apply extractMember_wp|]. intros [e|err] ops (Hw & Hl & Hr).
  2: { apply fswp_ret. rewrite app_nil_r. by split_and!. }
  destruct Hr as (He' & Hw' & Hf). eapply fswp_mono; [apply IH; lia|]. intros r ops' (Hw2 & Hl2 & Hr2).
  split; [rewrite written_app; lia|]. split; [by apply Forall_app|]. destruct r as [e2|]; [|done].
  destruct Hr2 as (He2 & Hw3 & Hf2). split; [lia|]. split; [rewrite written_app; lia|].
  rewrite List.filter_app, Hf, Hf2. done.
Qed.

(** The whole extraction: [Rename] comes once, after every member. *)
Definition zip_post (files : list zipFile) (r : result unit) (log : list fsop) : Prop :=
  (written log <= expandedBytes budget + 1)%Z /\ Forall withinLimit log /\
  (is_ok r = true -> Rename ∈ log) /\
  (Rename ∈ log -> (written log <= expandedBytes budget)%Z /\
    exists pre, log = pre ++ [Rename; RemoveAllStage] /\ Rename ∉ pre /\ List.filter isEffect pre = flat_map memberEffect files).

Lemma zip_post_early files e log :
  Forall (fun op => isEffect op = false /\ op <> Rename) log -> (0 <= expandedBytes budget)%Z -> zip_post files (Err e) log.
Proof.
  intros Hl Hb. assert (Hw : written log = 0%Z).
  { induction Hl as [|op log [Hop _] _ IH]; [done|]. by destruct op. }
  split; [lia|]. split; [eapply Forall_impl; [exact Hl|]; by intros [] [? _]|]. split; [done|].
  intros Hin. rewrite Forall_forall in Hl. by destruct (Hl _ Hin).
Qed.

Lemma memberOp_no_rename files ops : Forall (memberOp files) ops -> Rename ∉ ops.
Proof. intros Hops Hin. rewrite Forall_forall in Hops. by destruct (Hops _ Hin). Qed.

Lemma extractZip_wp a files :
  (0 <= expandedBytes budget)%Z -> openChecked a budget = Ok files ->
  fswp (extractZipWithBudget fs budget a) (zip_post files).
Proof.
  intros Hb Ha. unfold extractZipWithBudget. rewrite Ha.
  apply fswp_must; [intros e; apply zip_post_early; [by repeat constructor|done]|].
  apply fswp_must; [intros e; apply zip_post_early; [by repeat constructor|done]|].
  apply fswp_bind. unfold extractStaged.
  apply fswp_must; [intros e; apply fswp_bind, fswp_perform; intros _; apply fswp_ret, zip_post_early; [by repeat constructor|done]|].
  apply fswp_bind. eapply fswp_mono; [apply fswp_and; [apply (extractMembers_wp files 0); lia|by apply (extractMembers_ops _ _ files)]|].
  intros r ops [(Hw & Hl & Hr) Hops]. apply memberOp_no_rename in Hops. destruct r as [e|e].
  - destruct Hr as (He & Hw' & Hf).
    assert (Hpost : forall r, zip_post files r (MkdirAllParent :: MkdirTemp :: (OpenRoot :: ops ++ [Rename]) ++ [RemoveAllStage])).
    { intros r. split; [cbn; rewrite !written_app; cbn; lia|]. split; [repeat (constructor; [done|]); rewrite !Forall_app; split_and!; by repeat constructor|].
      assert (Hin : Rename ∈ MkdirAllParent :: MkdirTemp :: (OpenRoot :: ops ++ [Rename]) ++ [RemoveAllStage]) by set_solver.
      split; [done|]. intros _. split; [cbn; rewrite !written_app; cbn; lia|].
      exists (MkdirAllParent :: MkdirTemp :: OpenRoot :: ops). split; [cbn; by rewrite <- app_assoc|].
      split; [set_solver|done]. }
    apply fswp_must; [intros err|]; wps; apply Hpost.
  - wps. split; [cbn; rewrite !written_app; cbn; lia|]. split; [repeat (constructor; [done|]); rewrite !Forall_app; split_and!; by repeat constructor|].
    split; [done|]. intros Hin. exfalso. set_solver.
Qed.

End Budget.

(** C29: Extraction is bounded.  However the members decompress, at most one byte
    more than the expanded-size budget is ever written to the stage, at most one
    byte more than 1 MiB to any Dockerfile or metadata.json, and a stage that is
    moved to the destination holds at most the budget. *)
Theorem extraction_within_budget fs budget a r log :
  (0 <= expandedBytes budget)%Z -> extractZipWithBudget fs budget a [] = (r, log) ->
  (written log <= expandedBytes budget + 1)%Z /\ Forall withinLimit log /\
  (Rename ∈ log -> (written log <= expandedBytes budget)%Z).
Proof.
  intros Hb Hrun. destruct (openChecked a budget) as [files|e] eqn:Ha.
  - destruct (fswp_run _ _ _ _ (extractZip_wp fs budget a files Hb Ha) Hrun) as (Hw & Hl & _ & Hr). split_and!; [done|done|].
    intros Hin. by apply Hr.
  - unfold extractZipWithBudget in Hrun. rewrite Ha in Hrun. injection Hrun as <- <-. split_and!; [simpl; lia|done|simpl; lia].
Qed.

(** C25: Extraction is complete or invisible.  The stage is moved to the
    destination only as the last step, after the links and the whole contents of
    all members, in their order, have been written to it and nothing else has;
    and a successful extraction has moved it. *)
Theorem extraction_all_or_nothing fs budget a r log :
  (0 <= expandedBytes budget)%Z -> extractZipWithBudget fs budget a [] = (r, log) ->
  (is_ok r = true -> Rename ∈ log) /\
  (Rename ∈ log -> exists files pre, openChecked a budget = Ok files /\ log = pre ++ [Rename; RemoveAllStage] /\
     Rename ∉ pre /\ List.filter isEffect pre = flat_map memberEffect files).
Proof.
  intros Hb Hrun. destruct (openChecked a budget) as [files|e] eqn:Ha.
  - destruct (fswp_run _ _ _ _ (extractZip_wp fs budget a files Hb Ha) Hrun) as (_ & _ & Hok & Hr). split; [done|].
    intros Hin. destruct (Hr Hin) as (_ & pre & ? & ? & ?). by exists files, pre.
  - unfold extractZipWithBudget in Hrun. rewrite Ha in Hrun. injection Hrun as <- <-. split; [done|]. by intros ?%elem_of_nil.
Qed.

Lemma extraction_within_budget_witness :
  (0 <= expandedBytes zipBudget)%Z /\ written sampleLog = 14%Z /\
  (written sampleLog <= expandedBytes zipBudget + 1)%Z /\ Forall withinLimit sampleLog /\
  (Rename ∈ sampleLog -> (written sampleLog <= expandedBytes zipBudget)%Z).
Proof.
  split; [by vm_compute|]. split; [vm_compute; reflexivity|].
  apply (extraction_within_budget answersOk zipBudget zipSample (Ok tt) sampleLog); [by vm_compute|exact sampleLog_run].
Defined.

Lemma extraction_all_or_nothing_witness :
  (0 <= expandedBytes zipBudget)%Z /\ Rename ∈ sampleLog /\
  exists files pre, openChecked zipSample zipBudget = Ok files /\ sampleLog = pre ++ [Rename; RemoveAllStage] /\
    Rename ∉ pre /\ List.filter isEffect pre = flat_map memberEffect files.
Proof.
  destruct (extraction_all_or_nothing answersOk zipBudget zipSample (Ok tt) sampleLog) as [Hok Hr];
    [by vm_compute|exact sampleLog_run|].
  split; [by vm_compute|]. split; [by apply Hok|]. by apply Hr, Hok.
Defined.
