(* ===== verification/ValidateTheorems.v ===== *)
(** * Validation decides the archive format

    [validateBuildArchiveWithBudget] accepts the archives of the documented source
    contract ([archiveOk], with both required files in every image directory), and no
    others but those with a member below the path of a required file.  The first part is about [checkZipEntryCount], which it starts with. *)
From S2P Require Import Prelude GoText GoPath Archive ZipDirectory Extract ExtractFacts ExtractTheorems.

(** * The entry count is exact

    [checkZipEntryCount] accepts a file exactly when its central directory is a
    sequence of well-formed records, as many as declared and no more than
    allowed; its walk always ends within one round per allowed member. *)

(** ** Taking strings apart *)

Lemma take_drop_str n s : take_str n s +:+ str_drop n s = s.
Proof.
  revert s. induction n as [|n IH]; intros [|c s]; try done. unfold take_str in *. cbn [String.substring str_drop].
  rewrite append_cons. f_equal. apply IH.
Qed.

Lemma take_str_app n a b : n <= String.length a -> take_str n (a +:+ b) = take_str n a.
Proof.
  revert a. induction n as [|n IH]; intros [|c a] H; simpl in H; try lia; try done.
  { by destruct b. }
  rewrite append_cons. unfold take_str in *. simpl. f_equal. apply IH. lia.
Qed.

Lemma slen_take n s : (0 <= n <= slen s)%Z -> slen (take_str (Z.to_nat n) s) = n.
Proof. unfold slen. intros H. rewrite take_str_length. lia. Qed.

Lemma slen_drop n s : (0 <= n <= slen s)%Z -> slen (str_drop (Z.to_nat n) s) = (slen s - n)%Z.
Proof. unfold slen. intros H. rewrite str_drop_length. lia. Qed.

Lemma le_nonneg n s : (0 <= le n s)%Z.
Proof.
  revert s. induction n as [|n IH]; intros [|c s]; simpl; try lia. specialize (IH s). lia.
Qed.

(** ** Where the directory is *)

Lemma find_end_range tail k off : find_end tail k = Some off -> (0 <= off <= Z.of_nat k)%Z.
Proof.
  induction k as [|k IH]; cbn [find_end]; destruct (_ && _); intros H; try done; try (injection H as <-; lia).
  specialize (IH H). lia.
Qed.

Lemma ReadAt_ok s off n out : ReadAt s off n = Ok out -> (0 <= off /\ off + n <= slen s)%Z /\ out = take_str (Z.to_nat n) (str_drop (Z.to_nat off) s).
Proof.
  unfold ReadAt. destruct (Z.ltb_spec off 0), (Z.ltb_spec (slen s) (off + n)); simpl; try done. by intros [= <-].
Qed.

Lemma findDirectory_range file d :
  findDirectory file = Ok d -> (0 <= dir_end d <= slen file)%Z /\ (0 <= dir_size d)%Z /\ (0 <= dir_count d)%Z.
Proof.
  unfold findDirectory. destruct (ReadAt file _ _) as [tail|] eqn:Er; [|done]. apply ReadAt_ok in Er as [Hr ->].
  set (tailSize := Z.min _ _) in *. pose proof (slen_nonneg file).
  assert (Ht : slen (take_str (Z.to_nat tailSize) (str_drop (Z.to_nat (slen file - tailSize)) file)) = tailSize).
  { apply slen_take. rewrite slen_drop; lia. }
  set (tail := take_str _ _) in *. unfold find_end_record. destruct (Z.ltb_spec (slen tail) 22) as [|Hl]; [done|].
  destruct (find_end tail _) as [off|] eqn:Ef; [|done]. apply find_end_range in Ef. rewrite Z2Nat.id in Ef by lia.
  destruct (_ || _).
  - unfold zip64Directory. destruct (Z.ltb_spec (slen file - tailSize + off) 20); [done|].
    destruct (ReadAt file _ 20) as [locator|]; [|done]. destruct (negb _); [done|].
    destruct (Z.ltb_spec (slen file) 56) as [|H56]; [done|].
    destruct (Z.ltb_spec (slen file - 56) (Uint64 locator 8)) as [|H64]; [done|]. cbn [orb].
    destruct (ReadAt file _ 56) as [e|]; [|done]. destruct (negb _); [done|]. intros [= <-]. cbn [dir_end dir_size dir_count].
    pose proof (le_nonneg 8 (str_drop (Z.to_nat 8) locator)). unfold Uint64, field in *.
    split_and!; try lia; apply le_nonneg.
  - intros [= <-]. cbn [dir_end dir_size dir_count]. split_and!; try lia; apply le_nonneg.
Qed.

(** ** Records *)

(** A central directory record: a header with the signature, and as many bytes
    as it says. *)
Definition zipRecord (r : string) : Prop :=
  (46 <= slen r)%Z /\ Uint32 (take_str 46 r) 0 = zipDirectoryHeaderSignature /\ entryBytes (take_str 46 r) = slen r.

Definition concat_str (rs : list string) : string := foldr String.append "" rs.

Lemma entryBytes_min h : (46 <= entryBytes h)%Z.
Proof.
  unfold entryBytes, Uint16, field. pose proof (le_nonneg 2 (str_drop (Z.to_nat 28) h)).
  pose proof (le_nonneg 2 (str_drop (Z.to_nat 30) h)). pose proof (le_nonneg 2 (str_drop (Z.to_nat 32) h)). lia.
Qed.

(** [s] begins with a record; what follows it. *)
Definition splits (s r rest : string) : Prop := s = r +:+ rest /\ zipRecord r.

Lemma splits_header s r rest : splits s r rest -> take_str 46 s = take_str 46 r.
Proof. intros [-> [Hl _]]. apply take_str_app. unfold slen in Hl. lia. Qed.

Lemma splits_intro s :
  (46 <= slen s)%Z -> Uint32 (take_str 46 s) 0 = zipDirectoryHeaderSignature -> (entryBytes (take_str 46 s) <= slen s)%Z ->
  let n := Z.to_nat (entryBytes (take_str 46 s)) in splits s (take_str n s) (str_drop n s).
Proof.
  intros Hl Hsig He n. split; [by rewrite take_drop_str|]. pose proof (entryBytes_min (take_str 46 s)) as Hmin.
  assert (Hn : slen (take_str n s) = entryBytes (take_str 46 s)) by (apply slen_take; lia).
  assert (Hh : take_str 46 (take_str n s) = take_str 46 s).
  { rewrite <- (take_drop_str n s) at 2. symmetry. apply take_str_app. unfold slen in *. lia. }
  split; [lia|]. by rewrite Hh.
Qed.

Lemma splits_fun s r rest :
  splits s r rest -> let n := Z.to_nat (entryBytes (take_str 46 s)) in take_str n s = r /\ str_drop n s = rest.
Proof.
  intros H n. pose proof (splits_header _ _ _ H) as Hh. destruct H as [-> (Hl & _ & He)]. subst n. rewrite Hh, He.
  replace (Z.to_nat (slen r)) with (String.length r) by (unfold slen; lia). split; [|apply str_drop_append].
  rewrite take_str_app by done. by apply take_str_all.
Qed.

Definition records (s : string) (rs : list string) : Prop := s = concat_str rs /\ Forall zipRecord rs.

Lemma records_cons s r rest rs : splits s r rest -> records rest rs -> records s (r :: rs).
Proof. intros [-> Hr] [-> Hrs]. split; [done|by constructor]. Qed.

Lemma records_inv s rs : records s rs -> s <> "" -> exists r rest rs', rs = r :: rs' /\ splits s r rest /\ records rest rs'.
Proof.
  intros [-> Hrs] Hs. destruct Hrs as [|r rs Hr Hrs]; [done|]. by exists r, (concat_str rs), rs.
Qed.

Lemma records_empty rs : records "" rs -> rs = [].
Proof.
  intros [E Hrs]. destruct Hrs as [|r rs [Hl _] _]; [done|]. exfalso.
  assert (H : slen (r +:+ concat_str rs) = 0%Z) by (change (r +:+ concat_str rs) with (concat_str (r :: rs)); by rewrite <- E).
  rewrite slen_append in H. pose proof (slen_nonneg (concat_str rs)). lia.
Qed.

(** ** The walk *)

Lemma ReadAt_suffix pre s :
  ReadAt (pre +:+ s) (slen pre) 46 = if (slen s <? 46)%Z then Err ioEOF else Ok (take_str 46 s).
Proof.
  unfold ReadAt. rewrite slen_append. pose proof (slen_nonneg pre).
  destruct (Z.ltb_spec (slen pre) 0); [lia|]. cbn [orb].
  destruct (Z.ltb_spec (slen s) 46), (Z.ltb_spec (slen pre + slen s) (slen pre + 46)); try lia; try done.
  f_equal. replace (Z.to_nat (slen pre)) with (String.length pre) by (unfold slen; lia). by rewrite str_drop_append.
Qed.

(** With a round left for every member still allowed, the walk over the rest [s]
    of the directory ends, and it succeeds exactly on sequences of records. *)
Definition walk_post (s : string) (maxEntries found : Z) (out : option (result Z)) : Prop :=
  out <> None /\ forall n, out = Some (Ok n) <->
    exists rs, records s rs /\ n = (found + Z.of_nat (List.length rs))%Z /\ (n <= maxEntries)%Z.

Lemma walk_post_err s maxEntries found e :
  (forall rs, records s rs -> (found + Z.of_nat (List.length rs) <= maxEntries)%Z -> False) -> walk_post s maxEntries found (Some (Err e)).
Proof. intros H. split; [done|]. intros n. split; [done|]. intros (rs & Hrs & -> & Hn). by destruct (H rs). Qed.

Lemma walkDirectory_enough maxEntries fuel : forall pre s found,
  (0 <= found <= maxEntries)%Z -> (maxEntries - found < Z.of_nat fuel)%Z ->
  walk_post s maxEntries found (walkDirectory fuel (pre +:+ s) (slen (pre +:+ s)) maxEntries (slen pre) found).
Proof.
  induction fuel as [|fuel IH]; intros pre s found Hf Hfuel; [lia|]. cbn [walkDirectory]. rewrite slen_append at 1.
  destruct (Z.ltb_spec (slen pre) (slen pre + slen s)) as [Hs|Hs].
  2: { assert (s = "") as -> by (destruct s; [done|unfold slen in Hs; simpl in Hs; lia]). split; [done|]. intros n. split.
       - intros [= <-]. exists []. split_and!; simpl; try lia. done.
       - intros (rs & ->%records_empty & -> & _). simpl. do 2 f_equal. lia. }
  assert (Hne : s <> "") by (intros ->; unfold slen in Hs; simpl in Hs; lia).
  rewrite ReadAt_suffix, slen_append. destruct (Z.ltb_spec (slen s) 46) as [H46|H46].
  { apply walk_post_err. intros rs Hrs _. destruct (records_inv _ _ Hrs Hne) as (r & rest & rs' & _ & [-> (Hl & _)] & _).
    rewrite slen_append in H46. pose proof (slen_nonneg rest). lia. }
  destruct (Z.eqb_spec (Uint32 (take_str 46 s) 0) zipDirectoryHeaderSignature) as [Hsig|Hsig]; cbn [negb].
  2: { apply walk_post_err. intros rs Hrs _. destruct (records_inv _ _ Hrs Hne) as (r & rest & rs' & _ & Hsp & _).
       rewrite (splits_header _ _ _ Hsp) in Hsig. by destruct Hsp as [_ (_ & ? & _)]. }
  destruct (Z.ltb_spec (slen pre + slen s - slen pre) (entryBytes (take_str 46 s))) as [He|He].
  { apply walk_post_err. intros rs Hrs _. destruct (records_inv _ _ Hrs Hne) as (r & rest & rs' & _ & Hsp & _).
    rewrite (splits_header _ _ _ Hsp) in He. destruct Hsp as [-> (_ & _ & Hr)]. rewrite slen_append in He.
    pose proof (slen_nonneg rest). lia. }
  destruct (Z.ltb_spec maxEntries (found + 1)) as [Hm|Hm].
  { apply walk_post_err. intros rs Hrs Hn. destruct (records_inv _ _ Hrs Hne) as (r & rest & rs' & -> & _). simpl in Hn. lia. }
  pose proof (splits_intro s H46 Hsig ltac:(lia)) as Hsp. cbv zeta in Hsp. set (n := Z.to_nat (entryBytes (take_str 46 s))) in *.
  pose proof (entryBytes_min (take_str 46 s)) as Hmin.
  assert (Hoff : (slen pre + entryBytes (take_str 46 s))%Z = slen (pre +:+ take_str n s)).
  { rewrite slen_append. unfold n. rewrite slen_take; lia. }
  rewrite Hoff, <- slen_append. replace (pre +:+ s) with ((pre +:+ take_str n s) +:+ str_drop n s)
    by (by rewrite append_assoc, take_drop_str).
  destruct (IH (pre +:+ take_str n s) (str_drop n s) (found + 1)%Z ltac:(lia) ltac:(lia)) as [Hnn Hiff].
  split; [done|]. intros m. rewrite Hiff. split.
  - intros (rs & Hrs & -> & Hm'). exists (take_str n s :: rs). split_and!; [by eapply records_cons|simpl; lia|done].
  - intros (rs & Hrs & -> & Hm'). destruct (records_inv _ _ Hrs Hne) as (r & rest & rs' & -> & Hsp' & Hrs').
    destruct (splits_fun _ _ _ Hsp') as [_ <-]. exists rs'. split_and!; [done|simpl; lia|done].
Qed.

(** The bytes of the central directory. *)
Definition directoryBytes (file : string) (d : directory) : string :=
  take_str (Z.to_nat (dir_size d)) (str_drop (Z.to_nat (dir_end d - dir_size d)) file).

(** C31: The entry count is exact and its walk terminates.  On every file the walk
    ends within one round per allowed member plus one, and [checkZipEntryCount]
    accepts exactly the files whose central directory splits into well-formed
    records, as many as the end record declares and at most [maxEntries]. *)
Theorem zip_entry_count_exact file maxEntries :
  (forall d, findDirectory file = Ok d -> (dir_size d <= dir_end d)%Z -> (dir_count d <= maxEntries)%Z ->
     walkDirectory (S (Z.to_nat maxEntries)) (directoryBytes file d) (dir_size d) maxEntries 0 0 <> None) /\
  (checkZipEntryCount (Ok file) maxEntries = None <->
   exists d rs, findDirectory file = Ok d /\ (dir_size d <= dir_end d)%Z /\ records (directoryBytes file d) rs /\
     Z.of_nat (List.length rs) = dir_count d /\ (dir_count d <= maxEntries)%Z).
Proof.
  assert (Hwalk : forall d, findDirectory file = Ok d -> (dir_size d <= dir_end d)%Z -> (dir_count d <= maxEntries)%Z ->
    walk_post (directoryBytes file d) maxEntries 0
      (walkDirectory (S (Z.to_nat maxEntries)) (directoryBytes file d) (dir_size d) maxEntries 0 0)).
  { intros d Ed Hsz Hc. pose proof (findDirectory_range _ _ Ed) as (He & Hs & Hcount).
    assert (Hlen : slen (directoryBytes file d) = dir_size d) by (apply slen_take; rewrite slen_drop; lia).
    rewrite <- Hlen. apply (walkDirectory_enough maxEntries _ ""); lia. }
  split; [intros d Ed Hs Hc; by apply Hwalk|]. unfold checkZipEntryCount.
  destruct (findDirectory file) as [d|e] eqn:Ed; [|split; [done|by intros (d & rs & ? & _)]].
  destruct (Z.ltb_spec maxEntries (dir_count d)); [split; [done|intros (d' & rs & [= <-] & ?); lia]|].
  destruct (Z.ltb_spec (dir_end d) (dir_size d)); [split; [done|intros (d' & rs & [= <-] & ?); lia]|].
  destruct (Hwalk d eq_refl ltac:(lia) ltac:(lia)) as [Hnn Hiff]. fold (directoryBytes file d).
  destruct (walkDirectory _ _ _ _ _ _) as [[n|e]|] eqn:Ew; [..|done].
  - destruct (Z.eqb_spec n (dir_count d)) as [->|Hne]; cbn [negb].
    + destruct (proj1 (Hiff _) eq_refl) as (rs & Hrs & Hn & _). split; [intros _; exists d, rs; split_and!; try done; lia|done].
    + split; [done|]. intros (d' & rs & [= <-] & _ & Hrs & Hn & Hm).
      assert (Some (Ok n) = Some (Ok (dir_count d))) as [= ?]; [|done]. apply Hiff. exists rs. split_and!; [done|lia..].
  - split; [done|]. intros (d' & rs & [= <-] & _ & Hrs & Hn & Hm).
    assert (Some (Err e) = Some (Ok (dir_count d))); [|done]. apply Hiff. exists rs. split_and!; [done|lia..].
Qed.

Lemma zip_entry_count_exact_witness :
  checkZipEntryCount (Ok (sampleZip 2)) 2 = None /\
  exists d rs, findDirectory (sampleZip 2) = Ok d /\ (dir_size d <= dir_end d)%Z /\ records (directoryBytes (sampleZip 2) d) rs /\
     Z.of_nat (List.length rs) = dir_count d /\ (dir_count d <= 2)%Z.
Proof.
  assert (H : checkZipEntryCount (Ok (sampleZip 2)) 2 = None) by (vm_compute; reflexivity).
  split; [exact H|]. by apply (zip_entry_count_exact (sampleZip 2) 2).
Defined.

(** ** Layout *)

















Lemma topLevelStep_err e files : foldl topLevelStep (Err e) files = Err e.
Proof. by induction files. Qed.


(** ** Contents *)










(** ** The decision *)







(** ** The header checks, both ways *)




(** ** The documented source contract *)












(** A Dockerfile entry that is only a directory in the path of another member is
    not looked at by the header checks, which know the members alone, so an image
    directory without a Dockerfile file is accepted. *)
Definition zipImplied : zipArchive :=
  sampleArchive [sampleFile "img/Dockerfile/notes" "x"; sampleFile "img/metadata.json" "{}"].

Example dockerfile_directory_accepted :
  ValidateBuildArchive zipImplied = Ok 1%Z /\
  match za_OpenReader zipImplied with
  | Ok files => forallb (fun f => negb (seqb (zf_Name f) "img/Dockerfile")) files
  | Err _ => false
  end = true.
Proof. split; vm_compute; reflexivity. Qed.
