(* ===== verification/GoTime.v ===== *)
(** * Go's [time.Parse] and [encoding/base64] as the recovery permit uses them

    [time.Parse(time.RFC3339Nano, s)] element by element, with the leniencies of
    the standard library: a one-digit hour, a comma before the fraction, offsets
    of up to 24 hours and 60 minutes.  A time is its instant in nanoseconds since
    1970-01-01 UTC.  Base64 is the standard alphabet with padding. *)
From S2P Require Import Prelude GoText.

Definition digitVal (c : ascii) : option Z := if is_digit c then Some (Z.of_N (byte_of c) - 48)%Z else None.

(** [getnum]: one or two digits; two when [fixed]. *)
Definition getnum (s : string) (fixed : bool) : option (Z * string) :=
  match s with
  | String a r =>
      match digitVal a with
      | None => None
      | Some x =>
          match r with
          | String b r' =>
              match digitVal b with
              | Some y => Some ((10 * x + y)%Z, r')
              | None => if fixed then None else Some (x, r)
              end
          | EmptyString => if fixed then None else Some (x, r)
          end
      end
  | EmptyString => None
  end.

Definition skipChar (c : ascii) (s : string) : option string :=
  match s with String d r => if bool_decide (c = d) then Some r else None | EmptyString => None end.

(** A number in [lo, hi], then the rest. *)
Definition ranged (lo hi : Z) (o : option (Z * string)) : option (Z * string) :=
  match o with Some (n, r) => if ((lo <=? n) && (n <=? hi))%Z then Some (n, r) else None | None => None end.

Definition parseYear (s : string) : option (Z * string) :=
  match s with
  | String a (String b (String c (String d r))) =>
      match digitVal a, digitVal b, digitVal c, digitVal d with
      | Some w, Some x, Some y, Some z => Some ((1000 * w + 100 * x + 10 * y + z)%Z, r)
      | _, _, _, _ => None
      end
  | _ => None
  end.

(** The digits after the point, at most nine of which count. *)
Fixpoint fraction (n : nat) (scale acc : Z) (s : string) : Z * string :=
  match s with
  | String c r =>
      match digitVal c with
      | Some d => match n with
                  | O => fraction O scale acc r
                  | S n' => fraction n' (scale / 10)%Z (acc + d * (scale / 10))%Z r
                  end
      | None => (acc, s)
      end
  | EmptyString => (acc, s)
  end.
Definition parseFraction (s : string) : Z * string :=
  match s with
  | String p (String c r) =>
      if (bool_decide (p = "."%char) || bool_decide (p = ","%char)) && is_digit c then fraction 9 1000000000 0 (String c r)
      else (0%Z, s)
  | _ => (0%Z, s)
  end.

(** The offset in seconds east of UTC, at the end of the text. *)
Definition parseZone (s : string) : option Z :=
  match s with
  | String "Z" "" => Some 0%Z
  | String sign (String a (String b (String colon (String c (String d ""))))) =>
      if negb (bool_decide (colon = ":"%char)) then None
      else match ranged 0 24 (getnum (String a (String b "")) true), ranged 0 60 (getnum (String c (String d "")) true) with
      | Some (hr, _), Some (mm, _) =>
          if bool_decide (sign = "+"%char) then Some ((hr * 60 + mm) * 60)%Z
          else if bool_decide (sign = "-"%char) then Some (- ((hr * 60 + mm) * 60))%Z
          else None
      | _, _ => None
      end
  | _ => None
  end.

Definition isLeap (y : Z) : bool := ((y mod 4 =? 0) && (negb (y mod 100 =? 0) || (y mod 400 =? 0)))%Z.
Definition monthDays : list Z := [31; 28; 31; 30; 31; 30; 31; 31; 30; 31; 30; 31]%Z.
Definition daysIn (m y : Z) : Z :=
  if (m =? 2)%Z && isLeap y then 29%Z else nth (Z.to_nat (m - 1)) monthDays 0%Z.
Definition daysBefore (y : Z) : Z := (365 * (y - 1) + (y - 1) / 4 - (y - 1) / 100 + (y - 1) / 400)%Z.
Definition dayNumber (y m d : Z) : Z :=
  (daysBefore y + foldr Z.add 0 ((fun i => daysIn (Z.of_nat i + 1) y) <$> seq 0 (Z.to_nat (m - 1))) + (d - 1) - daysBefore 1970)%Z.

Definition ParseRFC3339Nano (s : string) : option Z :=
  year ← parseYear s; s ← skipChar "-" year.2;
  month ← ranged 1 12 (getnum s true); s ← skipChar "-" month.2;
  day ← getnum s true; s ← skipChar "T" day.2;
  hour ← ranged 0 23 (getnum s false); s ← skipChar ":" hour.2;
  minute ← ranged 0 59 (getnum s true); s ← skipChar ":" minute.2;
  second ← ranged 0 59 (getnum s true);
  let '(nsec, rest) := parseFraction second.2 in
  offset ← parseZone rest;
  if (day.1 <? 1)%Z || (daysIn month.1 year.1 <? day.1)%Z then None
  else Some (((dayNumber year.1 month.1 day.1 * 86400 + hour.1 * 3600 + minute.1 * 60 + second.1 - offset) * 1000000000 + nsec)%Z).

Example parse_times :
  ParseRFC3339Nano "1970-01-01T00:00:00Z" = Some 0%Z /\
  ParseRFC3339Nano "2024-02-29T12:30:45.25+01:00" = Some 1709206245250000000%Z /\
  ParseRFC3339Nano "2023-02-29T00:00:00Z" = None /\ ParseRFC3339Nano "2023-02-28T00:00:00" = None /\
  ParseRFC3339Nano "2023-02-28T1:00:00,5Z" = Some 1677546000500000000%Z.
Proof. split_and!; reflexivity. Qed.

(** ** Base64 *)

Definition b64_alphabet : string := "ABCDEFGHIJKLMNOPQRSTUVWXYZabcdefghijklmnopqrstuvwxyz0123456789+/".
Definition b64_char (n : N) : ascii := match String.get (N.to_nat n) b64_alphabet with Some c => c | None => "="%char end.

(** [base64.StdEncoding.EncodeToString]. *)
Fixpoint b64_encode (s : string) : string :=
  match s with
  | EmptyString => EmptyString
  | String a EmptyString =>
      let x := byte_of a in
      String (b64_char (N.shiftr x 2)) (String (b64_char (N.shiftl (N.land x 3) 4)) "==")
  | String a (String b EmptyString) =>
      let x := byte_of a in let y := byte_of b in
      String (b64_char (N.shiftr x 2)) (String (b64_char (N.lor (N.shiftl (N.land x 3) 4) (N.shiftr y 4)))
        (String (b64_char (N.shiftl (N.land y 15) 2)) "="))
  | String a (String b (String c r)) =>
      let x := byte_of a in let y := byte_of b in let z := byte_of c in
      String (b64_char (N.shiftr x 2)) (String (b64_char (N.lor (N.shiftl (N.land x 3) 4) (N.shiftr y 4)))
        (String (b64_char (N.lor (N.shiftl (N.land y 15) 2) (N.shiftr z 6))) (String (b64_char (N.land z 63)) (b64_encode r))))
  end.

Fixpoint b64_index (k : N) (alphabet : string) (c : ascii) : option N :=
  match alphabet with
  | EmptyString => None
  | String d r => if bool_decide (c = d) then Some k else b64_index (k + 1) r c
  end.
Definition b64_val (c : ascii) : option N := b64_index 0 b64_alphabet c.

(** [base64.StdEncoding.DecodeString] on text without line breaks; the caller
    compares the re-encoded bytes with the text, which rejects all other text. *)
Fixpoint b64_decode (s : string) : option string :=
  match s with
  | EmptyString => Some EmptyString
  | String a (String b (String c (String d r))) =>
      match b64_val a, b64_val b with
      | Some w, Some x =>
          let first := ascii_of_N (N.lor (N.shiftl w 2) (N.shiftr x 4)) in
          if bool_decide (d = "="%char) then
            match r with
            | EmptyString =>
                if bool_decide (c = "="%char) then Some (String first "")
                else match b64_val c with
                     | Some y => Some (String first (String (ascii_of_N (N.lor (N.shiftl (N.land x 15) 4) (N.shiftr y 2))) ""))
                     | None => None
                     end
            | _ => None
            end
          else match b64_val c, b64_val d with
          | Some y, Some z =>
              match b64_decode r with
              | Some t => Some (String first (String (ascii_of_N (N.lor (N.shiftl (N.land x 15) 4) (N.shiftr y 2)))
                            (String (ascii_of_N (N.lor (N.shiftl (N.land y 3) 6) z)) t)))
              | None => None
              end
          | _, _ => None
          end
      | _, _ => None
      end
  | _ => None
  end.

Example b64_examples :
  List.map b64_encode [""; "f"; "fo"; "foo"; "foobar"] = [""; "Zg=="; "Zm8="; "Zm9v"; "Zm9vYmFy"] /\
  List.map b64_decode ["Zg=="; "Zm8="; "Zm9vYmFy"; "Zg="; "Z==="] = [Some "f"; Some "fo"; Some "foobar"; None; None].
Proof. split; reflexivity. Qed.
