(* ===== verification/Permit.v ===== *)
(** * Drain permits

    Models [src/internal/service/recoverypermit/permit.go]: the externally signed
    permit that a drain of a stopped epoch requires, bound to the incident, the
    stop intent, the epoch and the exact ordered receipt set.

    [ed25519.Verify] is a parameter of the verifier.  [json.Unmarshal] is applied
    to the envelope only as far as it matters: the code compares the re-encoded
    envelope with the input, so every document whose members are not exactly those
    of the canonical encoding is refused whatever the decoder makes of it. *)
From S2P Require Import Prelude GoText Json JsonFacts AdmissionJson Sha256 Types Kube Contract QueueReceipt Effects GoTime.

Definition permitVersion : string := "1".
Definition permitAudience : string := "kova-recovery-drain-v1".
Definition permitAction : string := "drain-discard-only".
Definition workerProofType : string := "worker-pool-retired-v1".
Definition workerAssertion : string := "no-old-buildkit-execution-or-network-path-can-resume-v1".
Definition writersProofType : string := "old-writers-stopped-v1".
Definition writersAssertion : string :=
  "ingress-frozen-old-processes-joined-no-uninstrumented-writers-or-post-confirmation-effects-v1".
Definition maxPermitBytes : Z := 128 * 1024.
Definition maxReceiptRefs : Z := 4096.
Definition maxWorkerIDs : Z := 512.
Definition maxWriterObjects : Z := 256.
Definition maxServicePods : Z := 512.
Definition maxOpaqueIDBytes : Z := 256.
Definition maxWorkerIDBytes : Z := 128.
Definition maxIncidentIDSize : Z := 128.
Definition signatureDomain : string := "KOVA-RECOVERY-DRAIN-PERMIT-V1" +:+ String (ascii_of_N 0) "".
Definition PublicKeySize : Z := 32.
Definition SignatureSize : Z := 64.

Definition ErrUnqualified := Sentinel "unqualified external drain permit".

(** ** Records *)

Record EpochIdentity := mkEpoch {
  ep_Namespace : string;
  ep_NamespaceUID : string;
  ep_ReceiptNamespace : string;
  ep_ReceiptNamespaceUID : string;
  ep_GenesisName : string;
  ep_GenesisUID : string;
  ep_Generation : string;
  ep_ActiveLedgerUID : string;
  ep_QueueLedgerUID : string;
  ep_WorkerPoolID : string }.

Record StopIntentRef := mkStop { st_Namespace : string; st_Name : string; st_UID : string; st_DataDigest : string }.

Record ReceiptRef := mkRef {
  rr_Kind : string; rr_Namespace : string; rr_Name : string; rr_UID : string; rr_DataDigest : string }.

Record WorkerPoolRetired := mkRetired {
  wr_Type : string;
  wr_PoolID : string;
  wr_Epoch : string;
  wr_WorkerIDs : list string;
  wr_CapacitySlots : Z;
  wr_Disposition : string;
  wr_EvidenceDigest : string;
  wr_Assertion : string;
  wr_CutoffAt : string }.

Record KubeObjectRef := mkObjectRef { kr_Namespace : string; kr_Name : string; kr_UID : string }.
Record ServiceProcessRef := mkProcess { sr_Pod : KubeObjectRef; sr_ContainerID : string; sr_ProcessID : string }.

Record OldWritersStopped := mkWriters {
  ow_Type : string;
  ow_StopIntent : StopIntentRef;
  ow_IngressRoutes : list KubeObjectRef;
  ow_ControlDeployments : list KubeObjectRef;
  ow_ServiceProcesses : list ServiceProcessRef;
  ow_EvidenceDigest : string;
  ow_Assertion : string;
  ow_RetiredAt : string }.

Record DrainPayload := mkPayload {
  dp_Version : string;
  dp_Audience : string;
  dp_Action : string;
  dp_Issuer : string;
  dp_KeyID : string;
  dp_IncidentID : string;
  dp_StopIntent : StopIntentRef;
  dp_Epoch : EpochIdentity;
  dp_ReceiptCount : Z;
  dp_ReceiptSetDigest : string;
  dp_WorkerRetirement : WorkerPoolRetired;
  dp_OldWritersStopped : OldWritersStopped;
  dp_IssuedAt : string }.

Record Envelope := mkEnvelope { en_Payload : DrainPayload; en_Signature : string }.

Record Expectation := mkExpectation {
  ex_PermitDigest : string;
  ex_IncidentID : string;
  ex_StopIntent : StopIntentRef;
  ex_Epoch : EpochIdentity;
  ex_Receipts : list ReceiptRef;
  ex_WorkerIDs : list string;
  ex_CapacitySlots : Z;
  ex_IngressRoutes : list KubeObjectRef;
  ex_ControlDeployments : list KubeObjectRef;
  ex_ServiceProcesses : list ServiceProcessRef }.

Definition TrustRoots : Type := gmap string (gmap string string).

Record DrainEvidence := mkEvidence {
  de_IncidentID : string;
  de_PermitDigest : string;
  de_ReceiptSetDigest : string;
  de_ReceiptCount : Z;
  de_WorkerPoolID : string;
  de_Disposition : string }.

#[export] Instance EpochIdentity_eq_dec : EqDecision EpochIdentity.
Proof. solve_decision. Defined.
#[export] Instance StopIntentRef_eq_dec : EqDecision StopIntentRef.
Proof. solve_decision. Defined.
#[export] Instance ReceiptRef_eq_dec : EqDecision ReceiptRef.
Proof. solve_decision. Defined.
#[export] Instance KubeObjectRef_eq_dec : EqDecision KubeObjectRef.
Proof. solve_decision. Defined.
#[export] Instance ServiceProcessRef_eq_dec : EqDecision ServiceProcessRef.
Proof. solve_decision. Defined.

(** ** Encoding *)

Definition json_of_epoch (e : EpochIdentity) : jvalue :=
  JObj (js "namespace" (ep_Namespace e) ++ js "namespaceUid" (ep_NamespaceUID e) ++
        js "receiptNamespace" (ep_ReceiptNamespace e) ++ js "receiptNamespaceUid" (ep_ReceiptNamespaceUID e) ++
        js "genesisName" (ep_GenesisName e) ++ js "genesisUid" (ep_GenesisUID e) ++ js "generation" (ep_Generation e) ++
        js "activeLedgerUid" (ep_ActiveLedgerUID e) ++ js "queueLedgerUid" (ep_QueueLedgerUID e) ++
        js "workerPoolId" (ep_WorkerPoolID e)).
Definition json_of_stop (s : StopIntentRef) : jvalue :=
  JObj (js "namespace" (st_Namespace s) ++ js "name" (st_Name s) ++ js "uid" (st_UID s) ++ js "dataDigest" (st_DataDigest s)).
Definition json_of_ref (r : ReceiptRef) : jvalue :=
  JObj (js "kind" (rr_Kind r) ++ js "namespace" (rr_Namespace r) ++ js "name" (rr_Name r) ++ js "uid" (rr_UID r) ++
        js "dataDigest" (rr_DataDigest r)).

(** A nil slice prints null.  An empty slice that is not nil would print [[]]; a
    permit whose lists are empty is refused in either form. *)
Definition json_slice {A} (f : A -> jvalue) (l : list A) : jvalue :=
  match l with [] => JNull | _ => JArr (List.map f l) end.

Definition json_of_retired (w : WorkerPoolRetired) : jvalue :=
  JObj (js "type" (wr_Type w) ++ js "poolId" (wr_PoolID w) ++ js "epoch" (wr_Epoch w) ++
        [("workerIds", json_slice JStr (wr_WorkerIDs w))] ++ jn "capacitySlots" (wr_CapacitySlots w) ++
        js "disposition" (wr_Disposition w) ++ js "evidenceDigest" (wr_EvidenceDigest w) ++
        js "assertion" (wr_Assertion w) ++ js "cutoffAt" (wr_CutoffAt w)).
Definition json_of_object (o : KubeObjectRef) : jvalue :=
  JObj (js "namespace" (kr_Namespace o) ++ js "name" (kr_Name o) ++ js "uid" (kr_UID o)).
Definition json_of_process (p : ServiceProcessRef) : jvalue :=
  JObj (("pod", json_of_object (sr_Pod p)) :: js "containerId" (sr_ContainerID p) ++ js "processId" (sr_ProcessID p)).
Definition json_of_writers (w : OldWritersStopped) : jvalue :=
  JObj (js "type" (ow_Type w) ++ [("stopIntent", json_of_stop (ow_StopIntent w));
        ("ingressRoutes", json_slice json_of_object (ow_IngressRoutes w));
        ("controlDeployments", json_slice json_of_object (ow_ControlDeployments w));
        ("serviceProcesses", json_slice json_of_process (ow_ServiceProcesses w))] ++
        js "evidenceDigest" (ow_EvidenceDigest w) ++ js "assertion" (ow_Assertion w) ++ js "retiredAt" (ow_RetiredAt w)).
Definition json_of_payload (p : DrainPayload) : jvalue :=
  JObj (js "version" (dp_Version p) ++ js "audience" (dp_Audience p) ++ js "action" (dp_Action p) ++
        js "issuer" (dp_Issuer p) ++ js "keyId" (dp_KeyID p) ++ js "incidentId" (dp_IncidentID p) ++
        [("stopIntent", json_of_stop (dp_StopIntent p)); ("epoch", json_of_epoch (dp_Epoch p))] ++
        jn "receiptCount" (dp_ReceiptCount p) ++ js "receiptSetDigest" (dp_ReceiptSetDigest p) ++
        [("workerRetirement", json_of_retired (dp_WorkerRetirement p));
         ("oldWritersStopped", json_of_writers (dp_OldWritersStopped p))] ++
        js "issuedAt" (dp_IssuedAt p)).
Definition json_of_envelope (e : Envelope) : jvalue :=
  JObj (("payload", json_of_payload (en_Payload e)) :: js "signature" (en_Signature e)).

(** ** Decoding *)

Definition members (v : option jvalue) : option (list (string * jvalue)) :=
  match v with Some (JObj l) => Some l | None => Some [] | Some _ => None end.
Definition elements_of {A} (f : option jvalue -> option A) (v : option jvalue) : option (list A) :=
  match v with
  | None | Some JNull => Some []
  | Some (JArr l) => mapM (fun x => f (Some x)) l
  | Some _ => None
  end.

Definition epoch_of_json (v : option jvalue) : option EpochIdentity :=
  l ← members v;
  a ← jstring (jfield l "namespace"); b ← jstring (jfield l "namespaceUid");
  c ← jstring (jfield l "receiptNamespace"); d ← jstring (jfield l "receiptNamespaceUid");
  e ← jstring (jfield l "genesisName"); f ← jstring (jfield l "genesisUid"); g ← jstring (jfield l "generation");
  h ← jstring (jfield l "activeLedgerUid"); i ← jstring (jfield l "queueLedgerUid"); j ← jstring (jfield l "workerPoolId");
  Some (mkEpoch a b c d e f g h i j).
Definition stop_of_json (v : option jvalue) : option StopIntentRef :=
  l ← members v;
  a ← jstring (jfield l "namespace"); b ← jstring (jfield l "name"); c ← jstring (jfield l "uid"); d ← jstring (jfield l "dataDigest");
  Some (mkStop a b c d).
Definition retired_of_json (v : option jvalue) : option WorkerPoolRetired :=
  l ← members v;
  a ← jstring (jfield l "type"); b ← jstring (jfield l "poolId"); c ← jstring (jfield l "epoch");
  d ← elements_of jstring (jfield l "workerIds"); e ← jint64 (jfield l "capacitySlots"); f ← jstring (jfield l "disposition");
  g ← jstring (jfield l "evidenceDigest"); h ← jstring (jfield l "assertion"); i ← jstring (jfield l "cutoffAt");
  Some (mkRetired a b c d e f g h i).
Definition object_of_json (v : option jvalue) : option KubeObjectRef :=
  l ← members v;
  a ← jstring (jfield l "namespace"); b ← jstring (jfield l "name"); c ← jstring (jfield l "uid");
  Some (mkObjectRef a b c).
Definition process_of_json (v : option jvalue) : option ServiceProcessRef :=
  l ← members v;
  a ← object_of_json (jfield l "pod"); b ← jstring (jfield l "containerId"); c ← jstring (jfield l "processId");
  Some (mkProcess a b c).
Definition writers_of_json (v : option jvalue) : option OldWritersStopped :=
  l ← members v;
  a ← jstring (jfield l "type"); b ← stop_of_json (jfield l "stopIntent"); c ← elements_of object_of_json (jfield l "ingressRoutes");
  d ← elements_of object_of_json (jfield l "controlDeployments"); e ← elements_of process_of_json (jfield l "serviceProcesses");
  f ← jstring (jfield l "evidenceDigest"); g ← jstring (jfield l "assertion"); h ← jstring (jfield l "retiredAt");
  Some (mkWriters a b c d e f g h).
Definition payload_of_json (v : option jvalue) : option DrainPayload :=
  l ← members v;
  a ← jstring (jfield l "version"); b ← jstring (jfield l "audience"); c ← jstring (jfield l "action");
  d ← jstring (jfield l "issuer"); e ← jstring (jfield l "keyId"); f ← jstring (jfield l "incidentId");
  g ← stop_of_json (jfield l "stopIntent"); h ← epoch_of_json (jfield l "epoch"); i ← jint64 (jfield l "receiptCount");
  j ← jstring (jfield l "receiptSetDigest"); k ← retired_of_json (jfield l "workerRetirement");
  m ← writers_of_json (jfield l "oldWritersStopped"); n ← jstring (jfield l "issuedAt");
  Some (mkPayload a b c d e f g h i j k m n).
Definition unmarshalEnvelope (raw : string) : option Envelope :=
  v ← json_parse raw; l ← members (Some v);
  p ← payload_of_json (jfield l "payload"); s ← jstring (jfield l "signature");
  Some (mkEnvelope p s).

(** ** Validation *)

Definition safeID (value : string) (max : Z) : bool := safeEffectID value max.

(** Every element, and every neighbouring pair of the list. *)
Fixpoint adjacent {A} (f : A -> A -> bool) (l : list A) : bool :=
  match l with
  | a :: (b :: _) as r => f a b && adjacent f r
  | _ => true
  end.

Section permit.
Context `{External}.

Definition EpochIdentity_validate (e : EpochIdentity) : option error :=
  if negb (IsDNS1123Label (ep_Namespace e)) || negb (IsDNS1123Label (ep_ReceiptNamespace e)) ||
     seqb (ep_ReceiptNamespace e) (ep_Namespace e) || negb (safeID (ep_ReceiptNamespaceUID e) maxOpaqueIDBytes) ||
     negb (IsDNS1123Subdomain (ep_GenesisName e)) || negb (safeID (ep_NamespaceUID e) maxOpaqueIDBytes) ||
     negb (safeID (ep_GenesisUID e) maxOpaqueIDBytes) || negb (safeID (ep_ActiveLedgerUID e) maxOpaqueIDBytes) ||
     negb (safeID (ep_QueueLedgerUID e) maxOpaqueIDBytes) || negb (lowerHex (ep_Generation e) 32) ||
     negb (safeID (ep_WorkerPoolID e) maxWorkerIDBytes)
  then Some ErrUnqualified else None.

Definition StopIntentRef_validate (s : StopIntentRef) : option error :=
  if negb (IsDNS1123Label (st_Namespace s)) || negb (IsDNS1123Subdomain (st_Name s)) ||
     negb (safeID (st_UID s) maxOpaqueIDBytes) || negb (digestSHA256 (st_DataDigest s))
  then Some ErrUnqualified else None.

Definition receiptPrefix (kind : string) : option string :=
  if seqb kind "queue" then Some "kova-admission-intent-"
  else if seqb kind "grant" then Some "kova-grant-intent-"
  else if seqb kind "pod-create" then Some "kova-pod-create-intent-"
  else None.

Definition ReceiptRef_validate (r : ReceiptRef) (epoch : EpochIdentity) : option error :=
  match receiptPrefix (rr_Kind r) with
  | None => Some ErrUnqualified
  | Some prefix =>
      if negb (seqb (rr_Namespace r) (ep_ReceiptNamespace epoch)) || negb (HasPrefix (rr_Name r) prefix) ||
         negb (lowerHex (TrimPrefix (rr_Name r) prefix) 32) || negb (safeID (rr_UID r) maxOpaqueIDBytes) ||
         negb (digestSHA256 (rr_DataDigest r))
      then Some ErrUnqualified else None
  end.

Definition lessReceipt (a b : ReceiptRef) : bool :=
  if negb (seqb (rr_Kind a) (rr_Kind b)) then str_ltb (rr_Kind a) (rr_Kind b)
  else if negb (seqb (rr_Namespace a) (rr_Namespace b)) then str_ltb (rr_Namespace a) (rr_Namespace b)
  else if negb (seqb (rr_Name a) (rr_Name b)) then str_ltb (rr_Name a) (rr_Name b)
  else false.

Definition receiptSetJSON (refs : list ReceiptRef) : string :=
  json_print (JObj (js "version" permitVersion ++ [("receipts", JArr (List.map json_of_ref refs))])).

Definition DigestReceiptSet (epoch : EpochIdentity) (refs : list ReceiptRef) : result string :=
  if negb (is_nil (EpochIdentity_validate epoch)) || (maxReceiptRefs <? Z.of_nat (List.length refs))%Z then Err ErrUnqualified
  else if negb (forallb (fun r => is_nil (ReceiptRef_validate r epoch)) refs && adjacent lessReceipt refs) then Err ErrUnqualified
  else Ok ("sha256:" +:+ sha256_hex (receiptSetJSON refs)).

Definition KubeObjectRef_validate (o : KubeObjectRef) : option error :=
  if negb (IsDNS1123Label (kr_Namespace o)) || negb (IsDNS1123Subdomain (kr_Name o)) ||
     negb (safeID (kr_UID o) maxOpaqueIDBytes)
  then Some ErrUnqualified else None.

(** Strictly increasing by namespace, then name. *)
Definition lessObject (a b : KubeObjectRef) : bool :=
  negb (str_ltb (kr_Namespace b) (kr_Namespace a) ||
        seqb (kr_Namespace a) (kr_Namespace b) && negb (str_ltb (kr_Name a) (kr_Name b))).

Definition orderedObjects (values : list KubeObjectRef) (limit : Z) : bool :=
  negb (Z.of_nat (List.length values) =? 0)%Z && (Z.of_nat (List.length values) <=? limit)%Z &&
  forallb (fun v => is_nil (KubeObjectRef_validate v)) values && adjacent lessObject values.

Definition orderedProcesses (values : list ServiceProcessRef) : bool :=
  negb (Z.of_nat (List.length values) =? 0)%Z && (Z.of_nat (List.length values) <=? maxServicePods)%Z &&
  forallb (fun v => is_nil (KubeObjectRef_validate (sr_Pod v)) && safeID (sr_ContainerID v) maxOpaqueIDBytes &&
                    safeID (sr_ProcessID v) maxOpaqueIDBytes) values &&
  adjacent (fun a b => lessObject (sr_Pod a) (sr_Pod b)) values.

Definition OldWritersStopped_validate (w : OldWritersStopped) (stop : StopIntentRef) : option error :=
  if negb (seqb (ow_Type w) writersProofType) || negb (bool_decide (ow_StopIntent w = stop)) ||
     negb (orderedObjects (ow_IngressRoutes w) maxWriterObjects) ||
     negb (orderedObjects (ow_ControlDeployments w) maxWriterObjects) ||
     negb (orderedProcesses (ow_ServiceProcesses w)) || negb (digestSHA256 (ow_EvidenceDigest w)) ||
     negb (seqb (ow_Assertion w) writersAssertion)
  then Some ErrUnqualified
  else match ParseRFC3339Nano (ow_RetiredAt w) with None => Some ErrUnqualified | Some _ => None end.

Definition orderedWorkers (ids : list string) : bool :=
  forallb (fun id => safeID id maxWorkerIDBytes) ids && adjacent str_ltb ids.

Definition WorkerPoolRetired_validate (w : WorkerPoolRetired) (epoch : EpochIdentity) : option error :=
  if negb (seqb (wr_Type w) workerProofType) || negb (seqb (wr_PoolID w) (ep_WorkerPoolID epoch)) ||
     negb (seqb (wr_Epoch w) (ep_Generation epoch)) || (Z.of_nat (List.length (wr_WorkerIDs w)) =? 0)%Z ||
     (maxWorkerIDs <? Z.of_nat (List.length (wr_WorkerIDs w)))%Z || (wr_CapacitySlots w <? 1)%Z || (65535 <? wr_CapacitySlots w)%Z ||
     negb (seqb (wr_Disposition w) "terminated") && negb (seqb (wr_Disposition w) "isolated") ||
     negb (digestSHA256 (wr_EvidenceDigest w)) || negb (seqb (wr_Assertion w) workerAssertion)
  then Some ErrUnqualified
  else match ParseRFC3339Nano (wr_CutoffAt w) with
       | None => Some ErrUnqualified
       | Some _ => if negb (orderedWorkers (wr_WorkerIDs w)) then Some ErrUnqualified else None
       end.

Definition signatureMessage (payloadRaw : string) : result string :=
  if sempty payloadRaw || (maxPermitBytes <? slen payloadRaw)%Z then Err ErrUnqualified
  else Ok (signatureDomain +:+ payloadRaw).

(** ** Verification *)

Variable ed25519_Verify : string -> string -> string -> bool.

Definition expectationOk (raw : string) (expected : Expectation) : bool :=
  negb (sempty raw || (maxPermitBytes <? slen raw)%Z || negb (digestSHA256 (ex_PermitDigest expected)) ||
        negb (safeID (ex_IncidentID expected) maxIncidentIDSize) ||
        negb (is_nil (StopIntentRef_validate (ex_StopIntent expected))) ||
        negb (is_nil (EpochIdentity_validate (ex_Epoch expected))) ||
        (ex_CapacitySlots expected <? 1)%Z || (65535 <? ex_CapacitySlots expected)%Z ||
        (Z.of_nat (List.length (ex_WorkerIDs expected)) =? 0)%Z ||
        (maxWorkerIDs <? Z.of_nat (List.length (ex_WorkerIDs expected)))%Z ||
        negb (orderedObjects (ex_IngressRoutes expected) maxWriterObjects) ||
        negb (orderedObjects (ex_ControlDeployments expected) maxWriterObjects) ||
        negb (orderedProcesses (ex_ServiceProcesses expected))).

Definition payloadOk (p : DrainPayload) (expected : Expectation) : bool :=
  seqb (dp_Version p) permitVersion && seqb (dp_Audience p) permitAudience && seqb (dp_Action p) permitAction &&
  safeID (dp_Issuer p) maxOpaqueIDBytes && safeID (dp_KeyID p) maxOpaqueIDBytes &&
  seqb (dp_IncidentID p) (ex_IncidentID expected) && bool_decide (dp_StopIntent p = ex_StopIntent expected) &&
  bool_decide (dp_Epoch p = ex_Epoch expected) && is_nil (StopIntentRef_validate (dp_StopIntent p)) &&
  is_nil (EpochIdentity_validate (dp_Epoch p)) && (dp_ReceiptCount p =? Z.of_nat (List.length (ex_Receipts expected)))%Z &&
  (dp_ReceiptCount p <=? maxReceiptRefs)%Z && digestSHA256 (dp_ReceiptSetDigest p) &&
  is_nil (WorkerPoolRetired_validate (dp_WorkerRetirement p) (dp_Epoch p)) &&
  is_nil (OldWritersStopped_validate (dp_OldWritersStopped p) (dp_StopIntent p)) &&
  (wr_CapacitySlots (dp_WorkerRetirement p) =? ex_CapacitySlots expected)%Z &&
  bool_decide (wr_WorkerIDs (dp_WorkerRetirement p) = ex_WorkerIDs expected) &&
  bool_decide (ow_IngressRoutes (dp_OldWritersStopped p) = ex_IngressRoutes expected) &&
  bool_decide (ow_ControlDeployments (dp_OldWritersStopped p) = ex_ControlDeployments expected) &&
  bool_decide (ow_ServiceProcesses (dp_OldWritersStopped p) = ex_ServiceProcesses expected).

(** A time that was validated to parse; the zero time otherwise. *)
Definition instant (s : string) : Z := default (-62135596800000000000)%Z (ParseRFC3339Nano s).

Definition signatureOk (e : Envelope) (roots : TrustRoots) : bool :=
  let p := en_Payload e in
  let publicKey := mget (default ∅ (roots !! dp_Issuer p)) (dp_KeyID p) in
  if negb (slen publicKey =? PublicKeySize)%Z then false
  else match b64_decode (en_Signature e) with
  | None => false
  | Some signature =>
      if negb (slen signature =? SignatureSize)%Z || negb (seqb (b64_encode signature) (en_Signature e)) then false
      else match signatureMessage (json_print (json_of_payload p)) with
           | Err _ => false
           | Ok message => ed25519_Verify publicKey message signature
           end
  end.

Definition VerifyDrainPermit (raw : string) (expected : Expectation) (roots : TrustRoots) : result DrainEvidence :=
  if negb (expectationOk raw expected) then Err ErrUnqualified
  else
    let digest := "sha256:" +:+ sha256_hex raw in
    if negb (seqb digest (ex_PermitDigest expected)) then Err (Wrap "permit digest mismatch" ErrUnqualified)
    else match unmarshalEnvelope raw with
    | None => Err (Wrap "invalid envelope encoding" ErrUnqualified)
    | Some envelope =>
        if negb (seqb raw (json_print (json_of_envelope envelope))) then Err (Wrap "noncanonical envelope" ErrUnqualified)
        else
          let p := en_Payload envelope in
          if negb (payloadOk p expected) then Err ErrUnqualified
          else match ParseRFC3339Nano (dp_IssuedAt p) with
          | None => Err ErrUnqualified
          | Some issuedAt =>
              if (issuedAt <? instant (wr_CutoffAt (dp_WorkerRetirement p)))%Z ||
                 (issuedAt <? instant (ow_RetiredAt (dp_OldWritersStopped p)))%Z then Err ErrUnqualified
              else if negb (orderedWorkers (ex_WorkerIDs expected)) then Err ErrUnqualified
              else match DigestReceiptSet (ex_Epoch expected) (ex_Receipts expected) with
              | Err _ => Err ErrUnqualified
              | Ok setDigest =>
                  if negb (seqb setDigest (dp_ReceiptSetDigest p)) then Err ErrUnqualified
                  else if negb (signatureOk envelope roots) then Err ErrUnqualified
                  else Ok (mkEvidence (dp_IncidentID p) digest setDigest (dp_ReceiptCount p)
                             (wr_PoolID (dp_WorkerRetirement p)) (wr_Disposition (dp_WorkerRetirement p)))
              end
          end
    end.

End permit.
