(* ===== verification/Drain.v ===== *)
(** * The recovery drain

    Models [src/internal/service/recoverydrain/drain.go]: after the permit and the
    complete receipt inventory are qualified, every build and Pod name of the
    stopped epoch is occupied, by holding the original object or by creating one
    inert tombstone for it.

    [DirectAPI] is the narrow interface of the code: it has no Delete, Patch or
    status writer.  A [free DirectAPI] is a program over it with every possible answer; a
    Create or Update answers with the UID it left in the object and its error.
    The template digest of a Pod is a function of the whole Pod specification of
    [k8s.io/api], of which [drainPod] has the fields that the drain itself reads;
    it is a parameter. *)
From S2P Require Import Prelude Free GoText Json Sha256 Types Kube Contract QueueReceipt Effects QueueLedger FairQueue GoTime Permit.

Definition maxLiabilities : Z := 2048.
Definition maxConfigMaps : Z := 8192.
Definition attemptPrefix : string := "kova-recovery-occupancy-".
Definition attemptLabel : string := "kova.cofy.dev/recovery-occupancy-attempt".
Definition podAttemptKey : string := "kova.cofy.dev/create-attempt".
Definition metricDigest : string := "kova.cofy.dev/pod-template-digest".
Definition epochAnnotation : string := "kova.cofy.dev/recovery-epoch-uid".
Definition neverImage : string := "registry.invalid/kova-recovery-tombstone:never".

Definition preflightName : string := "recovery drain preflight is not qualified".
Definition ErrPreflight := Sentinel preflightName.
Definition ErrUnknown := Sentinel "recovery occupancy outcome is unknown".

(** ** Objects *)

Record podOwner := mkPodOwner {
  po_apiVersion : string; po_kind : string; po_name : string; po_uid : string; po_controller : option bool }.
Record container := mkContainer {
  ct_name : string; ct_image : string; ct_pullPolicy : string; ct_command : list string }.

(** The fields of a Pod that the drain reads or writes, and an opaque rest. *)
Record drainPod := mkDrainPod {
  dpod_ns : string;
  dpod_name : string;
  dpod_uid : string;
  dpod_rv : string;
  dpod_labels : gmap string string;
  dpod_annotations : gmap string string;
  dpod_finalizers : list string;
  dpod_owners : list podOwner;
  dpod_deleting : bool;
  dpod_restart : string;
  dpod_containers : list container;
  dpod_initContainers : list container;
  dpod_ephemeral : nat;
  dpod_gates : list string;
  dpod_nodeSelector : gmap string string;
  dpod_automount : option bool;
  dpod_nodeName : string;
  dpod_hostNetwork : bool;
  dpod_hostPID : bool;
  dpod_hostIPC : bool;
  dpod_rest : string }.

(** [client.Object] of the two occupied kinds. *)
Inductive occupant := OBuild (b : KovaBuild) | OPod (p : drainPod).

Definition GetNamespace_ (o : occupant) : string := match o with OBuild b => kb_ns b | OPod p => dpod_ns p end.
Definition GetName_ (o : occupant) : string := match o with OBuild b => kb_name b | OPod p => dpod_name p end.
Definition GetUID (o : occupant) : string := match o with OBuild b => kb_uid b | OPod p => dpod_uid p end.
Definition GetResourceVersion (o : occupant) : string := match o with OBuild b => kb_rv b | OPod p => dpod_rv p end.
Definition GetLabels (o : occupant) : gmap string string := match o with OBuild b => kb_labels b | OPod p => dpod_labels p end.
Definition GetAnnotations (o : occupant) : gmap string string :=
  match o with OBuild b => kb_annotations b | OPod p => dpod_annotations p end.
Definition GetFinalizers (o : occupant) : list string := match o with OBuild b => kb_finalizers b | OPod p => dpod_finalizers p end.
Definition GetDeleting (o : occupant) : bool := match o with OBuild b => kb_deleting b | OPod p => dpod_deleting p end.
Definition NoOwners (o : occupant) : bool :=
  match o with OBuild b => bool_decide (kb_owners b = []) | OPod p => match dpod_owners p with [] => true | _ => false end end.
Definition SetFinalizers (o : occupant) (l : list string) : occupant :=
  match o with
  | OBuild b => OBuild (mkBuild (kb_ns b) (kb_name b) (kb_uid b) (kb_rv b) (kb_labels b) (kb_annotations b) l (kb_owners b)
      (kb_created b) (kb_deleting b) (kb_spec b) (kb_phase b) (kb_allocated b) (kb_runnerPod b))
  | OPod p => OPod (mkDrainPod (dpod_ns p) (dpod_name p) (dpod_uid p) (dpod_rv p) (dpod_labels p) (dpod_annotations p) l
      (dpod_owners p) (dpod_deleting p) (dpod_restart p) (dpod_containers p) (dpod_initContainers p) (dpod_ephemeral p)
      (dpod_gates p) (dpod_nodeSelector p) (dpod_automount p) (dpod_nodeName p) (dpod_hostNetwork p) (dpod_hostPID p)
      (dpod_hostIPC p) (dpod_rest p))
  end.

(** A ConfigMap with its finalizers. *)
Record heldMap := mkHeld { hm_cm : ConfigMap; hm_finalizers : list string }.

(** ** The interface and its programs *)

Inductive DirectAPI : Type -> Type :=
| DGetNamespace (name : string) : DirectAPI (result Namespace)
| DGetConfigMap (ns name : string) : DirectAPI (result heldMap)
| DListConfigMaps (ns : string) (limit : Z) : DirectAPI (result (list ConfigMap * string)) (* items, continue *)
| DGet (kind ns name : string) : DirectAPI (result occupant)
| DCreateConfigMap (m : heldMap) : DirectAPI (string * option error)
| DCreate (o : occupant) : DirectAPI (string * option error)
| DUpdate (o : occupant) : DirectAPI (string * option error).

(** ** Input and report *)

Record drainInput := mkInput {
  in_Permit : string;
  in_Expected : Expectation;
  in_TrustRoots : TrustRoots;
  in_MaxLiabilities : Z;
  in_Queues : list QueueIntent;
  in_Grants : list GrantIntent;
  in_PodCreates : list PodCreateIntent }.

Record Disposition := mkDisposition { di_Kind : string; di_Name : string; di_UID : string; di_State : string }.
Record Report := mkReport { rp_Stage : string; rp_PermitDigest : string; rp_Dispositions : list Disposition }.

Record target := mkTarget_ {
  ta_kind : string;
  ta_name : string;
  ta_queue : option QueueIntent;
  ta_grant : option GrantIntent;
  ta_pods : list PodCreateIntent }.

(** ** The stop intent and the namespaces *)

Definition namespaceOk (r : result Namespace) (uid : string) : bool :=
  match r with
  | Ok n => seqb (ns_uid n) uid && negb (ns_deleting n) && seqb (ns_phase n) NamespaceActive
  | Err _ => false
  end.

Definition stopOk (stop : ConfigMap) (exp : Expectation) : bool :=
  match DigestData (cm_data stop) with
  | Err _ => false
  | Ok digest =>
      seqb (cm_ns stop) (ep_Namespace (ex_Epoch exp)) && seqb (cm_uid stop) (st_UID (ex_StopIntent exp)) &&
      seqb (cm_name stop) (st_Name (ex_StopIntent exp)) && negb (sempty (cm_rv stop)) && negb (cm_deleting stop) &&
      is_true_ptr (cm_immutable stop) && bool_decide (cm_owners stop = []) && bool_decide (size (cm_binary stop) = 0) &&
      seqb digest (st_DataDigest (ex_StopIntent exp))
  end.

Definition qualifyStopAndNamespace (exp : Expectation) : free DirectAPI (option error) :=
  let+ namespace := fcall (DGetNamespace (ep_Namespace (ex_Epoch exp))) in
  if negb (namespaceOk namespace (ep_NamespaceUID (ex_Epoch exp)))
  then Done (Some (Plain "old namespace UID is unavailable or changed"))
  else
    let+ receipts := fcall (DGetNamespace (ep_ReceiptNamespace (ex_Epoch exp))) in
    if negb (namespaceOk receipts (ep_ReceiptNamespaceUID (ex_Epoch exp)))
    then Done (Some (Plain "old receipt namespace UID is unavailable or changed"))
    else
      let+ stop := fcall (DGetConfigMap (st_Namespace (ex_StopIntent exp)) (st_Name (ex_StopIntent exp))) in
      match stop with
      | Err e => Done (Some (Wrap "stop intent direct read" e))
      | Ok m => if stopOk (hm_cm m) exp then Done None
                else Done (Some (Plain "stop intent identity or immutable payload changed"))
      end.

(** ** The receipt inventory *)

Definition refKey (kind name : string) : string := kind +:+ "/" +:+ name.

Definition receiptKind (name : string) : string :=
  if HasPrefix name "kova-admission-intent-" then "queue"
  else if HasPrefix name "kova-grant-intent-" then "grant"
  else if HasPrefix name "kova-pod-create-intent-" then "pod-create"
  else "".

Inductive intent := IQueue (q : QueueIntent) | IGrant (g : GrantIntent) | IPod (p : PodCreateIntent).

Section drain.
Context `{External}.

Definition intentMap (i : intent) : result ConfigMap :=
  match i with
  | IQueue q => NewQueueConfigMap q
  | IGrant g => NewGrantConfigMap g
  | IPod p => NewPodCreateConfigMap p
  end.
Definition intentKind (i : intent) : string :=
  match i with IQueue _ => "queue" | IGrant _ => "grant" | IPod _ => "pod-create" end.

(** The three loops over the supplied intents and the closure [add]. *)
Definition addIntent (exp : Expectation) (provided : gmap string intent) (i : intent) : option (gmap string intent) :=
  match intentMap i with
  | Err _ => None
  | Ok cm =>
      let key := refKey (intentKind i) (cm_name cm) in
      if negb (seqb (cm_ns cm) (ep_ReceiptNamespace (ex_Epoch exp))) || bool_decide (is_Some (provided !! key)) then None
      else Some (<[key := i]> provided)
  end.
Definition provide (exp : Expectation) (intents : list intent) : option (gmap string intent) :=
  foldl (fun acc i => match acc with Some provided => addIntent exp provided i | None => None end) (Some ∅) intents.

Definition intents (i : drainInput) : list intent :=
  List.map IQueue (in_Queues i) ++ List.map IGrant (in_Grants i) ++ List.map IPod (in_PodCreates i).

(** [refs]: the signed references by key; [None] when one has no intent. *)
Definition refsOf (provided : gmap string intent) (receipts : list ReceiptRef) : option (gmap string ReceiptRef) :=
  foldl (fun acc ref => match acc with
    | Some refs => if bool_decide (is_Some (provided !! refKey (rr_Kind ref) (rr_Name ref)))
                   then Some (<[refKey (rr_Kind ref) (rr_Name ref) := ref]> refs) else None
    | None => None end) (Some ∅) receipts.

(** The listed ConfigMaps whose names are receipt names are exactly the signed ones. *)
Fixpoint seenReceipts (refs : gmap string ReceiptRef) (seen : gset string) (items : list ConfigMap) : option (gset string) :=
  match items with
  | [] => Some seen
  | cm :: rest =>
      let kind := receiptKind (cm_name cm) in
      if sempty kind then seenReceipts refs seen rest
      else
        let key := refKey kind (cm_name cm) in
        match refs !! key with
        | None => None
        | Some ref =>
            if bool_decide (key ∈ seen) || negb (seqb (cm_ns cm) (rr_Namespace ref)) || negb (seqb (cm_uid cm) (rr_UID ref))
            then None else seenReceipts refs ({[key]} ∪ seen) rest
        end
  end.

Definition intentDigest (i : intent) (cm : ConfigMap) : result string :=
  match i with
  | IQueue q => match QualifyQueue q cm with Ok w => Ok (oq_DataDigest w) | Err e => Err e end
  | IGrant g => match QualifyGrant g cm with Ok w => Ok (ew_DataDigest w) | Err e => Err e end
  | IPod p => match QualifyPodCreate p cm with Ok w => Ok (ew_DataDigest w) | Err e => Err e end
  end.

Fixpoint readReceipts (provided : gmap string intent) (receipts : list ReceiptRef) : free DirectAPI (option error) :=
  match receipts with
  | [] => Done None
  | ref :: rest =>
      let+ r := fcall (DGetConfigMap (rr_Namespace ref) (rr_Name ref)) in
      match r with
      | Err e => Done (Some (Wrap "direct receipt read" e))
      | Ok m =>
          match provided !! refKey (rr_Kind ref) (rr_Name ref) with
          | None => Done (Some ErrPreflight)
          | Some i =>
              match intentDigest i (hm_cm m) with
              | Err e => Done (Some e)
              | Ok digest =>
                  if negb (seqb (cm_uid (hm_cm m)) (rr_UID ref)) || negb (seqb digest (rr_DataDigest ref))
                  then Done (Some (Plain "receipt UID or data digest changed"))
                  else readReceipts provided rest
              end
          end
      end
  end.

(** ** Linking receipts to names *)

Definition queueEpochOk (q : QueueIntent) (e : EpochIdentity) : bool :=
  seqb (qi_Namespace q) (ep_Namespace e) && seqb (qi_NamespaceUID q) (ep_NamespaceUID e) &&
  seqb (qi_GenesisName q) (ep_GenesisName e) && seqb (qi_ReceiptNamespace q) (ep_ReceiptNamespace e) &&
  seqb (qi_ReceiptNamespaceUID q) (ep_ReceiptNamespaceUID e) && seqb (qi_GenesisUID q) (ep_GenesisUID e) &&
  seqb (qi_Generation q) (ep_Generation e) && seqb (qi_ActiveLedgerUID q) (ep_ActiveLedgerUID e) &&
  seqb (qi_QueueLedgerUID q) (ep_QueueLedgerUID e).

Definition buildEpochOk (b : PinnedBuild) (e : EpochIdentity) : bool :=
  seqb (pb_Namespace b) (ep_Namespace e) && seqb (pb_NamespaceUID b) (ep_NamespaceUID e) &&
  seqb (pb_GenesisName b) (ep_GenesisName e) && seqb (pb_ReceiptNamespace b) (ep_ReceiptNamespace e) &&
  seqb (pb_ReceiptNamespaceUID b) (ep_ReceiptNamespaceUID e) && seqb (pb_GenesisUID b) (ep_GenesisUID e) &&
  seqb (pb_Generation b) (ep_Generation e) && seqb (pb_ActiveLedgerUID b) (ep_ActiveLedgerUID e) &&
  seqb (pb_QueueLedgerUID b) (ep_QueueLedgerUID e) && seqb (pb_WorkerPoolID b) (ep_WorkerPoolID e).

(** [queueRef] and [grantRef]; the zero reference for a missing name. *)
Definition refsByName (kind : string) (receipts : list ReceiptRef) : gmap string ReceiptRef :=
  foldl (fun m ref => if seqb (rr_Kind ref) kind then <[rr_Name ref := ref]> m else m) ∅ receipts.
Definition zeroRef : ReceiptRef := mkRef "" "" "" "" "".

Definition linkOk (l : ReceiptLink) (ref : ReceiptRef) : bool :=
  seqb (rl_Name l) (rr_Name ref) && seqb (rl_UID l) (rr_UID ref) && seqb (rl_DataDigest l) (rr_DataDigest ref).

Definition linkQueue (e : EpochIdentity) (acc : option (gmap string target)) (q : QueueIntent) : option (gmap string target) :=
  match acc with
  | None => None
  | Some byBuild =>
      if negb (queueEpochOk q e) || bool_decide (is_Some (byBuild !! qi_BuildName q)) then None
      else Some (<[qi_BuildName q := mkTarget_ "KovaBuild" (qi_BuildName q) (Some q) None []]> byBuild)
  end.

Definition grantLinksQueue (queueRef : gmap string ReceiptRef) (g : GrantIntent) (q : QueueIntent) : bool :=
  let ref := default zeroRef (queueRef !! ("kova-admission-intent-" +:+ qi_QueueNonce q)) in
  let b := gi_Build g in
  match gi_QueueReceipt g with
  | None => false
  | Some l =>
      linkOk l ref && seqb (qi_RequesterName q) (pb_RequesterName b) && seqb (qi_RequesterHash q) (pb_RequesterHash b) &&
      seqb (qi_RequesterUID q) (pb_RequesterUID b) && seqb (qi_RequestDigest q) (pb_RequestDigest b) &&
      seqb (qi_SourceDigest q) (pb_SourceDigest b)
  end.

Definition linkGrant (e : EpochIdentity) (queueRef : gmap string ReceiptRef) (acc : option (gmap string target)) (g : GrantIntent)
    : option (gmap string target) :=
  match acc with
  | None => None
  | Some byBuild =>
      let b := gi_Build g in
      if negb (buildEpochOk b e) then None
      else
        let item := default (mkTarget_ "KovaBuild" (pb_BuildName b) None None []) (byBuild !! pb_BuildName b) in
        if bool_decide (is_Some (ta_grant item)) ||
           seqb (gi_AdmissionMode g) "queued" && negb (bool_decide (is_Some (ta_queue item))) ||
           seqb (gi_AdmissionMode g) "direct" && bool_decide (is_Some (ta_queue item)) then None
        else if match ta_queue item with Some q => negb (grantLinksQueue queueRef g q) | None => false end then None
        else Some (<[pb_BuildName b := mkTarget_ (ta_kind item) (ta_name item) (ta_queue item) (Some g) (ta_pods item)]> byBuild)
  end.

#[local] Instance PinnedBuild_eq_dec' : EqDecision PinnedBuild.
Proof. solve_decision. Defined.
Definition sameBuild (a b : PinnedBuild) : bool := bool_decide (a = b).

Definition linkPod (byBuild : gmap string target) (grantRef : gmap string ReceiptRef) (acc : option (gmap string target))
    (p : PodCreateIntent) : option (gmap string target) :=
  match acc with
  | None => None
  | Some byPod =>
      let b := pi_Build p in
      match byBuild !! pb_BuildName b with
      | Some (mkTarget_ _ _ _ (Some g) _) =>
          let ref := default zeroRef (grantRef !! rl_Name (pi_GrantReceipt p)) in
          if negb (sameBuild (gi_Build g) b) || negb (linkOk (pi_GrantReceipt p) ref) ||
             negb (seqb (pi_PodName p) ("kova-job-" +:+ pb_BuildName b)) then None
          else
            let item := default (mkTarget_ "Pod" (pi_PodName p) None (Some g) []) (byPod !! pi_PodName p) in
            Some (<[pi_PodName p := mkTarget_ (ta_kind item) (ta_name item) (ta_queue item) (ta_grant item) (ta_pods item ++ [p])]> byPod)
      | _ => None
      end
  end.

(** Map iteration has no order in the source; the targets are sorted by kind and
    name afterwards: first the builds, then the Pods. *)
Definition linkTargets (i : drainInput) : option (list target) :=
  let e := ex_Epoch (in_Expected i) in
  let queueRef := refsByName "queue" (ex_Receipts (in_Expected i)) in
  let grantRef := refsByName "grant" (ex_Receipts (in_Expected i)) in
  match foldl (linkGrant e queueRef) (foldl (linkQueue e) (Some ∅) (in_Queues i)) (in_Grants i) with
  | None => None
  | Some byBuild =>
      match foldl (linkPod byBuild grantRef) (Some ∅) (in_PodCreates i) with
      | None => None
      | Some byPod => Some ((sorted_entries byBuild).*2 ++ (sorted_entries byPod).*2)
      end
  end.

Definition qualifyInventory (i : drainInput) : free DirectAPI (result (list target)) :=
  let exp := in_Expected i in
  match provide exp (intents i) with
  | None => Done (Err ErrPreflight)
  | Some provided =>
      if negb (Nat.eqb (size provided) (List.length (ex_Receipts exp)))
      then Done (Err (Plain "supplied intent count differs from signed receipt count"))
      else match refsOf provided (ex_Receipts exp) with
      | None => Done (Err (Plain "missing intent"))
      | Some refs =>
          let+ all := fcall (DListConfigMaps (ep_ReceiptNamespace (ex_Epoch exp)) maxConfigMaps) in
          match all with
          | Err e => Done (Err (Wrap "direct complete ConfigMap list" e))
          | Ok (items, continue) =>
              if negb (sempty continue) || (maxConfigMaps <? Z.of_nat (List.length items))%Z
              then Done (Err (Plain "ConfigMap inventory exceeded one bounded complete page"))
              else match seenReceipts refs ∅ items with
              | None => Done (Err (Plain "unlisted, duplicate, or replaced old receipt"))
              | Some seen =>
                  if negb (Nat.eqb (size seen) (size refs)) then Done (Err (Plain "direct old-receipt list missed a signed receipt"))
                  else
                    chk+ readReceipts provided (ex_Receipts exp) else (fun e => Done (Err e)) in
                    match linkTargets i with
                    | None => Done (Err (Plain "receipts conflict"))
                    | Some targets => Done (Ok targets)
                    end
              end
          end
      end
  end.

(** ** Tombstones *)

Definition newLabels : gmap string string := {[markerKey := markerValue]}.
Definition newAnnotations (exp : Expectation) : gmap string string :=
  <[markerKey := ex_IncidentID exp]> {[epochAnnotation := ep_NamespaceUID (ex_Epoch exp)]}.

Definition newBuildTombstone (exp : Expectation) (name : string) : KovaBuild :=
  {| kb_ns := ep_Namespace (ex_Epoch exp); kb_name := name; kb_uid := ""; kb_rv := ""; kb_labels := newLabels;
     kb_annotations := newAnnotations exp; kb_finalizers := [holdFinalizer]; kb_owners := []; kb_created := 0;
     kb_deleting := false; kb_spec := inertBuildSpec; kb_phase := ""; kb_allocated := 0; kb_runnerPod := "" |}.

Definition newPodTombstone (exp : Expectation) (name : string) : drainPod :=
  {| dpod_ns := ep_Namespace (ex_Epoch exp); dpod_name := name; dpod_uid := ""; dpod_rv := ""; dpod_labels := newLabels;
     dpod_annotations := newAnnotations exp; dpod_finalizers := [holdFinalizer]; dpod_owners := []; dpod_deleting := false;
     dpod_restart := "Never"; dpod_containers := [mkContainer "inert" neverImage "Never" ["/bin/false"]];
     dpod_initContainers := []; dpod_ephemeral := 0; dpod_gates := [holdFinalizer];
     dpod_nodeSelector := {[markerKey := "never"]}; dpod_automount := Some false; dpod_nodeName := "";
     dpod_hostNetwork := false; dpod_hostPID := false; dpod_hostIPC := false; dpod_rest := "" |}.

Definition tombstone (exp : Expectation) (item : target) : occupant :=
  if seqb (ta_kind item) "KovaBuild" then OBuild (newBuildTombstone exp (ta_name item)) else OPod (newPodTombstone exp (ta_name item)).

Definition occupiedMarker (o : occupant) (exp : Expectation) (name : string) : bool :=
  seqb (mget (GetLabels o) markerKey) markerValue && seqb (mget (GetAnnotations o) markerKey) (ex_IncidentID exp) &&
  seqb (mget (GetAnnotations o) epochAnnotation) (ep_NamespaceUID (ex_Epoch exp)) &&
  seqb (GetNamespace_ o) (ep_Namespace (ex_Epoch exp)) && seqb (GetName_ o) name &&
  negb (sempty (GetUID o)) && negb (sempty (GetResourceVersion o)) && negb (GetDeleting o) &&
  bool_decide (holdFinalizer ∈ GetFinalizers o) && NoOwners o.

Definition inertPod (p : drainPod) : bool :=
  bool_decide (dpod_gates p = [holdFinalizer]) && seqb (mget (dpod_nodeSelector p) markerKey) "never" &&
  match dpod_automount p with Some false => true | _ => false end &&
  sempty (dpod_nodeName p) && negb (dpod_hostNetwork p) && negb (dpod_hostPID p) && negb (dpod_hostIPC p) &&
  match dpod_initContainers p with [] => true | _ => false end && Nat.eqb (dpod_ephemeral p) 0 &&
  match dpod_containers p with
  | [c] => seqb (ct_pullPolicy c) "Never" && seqb (ct_name c) "inert" && bool_decide (ct_command c = ["/bin/false"]) &&
           seqb (ct_image c) neverImage
  | _ => false
  end && seqb (dpod_restart p) "Never".

Definition qualifyTombstone (exp : Expectation) (item : target) (o : occupant) : option error :=
  if negb (occupiedMarker o exp (ta_name item)) then Some (Plain "tombstone identity changed")
  else if seqb (ta_kind item) "KovaBuild" then
    match o with
    | OBuild b => if IsInertBuildTombstone b then None else Some (Plain "KovaBuild tombstone is not inert")
    | OPod _ => Some (Plain "KovaBuild tombstone is not inert")
    end
  else
    match o with
    | OPod p => if inertPod p then None else Some (Plain "Pod tombstone is not inert")
    | OBuild _ => Some (Plain "Pod tombstone is not inert")
    end.

(** ** Originals *)

Fixpoint fetches (digest : string) (command : list string) : bool :=
  match command with
  | a :: ((b :: _) as r) => seqb a "--digest" && seqb b digest || fetches digest r
  | _ => false
  end.
Definition podFetchesDigest (p : drainPod) (digest : string) : bool :=
  existsb (fun c => seqb (ct_name c) "source-fetch" && fetches digest (ct_command c)) (dpod_initContainers p).

Definition HasSuffix (s p : string) : bool :=
  Nat.leb (String.length p) (String.length s) && seqb (str_drop (String.length s - String.length p) s) p.

Variable CanonicalPodTemplateDigest : drainPod -> result string.

Definition podMatches (p : drainPod) (c : container) (i : PodCreateIntent) : bool :=
  seqb (mget (dpod_annotations p) podAttemptKey) (pi_PodAttemptNonce i) &&
  seqb (mget (dpod_annotations p) metricDigest) (pi_PodTemplateDigest i) &&
  match CanonicalPodTemplateDigest p with Ok d => seqb d (pi_PodTemplateDigest i) | Err _ => false end &&
  HasSuffix (ct_image c) ("@" +:+ pi_RunnerImageDigest i) && podFetchesDigest p (pb_SourceDigest (pi_Build i)).

Definition originalBuild (item : target) (b : KovaBuild) : option error :=
  let expectedNamespace :=
    match ta_grant item with
    | Some g => pb_Namespace (gi_Build g)
    | None => match ta_queue item with Some q => qi_Namespace q | None => "" end
    end in
  if negb (seqb (ta_kind item) "KovaBuild") || sempty expectedNamespace || negb (seqb (kb_ns b) expectedNamespace) ||
     negb (seqb (kb_name b) (ta_name item)) || kb_deleting b || negb (sempty (mget (kb_labels b) markerKey))
  then Some (Plain "foreign KovaBuild occupant")
  else
    let digest := DigestBuild b in
    let requester := sp_requester (kb_spec b) in
    if match ta_queue item with
       | Some q => negb (seqb digest (qi_RequestDigest q)) || negb (seqb (rq_username requester) (qi_RequesterName q)) ||
                   negb (seqb (rq_uid requester) (qi_RequesterUID q)) ||
                   negb (seqb (src_digest (sp_source (kb_spec b))) (qi_SourceDigest q))
       | None => false
       end then Some (Plain "KovaBuild differs from queue receipt")
    else if match ta_grant item with
       | Some g =>
           let pb := gi_Build g in
           negb (seqb (kb_uid b) (pb_BuildUID pb)) || negb (seqb digest (pb_RequestDigest pb)) ||
           negb (seqb (rq_username requester) (pb_RequesterName pb)) || negb (seqb (rq_uid requester) (pb_RequesterUID pb)) ||
           negb (seqb (src_digest (sp_source (kb_spec b))) (pb_SourceDigest pb))
       | None => false
       end then Some (Plain "KovaBuild differs from grant receipt")
    else None.

(** A Pod target always carries the grant it was linked to. *)
Definition originalPod (item : target) (p : drainPod) : option error :=
  match ta_grant item with
  | None => Some ErrPreflight
  | Some g =>
      let b := gi_Build g in
      match dpod_owners p, dpod_containers p with
      | [o], [c] =>
          if negb (seqb (ta_kind item) "Pod") || negb (seqb (dpod_ns p) (pb_Namespace b)) || negb (seqb (dpod_name p) (ta_name item)) ||
             negb (sempty (mget (dpod_labels p) markerKey)) || negb (seqb (po_apiVersion o) (Group +:+ "/" +:+ Version)) ||
             negb (seqb (po_kind o) "KovaBuild") || negb (seqb (po_name o) (pb_BuildName b)) ||
             negb (seqb (po_uid o) (pb_BuildUID b)) || negb (is_true_ptr (po_controller o)) ||
             negb (seqb (mget (dpod_labels p) "kova.cofy.dev/build-id") (pb_BuildName b)) ||
             negb (seqb (dpod_restart p) "Never") || negb (seqb (ct_name c) "runner") ||
             negb (bool_decide (ct_command c = ["kovad"; "daemon"]))
          then Some (Plain "foreign Pod occupant")
          else if existsb (podMatches p c) (ta_pods item) then None
          else Some (Plain "Pod does not match a pre-effect attempt/source/image receipt")
      | _, _ => Some (Plain "foreign Pod occupant")
      end
  end.

Definition qualifyOriginal (item : target) (o : occupant) : option error :=
  match o with OBuild b => originalBuild item b | OPod p => originalPod item p end.

(** ** Occupancy attempts *)

Definition OccupancyAttemptName (epoch : EpochIdentity) (kind name : string) : string :=
  let raw := json_print (JArr [JStr (ep_NamespaceUID epoch); JStr (ep_GenesisUID epoch); JStr kind; JStr name]) in
  attemptPrefix +:+ hex_encode (Json.str_take 16 (Sum256 raw)).
Definition attemptName (exp : Expectation) (item : target) : string :=
  OccupancyAttemptName (ex_Epoch exp) (ta_kind item) (ta_name item).

Definition newAttempt (exp : Expectation) (item : target) : heldMap :=
  {| hm_cm :=
       {| cm_ns := ep_Namespace (ex_Epoch exp); cm_name := attemptName exp item; cm_uid := ""; cm_rv := "";
          cm_labels := {[attemptLabel := "v1"]}; cm_annotations := ∅; cm_owners := []; cm_deleting := false;
          cm_immutable := Some true;
          cm_data := list_to_map [("version", "1"); ("namespaceUid", ep_NamespaceUID (ex_Epoch exp));
                       ("genesisUid", ep_GenesisUID (ex_Epoch exp)); ("kind", ta_kind item); ("name", ta_name item)];
          cm_binary := ∅ |};
     hm_finalizers := [holdFinalizer] |}.

Definition sameAttempt (a b : heldMap) : bool :=
  let x := hm_cm a in let y := hm_cm b in
  seqb (cm_ns x) (cm_ns y) && seqb (cm_name x) (cm_name y) && negb (sempty (cm_uid x)) && negb (sempty (cm_rv x)) &&
  negb (cm_deleting x) && is_true_ptr (cm_immutable x) && bool_decide (cm_owners x = []) && bool_decide (size (cm_binary x) = 0) &&
  bool_decide (holdFinalizer ∈ hm_finalizers a) && Nat.eqb (size (cm_data x)) (size (cm_data y)) &&
  seqb (mget (cm_labels x) attemptLabel) "v1" &&
  forallb (fun k => seqb (mget (cm_data x) k) (mget (cm_data y) k)) ["version"; "namespaceUid"; "genesisUid"; "kind"; "name"].

Definition recordAttemptOnce (exp : Expectation) (item : target) : free DirectAPI (result bool) :=
  let expected := newAttempt exp item in
  let+ existing := fcall (DGetConfigMap (cm_ns (hm_cm expected)) (cm_name (hm_cm expected))) in
  match existing with
  | Ok m => if negb (sameAttempt m expected) then Done (Err (Plain "existing attempt changed")) else Done (Ok false)
  | Err e =>
      if negb (IsNotFound e) then Done (Err e)
      else
        chk+ qualifyStopAndNamespace exp
          else (fun e => Done (Err (Wrap "namespace/stop changed before occupancy attempt" e))) in
        let+ (createdUID, createErr) := fcall (DCreateConfigMap expected) in
        let+ observed := fcall (DGetConfigMap (cm_ns (hm_cm expected)) (cm_name (hm_cm expected))) in
        match observed, createErr with
        | Ok m, None =>
            if negb (sameAttempt m expected) || sempty createdUID || negb (seqb createdUID (cm_uid (hm_cm m)))
            then Done (Err (Plain "fresh-UID proof failed")) else Done (Ok true)
        | _, _ => Done (Err (Plain "fresh-UID proof failed"))
        end
  end.

(** ** Holding and occupying *)

Definition getTarget (namespace : string) (item : target) : free DirectAPI (result occupant) :=
  fcall (DGet (ta_kind item) namespace (ta_name item)).

Definition qualifyAs (state : string) (exp : Expectation) (item : target) (o : occupant) : option error :=
  if seqb state "tombstone-retained" then qualifyTombstone exp item o else qualifyOriginal item o.

(** The readback of a held occupant, once the UID of the held object is known. *)
Definition confirmHeld (exp : Expectation) (item : target) (state uid : string) : free DirectAPI (result Disposition) :=
  let+ readback := getTarget (ep_Namespace (ex_Epoch exp)) item in
  match readback with
  | Err _ => Done (Err (Plain "held occupant direct readback changed"))
  | Ok o =>
      if negb (seqb (GetUID o) uid) || GetDeleting o || negb (bool_decide (holdFinalizer ∈ GetFinalizers o))
      then Done (Err (Plain "held occupant direct readback changed"))
      else match qualifyAs state exp item o with
      | Some e => Done (Err e)
      | None =>
          chk+ qualifyStopAndNamespace exp
            else (fun e => Done (Err (Wrap "namespace/stop changed after occupant readback" e))) in
          Done (Ok (mkDisposition (ta_kind item) (ta_name item) (GetUID o) state))
      end
  end.

Definition retain (exp : Expectation) (item : target) (observed : occupant) : free DirectAPI (result Disposition) :=
  if GetDeleting observed || sempty (GetUID observed) || sempty (GetResourceVersion observed)
  then Done (Err (Plain "occupant is deleting or lacks exact identity"))
  else
    let state := if seqb (mget (GetLabels observed) markerKey) markerValue then "tombstone-retained" else "original-retained" in
    match qualifyAs state exp item observed with
    | Some e => Done (Err e)
    | None =>
        if bool_decide (holdFinalizer ∈ GetFinalizers observed) then confirmHeld exp item state (GetUID observed)
        else
          chk+ qualifyStopAndNamespace exp else (fun e => Done (Err (Wrap "namespace/stop changed before hold" e))) in
          let+ (uid, err) := fcall (DUpdate (SetFinalizers observed (GetFinalizers observed ++ [holdFinalizer]))) in
          match err with
          | Some e => Done (Err (Wrap "UID/RV-bounded hold" e))
          | None => confirmHeld exp item state uid
          end
    end.

Definition occupy (exp : Expectation) (item : target) : free DirectAPI (result Disposition) :=
  let+ observed := getTarget (ep_Namespace (ex_Epoch exp)) item in
  match observed with
  | Ok o => retain exp item o
  | Err e =>
      if negb (IsNotFound e) then Done (Err e)
      else
        let+ created := recordAttemptOnce exp item in
        match created with
        | Err e => Done (Err e)
        | Ok false => Done (Err (Plain "old attempt exists; no second tombstone Create"))
        | Ok true =>
            chk+ qualifyStopAndNamespace exp
              else (fun e => Done (Err (Wrap "namespace/stop changed before tombstone Create" e))) in
            let+ (uid, createErr) := fcall (DCreate (tombstone exp item)) in
            let+ readback := getTarget (ep_Namespace (ex_Epoch exp)) item in
            match readback with
            | Err e => Done (Err (Wrap "tombstone Create; direct read" e))
            | Ok o =>
                if is_nil createErr && sempty uid then Done (Err (Plain "successful Create response lacked UID"))
                else if is_nil createErr && negb (seqb uid (GetUID o))
                then Done (Err (Plain "Create response and direct occupant UID differ"))
                else retain exp item o
            end
        end
  end.

Fixpoint occupyAll (exp : Expectation) (targets : list target) (done : list Disposition)
    : free DirectAPI (list Disposition * option error) :=
  match targets with
  | [] => Done (done, None)
  | item :: rest =>
      let+ r := occupy exp item in
      match r with
      | Err e => Done (done, Some (Wrap "occupy" ErrUnknown))
      | Ok d => occupyAll exp rest (done ++ [d])
      end
  end.

Variable ed25519_Verify : string -> string -> string -> bool.

(** [api == nil] is not modelled: a program always has its interface. *)
Definition Drain (i : drainInput) : free DirectAPI (Report * option error) :=
  let exp := in_Expected i in
  if (in_MaxLiabilities i <? 1)%Z || (maxLiabilities <? in_MaxLiabilities i)%Z ||
     (in_MaxLiabilities i <? Z.of_nat (List.length (ex_Receipts exp)))%Z
  then Done (mkReport "preflight-blocked" "" [], Some ErrPreflight)
  else match VerifyDrainPermit ed25519_Verify (in_Permit i) exp (in_TrustRoots i) with
  | Err e => Done (mkReport "preflight-blocked" "" [], Some (Wrap "permit" ErrPreflight))
  | Ok evidence =>
      let digest := de_PermitDigest evidence in
      chk+ qualifyStopAndNamespace exp
        else (fun e => Done (mkReport "preflight-blocked" digest [], Some (Wrap "preflight" ErrPreflight))) in
      let+ targets := qualifyInventory i in
      match targets with
      | Err e => Done (mkReport "preflight-blocked" digest [], Some (Wrap "preflight" ErrPreflight))
      | Ok items =>
          let+ (dispositions, err) := occupyAll exp items [] in
          match err with
          | Some e => Done (mkReport "occupancy-unknown" digest dispositions, Some e)
          | None =>
              chk+ qualifyStopAndNamespace exp
                else (fun e => Done (mkReport "occupancy-unknown" digest dispositions, Some (Wrap "final readback" ErrUnknown))) in
              Done (mkReport "occupied-not-drained" digest dispositions, None)
          end
      end
  end.

End drain.
