(* ===== verification/DrainTheorems.v ===== *)
(** * What a drain may do and what its success means

    Theorems about all runs of [Drain], alone and interleaved, whatever the API
    server and other clients answer. *)
From S2P Require Import Prelude Free GoText Json Sha256 Types Kube Contract QueueReceipt Effects QueueLedger FairQueue GoTime Permit Drain.

(** * Runs of the drain

    [fruns p tr a]: the program issued exactly the requests of [tr], was answered
    as [tr] records and returned [a]; any answer is possible.  The lemmas give the
    shape of the traces of each step of the drain. *)
(** ** Requests of interest *)

Definition kindOf (o : occupant) : string := match o with OBuild _ => "KovaBuild" | OPod _ => "Pod" end.

(** A tombstone Create of a name; a Create of an attempt that succeeded. *)
Definition createsName (kind name : string) (x : exchange DirectAPI) : bool :=
  match x with
  | existT X (e, v) => match e with DCreate o => seqb (kindOf o) kind && seqb (GetName_ o) name | _ => false end
  end.
Definition winsAttempt (ns name : string) (x : exchange DirectAPI) : bool :=
  match x with
  | existT X (e, v) =>
      match e in DirectAPI X return X -> bool with
      | DCreateConfigMap m => fun v => seqb (cm_ns (hm_cm m)) ns && seqb (cm_name (hm_cm m)) name && is_nil (snd v)
      | _ => fun _ => false
      end v
  end.
(** Requests that write. *)
Definition isWrite (x : exchange DirectAPI) : bool :=
  match x with
  | existT X (e, v) => match e with DCreateConfigMap _ | DCreate _ | DUpdate _ => true | _ => false end
  end.
Definition reads (tr : list (exchange DirectAPI)) : Prop := Forall (fun x => isWrite x = false) tr.

Lemma reads_app tr1 tr2 : reads tr1 -> reads tr2 -> reads (tr1 ++ tr2).
Proof. intros. by apply Forall_app. Qed.

Lemma creates_is_write kind name x : createsName kind name x = true -> isWrite x = true.
Proof. destruct x as [X [e v]]. by destruct e. Qed.

Lemma wins_is_write ns name x : winsAttempt ns name x = true -> isWrite x = true.
Proof. destruct x as [X [e v]]. by destruct e. Qed.

Lemma reads_count p tr : (forall x, p x = true -> isWrite x = true) -> reads tr -> count p tr = 0.
Proof.
  intros Hp Hr. induction Hr as [|x tr Hx _ IH]; [done|]. rewrite count_cons, IH.
  destruct (p x) eqn:E; [|done]. rewrite Hp in Hx; done.
Qed.

(** ** The checks before every write *)

(** Three direct reads that found both namespaces and the stop intent in place. *)
Definition confirmed (exp : Expectation) (tr : list (exchange DirectAPI)) : Prop :=
  exists n r m,
    tr = [asked (DGetNamespace (ep_Namespace (ex_Epoch exp))) n;
          asked (DGetNamespace (ep_ReceiptNamespace (ex_Epoch exp))) r;
          asked (DGetConfigMap (st_Namespace (ex_StopIntent exp)) (st_Name (ex_StopIntent exp))) (Ok m)] /\
    namespaceOk n (ep_NamespaceUID (ex_Epoch exp)) = true /\
    namespaceOk r (ep_ReceiptNamespaceUID (ex_Epoch exp)) = true /\ stopOk (hm_cm m) exp = true.

Section facts.
Context `{External}.
Context (exp : Expectation).

Lemma qualifyStop_reads tr e : fruns (qualifyStopAndNamespace exp) tr e -> reads tr.
Proof. unfold qualifyStopAndNamespace. intros Hr. repeat free_step; by repeat constructor. Qed.

Lemma qualifyStop_ok tr : fruns (qualifyStopAndNamespace exp) tr None -> confirmed exp tr.
Proof.
  unfold qualifyStopAndNamespace. intros Hr. repeat free_step; try done.
  bool_simpl. eexists _, _, _. split; [done|]. done.
Qed.

Lemma confirmed_reads tr : confirmed exp tr -> reads tr.
Proof. intros (n & r & m & -> & _). by repeat constructor. Qed.

Lemma getTarget_runs ns item tr o : fruns (getTarget ns item) tr o -> tr = [asked (DGet (ta_kind item) ns (ta_name item)) o].
Proof. apply fruns_call. Qed.

(** ** Traces of an attempt *)

(** A won attempt: some reads, the checks, the successful Create and its readback. *)
Lemma recordAttempt_won item tr :
  fruns (recordAttemptOnce exp item) tr (Ok true) ->
  exists pre chk uid m, tr = pre ++ chk ++ [asked (DCreateConfigMap (newAttempt exp item)) (uid, None);
      asked (DGetConfigMap (ep_Namespace (ex_Epoch exp)) (attemptName exp item)) (Ok m)] /\
    reads pre /\ confirmed exp chk /\ cm_uid (hm_cm m) = uid.
Proof.
  unfold recordAttemptOnce. intros Hr. repeat free_step; try done.
  all: match goal with H : fruns (qualifyStopAndNamespace _) ?c None |- _ => apply qualifyStop_ok in H end.
  bool_simpl. simpl.
  eexists [_], _, _, _. split; [done|]. split; [by repeat constructor|]. split; [done|]. by subst.
Qed.
End facts.

(** ** The write discipline *)

Section discipline.
Context `{External} (templateDigest : drainPod -> result string) (exp : Expectation) (targets : list target).

(** An object read for [item] that the drain may hold: live, identified, and
    either the original its receipts describe or its own tombstone. *)
Definition holdable (item : target) (o : occupant) : Prop :=
  GetDeleting o = false /\ GetUID o <> "" /\ GetResourceVersion o <> "" /\
  (qualifyTombstone exp item o = None \/ qualifyOriginal templateDigest item o = None).

(** A write [x] after the exchanges [past] of the same run. *)
Definition lawful (past : list (exchange DirectAPI)) (x : exchange DirectAPI) : Prop :=
  (exists pre chk, past = pre ++ chk /\ confirmed exp chk) /\
  match x with
  | existT X (e, v) =>
      match e with
      | DCreateConfigMap m => exists item, item ∈ targets /\ m = newAttempt exp item
      | DCreate o => exists item uid, item ∈ targets /\ o = tombstone exp item /\
          asked (DCreateConfigMap (newAttempt exp item)) (uid, None) ∈ past
      | DUpdate o' => exists item o, item ∈ targets /\
          asked (DGet (ta_kind item) (ep_Namespace (ex_Epoch exp)) (ta_name item)) (Ok o) ∈ past /\ holdable item o /\
          holdFinalizer ∉ GetFinalizers o /\ o' = SetFinalizers o (GetFinalizers o ++ [holdFinalizer])
      | _ => True
      end
  end.

Definition disciplined : list (exchange DirectAPI) -> list (exchange DirectAPI) -> Prop :=
  follows (fun past x => isWrite x = true -> lawful past x).

Lemma disciplined_reads past tr : reads tr -> disciplined past tr.
Proof. intros Hr. apply follows_all. eapply Forall_impl; [exact Hr|]. simpl. congruence. Qed.

(** A write right after the checks. *)
Lemma disciplined_write past chk x :
  confirmed exp chk -> lawful (past ++ chk) x -> disciplined past (chk ++ [x]).
Proof. intros Hc Hx. apply follows_app; [by apply disciplined_reads, (confirmed_reads exp)|by split]. Qed.

Lemma confirmHeld_reads item state uid tr r : fruns (confirmHeld templateDigest exp item state uid) tr r -> reads tr.
Proof.
  unfold confirmHeld, getTarget. intros Hr. repeat free_step.
  all: try match goal with H : fruns (qualifyStopAndNamespace _) _ _ |- _ => apply qualifyStop_reads in H end.
  all: repeat constructor; rewrite ?app_nil_r; try done.
Qed.

Lemma retain_disciplined item o past tr r :
  item ∈ targets -> asked (DGet (ta_kind item) (ep_Namespace (ex_Epoch exp)) (ta_name item)) (Ok o) ∈ past ->
  fruns (retain templateDigest exp item o) tr r -> disciplined past tr.
Proof.
  intros Hi Hget Hr. unfold retain in Hr. destruct (_ || _) eqn:E0; [by repeat free_step|].
  destruct (qualifyAs _ _ _ _ _) eqn:Eq; [by repeat free_step|].
  assert (Hh : holdable item o).
  { bool_simpl. split_and!; try done. unfold qualifyAs in Eq.
    destruct (seqb (mget (GetLabels o) markerKey) markerValue); [by left|by right]. }
  case_bool_decide as Ef. { apply disciplined_reads. by eapply confirmHeld_reads. }
  free_bind Hr chk e Hc. destruct e as [e|].
  { free_step. rewrite app_nil_r. by eapply disciplined_reads, qualifyStop_reads. }
  apply qualifyStop_ok in Hc. free_bind Hr t2 ans Hu. free_step. destruct ans as [uid err].
  rewrite (app_assoc chk). apply follows_app.
  - apply disciplined_write; [done|]. split; [by exists past, chk|]. exists item, o. split_and!; try done. set_solver.
  - apply disciplined_reads. destruct err; [free_step; by constructor|]. by eapply confirmHeld_reads.
Qed.

Lemma recordAttempt_disciplined item past tr r :
  item ∈ targets -> fruns (recordAttemptOnce exp item) tr r -> disciplined past tr.
Proof.
  intros Hi Hr. unfold recordAttemptOnce in Hr. free_bind Hr t0 existing Hg. apply fruns_call in Hg as ->.
  apply follows_app; [by split|]. destruct existing as [m|e]; [apply disciplined_reads; repeat free_step; by constructor|].
  destruct (negb _); [by free_step|]. free_bind Hr chk e' Hc. destruct e' as [e'|].
  { free_step. rewrite app_nil_r. by eapply disciplined_reads, qualifyStop_reads. }
  apply qualifyStop_ok in Hc. free_bind Hr t2 ans Hu. apply fruns_call in Hu as ->. destruct ans as [uid err].
  rewrite (app_assoc chk). apply follows_app.
  - apply disciplined_write; [done|]. split; [by eexists _, chk|]. by exists item.
  - apply disciplined_reads. repeat free_step; by repeat constructor.
Qed.

Lemma occupy_disciplined item past tr r :
  item ∈ targets -> fruns (occupy templateDigest exp item) tr r -> disciplined past tr.
Proof.
  intros Hi Hr. unfold occupy, getTarget in Hr. free_bind Hr t0 observed Hg. apply fruns_call in Hg as ->.
  apply follows_app; [by split|]. destruct observed as [o|e].
  { eapply retain_disciplined; [done| |done]. set_solver. }
  destruct (negb _); [by free_step|]. free_bind Hr t1 created Ha.
  apply follows_app; [by eapply recordAttempt_disciplined|]. destruct created as [[|]|e']; [|by repeat free_step..].
  apply recordAttempt_won in Ha as (pre & chk0 & uid & m & -> & _).
  free_bind Hr chk e' Hc. destruct e' as [e'|].
  { free_step. rewrite app_nil_r. by eapply disciplined_reads, qualifyStop_reads. }
  apply qualifyStop_ok in Hc. free_bind Hr t2 ans Hu. apply fruns_call in Hu as ->. destruct ans as [uid' err].
  free_bind Hr t3 readback Hb. apply fruns_call in Hb as ->. rewrite (app_assoc chk). apply follows_app.
  - apply disciplined_write; [done|]. split; [by eexists _, chk|]. exists item, uid. split_and!; try done. set_solver.
  - apply follows_app; [by split|]. destruct readback as [o|]; [|by repeat free_step].
    repeat (destruct (_ && _); [by repeat free_step|]). eapply retain_disciplined; [done| |done]. set_solver.
Qed.

Lemma occupyAll_disciplined items : forall past done_ tr r,
  (forall item, item ∈ items -> item ∈ targets) -> fruns (occupyAll templateDigest exp items done_) tr r -> disciplined past tr.
Proof.
  induction items as [|item items IH]; intros past done_ tr r Hs Hr; cbn [occupyAll] in Hr; [by free_step|].
  free_bind Hr t1 d Ho. apply follows_app; [eapply occupy_disciplined; [apply Hs; left|done]|].
  destruct d as [d|e]; [|by free_step]. eapply IH; [|done]. intros i' Hi'. apply Hs. by right.
Qed.

(** ** What a disposition reports *)

(** The occupant of [item] was read back held, after which the stop intent and
    the namespaces were found unchanged. *)
Definition held (tr : list (exchange DirectAPI)) (item : target) (d : Disposition) : Prop :=
  di_Kind d = ta_kind item /\ di_Name d = ta_name item /\
  exists o, asked (DGet (ta_kind item) (ep_Namespace (ex_Epoch exp)) (ta_name item)) (Ok o) ∈ tr /\
    GetUID o = di_UID d /\ GetDeleting o = false /\ holdFinalizer ∈ GetFinalizers o /\
    qualifyAs templateDigest (di_State d) exp item o = None.

Lemma held_mono tr tr' item d : (forall x, x ∈ tr -> x ∈ tr') -> held tr item d -> held tr' item d.
Proof. intros Ht (Hk & Hn & o & Ho & Hrest). split_and!; try done. exists o. split; [by apply Ht|done]. Qed.

Lemma confirmHeld_held item state uid tr d :
  fruns (confirmHeld templateDigest exp item state uid) tr (Ok d) -> held tr item d.
Proof.
  unfold confirmHeld, getTarget. intros Hr. repeat free_step; try done. bool_simpl. split_and!; try done.
  eexists. split_and!; [by left|done..].
Qed.

Lemma retain_held item o tr d : fruns (retain templateDigest exp item o) tr (Ok d) -> held tr item d.
Proof.
  unfold retain. intros Hr. destruct (_ || _); [by repeat free_step|]. destruct (qualifyAs _ _ _ _ _); [by repeat free_step|].
  case_bool_decide; [by eapply confirmHeld_held|]. repeat free_step; try done.
  eapply held_mono; [|by eapply confirmHeld_held]. set_solver.
Qed.

Lemma occupy_held item tr d : fruns (occupy templateDigest exp item) tr (Ok d) -> held tr item d.
Proof.
  unfold occupy, getTarget. intros Hr. free_bind Hr t0 observed Hg. destruct observed as [o|e].
  { eapply held_mono; [|by eapply retain_held]. set_solver. }
  repeat free_step; try done. eapply held_mono; [|by eapply retain_held]. set_solver.
Qed.

Lemma occupyAll_held items : forall done_ tr out,
  fruns (occupyAll templateDigest exp items done_) tr (out, None) ->
  exists ds, out = done_ ++ ds /\ Forall2 (held tr) items ds.
Proof.
  induction items as [|item items IH]; intros done_ tr out Hr; cbn [occupyAll] in Hr.
  { free_step. exists []. by rewrite app_nil_r. }
  free_bind Hr t1 d Ho. destruct d as [d|e]; [|by free_step]. apply IH in Hr as (ds & -> & Hds).
  exists (d :: ds). split; [by rewrite <- app_assoc|]. constructor.
  - eapply held_mono; [|by eapply occupy_held]. set_solver.
  - eapply Forall2_impl; [exact Hds|]. intros i' d' Hh. eapply held_mono; [|exact Hh]. set_solver.
Qed.
End discipline.

(** ** Names of the targets *)

Definition targetKey (t : target) : string * string := (ta_kind t, ta_name t).

(** Every target is stored under its own name. *)
Definition named (kind : string) (m : gmap string target) : Prop := forall k t, m !! k = Some t -> targetKey t = (kind, k).

Lemma named_insert kind m k t : named kind m -> targetKey t = (kind, k) -> named kind (<[k := t]> m).
Proof.
  intros Hm Ht k' t' Hk. destruct (decide (k = k')) as [<-|Hne].
  - rewrite lookup_insert_eq in Hk. by injection Hk as <-.
  - rewrite lookup_insert_ne in Hk by done. by apply Hm.
Qed.

(** A loop that stores one named target per element. *)
Lemma fold_named {A} (f : option (gmap string target) -> A -> option (gmap string target)) (key : A -> string) kind l : forall m m',
  (forall a, f None a = None) ->
  (forall m a m', named kind m -> f (Some m) a = Some m' -> named kind m' /\ dom m' = {[key a]} ∪ dom m) ->
  named kind m -> foldl f (Some m) l = Some m' -> named kind m' /\ dom m' = dom m ∪ list_to_set (key <$> l).
Proof.
  induction l as [|a l IH]; intros m m' Hn Hf Hm Hfold; simpl in *.
  { injection Hfold as <-. split; [done|set_solver]. }
  destruct (f (Some m) a) as [m1|] eqn:E.
  - destruct (Hf _ _ _ Hm E) as [Hm1 Hd]. destruct (IH _ _ Hn Hf Hm1 Hfold) as [? Hd']. split; [done|]. rewrite Hd', Hd. set_solver.
  - assert (Hnone : foldl f None l = None) by (clear -Hn; induction l as [|b l IH]; simpl; [done|by rewrite Hn]). congruence.
Qed.

Section names.
Context (e : EpochIdentity).

Lemma linkQueue_named m q m' :
  named "KovaBuild" m -> linkQueue e (Some m) q = Some m' -> named "KovaBuild" m' /\ dom m' = {[qi_BuildName q]} ∪ dom m.
Proof.
  unfold linkQueue. intros Hm. destruct (_ || _); [done|]. intros [= <-]. split; [by apply named_insert|apply dom_insert_L].
Qed.

Lemma linkGrant_named refs m g m' :
  named "KovaBuild" m -> linkGrant e refs (Some m) g = Some m' ->
  named "KovaBuild" m' /\ dom m' = {[pb_BuildName (gi_Build g)]} ∪ dom m.
Proof.
  unfold linkGrant. intros Hm. destruct (negb _); [done|]. set (item := default _ _).
  assert (Hi : targetKey item = ("KovaBuild", pb_BuildName (gi_Build g))).
  { subst item. destruct (m !! _) as [t|] eqn:E; cbn [default]; [|done]. by apply Hm in E. }
  intros Hl. repeat (case_match; try done). all: injection Hl as <-; split; [by apply named_insert|apply dom_insert_L].
Qed.

Lemma linkPod_named builds refs m p m' :
  named "Pod" m -> linkPod builds refs (Some m) p = Some m' -> named "Pod" m' /\ dom m' = {[pi_PodName p]} ∪ dom m.
Proof.
  unfold linkPod. intros Hm. destruct (builds !! _) as [[k n q [g|] ps]|]; [|done..]. destruct (_ || _); [done|].
  intros [= <-]. split; [|apply dom_insert_L]. apply named_insert; [done|].
  destruct (m !! _) as [t|] eqn:E; cbn [default]; [|done]. by apply Hm in E.
Qed.
End names.

Lemma named_entries kind m : named kind m -> targetKey <$> (sorted_entries m).*2 = pair kind <$> (sorted_entries m).*1.
Proof.
  intros Hm. rewrite <- !list_fmap_compose. apply list_fmap_ext. intros i [k t] Hi. simpl.
  apply Hm. apply elem_of_sorted_entries. by eapply list_elem_of_lookup_2.
Qed.

Lemma sorted_keys {V} (m : gmap string V) k : k ∈ (sorted_entries m).*1 <-> k ∈ dom m.
Proof.
  rewrite list_elem_of_fmap, elem_of_dom. split.
  - intros ([k' v] & -> & Hin). exists v. by apply elem_of_sorted_entries in Hin.
  - intros [v Hv]. exists (k, v). split; [done|]. by apply elem_of_sorted_entries.
Qed.

(** The names an input accounts for. *)
Definition liable (i : drainInput) (kn : string * string) : Prop :=
  (exists q, q ∈ in_Queues i /\ kn = ("KovaBuild", qi_BuildName q)) \/
  (exists g, g ∈ in_Grants i /\ kn = ("KovaBuild", pb_BuildName (gi_Build g))) \/
  (exists p, p ∈ in_PodCreates i /\ kn = ("Pod", pi_PodName p)).

Lemma linkTargets_names i targets :
  linkTargets i = Some targets -> NoDup (targetKey <$> targets) /\ forall kn, kn ∈ targetKey <$> targets <-> liable i kn.
Proof.
  unfold linkTargets. destruct (foldl (linkGrant _ _) _ _) as [builds|] eqn:Eb; [|done].
  destruct (foldl (linkPod _ _) _ _) as [pods|] eqn:Ep; [|done]. intros [= <-].
  assert (He : forall kind, named kind ∅) by (intros kind k t; by rewrite lookup_empty).
  destruct (foldl (linkQueue _) _ _) as [queues|] eqn:Eq.
  2: { assert (Hn : forall l, foldl (linkGrant (ex_Epoch (in_Expected i)) (refsByName "queue" (ex_Receipts (in_Expected i)))) None l = None)
         by (intros l; induction l; done). by rewrite Hn in Eb. }
  apply (fold_named _ qi_BuildName "KovaBuild") in Eq as [Hq Dq]; [|done|intros; by eapply linkQueue_named|done].
  apply (fold_named _ (fun g => pb_BuildName (gi_Build g)) "KovaBuild") in Eb as [Hb Db]; [|done|intros; by eapply linkGrant_named|done].
  apply (fold_named _ pi_PodName "Pod") in Ep as [Hp Dp]; [|done|intros; by eapply linkPod_named|done].
  rewrite fmap_app, !(named_entries _ _ Hb), !(named_entries _ _ Hp). split.
  - apply NoDup_app. split_and!; [apply NoDup_fmap; [apply _|apply sorted_entries_nodup]| |apply NoDup_fmap; [apply _|apply sorted_entries_nodup]].
    intros kn (k1 & -> & _)%list_elem_of_fmap (k2 & ? & _)%list_elem_of_fmap. done.
  - intros [k n]. rewrite elem_of_app, !list_elem_of_fmap. unfold liable.
    assert (H1 : forall n, n ∈ (sorted_entries builds).*1 <-> (exists q, q ∈ in_Queues i /\ n = qi_BuildName q) \/ (exists g, g ∈ in_Grants i /\ n = pb_BuildName (gi_Build g))).
    { intros n'. rewrite sorted_keys, Db, Dq. set_solver. }
    assert (H2 : forall n, n ∈ (sorted_entries pods).*1 <-> exists p, p ∈ in_PodCreates i /\ n = pi_PodName p).
    { intros n'. rewrite sorted_keys, Dp. set_solver. }
    setoid_rewrite H1. setoid_rewrite H2. naive_solver.
Qed.

(** ** Runs of the whole drain *)

Section run.
Context `{External} (templateDigest : drainPod -> result string) (verify : string -> string -> string -> bool) (i : drainInput).

Lemma readReceipts_reads provided receipts : forall tr e, fruns (readReceipts provided receipts) tr e -> reads tr.
Proof.
  induction receipts as [|ref receipts IH]; intros tr e Hr; cbn [readReceipts] in Hr; [free_step; by constructor|].
  free_bind Hr t0 m Hg. apply fruns_call in Hg as ->. apply reads_app; [by repeat constructor|].
  repeat free_step; try (by constructor). by eapply IH.
Qed.

Lemma qualifyInventory_reads tr r : fruns (qualifyInventory i) tr r -> reads tr.
Proof.
  unfold qualifyInventory. intros Hr. destruct (provide _ _); [|free_step; by constructor].
  destruct (negb _); [free_step; by constructor|]. destruct (refsOf _ _); [|free_step; by constructor].
  free_bind Hr t0 listed Hl. apply fruns_call in Hl as ->. apply reads_app; [by repeat constructor|].
  destruct listed as [[items continue]|]; [|free_step; by constructor]. destruct (_ || _); [free_step; by constructor|].
  destruct (seenReceipts _ _ _); [|free_step; by constructor]. destruct (negb _); [free_step; by constructor|].
  free_bind Hr t1 e He. apply reads_app; [by eapply readReceipts_reads|]. repeat free_step; by constructor.
Qed.

Lemma qualifyInventory_targets tr targets : fruns (qualifyInventory i) tr (Ok targets) -> linkTargets i = Some targets.
Proof. unfold qualifyInventory. intros Hr. by repeat free_step. Qed.

Definition accepted : Prop := exists ev, VerifyDrainPermit verify (in_Permit i) (in_Expected i) (in_TrustRoots i) = Ok ev.

(** A run only reads, and fails, or reads, occupies the linked targets, and reads. *)
Lemma drain_shape tr rep err :
  fruns (Drain templateDigest verify i) tr (rep, err) ->
  reads tr /\ err <> None \/
  accepted /\ exists targets pre mid post out r, linkTargets i = Some targets /\ tr = pre ++ mid ++ post /\ reads pre /\ reads post /\
    fruns (occupyAll templateDigest (in_Expected i) targets []) mid (out, r) /\ rp_Dispositions rep = out /\
    (err = None -> r = None /\ rp_Stage rep = "occupied-not-drained" /\ confirmed (in_Expected i) post).
Proof.
  unfold Drain. intros Hr. destruct (_ || _); [free_step; left; split; [by constructor|done]|].
  destruct (VerifyDrainPermit _ _ _ _) as [ev|] eqn:Ev; [|free_step; left; split; [by constructor|done]].
  free_bind Hr t1 e1 H1. pose proof (qualifyStop_reads _ _ _ H1) as R1.
  destruct e1 as [e1|]; [free_step; left; split; [by rewrite app_nil_r|done]|].
  free_bind Hr t2 inv H2. pose proof (qualifyInventory_reads _ _ H2) as R2.
  destruct inv as [targets|e2]; [|free_step; left; split; [rewrite app_nil_r; by apply reads_app|done]].
  apply qualifyInventory_targets in H2. free_bind Hr t3 out H3. destruct out as [out r]. right. split; [by exists ev|].
  exists targets, (t1 ++ t2), t3. destruct r as [e3|].
  - free_step. exists [], out, (Some e3). rewrite <- app_assoc. split_and!; try done; [by apply reads_app|by constructor].
  - free_bind Hr t4 e4 H4. pose proof (qualifyStop_reads _ _ _ H4) as R4.
    exists t4, out, None. destruct e4 as [e4|]; free_step; rewrite app_nil_r, <- app_assoc; split_and!; try done; try (by apply reads_app).
    intros _. split_and!; try done. by apply qualifyStop_ok.
Qed.

End run.

(** ** Tombstones and attempts *)

Section count.
Context `{External} (templateDigest : drainPod -> result string) (exp : Expectation).

Lemma confirmHeld_count kind name item state uid tr r :
  fruns (confirmHeld templateDigest exp item state uid) tr r -> count (createsName kind name) tr = 0.
Proof. intros Hr. apply reads_count; [apply creates_is_write|]. by eapply confirmHeld_reads. Qed.

Lemma retain_count kind name item o tr r :
  fruns (retain templateDigest exp item o) tr r -> count (createsName kind name) tr = 0.
Proof.
  unfold retain. intros Hr. destruct (_ || _); [by free_step|]. destruct (qualifyAs _ _ _ _ _); [by free_step|].
  case_bool_decide; [by eapply confirmHeld_count|]. free_bind Hr t1 e H1. rewrite count_app.
  rewrite (reads_count _ _ (creates_is_write kind name) (qualifyStop_reads _ _ _ H1)). destruct e; [by free_step|].
  free_bind Hr t2 ans H2. apply fruns_call in H2 as ->. destruct ans as [uid [e|]]; [by free_step|].
  rewrite count_app, (confirmHeld_count _ _ _ _ _ _ _ Hr). done.
Qed.

Definition attemptOf (kind name : string) : exchange DirectAPI -> bool :=
  winsAttempt (ep_Namespace (ex_Epoch exp)) (OccupancyAttemptName (ex_Epoch exp) kind name).

Lemma newAttempt_key item :
  (cm_ns (hm_cm (newAttempt exp item)), cm_name (hm_cm (newAttempt exp item))) = (ep_Namespace (ex_Epoch exp), attemptName exp item).
Proof. done. Qed.

Lemma tombstone_key item :
  ta_kind item = "KovaBuild" \/ ta_kind item = "Pod" -> (kindOf (tombstone exp item), GetName_ (tombstone exp item)) = targetKey item.
Proof. unfold tombstone, targetKey. by intros [-> | ->]. Qed.

Lemma recordAttempt_count kind name item tr r :
  fruns (recordAttemptOnce exp item) tr r -> count (createsName kind name) tr = 0.
Proof.
  unfold recordAttemptOnce. intros Hr. free_bind Hr t0 existing Hg. apply fruns_call in Hg as ->. rewrite count_app.
  destruct existing as [m|e]; [by repeat free_step|]. destruct (negb _); [by free_step|]. free_bind Hr t1 e' H1.
  rewrite count_app, (reads_count _ _ (creates_is_write kind name) (qualifyStop_reads _ _ _ H1)).
  destruct e'; [by free_step|]. by repeat free_step.
Qed.

(** Per target, a tombstone Create follows a won attempt of that very name. *)
Lemma occupy_count kind name item tr r :
  ta_kind item = "KovaBuild" \/ ta_kind item = "Pod" -> fruns (occupy templateDigest exp item) tr r ->
  count (createsName kind name) tr <= count (attemptOf kind name) tr.
Proof.
  intros Hk Hr. unfold occupy, getTarget in Hr. free_bind Hr t0 observed Hg. apply fruns_call in Hg as ->.
  rewrite !count_app. apply Nat.add_le_mono; [done|]. destruct observed as [o|e].
  { rewrite (retain_count _ _ _ _ _ _ Hr). lia. }
  destruct (negb _); [by free_step|]. free_bind Hr t1 created Ha. rewrite !count_app, (recordAttempt_count _ _ _ _ _ Ha).
  destruct created as [[|]|e']; [|free_step; rewrite ?count_nil; lia..]. apply recordAttempt_won in Ha as (pre & chk & uid & m & -> & _).
  free_bind Hr t2 e' H2. rewrite count_app, (reads_count _ _ (creates_is_write kind name) (qualifyStop_reads _ _ _ H2)).
  destruct e' as [e'|]; [free_step; rewrite ?count_nil; lia|]. free_bind Hr t3 ans H3. apply fruns_call in H3 as ->. destruct ans as [uid' err].
  free_bind Hr t4 readback H4. apply fruns_call in H4 as ->. rewrite count_app.
  assert (Hrest : count (createsName kind name) ([asked (DGet (ta_kind item) (ep_Namespace (ex_Epoch exp)) (ta_name item)) readback] ++ x) = 0).
  { rewrite count_app. destruct readback as [o|]; [|by repeat free_step].
    repeat (destruct (_ && _); [by repeat free_step|]). rewrite (retain_count _ _ _ _ _ _ Hr). done. }
  rewrite Hrest, !count_app, !count_cons. pose proof (tombstone_key item Hk) as Hkey.
  destruct (createsName kind name _) eqn:Ec; [|rewrite ?count_nil; simpl; lia].
  assert (Hw : attemptOf kind name (asked (DCreateConfigMap (newAttempt exp item)) (uid, None)) = true).
  { cbn in Ec. unfold seqb in Ec. apply andb_true_iff in Ec as [E1 E2]. apply bool_decide_eq_true in E1, E2.
    rewrite E1, E2 in Hkey. injection Hkey as -> ->. cbn. unfold seqb, attemptName. by rewrite !bool_decide_eq_true_2. }
  rewrite Hw. rewrite ?count_nil. simpl. lia.
Qed.

Lemma occupyAll_count kind name items : forall done_ tr r,
  Forall (fun t => ta_kind t = "KovaBuild" \/ ta_kind t = "Pod") items -> fruns (occupyAll templateDigest exp items done_) tr r ->
  count (createsName kind name) tr <= count (attemptOf kind name) tr.
Proof.
  induction items as [|item items IH]; intros done_ tr r Hk Hr; cbn [occupyAll] in Hr; [by free_step|].
  inversion Hk as [|? ? Hk1 Hk2]; subst. free_bind Hr t1 d Ho. rewrite !count_app.
  pose proof (occupy_count kind name _ _ _ Hk1 Ho). destruct d as [d|e]; [|free_step; rewrite ?count_nil; lia].
  specialize (IH _ _ _ Hk2 Hr). lia.
Qed.
End count.

Lemma linkTargets_kinds i targets :
  linkTargets i = Some targets -> Forall (fun t => ta_kind t = "KovaBuild" \/ ta_kind t = "Pod") targets.
Proof.
  intros Hl. apply linkTargets_names in Hl as [_ Hin]. apply Forall_forall. intros t Ht.
  assert (Hk : liable i (targetKey t)) by (apply Hin, list_elem_of_fmap; by exists t).
  destruct Hk as [(? & _ & [= -> _])|[(? & _ & [= -> _])|(? & _ & [= -> _])]]; auto.
Qed.

Lemma drain_count `{External} templateDigest verify i tr out kind name :
  fruns (Drain templateDigest verify i) tr out ->
  count (createsName kind name) tr <= count (attemptOf (in_Expected i) kind name) tr.
Proof.
  destruct out as [rep err]. intros [[Hr _]|(_ & targets & pre & mid & post & out & r & Hl & -> & Hpre & Hpost & Hmid & _)]%drain_shape.
  { rewrite (reads_count _ _ (creates_is_write kind name) Hr). lia. }
  rewrite !count_app, (reads_count _ _ (creates_is_write kind name) Hpre), (reads_count _ _ (creates_is_write kind name) Hpost).
  pose proof (occupyAll_count templateDigest (in_Expected i) kind name _ _ _ _ (linkTargets_kinds _ _ Hl) Hmid). lia.
Qed.

(** C15: A name gets at most one tombstone Create.  Let any number of drains of one
    epoch run, concurrently or one after the other, with any answers, and let the
    API server accept at most one Create of the attempt object of a name (it
    accepts a Create only while the name is free, and the attempt is held by a
    finalizer).  Then all of them together send at most one Create of a tombstone
    for that name, however many responses are lost and drains restarted. *)
Theorem drain_one_tombstone `{External} templateDigest verify epoch (runs : list (drainInput * list (exchange DirectAPI))) h kind name :
  Forall (fun r => ex_Epoch (in_Expected r.1) = epoch /\ exists out, fruns (Drain templateDigest verify r.1) r.2 out) runs ->
  h ≡ₚ List.concat runs.*2 ->
  count (winsAttempt (ep_Namespace epoch) (OccupancyAttemptName epoch kind name)) h <= 1 ->
  count (createsName kind name) h <= 1.
Proof.
  intros Hruns Hh Hone. rewrite (count_perm _ _ _ Hh). rewrite (count_perm _ _ _ Hh) in Hone. etransitivity; [|exact Hone]. clear Hh Hone h.
  induction Hruns as [|[i tr] runs [He [out Hr]] _ IH]; [done|]. rewrite fmap_cons. cbn [List.concat fst snd] in *. rewrite !count_app.
  apply (drain_count _ _ _ _ _ kind name) in Hr. unfold attemptOf in Hr. rewrite He in Hr. lia.
Qed.

(** C16: Every write of a drain is lawful.  A drain writes only after its permit was
    verified and its receipts were linked, each write directly follows reads that
    found both namespaces and the stop intent in place, and it is one of three: the
    attempt record of a linked name; the inert tombstone of a linked name after its
    attempt was created by this run; or the hold finalizer added to an object that
    was read under a linked name, is live and identified, and is the original of
    its receipts or the drain's own tombstone, with nothing else changed. *)
Theorem drain_writes_lawful `{External} templateDigest verify i tr out pre x post :
  fruns (Drain templateDigest verify i) tr out -> tr = pre ++ x :: post -> isWrite x = true ->
  accepted verify i /\ exists targets, linkTargets i = Some targets /\ lawful templateDigest (in_Expected i) targets pre x.
Proof.
  destruct out as [rep err]. intros Hr Htr Hw. apply drain_shape in Hr as [[Hr _]|(Ha & targets & p & mid & q & out & r & Hl & Hs & Hp & Hq & Hmid & _)].
  { rewrite Htr in Hr. apply Forall_app in Hr as [_ Hr]. inversion Hr; congruence. }
  split; [done|]. exists targets. split; [done|]. apply (follows_at (fun past x => isWrite x = true -> lawful templateDigest (in_Expected i) targets past x) [] tr pre x post); [|done|done].
  rewrite Hs. apply follows_app; [by apply disciplined_reads|]. apply follows_app; [|by apply disciplined_reads].
  by eapply occupyAll_disciplined.
Qed.

(** C17: A successful drain occupies every name.  When [Drain] returns without
    error, its dispositions are, one for one and without repetition, the build and
    Pod names of the supplied receipts, and for each of them the occupant was read
    back live under the hold finalizer with the reported UID, as the original its
    receipts describe or as the drain's tombstone; the namespaces and the stop
    intent were found in place once more at the end. *)
Theorem drain_occupies_every_name `{External} templateDigest verify i tr rep :
  fruns (Drain templateDigest verify i) tr (rep, None) ->
  rp_Stage rep = "occupied-not-drained" /\ accepted verify i /\
  NoDup ((fun d => (di_Kind d, di_Name d)) <$> rp_Dispositions rep) /\
  (forall kn, kn ∈ (fun d => (di_Kind d, di_Name d)) <$> rp_Dispositions rep <-> liable i kn) /\
  (exists targets, linkTargets i = Some targets /\ Forall2 (held templateDigest (in_Expected i) tr) targets (rp_Dispositions rep)) /\
  exists pre chk, tr = pre ++ chk /\ confirmed (in_Expected i) chk.
Proof.
  intros [[_ Hr]|(Ha & targets & p & mid & q & out & r & Hl & -> & Hp & Hq & Hmid & Hout & Hok)]%drain_shape; [done|].
  destruct (Hok eq_refl) as (-> & Hst & Hc). apply occupyAll_held in Hmid as (ds & Hds & Hheld). simpl in Hds. rewrite Hout, Hds.
  assert (Hkeys : (fun d => (di_Kind d, di_Name d)) <$> ds = targetKey <$> targets).
  { clear -Hheld. induction Hheld as [|t d ts ds (Hk & Hn & _) _ IH]; [done|]. rewrite !fmap_cons, IH. unfold targetKey. by rewrite Hk, Hn. }
  rewrite Hkeys. destruct (linkTargets_names _ _ Hl) as [Hnd Hin]. split_and!; try done.
  - exists targets. split; [done|]. eapply Forall2_impl; [exact Hheld|]. intros t d Hh. eapply held_mono; [|exact Hh]. set_solver.
  - exists (p ++ mid), q. by rewrite app_assoc.
Qed.
