(* ===== verification/DrainWitness.v ===== *)
(** * A drain on a reference server

    An executable server for [DirectAPI] and one stopped epoch with a single
    queued build that no longer exists; the drain occupies its name.  The run
    shows that the hypotheses of the drain theorems hold together. *)
From S2P Require Import Prelude Free GoText Json Sha256 Types Kube Contract Server QueueReceipt Effects QueueLedger FairQueue GoTime Permit Drain DrainTheorems.

(** ** The server *)

Record dworld := mkDWorld {
  dw_maps : gmap okey heldMap;
  dw_objects : gmap (string * okey) occupant;
  dw_next : N }.

Definition stampMap (m : heldMap) (n : N) : heldMap :=
  let c := hm_cm m in
  mkHeld (mkConfigMap (cm_ns c) (cm_name c) ("uid-" +:+ dec_of_N n) (dec_of_N n) (cm_labels c) (cm_annotations c) (cm_owners c)
    (cm_deleting c) (cm_immutable c) (cm_data c) (cm_binary c)) (hm_finalizers m).
Definition stamp (o : occupant) (uid : string) (n : N) : occupant :=
  match o with
  | OBuild b => OBuild (mkBuild (kb_ns b) (kb_name b) uid (dec_of_N n) (kb_labels b) (kb_annotations b) (kb_finalizers b)
      (kb_owners b) (kb_created b) (kb_deleting b) (kb_spec b) (kb_phase b) (kb_allocated b) (kb_runnerPod b))
  | OPod p => OPod (mkDrainPod (dpod_ns p) (dpod_name p) uid (dec_of_N n) (dpod_labels p) (dpod_annotations p) (dpod_finalizers p)
      (dpod_owners p) (dpod_deleting p) (dpod_restart p) (dpod_containers p) (dpod_initContainers p) (dpod_ephemeral p)
      (dpod_gates p) (dpod_nodeSelector p) (dpod_automount p) (dpod_nodeName p) (dpod_hostNetwork p) (dpod_hostPID p)
      (dpod_hostIPC p) (dpod_rest p))
  end.
Definition occKey (o : occupant) : string * okey := (kindOf o, (GetNamespace_ o, GetName_ o)).

Definition dserve (X : Type) (e : DirectAPI X) (w : dworld) : X * dworld :=
  match e in DirectAPI X return X * dworld with
  | DGetNamespace n => (Ok (mkNamespace n ("uid-" +:+ n) false NamespaceActive), w)
  | DGetConfigMap ns n => (match dw_maps w !! (ns, n) with Some m => Ok m | None => Err (ApiErr NotFound) end, w)
  | DListConfigMaps ns _ =>
      (Ok (List.filter (fun c => seqb (cm_ns c) ns) ((fun m => hm_cm (snd m)) <$> map_to_list (dw_maps w)), ""), w)
  | DGet kind ns n => (match dw_objects w !! (kind, (ns, n)) with Some o => Ok o | None => Err (ApiErr NotFound) end, w)
  | DCreateConfigMap m =>
      match dw_maps w !! cm_key (hm_cm m) with
      | Some _ => (("", Some (ApiErr AlreadyExists)), w)
      | None => let m' := stampMap m (dw_next w) in
                ((cm_uid (hm_cm m'), None), mkDWorld (<[cm_key (hm_cm m) := m']> (dw_maps w)) (dw_objects w) (dw_next w + 1))
      end
  | DCreate o =>
      match dw_objects w !! occKey o with
      | Some _ => (("", Some (ApiErr AlreadyExists)), w)
      | None => let o' := stamp o ("uid-" +:+ dec_of_N (dw_next w)) (dw_next w) in
                ((GetUID o', None), mkDWorld (dw_maps w) (<[occKey o := o']> (dw_objects w)) (dw_next w + 1))
      end
  | DUpdate o =>
      match dw_objects w !! occKey o with
      | None => (("", Some (ApiErr NotFound)), w)
      | Some old =>
          if seqb (GetResourceVersion old) (GetResourceVersion o)
          then ((GetUID old, None), mkDWorld (dw_maps w) (<[occKey o := stamp o (GetUID old) (dw_next w)]> (dw_objects w)) (dw_next w + 1))
          else (("", Some (ApiErr Conflict)), w)
      end
  end.

(** ** The epoch *)

Definition hex32 : string := "0123456789abcdef0123456789abcdef".
Definition zeroDigest : string := "sha256:" +:+ hex32 +:+ hex32.

Definition sampleEpoch : EpochIdentity :=
  mkEpoch "kova" "uid-kova" "kova-receipts" "uid-kova-receipts" "kova-genesis" "g1" hex32 "a1" "q1" "pool-1".
Definition sampleQueue : QueueIntent :=
  {| qi_Namespace := "kova"; qi_NamespaceUID := "uid-kova"; qi_ReceiptNamespace := "kova-receipts";
     qi_ReceiptNamespaceUID := "uid-kova-receipts"; qi_GenesisName := "kova-genesis"; qi_GenesisUID := "g1";
     qi_Generation := hex32; qi_ActiveLedgerUID := "a1"; qi_QueueLedgerUID := "q1"; qi_BuildName := "job-1";
     qi_RequesterName := "alice"; qi_RequesterHash := sha256_hex "alice"; qi_RequesterUID := "";
     qi_RequestDigest := hex32 +:+ hex32; qi_SourceDigest := zeroDigest; qi_QueueNonce := hex32 |}.

Definition okOr {A} (d : A) (r : result A) : A := match r with Ok a => a | Err _ => d end.
Definition noMap : ConfigMap := mkConfigMap "" "" "" "" ∅ ∅ [] false None ∅ ∅.
Definition withIdentity (c : ConfigMap) (uid : string) : ConfigMap :=
  mkConfigMap (cm_ns c) (cm_name c) uid "1" (cm_labels c) (cm_annotations c) (cm_owners c) false (cm_immutable c) (cm_data c) (cm_binary c).

Definition sampleReceipt : ConfigMap := withIdentity (okOr noMap (NewQueueConfigMap sampleQueue)) "receipt-1".
Definition sampleStop : ConfigMap :=
  mkConfigMap "kova" "stop" "stop-1" "1" ∅ ∅ [] false (Some true) {["reason" := "incident"]} ∅.
Definition sampleRef : ReceiptRef :=
  mkRef "queue" "kova-receipts" (cm_name sampleReceipt) "receipt-1" (okOr "" (DigestData (cm_data sampleReceipt))).
Definition sampleStopRef : StopIntentRef := mkStop "kova" "stop" "stop-1" (okOr "" (DigestData (cm_data sampleStop))).

Definition sampleObject (n : string) : KubeObjectRef := mkObjectRef "kova" n "o1".
Definition samplePayload : DrainPayload :=
  {| dp_Version := permitVersion; dp_Audience := permitAudience; dp_Action := permitAction; dp_Issuer := "issuer"; dp_KeyID := "key";
     dp_IncidentID := "incident-1"; dp_StopIntent := sampleStopRef; dp_Epoch := sampleEpoch; dp_ReceiptCount := 1;
     dp_ReceiptSetDigest := okOr "" (DigestReceiptSet sampleEpoch [sampleRef]);
     dp_WorkerRetirement := mkRetired workerProofType "pool-1" hex32 ["w1"] 4 "terminated" zeroDigest workerAssertion "2024-01-01T00:00:00Z";
     dp_OldWritersStopped := mkWriters writersProofType sampleStopRef [sampleObject "route"] [sampleObject "control"]
       [mkProcess (sampleObject "pod") "c1" "p1"] zeroDigest writersAssertion "2024-01-01T00:00:00Z";
     dp_IssuedAt := "2024-01-02T00:00:00Z" |}.
Definition sampleKey : string := hex32.
Definition sampleEnvelope : Envelope := mkEnvelope samplePayload (b64_encode (hex32 +:+ hex32)).
Definition sampleRaw : string := json_print (json_of_envelope sampleEnvelope).

Definition sampleInput : drainInput :=
  {| in_Permit := sampleRaw;
     in_Expected := mkExpectation ("sha256:" +:+ sha256_hex sampleRaw) "incident-1" sampleStopRef sampleEpoch [sampleRef] ["w1"] 4
       [sampleObject "route"] [sampleObject "control"] [mkProcess (sampleObject "pod") "c1" "p1"];
     in_TrustRoots := {["issuer" := {["key" := sampleKey]}]};
     in_MaxLiabilities := 16; in_Queues := [sampleQueue]; in_Grants := []; in_PodCreates := [] |}.

Definition sampleWorld : dworld :=
  mkDWorld (<[("kova-receipts", cm_name sampleReceipt) := mkHeld sampleReceipt []]> {[("kova", "stop") := mkHeld sampleStop []]}) ∅ 7.

Definition anyDigest (_ : drainPod) : result string := Err (Plain "unused").
(** Accepts exactly the sample signature. *)
Definition sampleVerify (key message signature : string) : bool := seqb key sampleKey && seqb signature (hex32 +:+ hex32).

Definition sampleRun : list (exchange DirectAPI) * (Report * option error) * dworld :=
  fexec dserve (Drain anyDigest sampleVerify sampleInput) sampleWorld.
Definition sampleTrace : list (exchange DirectAPI) := Eval vm_compute in sampleRun.1.1.
Definition sampleReport : Report := Eval vm_compute in sampleRun.1.2.1.

(** What the run did: it wrote the attempt, created the tombstone and held it. *)
Example sample_report :
  rp_Stage sampleReport = "occupied-not-drained" /\
  rp_Dispositions sampleReport = [mkDisposition "KovaBuild" "job-1" "uid-8" "tombstone-retained"].
Proof. split; reflexivity. Qed.

Lemma sample_drain : fruns (Drain anyDigest sampleVerify sampleInput) sampleTrace (sampleReport, None).
Proof.
  pose proof (fexec_runs dserve (Drain anyDigest sampleVerify sampleInput) sampleWorld) as Hr. fold sampleRun in Hr.
  assert (E : sampleRun.1 = (sampleTrace, (sampleReport, None))) by (vm_compute; reflexivity). by rewrite E in Hr.
Qed.

(** The exchanges of the sample run before, at and after its tombstone Create. *)
Definition sampleBefore : list (exchange DirectAPI) := take 15 sampleTrace.
Definition sampleCreate : exchange DirectAPI := default (asked (DCreate (tombstone (in_Expected sampleInput) (mkTarget_ "KovaBuild" "job-1" None None []))) ("", None)) (sampleTrace !! 15).
Definition sampleAfter : list (exchange DirectAPI) := drop 16 sampleTrace.

Lemma drain_one_tombstone_witness : count (createsName "KovaBuild" "job-1") sampleTrace <= 1.
Proof.
  apply (drain_one_tombstone anyDigest sampleVerify sampleEpoch [(sampleInput, sampleTrace)]).
  - constructor; [|constructor]. split; [reflexivity|]. eexists. exact sample_drain.
  - change (sampleTrace ≡ₚ sampleTrace ++ []). rewrite app_nil_r. reflexivity.
  - vm_compute. repeat constructor.
Defined.

Lemma drain_writes_lawful_witness :
  accepted sampleVerify sampleInput /\
  exists targets, linkTargets sampleInput = Some targets /\ lawful anyDigest (in_Expected sampleInput) targets sampleBefore sampleCreate.
Proof.
  apply (drain_writes_lawful anyDigest sampleVerify sampleInput sampleTrace (sampleReport, None) sampleBefore sampleCreate sampleAfter).
  - exact sample_drain.
  - vm_compute. reflexivity.
  - vm_compute. reflexivity.
Defined.

Lemma drain_occupies_every_name_witness :
  rp_Stage sampleReport = "occupied-not-drained" /\
  exists targets, linkTargets sampleInput = Some targets /\
    Forall2 (held anyDigest (in_Expected sampleInput) sampleTrace) targets (rp_Dispositions sampleReport).
Proof.
  destruct (drain_occupies_every_name anyDigest sampleVerify sampleInput sampleTrace sampleReport sample_drain) as (Hs & _ & _ & _ & Ht & _).
  exact (conj Hs Ht).
Defined.
