(* ===== verification/Disposal.v ===== *)
(** * Disposal authorization and closure

    Models [src/internal/service/recoverydisposal/disposal.go]: two externally
    signed records about a drained epoch.  The authorization assigns every old
    receipt to one build and decides each build; the closure names one successor
    after both old namespaces were retired.  [ed25519.Verify] is a parameter.

    As for the drain permit, only documents equal to their own canonical encoding
    are accepted, so the decoders below need not reproduce how [encoding/json]
    reads any other document. *)
From S2P Require Import Prelude GoText Json JsonFacts Sha256 Types Kube Contract QueueReceipt Effects GoTime Permit.

Definition version : string := "1".
Definition authorizationAudience : string := "kova-recovery-disposal-authorization-v1".
Definition authorizationAction : string := "dispose-old-epoch-liabilities-only".
Definition closureAudience : string := "kova-recovery-disposal-closure-v1".
Definition closureAction : string := "certify-one-successor-after-old-uid-retirement-only".
Definition retirementAssertion : string := "old-service-runner-workers-network-and-inflight-effects-cannot-resume-v1".
Definition namespaceAssertion : string := "old-runner-and-receipt-namespace-uids-absent-with-persistent-no-reuse-fences-v1".
Definition maxEnvelopeBytes : Z := 2 * 1024 * 1024.
Definition maxReceipts : Z := 2048.
Definition maxQueueReceipts : Z := 1000.
Definition maxGrantReceipts : Z := 128.
Definition maxPodReceipts : Z := 256.
Definition maxDispositions : Z := 2048.
Definition maxIDBytes : Z := 256.
Definition maxIncidentIDBytes : Z := 128.
Definition maxCapacitySlots : Z := 65535.

Definition ErrUnqualified := Sentinel "unqualified external disposal record".
Definition nulTerminated (s : string) : string := s +:+ String (ascii_of_N 0) "".
Definition authorizationDomain : string := nulTerminated "KOVA-RECOVERY-DISPOSAL-AUTHORIZATION-V1".
Definition closureDomain : string := nulTerminated "KOVA-RECOVERY-DISPOSAL-CLOSURE-V1".

(** ** Records *)

Record ReceiptLink := mkIndex { li_Index : Z }.

Record BuildDisposition := mkBuildDisposition {
  bd_BuildName : string;
  bd_BuildUID : string;
  bd_PodUID : string;
  bd_ReceiptLinks : list ReceiptLink;
  bd_Outcome : string;
  bd_ResultRecordDigest : string;
  bd_ApprovalDigest : string;
  bd_NeverReplay : bool }.

Record PhysicalRetirement := mkPhysical {
  pr_OldWorkerPoolID : string;
  pr_OldCapacitySlots : Z;
  pr_ServiceProcessesDigest : string;
  pr_RunnerProcessesDigest : string;
  pr_WorkerPoolDigest : string;
  pr_NetworkIsolationDigest : string;
  pr_InflightEffectsDigest : string;
  pr_Assertion : string;
  pr_RetiredAt : string }.

Record AuthorizationPayload := mkAuthorization {
  ap_Version : string;
  ap_Audience : string;
  ap_Action : string;
  ap_Issuer : string;
  ap_KeyID : string;
  ap_IncidentID : string;
  ap_Source : EpochIdentity;
  ap_StopIntentDigest : string;
  ap_DrainPermitDigest : string;
  ap_OccupancyReportDigest : string;
  ap_ReceiptInventoryDigest : string;
  ap_ReceiptSetDigest : string;
  ap_Receipts : list ReceiptRef;
  ap_Dispositions : list BuildDisposition;
  ap_PhysicalRetirement : PhysicalRetirement;
  ap_SuccessorPlanDigest : string;
  ap_IssuedAt : string }.
Record AuthorizationEnvelope := mkAuthorizationEnvelope { ae_Payload : AuthorizationPayload; ae_Signature : string }.

Record AuthorizationExpectation := mkAuthorizationExpectation {
  ax_EnvelopeDigest : string;
  ax_Issuer : string;
  ax_KeyID : string;
  ax_IncidentID : string;
  ax_Source : EpochIdentity;
  ax_StopIntentDigest : string;
  ax_DrainPermitDigest : string;
  ax_OccupancyReportDigest : string;
  ax_ReceiptInventoryDigest : string;
  ax_Receipts : list ReceiptRef;
  ax_Dispositions : list BuildDisposition;
  ax_PhysicalRetirement : PhysicalRetirement;
  ax_SuccessorPlanDigest : string }.

Record VerifiedAuthorization := mkVerifiedAuthorization {
  va_incidentID : string;
  va_envelopeDigest : string;
  va_receiptSetDigest : string;
  va_receiptCount : Z;
  va_source : EpochIdentity;
  va_successorPlanDigest : string;
  va_issuedAt : string;
  va_valid : bool }.

Record NamespaceRetirement := mkNamespaceRetirement {
  nr_Name : string;
  nr_OldUID : string;
  nr_UIDAbsenceEvidenceDigest : string;
  nr_NoReuseFenceDigest : string;
  nr_NormalDeletionDigest : string }.

Record SuccessorIdentity := mkSuccessor {
  su_RunnerNamespace : string;
  su_RunnerNamespaceUID : string;
  su_ReceiptNamespace : string;
  su_ReceiptNamespaceUID : string;
  su_GenesisName : string;
  su_GenesisUID : string;
  su_Generation : string;
  su_WorkerPoolID : string;
  su_CapacitySlots : Z;
  su_CapacityProofDigest : string;
  su_RouteNamespace : string;
  su_RouteName : string;
  su_RouteUID : string;
  su_RouteExpectedResourceVersion : string;
  su_RouteCommittedResourceVersion : string;
  su_RouteFromNamespaceUID : string;
  su_RouteToNamespaceUID : string;
  su_RouteCASDigest : string }.

Record ClosurePayload := mkClosure {
  cp_Version : string;
  cp_Audience : string;
  cp_Action : string;
  cp_Issuer : string;
  cp_KeyID : string;
  cp_IncidentID : string;
  cp_AuthorizationDigest : string;
  cp_Source : EpochIdentity;
  cp_RunnerRetirement : NamespaceRetirement;
  cp_ReceiptRetirement : NamespaceRetirement;
  cp_NamespaceAssertion : string;
  cp_SuccessorPlanDigest : string;
  cp_SingleSuccessorFenceDigest : string;
  cp_Successor : SuccessorIdentity;
  cp_ObservedAt : string;
  cp_IssuedAt : string }.
Record ClosureEnvelope := mkClosureEnvelope { ce_Payload : ClosurePayload; ce_Signature : string }.

Record ClosureExpectation := mkClosureExpectation {
  cx_EnvelopeDigest : string;
  cx_Issuer : string;
  cx_KeyID : string;
  cx_IncidentID : string;
  cx_AuthorizationDigest : string;
  cx_Source : EpochIdentity;
  cx_RunnerRetirement : NamespaceRetirement;
  cx_ReceiptRetirement : NamespaceRetirement;
  cx_SuccessorPlanDigest : string;
  cx_SingleSuccessorFenceDigest : string;
  cx_Successor : SuccessorIdentity }.

Record VerifiedClosure := mkVerifiedClosure {
  vc_IncidentID : string;
  vc_EnvelopeDigest : string;
  vc_AuthorizationDigest : string;
  vc_Successor : SuccessorIdentity }.

#[export] Instance ReceiptLink_eq_dec : EqDecision ReceiptLink.
Proof. solve_decision. Defined.
#[export] Instance BuildDisposition_eq_dec : EqDecision BuildDisposition.
Proof. solve_decision. Defined.
#[export] Instance PhysicalRetirement_eq_dec : EqDecision PhysicalRetirement.
Proof. solve_decision. Defined.
#[export] Instance NamespaceRetirement_eq_dec : EqDecision NamespaceRetirement.
Proof. solve_decision. Defined.
#[export] Instance SuccessorIdentity_eq_dec : EqDecision SuccessorIdentity.
Proof. solve_decision. Defined.

(** ** Encoding *)

Definition jb (k : string) (b : bool) : list (string * jvalue) := [(k, JBool b)].

Definition json_of_index (l : ReceiptLink) : jvalue := JObj (jn "index" (li_Index l)).
Definition json_of_disposition (d : BuildDisposition) : jvalue :=
  JObj (js "buildName" (bd_BuildName d) ++ js "buildUid" (bd_BuildUID d) ++ js "podUid" (bd_PodUID d) ++
        [("receiptLinks", json_slice json_of_index (bd_ReceiptLinks d))] ++ js "outcome" (bd_Outcome d) ++
        js "resultRecordDigest" (bd_ResultRecordDigest d) ++ js "approvalDigest" (bd_ApprovalDigest d) ++
        jb "neverReplay" (bd_NeverReplay d)).
Definition json_of_physical (p : PhysicalRetirement) : jvalue :=
  JObj (js "oldWorkerPoolId" (pr_OldWorkerPoolID p) ++ jn "oldCapacitySlots" (pr_OldCapacitySlots p) ++
        js "serviceProcessesDigest" (pr_ServiceProcessesDigest p) ++ js "runnerProcessesDigest" (pr_RunnerProcessesDigest p) ++
        js "workerPoolDigest" (pr_WorkerPoolDigest p) ++ js "networkIsolationDigest" (pr_NetworkIsolationDigest p) ++
        js "inflightEffectsDigest" (pr_InflightEffectsDigest p) ++ js "assertion" (pr_Assertion p) ++
        js "retiredAt" (pr_RetiredAt p)).
Definition json_of_authorization (p : AuthorizationPayload) : jvalue :=
  JObj (js "version" (ap_Version p) ++ js "audience" (ap_Audience p) ++ js "action" (ap_Action p) ++
        js "issuer" (ap_Issuer p) ++ js "keyId" (ap_KeyID p) ++ js "incidentId" (ap_IncidentID p) ++
        [("source", json_of_epoch (ap_Source p))] ++ js "stopIntentDigest" (ap_StopIntentDigest p) ++
        js "drainPermitDigest" (ap_DrainPermitDigest p) ++ js "occupancyReportDigest" (ap_OccupancyReportDigest p) ++
        js "receiptInventoryDigest" (ap_ReceiptInventoryDigest p) ++ js "receiptSetDigest" (ap_ReceiptSetDigest p) ++
        [("receipts", json_slice json_of_ref (ap_Receipts p));
         ("dispositions", json_slice json_of_disposition (ap_Dispositions p));
         ("physicalRetirement", json_of_physical (ap_PhysicalRetirement p))] ++
        js "successorPlanDigest" (ap_SuccessorPlanDigest p) ++ js "issuedAt" (ap_IssuedAt p)).
Definition json_of_retirement (n : NamespaceRetirement) : jvalue :=
  JObj (js "name" (nr_Name n) ++ js "oldUid" (nr_OldUID n) ++ js "uidAbsenceEvidenceDigest" (nr_UIDAbsenceEvidenceDigest n) ++
        js "noReuseFenceDigest" (nr_NoReuseFenceDigest n) ++ js "normalDeletionDigest" (nr_NormalDeletionDigest n)).
Definition json_of_successor (s : SuccessorIdentity) : jvalue :=
  JObj (js "runnerNamespace" (su_RunnerNamespace s) ++ js "runnerNamespaceUid" (su_RunnerNamespaceUID s) ++
        js "receiptNamespace" (su_ReceiptNamespace s) ++ js "receiptNamespaceUid" (su_ReceiptNamespaceUID s) ++
        js "genesisName" (su_GenesisName s) ++ js "genesisUid" (su_GenesisUID s) ++ js "generation" (su_Generation s) ++
        js "workerPoolId" (su_WorkerPoolID s) ++ jn "capacitySlots" (su_CapacitySlots s) ++
        js "capacityProofDigest" (su_CapacityProofDigest s) ++ js "routeNamespace" (su_RouteNamespace s) ++
        js "routeName" (su_RouteName s) ++ js "routeUid" (su_RouteUID s) ++
        js "routeExpectedResourceVersion" (su_RouteExpectedResourceVersion s) ++
        js "routeCommittedResourceVersion" (su_RouteCommittedResourceVersion s) ++
        js "routeFromNamespaceUid" (su_RouteFromNamespaceUID s) ++ js "routeToNamespaceUid" (su_RouteToNamespaceUID s) ++
        js "routeCasDigest" (su_RouteCASDigest s)).
Definition json_of_closure (p : ClosurePayload) : jvalue :=
  JObj (js "version" (cp_Version p) ++ js "audience" (cp_Audience p) ++ js "action" (cp_Action p) ++
        js "issuer" (cp_Issuer p) ++ js "keyId" (cp_KeyID p) ++ js "incidentId" (cp_IncidentID p) ++
        js "authorizationDigest" (cp_AuthorizationDigest p) ++
        [("source", json_of_epoch (cp_Source p)); ("runnerRetirement", json_of_retirement (cp_RunnerRetirement p));
         ("receiptRetirement", json_of_retirement (cp_ReceiptRetirement p))] ++
        js "namespaceAssertion" (cp_NamespaceAssertion p) ++ js "successorPlanDigest" (cp_SuccessorPlanDigest p) ++
        js "singleSuccessorFenceDigest" (cp_SingleSuccessorFenceDigest p) ++
        [("successor", json_of_successor (cp_Successor p))] ++ js "observedAt" (cp_ObservedAt p) ++ js "issuedAt" (cp_IssuedAt p)).

(** An envelope of a payload that is already encoded. *)
Definition json_envelope (payload : jvalue) (signature : string) : jvalue := JObj (("payload", payload) :: js "signature" signature).

(** ** Decoding *)

Definition index_of_json (v : option jvalue) : option ReceiptLink :=
  l ← members v; a ← jint64 (jfield l "index"); Some (mkIndex a).
Definition ref_of_json (v : option jvalue) : option ReceiptRef :=
  l ← members v;
  a ← jstring (jfield l "kind"); b ← jstring (jfield l "namespace"); c ← jstring (jfield l "name"); d ← jstring (jfield l "uid");
  e ← jstring (jfield l "dataDigest");
  Some (mkRef a b c d e).
Definition disposition_of_json (v : option jvalue) : option BuildDisposition :=
  l ← members v;
  a ← jstring (jfield l "buildName"); b ← jstring (jfield l "buildUid"); c ← jstring (jfield l "podUid");
  d ← elements_of index_of_json (jfield l "receiptLinks"); e ← jstring (jfield l "outcome");
  f ← jstring (jfield l "resultRecordDigest"); g ← jstring (jfield l "approvalDigest"); h ← jbool (jfield l "neverReplay");
  Some (mkBuildDisposition a b c d e f g h).
Definition physical_of_json (v : option jvalue) : option PhysicalRetirement :=
  l ← members v;
  a ← jstring (jfield l "oldWorkerPoolId"); b ← jint64 (jfield l "oldCapacitySlots"); c ← jstring (jfield l "serviceProcessesDigest");
  d ← jstring (jfield l "runnerProcessesDigest"); e ← jstring (jfield l "workerPoolDigest");
  f ← jstring (jfield l "networkIsolationDigest"); g ← jstring (jfield l "inflightEffectsDigest");
  h ← jstring (jfield l "assertion"); i ← jstring (jfield l "retiredAt");
  Some (mkPhysical a b c d e f g h i).
Definition authorization_of_json (v : option jvalue) : option AuthorizationPayload :=
  l ← members v;
  a ← jstring (jfield l "version"); b ← jstring (jfield l "audience"); c ← jstring (jfield l "action");
  d ← jstring (jfield l "issuer"); e ← jstring (jfield l "keyId"); f ← jstring (jfield l "incidentId");
  g ← epoch_of_json (jfield l "source"); h ← jstring (jfield l "stopIntentDigest"); i ← jstring (jfield l "drainPermitDigest");
  j ← jstring (jfield l "occupancyReportDigest"); k ← jstring (jfield l "receiptInventoryDigest");
  m ← jstring (jfield l "receiptSetDigest"); n ← elements_of ref_of_json (jfield l "receipts");
  o ← elements_of disposition_of_json (jfield l "dispositions"); p ← physical_of_json (jfield l "physicalRetirement");
  q ← jstring (jfield l "successorPlanDigest"); r ← jstring (jfield l "issuedAt");
  Some (mkAuthorization a b c d e f g h i j k m n o p q r).
Definition retirement_of_json (v : option jvalue) : option NamespaceRetirement :=
  l ← members v;
  a ← jstring (jfield l "name"); b ← jstring (jfield l "oldUid"); c ← jstring (jfield l "uidAbsenceEvidenceDigest");
  d ← jstring (jfield l "noReuseFenceDigest"); e ← jstring (jfield l "normalDeletionDigest");
  Some (mkNamespaceRetirement a b c d e).
Definition successor_of_json (v : option jvalue) : option SuccessorIdentity :=
  l ← members v;
  a ← jstring (jfield l "runnerNamespace"); b ← jstring (jfield l "runnerNamespaceUid"); c ← jstring (jfield l "receiptNamespace");
  d ← jstring (jfield l "receiptNamespaceUid"); e ← jstring (jfield l "genesisName"); f ← jstring (jfield l "genesisUid");
  g ← jstring (jfield l "generation"); h ← jstring (jfield l "workerPoolId"); i ← jint64 (jfield l "capacitySlots");
  j ← jstring (jfield l "capacityProofDigest"); k ← jstring (jfield l "routeNamespace"); m ← jstring (jfield l "routeName");
  n ← jstring (jfield l "routeUid"); o ← jstring (jfield l "routeExpectedResourceVersion");
  p ← jstring (jfield l "routeCommittedResourceVersion"); q ← jstring (jfield l "routeFromNamespaceUid");
  r ← jstring (jfield l "routeToNamespaceUid"); s ← jstring (jfield l "routeCasDigest");
  Some (mkSuccessor a b c d e f g h i j k m n o p q r s).
Definition closure_of_json (v : option jvalue) : option ClosurePayload :=
  l ← members v;
  a ← jstring (jfield l "version"); b ← jstring (jfield l "audience"); c ← jstring (jfield l "action");
  d ← jstring (jfield l "issuer"); e ← jstring (jfield l "keyId"); f ← jstring (jfield l "incidentId");
  g ← jstring (jfield l "authorizationDigest"); h ← epoch_of_json (jfield l "source");
  i ← retirement_of_json (jfield l "runnerRetirement"); j ← retirement_of_json (jfield l "receiptRetirement");
  k ← jstring (jfield l "namespaceAssertion"); m ← jstring (jfield l "successorPlanDigest");
  n ← jstring (jfield l "singleSuccessorFenceDigest"); o ← successor_of_json (jfield l "successor");
  p ← jstring (jfield l "observedAt"); q ← jstring (jfield l "issuedAt");
  Some (mkClosure a b c d e f g h i j k m n o p q).

(** [json.Unmarshal] of an envelope with this payload. *)
Definition unmarshalEnvelope {A} (payload : option jvalue -> option A) (raw : string) : option (A * string) :=
  v ← json_parse raw; l ← members (Some v);
  p ← payload (jfield l "payload"); s ← jstring (jfield l "signature");
  Some (p, s).

Definition decodeCanonical {A} (decode : option jvalue -> option A) (encode : A -> jvalue) (raw : string) : result (A * string) :=
  match unmarshalEnvelope decode raw with
  | None => Err (Wrap "invalid envelope encoding" ErrUnqualified)
  | Some (p, s) =>
      if negb (seqb raw (json_print (json_envelope (encode p) s))) then Err (Wrap "noncanonical envelope" ErrUnqualified) else Ok (p, s)
  end.

Definition digestBytes (raw : string) : string := "sha256:" +:+ sha256_hex raw.
Definition envelopeSizeOK (raw : string) : bool := (0 <? slen raw)%Z && (slen raw <=? maxEnvelopeBytes)%Z.

(** ** Validation *)

Section disposal.
Context `{External}.

Definition countKind (kind : string) (refs : list ReceiptRef) : Z :=
  Z.of_nat (List.length (List.filter (fun r => seqb (rr_Kind r) kind) refs)).
Definition knownKind (r : ReceiptRef) : bool :=
  seqb (rr_Kind r) "queue" || seqb (rr_Kind r) "grant" || seqb (rr_Kind r) "pod-create".

Definition validateInventory (epoch : EpochIdentity) (refs : list ReceiptRef) : result string :=
  if (Z.of_nat (List.length refs) =? 0)%Z || (maxReceipts <? Z.of_nat (List.length refs))%Z then Err ErrUnqualified
  else if negb (forallb knownKind refs) then Err ErrUnqualified
  else if (maxQueueReceipts <? countKind "queue" refs)%Z || (maxGrantReceipts <? countKind "grant" refs)%Z ||
          (maxPodReceipts <? countKind "pod-create" refs)%Z then Err ErrUnqualified
  else DigestReceiptSet epoch refs.

Definition outcomeOk (d : BuildDisposition) : bool :=
  if seqb (bd_Outcome d) "terminal-result" then
    negb (sempty (bd_BuildUID d) || sempty (bd_PodUID d) || negb (digestSHA256 (bd_ResultRecordDigest d)) ||
          negb (sempty (bd_ApprovalDigest d)))
  else if seqb (bd_Outcome d) "approved-unknown-discard" then
    negb (negb (digestSHA256 (bd_ApprovalDigest d)) || negb (sempty (bd_ResultRecordDigest d)))
  else false.

(** The fields of one disposition, apart from the maps the loop keeps. *)
Definition dispositionOk (previous : option BuildDisposition) (d : BuildDisposition) : bool :=
  negb (negb (IsDNS1123Subdomain (bd_BuildName d)) ||
        match previous with Some p => negb (str_ltb (bd_BuildName p) (bd_BuildName d)) | None => false end ||
        negb (bd_NeverReplay d) || (Z.of_nat (List.length (bd_ReceiptLinks d)) =? 0)%Z ||
        (3 <? Z.of_nat (List.length (bd_ReceiptLinks d)))%Z ||
        negb (sempty (bd_BuildUID d)) && negb (safeID (bd_BuildUID d) maxIDBytes) ||
        negb (sempty (bd_PodUID d)) && negb (safeID (bd_PodUID d) maxIDBytes) ||
        negb (sempty (bd_PodUID d)) && sempty (bd_BuildUID d)).

(** [if uid != "" { uids[uid] = true }]. *)
Definition recordUID (uids : gset string) (uid : string) : gset string := if sempty uid then uids else {[uid]} ∪ uids.

(** The inner loop; [used] is the slice of flags, one per receipt. *)
Fixpoint assignLinks (refs : list ReceiptRef) (used : list bool) (kinds : gset string) (previous : Z) (links : list ReceiptLink)
    : option (list bool) :=
  match links with
  | [] => Some used
  | link :: rest =>
      let i := li_Index link in
      if (i <=? previous)%Z || (i <? 0)%Z || (Z.of_nat (List.length refs) <=? i)%Z then None
      else
        let n := Z.to_nat i in
        match used !! n, refs !! n with
        | Some false, Some ref =>
            if bool_decide (rr_Kind ref ∈ kinds) then None
            else assignLinks refs (<[n := true]> used) ({[rr_Kind ref]} ∪ kinds) i rest
        | _, _ => None
        end
  end.

Fixpoint assignAll (refs : list ReceiptRef) (used : list bool) (buildUIDs podUIDs : gset string) (previous : option BuildDisposition)
    (ds : list BuildDisposition) : option (list bool) :=
  match ds with
  | [] => Some used
  | d :: rest =>
      if negb (dispositionOk previous d) || bool_decide (bd_BuildUID d ∈ buildUIDs) || bool_decide (bd_PodUID d ∈ podUIDs) then None
      else if negb (outcomeOk d) then None
      else match assignLinks refs used ∅ (-1) (bd_ReceiptLinks d) with
           | None => None
           | Some used' => assignAll refs used' (recordUID buildUIDs (bd_BuildUID d)) (recordUID podUIDs (bd_PodUID d)) (Some d) rest
           end
  end.

Definition validateDispositions (refs : list ReceiptRef) (ds : list BuildDisposition) : option error :=
  if (Z.of_nat (List.length ds) =? 0)%Z || (maxDispositions <? Z.of_nat (List.length ds))%Z ||
     (Z.of_nat (List.length refs) <? Z.of_nat (List.length ds))%Z then Some ErrUnqualified
  else match assignAll refs (replicate (List.length refs) false) ∅ ∅ None ds with
       | None => Some ErrUnqualified
       | Some used => if forallb (fun assigned => assigned) used then None else Some ErrUnqualified
       end.

Definition validPhysicalRetirement (p : PhysicalRetirement) (epoch : EpochIdentity) : bool :=
  negb (negb (seqb (pr_OldWorkerPoolID p) (ep_WorkerPoolID epoch)) || (pr_OldCapacitySlots p <? 1)%Z ||
        (maxCapacitySlots <? pr_OldCapacitySlots p)%Z || negb (digestSHA256 (pr_ServiceProcessesDigest p)) ||
        negb (digestSHA256 (pr_RunnerProcessesDigest p)) || negb (digestSHA256 (pr_WorkerPoolDigest p)) ||
        negb (digestSHA256 (pr_NetworkIsolationDigest p)) || negb (digestSHA256 (pr_InflightEffectsDigest p)) ||
        negb (seqb (pr_Assertion p) retirementAssertion)) &&
  bool_decide (is_Some (ParseRFC3339Nano (pr_RetiredAt p))).

Definition validNamespaceRetirement (n : NamespaceRetirement) (name oldUID : string) : bool :=
  seqb (nr_Name n) name && seqb (nr_OldUID n) oldUID && digestSHA256 (nr_UIDAbsenceEvidenceDigest n) &&
  digestSHA256 (nr_NoReuseFenceDigest n) && digestSHA256 (nr_NormalDeletionDigest n).

Definition validSuccessor (s : SuccessorIdentity) (old : EpochIdentity) : bool :=
  IsDNS1123Label (su_RunnerNamespace s) && IsDNS1123Label (su_ReceiptNamespace s) &&
  negb (seqb (su_RunnerNamespace s) (su_ReceiptNamespace s)) &&
  negb (seqb (su_RunnerNamespace s) (ep_Namespace old)) && negb (seqb (su_RunnerNamespace s) (ep_ReceiptNamespace old)) &&
  negb (seqb (su_ReceiptNamespace s) (ep_Namespace old)) && negb (seqb (su_ReceiptNamespace s) (ep_ReceiptNamespace old)) &&
  negb (seqb (su_RunnerNamespaceUID s) (ep_NamespaceUID old)) && negb (seqb (su_ReceiptNamespaceUID s) (ep_ReceiptNamespaceUID old)) &&
  negb (seqb (su_RunnerNamespaceUID s) (su_ReceiptNamespaceUID s)) &&
  negb (seqb (su_RunnerNamespaceUID s) (ep_ReceiptNamespaceUID old)) && negb (seqb (su_ReceiptNamespaceUID s) (ep_NamespaceUID old)) &&
  negb (seqb (su_GenesisUID s) (ep_GenesisUID old)) && negb (seqb (su_Generation s) (ep_Generation old)) &&
  negb (seqb (su_WorkerPoolID s) (ep_WorkerPoolID old)) &&
  (0 <? su_CapacitySlots s)%Z && (su_CapacitySlots s <=? maxCapacitySlots)%Z &&
  IsDNS1123Subdomain (su_GenesisName s) && IsDNS1123Label (su_RouteNamespace s) && IsDNS1123Subdomain (su_RouteName s) &&
  seqb (su_RouteFromNamespaceUID s) (ep_NamespaceUID old) && seqb (su_RouteToNamespaceUID s) (su_RunnerNamespaceUID s) &&
  negb (seqb (su_RouteExpectedResourceVersion s) (su_RouteCommittedResourceVersion s)) &&
  safeID (su_RunnerNamespaceUID s) maxIDBytes && safeID (su_ReceiptNamespaceUID s) maxIDBytes &&
  safeID (su_GenesisUID s) maxIDBytes && lowerHex (su_Generation s) 32 && safeID (su_WorkerPoolID s) maxIDBytes &&
  safeID (su_RouteUID s) maxIDBytes && safeID (su_RouteExpectedResourceVersion s) maxIDBytes &&
  safeID (su_RouteCommittedResourceVersion s) maxIDBytes && safeID (su_RouteFromNamespaceUID s) maxIDBytes &&
  safeID (su_RouteToNamespaceUID s) maxIDBytes && digestSHA256 (su_CapacityProofDigest s) && digestSHA256 (su_RouteCASDigest s).

Definition validEpoch (e : EpochIdentity) : bool :=
  IsDNS1123Label (ep_Namespace e) && IsDNS1123Label (ep_ReceiptNamespace e) && negb (seqb (ep_Namespace e) (ep_ReceiptNamespace e)) &&
  IsDNS1123Subdomain (ep_GenesisName e) && safeID (ep_NamespaceUID e) maxIDBytes && safeID (ep_ReceiptNamespaceUID e) maxIDBytes &&
  safeID (ep_GenesisUID e) maxIDBytes && lowerHex (ep_Generation e) 32 && safeID (ep_ActiveLedgerUID e) maxIDBytes &&
  safeID (ep_QueueLedgerUID e) maxIDBytes && safeID (ep_WorkerPoolID e) maxIDBytes.

(** ** Verification *)

Variable ed25519_Verify : string -> string -> string -> bool.

Definition verifySignature (payload : jvalue) (encoded domain issuer keyID : string) (roots : TrustRoots) : bool :=
  let key := mget (default ∅ (roots !! issuer)) keyID in
  if negb (slen key =? PublicKeySize)%Z then false
  else match b64_decode encoded with
  | None => false
  | Some signature =>
      if negb (slen signature =? SignatureSize)%Z || negb (seqb (b64_encode signature) encoded) then false
      else ed25519_Verify key (domain +:+ json_print payload) signature
  end.

Definition authorizationExpected (raw : string) (expected : AuthorizationExpectation) : bool :=
  envelopeSizeOK raw && digestSHA256 (ax_EnvelopeDigest expected) && safeID (ax_Issuer expected) maxIDBytes &&
  safeID (ax_KeyID expected) maxIDBytes && safeID (ax_IncidentID expected) maxIncidentIDBytes && validEpoch (ax_Source expected) &&
  digestSHA256 (ax_StopIntentDigest expected) && digestSHA256 (ax_DrainPermitDigest expected) &&
  digestSHA256 (ax_OccupancyReportDigest expected) && digestSHA256 (ax_ReceiptInventoryDigest expected) &&
  digestSHA256 (ax_SuccessorPlanDigest expected) && validPhysicalRetirement (ax_PhysicalRetirement expected) (ax_Source expected).

Definition authorizationMatches (p : AuthorizationPayload) (expected : AuthorizationExpectation) : bool :=
  seqb (ap_Version p) version && seqb (ap_Audience p) authorizationAudience && seqb (ap_Action p) authorizationAction &&
  seqb (ap_Issuer p) (ax_Issuer expected) && seqb (ap_KeyID p) (ax_KeyID expected) &&
  seqb (ap_IncidentID p) (ax_IncidentID expected) && bool_decide (ap_Source p = ax_Source expected) &&
  seqb (ap_StopIntentDigest p) (ax_StopIntentDigest expected) && seqb (ap_DrainPermitDigest p) (ax_DrainPermitDigest expected) &&
  seqb (ap_OccupancyReportDigest p) (ax_OccupancyReportDigest expected) &&
  seqb (ap_ReceiptInventoryDigest p) (ax_ReceiptInventoryDigest expected) &&
  seqb (ap_SuccessorPlanDigest p) (ax_SuccessorPlanDigest expected) &&
  bool_decide (ap_Receipts p = ax_Receipts expected) && bool_decide (ap_Dispositions p = ax_Dispositions expected) &&
  bool_decide (ap_PhysicalRetirement p = ax_PhysicalRetirement expected).

Definition VerifyAuthorization (raw : string) (expected : AuthorizationExpectation) (roots : TrustRoots) : result VerifiedAuthorization :=
  if negb (authorizationExpected raw expected) then Err ErrUnqualified
  else
    let digest := digestBytes raw in
    if negb (seqb digest (ax_EnvelopeDigest expected)) then Err ErrUnqualified
    else match decodeCanonical authorization_of_json json_of_authorization raw with
    | Err e => Err e
    | Ok (p, signature) =>
        if negb (authorizationMatches p expected) then Err ErrUnqualified
        else match validateInventory (ap_Source p) (ap_Receipts p) with
        | Err _ => Err ErrUnqualified
        | Ok setDigest =>
            if negb (seqb (ap_ReceiptSetDigest p) setDigest) || negb (is_nil (validateDispositions (ap_Receipts p) (ap_Dispositions p)))
            then Err ErrUnqualified
            else match ParseRFC3339Nano (ap_IssuedAt p) with
            | None => Err ErrUnqualified
            | Some issuedAt =>
                if (issuedAt <? instant (pr_RetiredAt (ap_PhysicalRetirement p)))%Z ||
                   negb (verifySignature (json_of_authorization p) signature authorizationDomain (ap_Issuer p) (ap_KeyID p) roots)
                then Err ErrUnqualified
                else Ok (mkVerifiedAuthorization (ap_IncidentID p) digest setDigest (Z.of_nat (List.length (ap_Receipts p)))
                           (ap_Source p) (ap_SuccessorPlanDigest p) (ap_IssuedAt p) true)
            end
        end
    end.

Definition closureExpected (raw : string) (prior : VerifiedAuthorization) (expected : ClosureExpectation) : bool :=
  va_valid prior && envelopeSizeOK raw && digestSHA256 (cx_EnvelopeDigest expected) && safeID (cx_Issuer expected) maxIDBytes &&
  safeID (cx_KeyID expected) maxIDBytes && digestSHA256 (cx_AuthorizationDigest expected) &&
  digestSHA256 (cx_SuccessorPlanDigest expected) && seqb (cx_AuthorizationDigest expected) (va_envelopeDigest prior) &&
  seqb (cx_IncidentID expected) (va_incidentID prior) && bool_decide (cx_Source expected = va_source prior) &&
  seqb (cx_SuccessorPlanDigest expected) (va_successorPlanDigest prior) &&
  validNamespaceRetirement (cx_RunnerRetirement expected) (ep_Namespace (va_source prior)) (ep_NamespaceUID (va_source prior)) &&
  validNamespaceRetirement (cx_ReceiptRetirement expected) (ep_ReceiptNamespace (va_source prior)) (ep_ReceiptNamespaceUID (va_source prior)) &&
  digestSHA256 (cx_SingleSuccessorFenceDigest expected) && validSuccessor (cx_Successor expected) (va_source prior).

Definition closureMatches (p : ClosurePayload) (expected : ClosureExpectation) : bool :=
  seqb (cp_Version p) version && seqb (cp_Audience p) closureAudience && seqb (cp_Action p) closureAction &&
  seqb (cp_Issuer p) (cx_Issuer expected) && seqb (cp_KeyID p) (cx_KeyID expected) &&
  seqb (cp_IncidentID p) (cx_IncidentID expected) && seqb (cp_AuthorizationDigest p) (cx_AuthorizationDigest expected) &&
  bool_decide (cp_Source p = cx_Source expected) && bool_decide (cp_RunnerRetirement p = cx_RunnerRetirement expected) &&
  bool_decide (cp_ReceiptRetirement p = cx_ReceiptRetirement expected) && seqb (cp_NamespaceAssertion p) namespaceAssertion &&
  seqb (cp_SuccessorPlanDigest p) (cx_SuccessorPlanDigest expected) &&
  seqb (cp_SingleSuccessorFenceDigest p) (cx_SingleSuccessorFenceDigest expected) && bool_decide (cp_Successor p = cx_Successor expected).

Definition VerifyClosure (raw : string) (prior : VerifiedAuthorization) (expected : ClosureExpectation) (roots : TrustRoots)
    : result VerifiedClosure :=
  if negb (closureExpected raw prior expected) then Err ErrUnqualified
  else
    let digest := digestBytes raw in
    if negb (seqb digest (cx_EnvelopeDigest expected)) then Err ErrUnqualified
    else match decodeCanonical closure_of_json json_of_closure raw with
    | Err e => Err e
    | Ok (p, signature) =>
        if negb (closureMatches p expected) then Err ErrUnqualified
        else match ParseRFC3339Nano (cp_ObservedAt p), ParseRFC3339Nano (cp_IssuedAt p), ParseRFC3339Nano (va_issuedAt prior) with
        | Some observedAt, Some issuedAt, Some priorAt =>
            if (observedAt <? priorAt)%Z || (issuedAt <? observedAt)%Z ||
               negb (verifySignature (json_of_closure p) signature closureDomain (cp_Issuer p) (cp_KeyID p) roots)
            then Err ErrUnqualified
            else Ok (mkVerifiedClosure (cp_IncidentID p) digest (cp_AuthorizationDigest p) (cp_Successor p))
        | _, _, _ => Err ErrUnqualified
        end
    end.

End disposal.
