(* ===== verification/DisposalTheorems.v ===== *)
(** * What a verified disposal record establishes *)
From S2P Require Import Prelude GoText Json Sha256 Types Kube Contract QueueReceipt Effects GoTime Permit Disposal.

(** ** The assignment of receipts to builds *)

Section dispositions.
Context `{External}.

Definition indices (links : list ReceiptLink) : list Z := li_Index <$> links.
Definition kindsOf (refs : list ReceiptRef) (links : list ReceiptLink) : list string :=
  omap (fun i => rr_Kind <$> refs !! Z.to_nat i) (indices links).

(** One decided build: it may never be replayed, its identities are usable, and
    it has a terminal record of both objects or an approval to discard it. *)
Definition decided (d : BuildDisposition) : Prop :=
  IsDNS1123Subdomain (bd_BuildName d) = true /\ bd_NeverReplay d = true /\ 1 <= List.length (bd_ReceiptLinks d) <= 3 /\
  (bd_BuildUID d = "" \/ safeID (bd_BuildUID d) maxIDBytes = true) /\
  (bd_PodUID d = "" \/ safeID (bd_PodUID d) maxIDBytes = true /\ bd_BuildUID d <> "") /\
  (bd_Outcome d = "terminal-result" /\ bd_BuildUID d <> "" /\ bd_PodUID d <> "" /\
     digestSHA256 (bd_ResultRecordDigest d) = true /\ bd_ApprovalDigest d = "" \/
   bd_Outcome d = "approved-unknown-discard" /\ digestSHA256 (bd_ApprovalDigest d) = true /\ bd_ResultRecordDigest d = "").

Definition after (previous : option BuildDisposition) (d : BuildDisposition) : Prop :=
  match previous with Some p => str_ltb (bd_BuildName p) (bd_BuildName d) = true | None => True end.

Lemma outcomeOk_iff d :
  outcomeOk d = true <->
  bd_Outcome d = "terminal-result" /\ bd_BuildUID d <> "" /\ bd_PodUID d <> "" /\
     digestSHA256 (bd_ResultRecordDigest d) = true /\ bd_ApprovalDigest d = "" \/
  bd_Outcome d = "approved-unknown-discard" /\ digestSHA256 (bd_ApprovalDigest d) = true /\ bd_ResultRecordDigest d = "".
Proof.
  unfold outcomeOk, sempty, seqb. case_bool_decide as E1; [|case_bool_decide as E2].
  - rewrite negb_true_iff, !orb_false_iff, !bool_decide_eq_false, !negb_false_iff, bool_decide_eq_true, E1. naive_solver.
  - rewrite negb_true_iff, !orb_false_iff, !negb_false_iff, bool_decide_eq_true, E2. naive_solver.
  - naive_solver.
Qed.

Lemma disposition_decided previous d : dispositionOk previous d && outcomeOk d = true <-> decided d /\ after previous d.
Proof.
  unfold decided. rewrite <- outcomeOk_iff, andb_true_iff. unfold dispositionOk, sempty.
  rewrite negb_true_iff, !orb_false_iff, !andb_false_iff, !negb_false_iff, !bool_decide_eq_true, bool_decide_eq_false, Z.eqb_neq, Z.ltb_ge.
  assert (Hp : match previous with Some p => negb (str_ltb (bd_BuildName p) (bd_BuildName d)) | None => false end = false <-> after previous d).
  { destruct previous; simpl; [by rewrite negb_false_iff|done]. }
  assert (Hl : Z.of_nat (List.length (bd_ReceiptLinks d)) <> 0%Z /\ (Z.of_nat (List.length (bd_ReceiptLinks d)) <= 3)%Z <->
    1 <= List.length (bd_ReceiptLinks d) <= 3) by lia.
  rewrite Hp. destruct (decide (bd_PodUID d = "")); tauto.
Qed.

Section assignment.
Context (refs : list ReceiptRef).

Definition inRange (i : Z) : Prop := (0 <= i < Z.of_nat (List.length refs))%Z.

(** The flags record exactly the receipts assigned so far. *)
Definition marked (used : list bool) (A : list Z) : Prop :=
  List.length used = List.length refs /\ Forall inRange A /\ NoDup A /\ forall n b, used !! n = Some b -> (b = true <-> Z.of_nat n ∈ A).

(** What the inner loop asks of the links of one build. *)
Definition linked (A : list Z) (kinds : gset string) (previous : Z) (links : list ReceiptLink) : Prop :=
  Sorted Z.lt (previous :: indices links) /\ Forall inRange (indices links) /\ NoDup (A ++ indices links) /\
  NoDup (kindsOf refs links) /\ (forall k, k ∈ kindsOf refs links -> k ∉ kinds).

Lemma marked_insert used A i :
  marked used A -> inRange i -> i ∉ A -> marked (<[Z.to_nat i := true]> used) (A ++ [i]).
Proof.
  intros (Hl & Hr & Hn & Hu) Hi Hf. unfold inRange in Hi. split_and!.
  - by rewrite length_insert.
  - apply Forall_app. split; [done|]. by constructor.
  - apply NoDup_app. split_and!; [done| |apply NoDup_singleton]. intros x Hx ->%list_elem_of_singleton. done.
  - intros n b Hb. rewrite elem_of_app, list_elem_of_singleton. destruct (decide (n = Z.to_nat i)) as [->|Hne].
    + rewrite list_lookup_insert_eq in Hb by lia. injection Hb as <-. split; [|done]. right. lia.
    + rewrite list_lookup_insert_ne in Hb by done. rewrite (Hu _ _ Hb). naive_solver lia.
Qed.

Lemma kindsOf_cons link links ref :
  refs !! Z.to_nat (li_Index link) = Some ref -> kindsOf refs (link :: links) = rr_Kind ref :: kindsOf refs links.
Proof. intros Hr. unfold kindsOf, indices. simpl. by rewrite Hr. Qed.

Lemma linked_cons A kinds previous link links ref :
  refs !! Z.to_nat (li_Index link) = Some ref ->
  linked A kinds previous (link :: links) <->
  (previous < li_Index link)%Z /\ inRange (li_Index link) /\ li_Index link ∉ A /\ rr_Kind ref ∉ kinds /\
  linked (A ++ [li_Index link]) ({[rr_Kind ref]} ∪ kinds) (li_Index link) links.
Proof.
  intros Hr. unfold linked. rewrite (kindsOf_cons _ _ _ Hr). unfold indices at 1 2 3. rewrite fmap_cons. fold (indices links).
  rewrite <- (app_assoc A). cbn [app]. split.
  - intros (Hs & Hf & Hn & Hk & Hkk). inversion Hs as [|? ? Hs1 Hs2]; subst. inversion Hs2; subst. inversion Hf; subst. inversion Hk; subst.
    assert (li_Index link ∉ A). { apply NoDup_app in Hn as (_ & Hd & _). intros Hi. apply (Hd _ Hi). left. }
    split_and!; try done; [apply Hkk; left|]. intros k Hin [->%elem_of_singleton|Hx]%elem_of_union; [done|]. apply (Hkk k); [by right|done].
  - intros (Hlt & Hi & Hni & Hk0 & Hs & Hf & Hn & Hk & Hkk). split_and!; try done.
    + constructor; [done|]. by constructor.
    + by constructor.
    + constructor; [|done]. intros Hin. apply (Hkk _ Hin). set_solver.
    + intros k [->|Hin]%elem_of_cons; [done|]. intros Hx. apply (Hkk _ Hin). set_solver.
Qed.

Lemma assignLinks_iff links : forall used kinds previous A, marked used A -> (-1 <= previous)%Z ->
  (is_Some (assignLinks refs used kinds previous links) <-> linked A kinds previous links) /\
  (forall used', assignLinks refs used kinds previous links = Some used' -> marked used' (A ++ indices links)).
Proof.
  induction links as [|link links IH]; intros used kinds previous A Hm Hp; simpl.
  { split; [|intros ? [= <-]; by rewrite app_nil_r]. split; [intros _|done]. unfold linked. simpl. rewrite app_nil_r.
    destruct Hm as (_ & _ & Hn & _). split_and!; try done; try (by repeat constructor). intros k Hk. by apply elem_of_nil in Hk. }
  set (i := li_Index link). destruct (_ || _ || _) eqn:Eb.
  { split; [|done]. split; [by intros [? ?]|]. intros (Hs & Hf & _). inversion Hs as [|? ? _ Hd]; subst. inversion Hd; subst.
    inversion Hf as [|? ? Hi _]; subst. unfold inRange in Hi. subst i. rewrite !orb_true_iff, Z.leb_le, Z.ltb_lt, Z.leb_le in Eb. lia. }
  bool_simpl. assert (Hi : inRange i) by (unfold inRange; lia). pose proof Hm as (Hl & _ & _ & Hu).
  destruct (lookup_lt_is_Some_2 refs (Z.to_nat i)) as [ref Hr]; [unfold inRange in Hi; lia|].
  destruct (lookup_lt_is_Some_2 used (Z.to_nat i)) as [b Hb]; [unfold inRange in Hi; lia|]. rewrite Hb, Hr.
  rewrite (linked_cons A kinds previous link links ref) by done. fold i. specialize (Hu _ _ Hb). rewrite Z2Nat.id in Hu by lia.
  destruct b; [split; [|done]; split; [by intros [? ?]|]; clear IH; tauto|].
  case_bool_decide as Ek; [split; [|done]; split; [by intros [? ?]|]; clear IH; tauto|].
  assert (Hni : i ∉ A) by naive_solver. destruct (IH (<[Z.to_nat i := true]> used) ({[rr_Kind ref]} ∪ kinds) i (A ++ [i])) as [IH1 IH2].
  { by apply marked_insert. }
  { lia. }
  split.
  - rewrite IH1. split; [|naive_solver]. intros Hx. split_and!; try done.
  - intros used' Hu'. apply IH2 in Hu'. by rewrite <- app_assoc in Hu'.
Qed.

(** Builds in strict name order, each decided, each linked to receipts of its own. *)
Fixpoint assigned (A : list Z) (buildUIDs podUIDs : gset string) (previous : option BuildDisposition) (ds : list BuildDisposition) : Prop :=
  match ds with
  | [] => True
  | d :: rest =>
      decided d /\ after previous d /\ bd_BuildUID d ∉ buildUIDs /\ bd_PodUID d ∉ podUIDs /\
      linked A ∅ (-1) (bd_ReceiptLinks d) /\
      assigned (A ++ indices (bd_ReceiptLinks d)) (recordUID buildUIDs (bd_BuildUID d)) (recordUID podUIDs (bd_PodUID d)) (Some d) rest
  end.

Lemma assignAll_iff ds : forall used buildUIDs podUIDs previous A, marked used A ->
  (is_Some (assignAll refs used buildUIDs podUIDs previous ds) <-> assigned A buildUIDs podUIDs previous ds) /\
  (forall used', assignAll refs used buildUIDs podUIDs previous ds = Some used' -> marked used' (A ++ indices (ds ≫= bd_ReceiptLinks))).
Proof.
  induction ds as [|d ds IH]; intros used buildUIDs podUIDs previous A Hm; simpl.
  { split; [done|]. intros ? [= <-]. by rewrite app_nil_r. }
  pose proof (disposition_decided previous d) as Hd. destruct (dispositionOk previous d); simpl in *.
  2: { assert (~ (decided d /\ after previous d)) by (by rewrite <- Hd). split; [|done]. split; [by intros [? ?]|]. clear IH. tauto. }
  case_bool_decide as Eb; simpl; [split; [|done]; split; [by intros [? ?]|]; clear IH; tauto|].
  case_bool_decide as Ep; simpl; [split; [|done]; split; [by intros [? ?]|]; clear IH; tauto|].
  destruct (outcomeOk d); simpl in *.
  2: { assert (~ (decided d /\ after previous d)) by (by rewrite <- Hd). split; [|done]. split; [by intros [? ?]|]. clear IH. tauto. }
  destruct (assignLinks_iff (bd_ReceiptLinks d) used ∅ (-1) A Hm) as [Hl1 Hl2]; [lia|].
  destruct (assignLinks refs used ∅ (-1) (bd_ReceiptLinks d)) as [used1|] eqn:El.
  - specialize (Hl2 _ eq_refl). destruct (IH _ (recordUID buildUIDs (bd_BuildUID d)) (recordUID podUIDs (bd_PodUID d)) (Some d) _ Hl2) as [IH1 IH2].
    assert (Hl : linked A ∅ (-1) (bd_ReceiptLinks d)) by (apply Hl1; by eexists).
    assert (decided d /\ after previous d) by (by apply Hd). split; [rewrite IH1; tauto|]. intros used' Hu'. apply IH2 in Hu'. unfold indices in *. by rewrite fmap_app, app_assoc.
  - split; [|done]. split; [by intros [? ?]|]. intros (_ & _ & _ & _ & Hl & _). by apply Hl1 in Hl as [? ?].
Qed.

(** ** The same, said of the whole list *)

Definition uids (f : BuildDisposition -> string) (ds : list BuildDisposition) : list string :=
  List.filter (fun u => negb (sempty u)) (f <$> ds).
Definition nameOrder (a b : BuildDisposition) : Prop := str_ltb (bd_BuildName a) (bd_BuildName b) = true.

(** The links of one build: in order, and at most one receipt of each kind. *)
Definition ownLinks (d : BuildDisposition) : Prop :=
  Sorted Z.lt (indices (bd_ReceiptLinks d)) /\ NoDup (kindsOf refs (bd_ReceiptLinks d)).

Lemma linked_first A links :
  linked A ∅ (-1) links <->
  Sorted Z.lt (indices links) /\ NoDup (kindsOf refs links) /\ Forall inRange (indices links) /\ NoDup (A ++ indices links).
Proof.
  unfold linked. split.
  - intros (Hs & Hf & Hn & Hk & _). inversion Hs; subst. done.
  - intros (Hs & Hk & Hf & Hn). split_and!; try done. constructor; [done|].
    destruct Hf as [|i l Hi _]; [constructor|]. constructor. unfold inRange in Hi. lia.
Qed.

Lemma uids_fresh f d ds (U : gset string) : "" ∉ U ->
  f d ∉ U /\ (NoDup (uids f ds) /\ forall u, u ∈ uids f ds -> u ∉ recordUID U (f d)) <->
  NoDup (uids f (d :: ds)) /\ forall u, u ∈ uids f (d :: ds) -> u ∉ U.
Proof.
  intros HU. unfold recordUID, uids, sempty. rewrite fmap_cons. cbn [List.filter]. case_bool_decide as Ee; cbn [negb].
  { rewrite Ee. naive_solver. }
  rewrite NoDup_cons. split.
  - intros (Hd & Hn & Hf). split_and!; [|done|]; [intros Hin; apply (Hf _ Hin); set_solver|]. intros u [->|Hu]%elem_of_cons; [done|].
    intros Hx. apply (Hf _ Hu). set_solver.
  - intros ((Hni & Hn) & Hf). split_and!; [apply Hf; left|done|]. intros u Hu [->%elem_of_singleton|Hx]%elem_of_union; [done|].
    by apply (Hf u); [right|].
Qed.

Lemma recordUID_empty U u : "" ∉ U -> "" ∉ recordUID U u.
Proof. unfold recordUID, sempty. case_bool_decide; set_solver. Qed.

Lemma assigned_iff ds : forall A bU pU previous, NoDup A -> "" ∉ bU -> "" ∉ pU ->
  assigned A bU pU previous ds <->
  Forall decided ds /\ Sorted nameOrder ds /\ match ds with d :: _ => after previous d | [] => True end /\
  (NoDup (uids bd_BuildUID ds) /\ forall u, u ∈ uids bd_BuildUID ds -> u ∉ bU) /\
  (NoDup (uids bd_PodUID ds) /\ forall u, u ∈ uids bd_PodUID ds -> u ∉ pU) /\
  Forall ownLinks ds /\ Forall inRange (indices (ds ≫= bd_ReceiptLinks)) /\ NoDup (A ++ indices (ds ≫= bd_ReceiptLinks)).
Proof.
  induction ds as [|d ds IH]; intros A bU pU previous HA Hb Hp; cbn [assigned].
  { unfold indices. simpl. rewrite app_nil_r. split; [|done]. intros _. split_and!; try done; try (by constructor).
    all: intros u Hu; by apply elem_of_nil in Hu. }
  rewrite <- !uids_fresh by done. rewrite linked_first. unfold indices. cbn [mbind list_bind]. rewrite fmap_app.
  fold (indices (bd_ReceiptLinks d)) (indices (ds ≫= bd_ReceiptLinks)). rewrite !Forall_cons, Forall_app, app_assoc.
  assert (Hs : Sorted nameOrder (d :: ds) <-> Sorted nameOrder ds /\ match ds with e :: _ => after (Some d) e | [] => True end).
  { split; [intros Hs; inversion Hs as [|? ? ? Hd]; subst; split; [done|]; by inversion Hd|]. intros [? ?].
    constructor; [done|]. destruct ds; by constructor. }
  rewrite Hs. destruct (decide (NoDup (A ++ indices (bd_ReceiptLinks d)))) as [HAd|HAd].
  - rewrite (IH _ _ _ (Some d) HAd) by (by apply recordUID_empty). unfold ownLinks. tauto.
  - split; [tauto|]. intros (_ & _ & _ & _ & _ & _ & _ & Hn). exfalso. apply HAd. by apply NoDup_app in Hn as [? _].
Qed.

Lemma links_cover ds : Forall decided ds -> List.length ds <= List.length (ds ≫= bd_ReceiptLinks).
Proof.
  induction 1 as [|d ds Hd _ IH]; [done|]. cbn [mbind list_bind]. rewrite length_app. simpl.
  destruct Hd as (_ & _ & Hl & _). lia.
Qed.

Lemma marked_empty : marked (replicate (List.length refs) false) [].
Proof.
  split_and!; [by rewrite length_replicate|constructor|constructor|]. intros n b [-> _]%lookup_replicate. split; [done|].
  intros Hn. by apply elem_of_nil in Hn.
Qed.

Lemma marked_all used A : marked used A -> forallb (fun b => b) used = true <-> A ≡ₚ seqZ 0 (Z.of_nat (List.length refs)).
Proof.
  intros (Hl & Hr & Hn & Hu). rewrite forallb_forall. split.
  - intros Ht. apply NoDup_Permutation; [done|apply NoDup_seqZ|]. intros i. rewrite elem_of_seqZ. split.
    + intros Hi. rewrite Forall_forall in Hr. by apply Hr.
    + intros Hi. destruct (lookup_lt_is_Some_2 used (Z.to_nat i)) as [b Hb]; [lia|]. rewrite <- (Z2Nat.id i) by lia.
      apply (Hu _ _ Hb). apply Ht. by eapply list_elem_of_In, list_elem_of_lookup_2.
  - intros HA b Hb. apply list_elem_of_In, list_elem_of_lookup_1 in Hb as [n Hb]. apply (Hu _ _ Hb). rewrite HA. apply elem_of_seqZ.
    apply lookup_lt_Some in Hb. lia.
Qed.
End assignment.

(** C22: The dispositions of an authorization settle every receipt exactly once.
    [validateDispositions] accepts a list of dispositions exactly when it is not
    empty and not too long, every build is decided and never to be replayed, the
    builds are in strict name order, no build UID and no Pod UID occurs twice, the
    links of a build are in order with at most one receipt of each kind, and all
    links together are a permutation of the indices of the receipt set: no receipt
    is left out and none is shared by two builds. *)
Theorem dispositions_settle_receipts refs ds :
  validateDispositions refs ds = None <->
  0 < List.length ds /\ (Z.of_nat (List.length ds) <= maxDispositions)%Z /\ Forall decided ds /\ Sorted nameOrder ds /\
  NoDup (uids bd_BuildUID ds) /\ NoDup (uids bd_PodUID ds) /\ Forall (ownLinks refs) ds /\
  indices (ds ≫= bd_ReceiptLinks) ≡ₚ seqZ 0 (Z.of_nat (List.length refs)).
Proof.
  unfold validateDispositions. destruct (assignAll_iff refs ds _ ∅ ∅ None [] (marked_empty refs)) as [Hi Hm].
  rewrite assigned_iff in Hi by (done || constructor). cbn [app] in *.
  split.
  - destruct (_ || _) eqn:Eb; [done|]. bool_simpl. destruct (assignAll _ _ _ _ _ _) as [used|] eqn:Ea; [|done].
    destruct (forallb _ used) eqn:Eu; [intros _|done]. apply (marked_all refs _ _ (Hm _ eq_refl)) in Eu.
    destruct Hi as [Hi _]. destruct Hi as (? & ? & _ & [? _] & [? _] & ? & _); [by eexists|]. split_and!; try done; lia.
  - intros (Hpos & Hmax & Hd & Ho & Hb & Hp & Hl & Hperm).
    assert (Hlen : List.length (indices (ds ≫= bd_ReceiptLinks)) = List.length refs) by (rewrite Hperm, length_seqZ; lia).
    pose proof (links_cover ds Hd). unfold indices in Hlen. rewrite length_fmap in Hlen.
    rewrite (proj2 (Z.eqb_neq _ 0)), !(proj2 (Z.ltb_ge _ _)) by lia. simpl.
    destruct (assignAll _ _ _ _ _ _) as [used|] eqn:Ea.
    + rewrite (proj2 (marked_all refs _ _ (Hm _ eq_refl))); done.
    + exfalso. destruct Hi as [_ Hi]. destruct Hi as [? ?]; [|done]. split_and!; try done; try (intros; set_solver).
      * by destruct ds.
      * apply Forall_forall. intros i Hin. rewrite Hperm in Hin. by apply elem_of_seqZ in Hin.
      * rewrite Hperm. apply NoDup_seqZ.
Qed.
End dispositions.

(** ** From authorization to closure *)

Section closure.
Context `{External} (verify : string -> string -> string -> bool).

(** The successor shares no identity with the epoch it replaces. *)
Definition fresh (s : SuccessorIdentity) (old : EpochIdentity) : Prop :=
  (forall n, n = su_RunnerNamespace s \/ n = su_ReceiptNamespace s -> n <> ep_Namespace old /\ n <> ep_ReceiptNamespace old) /\
  (forall u, u = su_RunnerNamespaceUID s \/ u = su_ReceiptNamespaceUID s -> u <> ep_NamespaceUID old /\ u <> ep_ReceiptNamespaceUID old) /\
  su_RunnerNamespace s <> su_ReceiptNamespace s /\ su_RunnerNamespaceUID s <> su_ReceiptNamespaceUID s /\
  su_GenesisUID s <> ep_GenesisUID old /\ su_Generation s <> ep_Generation old /\ su_WorkerPoolID s <> ep_WorkerPoolID old /\
  su_RouteFromNamespaceUID s = ep_NamespaceUID old /\ su_RouteToNamespaceUID s = su_RunnerNamespaceUID s /\
  su_RouteExpectedResourceVersion s <> su_RouteCommittedResourceVersion s /\ (0 < su_CapacitySlots s <= maxCapacitySlots)%Z.

Lemma validSuccessor_fresh s old : validSuccessor s old = true -> fresh s old.
Proof. unfold validSuccessor. intros Hv. bool_simpl. split_and!; try done; intros x [->| ->]; done. Qed.

Lemma decodeCanonical_inv {A} (decode : option jvalue -> option A) encode raw p s :
  decodeCanonical decode encode raw = Ok (p, s) -> raw = json_print (json_envelope (encode p) s).
Proof.
  unfold decodeCanonical. destruct (unmarshalEnvelope decode raw) as [[p' s']|]; [|done]. destruct (negb _) eqn:E; [done|].
  intros [= -> ->]. by bool_simpl.
Qed.

(** A signed statement: canonical, pinned by digest, signed in its own domain. *)
Definition signed (raw digest domain issuer keyID : string) (payload : jvalue) (roots : TrustRoots) : Prop :=
  exists signature, raw = json_print (json_envelope payload signature) /\ digest = digestBytes raw /\
    verifySignature verify payload signature domain issuer keyID roots = true.

Lemma authorization_inv raw expected roots auth :
  VerifyAuthorization verify raw expected roots = Ok auth ->
  exists p issuedAt retiredAt, signed raw (ax_EnvelopeDigest expected) authorizationDomain (ax_Issuer expected) (ax_KeyID expected) (json_of_authorization p) roots /\
    ap_Source p = ax_Source expected /\ ap_Receipts p = ax_Receipts expected /\ ap_Dispositions p = ax_Dispositions expected /\
    DigestReceiptSet (ax_Source expected) (ax_Receipts expected) = Ok (ap_ReceiptSetDigest p) /\
    validateDispositions (ax_Receipts expected) (ax_Dispositions expected) = None /\
    ParseRFC3339Nano (pr_RetiredAt (ax_PhysicalRetirement expected)) = Some retiredAt /\
    ParseRFC3339Nano (ap_IssuedAt p) = Some issuedAt /\ (retiredAt <= issuedAt)%Z /\
    auth = mkVerifiedAuthorization (ax_IncidentID expected) (digestBytes raw) (ap_ReceiptSetDigest p) (Z.of_nat (List.length (ax_Receipts expected)))
             (ax_Source expected) (ax_SuccessorPlanDigest expected) (ap_IssuedAt p) true.
Proof.
  unfold VerifyAuthorization. destruct (authorizationExpected raw expected) eqn:Ee; [|done]. cbn [negb]. cbv zeta. destruct (negb _) eqn:Ed; [done|].
  destruct (decodeCanonical _ _ _) as [[p signature]|] eqn:Edec; [|done]. apply decodeCanonical_inv in Edec.
  destruct (authorizationMatches p expected) eqn:Em; [|done]. cbn [negb]. destruct (validateInventory _ _) as [setDigest|] eqn:Ei; [|done].
  case_match eqn:Ev; [done|]. destruct (ParseRFC3339Nano (ap_IssuedAt p)) as [issuedAt|] eqn:Et; [|done].
  case_match eqn:Es; [done|]. intros Ha. injection Ha as <-. unfold authorizationExpected, validPhysicalRetirement in Ee. unfold authorizationMatches in Em.
  bool_simpl. match goal with Hp : is_Some (ParseRFC3339Nano _) |- _ => destruct Hp as [retiredAt Hp] end.
  assert (E1 : ap_Source p = ax_Source expected) by done. assert (E2 : ap_Receipts p = ax_Receipts expected) by done.
  assert (E3 : ap_Dispositions p = ax_Dispositions expected) by done. assert (E4 : ap_IncidentID p = ax_IncidentID expected) by done.
  assert (E5 : ap_SuccessorPlanDigest p = ax_SuccessorPlanDigest expected) by done. assert (E6 : ap_Issuer p = ax_Issuer expected) by done.
  assert (E7 : ap_KeyID p = ax_KeyID expected) by done. assert (E8 : ap_PhysicalRetirement p = ax_PhysicalRetirement expected) by done.
  assert (E9 : ap_ReceiptSetDigest p = setDigest) by done.
  exists p, issuedAt, retiredAt. rewrite E1, E2, E3, E4, E5, E9, <- E6, <- E7. rewrite E1, E2 in Ei. split_and!; try done.
  - exists signature. split_and!; done.
  - unfold validateInventory in Ei. repeat (case_match; [done|]). exact Ei.
  - rewrite <- E2, <- E3. by destruct (validateDispositions _ _).
  - match goal with Hz : (instant _ <= _)%Z |- _ => rewrite E8 in Hz; unfold instant in Hz end.
    match goal with Hp : ParseRFC3339Nano (pr_RetiredAt _) = Some _, Hz : (default _ _ <= _)%Z |- _ => rewrite Hp in Hz; exact Hz end.
Qed.

Lemma closure_inv raw prior expected roots c :
  VerifyClosure verify raw prior expected roots = Ok c ->
  exists p priorAt observedAt issuedAt, signed raw (cx_EnvelopeDigest expected) closureDomain (cx_Issuer expected) (cx_KeyID expected) (json_of_closure p) roots /\
    closureExpected raw prior expected = true /\ cp_Successor p = cx_Successor expected /\ cp_Source p = cx_Source expected /\
    cp_RunnerRetirement p = cx_RunnerRetirement expected /\ cp_ReceiptRetirement p = cx_ReceiptRetirement expected /\
    ParseRFC3339Nano (va_issuedAt prior) = Some priorAt /\ ParseRFC3339Nano (cp_ObservedAt p) = Some observedAt /\
    ParseRFC3339Nano (cp_IssuedAt p) = Some issuedAt /\ (priorAt <= observedAt <= issuedAt)%Z /\
    c = mkVerifiedClosure (cx_IncidentID expected) (digestBytes raw) (cx_AuthorizationDigest expected) (cx_Successor expected).
Proof.
  unfold VerifyClosure. destruct (closureExpected raw prior expected) eqn:Ee; [|done]. cbn [negb]. cbv zeta. destruct (negb _) eqn:Ed; [done|].
  destruct (decodeCanonical _ _ _) as [[p signature]|] eqn:Edec; [|done]. apply decodeCanonical_inv in Edec.
  destruct (closureMatches p expected) eqn:Em; [|done]. cbn [negb].
  destruct (ParseRFC3339Nano (cp_ObservedAt p)) as [observedAt|] eqn:Eo; [|done].
  destruct (ParseRFC3339Nano (cp_IssuedAt p)) as [issuedAt|] eqn:Ei; [|done].
  destruct (ParseRFC3339Nano (va_issuedAt prior)) as [priorAt|] eqn:Ep; [|done].
  case_match eqn:Es; [done|]. intros Hc. injection Hc as <-. unfold closureMatches in Em. bool_simpl.
  assert (E1 : cp_Issuer p = cx_Issuer expected) by done. assert (E2 : cp_KeyID p = cx_KeyID expected) by done.
  assert (E3 : cp_IncidentID p = cx_IncidentID expected) by done. assert (E4 : cp_AuthorizationDigest p = cx_AuthorizationDigest expected) by done.
  assert (E5 : cp_Successor p = cx_Successor expected) by done.
  exists p, priorAt, observedAt, issuedAt. rewrite <- E1, <- E2, <- E3, <- E4, E5. split_and!; try done. exists signature. by split_and!.
Qed.
End closure.

(** A closure continues its authorization and names a fresh successor.  When an
    authorization and then a closure for it are verified, both documents are their
    own canonical encodings, pinned by digest and signed, each in its own signature
    domain; the closure carries the incident and the digest of that very
    authorization; the physical retirement, the authorization, the observation and
    the closure are in this order in time; every old receipt was settled by exactly
    one build; both old namespaces are retired under their old UIDs; and the
    successor shares no namespace, UID, generation or worker pool with the old
    epoch, while its route leads from the old namespace UID to the new one. *)
Theorem closure_names_fresh_successor `{External} verify raw expected roots auth raw' expected' roots' c :
  VerifyAuthorization verify raw expected roots = Ok auth ->
  VerifyClosure verify raw' auth expected' roots' = Ok c ->
  vc_IncidentID c = ax_IncidentID expected /\ vc_AuthorizationDigest c = digestBytes raw /\
  validateDispositions (ax_Receipts expected) (ax_Dispositions expected) = None /\ fresh (vc_Successor c) (ax_Source expected) /\
  exists pa pc retired issued observed closed,
    signed verify raw (ax_EnvelopeDigest expected) authorizationDomain (ax_Issuer expected) (ax_KeyID expected) (json_of_authorization pa) roots /\
    signed verify raw' (cx_EnvelopeDigest expected') closureDomain (cx_Issuer expected') (cx_KeyID expected') (json_of_closure pc) roots' /\
    cp_Source pc = ax_Source expected /\ cp_Successor pc = vc_Successor c /\
    nr_OldUID (cp_RunnerRetirement pc) = ep_NamespaceUID (ax_Source expected) /\
    nr_OldUID (cp_ReceiptRetirement pc) = ep_ReceiptNamespaceUID (ax_Source expected) /\
    ParseRFC3339Nano (pr_RetiredAt (ax_PhysicalRetirement expected)) = Some retired /\ ParseRFC3339Nano (ap_IssuedAt pa) = Some issued /\
    ParseRFC3339Nano (cp_ObservedAt pc) = Some observed /\ ParseRFC3339Nano (cp_IssuedAt pc) = Some closed /\
    (retired <= issued <= observed)%Z /\ (observed <= closed)%Z.
Proof.
  intros (pa & issued & retired & Hsa & Hsrc & _ & _ & _ & Hd & Hret & Hiss & Hle & ->)%authorization_inv Hc.
  apply closure_inv in Hc as (pc & priorAt & observed & closed & Hsc & He & Hsucc & Hcs & Hrun & Hrec & Hprior & Hobs & Hclo & Hord & ->).
  cbn [va_issuedAt] in Hprior. rewrite Hiss in Hprior. injection Hprior as <-. unfold closureExpected, validNamespaceRetirement in He. bool_simpl.
  cbn [va_incidentID va_envelopeDigest va_source] in *. split_and!; try done; [by apply validSuccessor_fresh|].
  exists pa, pc, retired, issued, observed, closed. rewrite Hrun, Hrec. split_and!; try done; try lia. by rewrite Hcs.
Qed.

(** A signature of one record cannot pass for another: the messages of drain
    permits, authorizations and closures differ whatever their payloads. *)
Lemma domains_apart d1 d2 (p q : string) :
  d1 ∈ [authorizationDomain; closureDomain; signatureDomain] -> d2 ∈ [authorizationDomain; closureDomain; signatureDomain] ->
  d1 <> d2 -> d1 +:+ p <> d2 +:+ q.
Proof.
  intros H1 H2 Hne. repeat (apply elem_of_cons in H1 as [->|H1]); repeat (apply elem_of_cons in H2 as [->|H2]).
  all: try (by apply elem_of_nil in H1); try (by apply elem_of_nil in H2); try done; cbv; intros [=].
Qed.
