(* ===== verification/ExecutionPlan.v ===== *)
(** * Execution plans

    Models [src/internal/service/recoverydisposal/execution_plan.go]: the signed
    description of every object of a retired epoch that may be disposed of, its
    bounded schema and its verification.

    The code tells a nil slice from an empty one in three fields; those are options
    here, [None] for nil.  The verifier keeps the payload of the envelope as raw
    bytes and compares it with the encoding of the pinned payload: a document whose
    payload is not in the form of the encoder cannot be equal to it. *)
From S2P Require Import Prelude GoText Json JsonFacts Sha256 Types Kube Contract QueueReceipt Effects FairQueue GoTime Permit Disposal.

Definition ExecutionPlanVersion : string := "1".
Definition ExecutionPlanAudience : string := "kova-recovery-disposal-execution-plan-v1".
Definition ExecutionPlanAction : string := "describe-exact-old-epoch-object-disposal-only".
Definition ExecutionQualificationVersion : string := "kova-disposal-object-qualification-v1".
Definition ExecutionArchiveAssertion : string := "complete-archive-durable-outside-both-old-namespaces-v1".
Definition ExecutionInventoryAssertion : string := "complete-unfiltered-old-epoch-physical-target-inventory-v1".
Definition ExecutionNoReuseAssertion : string := "both-old-namespace-names-persistently-fenced-against-reuse-v1".
Definition maxExecutionEnvelopeBytes : Z := 16 * 1024 * 1024.
Definition maxExecutionObjects : Z := 8192.
Definition maxExecutionArchiveObjects : Z := 8192.
Definition maxExecutionDispositions : Z := 2048.
Definition maxExecutionCalls : Z := 65536.
Definition maxExecutionObjectBytes : Z := 16 * 1024 * 1024.
Definition maxExecutionArchiveBytes : Z := 1024 * 1024 * 1024.
Definition executionHoldFinalizer : string := "kova.cofy.dev/recovery-hold".
Definition executionPlanDomain : string := nulTerminated "KOVA-RECOVERY-DISPOSAL-EXECUTION-PLAN-V1".

(** ** Records *)

Record ExecutionClusterIdentity := mkCluster {
  cl_SystemNamespace : string;
  cl_SystemNamespaceUID : string;
  cl_APIIdentityDigest : string }.

Record ExecutionEvidence := mkExecutionEvidence {
  xe_PhysicalRetirement : PhysicalRetirement;
  xe_StopIntentDigest : string;
  xe_InflightBarrierDigest : string;
  xe_FullArchiveManifestDigest : string;
  xe_StorageIdentityDigest : string;
  xe_ArchiveAssertion : string;
  xe_ArchiveObjectCount : Z;
  xe_ArchiveBytes : Z;
  xe_InventoryObserverDigest : string;
  xe_InventoryAssertion : string;
  xe_RunnerNoReuseFenceDigest : string;
  xe_ReceiptNoReuseFenceDigest : string;
  xe_NoReuseAssertion : string;
  xe_ObservedAt : string }.

Record ExecutionLimits := mkExecutionLimits {
  xl_MaxObjects : Z;
  xl_MaxArchiveObjects : Z;
  xl_MaxDispositions : Z;
  xl_MaxCalls : Z;
  xl_MaxObjectArchiveBytes : Z;
  xl_MaxArchiveBytes : Z }.

Record ExecutionDisposition := mkExecutionDisposition {
  xd_ID : string;
  xd_BuildName : string;
  xd_OriginalBuildUID : string;
  xd_OriginalPodUID : string;
  xd_Outcome : string;
  xd_ResultRecordDigest : string;
  xd_ApprovalDigest : string;
  xd_NeverReplay : bool }.

Record ExecutionResource := mkResource { xr_Group : string; xr_Version : string; xr_Resource : string }.

Record ExecutionTarget := mkExecutionTarget {
  xt_Resource : ExecutionResource;
  xt_Namespace : string;
  xt_NamespaceUID : string;
  xt_Name : string;
  xt_UID : string;
  xt_Role : string;
  xt_DispositionID : string;
  xt_ArchiveResourceVersion : string;
  xt_ArchiveDigest : string;
  xt_ArchiveBytes : Z;
  xt_QualificationVersion : string;
  xt_QualificationDigest : string;
  xt_AllowedKovaFinalizers : option (list string) }.

Record ExecutionPlanPayload := mkPlan {
  xp_Version : string;
  xp_Audience : string;
  xp_Action : string;
  xp_Issuer : string;
  xp_KeyID : string;
  xp_IncidentID : string;
  xp_Cluster : ExecutionClusterIdentity;
  xp_Source : EpochIdentity;
  xp_AuthorizationDigest : string;
  xp_Evidence : ExecutionEvidence;
  xp_Limits : ExecutionLimits;
  xp_Dispositions : option (list ExecutionDisposition);
  xp_Targets : option (list ExecutionTarget);
  xp_IssuedAt : string }.

Record ExecutionPlanExpectation := mkPlanExpectation {
  xx_EnvelopeDigest : string;
  xx_PlanDigest : string;
  xx_Payload : ExecutionPlanPayload }.

Record VerifiedExecutionPlan := mkVerifiedPlan {
  vp_valid : bool;
  vp_planDigest : string;
  vp_envelopeDigest : string;
  vp_payload : ExecutionPlanPayload }.

#[export] Instance ExecutionClusterIdentity_eq_dec : EqDecision ExecutionClusterIdentity.
Proof. solve_decision. Defined.
#[export] Instance ExecutionResource_eq_dec : EqDecision ExecutionResource.
Proof. solve_decision. Defined.

(** The elements of a slice, [range] and [len] on it. *)
Definition elements {A} (s : option (list A)) : list A := default [] s.
Definition finalizersOf (t : ExecutionTarget) : list string := elements (xt_AllowedKovaFinalizers t).

(** ** Encoding *)

Definition json_nilable {A} (f : A -> jvalue) (s : option (list A)) : jvalue :=
  match s with None => JNull | Some l => JArr (List.map f l) end.

Definition json_of_cluster (c : ExecutionClusterIdentity) : jvalue :=
  JObj (js "systemNamespace" (cl_SystemNamespace c) ++ js "systemNamespaceUid" (cl_SystemNamespaceUID c) ++
        js "apiIdentityDigest" (cl_APIIdentityDigest c)).
Definition json_of_evidence (e : ExecutionEvidence) : jvalue :=
  JObj ([("physicalRetirement", json_of_physical (xe_PhysicalRetirement e))] ++ js "stopIntentDigest" (xe_StopIntentDigest e) ++
        js "inflightBarrierDigest" (xe_InflightBarrierDigest e) ++ js "fullArchiveManifestDigest" (xe_FullArchiveManifestDigest e) ++
        js "storageIdentityDigest" (xe_StorageIdentityDigest e) ++ js "archiveAssertion" (xe_ArchiveAssertion e) ++
        jn "archiveObjectCount" (xe_ArchiveObjectCount e) ++ jn "archiveBytes" (xe_ArchiveBytes e) ++
        js "inventoryObserverDigest" (xe_InventoryObserverDigest e) ++ js "inventoryAssertion" (xe_InventoryAssertion e) ++
        js "runnerNoReuseFenceDigest" (xe_RunnerNoReuseFenceDigest e) ++ js "receiptNoReuseFenceDigest" (xe_ReceiptNoReuseFenceDigest e) ++
        js "noReuseAssertion" (xe_NoReuseAssertion e) ++ js "observedAt" (xe_ObservedAt e)).
Definition json_of_execution_limits (l : ExecutionLimits) : jvalue :=
  JObj (jn "maxObjects" (xl_MaxObjects l) ++ jn "maxArchiveObjects" (xl_MaxArchiveObjects l) ++
        jn "maxDispositions" (xl_MaxDispositions l) ++ jn "maxCalls" (xl_MaxCalls l) ++
        jn "maxObjectArchiveBytes" (xl_MaxObjectArchiveBytes l) ++ jn "maxArchiveBytes" (xl_MaxArchiveBytes l)).
Definition json_of_execution_disposition (d : ExecutionDisposition) : jvalue :=
  JObj (js "id" (xd_ID d) ++ js "buildName" (xd_BuildName d) ++ js "originalBuildUid" (xd_OriginalBuildUID d) ++
        js "originalPodUid" (xd_OriginalPodUID d) ++ js "outcome" (xd_Outcome d) ++
        js "resultRecordDigest" (xd_ResultRecordDigest d) ++ js "approvalDigest" (xd_ApprovalDigest d) ++
        jb "neverReplay" (xd_NeverReplay d)).
Definition json_of_resource (r : ExecutionResource) : jvalue :=
  JObj (js "group" (xr_Group r) ++ js "version" (xr_Version r) ++ js "resource" (xr_Resource r)).
Definition json_of_execution_target (t : ExecutionTarget) : jvalue :=
  JObj ([("resource", json_of_resource (xt_Resource t))] ++ js "namespace" (xt_Namespace t) ++ js "namespaceUid" (xt_NamespaceUID t) ++
        js "name" (xt_Name t) ++ js "uid" (xt_UID t) ++ js "role" (xt_Role t) ++ js "dispositionId" (xt_DispositionID t) ++
        js "archiveResourceVersion" (xt_ArchiveResourceVersion t) ++ js "archiveDigest" (xt_ArchiveDigest t) ++
        jn "archiveBytes" (xt_ArchiveBytes t) ++ js "qualificationVersion" (xt_QualificationVersion t) ++
        js "qualificationDigest" (xt_QualificationDigest t) ++
        [("allowedKovaFinalizers", json_nilable JStr (xt_AllowedKovaFinalizers t))]).
Definition json_of_plan (p : ExecutionPlanPayload) : jvalue :=
  JObj (js "version" (xp_Version p) ++ js "audience" (xp_Audience p) ++ js "action" (xp_Action p) ++
        js "issuer" (xp_Issuer p) ++ js "keyId" (xp_KeyID p) ++ js "incidentId" (xp_IncidentID p) ++
        [("cluster", json_of_cluster (xp_Cluster p)); ("source", json_of_epoch (xp_Source p))] ++
        js "authorizationDigest" (xp_AuthorizationDigest p) ++
        [("evidence", json_of_evidence (xp_Evidence p)); ("limits", json_of_execution_limits (xp_Limits p));
         ("dispositions", json_nilable json_of_execution_disposition (xp_Dispositions p));
         ("targets", json_nilable json_of_execution_target (xp_Targets p))] ++
        js "issuedAt" (xp_IssuedAt p)).

(** ** Validation *)

Section plan.
Context `{External}.

Definition reservedExecutionUID (p : ExecutionPlanPayload) (uid : string) : bool :=
  seqb uid (cl_SystemNamespaceUID (xp_Cluster p)) || seqb uid (ep_NamespaceUID (xp_Source p)) ||
  seqb uid (ep_ReceiptNamespaceUID (xp_Source p)).

(** The fields joined with NUL bytes. *)
Definition executionTargetKey (t : ExecutionTarget) : string :=
  String.concat (String (ascii_of_N 0) "")
    [xr_Group (xt_Resource t); xr_Version (xt_Resource t); xr_Resource (xt_Resource t); xt_Namespace t; xt_Name t].

Definition executionControlUIDRole (p : ExecutionPlanPayload) (uid : string) : string :=
  if seqb uid (ep_GenesisUID (xp_Source p)) then "genesis"
  else if seqb uid (ep_ActiveLedgerUID (xp_Source p)) then "active-ledger"
  else if seqb uid (ep_QueueLedgerUID (xp_Source p)) then "queue-ledger"
  else "".

Fixpoint distinctFrom (seen : gset string) (l : list string) : bool :=
  match l with
  | [] => true
  | uid :: rest => if bool_decide (uid ∈ seen) then false else distinctFrom ({[uid]} ∪ seen) rest
  end.
Definition distinctExecutionSourceUIDs (p : ExecutionPlanPayload) : bool :=
  distinctFrom ∅ [cl_SystemNamespaceUID (xp_Cluster p); ep_NamespaceUID (xp_Source p); ep_ReceiptNamespaceUID (xp_Source p);
                  ep_GenesisUID (xp_Source p); ep_ActiveLedgerUID (xp_Source p); ep_QueueLedgerUID (xp_Source p)].

Definition validExecutionLimits (l : ExecutionLimits) : bool :=
  ((0 <? xl_MaxObjects l) && (xl_MaxObjects l <=? maxExecutionObjects) &&
   (0 <? xl_MaxArchiveObjects l) && (xl_MaxArchiveObjects l <=? maxExecutionArchiveObjects) &&
   (0 <? xl_MaxDispositions l) && (xl_MaxDispositions l <=? maxExecutionDispositions) &&
   (0 <? xl_MaxCalls l) && (xl_MaxCalls l <=? maxExecutionCalls) &&
   (0 <? xl_MaxObjectArchiveBytes l) && (xl_MaxObjectArchiveBytes l <=? maxExecutionObjectBytes) &&
   (xl_MaxObjectArchiveBytes l <=? xl_MaxArchiveBytes l) && (xl_MaxArchiveBytes l <=? maxExecutionArchiveBytes))%Z.

Definition validExecutionEvidence (p : ExecutionPlanPayload) : bool :=
  let e := xp_Evidence p in
  if negb (validPhysicalRetirement (xe_PhysicalRetirement e) (xp_Source p)) || negb (digestSHA256 (xe_StopIntentDigest e)) ||
     negb (digestSHA256 (xe_InflightBarrierDigest e)) || negb (digestSHA256 (xe_FullArchiveManifestDigest e)) ||
     negb (digestSHA256 (xe_StorageIdentityDigest e)) || negb (seqb (xe_ArchiveAssertion e) ExecutionArchiveAssertion) ||
     (xe_ArchiveObjectCount e <? 0)%Z || (xl_MaxArchiveObjects (xp_Limits p) <? xe_ArchiveObjectCount e)%Z ||
     (xe_ArchiveBytes e <? 1)%Z || (xl_MaxArchiveBytes (xp_Limits p) <? xe_ArchiveBytes e)%Z ||
     negb (digestSHA256 (xe_InventoryObserverDigest e)) || negb (seqb (xe_InventoryAssertion e) ExecutionInventoryAssertion) ||
     negb (digestSHA256 (xe_RunnerNoReuseFenceDigest e)) || negb (digestSHA256 (xe_ReceiptNoReuseFenceDigest e)) ||
     negb (seqb (xe_NoReuseAssertion e) ExecutionNoReuseAssertion)
  then false
  else
    let retired := instant (pr_RetiredAt (xe_PhysicalRetirement e)) in
    match ParseRFC3339Nano (xe_ObservedAt e) with
    | None => false
    | Some observed =>
        if (observed <? retired)%Z then false
        else match ParseRFC3339Nano (xp_IssuedAt p) with
             | None => false
             | Some issued => negb (issued <? observed)%Z
             end
    end.

Definition validExecutionDisposition (d : ExecutionDisposition) : bool :=
  if negb (safeID (xd_ID d) maxIDBytes) || negb (IsDNS1123Subdomain (xd_BuildName d)) || negb (xd_NeverReplay d) ||
     negb (sempty (xd_OriginalBuildUID d)) && negb (safeID (xd_OriginalBuildUID d) maxIDBytes) ||
     negb (sempty (xd_OriginalPodUID d)) && (negb (safeID (xd_OriginalPodUID d) maxIDBytes) || sempty (xd_OriginalBuildUID d))
  then false
  else if seqb (xd_Outcome d) "terminal-result" then
    negb (sempty (xd_OriginalBuildUID d)) && digestSHA256 (xd_ResultRecordDigest d) && sempty (xd_ApprovalDigest d)
  else if seqb (xd_Outcome d) "approved-unknown-discard" then
    digestSHA256 (xd_ApprovalDigest d) && sempty (xd_ResultRecordDigest d)
  else false.

Definition configmaps : ExecutionResource := mkResource "" "v1" "configmaps".
Definition pods : ExecutionResource := mkResource "" "v1" "pods".
Definition kovabuilds : ExecutionResource := mkResource Group Version "kovabuilds".

(** The switch over the role: the resource it must have and whether it needs a
    disposition, when its own conditions hold. *)
Definition roleOf (p : ExecutionPlanPayload) (t : ExecutionTarget) (d : option ExecutionDisposition) : option (ExecutionResource * bool) :=
  let inSource := seqb (xt_Namespace t) (ep_Namespace (xp_Source p)) in
  let role := xt_Role t in
  if seqb role "original-build" || seqb role "build-tombstone" then
    match d with
    | Some d => if inSource && seqb (xt_Name t) (xd_BuildName d) &&
                   negb (seqb role "original-build" && negb (seqb (xt_UID t) (xd_OriginalBuildUID d))) &&
                   negb (seqb role "build-tombstone" && seqb (xt_UID t) (xd_OriginalBuildUID d))
                then Some (kovabuilds, true) else None
    | None => None
    end
  else if seqb role "original-pod" || seqb role "pod-tombstone" then
    match d with
    | Some d => if inSource && negb (seqb role "original-pod" && negb (seqb (xt_UID t) (xd_OriginalPodUID d))) &&
                   negb (seqb role "pod-tombstone" && seqb (xt_UID t) (xd_OriginalPodUID d))
                then Some (pods, true) else None
    | None => None
    end
  else if seqb role "queue-receipt" || seqb role "grant-receipt" || seqb role "pod-create-receipt" then
    if seqb (xt_Namespace t) (ep_ReceiptNamespace (xp_Source p)) then Some (configmaps, true) else None
  else if seqb role "occupancy-attempt" then if inSource then Some (configmaps, true) else None
  else if seqb role "genesis" then
    if inSource && seqb (xt_Name t) (ep_GenesisName (xp_Source p)) && seqb (xt_UID t) (ep_GenesisUID (xp_Source p))
    then Some (configmaps, false) else None
  else if seqb role "active-ledger" || seqb role "queue-ledger" then
    if inSource && negb (seqb role "active-ledger" && negb (seqb (xt_UID t) (ep_ActiveLedgerUID (xp_Source p)))) &&
       negb (seqb role "queue-ledger" && negb (seqb (xt_UID t) (ep_QueueLedgerUID (xp_Source p))))
    then Some (configmaps, false) else None
  else if seqb role "stop-intent" then Some (configmaps, false)
  else None.

Definition finalizerAllowed (role finalizer : string) : bool :=
  if seqb finalizer CleanupFinalizer then seqb role "original-build"
  else if seqb finalizer executionHoldFinalizer then
    seqb role "original-build" || seqb role "build-tombstone" || seqb role "original-pod" || seqb role "pod-tombstone" ||
    seqb role "occupancy-attempt"
  else false.

Definition validExecutionTarget (p : ExecutionPlanPayload) (t : ExecutionTarget) (dispositions : gmap string ExecutionDisposition) : bool :=
  if negb (IsDNS1123Subdomain (xt_Name t)) || negb (safeID (xt_UID t) maxIDBytes) || reservedExecutionUID p (xt_UID t) ||
     negb (safeID (xt_ArchiveResourceVersion t) maxIDBytes) || negb (digestSHA256 (xt_ArchiveDigest t)) ||
     (xt_ArchiveBytes t <? 1)%Z || (xl_MaxObjectArchiveBytes (xp_Limits p) <? xt_ArchiveBytes t)%Z ||
     negb (seqb (xt_QualificationVersion t) ExecutionQualificationVersion) || negb (digestSHA256 (xt_QualificationDigest t)) ||
     bool_decide (xt_AllowedKovaFinalizers t = None) || (2 <? Z.of_nat (List.length (finalizersOf t)))%Z then false
  else if (negb (seqb (xt_Namespace t) (ep_Namespace (xp_Source p))) || negb (seqb (xt_NamespaceUID t) (ep_NamespaceUID (xp_Source p)))) &&
          (negb (seqb (xt_Namespace t) (ep_ReceiptNamespace (xp_Source p))) ||
           negb (seqb (xt_NamespaceUID t) (ep_ReceiptNamespaceUID (xp_Source p)))) then false
  else if negb (sempty (executionControlUIDRole p (xt_UID t))) && negb (seqb (xt_Role t) (executionControlUIDRole p (xt_UID t))) then false
  else
    let d := dispositions !! xt_DispositionID t in
    match roleOf p t d with
    | None => false
    | Some (resource, requiresDisposition) =>
        if negb (bool_decide (xt_Resource t = resource)) || requiresDisposition && bool_decide (d = None) ||
           negb requiresDisposition && negb (sempty (xt_DispositionID t)) then false
        else adjacent str_ltb (finalizersOf t) && forallb (finalizerAllowed (xt_Role t)) (finalizersOf t)
    end.

(** The historical UIDs of one disposition, recorded in the set of all of them. *)
Fixpoint recordOriginals (p : ExecutionPlanPayload) (originals : gset string) (l : list string) : option (gset string) :=
  match l with
  | [] => Some originals
  | uid :: rest =>
      if sempty uid then recordOriginals p originals rest
      else if bool_decide (uid ∈ originals) || reservedExecutionUID p uid || negb (sempty (executionControlUIDRole p uid)) then None
      else recordOriginals p ({[uid]} ∪ originals) rest
  end.

Fixpoint planDispositions (p : ExecutionPlanPayload) (byID : gmap string ExecutionDisposition) (originals : gset string)
    (previous : option ExecutionDisposition) (ds : list ExecutionDisposition) : option (gmap string ExecutionDisposition * gset string) :=
  match ds with
  | [] => Some (byID, originals)
  | d :: rest =>
      if negb (validExecutionDisposition d) ||
         match previous with Some q => negb (str_ltb (xd_ID q) (xd_ID d)) | None => false end then None
      else match recordOriginals p originals [xd_OriginalBuildUID d; xd_OriginalPodUID d] with
           | None => None
           | Some originals' => planDispositions p (<[xd_ID d := d]> byID) originals' (Some d) rest
           end
  end.

(** The sum is an [int64]; it stays below [maxExecutionObjects] times the size
    limit of one object. *)
Fixpoint planTargets (p : ExecutionPlanPayload) (byID : gmap string ExecutionDisposition) (originals seen : gset string) (archiveBytes : Z)
    (previous : option ExecutionTarget) (ts : list ExecutionTarget) : bool :=
  match ts with
  | [] => true
  | t :: rest =>
      if negb (validExecutionTarget p t byID) || bool_decide (xt_UID t ∈ seen) ||
         match previous with Some q => negb (str_ltb (executionTargetKey q) (executionTargetKey t)) | None => false end ||
         bool_decide (xt_UID t ∈ originals) && negb (seqb (xt_Role t) "original-build") && negb (seqb (xt_Role t) "original-pod")
      then false
      else
        let archiveBytes := (archiveBytes + xt_ArchiveBytes t)%Z in
        if (xe_ArchiveBytes (xp_Evidence p) <? archiveBytes)%Z then false
        else planTargets p byID originals ({[xt_UID t]} ∪ seen) archiveBytes (Some t) rest
  end.

Definition planHeader (p : ExecutionPlanPayload) : bool :=
  seqb (xp_Version p) ExecutionPlanVersion && seqb (xp_Audience p) ExecutionPlanAudience && seqb (xp_Action p) ExecutionPlanAction &&
  safeID (xp_Issuer p) maxIDBytes && safeID (xp_KeyID p) maxIDBytes && safeID (xp_IncidentID p) maxIncidentIDBytes &&
  validEpoch (xp_Source p) && ValidWorkerPoolID (ep_WorkerPoolID (xp_Source p)) && distinctExecutionSourceUIDs p &&
  seqb (cl_SystemNamespace (xp_Cluster p)) "kube-system" && safeID (cl_SystemNamespaceUID (xp_Cluster p)) maxIDBytes &&
  negb (seqb (ep_Namespace (xp_Source p)) (cl_SystemNamespace (xp_Cluster p))) &&
  negb (seqb (ep_ReceiptNamespace (xp_Source p)) (cl_SystemNamespace (xp_Cluster p))) &&
  negb (seqb (cl_SystemNamespaceUID (xp_Cluster p)) (ep_NamespaceUID (xp_Source p))) &&
  negb (seqb (cl_SystemNamespaceUID (xp_Cluster p)) (ep_ReceiptNamespaceUID (xp_Source p))) &&
  digestSHA256 (cl_APIIdentityDigest (xp_Cluster p)) && digestSHA256 (xp_AuthorizationDigest p) &&
  validExecutionLimits (xp_Limits p) && validExecutionEvidence p &&
  negb (bool_decide (xp_Targets p = None)) && (Z.of_nat (List.length (elements (xp_Targets p))) <=? xl_MaxObjects (xp_Limits p))%Z &&
  negb (bool_decide (xp_Dispositions p = None)) &&
  (Z.of_nat (List.length (elements (xp_Dispositions p))) <=? xl_MaxDispositions (xp_Limits p))%Z &&
  (Z.of_nat (List.length (elements (xp_Targets p))) <=? xe_ArchiveObjectCount (xp_Evidence p))%Z.

Definition validExecutionPlan (p : ExecutionPlanPayload) : bool :=
  if negb (planHeader p) then false
  else match planDispositions p ∅ ∅ None (elements (xp_Dispositions p)) with
       | None => false
       | Some (byID, originals) => planTargets p byID originals ∅ 0 None (elements (xp_Targets p))
       end.

(** ** Verification *)

Definition DigestExecutionPlan (p : ExecutionPlanPayload) : result string :=
  if negb (validExecutionPlan p) then Err ErrUnqualified
  else
    let raw := json_print (json_of_plan p) in
    if (maxExecutionEnvelopeBytes <? slen raw)%Z then Err ErrUnqualified else Ok (digestBytes raw).

Variable ed25519_Verify : string -> string -> string -> bool.

(** The envelope with its payload as a JSON value; a payload that is missing is
    a nil [json.RawMessage], which does not print back to the document. *)
Definition decodeRaw (raw : string) : result (jvalue * string) := decodeCanonical (fun v => v) (fun v => v) raw.

Definition VerifyExecutionPlan (raw : string) (expected : ExecutionPlanExpectation) (roots : TrustRoots) : result VerifiedExecutionPlan :=
  if sempty raw || (maxExecutionEnvelopeBytes <? slen raw)%Z || negb (digestSHA256 (xx_EnvelopeDigest expected)) ||
     negb (digestSHA256 (xx_PlanDigest expected)) || negb (seqb (digestBytes raw) (xx_EnvelopeDigest expected)) then Err ErrUnqualified
  else match DigestExecutionPlan (xx_Payload expected) with
  | Err _ => Err ErrUnqualified
  | Ok pinnedDigest =>
      if negb (seqb pinnedDigest (xx_PlanDigest expected)) then Err ErrUnqualified
      else match decodeRaw raw with
      | Err _ => Err ErrUnqualified
      | Ok (payload, signature) =>
          let p := xx_Payload expected in
          if negb (seqb (json_print payload) (json_print (json_of_plan p))) ||
             negb (verifySignature ed25519_Verify (json_of_plan p) signature executionPlanDomain (xp_Issuer p) (xp_KeyID p) roots)
          then Err ErrUnqualified
          else Ok (mkVerifiedPlan true pinnedDigest (xx_EnvelopeDigest expected) p)
      end
  end.

End plan.
