(* ===== verification/Executor.v ===== *)
(** * The exact-object executor

    Models [executor.go], [executor_grant.go] and [preflight.go] of
    [src/internal/service/recoverydisposal]: the separately signed mutation grant,
    the qualification of the archived objects, and the finite executor that deletes
    exactly the planned objects of two terminating namespaces and removes only the
    finalizers the plan allows.

    The unstructured objects of [k8s.io/apimachinery] and the decoder of
    [sigs.k8s.io/json] are the interface [Unstructured]; the clock, the contexts and
    the API client are requests of the program, so that every theorem holds for any
    behaviour of them.  The counters of the report are the state of the executor.
    A nil context or client is refused by the code and not represented here. *)
From S2P Require Import Prelude Free GoText Json JsonFacts Sha256 Types Kube Contract QueueReceipt Effects GoTime Permit Disposal ExecutionPlan.

(** ** Objects *)

Class Unstructured := {
  uobj : Type;
  u_GroupVersionKind : uobj -> string * string * string;      (* group, version, kind *)
  u_GetAPIVersion : uobj -> string;
  u_GetKind : uobj -> string;
  u_GetNamespace : uobj -> string;
  u_GetName : uobj -> string;
  u_GetUID : uobj -> string;
  u_GetResourceVersion : uobj -> string;
  u_NestedString : uobj -> list string -> option (option string);      (* [None]: error, [Some None]: absent *)
  u_NestedStringSlice : uobj -> list string -> option (list string);   (* empty when absent *)
  u_NestedInt64 : uobj -> list string -> option (option Z);
  u_RemoveNestedField : uobj -> list string -> uobj;
  u_SetNestedStringSlice : uobj -> list string -> list string -> option uobj;
  u_SetGeneration : uobj -> Z -> uobj;
  u_Marshal : uobj -> option string;                                   (* [json.Marshal(obj.Object)] *)
  u_UnmarshalStrict : string -> option uobj }.

Definition executionCallTimeout : Z := 10 * 1000000000.
Definition executionMaxObservedBytes : Z := 64 * 1024 * 1024.
Definition executionMaxTargetArchiveBytes : Z := 64 * 1024 * 1024.
Definition executionObservedStage : string := "exact-targets-absent-observed-not-closed".
Definition ErrExecutionUnknown := Sentinel "exact disposal observation is unknown".
Definition ErrExecutionBudget := Sentinel "exact disposal execution budget exceeded".
Definition FinalizerOrphanDependents : string := "orphan".
Definition FinalizerDeleteDependents : string := "foregroundDeletion".

(** ** The mutation grant *)

Definition MutationGrantVersion : string := "1".
Definition MutationGrantAudience : string := "kova-recovery-disposal-mutation-grant-v1".
Definition MutationGrantAction : string := "conditionally-dispose-exact-terminating-old-epoch-targets-only".
Definition maxMutationGrantBytes : Z := 32 * 1024.
Definition maxMutationGrantAge : Z := 15 * 60 * 1000000000.
Definition mutationGrantDomain : string := nulTerminated "KOVA-RECOVERY-DISPOSAL-MUTATION-GRANT-V1".

Record MutationGrantPayload := mkGrantPayload {
  mg_Version : string;
  mg_Audience : string;
  mg_Action : string;
  mg_Issuer : string;
  mg_KeyID : string;
  mg_IncidentID : string;
  mg_Cluster : ExecutionClusterIdentity;
  mg_Source : EpochIdentity;
  mg_PlanDigest : string;
  mg_PlanEnvelopeDigest : string;
  mg_ReviewDigest : string;
  mg_NotBefore : string;
  mg_ExpiresAt : string }.
Record MutationGrantExpectation := mkGrantExpectation { mx_EnvelopeDigest : string; mx_Payload : MutationGrantPayload }.

(** Times are nanoseconds since the epoch. *)
Record VerifiedMutationGrant := mkVerifiedGrant {
  vg_valid : bool;
  vg_envelopeDigest : string;
  vg_payload : MutationGrantPayload;
  vg_notBefore : Z;
  vg_expiresAt : Z }.

Definition json_of_mutation_grant (p : MutationGrantPayload) : jvalue :=
  JObj (js "version" (mg_Version p) ++ js "audience" (mg_Audience p) ++ js "action" (mg_Action p) ++
        js "issuer" (mg_Issuer p) ++ js "keyId" (mg_KeyID p) ++ js "incidentId" (mg_IncidentID p) ++
        [("cluster", json_of_cluster (mg_Cluster p)); ("source", json_of_epoch (mg_Source p))] ++
        js "planDigest" (mg_PlanDigest p) ++ js "planEnvelopeDigest" (mg_PlanEnvelopeDigest p) ++
        js "reviewDigest" (mg_ReviewDigest p) ++ js "notBefore" (mg_NotBefore p) ++ js "expiresAt" (mg_ExpiresAt p)).

Definition validMutationGrant (p : MutationGrantPayload) (plan : VerifiedExecutionPlan) : bool :=
  let pl := vp_payload plan in
  if negb (seqb (mg_Version p) MutationGrantVersion) || negb (seqb (mg_Audience p) MutationGrantAudience) ||
     negb (seqb (mg_Action p) MutationGrantAction) || negb (safeID (mg_Issuer p) maxIDBytes) || negb (safeID (mg_KeyID p) maxIDBytes) ||
     negb (seqb (mg_IncidentID p) (xp_IncidentID pl)) || negb (bool_decide (mg_Cluster p = xp_Cluster pl)) ||
     negb (bool_decide (mg_Source p = xp_Source pl)) || negb (seqb (mg_PlanDigest p) (vp_planDigest plan)) ||
     negb (seqb (mg_PlanEnvelopeDigest p) (vp_envelopeDigest plan)) || negb (digestSHA256 (mg_ReviewDigest p)) then false
  else match ParseRFC3339Nano (mg_NotBefore p), ParseRFC3339Nano (mg_ExpiresAt p) with
       | Some start, Some end_ =>
           negb (start <? instant (xp_IssuedAt pl))%Z && (start <? end_)%Z && (end_ - start <=? maxMutationGrantAge)%Z
       | _, _ => false
       end.

Definition current (v : VerifiedMutationGrant) (now : Z) : bool :=
  vg_valid v && negb (now <? vg_notBefore v)%Z && (now <? vg_expiresAt v)%Z.

Definition VerifyMutationGrant `{External} (ed25519_Verify : string -> string -> string -> bool) (raw : string)
    (expected : MutationGrantExpectation) (roots : TrustRoots) (plan : VerifiedExecutionPlan) (now : Z) : result VerifiedMutationGrant :=
  let p := mx_Payload expected in
  if negb (vp_valid plan) || sempty raw || (maxMutationGrantBytes <? slen raw)%Z || negb (digestSHA256 (mx_EnvelopeDigest expected)) ||
     negb (seqb (digestBytes raw) (mx_EnvelopeDigest expected)) || negb (validMutationGrant p plan) then Err ErrUnqualified
  else match decodeRaw raw with
  | Err _ => Err ErrUnqualified
  | Ok (payload, signature) =>
      if negb (seqb (json_print payload) (json_print (json_of_mutation_grant p))) ||
         negb (verifySignature ed25519_Verify (json_of_mutation_grant p) signature mutationGrantDomain (mg_Issuer p) (mg_KeyID p) roots)
      then Err ErrUnqualified
      else
        let grant := mkVerifiedGrant true (mx_EnvelopeDigest expected) p (instant (mg_NotBefore p)) (instant (mg_ExpiresAt p)) in
        if negb (current grant now) then Err ErrUnqualified else Ok grant
  end.

(** ** Projections of objects *)

Section executor.
Context `{Unstructured}.

Definition zeroTime : Z := -62135596800000000000.

Definition executionDeleting (obj : uobj) : result bool :=
  match u_NestedString obj ["metadata"; "deletionTimestamp"] with
  | None => Err ErrUnqualified
  | Some None => Ok false
  | Some (Some value) =>
      match ParseRFC3339Nano value with
      | None => Err ErrUnqualified
      | Some t => if (t =? zeroTime)%Z then Err ErrUnqualified else Ok true
      end
  end.

Definition executionFinalizers (obj : uobj) : result (list string) :=
  match u_NestedStringSlice obj ["metadata"; "finalizers"] with
  | None => Err ErrUnqualified
  | Some finalizers =>
      if forallb (fun f => safeID f maxIDBytes) finalizers && distinctFrom ∅ finalizers then Ok finalizers else Err ErrUnqualified
  end.

Definition executionGVK (r : ExecutionResource) : string * string * string :=
  if bool_decide (r = configmaps) then ("", "v1", "ConfigMap")
  else if bool_decide (r = pods) then ("", "v1", "Pod")
  else if bool_decide (r = kovabuilds) then (Group, Version, "KovaBuild")
  else ("", "", "").

(** The finalizers the plan does not let the executor remove. *)
Definition foreignFinalizers (t : ExecutionTarget) (l : list string) : list string :=
  List.filter (fun f => negb (bool_decide (f ∈ finalizersOf t))) l.

Definition volatileFields : list string := ["resourceVersion"; "managedFields"; "deletionTimestamp"; "deletionGracePeriodSeconds"].

Definition executionProjection (t : ExecutionTarget) (obj : uobj) : result string :=
  let gvk := executionGVK (xt_Resource t) in
  if bool_decide (gvk = ("", "", "")) || negb (bool_decide (u_GroupVersionKind obj = gvk)) ||
     negb (seqb (u_GetNamespace obj) (xt_Namespace t)) || negb (seqb (u_GetName obj) (xt_Name t)) ||
     negb (seqb (u_GetUID obj) (xt_UID t)) || negb (safeID (u_GetResourceVersion obj) maxIDBytes) then Err ErrUnqualified
  else match executionDeleting obj with
  | Err e => Err e
  | Ok deleting =>
      match executionFinalizers obj with
      | Err e => Err e
      | Ok finalizers =>
          if negb deleting && (bool_decide (FinalizerOrphanDependents ∈ finalizers) || bool_decide (FinalizerDeleteDependents ∈ finalizers))
          then Err ErrUnqualified
          else
            let copy := foldl (fun o field => u_RemoveNestedField o ["metadata"; field]) obj volatileFields in
            let foreign := foreignFinalizers t finalizers in
            let projected :=
              match foreign with
              | [] => Some (u_RemoveNestedField copy ["metadata"; "finalizers"])
              | _ => u_SetNestedStringSlice copy foreign ["metadata"; "finalizers"]
              end in
            match projected with
            | None => Err ErrUnqualified
            | Some o => match u_Marshal o with None => Err ErrUnqualified | Some raw => Ok raw end
            end
      end
  end.

Record qualifiedArchive := mkQualified {
  qa_projection : string;
  qa_generation : option Z;      (* [hasGeneration] and its value *)
  qa_deleting : bool }.

Definition qualificationRecord (t : ExecutionTarget) (projection : string) : jvalue :=
  JObj (js "version" (xt_QualificationVersion t) ++ [("resource", json_of_resource (xt_Resource t))] ++ js "namespace" (xt_Namespace t) ++
        js "namespaceUid" (xt_NamespaceUID t) ++ js "name" (xt_Name t) ++ js "uid" (xt_UID t) ++ js "role" (xt_Role t) ++
        js "dispositionId" (xt_DispositionID t) ++ js "archiveDigest" (xt_ArchiveDigest t) ++
        js "projectionDigest" (digestBytes projection) ++ [("allowedFinalizers", json_nilable JStr (xt_AllowedKovaFinalizers t))]).

Definition qualifyArchive (t : ExecutionTarget) (raw : string) : result (qualifiedArchive * string) :=
  if sempty raw || (maxExecutionObjectBytes <? slen raw)%Z || negb (slen raw =? xt_ArchiveBytes t)%Z ||
     negb (seqb (digestBytes raw) (xt_ArchiveDigest t)) || negb (seqb (xt_QualificationVersion t) ExecutionQualificationVersion)
  then Err ErrUnqualified
  else match u_UnmarshalStrict raw with
  | None => Err ErrUnqualified
  | Some obj =>
      if negb (bool_decide (u_Marshal obj = Some raw)) || negb (seqb (u_GetResourceVersion obj) (xt_ArchiveResourceVersion t))
      then Err ErrUnqualified
      else match executionProjection t obj, u_NestedInt64 obj ["metadata"; "generation"], executionDeleting obj with
      | Ok projection, Some generation, Ok deleting =>
          if (default 0 generation <? 0)%Z then Err ErrUnqualified
          else Ok (mkQualified projection generation deleting, digestBytes (json_print (qualificationRecord t projection)))
      | _, _, _ => Err ErrUnqualified
      end
  end.

Definition DigestExecutionQualification (t : ExecutionTarget) (archived : string) : result string :=
  match qualifyArchive t archived with Ok (_, digest) => Ok digest | Err e => Err e end.

(** The increment of the generation when an object enters deletion, and only that,
    is taken back before the comparison. *)
Definition executionObservedProjection (t : ExecutionTarget) (obj : uobj) (archive : qualifiedArchive) : result string :=
  match executionDeleting obj with
  | Err _ => Err ErrUnqualified
  | Ok deleting =>
      if qa_deleting archive && negb deleting then Err ErrUnqualified
      else match executionProjection t obj with
      | Err e => Err e
      | Ok projection =>
          if seqb projection (qa_projection archive) then Ok projection
          else match u_NestedInt64 obj ["metadata"; "generation"], qa_generation archive with
          | Some (Some generation), Some archived =>
              if qa_deleting archive || negb deleting || (archived <=? 0)%Z || (archived =? 9223372036854775807)%Z ||
                 negb (generation =? archived + 1)%Z then Err ErrUnqualified
              else executionProjection t (u_SetGeneration obj archived)
          | _, _ => Err ErrUnqualified
          end
      end
  end.

(** ** Requests, and programs with counters *)

Inductive patchOp := PTestUID (uid : string) | PTestResourceVersion (rv : string) | PTestFinalizers (l : list string)
| PReplaceFinalizers (l : list string).

Inductive ExecutionAPI : Type -> Type :=
| XNow : ExecutionAPI Z                                        (* [x.now()] *)
| XDone : ExecutionAPI bool                                    (* [ctx.Err() != nil] *)
| XCallDone : ExecutionAPI bool                                (* [c.Err() != nil] of the context of one call *)
| XGet (gvk : string * string * string) (ns name : string) : ExecutionAPI (result uobj)
| XDelete (obj : uobj) (uid rv : string) : ExecutionAPI (option error)
| XPatch (obj : uobj) (patch : list patchOp) : ExecutionAPI (uobj * option error).

Record counters := mkCounters { APICalls : Z; MutationAttempts : Z; ObservedBytes : Z }.
Definition countCall (c : counters) : counters := mkCounters (APICalls c + 1) (MutationAttempts c) (ObservedBytes c).
Definition countMutation (c : counters) : counters := mkCounters (APICalls c) (MutationAttempts c + 1) (ObservedBytes c).
Definition countBytes (n : Z) (c : counters) : counters := mkCounters (APICalls c) (MutationAttempts c) (ObservedBytes c + n).

Definition ask {X} (e : ExecutionAPI X) : free ExecutionAPI X := fcall e.
Definition exec (A : Type) : Type := counters -> free ExecutionAPI (counters * A).
Definition xret {A} (a : A) : exec A := fun c => Done (c, a).
Definition xbind {A B} (p : exec A) (f : A -> exec B) : exec B := fun c => fbind (p c) (fun r => f r.2 r.1).
Definition xask {X} (e : ExecutionAPI X) : exec X := fun c => Ask e (fun x => Done (c, x)).
Definition xget : exec counters := fun c => Done (c, c).
Definition xmodify (f : counters -> counters) : exec unit := fun c => Done (f c, tt).

End executor.

Declare Scope exec_scope.
Delimit Scope exec_scope with exec.
Notation "'let!' x := p 'in' q" := (xbind p (fun x => q))
  (at level 10, x pattern, p at level 100, q at level 200) : exec_scope.
(** [x, err := p; if err != nil { return onerr(err) }]. *)
Notation "'try!' x := p 'else' f 'in' q" := (xbind p (fun r => match r with Err err => f err | Ok x => q end))
  (at level 10, x pattern, p at level 100, f at level 100, q at level 200) : exec_scope.
Open Scope exec_scope.

(** ** Archive preflight *)

Section execution.
Context `{Unstructured}.

Record ArchivePreflightReport := mkArchiveReport {
  ar_Stage : string;
  ar_PlanDigest : string;
  ar_PlanEnvelope : string;
  ar_TargetCount : Z;
  ar_TargetBytes : Z;
  ar_RequiredAPICalls : Z }.

(** [clock] is [None] for the exported preflight, which has no grant to check. *)
Definition qualified (clock : option VerifiedMutationGrant) : free ExecutionAPI bool :=
  let+ over := ask XDone in
  if over then Done false
  else match clock with
       | None => Done true
       | Some grant => let+ now := ask XNow in Done (current grant now)
       end.

Fixpoint archiveSizes (clock : option VerifiedMutationGrant) (p : ExecutionPlanPayload) (total : Z) (archives : list string)
    : free ExecutionAPI (result Z) :=
  match archives with
  | [] => Done (Ok total)
  | raw :: rest =>
      let+ ok := qualified clock in
      if negb ok || (xl_MaxObjectArchiveBytes (xp_Limits p) <? slen raw)%Z then Done (Err ErrUnqualified)
      else
        let total := (total + slen raw)%Z in
        if (executionMaxTargetArchiveBytes <? total)%Z then Done (Err ErrExecutionBudget)
        else if (xl_MaxArchiveBytes (xp_Limits p) <? total)%Z || (xe_ArchiveBytes (xp_Evidence p) <? total)%Z then Done (Err ErrUnqualified)
        else archiveSizes clock p total rest
  end.

Fixpoint archiveRefs (clock : option VerifiedMutationGrant) (targets : list ExecutionTarget) (archives : list string)
    : free ExecutionAPI (result (list qualifiedArchive)) :=
  match targets, archives with
  | t :: targets, raw :: archives =>
      let+ ok := qualified clock in
      if negb ok then Done (Err ErrUnqualified)
      else match qualifyArchive t raw with
      | Err _ => Done (Err ErrUnqualified)
      | Ok (ref, digest) =>
          if negb (seqb digest (xt_QualificationDigest t)) then Done (Err ErrUnqualified)
          else
            let+ ok := qualified clock in
            if negb ok then Done (Err ErrUnqualified)
            else
              let+ rest := archiveRefs clock targets archives in
              Done (match rest with Err e => Err e | Ok refs => Ok (ref :: refs) end)
      end
  | _, _ => Done (Ok [])
  end.

Definition reservedCalls (targets : nat) : Z := 9 + 24 * Z.of_nat targets.

Definition preflightArchives (plan : VerifiedExecutionPlan) (archives : list string) (clock : option VerifiedMutationGrant)
    : free ExecutionAPI (result (ArchivePreflightReport * list qualifiedArchive)) :=
  let p := vp_payload plan in
  let targets := elements (xp_Targets p) in
  if negb (vp_valid plan) then Done (Err ErrUnqualified)
  else
    let+ ok := qualified clock in
    if negb ok || negb (Nat.eqb (List.length archives) (List.length targets)) then Done (Err ErrUnqualified)
    else
      let reserved := reservedCalls (List.length targets) in
      if (xl_MaxCalls (xp_Limits p) <? reserved)%Z then Done (Err ErrExecutionBudget)
      else
        let+ sizes := archiveSizes clock p 0 archives in
        match sizes with
        | Err e => Done (Err e)
        | Ok total =>
            let+ refs := archiveRefs clock targets archives in
            match refs with
            | Err e => Done (Err e)
            | Ok refs => Done (Ok (mkArchiveReport "exact-target-archives-qualified-not-authorized" (vp_planDigest plan)
                                     (vp_envelopeDigest plan) (Z.of_nat (List.length archives)) total reserved, refs))
            end
        end.

Definition PreflightArchives (plan : VerifiedExecutionPlan) (archives : list string) : free ExecutionAPI (result ArchivePreflightReport) :=
  let+ r := preflightArchives plan archives None in
  Done (match r with Ok (report, _) => Ok report | Err e => Err e end).

(** ** The executor *)

Context (plan : ExecutionPlanPayload) (grant : VerifiedMutationGrant).

Definition call {X} (op : exec (result X)) : exec (result X) :=
  let! now := xask XNow in
  let! over := xask XDone in
  if over || negb (current grant now) then xret (Err ErrExecutionUnknown)
  else
    let! c := xget in
    if (xl_MaxCalls (xp_Limits plan) <=? APICalls c)%Z then xret (Err ErrExecutionBudget)
    else
      let! expired := xask XCallDone in
      if expired then xret (Err ErrExecutionUnknown)
      else
        let! _ := xmodify countCall in
        let! r := op in
        let! expired := xask XCallDone in
        if expired then xret (Err ErrExecutionUnknown)
        else
          let! now := xask XNow in
          if negb (current grant now) then xret (Err ErrExecutionUnknown) else xret r.

Definition account (obj : uobj) : exec (option error) :=
  let! c := xget in
  match u_Marshal obj with
  | None => xret (Some ErrExecutionBudget)
  | Some raw =>
      if (xl_MaxObjectArchiveBytes (xp_Limits plan) <? slen raw)%Z || (executionMaxObservedBytes <? ObservedBytes c + slen raw)%Z
      then xret (Some ErrExecutionBudget)
      else let! _ := xmodify (countBytes (slen raw)) in xret None
  end.

Definition namespaceGVK : string * string * string := ("", "v1", "Namespace").

(** One namespace as the guard requires it: the system namespace active, the two
    old ones terminating. *)
Definition pinned (name uid : string) (old : bool) (obj : uobj) : bool :=
  match u_NestedString obj ["status"; "phase"], executionDeleting obj with
  | Some phase, Ok deleting =>
      seqb (u_GetAPIVersion obj) "v1" && seqb (u_GetKind obj) "Namespace" && seqb (u_GetName obj) name &&
      sempty (u_GetNamespace obj) && seqb (u_GetUID obj) uid && safeID (u_GetResourceVersion obj) maxIDBytes &&
      (if old then deleting && bool_decide (phase = Some "Terminating") else negb deleting && bool_decide (phase = Some "Active"))
  | _, _ => false
  end.

Definition guardOne (name uid : string) : exec (option error) :=
  let! r := call (xask (XGet namespaceGVK "" name)) in
  match r with
  | Err _ => xret (Some ErrExecutionUnknown)
  | Ok obj =>
      let! e := account obj in
      match e with
      | Some e => xret (Some e)
      | None => if pinned name uid (negb (seqb name (cl_SystemNamespace (xp_Cluster plan)))) obj then xret None
                else xret (Some ErrExecutionUnknown)
      end
  end.

Definition pins : list (string * string) :=
  [(cl_SystemNamespace (xp_Cluster plan), cl_SystemNamespaceUID (xp_Cluster plan));
   (ep_Namespace (xp_Source plan), ep_NamespaceUID (xp_Source plan));
   (ep_ReceiptNamespace (xp_Source plan), ep_ReceiptNamespaceUID (xp_Source plan))].

Fixpoint guardLoop (l : list (string * string)) : exec (option error) :=
  match l with
  | [] => xret None
  | (name, uid) :: rest =>
      let! e := guardOne name uid in
      match e with Some e => xret (Some e) | None => guardLoop rest end
  end.
Definition guard : exec (option error) := guardLoop pins.

(** The object is the archived one, up to what deletion itself changes. *)
Definition projects (t : ExecutionTarget) (obj : uobj) (ref : qualifiedArchive) : bool :=
  match executionObservedProjection t obj ref with Ok projection => seqb projection (qa_projection ref) | Err _ => false end.

(** [Ok None]: the target was not found. *)
Definition target (t : ExecutionTarget) (ref : qualifiedArchive) : exec (result (option uobj)) :=
  let! r := call (xask (XGet (executionGVK (xt_Resource t)) (xt_Namespace t) (xt_Name t))) in
  match r with
  | Err e => if IsNotFound e then xret (Ok None) else xret (Err ErrExecutionUnknown)
  | Ok obj =>
      let! e := account obj in
      match e with
      | Some e => xret (Err e)
      | None =>
          if projects t obj ref then xret (Ok (Some obj)) else xret (Err ErrExecutionUnknown)
      end
  end.

(** [deleting, _ := executionDeleting(obj)]. *)
Definition isDeleting (obj : uobj) : bool := match executionDeleting obj with Ok b => b | Err _ => false end.

Definition guarded {A} (k : exec (result A)) : exec (result A) :=
  let! e := guard in match e with Some e => xret (Err e) | None => k end.

Definition absentObservation : string := "absent-at-direct-read".

(** [return "absent-at-direct-read", x.guard()]. *)
Definition absent : exec (result string) := guarded (xret (Ok absentObservation)).

Definition deleteTarget (obj : uobj) : exec (result unit) :=
  call (let! _ := xmodify countMutation in
        let! e := xask (XDelete obj (u_GetUID obj) (u_GetResourceVersion obj)) in
        xret (match e with None => Ok tt | Some e => Err e end)).

Definition finalizerPatch (obj : uobj) (before after : list string) : list patchOp :=
  [PTestUID (u_GetUID obj); PTestResourceVersion (u_GetResourceVersion obj); PTestFinalizers before; PReplaceFinalizers after].

Definition patchTarget (obj : uobj) (before after : list string) : exec (result uobj) :=
  call (let! _ := xmodify countMutation in
        let! (patched, e) := xask (XPatch obj (finalizerPatch obj before after)) in
        xret (match e with None => Ok patched | Some e => Err e end)).

Definition finish (after : list string) : exec (result string) :=
  guarded (xret (Ok (match after with
                     | [] => "deleting-no-authorized-kova-finalizers-observed"
                     | _ => "deleting-foreign-finalizers-preserved"
                     end))).

Definition finalizersAre (obj : uobj) (l : list string) : bool :=
  match executionFinalizers obj with Ok r => bool_decide (r = l) | Err _ => false end.

(** The target is being deleted: remove the finalizers the plan allows. *)
Definition releaseTarget (t : ExecutionTarget) (ref : qualifiedArchive) (obj : uobj) : exec (result string) :=
  match executionFinalizers obj with
  | Err _ => xret (Err ErrExecutionUnknown)
  | Ok before =>
      let after := foreignFinalizers t before in
      if Nat.eqb (List.length after) (List.length before) then finish after
      else guarded (
        let! r := patchTarget obj before after in
        match r with
        | Err _ => xret (Err ErrExecutionUnknown)
        | Ok patched =>
            let! e := account patched in
            match e with
            | Some e => xret (Err e)
            | None =>
                if negb (projects t patched ref) ||
                   negb (isDeleting patched) || negb (finalizersAre patched after) then xret (Err ErrExecutionUnknown)
                else guarded (
                  try! again := target t ref else (fun e => xret (Err e)) in
                  match again with
                  | None => absent
                  | Some obj => if negb (isDeleting obj) || negb (finalizersAre obj after) then xret (Err ErrExecutionUnknown) else finish after
                  end)
            end
        end)
  end.

Definition dispose (t : ExecutionTarget) (ref : qualifiedArchive) : exec (result string) :=
  guarded (
    try! found := target t ref else (fun e => xret (Err e)) in
    match found with
    | None => absent
    | Some obj =>
        if isDeleting obj then releaseTarget t ref obj
        else guarded (
          let! r := deleteTarget obj in
          match r with
          | Err _ => xret (Err ErrExecutionUnknown)
          | Ok _ => guarded (
              try! again := target t ref else (fun e => xret (Err e)) in
              match again with
              | None => absent
              | Some obj => if negb (isDeleting obj) then xret (Err ErrExecutionUnknown) else releaseTarget t ref obj
              end)
          end)
    end).

Record ExecutionObservation := mkObservation {
  eo_Resource : ExecutionResource; eo_Namespace : string; eo_Name : string; eo_UID : string; eo_Observation : string }.
Definition observationOf (t : ExecutionTarget) (o : string) : ExecutionObservation :=
  mkObservation (xt_Resource t) (xt_Namespace t) (xt_Name t) (xt_UID t) o.

Fixpoint preflightTargets (work : list (ExecutionTarget * qualifiedArchive)) : exec (option error) :=
  match work with
  | [] => xret None
  | (t, ref) :: rest =>
      let! r := target t ref in
      match r with Err e => xret (Some e) | Ok _ => preflightTargets rest end
  end.

Fixpoint disposeAll (work : list (ExecutionTarget * qualifiedArchive)) (done : list ExecutionObservation)
    : exec (list ExecutionObservation * option error) :=
  match work with
  | [] => xret (done, None)
  | (t, ref) :: rest =>
      let! r := dispose t ref in
      match r with
      | Err e => xret (done, Some e)
      | Ok o => disposeAll rest (done ++ [observationOf t o])
      end
  end.

Record ExecutionReport := mkExecutionReport {
  xrp_Stage : string;
  xrp_PlanDigest : string;
  xrp_GrantDigest : string;
  xrp_Counters : counters;
  xrp_Observations : list ExecutionObservation }.

(** The whole procedure once everything given was qualified. *)
Definition executeQualified (work : list (ExecutionTarget * qualifiedArchive)) : exec (string * list ExecutionObservation * option error) :=
  let fail e done := xret ("unknown", done, Some e) in
  let! e := guard in
  match e with
  | Some e => fail e []
  | None =>
      let! e := preflightTargets work in
      match e with
      | Some e => fail e []
      | None =>
          let! e := guard in
          match e with
          | Some e => fail e []
          | None =>
              let! (done, e) := disposeAll work [] in
              match e with
              | Some e => fail e done
              | None =>
                  let! e := guard in
                  match e with
                  | Some e => fail e done
                  | None =>
                      let stage := if forallb (fun o => seqb (eo_Observation o) absentObservation) done
                                   then executionObservedStage else "exact-disposal-pending" in
                      xret (stage, done, None)
                  end
              end
          end
      end
  end.

End execution.

Definition execute `{Unstructured} (plan : VerifiedExecutionPlan) (grant : VerifiedMutationGrant) (archives : list string)
    : free ExecutionAPI (ExecutionReport * option error) :=
  let report stage c done := mkExecutionReport stage (vp_planDigest plan) (vg_envelopeDigest grant) c done in
  let refused e := Done (report "not-started" (mkCounters 0 0 0) [], Some e) in
  let targets := elements (xp_Targets (vp_payload plan)) in
  if negb (vp_valid plan) || negb (vg_valid grant) || negb (validMutationGrant (vg_payload grant) plan) then refused ErrUnqualified
  else
    let+ now := ask XNow in
    if negb (current grant now) then refused ErrUnqualified
    else
      let+ over := ask XDone in
      if over || negb (Nat.eqb (List.length archives) (List.length targets)) then refused ErrUnqualified
      else
        let+ pre := preflightArchives plan archives (Some grant) in
        match pre with
        | Err e => refused e
        | Ok (_, refs) =>
            let+ now := ask XNow in
            if negb (current grant now) then refused ErrUnqualified
            else
              let+ (c, (stage, done, err)) := executeQualified (vp_payload plan) grant (zip targets refs) (mkCounters 0 0 0) in
              Done (report stage c done, err)
        end.
