(* ===== verification/ExecutorFacts.v ===== *)
(** * Runs of the executor

    [xruns p c tr c' a]: from counters [c] the step [p] exchanged [tr] and ended
    with counters [c'] and result [a].  [bounded k m p] is a cost judgment, closed
    under sequencing: a run of [p] issues at most [k] API calls, [m] of them writes,
    counts all of them, and keeps the observed bytes within their limit. *)
From S2P Require Import Prelude Free GoText Json Sha256 Types Kube Contract QueueReceipt Effects GoTime Permit Disposal ExecutionPlan Executor.

Notation event := (exchange ExecutionAPI).
Notation said := (asked (E := ExecutionAPI)).

Section facts.
Context `{Unstructured}.

Definition isCall (x : event) : bool :=
  match x with existT X (e, v) => match e with XGet _ _ _ | XDelete _ _ _ | XPatch _ _ => true | _ => false end end.
Definition isMutation (x : event) : bool :=
  match x with existT X (e, v) => match e with XDelete _ _ _ | XPatch _ _ => true | _ => false end end.

Definition xruns {A} (p : exec A) (c : counters) (tr : list event) (c' : counters) (a : A) : Prop := fruns (p c) tr (c', a).

Lemma xruns_bind {A B} (p : exec A) (f : A -> exec B) c tr c'' b :
  xruns (xbind p f) c tr c'' b -> exists tr1 c' a tr2, tr = tr1 ++ tr2 /\ xruns p c tr1 c' a /\ xruns (f a) c' tr2 c'' b.
Proof. intros Hr. apply fruns_bind in Hr as (tr1 & [c' a] & tr2 & -> & H1 & H2). by exists tr1, c', a, tr2. Qed.

Lemma xruns_ret {A} (a b : A) c tr c' : xruns (xret a) c tr c' b -> tr = [] /\ c' = c /\ b = a.
Proof. intros [-> E]. by simplify_eq. Qed.

Lemma xruns_ask {X} (e : ExecutionAPI X) c tr c' x : xruns (xask e) c tr c' x -> tr = [said e x] /\ c' = c.
Proof. intros (y & tr' & -> & -> & E). by simplify_eq. Qed.

Lemma xruns_get c tr c' x : xruns xget c tr c' x -> tr = [] /\ c' = c /\ x = c.
Proof. intros [-> E]. by simplify_eq. Qed.

Lemma xruns_modify f c tr c' u : xruns (xmodify f) c tr c' u -> tr = [] /\ c' = f c.
Proof. intros [-> E]. by simplify_eq. Qed.
End facts.

Ltac xstep :=
  match goal with
  | H : xruns (xbind _ _) _ _ _ _ |- _ => apply xruns_bind in H as (? & ? & ? & ? & -> & ? & ?)
  | H : xruns (xret _) _ _ _ _ |- _ => apply xruns_ret in H as (-> & -> & ?); simplify_eq/=
  | H : xruns (xask _) _ _ _ _ |- _ => apply xruns_ask in H as (-> & ->)
  | H : xruns xget _ _ _ _ |- _ => apply xruns_get in H as (-> & -> & ->)
  | H : xruns (xmodify _) _ _ _ _ |- _ => apply xruns_modify in H as (-> & ->)
  | H : xruns (match ?x with _ => _ end) _ _ _ _ |- _ => let E := fresh "E" in destruct x eqn:E
  end.
(** The first step of a sequence: its trace, the counters after it, its result. *)
Ltac xfirst H tr c a Hp := apply xruns_bind in H as (tr & c & a & ? & -> & Hp & H).

Section cost.
Context `{Unstructured} (plan : ExecutionPlanPayload) (grant : VerifiedMutationGrant).

Record bounded {A} (k m : nat) (p : exec A) : Prop := {
  bounded_runs c tr c' a :
    xruns p c tr c' a ->
    APICalls c' = (APICalls c + Z.of_nat (count isCall tr))%Z /\ count isCall tr <= k /\
    MutationAttempts c' = (MutationAttempts c + Z.of_nat (count isMutation tr))%Z /\ count isMutation tr <= m /\
    (ObservedBytes c <= executionMaxObservedBytes -> ObservedBytes c' <= executionMaxObservedBytes)%Z }.

Lemma bounded_ret {A} (a : A) k m : bounded k m (xret a).
Proof. constructor. intros c tr c' b Hr. xstep. rewrite ?count_nil. split_and!; (lia || done). Qed.

Lemma bounded_bind {A B} k1 m1 k2 m2 k m (p : exec A) (f : A -> exec B) :
  bounded k1 m1 p -> (forall a, bounded k2 m2 (f a)) -> k1 + k2 <= k -> m1 + m2 <= m -> bounded k m (xbind p f).
Proof.
  intros Hp Hf Hk Hm. constructor. intros c tr c' b Hr. xfirst Hr tr1 c1 a H1.
  apply Hp in H1 as (E1 & L1 & F1 & M1 & O1). apply (Hf a) in Hr as (E2 & L2 & F2 & M2 & O2).
  rewrite !count_app, E2, E1, F2, F1. split_and!; try lia; auto.
Qed.

Lemma bounded_ask {X} (e : ExecutionAPI X) k m : (forall x, isCall (said e x) = false /\ isMutation (said e x) = false) -> bounded k m (xask e).
Proof.
  intros He. constructor. intros c tr c' x Hr. xstep. destruct (He x) as [E1 E2]. rewrite !count_cons, E1, E2, ?count_nil.
  simpl. split_and!; (lia || done).
Qed.

Lemma bounded_get k m : bounded k m xget.
Proof. constructor. intros c tr c' x Hr. xstep. rewrite ?count_nil. split_and!; (lia || done). Qed.

(** A call around an operation that is one request, a write when [w] is set. *)
Lemma bounded_call {X} (w : bool) (op : exec (result X)) :
  (forall c tr c' r, xruns op c tr c' r -> exists x, tr = [x] /\ isCall x = true /\ isMutation x = w /\
     c' = if w then countMutation c else c) ->
  bounded 1 (if w then 1 else 0) (call plan grant op).
Proof.
  intros Hop. constructor. intros c tr c' r Hr. unfold call in Hr. repeat xstep.
  all: try match goal with Hop : forall c tr c0 r, _ -> _, Hx : xruns _ _ _ _ _ |- _ => apply Hop in Hx as (x & -> & Ec & Em & ->) end.
  all: cbn [app]; rewrite ?app_nil_r, ?count_cons, ?count_app, ?count_cons, ?Ec, ?Em, ?count_nil; simpl.
  all: destruct w; simpl; split_and!; (lia || done).
Qed.

(** Sequencing against a budget: what the first step costs is taken off. *)
Lemma bounded_seq {A B} k1 m1 k m (p : exec A) (f : A -> exec B) :
  bounded k1 m1 p -> k1 <= k -> m1 <= m -> (forall a, bounded (k - k1) (m - m1) (f a)) -> bounded k m (xbind p f).
Proof. intros Hp Hk Hm Hf. eapply bounded_bind; [exact Hp|exact Hf|lia|lia]. Qed.

Lemma bounded_get_call gvk ns name : bounded 1 0 (call plan grant (xask (XGet gvk ns name))).
Proof. apply (bounded_call false). intros c tr c' r Hr. xstep. by eexists. Qed.

Lemma bounded_delete obj : bounded 1 1 (deleteTarget plan grant obj).
Proof. apply (bounded_call true). intros c tr c' r Hr. repeat xstep; by eexists. Qed.

Lemma bounded_patch obj before after : bounded 1 1 (patchTarget plan grant obj before after).
Proof. apply (bounded_call true). intros c tr c' r Hr. repeat xstep; by eexists. Qed.

Lemma bounded_account obj : bounded 0 0 (account plan obj).
Proof.
  constructor. intros c tr c' e Hr. unfold account in Hr. repeat xstep; cbn [app]; rewrite ?count_nil; simpl.
  all: bool_simpl; split_and!; (lia || done).
Qed.
End cost.

Create HintDb cost.
#[export] Hint Resolve bounded_ret bounded_get bounded_get_call bounded_delete bounded_patch bounded_account : cost.

(** Follows the code, spending the budget; each step is bounded by a lemma of the
    database. *)
Ltac cost_step :=
  match goal with
  | |- forall _, bounded _ _ _ => intros ?; cbn [Nat.sub]
  | |- bounded _ _ (xbind _ _) => eapply bounded_seq; [solve [eauto with cost]|lia|lia|]
  | |- bounded _ _ (match ?x with _ => _ end) => destruct x
  | |- bounded _ _ _ => solve [eauto with cost]
  end.
Ltac cost := repeat cost_step.

Section costs.
Context `{Unstructured} (plan : ExecutionPlanPayload) (grant : VerifiedMutationGrant).

Lemma bounded_weaken {A} k m k' m' (p : exec A) : bounded k m p -> k <= k' -> m <= m' -> bounded k' m' p.
Proof.
  intros Hp Hk Hm. constructor. intros c tr c' a Hr. apply Hp in Hr as (? & ? & ? & ? & ?). split_and!; (lia || done).
Qed.

Lemma bounded_guardOne name uid : bounded 1 0 (guardOne plan grant name uid).
Proof. unfold guardOne. cost. Qed.

Lemma bounded_guard : bounded 3 0 (guard plan grant).
Proof. unfold guard, pins, guardLoop. pose proof bounded_guardOne. cost. Qed.
Hint Resolve bounded_guard : cost.

Lemma bounded_target t ref : bounded 1 0 (target plan grant t ref).
Proof. unfold target. cost. Qed.
Hint Resolve bounded_target : cost.

Lemma bounded_guarded {A} k m (p : exec (result A)) : bounded k m p -> bounded (3 + k) m (guarded plan grant p).
Proof.
  intros Hp. unfold guarded. eapply bounded_seq; [apply bounded_guard|lia|lia|]. intros e. rewrite Nat.sub_0_r.
  replace (3 + k - 3) with k by lia. cost.
Qed.

Lemma bounded_absent : bounded 3 0 (absent plan grant).
Proof. apply (bounded_guarded 0). cost. Qed.
Hint Resolve bounded_absent : cost.

Lemma bounded_finish after : bounded 3 0 (finish plan grant after).
Proof. apply (bounded_guarded 0). cost. Qed.
Hint Resolve bounded_finish : cost.

(** From a target that is being deleted: at most eleven calls, one of them a write. *)
Lemma bounded_release t ref obj : bounded 11 1 (releaseTarget plan grant t ref obj).
Proof.
  unfold releaseTarget. cost_step; [|cost]. cbv zeta. cost_step; [eapply bounded_weaken; [apply bounded_finish|lia|lia]|].
  apply (bounded_guarded 8). repeat cost_step; try (eapply bounded_weaken; [apply bounded_ret|lia|lia]).
  apply (bounded_guarded 4). cost.
Qed.

(** A target costs at most 23 calls, two of them writes. *)
Lemma bounded_dispose t ref : bounded 23 2 (dispose plan grant t ref).
Proof.
  unfold dispose. apply (bounded_guarded 20). repeat cost_step; try (eapply bounded_weaken; [apply bounded_absent || apply bounded_release|lia|lia]).
  apply (bounded_guarded 16). repeat cost_step.
  apply (bounded_guarded 12). repeat cost_step; (eapply bounded_weaken; [apply bounded_absent || apply bounded_release|lia|lia]).
Qed.

Lemma bounded_preflight work : bounded (List.length work) 0 (preflightTargets plan grant work).
Proof.
  induction work as [|[t ref] work IH]; simpl; [cost|]. eapply bounded_seq; [apply bounded_target|lia|lia|]. intros r.
  replace (S (List.length work) - 1) with (List.length work) by lia. cost.
Qed.

Lemma bounded_disposeAll work : forall done, bounded (23 * List.length work) (2 * List.length work) (disposeAll plan grant work done).
Proof.
  induction work as [|[t ref] work IH]; intros done; simpl disposeAll; [cost|].
  eapply bounded_seq; [apply bounded_dispose|simpl; lia|simpl; lia|]. intros r. destruct r; [|cost].
  eapply bounded_weaken; [apply IH|simpl; lia|simpl; lia].
Qed.

Lemma bounded_execute work : bounded (9 + 24 * List.length work) (2 * List.length work) (executeQualified plan grant work).
Proof.
  unfold executeQualified. eapply bounded_seq; [apply bounded_guard|lia|lia|]. intros e. destruct e; [cost|].
  eapply bounded_seq; [apply bounded_preflight|lia|lia|]. intros e. destruct e; [cost|].
  eapply bounded_seq; [apply bounded_guard|lia|lia|]. intros e. destruct e; [cost|].
  eapply bounded_seq; [apply bounded_disposeAll|lia|lia|]. intros [done e]. destruct e; [cost|].
  eapply bounded_seq; [apply bounded_guard|lia|lia|]. intros e. destruct e; cost.
Qed.
End costs.
