(* ===== verification/ExecutorTheorems.v ===== *)
(** * What the executor may do and what its report means

    Theorems about all runs of [execute], whatever the API server, the contexts and
    the clock answer. *)
From S2P Require Import Prelude Free GoText Json Sha256 Types Kube Contract QueueReceipt Effects GoTime Permit Disposal ExecutionPlan Executor ExecutorFacts.

Section discipline.
Context `{Unstructured} (plan : ExecutionPlanPayload) (grant : VerifiedMutationGrant) (work : list (ExecutionTarget * qualifiedArchive)).

Definition getOf (t : ExecutionTarget) : ExecutionAPI (result uobj) := XGet (executionGVK (xt_Resource t)) (xt_Namespace t) (xt_Name t).
Definition calls (tr : list event) : list event := List.filter isCall tr.
Definition noMutation (tr : list event) : Prop := Forall (fun x => isMutation x = false) tr.

Lemma calls_app tr1 tr2 : calls (tr1 ++ tr2) = calls tr1 ++ calls tr2.
Proof. apply List.filter_app. Qed.

(** A target was read and found absent or exactly as archived. *)
Definition seen (past : list event) (w : ExecutionTarget * qualifiedArchive) : Prop :=
  exists r, said (getOf w.1) r ∈ past /\ match r with Ok obj => projects w.1 obj w.2 = true | Err e => IsNotFound e = true end.

Lemma seen_mono past past' w : (forall x, x ∈ past -> x ∈ past') -> seen past w -> seen past' w.
Proof. intros Hx (r & Hr & Hm). exists r. split; [by apply Hx|done]. Qed.

(** Three reads that found the system namespace active and both old namespaces, by
    UID, terminating. *)
Definition guardedBy (l : list event) : Prop :=
  Forall2 (fun pin x => exists obj, x = said (XGet namespaceGVK "" pin.1) (Ok obj) /\
    pinned pin.1 pin.2 (negb (seqb pin.1 (cl_SystemNamespace (xp_Cluster plan)))) obj = true) (pins plan) l.

(** The write [x] to the object [obj] that was read for [t]: a Delete of exactly
    this UID and resource version, or a Patch that tests both, tests the finalizers
    and removes from them, in order, exactly those the plan allows. *)
Definition mutation (t : ExecutionTarget) (obj : uobj) (x : event) : Prop :=
  match x with
  | existT X (e, v) =>
      match e with
      | XDelete o uid rv => o = obj /\ uid = xt_UID t /\ uid = u_GetUID obj /\ rv = u_GetResourceVersion obj /\ isDeleting obj = false
      | XPatch o patch => o = obj /\ isDeleting obj = true /\ exists before, executionFinalizers obj = Ok before /\
          patch = [PTestUID (xt_UID t); PTestResourceVersion (u_GetResourceVersion obj); PTestFinalizers before;
                   PReplaceFinalizers (List.filter (fun f => negb (bool_decide (f ∈ finalizersOf t))) before)] /\
          exists f, f ∈ before /\ f ∈ finalizersOf t
      | _ => False
      end
  end.

(** The write [x] after the exchanges [past]. *)
Definition lawful (past : list event) (x : event) : Prop :=
  Forall (seen past) work /\
  exists t ref obj p0 mid now,
    (t, ref) ∈ work /\ projects t obj ref = true /\ mutation t obj x /\
    past = p0 ++ said (getOf t) (Ok obj) :: mid ++ [said XNow now; said XDone false; said XCallDone false] /\
    guardedBy (calls mid) /\ current grant now = true.

Definition disciplined : list event -> list event -> Prop := follows (fun past x => isMutation x = true -> lawful past x).

Lemma execution_disciplined_reads past tr : noMutation tr -> disciplined past tr.
Proof. intros Hr. apply follows_all. eapply Forall_impl; [exact Hr|]. simpl. congruence. Qed.

Lemma noMutation_app tr1 tr2 : noMutation (tr1 ++ tr2) <-> noMutation tr1 /\ noMutation tr2.
Proof. apply Forall_app. Qed.

(** ** Reads *)

Lemma call_get gvk ns name c tr c' r :
  xruns (call plan grant (xask (XGet gvk ns name))) c tr c' r ->
  noMutation tr /\
  match r with
  | Ok obj => exists q1 q2, tr = q1 ++ said (XGet gvk ns name) (Ok obj) :: q2 /\ calls q1 = [] /\ calls q2 = []
  | Err e => IsNotFound e = true -> said (XGet gvk ns name) (Err e) ∈ tr
  end.
Proof.
  unfold call. intros Hr. repeat xstep; (split; [by repeat constructor|]); try done.
  match goal with |- match ?r with _ => _ end => destruct r as [obj|e] end; [|intros _; set_solver].
  by eexists [_; _; _], [_; _].
Qed.

Lemma account_quiet obj c tr c' e : xruns (account plan obj) c tr c' e -> tr = [].
Proof. unfold account. intros Hr. by repeat xstep. Qed.

Lemma guardOne_runs name uid c tr c' e :
  xruns (guardOne plan grant name uid) c tr c' e ->
  noMutation tr /\ (e = None -> exists obj, calls tr = [said (XGet namespaceGVK "" name) (Ok obj)] /\
    pinned name uid (negb (seqb name (cl_SystemNamespace (xp_Cluster plan)))) obj = true).
Proof.
  unfold guardOne. intros Hr. xfirst Hr tr1 c1 r Hg. apply call_get in Hg as [Hn Hg]. destruct r as [obj|e0].
  - destruct Hg as (q1 & q2 & -> & Hq1 & Hq2). xfirst Hr tr2 c2 e2 Ha. apply account_quiet in Ha as ->.
    repeat xstep; rewrite app_nil_r; (split; [done|]); try done. intros _. exists obj. split; [|done].
    by rewrite calls_app, Hq1; simpl; fold (calls q2); rewrite Hq2.
  - xstep. rewrite app_nil_r. done.
Qed.

Lemma guardLoop_runs l c tr c' e :
  xruns (guardLoop plan grant l) c tr c' e ->
  noMutation tr /\ (e = None -> Forall2 (fun pin x => exists obj, x = said (XGet namespaceGVK "" pin.1) (Ok obj) /\
    pinned pin.1 pin.2 (negb (seqb pin.1 (cl_SystemNamespace (xp_Cluster plan)))) obj = true) l (calls tr)).
Proof.
  revert c tr. induction l as [|[name uid] l IH]; intros c tr Hr; cbn [guardLoop] in Hr.
  { xstep. split; [constructor|by constructor]. }
  xfirst Hr tr1 c1 e1 Hg. apply guardOne_runs in Hg as [Hn Hg]. destruct e1 as [e1|].
  { xstep. rewrite app_nil_r. done. }
  apply IH in Hr as [Hn2 Hr]. split; [by apply noMutation_app|]. intros He. destruct (Hg eq_refl) as (obj & Hc & Hp).
  rewrite calls_app, Hc. constructor; [by exists obj|by apply Hr].
Qed.

Lemma guard_runs c tr c' e : xruns (guard plan grant) c tr c' e -> noMutation tr /\ (e = None -> guardedBy (calls tr)).
Proof. apply guardLoop_runs. Qed.

Lemma target_runs t ref c tr c' r :
  xruns (target plan grant t ref) c tr c' r ->
  noMutation tr /\
  match r with
  | Ok (Some obj) => projects t obj ref = true /\ exists q1 q2, tr = q1 ++ said (getOf t) (Ok obj) :: q2 /\ calls q2 = []
  | Ok None => exists e, said (getOf t) (Err e) ∈ tr /\ IsNotFound e = true
  | Err _ => True
  end.
Proof.
  unfold target. intros Hr. xfirst Hr tr1 c1 r1 Hg. apply call_get in Hg as [Hn Hg]. destruct r1 as [obj|e0].
  - destruct Hg as (q1 & q2 & -> & Hq1 & Hq2). xfirst Hr tr2 c2 e2 Ha. apply account_quiet in Ha as ->.
    repeat xstep; rewrite app_nil_r; (split; [done|]); try done. split; [done|]. by exists q1, q2.
  - repeat xstep; rewrite app_nil_r; (split; [done|]); try done. exists e0. auto.
Qed.

Lemma target_seen t ref c tr c' o : xruns (target plan grant t ref) c tr c' (Ok o) -> seen tr (t, ref).
Proof.
  intros [_ Hr]%target_runs. destruct o as [obj|].
  - destruct Hr as (Hp & q1 & q2 & -> & _). exists (Ok obj). split; [set_solver|done].
  - destruct Hr as (e & He & Hn). by exists (Err e).
Qed.

Lemma projects_identity t obj ref :
  projects t obj ref = true ->
  u_GetUID obj = xt_UID t /\ u_GetNamespace obj = xt_Namespace t /\ u_GetName obj = xt_Name t /\
  u_GroupVersionKind obj = executionGVK (xt_Resource t) /\ executionGVK (xt_Resource t) <> ("", "", "").
Proof.
  unfold projects, executionObservedProjection. destruct (executionDeleting obj); [|done]. destruct (_ && _); [done|].
  unfold executionProjection at 1. destruct (_ || _) eqn:E; [done|]. intros _. by bool_simpl.
Qed.

Lemma absent_reads c tr c' r : xruns (absent plan grant) c tr c' r -> noMutation tr.
Proof.
  unfold absent, guarded. intros Hr. xfirst Hr tr1 c1 e Hg. apply guard_runs in Hg as [Hn _]. apply noMutation_app. split; [done|].
  repeat xstep; constructor.
Qed.

Lemma finish_reads after c tr c' r : xruns (finish plan grant after) c tr c' r -> noMutation tr.
Proof.
  unfold finish, guarded. intros Hr. xfirst Hr tr1 c1 e Hg. apply guard_runs in Hg as [Hn _]. apply noMutation_app. split; [done|].
  repeat xstep; constructor.
Qed.

(** ** Writes *)

(** A call of one write: it was not sent, or it was sent right after the clock was
    found within the grant. *)
Definition sends {X} (e : ExecutionAPI X) (tr : list event) : Prop :=
  noMutation tr \/
  exists now v q, tr = [said XNow now; said XDone false; said XCallDone false; said e v] ++ q /\ noMutation q /\ current grant now = true.

Lemma delete_sends obj c tr c' r :
  xruns (deleteTarget plan grant obj) c tr c' r -> sends (XDelete obj (u_GetUID obj) (u_GetResourceVersion obj)) tr.
Proof.
  unfold deleteTarget, call. intros Hr. repeat xstep; bool_simpl; subst; try (left; by repeat constructor).
  all: right; eexists _, _, _; (split; [done|]); (split; [by repeat constructor|done]).
Qed.

Lemma patch_sends obj before after c tr c' r :
  xruns (patchTarget plan grant obj before after) c tr c' r -> sends (XPatch obj (finalizerPatch obj before after)) tr.
Proof.
  unfold patchTarget, call. intros Hr. repeat xstep; bool_simpl; subst; try (left; by repeat constructor).
  all: right; eexists _, _, _; (split; [done|]); (split; [by repeat constructor|done]).
Qed.

(** The exchanges before a step: all targets were seen, and the object was read
    for its target with no call since. *)
Definition found (t : ExecutionTarget) (ref : qualifiedArchive) (obj : uobj) (past : list event) : Prop :=
  (t, ref) ∈ work /\ Forall (seen past) work /\ projects t obj ref = true /\
  exists p0 q, past = p0 ++ said (getOf t) (Ok obj) :: q /\ calls q = [].

Lemma sends_disciplined {X} (e : ExecutionAPI X) t ref obj past g tr :
  found t ref obj past -> noMutation g -> guardedBy (calls g) -> (forall v, mutation t obj (said e v)) -> sends e tr ->
  disciplined past (g ++ tr).
Proof.
  intros (Hw & Hs & Hp & p0 & q & -> & Hq) Hn Hg Hm Hsend. apply follows_app; [by apply execution_disciplined_reads|].
  destruct Hsend as [Hr|(now & v & q2 & -> & Hq2 & Hc)]; [by apply execution_disciplined_reads|].
  apply follows_app; [|by apply execution_disciplined_reads]. do 3 (split; [done|]). split; [|done]. intros _. split.
  { eapply Forall_impl; [exact Hs|]. intros w. apply seen_mono. set_solver. }
  exists t, ref, obj, p0, (q ++ g), now. split_and!; try done.
  - by rewrite <- !app_assoc.
  - by rewrite calls_app, Hq.
Qed.

Lemma foreign_shorter t before :
  List.length (foreignFinalizers t before) <> List.length before -> exists f, f ∈ before /\ f ∈ finalizersOf t.
Proof.
  unfold foreignFinalizers. induction before as [|f before IH]; [done|]. simpl. case_bool_decide as E; simpl.
  - intros _. exists f. split; [left|done].
  - intros Hl. destruct IH as (f' & ? & ?); [lia|]. exists f'. split; [by right|done].
Qed.

Lemma found_again t ref obj past q1 q2 :
  (t, ref) ∈ work -> Forall (seen past) work -> projects t obj ref = true -> calls q2 = [] ->
  found t ref obj (past ++ q1 ++ said (getOf t) (Ok obj) :: q2).
Proof.
  intros Hw Hs Hp Hq. split; [done|]. split_and!; [|done|].
  - eapply Forall_impl; [exact Hs|]. intros w. apply seen_mono. set_solver.
  - exists (past ++ q1), q2. by rewrite <- app_assoc.
Qed.

Lemma release_disciplined t ref obj past c tr c' r :
  found t ref obj past -> isDeleting obj = true -> xruns (releaseTarget plan grant t ref obj) c tr c' r -> disciplined past tr.
Proof.
  intros Hf Hd. unfold releaseTarget. destruct (executionFinalizers obj) as [before|] eqn:Eb; [|intros Hr; by xstep].
  cbv zeta. destruct (Nat.eqb _ _) eqn:El; intros Hr; [by eapply execution_disciplined_reads, finish_reads|]. unfold guarded in Hr at 1.
  xfirst Hr g c1 e Hg. apply guard_runs in Hg as [Hgn Hg]. destruct e as [e|].
  { xstep. rewrite app_nil_r. by apply execution_disciplined_reads. }
  xfirst Hr tp c2 rp Hp. apply patch_sends in Hp. rewrite app_assoc. pose proof Hf as (_ & _ & Hproj & _).
  apply follows_app.
  { eapply sends_disciplined; [exact Hf|done|by apply Hg| |exact Hp]. intros v. split; [done|]. split; [done|]. exists before.
    destruct (projects_identity _ _ _ Hproj) as (Hu & _). unfold finalizerPatch. rewrite Hu. split_and!; try done.
    apply foreign_shorter. by apply Nat.eqb_neq. }
  apply execution_disciplined_reads. destruct rp as [patched|]; [|repeat xstep; constructor]. xfirst Hr ta c3 e3 Ha. apply account_quiet in Ha as ->. cbn [app].
  destruct e3; [repeat xstep; constructor|]. destruct (_ || _); [repeat xstep; constructor|]. unfold guarded in Hr.
  xfirst Hr g2 c4 e4 Hg2. apply guard_runs in Hg2 as [Hg2 _]. apply noMutation_app. split; [done|]. destruct e4; [repeat xstep; constructor|].
  xfirst Hr trt c5 again Ht. apply target_runs in Ht as [Ht _]. apply noMutation_app. split; [done|].
  destruct again as [[o|]|]; [|by eapply absent_reads|repeat xstep; constructor]. destruct (_ || _); [repeat xstep; constructor|by eapply finish_reads].
Qed.

Lemma dispose_disciplined t ref past c tr c' r :
  (t, ref) ∈ work -> Forall (seen past) work -> xruns (dispose plan grant t ref) c tr c' r -> disciplined past tr.
Proof.
  intros Hw Hs. unfold dispose, guarded. intros Hr. xfirst Hr g c1 e Hg. apply guard_runs in Hg as [Hgn _]. rename Hgn into Hn1.
  apply follows_app; [by apply execution_disciplined_reads|]. destruct e as [e|]; [repeat xstep; done|].
  xfirst Hr trt c2 once Ht. apply target_runs in Ht as [Hn2 Ht]. apply follows_app; [by apply execution_disciplined_reads|].
  destruct once as [[obj|]|e]; [|by eapply execution_disciplined_reads, absent_reads|repeat xstep; done].
  destruct Ht as (Hproj & q1 & q2 & -> & Hq2). rewrite <- app_assoc, (app_assoc past g).
  assert (Hf : found t ref obj ((past ++ g) ++ q1 ++ said (getOf t) (Ok obj) :: q2)).
  { apply found_again; try done. eapply Forall_impl; [exact Hs|]. intros w. apply seen_mono. set_solver. }
  destruct (isDeleting obj) eqn:Ed; [by eapply release_disciplined|].
  xfirst Hr g2 c3 e Hg2. apply guard_runs in Hg2 as [Hgn2 Hg2]. destruct e as [e|].
  { repeat xstep. rewrite app_nil_r. by apply execution_disciplined_reads. }
  xfirst Hr td c4 rd Hdel. apply delete_sends in Hdel. rewrite (app_assoc g2). apply follows_app.
  { eapply sends_disciplined; [exact Hf|done|by apply Hg2| |exact Hdel]. intros v. destruct (projects_identity _ _ _ Hproj) as (Hu & _). done. }
  destruct rd; [|repeat xstep; done]. xfirst Hr g3 c5 e Hg3. apply guard_runs in Hg3 as [Hg3 _].
  apply follows_app; [by apply execution_disciplined_reads|]. destruct e; [repeat xstep; done|].
  xfirst Hr t2 c6 again Ht2. apply target_runs in Ht2 as [Hn3 Ht2]. apply follows_app; [by apply execution_disciplined_reads|].
  destruct again as [[o|]|e]; [|by eapply execution_disciplined_reads, absent_reads|repeat xstep; done].
  destruct Ht2 as (Hp2 & q3 & q4 & -> & Hq4). destruct (isDeleting o) eqn:Eo; [|repeat xstep; done]. eapply release_disciplined; [|done|exact Hr].
  apply found_again; try done. eapply Forall_impl; [exact Hs|]. intros w. apply seen_mono. set_solver.
Qed.

Lemma disposeAll_disciplined items : forall done_ past c tr c' r,
  (forall w, w ∈ items -> w ∈ work) -> Forall (seen past) work -> xruns (disposeAll plan grant items done_) c tr c' r -> disciplined past tr.
Proof.
  induction items as [|[t ref] items IH]; intros done_ past c tr c' r Hi Hs Hr; cbn [disposeAll] in Hr; [by xstep|].
  xfirst Hr t1 c1 o Ho. apply follows_app; [eapply dispose_disciplined; [apply Hi; left|done|done]|].
  destruct o as [o|]; [|by xstep]. eapply IH; [|..|exact Hr]; [intros w Hw; apply Hi; by right|].
  eapply Forall_impl; [exact Hs|]. intros w. apply seen_mono. set_solver.
Qed.

Lemma preflightTargets_runs items : forall c tr c' e,
  xruns (preflightTargets plan grant items) c tr c' e -> noMutation tr /\ (e = None -> Forall (seen tr) items).
Proof.
  induction items as [|[t ref] items IH]; intros c tr c' e Hr; cbn [preflightTargets] in Hr; [xstep; split; [constructor|done]|].
  xfirst Hr t1 c1 o Ho. pose proof (proj1 (target_runs _ _ _ _ _ _ Ho)) as Hn. destruct o as [o|].
  - apply IH in Hr as [Hn2 Hr]. split; [by apply noMutation_app|]. intros He. constructor.
    + apply target_seen in Ho. eapply seen_mono; [|exact Ho]. set_solver.
    + eapply Forall_impl; [by apply Hr|]. intros w. apply seen_mono. set_solver.
  - xstep. rewrite app_nil_r. done.
Qed.

Lemma executeQualified_disciplined past c tr c' r : xruns (executeQualified plan grant work) c tr c' r -> disciplined past tr.
Proof.
  unfold executeQualified. intros Hr. xfirst Hr g1 c1 e1 Hg1. apply guard_runs in Hg1 as [Hg1 _].
  apply follows_app; [by apply execution_disciplined_reads|]. destruct e1; [by xstep|].
  xfirst Hr t1 c2 e2 Ht1. apply preflightTargets_runs in Ht1 as [Hn1 Ht1]. apply follows_app; [by apply execution_disciplined_reads|]. destruct e2; [by xstep|].
  xfirst Hr g2 c3 e3 Hg2. apply guard_runs in Hg2 as [Hg2 _]. apply follows_app; [by apply execution_disciplined_reads|]. destruct e3; [by xstep|].
  xfirst Hr td c4 rd Hd. apply follows_app.
  { eapply disposeAll_disciplined; [|..|exact Hd]; [done|]. eapply Forall_impl; [by apply Ht1|]. intros w. apply seen_mono. set_solver. }
  apply execution_disciplined_reads. destruct rd as [ds [e|]]; [xstep; constructor|]. xfirst Hr g3 c5 e5 Hg3. apply guard_runs in Hg3 as [Hg3 _].
  apply noMutation_app. split; [done|]. destruct e5; xstep; constructor.
Qed.
End discipline.

(** ** Whole executions *)

Section execution.
Context `{Unstructured}.

Definition quiet (tr : list event) : Prop := Forall (fun x => isCall x = false) tr.

Lemma quiet_app tr1 tr2 : quiet (tr1 ++ tr2) <-> quiet tr1 /\ quiet tr2.
Proof. apply Forall_app. Qed.

Lemma quiet_noMutation tr : quiet tr -> noMutation tr.
Proof. intros Hq. eapply Forall_impl; [exact Hq|]. intros [X [e v]]. by destruct e. Qed.

Lemma qualified_quiet clock tr b : fruns (qualified clock) tr b -> quiet tr.
Proof. unfold qualified, ask. intros Hr. repeat free_step; by repeat constructor. Qed.

Lemma archiveSizes_quiet clock p archives : forall total tr r, fruns (archiveSizes clock p total archives) tr r -> quiet tr.
Proof.
  induction archives as [|raw archives IH]; intros total tr r Hr; cbn [archiveSizes] in Hr; [free_step; constructor|].
  free_bind Hr t1 ok Hq. apply quiet_app. split; [by eapply qualified_quiet|]. repeat free_step; try constructor. by eapply IH.
Qed.

Definition archived (t : ExecutionTarget) (raw : string) (ref : qualifiedArchive) : Prop :=
  qualifyArchive t raw = Ok (ref, xt_QualificationDigest t).

Lemma archiveRefs_runs clock targets : forall archives tr r, List.length archives = List.length targets ->
  fruns (archiveRefs clock targets archives) tr r -> quiet tr /\ forall refs, r = Ok refs -> Forall3 archived targets archives refs.
Proof.
  induction targets as [|t targets IH]; intros [|raw archives] tr r Hl Hr; try done; cbn [archiveRefs] in Hr.
  { free_step. split; [constructor|]. intros refs [= <-]. constructor. }
  free_bind Hr t1 ok Hq. apply qualified_quiet in Hq. destruct ok; cbn [negb] in Hr; [|free_step; split; [by rewrite app_nil_r|done]].
  destruct (qualifyArchive t raw) as [[ref digest]|] eqn:Ea; [|free_step; split; [by rewrite app_nil_r|done]].
  destruct (negb _) eqn:Ed; [free_step; split; [by rewrite app_nil_r|done]|]. bool_simpl. subst digest.
  free_bind Hr t2 ok Hq2. apply qualified_quiet in Hq2. destruct ok; cbn [negb] in Hr; [|free_step; split; [rewrite app_nil_r; by apply quiet_app|done]].
  free_bind Hr t3 rest Hrest. apply IH in Hrest as [Hq3 Hrest]; [|simpl in Hl; lia]. free_step. split.
  { rewrite app_nil_r. apply quiet_app. split; [done|]. by apply quiet_app. }
  intros refs Hok. destruct rest as [refs'|]; [|done]. injection Hok as <-. constructor; [done|by apply Hrest].
Qed.

(** A preflight issues no call; when it succeeds the archives are those of the plan. *)
Lemma preflight_runs plan archives clock tr r :
  fruns (preflightArchives plan archives clock) tr r ->
  quiet tr /\ forall rep refs, r = Ok (rep, refs) ->
    Forall3 archived (elements (xp_Targets (vp_payload plan))) archives refs /\
    (reservedCalls (List.length (elements (xp_Targets (vp_payload plan)))) <= xl_MaxCalls (xp_Limits (vp_payload plan)))%Z.
Proof.
  unfold preflightArchives. intros Hr. destruct (negb (vp_valid plan)); [free_step; split; [constructor|done]|].
  free_bind Hr t1 ok Hq. apply qualified_quiet in Hq. destruct (_ || _) eqn:El; [free_step; split; [by rewrite app_nil_r|done]|].
  apply orb_false_iff in El as [_ El]. apply negb_false_iff, Nat.eqb_eq in El.
  destruct (_ <? _)%Z eqn:Eb; [free_step; split; [by rewrite app_nil_r|done]|]. apply Z.ltb_ge in Eb.
  free_bind Hr t2 sizes Hs. apply archiveSizes_quiet in Hs. destruct sizes; [|free_step; split; [rewrite app_nil_r; by apply quiet_app|done]].
  free_bind Hr t3 refs Ha. apply archiveRefs_runs in Ha as [Hq3 Ha]; [|done]. assert (Hall : quiet (t1 ++ t2 ++ t3)) by (apply quiet_app; split; [done|]; by apply quiet_app).
  destruct refs as [refs|]; free_step; rewrite app_nil_r; (split; [done|]); [|done].
  intros rep refs' [= _ <-]. split; [by apply Ha|done].
Qed.

(** An execution is refused before its first call, or runs on qualified archives. *)
Lemma execute_shape plan grant archives tr rep err :
  fruns (execute plan grant archives) tr (rep, err) ->
  quiet tr /\ err <> None /\ rep = mkExecutionReport "not-started" (vp_planDigest plan) (vg_envelopeDigest grant) (mkCounters 0 0 0) [] \/
  vp_valid plan = true /\ validMutationGrant (vg_payload grant) plan = true /\
  (reservedCalls (List.length (elements (xp_Targets (vp_payload plan)))) <= xl_MaxCalls (xp_Limits (vp_payload plan)))%Z /\
  exists refs pre tr' c' stage done, Forall3 archived (elements (xp_Targets (vp_payload plan))) archives refs /\
    tr = pre ++ tr' /\ quiet pre /\
    xruns (executeQualified (vp_payload plan) grant (zip (elements (xp_Targets (vp_payload plan))) refs)) (mkCounters 0 0 0) tr' c' (stage, done, err) /\
    rep = mkExecutionReport stage (vp_planDigest plan) (vg_envelopeDigest grant) c' done.
Proof.
  unfold execute, ask. intros Hr. destruct (_ || _) eqn:Ev; [free_step; left; split_and!; [constructor|done..]|]. bool_simpl.
  free_bind Hr t1 now Hx1. apply fruns_call in Hx1 as ->.
  destruct (current grant now); cbn [negb] in Hr; [|free_step; left; split_and!; [by repeat constructor|done..]].
  free_bind Hr t2 over Hx2. apply fruns_call in Hx2 as ->.
  destruct (_ || _) eqn:El; [free_step; left; split_and!; [by repeat constructor|done..]|].
  free_bind Hr t3 pre Hx3. apply preflight_runs in Hx3 as [Hq Hp].
  destruct pre as [[prep refs]|]; [|free_step; left; split_and!; [rewrite app_nil_r; by repeat constructor|done..]].
  destruct (Hp _ _ eq_refl) as [Ha Hb].
  free_bind Hr t4 now2 Hx4. apply fruns_call in Hx4 as ->.
  destruct (current grant now2); cbn [negb] in Hr.
  2: { free_step. left. split_and!; try done. do 2 (constructor; [done|]). apply quiet_app. split; [done|]. by repeat constructor. }
  free_bind Hr t5 out Hx5. destruct out as [c' [[stage done] e]]. free_step. right. split_and!; try done.
  eexists refs, ([asked XNow now] ++ [asked XDone over] ++ t3 ++ [asked XNow now2]), t5, c', stage, done. split_and!; try done.
  - rewrite app_nil_r. by rewrite <- !app_assoc.
  - do 2 (constructor; [done|]). apply quiet_app. split; [done|]. by repeat constructor.
Qed.
End execution.

(** C19: An execution stays within its reservation.  Whatever the API server
    answers, an execution of a plan with [n] targets issues at most [9 + 24 n] API
    calls, the number that is reserved before it starts and that the limit of the
    plan must cover, so no target is abandoned for want of calls; at most two of
    them per target are writes; the report counts both exactly and keeps the
    observed bytes within 64 MiB. *)
Theorem execution_within_reservation `{Unstructured} plan grant archives tr rep err :
  fruns (execute plan grant archives) tr (rep, err) ->
  let n := List.length (elements (xp_Targets (vp_payload plan))) in
  APICalls (xrp_Counters rep) = Z.of_nat (count isCall tr) /\ (APICalls (xrp_Counters rep) <= reservedCalls n)%Z /\
  (0 < APICalls (xrp_Counters rep) -> reservedCalls n <= xl_MaxCalls (xp_Limits (vp_payload plan)))%Z /\
  MutationAttempts (xrp_Counters rep) = Z.of_nat (count isMutation tr) /\ count isMutation tr <= 2 * n /\
  (ObservedBytes (xrp_Counters rep) <= executionMaxObservedBytes)%Z.
Proof.
  intros Hr. cbv zeta. apply execute_shape in Hr as [(Hq & _ & ->)|(_ & _ & Hb & refs & pre & tr' & c' & stage & done & Ha & -> & Hq & Hx & ->)].
  - cbn [xrp_Counters APICalls MutationAttempts ObservedBytes]. rewrite !count_all by (done || by apply quiet_noMutation).
    unfold reservedCalls, executionMaxObservedBytes. split_and!; lia.
  - apply bounded_execute in Hx as (Ec & Lc & Em & Lm & Ho). cbn in Ec, Em. cbn [xrp_Counters].
    rewrite !count_app, !(count_all _ pre) by (done || by apply quiet_noMutation).
    assert (Hl : List.length (zip (elements (xp_Targets (vp_payload plan))) refs) = List.length (elements (xp_Targets (vp_payload plan)))).
    { rewrite length_zip_with. apply Forall3_length_lr in Ha. lia. }
    rewrite Hl in Lc, Lm. unfold reservedCalls in *. simpl. split_and!; try lia. apply Ho. done.
Qed.

(** C18: Every write of an execution is lawful.  It is sent only with a plan and a
    grant bound to each other, on archives that hash to the qualifications of the
    plan, after every target of the plan was read and found absent or exactly as
    archived.  Its object was read directly before, for a target of the plan, with
    the archived content and the UID of the plan; since that read only the system
    namespace was found active and both old namespaces, by UID, terminating, and
    then the clock was found within the grant.  The write is a Delete with the UID
    and the resource version of that read as preconditions, or a Patch that tests
    them and the finalizers and removes exactly the finalizers the plan allows,
    keeping all others in order. *)
Theorem execution_writes_lawful `{Unstructured} plan grant archives tr out pre x post :
  fruns (execute plan grant archives) tr out -> tr = pre ++ x :: post -> isMutation x = true ->
  vp_valid plan = true /\ validMutationGrant (vg_payload grant) plan = true /\
  exists refs, Forall3 archived (elements (xp_Targets (vp_payload plan))) archives refs /\
    lawful (vp_payload plan) grant (zip (elements (xp_Targets (vp_payload plan))) refs) pre x.
Proof.
  destruct out as [rep err]. intros Hr Htr Hm.
  apply execute_shape in Hr as [(Hq & _)|(Hv & Hg & _ & refs & p0 & tr' & c' & stage & done & Ha & Hs & Hq & Hx & _)].
  { apply quiet_noMutation in Hq. rewrite Htr in Hq. apply Forall_app in Hq as [_ Hq]. inversion Hq; congruence. }
  split; [done|]. split; [done|]. exists refs. split; [done|].
  apply (follows_at (fun past x => isMutation x = true -> lawful (vp_payload plan) grant (zip (elements (xp_Targets (vp_payload plan))) refs) past x)
           [] tr pre x post); [|done|done].
  rewrite Hs. apply follows_app; [by apply execution_disciplined_reads, quiet_noMutation|]. by eapply executeQualified_disciplined.
Qed.

(** ** The report *)

Section report.
Context `{Unstructured} (plan : ExecutionPlanPayload) (grant : VerifiedMutationGrant).

(** What an observation says about the reads of a run. *)
Definition observed (tr : list event) (w : ExecutionTarget * qualifiedArchive) (o : string) : Prop :=
  o = absentObservation /\ (exists e, said (getOf w.1) (Err e) ∈ tr /\ IsNotFound e = true) \/
  exists obj left_, said (getOf w.1) (Ok obj) ∈ tr /\ projects w.1 obj w.2 = true /\ isDeleting obj = true /\
    executionFinalizers obj = Ok left_ /\ (forall f, f ∈ left_ -> f ∉ finalizersOf w.1) /\
    o = match left_ with [] => "deleting-no-authorized-kova-finalizers-observed" | _ => "deleting-foreign-finalizers-preserved" end.

Lemma observed_mono tr tr' w o : (forall x, x ∈ tr -> x ∈ tr') -> observed tr w o -> observed tr' w o.
Proof.
  intros Hx [[Ho (e & He & Hn)]|(obj & l & Hg & Hrest)]; [left; split; [done|]; exists e; auto|].
  right. exists obj, l. split; [by apply Hx|done].
Qed.

Lemma guarded_inv {A} (p : exec (result A)) c tr c' a :
  xruns (guarded plan grant p) c tr c' (Ok a) -> exists tr1 c1 tr2, tr = tr1 ++ tr2 /\ xruns p c1 tr2 c' (Ok a).
Proof. unfold guarded. intros Hr. xfirst Hr tr1 c1 e Hg. destruct e; [by xstep|]. by exists tr1, c1, x. Qed.

Lemma absent_inv c tr c' o : xruns (absent plan grant) c tr c' (Ok o) -> o = absentObservation.
Proof. unfold absent. intros (tr1 & c1 & tr2 & -> & Hr)%guarded_inv. by xstep. Qed.

Lemma finish_inv after c tr c' o : xruns (finish plan grant after) c tr c' (Ok o) ->
  o = match after with [] => "deleting-no-authorized-kova-finalizers-observed" | _ => "deleting-foreign-finalizers-preserved" end.
Proof. unfold finish. intros (tr1 & c1 & tr2 & -> & Hr)%guarded_inv. by xstep. Qed.

Lemma foreign_kept t l f : f ∈ foreignFinalizers t l -> f ∉ finalizersOf t.
Proof.
  unfold foreignFinalizers. intros Hf. apply list_elem_of_In, List.filter_In in Hf as [_ Hf]. bool_simpl. done.
Qed.

Lemma foreign_same t l : List.length (foreignFinalizers t l) = List.length l -> foreignFinalizers t l = l.
Proof.
  unfold foreignFinalizers. induction l as [|f l IH]; [done|]. simpl. destruct (negb _); simpl; intros Hl.
  - f_equal. apply IH. lia.
  - pose proof (List.filter_length_le (fun f => negb (bool_decide (f ∈ finalizersOf t))) l). lia.
Qed.

(** The result of a target that is read again after a write. *)
Lemma reread_observed t ref k c tr c' o :
  xruns (xbind (target plan grant t ref) (fun r => match r with
    | Err e => xret (Err e)
    | Ok None => absent plan grant
    | Ok (Some obj) => k obj
    end)) c tr c' (Ok o) ->
  (forall obj c tr c', projects t obj ref = true -> xruns (k obj) c tr c' (Ok o) -> observed (said (getOf t) (Ok obj) :: tr) (t, ref) o) ->
  observed tr (t, ref) o.
Proof.
  intros Hr Hk. xfirst Hr t1 c1 again Ht. apply target_runs in Ht as [_ Ht]. destruct again as [[obj|]|e]; [| |by xstep].
  - destruct Ht as (Hp & q1 & q2 & -> & _). eapply observed_mono; [|by eapply Hk]. set_solver.
  - destruct Ht as (e & He & Hn). apply absent_inv in Hr as ->. left. split; [done|]. exists e. split; [set_solver|done].
Qed.

Lemma release_observed t ref obj c tr c' o :
  projects t obj ref = true -> isDeleting obj = true ->
  xruns (releaseTarget plan grant t ref obj) c tr c' (Ok o) -> observed (said (getOf t) (Ok obj) :: tr) (t, ref) o.
Proof.
  intros Hp Hd. unfold releaseTarget. destruct (executionFinalizers obj) as [before|] eqn:Eb; [|intros Hr; by xstep]. cbv zeta.
  destruct (Nat.eqb _ _) eqn:El; intros Hr.
  { apply Nat.eqb_eq, foreign_same in El. rewrite El in Hr. apply finish_inv in Hr. right. exists obj, before. split_and!; try done; [left|].
    intros f Hf. rewrite <- El in Hf. by apply foreign_kept in Hf. }
  apply guarded_inv in Hr as (tr1 & c1 & tr2 & -> & Hr). xfirst Hr t2 c2 rp Hpatch. destruct rp as [patched|]; [|by xstep].
  xfirst Hr t3 c3 e3 Ha. destruct e3; [by xstep|]. destruct (_ || _); [by xstep|].
  apply guarded_inv in Hr as (tr4 & c4 & tr5 & -> & Hr). eapply observed_mono; [|eapply reread_observed; [exact Hr|]]; [set_solver|].
  intros obj' c5 tr6 c6 Hp' Hr'. clear Hr. cbn beta in Hr'. destruct (negb (isDeleting obj')) eqn:Ed'; cbn [orb] in Hr'; [by xstep|]. unfold finalizersAre in Hr'.
  destruct (executionFinalizers obj') as [l|] eqn:El'; cbn [negb] in Hr'; [|by xstep]. cbn [negb orb] in Hr'. case_bool_decide as Eq; cbn [negb] in Hr'; [|by xstep]. subst l.
  apply finish_inv in Hr'. bool_simpl. right. exists obj', (foreignFinalizers t before). split_and!; try done; [left|]. intros f. apply foreign_kept.
Qed.

Lemma dispose_observed t ref c tr c' o : xruns (dispose plan grant t ref) c tr c' (Ok o) -> observed tr (t, ref) o.
Proof.
  unfold dispose. intros (tr1 & c1 & tr2 & -> & Hr)%guarded_inv. eapply observed_mono; [|eapply reread_observed; [exact Hr|]]; [set_solver|].
  intros obj c2 tr3 c3 Hp Hk. clear Hr. cbn beta in Hk. destruct (isDeleting obj) eqn:Ed; [by eapply release_observed|].
  apply guarded_inv in Hk as (tr4 & c4 & tr5 & -> & Hk). xfirst Hk t6 c6 rd Hdel. destruct rd; [|by xstep].
  apply guarded_inv in Hk as (tr7 & c7 & tr8 & -> & Hk). eapply observed_mono; [|eapply reread_observed; [exact Hk|]]; [set_solver|].
  intros obj' c9 tr9 c10 Hp' Hk'. clear Hk. cbn beta in Hk'. destruct (isDeleting obj') eqn:Ed'; cbn [negb] in Hk'; [|by xstep]. by eapply release_observed.
Qed.

Lemma disposeAll_observed work : forall done c tr c' out,
  xruns (disposeAll plan grant work done) c tr c' (out, None) ->
  exists new, out = done ++ new /\ Forall2 (fun w eo => exists o, eo = observationOf w.1 o /\ observed tr w o) work new.
Proof.
  induction work as [|[t ref] work IH]; intros done c tr c' out Hr; cbn [disposeAll] in Hr.
  { xstep. exists []. by rewrite app_nil_r. }
  xfirst Hr t1 c1 o Ho. destruct o as [o|]; [|by xstep]. apply dispose_observed in Ho. apply IH in Hr as (new & -> & Hnew).
  exists (observationOf t o :: new). split; [by rewrite <- app_assoc|]. constructor.
  - exists o. split; [done|]. eapply observed_mono; [|exact Ho]. set_solver.
  - eapply Forall2_impl; [exact Hnew|]. intros w eo (o' & -> & Ho'). exists o'. split; [done|]. eapply observed_mono; [|exact Ho']. set_solver.
Qed.
End report.

(** C20: A finished execution reports what it read.  When [execute] returns without
    error, its observations are those of the targets of the plan, one for one and in
    order.  A target is reported absent only if a direct read did not find it; any
    other target was last read being deleted, with the archived content and none of
    the finalizers the plan allows to remove, and the report says whether foreign
    ones are left.  The closing stage is reported exactly when all targets were
    absent. *)
Theorem execution_report_true `{Unstructured} plan grant archives tr rep :
  fruns (execute plan grant archives) tr (rep, None) ->
  exists refs, Forall3 archived (elements (xp_Targets (vp_payload plan))) archives refs /\
    Forall2 (fun w eo => exists o, eo = observationOf w.1 o /\ observed tr w o)
      (zip (elements (xp_Targets (vp_payload plan))) refs) (xrp_Observations rep) /\
    (xrp_Stage rep = executionObservedStage <->
       forall eo, eo ∈ xrp_Observations rep -> eo_Observation eo = absentObservation).
Proof.
  intros [(_ & Hn & _)|(_ & _ & _ & refs & pre & tr' & c' & stage & ds & Ha & -> & _ & Hx & ->)]%execute_shape; [done|].
  exists refs. split; [done|]. cbn [xrp_Observations xrp_Stage]. unfold executeQualified in Hx.
  xfirst Hx t1 c1 e1 Hx1. destruct e1; [by xstep|]. xfirst Hx t2 c2 e2 Hx2. destruct e2; [by xstep|].
  xfirst Hx t3 c3 e3 Hx3. destruct e3; [by xstep|]. xfirst Hx t4 c4 r4 Hx4. destruct r4 as [out [e4|]]; [by xstep|].
  apply disposeAll_observed in Hx4 as (new & -> & Hnew). cbn [app] in *. xfirst Hx t5 c5 e5 Hx5. destruct e5; [by xstep|].
  destruct (forallb _ new) eqn:Ef; xstep.
  all: (split; [eapply Forall2_impl; [exact Hnew|]; intros w eo (o & -> & Ho); exists o; split; [done|]; eapply observed_mono; [|exact Ho]; set_solver|]).
  - split; [intros _|done]. rewrite forallb_forall in Ef. intros eo Heo. apply list_elem_of_In, Ef in Heo. by bool_simpl.
  - split; [done|]. intros Hall. exfalso. apply not_true_iff_false in Ef. apply Ef, forallb_forall. intros eo Heo.
    apply list_elem_of_In, Hall in Heo. rewrite Heo. reflexivity.
Qed.

(** ** Verified plans *)

Section plans.
Context `{External} (p : ExecutionPlanPayload).

(** What a target of a verified plan may be. *)
Definition confined (t : ExecutionTarget) : Prop :=
  (xt_Namespace t = ep_Namespace (xp_Source p) /\ xt_NamespaceUID t = ep_NamespaceUID (xp_Source p) \/
   xt_Namespace t = ep_ReceiptNamespace (xp_Source p) /\ xt_NamespaceUID t = ep_ReceiptNamespaceUID (xp_Source p)) /\
  (xt_Resource t = configmaps \/ xt_Resource t = pods \/ xt_Resource t = kovabuilds) /\
  xt_UID t <> cl_SystemNamespaceUID (xp_Cluster p) /\ xt_UID t <> ep_NamespaceUID (xp_Source p) /\
  xt_UID t <> ep_ReceiptNamespaceUID (xp_Source p) /\
  (forall f, f ∈ finalizersOf t -> f = CleanupFinalizer /\ xt_Role t = "original-build" \/ f = executionHoldFinalizer).

Lemma roleOf_resource t d r b : roleOf p t d = Some (r, b) -> r = configmaps \/ r = pods \/ r = kovabuilds.
Proof. unfold roleOf. intros Hr. repeat (case_match; try done); simplify_eq; auto. Qed.

Lemma finalizerAllowed_inv role f :
  finalizerAllowed role f = true -> f = CleanupFinalizer /\ role = "original-build" \/ f = executionHoldFinalizer.
Proof. unfold finalizerAllowed, seqb. case_bool_decide; [intros; bool_simpl; auto|]. case_bool_decide; auto. done. Qed.

Lemma validTarget_confined t byID : validExecutionTarget p t byID = true -> confined t.
Proof.
  unfold validExecutionTarget. do 3 (case_match; [done|]). cbv zeta. destruct (roleOf p t _) as [[r b]|] eqn:Er; [|done].
  case_match; [done|]. intros Hf. apply roleOf_resource in Er. bool_simpl.
  match goal with Hx : reservedExecutionUID _ _ = false |- _ => unfold reservedExecutionUID in Hx end. bool_simpl. split_and!; try done.
  - match goal with Hx : (negb (seqb (xt_Namespace t) _) || _) && _ = false |- _ => apply andb_false_iff in Hx as [Hx|Hx] end; bool_simpl; auto.
  - naive_solver congruence.
  - intros f Hin. match goal with Hx : forallb _ _ = true |- _ => rewrite forallb_forall in Hx; apply finalizerAllowed_inv, Hx end.
    by apply list_elem_of_In.
Qed.

Definition keyOrder (a b : ExecutionTarget) : Prop := str_ltb (executionTargetKey a) (executionTargetKey b) = true.
Definition archiveTotal (ts : list ExecutionTarget) : Z := foldr Z.add 0%Z (xt_ArchiveBytes <$> ts).

Lemma planTargets_inv byID originals ts : forall seen total previous,
  planTargets p byID originals seen total previous ts = true ->
  Forall confined ts /\ NoDup (xt_UID <$> ts) /\ (forall t, t ∈ ts -> xt_UID t ∉ seen) /\ Sorted keyOrder ts /\
  match previous, ts with Some q, t :: _ => keyOrder q t | _, _ => True end /\
  (ts <> [] -> total + archiveTotal ts <= xe_ArchiveBytes (xp_Evidence p))%Z.
Proof.
  induction ts as [|t ts IH]; intros seen total previous Hp; cbn [planTargets] in Hp.
  { split_and!; try constructor; try done; [intros t Ht; by apply elem_of_nil in Ht|by destruct previous]. }
  destruct (_ || _) eqn:E; [done|]. bool_simpl. destruct (_ <? _)%Z eqn:Eb; [done|]. apply Z.ltb_ge in Eb.
  apply IH in Hp as (Hc & Hn & Hs & Ho & Hprev & Ht). unfold archiveTotal in *. rewrite !fmap_cons. cbn [foldr].
  split_and!.
  - constructor; [by eapply validTarget_confined|done].
  - apply NoDup_cons. split; [|done]. intros (t' & Hu & Hin)%list_elem_of_fmap. apply (Hs _ Hin). set_solver.
  - intros t' [->|Hin]%elem_of_cons; [done|]. intros Hx. apply (Hs _ Hin). set_solver.
  - constructor; [done|]. destruct ts; constructor. done.
  - destruct previous; [|done]. by bool_simpl.
  - intros _. destruct ts as [|t' ts]; [simpl; lia|]. specialize (Ht ltac:(done)). lia.
Qed.
End plans.

(** C21: A verified plan is confined to the old epoch.  Every target of a plan that
    [VerifyExecutionPlan] accepts is a ConfigMap, Pod or KovaBuild in one of the two
    old namespaces under its original UID, is none of the three namespaces itself,
    and may lose no finalizer but the recovery hold and, for an original build, the
    cleanup finalizer of Kova; no UID and no address occurs twice, and together the
    archives fit the size the plan states. *)
Theorem verified_plan_confined `{External} verify raw expected roots plan :
  VerifyExecutionPlan verify raw expected roots = Ok plan ->
  let p := vp_payload plan in
  let targets := elements (xp_Targets p) in
  p = xx_Payload expected /\ vp_planDigest plan = digestBytes (json_print (json_of_plan p)) /\
  Forall (confined p) targets /\ NoDup (xt_UID <$> targets) /\ NoDup (executionTargetKey <$> targets) /\
  (targets <> [] -> archiveTotal targets <= xe_ArchiveBytes (xp_Evidence p))%Z.
Proof.
  unfold VerifyExecutionPlan. destruct (_ || _); [done|]. destruct (DigestExecutionPlan _) as [digest|] eqn:Ed; [|done].
  destruct (negb _); [done|]. destruct (decodeRaw raw) as [[payload signature]|]; [|done]. destruct (_ || _); [done|]. intros [= <-].
  cbn [vp_payload vp_planDigest]. unfold DigestExecutionPlan in Ed. destruct (validExecutionPlan _) eqn:Ev; [|done]. cbn [negb] in Ed.
  destruct (_ <? _)%Z; [done|]. injection Ed as <-. unfold validExecutionPlan in Ev. destruct (negb _); [done|].
  destruct (planDispositions _ _ _ _ _) as [[byID originals]|]; [|done]. apply planTargets_inv in Ev as (Hc & Hn & _ & Ho & _ & Ht).
  split_and!; try done. clear -Ho. apply Sorted_StronglySorted in Ho; [|intros a b c; apply str_ltb_trans].
  induction Ho as [|t ts Hs IH Hall]; [constructor|]. rewrite fmap_cons. apply NoDup_cons. split; [|done].
  intros (t' & Hk & Hin)%list_elem_of_fmap. rewrite Forall_forall in Hall. specialize (Hall _ Hin). unfold keyOrder in Hall.
  by rewrite Hk, str_ltb_irrefl in Hall.
Qed.
