(* ===== verification/ExecutorWitness.v ===== *)
(** * An execution on a reference server

    Unstructured objects as JSON values, an executable server that deletes objects
    as Kubernetes does (a finalizer keeps a deleted object), a signed plan with one
    occupancy attempt and a grant for it.  The run deletes the object, removes the
    recovery hold and leaves a foreign finalizer in place; it uses every call that
    was reserved for it. *)
From S2P Require Import Prelude Free GoText Json Sha256 Types Kube Contract Server QueueReceipt Effects FairQueue GoTime Permit Drain DrainWitness Disposal DisposalTheorems ExecutionPlan Executor ExecutorFacts ExecutorTheorems.

(** * An authorization and its closure

    Signed records for the sample epoch of the drain: its one receipt is settled by
    one discarded build, and a successor replaces it. *)
Definition sampleSignature : string := b64_encode (hex32 +:+ hex32).
Definition sampleRoots : TrustRoots := {["issuer" := {["key" := sampleKey]}]}.
Definition sampleDispositions : list BuildDisposition :=
  [mkBuildDisposition "job-1" "" "" [mkIndex 0] "approved-unknown-discard" "" zeroDigest true].
Definition samplePhysical : PhysicalRetirement :=
  mkPhysical "pool-1" 4 zeroDigest zeroDigest zeroDigest zeroDigest zeroDigest retirementAssertion "2024-01-01T00:00:00Z".

Definition receiptSet : string := Eval vm_compute in okOr "" (DigestReceiptSet sampleEpoch [sampleRef]).
Definition authorizationPayload : AuthorizationPayload :=
  mkAuthorization "1" authorizationAudience authorizationAction "issuer" "key" "incident-1" sampleEpoch zeroDigest zeroDigest zeroDigest zeroDigest
    receiptSet [sampleRef] sampleDispositions samplePhysical zeroDigest "2024-01-02T00:00:00Z".
Definition authorizationRaw : string := json_print (json_envelope (json_of_authorization authorizationPayload) sampleSignature).
Definition authorizationDigest : string := Eval vm_compute in digestBytes authorizationRaw.
Definition authorizationExpectation : AuthorizationExpectation :=
  mkAuthorizationExpectation authorizationDigest "issuer" "key" "incident-1" sampleEpoch zeroDigest zeroDigest zeroDigest zeroDigest
    [sampleRef] sampleDispositions samplePhysical zeroDigest.
Definition sampleAuthorization : VerifiedAuthorization :=
  mkVerifiedAuthorization "incident-1" authorizationDigest receiptSet 1 sampleEpoch zeroDigest "2024-01-02T00:00:00Z" true.

Lemma sample_authorization : VerifyAuthorization sampleVerify authorizationRaw authorizationExpectation sampleRoots = Ok sampleAuthorization.
Proof. vm_compute. reflexivity. Qed.

Definition sampleSuccessor : SuccessorIdentity :=
  mkSuccessor "next" "uid-next" "next-receipts" "uid-next-receipts" "kova-genesis" "g2" "fedcba9876543210fedcba9876543210" "pool-2" 4 zeroDigest
    "kova" "route" "r1" "5" "6" "uid-kova" "uid-next" zeroDigest.
Definition retirementOf (name uid : string) : NamespaceRetirement := mkNamespaceRetirement name uid zeroDigest zeroDigest zeroDigest.
Definition closurePayload : ClosurePayload :=
  mkClosure "1" closureAudience closureAction "issuer" "key" "incident-1" authorizationDigest sampleEpoch (retirementOf "kova" "uid-kova")
    (retirementOf "kova-receipts" "uid-kova-receipts") namespaceAssertion zeroDigest zeroDigest sampleSuccessor "2024-01-03T00:00:00Z"
    "2024-01-04T00:00:00Z".
Definition closureRaw : string := json_print (json_envelope (json_of_closure closurePayload) sampleSignature).
Definition closureDigest : string := Eval vm_compute in digestBytes closureRaw.
Definition closureExpectation : ClosureExpectation :=
  mkClosureExpectation closureDigest "issuer" "key" "incident-1" authorizationDigest sampleEpoch (retirementOf "kova" "uid-kova")
    (retirementOf "kova-receipts" "uid-kova-receipts") zeroDigest zeroDigest sampleSuccessor.
Definition sampleClosure : VerifiedClosure := mkVerifiedClosure "incident-1" closureDigest authorizationDigest sampleSuccessor.

Lemma sample_closure : VerifyClosure sampleVerify closureRaw sampleAuthorization closureExpectation sampleRoots = Ok sampleClosure.
Proof. vm_compute. reflexivity. Qed.

Lemma closure_names_fresh_successor_witness : fresh sampleSuccessor sampleEpoch.
Proof.
  destruct (closure_names_fresh_successor sampleVerify authorizationRaw authorizationExpectation sampleRoots sampleAuthorization
    closureRaw closureExpectation sampleRoots sampleClosure sample_authorization sample_closure) as (_ & _ & _ & Hf & _).
  exact Hf.
Defined.

(** ** Unstructured objects as JSON values *)

Definition fieldsOf (v : jvalue) : list (string * jvalue) := match v with JObj l => l | _ => [] end.
Fixpoint nested (v : jvalue) (path : list string) : option jvalue :=
  match path with [] => Some v | k :: rest => match jfield (fieldsOf v) k with Some w => nested w rest | None => None end end.
Definition text (v : jvalue) (path : list string) : string := match nested v path with Some (JStr s) => s | _ => "" end.

(** Replaces or removes one field below [metadata]. *)
Definition setField (v : jvalue) (k : string) (w : jvalue) : jvalue :=
  JObj (List.map (fun kv => if seqb kv.1 k then (k, w) else kv) (fieldsOf v)).
Definition dropField (v : jvalue) (k : string) : jvalue := JObj (List.filter (fun kv => negb (seqb kv.1 k)) (fieldsOf v)).
Definition onMetadata (f : jvalue -> jvalue) (v : jvalue) : jvalue :=
  match jfield (fieldsOf v) "metadata" with Some m => setField v "metadata" (f m) | None => v end.

Definition groupVersion (s : string) : string * string :=
  if HasPrefix s (Group +:+ "/") then (Group, TrimPrefix s (Group +:+ "/")) else ("", s).

#[export] Instance json_objects : Unstructured := {|
  uobj := jvalue;
  u_GroupVersionKind v := (groupVersion (text v ["apiVersion"]), text v ["kind"]);
  u_GetAPIVersion v := text v ["apiVersion"];
  u_GetKind v := text v ["kind"];
  u_GetNamespace v := text v ["metadata"; "namespace"];
  u_GetName v := text v ["metadata"; "name"];
  u_GetUID v := text v ["metadata"; "uid"];
  u_GetResourceVersion v := text v ["metadata"; "resourceVersion"];
  u_NestedString v path := match nested v path with Some (JStr s) => Some (Some s) | None => Some None | Some _ => None end;
  u_NestedStringSlice v path := match nested v path with Some (JArr l) => jstrings l | None => Some [] | Some _ => None end;
  u_NestedInt64 v path := match nested v path with Some (JNum s) => Some <$> parse_dec_Z s | None => Some None | Some _ => None end;
  u_RemoveNestedField v path := match path with [_; k] => onMetadata (fun m => dropField m k) v | _ => v end;
  u_SetNestedStringSlice v l path :=
    match path with [_; k] => Some (onMetadata (fun m => setField m k (JArr (List.map JStr l))) v) | _ => None end;
  u_SetGeneration v n := onMetadata (fun m => setField m "generation" (JNum (dec_of_Z n))) v;
  u_Marshal v := Some (json_print v);
  u_UnmarshalStrict := json_parse |}.

(** ** The object and its plan *)

Definition attemptObject (rv : string) (finalizers : list string) (deletion : list (string * jvalue)) : jvalue :=
  JObj [("apiVersion", JStr "v1"); ("kind", JStr "ConfigMap");
        ("metadata", JObj (deletion ++ [("finalizers", JArr (List.map JStr finalizers)); ("name", JStr "attempt");
           ("namespace", JStr "kova"); ("resourceVersion", JStr rv); ("uid", JStr "t1")]))].
Definition foreignFinalizer : string := "example.com/keep".
Definition sampleArchived : string := json_print (attemptObject "5" [foreignFinalizer; executionHoldFinalizer] []).

Definition target0 (archive qualification : string) : ExecutionTarget :=
  {| xt_Resource := configmaps; xt_Namespace := "kova"; xt_NamespaceUID := ep_NamespaceUID sampleEpoch; xt_Name := "attempt"; xt_UID := "t1";
     xt_Role := "occupancy-attempt"; xt_DispositionID := "d1"; xt_ArchiveResourceVersion := "5"; xt_ArchiveDigest := archive;
     xt_ArchiveBytes := slen sampleArchived; xt_QualificationVersion := ExecutionQualificationVersion; xt_QualificationDigest := qualification;
     xt_AllowedKovaFinalizers := Some [executionHoldFinalizer] |}.
Definition archiveDigest : string := Eval vm_compute in digestBytes sampleArchived.
Definition qualificationDigest : string := Eval vm_compute in okOr "" (DigestExecutionQualification (target0 archiveDigest "") sampleArchived).
Definition sampleTarget : ExecutionTarget := target0 archiveDigest qualificationDigest.

Definition planPayload : ExecutionPlanPayload :=
  {| xp_Version := "1"; xp_Audience := ExecutionPlanAudience; xp_Action := ExecutionPlanAction; xp_Issuer := "issuer"; xp_KeyID := "key";
     xp_IncidentID := "incident-1"; xp_Cluster := mkCluster "kube-system" "s1" zeroDigest; xp_Source := sampleEpoch;
     xp_AuthorizationDigest := zeroDigest;
     xp_Evidence := mkExecutionEvidence
       (mkPhysical (ep_WorkerPoolID sampleEpoch) 4 zeroDigest zeroDigest zeroDigest zeroDigest zeroDigest retirementAssertion "2024-01-01T00:00:00Z")
       zeroDigest zeroDigest zeroDigest zeroDigest ExecutionArchiveAssertion 1 4096 zeroDigest ExecutionInventoryAssertion zeroDigest zeroDigest
       ExecutionNoReuseAssertion "2024-01-02T00:00:00Z";
     xp_Limits := mkExecutionLimits 8 8 8 33 2048 8192;
     xp_Dispositions := Some [mkExecutionDisposition "d1" "job-1" "" "" "approved-unknown-discard" "" zeroDigest true];
     xp_Targets := Some [sampleTarget]; xp_IssuedAt := "2024-01-03T00:00:00Z" |}.

Definition planRaw : string := json_print (json_envelope (json_of_plan planPayload) (b64_encode (hex32 +:+ hex32))).
Definition planDigest : string := Eval vm_compute in okOr "" (DigestExecutionPlan planPayload).
Definition planEnvelope : string := Eval vm_compute in digestBytes planRaw.
Definition planExpected : ExecutionPlanExpectation := mkPlanExpectation planEnvelope planDigest planPayload.
Definition trustRoots : TrustRoots := {["issuer" := {["key" := sampleKey]}]}.
Definition samplePlan : VerifiedExecutionPlan := mkVerifiedPlan true planDigest planEnvelope planPayload.

Lemma sample_plan : VerifyExecutionPlan sampleVerify planRaw planExpected trustRoots = Ok samplePlan.
Proof. vm_compute. reflexivity. Qed.

(** ** The server *)

Definition deletedAt : list (string * jvalue) := [("deletionTimestamp", JStr "2024-01-03T00:05:00Z")].
Definition namespaceObject (name uid phase : string) (deletion : list (string * jvalue)) : jvalue :=
  JObj [("apiVersion", JStr "v1"); ("kind", JStr "Namespace");
        ("metadata", JObj (deletion ++ [("name", JStr name); ("resourceVersion", JStr "9"); ("uid", JStr uid)]));
        ("status", JObj [("phase", JStr phase)])].

(** The attempt object, while it exists. *)
Record xworld := mkXWorld { xw_rv : N; xw_finalizers : list string; xw_deleting : bool; xw_exists : bool }.
Definition xobject (w : xworld) : jvalue :=
  attemptObject (dec_of_N (xw_rv w)) (xw_finalizers w) (if xw_deleting w then deletedAt else []).
Definition settle (w : xworld) : xworld :=
  match xw_finalizers w with [] => if xw_deleting w then mkXWorld (xw_rv w) [] true false else w | _ => w end.

Definition sampleNow : Z := Eval vm_compute in instant "2024-01-03T00:06:00Z".

Definition xserve (X : Type) (e : ExecutionAPI X) (w : xworld) : X * xworld :=
  match e in ExecutionAPI X return X * xworld with
  | XNow => (sampleNow, w)
  | XDone => (false, w)
  | XCallDone => (false, w)
  | XGet gvk ns name =>
      (if seqb gvk.2 "Namespace" then
         if seqb name "kube-system" then Ok (namespaceObject name "s1" "Active" [])
         else if seqb name "kova" then Ok (namespaceObject name "uid-kova" "Terminating" deletedAt)
         else Ok (namespaceObject name "uid-kova-receipts" "Terminating" deletedAt)
       else if xw_exists w then Ok (xobject w) else Err (ApiErr NotFound), w)
  | XDelete o uid rv =>
      if seqb uid "t1" && seqb rv (dec_of_N (xw_rv w))
      then (None, settle (mkXWorld (xw_rv w + 1) (xw_finalizers w) true (xw_exists w))) else (Some (ApiErr Conflict), w)
  | XPatch o patch =>
      match patch with
      | [PTestUID uid; PTestResourceVersion rv; PTestFinalizers before; PReplaceFinalizers after] =>
          if seqb uid "t1" && seqb rv (dec_of_N (xw_rv w)) && bool_decide (before = xw_finalizers w)
          then let w' := mkXWorld (xw_rv w + 1) after (xw_deleting w) (xw_exists w) in ((xobject w', None), settle w')
          else ((o, Some (ApiErr Invalid)), w)
      | _ => ((o, Some (ApiErr BadRequest)), w)
      end
  end.

Definition grantPayload : MutationGrantPayload :=
  {| mg_Version := "1"; mg_Audience := MutationGrantAudience; mg_Action := MutationGrantAction; mg_Issuer := "issuer"; mg_KeyID := "key";
     mg_IncidentID := "incident-1"; mg_Cluster := xp_Cluster planPayload; mg_Source := sampleEpoch; mg_PlanDigest := planDigest;
     mg_PlanEnvelopeDigest := planEnvelope; mg_ReviewDigest := zeroDigest; mg_NotBefore := "2024-01-03T00:00:00Z";
     mg_ExpiresAt := "2024-01-03T00:15:00Z" |}.
Definition grantRaw : string := json_print (json_envelope (json_of_mutation_grant grantPayload) (b64_encode (hex32 +:+ hex32))).
Definition grantEnvelope : string := Eval vm_compute in digestBytes grantRaw.
Definition sampleGrant : VerifiedMutationGrant :=
  mkVerifiedGrant true grantEnvelope grantPayload (instant (mg_NotBefore grantPayload)) (instant (mg_ExpiresAt grantPayload)).

Example sample_grant :
  VerifyMutationGrant sampleVerify grantRaw (mkGrantExpectation grantEnvelope grantPayload) trustRoots samplePlan sampleNow = Ok sampleGrant.
Proof. vm_compute. reflexivity. Qed.

Definition xworld0 : xworld := mkXWorld 5 [foreignFinalizer; executionHoldFinalizer] false true.
Definition sampleExecution : list event * (ExecutionReport * option error) * xworld :=
  fexec xserve (execute samplePlan sampleGrant [sampleArchived]) xworld0.
Definition executionTrace : list event := sampleExecution.1.1.
Definition executionReport : ExecutionReport := sampleExecution.1.2.1.

(** The reservation of [9 + 24] calls is used up, two of them for writes. *)
Example sample_execution_report :
  sampleExecution.1.2.2 = None /\ xrp_Stage executionReport = "exact-disposal-pending" /\
  APICalls (xrp_Counters executionReport) = 33%Z /\ MutationAttempts (xrp_Counters executionReport) = 2%Z /\
  xrp_Observations executionReport = [mkObservation configmaps "kova" "attempt" "t1" "deleting-foreign-finalizers-preserved"].
Proof. vm_compute. split_and!; reflexivity. Qed.

Lemma sample_execution : fruns (execute samplePlan sampleGrant [sampleArchived]) executionTrace (executionReport, None).
Proof.
  rewrite <- (proj1 sample_execution_report). unfold executionTrace, executionReport, sampleExecution. rewrite <- surjective_pairing.
  apply fexec_runs.
Qed.

Lemma execution_within_reservation_witness :
  APICalls (xrp_Counters executionReport) = Z.of_nat (count isCall executionTrace) /\ (APICalls (xrp_Counters executionReport) <= 33)%Z.
Proof.
  destruct (execution_within_reservation samplePlan sampleGrant [sampleArchived] executionTrace executionReport None sample_execution)
    as (Hc & Hr & _).
  exact (conj Hc Hr).
Defined.

(** The Patch of the sample run, after its first 146 exchanges. *)
Lemma execution_writes_lawful_witness :
  exists x, executionTrace !! 146 = Some x /\ isMutation x = true /\
  exists refs, Forall3 archived [sampleTarget] [sampleArchived] refs /\ lawful planPayload sampleGrant (zip [sampleTarget] refs) (take 146 executionTrace) x.
Proof.
  destruct (executionTrace !! 146) as [x|] eqn:Ex.
  2: { assert (Hl : bool_decide (is_Some (executionTrace !! 146)) = true) by (vm_compute; reflexivity). rewrite Ex in Hl. discriminate Hl. }
  assert (Hm : isMutation x = true).
  { assert (Hl : match executionTrace !! 146 with Some y => isMutation y | None => false end = true) by (vm_compute; reflexivity). by rewrite Ex in Hl. }
  destruct (execution_writes_lawful samplePlan sampleGrant [sampleArchived] executionTrace (executionReport, None) (take 146 executionTrace) x
    (drop 147 executionTrace) sample_execution (eq_sym (take_drop_middle _ _ _ Ex)) Hm) as (_ & _ & Hl).
  exists x. exact (conj eq_refl (conj Hm Hl)).
Defined.

Lemma execution_report_true_witness :
  exists refs, Forall2 (fun w eo => exists o, eo = observationOf w.1 o /\ observed executionTrace w o)
    (zip [sampleTarget] refs) (xrp_Observations executionReport).
Proof.
  destruct (execution_report_true samplePlan sampleGrant [sampleArchived] executionTrace executionReport sample_execution) as (refs & _ & Ho & _).
  exists refs. exact Ho.
Defined.

Lemma verified_plan_confined_witness : Forall (confined planPayload) [sampleTarget].
Proof.
  destruct (verified_plan_confined sampleVerify planRaw planExpected trustRoots samplePlan sample_plan) as (_ & _ & Hc & _). exact Hc.
Defined.
