(* ===== verification/Manifest.v ===== *)
(** * The runner Pod

    [src/internal/runner/manifest.go]: the Pod a build runs in, as
    [PreparePod] writes it, and the defaults of
    [src/internal/service/buildcontroller/pod_receipt.go] that a Genesis
    installation adds before the template is digested.  Resource quantities keep
    their canonical text; fields the code neither sets nor reads are absent. *)
From S2P Require Import Prelude GoText Types.

(** ** The parts of [corev1.Pod] *)

Inductive EnvSource :=
| EnvValue (value : string)
| EnvFieldRef (apiVersion fieldPath : string)
| EnvOther (value : string).          (* another [ValueFrom] source, or one beside a [Value] *)
Record EnvVar := mkEnv { ev_Name : string; ev_From : EnvSource }.
Record VolumeMount := mkMount { vm_Name : string; vm_MountPath : string; vm_ReadOnly : bool }.
Inductive VolumeSource :=
| EmptyDir (sizeLimit : string)
| SecretVolume (secret : string) (items : list (string * string)) (defaultMode : option Z)
| OtherVolume (kind : string).
Record Volume := mkVolume { vo_Name : string; vo_Source : VolumeSource }.
Record Probe := mkProbe {
  pb_Command : list string; pb_Period : Z; pb_Timeout : Z; pb_FailureThreshold : Z; pb_SuccessThreshold : Z }.
Record SecurityContext := mkSecurity {
  sc_AllowPrivilegeEscalation : bool; sc_RunAsNonRoot : bool; sc_RunAsUser : Z; sc_RunAsGroup : Z;
  sc_Drop : list string; sc_Seccomp : string }.
Record PodSecurityContext := mkPodSecurity {
  psc_RunAsNonRoot : bool; psc_RunAsUser : Z; psc_RunAsGroup : Z; psc_FSGroup : Z }.
(** A nil [ResourceList] is [None]. *)
Record ResourceRequirements := mkResources {
  rr_Requests : option (gmap string string); rr_Limits : option (gmap string string) }.
Record Container := mkContainer {
  ct_Name : string; ct_Image : string; ct_ImagePullPolicy : string; ct_Command : list string;
  ct_Env : list EnvVar; ct_VolumeMounts : list VolumeMount; ct_Resources : ResourceRequirements;
  ct_Liveness : option Probe; ct_Readiness : option Probe; ct_Startup : option Probe;
  ct_TerminationMessagePath : string; ct_TerminationMessagePolicy : string;
  ct_Security : option SecurityContext }.
Record Toleration := mkToleration { tl_Key : string; tl_Operator : string; tl_Effect : string; tl_Seconds : option Z }.
Record PodSpec := mkPodSpec {
  ps_RestartPolicy : string; ps_Security : option PodSecurityContext;
  ps_Containers : list Container; ps_InitContainers : list Container; ps_Volumes : list Volume;
  ps_ImagePullSecrets : list string; ps_NodeSelector : gmap string string;
  ps_ActiveDeadlineSeconds : option Z; ps_AutomountServiceAccountToken : option bool; ps_EnableServiceLinks : option bool;
  ps_ServiceAccountName : string; ps_DNSPolicy : string; ps_SchedulerName : string;
  ps_TerminationGracePeriodSeconds : option Z; ps_Tolerations : list Toleration }.

Record PodCondition := mkPodCondition { pc_Type : string; pc_Status : string; pc_Time : option Z }.
Record Terminated := mkTerminated {
  te_ExitCode : Z; te_Reason : string; te_Message : string; te_StartedAt : option Z; te_FinishedAt : option Z }.
Record ContainerStatus := mkContainerStatus { cs_Name : string; cs_Terminated : option Terminated }.
Record PodStatus := mkPodStatus {
  pst_Phase : string; pst_Reason : string; pst_Conditions : list PodCondition; pst_Init : list ContainerStatus }.

(** A Pod as the build controller reads it; [Pod] holds the identity the
    admission ledgers use.  Times are nanoseconds, the zero time is [None]. *)
Record RunnerPod := mkRunnerPod {
  rp_obj : Pod; rp_created : option Z; rp_deleting : bool; rp_spec : PodSpec; rp_status : PodStatus }.

Definition PodFailed : string := "Failed".
Definition PodSucceeded : string := "Succeeded".
Definition PodScheduled : string := "PodScheduled".
Definition PodReady : string := "Ready".
Definition ConditionTrue : string := "True".
Definition RestartPolicyNever : string := "Never".

(** ** [PreparePod] *)

Record ManifestOptions := mkManifest {
  mo_PodName : string; mo_Namespace : string; mo_Image : string; mo_ImagePullPolicy : string; mo_ImagePullSecret : string;
  mo_BuildkitAddr : string; mo_PprofServer : string; mo_Env : gmap string string; mo_Labels : gmap string string;
  mo_Annotations : gmap string string; mo_NodeSelector : gmap string string; mo_SourceURI : string; mo_SourceDigest : string;
  mo_RegistryPlainHTTP : list string; mo_RunnerResources : ResourceRequirements; mo_SourceFetchResources : ResourceRequirements;
  mo_SourceVolumeSizeLimit : option string }.

Definition MaterializedSourcePath : string := "/var/lib/kova/source/source.zip".

Definition resourceList (cpu memory storage : string) : gmap string string :=
  <["cpu" := cpu]> (<["memory" := memory]> (<["ephemeral-storage" := storage]> ∅)).
Definition DefaultRunnerResources : ResourceRequirements :=
  mkResources (Some (resourceList "100m" "2Gi" "5Gi")) (Some (resourceList "4" "2Gi" "5Gi")).
Definition DefaultSourceFetchResources : ResourceRequirements :=
  mkResources (Some (resourceList "50m" "1Gi" "1Gi")) (Some (resourceList "2" "1Gi" "1Gi")).
Definition DefaultSourceVolumeSizeLimit : string := "4Gi".

(** The overrides' entries replace the defaults' entries of the same name. *)
Definition mergeResources (defaults overrides : ResourceRequirements) : ResourceRequirements :=
  let over d o := Some (default ∅ o ∪ default ∅ d) in
  mkResources (over (rr_Requests defaults) (rr_Requests overrides)) (over (rr_Limits defaults) (rr_Limits overrides)).

Definition hardened : SecurityContext := mkSecurity false true 65532 65532 ["ALL"] "RuntimeDefault".
Definition noResources : ResourceRequirements := mkResources None None.

Definition with_env (c : Container) (env : list EnvVar) : Container :=
  mkContainer (ct_Name c) (ct_Image c) (ct_ImagePullPolicy c) (ct_Command c) env (ct_VolumeMounts c) (ct_Resources c)
    (ct_Liveness c) (ct_Readiness c) (ct_Startup c) (ct_TerminationMessagePath c) (ct_TerminationMessagePolicy c) (ct_Security c).

Definition readinessProbe : Probe := mkProbe ["/usr/bin/test"; "-S"; "/tmp/kova.sock"] 1 1 3 0.
Definition sourceMount : VolumeMount := mkMount "kova-source" "/var/lib/kova/source" false.
Definition dockerMount : VolumeMount := mkMount "docker-config" "/home/kova/.docker" true.

(** The entries of [sortedEnvNames] in order. *)
Definition envVars (env : gmap string string) : list EnvVar :=
  List.map (fun kv => mkEnv (fst kv) (EnvValue (snd kv))) (sorted_entries env).

Definition runnerContainer (o : ManifestOptions) : Container :=
  {| ct_Name := "runner"; ct_Image := mo_Image o; ct_ImagePullPolicy := mo_ImagePullPolicy o;
     ct_Command := ["kovad"; "daemon"] ++ (if sempty (mo_BuildkitAddr o) then [] else ["--addrs"; mo_BuildkitAddr o]);
     ct_Env := (if sempty (mo_PprofServer o) then [] else [mkEnv "KOVA_PPROF_SERVER" (EnvValue (mo_PprofServer o))]) ++
               envVars (mo_Env o);
     ct_VolumeMounts := (if sempty (mo_SourceURI o) then [] else [sourceMount; mkMount "kova-source" "/tmp" false]) ++
                        (if sempty (mo_ImagePullSecret o) then [] else [dockerMount]);
     ct_Resources := mergeResources DefaultRunnerResources (mo_RunnerResources o);
     ct_Liveness := None; ct_Readiness := Some readinessProbe; ct_Startup := None;
     ct_TerminationMessagePath := ""; ct_TerminationMessagePolicy := ""; ct_Security := Some hardened |}.

Definition fetchCommand (uri digest : string) : list string :=
  ["kovad"; "source"; "fetch"; "--uri"; uri; "--digest"; digest; "--output"; MaterializedSourcePath].

Definition fetchContainer (o : ManifestOptions) : Container :=
  {| ct_Name := "source-fetch"; ct_Image := mo_Image o; ct_ImagePullPolicy := mo_ImagePullPolicy o;
     ct_Command := fetchCommand (mo_SourceURI o) (mo_SourceDigest o) ++
                   flat_map (fun host => ["--registry-plain-http"; host]) (mo_RegistryPlainHTTP o);
     ct_Env := if sempty (mo_ImagePullSecret o) then [] else [mkEnv "HOME" (EnvValue "/home/kova")];
     ct_VolumeMounts := sourceMount :: (if sempty (mo_ImagePullSecret o) then [] else [dockerMount]);
     ct_Resources := mergeResources DefaultSourceFetchResources (mo_SourceFetchResources o);
     ct_Liveness := None; ct_Readiness := None; ct_Startup := None;
     ct_TerminationMessagePath := ""; ct_TerminationMessagePolicy := "FallbackToLogsOnError"; ct_Security := Some hardened |}.

Definition podVolumes (o : ManifestOptions) : list Volume :=
  (if sempty (mo_SourceURI o) then []
   else [mkVolume "kova-source" (EmptyDir (default DefaultSourceVolumeSizeLimit (mo_SourceVolumeSizeLimit o)))]) ++
  (if sempty (mo_ImagePullSecret o) then []
   else [mkVolume "docker-config" (SecretVolume (mo_ImagePullSecret o) [(".dockerconfigjson", "config.json")] None)]).

Definition emptyPodStatus : PodStatus := mkPodStatus "" "" [] [].

Definition PreparePod (o : ManifestOptions) : RunnerPod :=
  {| rp_obj := {| pod_ns := mo_Namespace o; pod_name := mo_PodName o; pod_uid := "";
                  pod_labels := mo_Labels o ∪ {["app.kubernetes.io/name" := "kova-runner"]};
                  pod_annotations := mo_Annotations o; pod_owners := [] |};
     rp_created := None; rp_deleting := false;
     rp_spec :=
       {| ps_RestartPolicy := RestartPolicyNever; ps_Security := Some (mkPodSecurity true 65532 65532 65532);
          ps_Containers := [runnerContainer o];
          ps_InitContainers := if sempty (mo_SourceURI o) then [] else [fetchContainer o];
          ps_Volumes := podVolumes o;
          ps_ImagePullSecrets := if sempty (mo_ImagePullSecret o) then [] else [mo_ImagePullSecret o];
          ps_NodeSelector := mo_NodeSelector o; ps_ActiveDeadlineSeconds := None;
          ps_AutomountServiceAccountToken := None; ps_EnableServiceLinks := None; ps_ServiceAccountName := "";
          ps_DNSPolicy := ""; ps_SchedulerName := ""; ps_TerminationGracePeriodSeconds := None; ps_Tolerations := [] |};
     rp_status := emptyPodStatus |}.

(** ** Genesis defaults *)

(** A missing request takes the value of its limit. *)
Definition defaultRequests (r : ResourceRequirements) : ResourceRequirements :=
  match rr_Limits r with
  | None => r
  | Some limits => mkResources (Some (default ∅ (rr_Requests r) ∪ limits)) (Some limits)
  end.
Definition defaultProbe (p : Probe) : Probe :=
  if (pb_SuccessThreshold p =? 0)%Z
  then mkProbe (pb_Command p) (pb_Period p) (pb_Timeout p) (pb_FailureThreshold p) 1 else p.

Definition prepareGenesisContainerDefaults (c : Container) : Container :=
  {| ct_Name := ct_Name c; ct_Image := ct_Image c;
     ct_ImagePullPolicy := if sempty (ct_ImagePullPolicy c) then "IfNotPresent" else ct_ImagePullPolicy c;
     ct_Command := ct_Command c; ct_Env := ct_Env c; ct_VolumeMounts := ct_VolumeMounts c;
     ct_Resources := defaultRequests (ct_Resources c);
     ct_Liveness := defaultProbe <$> ct_Liveness c; ct_Readiness := defaultProbe <$> ct_Readiness c;
     ct_Startup := defaultProbe <$> ct_Startup c;
     ct_TerminationMessagePath := "/dev/termination-log";
     ct_TerminationMessagePolicy :=
       if sempty (ct_TerminationMessagePolicy c) then "File" else ct_TerminationMessagePolicy c;
     ct_Security := ct_Security c |}.

Definition defaultVolume (v : Volume) : Volume :=
  match vo_Source v with
  | SecretVolume s items None => mkVolume (vo_Name v) (SecretVolume s items (Some 420%Z))   (* 0644 *)
  | _ => v
  end.

Definition genesisTolerations : list Toleration :=
  [mkToleration "node.kubernetes.io/not-ready" "Exists" "NoExecute" (Some 300%Z);
   mkToleration "node.kubernetes.io/unreachable" "Exists" "NoExecute" (Some 300%Z)].

Definition prepareGenesisPodDefaults (p : RunnerPod) : RunnerPod :=
  let s := rp_spec p in
  {| rp_obj := rp_obj p; rp_created := rp_created p; rp_deleting := rp_deleting p;
     rp_spec :=
       {| ps_RestartPolicy := ps_RestartPolicy s; ps_Security := ps_Security s;
          ps_Containers := List.map prepareGenesisContainerDefaults (ps_Containers s);
          ps_InitContainers := List.map prepareGenesisContainerDefaults (ps_InitContainers s);
          ps_Volumes := List.map defaultVolume (ps_Volumes s); ps_ImagePullSecrets := ps_ImagePullSecrets s;
          ps_NodeSelector := ps_NodeSelector s; ps_ActiveDeadlineSeconds := ps_ActiveDeadlineSeconds s;
          ps_AutomountServiceAccountToken := Some false; ps_EnableServiceLinks := Some false;
          ps_ServiceAccountName := "default"; ps_DNSPolicy := "ClusterFirst"; ps_SchedulerName := "default-scheduler";
          ps_TerminationGracePeriodSeconds := Some 30%Z; ps_Tolerations := genesisTolerations |};
     rp_status := rp_status p |}.

(** [validateGenesisPodRuntimeIdentity]. *)
Definition validateGenesisPodRuntimeIdentity (runnerImage : string) (build : KovaBuild) (pod : RunnerPod) : option error :=
  let s := rp_spec pod in
  match ps_Containers s with
  | [c] =>
      if negb (seqb (ct_Name c) "runner") || negb (seqb (ct_Image c) runnerImage) ||
         negb (bool_decide (ct_Command c = ["kovad"; "daemon"])) || negb (seqb (ps_RestartPolicy s) RestartPolicyNever)
      then Some (Plain "Genesis Pod runner differs from pinned image and command")
      else
        let uri := src_uri (sp_source (kb_spec build)) in
        if sempty uri then
          match ps_InitContainers s with
          | [] => None
          | _ => Some (Plain "Genesis Pod has unexpected source-fetch container")
          end
        else
          match ps_InitContainers s with
          | [f] =>
              if negb (seqb (ct_Name f) "source-fetch") || negb (seqb (ct_Image f) runnerImage)
              then Some (Plain "Genesis Pod source-fetch image differs from pinned runner image")
              else if bool_decide (take 9 (ct_Command f) = fetchCommand uri (src_digest (sp_source (kb_spec build))))
              then None else Some (Plain "Genesis Pod source-fetch command differs from original source")
          | _ => Some (Plain "Genesis Pod source-fetch image differs from pinned runner image")
          end
  | _ => Some (Plain "Genesis Pod runner differs from pinned image and command")
  end.

(** ** [runner.go] and [timing.go] of the build controller *)

Definition podReady (pod : RunnerPod) : bool :=
  existsb (fun c => seqb (pc_Type c) PodReady && seqb (pc_Status c) ConditionTrue) (pst_Conditions (rp_status pod)).

Record startupSegment := mkSegment { sg_stage : string; sg_duration : Z }.

(** The last matching condition or container wins. *)
Definition last_time {A} (f : A -> option (option Z)) (l : list A) : option Z :=
  fold_left (fun acc x => match f x with Some t => t | None => acc end) l None.
Definition conditionTime (type : string) (pod : RunnerPod) : option Z :=
  last_time (fun c => if seqb (pc_Status c) ConditionTrue && seqb (pc_Type c) type then Some (pc_Time c) else None)
    (pst_Conditions (rp_status pod)).
Definition fetchTime (at_ : Terminated -> option Z) (pod : RunnerPod) : option Z :=
  last_time (fun s => match cs_Terminated s with
                      | Some t => if seqb (cs_Name s) "source-fetch" && (te_ExitCode t =? 0)%Z then Some (at_ t) else None
                      | None => None
                      end) (pst_Init (rp_status pod)).

Definition segment (stage : string) (start end_ : option Z) : list startupSegment :=
  match start, end_ with
  | Some s, Some e => if (e <? s)%Z then [] else [mkSegment stage (e - s)]
  | _, _ => []
  end.

Definition runnerStartupSegments (buildCreated : option Z) (pod : RunnerPod) : list startupSegment :=
  let scheduled := conditionTime PodScheduled pod in
  let ready := conditionTime PodReady pod in
  let sourceStart := fetchTime te_StartedAt pod in
  let sourceEnd := fetchTime te_FinishedAt pod in
  segment "queue_to_pod" buildCreated (rp_created pod) ++
  segment "pod_schedule" (rp_created pod) scheduled ++
  segment "source_wait" scheduled sourceStart ++
  segment "source_fetch" sourceStart sourceEnd ++
  segment "runner_ready" sourceEnd ready ++
  segment "pod_startup" (rp_created pod) ready.

(** ** Properties *)

Lemma defaultRequests_idem r : defaultRequests (defaultRequests r) = defaultRequests r.
Proof.
  destruct r as [q [l|]]; [|done]. unfold defaultRequests; simpl. do 2 f_equal.
  rewrite <- (assoc_L (∪)). by rewrite (idemp_L (∪)).
Qed.

Lemma container_defaults_idem c :
  prepareGenesisContainerDefaults (prepareGenesisContainerDefaults c) = prepareGenesisContainerDefaults c.
Proof.
  assert (HP : forall p, defaultProbe (defaultProbe p) = defaultProbe p).
  { intros p. unfold defaultProbe. by destruct (pb_SuccessThreshold p =? 0)%Z eqn:E; simpl; rewrite ?E. }
  assert (HO : forall o : option Probe, defaultProbe <$> (defaultProbe <$> o) = defaultProbe <$> o).
  { intros [p|]; simpl; [by rewrite HP|done]. }
  assert (HS : forall s d, d <> "" -> (if sempty (if sempty s then d else s) then d else (if sempty s then d else s)) =
                                      (if sempty s then d else s)).
  { intros s d Hd. destruct (sempty s) eqn:E; [by destruct (sempty d)|by rewrite E]. }
  unfold prepareGenesisContainerDefaults; simpl. by rewrite defaultRequests_idem, !HO, !HS.
Qed.

(** Adding the Genesis defaults twice adds them once: a Pod read back with its
    defaults has the template that was digested. *)
Lemma genesis_defaults_idem p : prepareGenesisPodDefaults (prepareGenesisPodDefaults p) = prepareGenesisPodDefaults p.
Proof.
  assert (HV : forall v, defaultVolume (defaultVolume v) = defaultVolume v).
  { intros v. unfold defaultVolume. by destruct (vo_Source v) as [|? ? []|] eqn:E; simpl; rewrite ?E. }
  unfold prepareGenesisPodDefaults; simpl. rewrite !List.map_map.
  do 2 f_equal; apply List.map_ext; auto using container_defaults_idem.
Qed.

(** The prepared Pod is the Pod whose runtime identity is checked. *)
Lemma prepared_identity o build :
  mo_BuildkitAddr o = "" -> mo_SourceURI o = src_uri (sp_source (kb_spec build)) ->
  mo_SourceDigest o = src_digest (sp_source (kb_spec build)) ->
  validateGenesisPodRuntimeIdentity (mo_Image o) build (prepareGenesisPodDefaults (PreparePod o)) = None.
Proof.
  intros HB HU HD. unfold validateGenesisPodRuntimeIdentity; simpl. rewrite HB; simpl.
  unfold seqb. rewrite !bool_decide_true by done. simpl. rewrite HU.
  destruct (sempty (src_uri (sp_source (kb_spec build)))); [done|]. simpl. rewrite HU, HD.
  by rewrite !bool_decide_true by done.
Qed.

Lemma segment_nonneg stage s e g : g ∈ segment stage s e -> (0 <= sg_duration g)%Z /\ sg_stage g = stage.
Proof.
  unfold segment. destruct s as [s|], e as [e|]; try by intros []%elem_of_nil.
  destruct (Z.ltb_spec e s); [by intros []%elem_of_nil|]. intros ->%list_elem_of_singleton. simpl. split; [lia|done].
Qed.
