(* ===== verification/BuildContract.v ===== *)
(** * Build targets, platforms and output formats

    [src/internal/buildcontract/contract.go] and the format functions of
    [src/internal/source/source.go]: which targets a build may name, and which
    concrete image each pair of target and format is pushed to.

    Image references are parsed by [go-containerregistry]; [ImageName] has its
    two uses of [name.NewTag] and what the code relies on. *)
From S2P Require Import Prelude GoText Types GoPath FairQueue FairFacts.

Class ImageName := {
  (** [name.NewTag(value)] and then [tag.Name()] *)
  NewTag : string -> result string;
  (** [name.NewTag(value, name.StrictValidation)] succeeds *)
  NewTagStrict : string -> bool;
  (** registries, repositories and tags consist of visible ASCII characters *)
  NewTag_visible : forall s t, NewTag s = Ok t -> str_forallb (in_range 33 126) t = true;
  NewTag_nonempty : forall s t, NewTag s = Ok t -> t <> "" }.

Definition MaxLogicalTargets : Z := 100.
Definition MaxConcreteOutputs : Z := MaxLogicalTargets * 2.
Definition MaxTargetLength : Z := 512.
Definition MaxBuildConcurrency : Z := MaxLogicalTargets.
Definition PlatformLinuxAMD64 : string := "linux/amd64".
Definition PlatformLinuxARM64 : string := "linux/arm64".
Definition NydusV3TargetSuffix : string := "_nydus_v3".

(** ** Text *)

Definition lower_ascii (c : ascii) : ascii := if is_upper c then ascii_of_N (N_of_ascii c + 32) else c.

(** [strings.ToLower].  Of the runes above ASCII only U+0130 and the Kelvin sign
    U+212A become ASCII letters; every other one stays above ASCII and is kept,
    which is the same in every comparison with an ASCII text. *)
Fixpoint ToLower (s : string) : string :=
  match s with
  | EmptyString => EmptyString
  | String a t =>
      match t with
      | String b r =>
          if (N_of_ascii a =? 196)%N && (N_of_ascii b =? 176)%N then String "i" (ToLower r)
          else match r with
          | String c r' =>
              if (N_of_ascii a =? 226)%N && (N_of_ascii b =? 132)%N && (N_of_ascii c =? 170)%N then String "k" (ToLower r')
              else String (lower_ascii a) (ToLower t)
          | EmptyString => String (lower_ascii a) (ToLower t)
          end
      | EmptyString => String (lower_ascii a) EmptyString
      end
  end.

Fixpoint Contains (s p : string) : bool :=
  HasPrefix s p || match s with EmptyString => false | String _ r => Contains r p end.
Definition ContainsAny (s chars : string) : bool :=
  negb (str_forallb (fun c => negb (Contains chars (String c ""))) s).
(** [strings.LastIndexByte]: -1 when the byte does not occur. *)
Fixpoint last_index_from (i last : Z) (s : string) (b : ascii) : Z :=
  match s with
  | EmptyString => last
  | String c r => last_index_from (i + 1) (if bool_decide (c = b) then i else last) r b
  end.
Definition LastIndexByte (s : string) (b : ascii) : Z := last_index_from 0 (-1) s b.
Definition TrimSuffix (s p : string) : string :=
  if has_suffix s p then take_str (String.length s - String.length p) s else s.
(** [strings.Cut]: the text before and after the first separator. *)
Fixpoint cut_from (before s sep : string) : option (string * string) :=
  if HasPrefix s sep then Some (before, str_drop (String.length sep) s)
  else match s with
       | EmptyString => None
       | String c r => cut_from (before +:+ String c "") r sep
       end.
Definition Cut (s sep : string) : option (string * string) := cut_from "" s sep.

Section contract.
Context `{ImageName}.

(** ** Platforms *)

Definition NormalizePlatform (raw : string) : result string :=
  let value := TrimSpace (ToLower raw) in
  if negb (seqb value raw) then Err (Plain "platform must be canonical and contain no surrounding whitespace")
  else if seqb value PlatformLinuxAMD64 || seqb value PlatformLinuxARM64 then Ok value
  else Err (Plain "unsupported platform").

Fixpoint parseAddresses (values : list string) (acc : gmap string string) : result (gmap string string) :=
  match values with
  | [] => Ok acc
  | raw :: rest =>
      match Cut (TrimSpace raw) "=" with
      | None => Err (Plain "platform address must use platform=buildkit-address")
      | Some (platform, address) =>
          if sempty (TrimSpace address) then Err (Plain "platform address must use platform=buildkit-address")
          else match NormalizePlatform platform with
          | Err e => Err e
          | Ok p =>
              if bool_decide (is_Some (acc !! p)) then Err (Plain "platform has more than one address pool")
              else parseAddresses rest (<[p := TrimSpace address]> acc)
          end
      end
  end.
Definition ParsePlatformAddresses (values : list string) : result (gmap string string) :=
  match parseAddresses values ∅ with
  | Err e => Err e
  | Ok m => if bool_decide (size m = 0) then Err (Plain "at least one platform address is required") else Ok m
  end.

(** ** Targets *)

Definition whitespace : string :=
  String (ascii_of_N 9) (String (ascii_of_N 13) (String (ascii_of_N 10) " ")).

Definition NormalizeTarget (raw : string) : result string :=
  let value := TrimSpace raw in
  if sempty value then Err (Plain "target must not be empty")
  else if (MaxTargetLength <? slen value)%Z then Err (Plain "target exceeds 512 bytes")
  else if negb (seqb value raw) || ContainsAny value whitespace
  then Err (Plain "target must not contain surrounding or embedded whitespace")
  else if Contains value "://" then Err (Plain "target must be an image reference without a URI scheme")
  else if Contains value "@" then Err (Plain "target must be a tagged push destination, not a digest reference")
  else if (LastIndexByte value ":" <=? LastIndexByte value "/")%Z then Err (Plain "target must include an explicit tag")
  else match NewTag value with
  | Err e => Err (Wrap "invalid tagged image target" e)
  | Ok normalized =>
      if NewTagStrict normalized then Ok normalized else Err (Plain "invalid tagged image target")
  end.

Definition NormalizeLogicalTarget (raw : string) : result string :=
  match NormalizeTarget raw with
  | Err e => Err e
  | Ok target =>
      if has_suffix target NydusV3TargetSuffix then Err (Plain "target tag suffix is reserved for Kova Nydus outputs")
      else Ok target
  end.

Definition out_of_bounds {A} (values : list A) : bool :=
  (Z.of_nat (List.length values) <? 1)%Z || (MaxLogicalTargets <? Z.of_nat (List.length values))%Z.

(** The loop of [NormalizeTargets]: [seen] are the targets of earlier rounds. *)
Fixpoint normalizeTargets (values : list string) (seen : list string) : result (list string) :=
  match values with
  | [] => Ok seen
  | v :: rest =>
      match NormalizeLogicalTarget v with
      | Err e => Err e
      | Ok target =>
          if bool_decide (target ∈ seen) then Err (Plain "target is duplicated")
          else normalizeTargets rest (seen ++ [target])
      end
  end.
Definition NormalizeTargets (values : list string) : result (list string) :=
  if out_of_bounds values then Err (Plain "targets must contain between 1 and 100 image references")
  else match normalizeTargets values [] with
  | Err e => Err e
  | Ok l => Ok (sort_by str_ltb l)
  end.

Fixpoint normalizeSpecs (values : list KovaBuildTargetSpec) (acc : list KovaBuildTargetSpec)
    : result (list KovaBuildTargetSpec) :=
  match values with
  | [] => Ok acc
  | v :: rest =>
      match NormalizeLogicalTarget (tg_target v) with
      | Err e => Err e
      | Ok target =>
          match NormalizePlatform (tg_platform v) with
          | Err e => Err e
          | Ok platform =>
              if bool_decide (target ∈ (tg_target <$> acc)) then Err (Plain "target is duplicated")
              else normalizeSpecs rest (acc ++ [mkTarget target platform])
          end
      end
  end.
Definition specLess (i j : KovaBuildTargetSpec) : bool :=
  if negb (seqb (tg_target i) (tg_target j)) then str_ltb (tg_target i) (tg_target j)
  else str_ltb (tg_platform i) (tg_platform j).
Definition NormalizeTargetSpecs (values : list KovaBuildTargetSpec) : result (list KovaBuildTargetSpec) :=
  if out_of_bounds values then Err (Plain "targets must contain between 1 and 100 entries")
  else match normalizeSpecs values [] with
  | Err e => Err e
  | Ok l => Ok (sort_by specLess l)
  end.

Definition ValidateConcurrency (concurrency logicalTargets : Z) : option error :=
  if (concurrency <? 1)%Z || (MaxBuildConcurrency <? concurrency)%Z
  then Some (Plain "concurrency must be between 1 and 100")
  else if (logicalTargets <? concurrency)%Z then Some (Plain "concurrency exceeds logical target count") else None.

Definition EqualTargetSets (left right : list string) : bool :=
  match NormalizeTargets left, NormalizeTargets right with
  | Ok l, Ok r => bool_decide (l = r)
  | _, _ => false
  end.
Definition EqualTargetSpecSets (left right : list KovaBuildTargetSpec) : bool :=
  match NormalizeTargetSpecs left, NormalizeTargetSpecs right with
  | Ok l, Ok r => bool_decide (l = r)
  | _, _ => false
  end.
End contract.

(** ** Formats *)

Inductive BuildFormat := BuildFormatOCI | BuildFormatNydus.
#[export] Instance BuildFormat_eq_dec : EqDecision BuildFormat.
Proof. solve_decision. Defined.
Definition format_name (f : BuildFormat) : string :=
  match f with BuildFormatOCI => "oci" | BuildFormatNydus => "nydus" end.

Definition HasNydusV3Suffix (target : string) : bool := has_suffix (TrimSpace target) NydusV3TargetSuffix.
Definition EnsureNydusV3Suffix (target : string) : string :=
  let trimmed := TrimSpace target in
  if sempty trimmed || HasNydusV3Suffix trimmed then trimmed else trimmed +:+ NydusV3TargetSuffix.
Definition StripNydusV3Suffix (target : string) : string := TrimSuffix (TrimSpace target) NydusV3TargetSuffix.
Definition NormalizeTargetForFormat (target : string) (f : BuildFormat) : string :=
  match f with BuildFormatOCI => StripNydusV3Suffix target | BuildFormatNydus => EnsureNydusV3Suffix target end.

Definition NormalizeBuildFormatValue (value : string) : string :=
  let normalized := ToLower (TrimSpace value) in
  if sempty normalized then "nydus" else normalized.
Definition ParseBuildFormats (value : string) : result (list BuildFormat) :=
  let v := NormalizeBuildFormatValue value in
  if sempty v || seqb v "nydus" then Ok [BuildFormatNydus]
  else if seqb v "oci" then Ok [BuildFormatOCI]
  else if seqb v "both" then Ok [BuildFormatNydus; BuildFormatOCI]
  else Err (Plain "build format must be one of nydus, oci, or both").

(** ** Sorting by a strict order *)

Section sorting.
Context {A : Type} (lt : A -> A -> bool).
Hypothesis lt_asym : forall x y, lt x y = true -> lt y x = false.
Hypothesis lt_trans : forall x y z, lt y x = false -> lt z y = false -> lt z x = false.
Hypothesis lt_eq : forall x y, lt x y = false -> lt y x = false -> x = y.

Definition le_by (x y : A) : Prop := lt y x = false.

Lemma insert_by_sorted_le x l : StronglySorted le_by l -> StronglySorted le_by (insert_by lt x l).
Proof.
  induction l as [|y l IH]; simpl; [by repeat constructor|]. intros Hs. inversion Hs as [|? ? Hl Hy]; subst.
  destruct (lt y x) eqn:E; constructor; auto.
  - rewrite insert_by_perm. constructor; [by apply lt_asym|done].
  - constructor; [done|]. eapply Forall_impl; [done|]. intros z Hz. by apply (lt_trans x y z).
Qed.

Lemma sort_by_sorted_le l : StronglySorted le_by (sort_by lt l).
Proof. induction l as [|x l IH]; simpl; [constructor|]. by apply insert_by_sorted_le. Qed.

(** The sorted list depends only on the elements. *)
Lemma sort_by_unique l l' : l ≡ₚ l' -> sort_by lt l = sort_by lt l'.
Proof.
  intros Hp. assert (AntiSymm eq le_by) as HA by (intros x y H1 H2; by apply lt_eq).
  apply (StronglySorted_unique le_by); [apply sort_by_sorted_le..|]. by rewrite !sort_by_perm.
Qed.
End sorting.

Lemma specLess_asym x y : specLess x y = true -> specLess y x = false.
Proof.
  unfold specLess, seqb. destruct x as [t p], y as [u q]; simpl.
  repeat case_bool_decide; simpl; subst; try congruence; apply str_ltb_asym.
Qed.

Lemma str_le_trans x y z : str_ltb y x = false -> str_ltb z y = false -> str_ltb z x = false.
Proof.
  intros H1 H2. destruct (str_ltb z x) eqn:E; [|done]. destruct (str_ltb x y) eqn:E2.
  - rewrite (str_ltb_trans _ _ _ E E2) in H2. done.
  - by rewrite (str_ltb_total _ _ E2 H1), H2 in E.
Qed.

Lemma specLess_trans x y z : specLess y x = false -> specLess z y = false -> specLess z x = false.
Proof.
  unfold specLess, seqb. destruct x as [t p], y as [u q], z as [v r]; simpl.
  destruct (decide (u = t)) as [->|Hut], (decide (v = t)) as [->|Hvt].
  - rewrite !bool_decide_true by done. simpl. apply str_le_trans.
  - rewrite !(bool_decide_false (v = t)) by done. by rewrite bool_decide_true.
  - rewrite bool_decide_false, (bool_decide_false (t = u)), bool_decide_true by congruence. simpl. intros H1 H2.
    destruct Hut. by apply str_ltb_total.
  - rewrite bool_decide_false, (bool_decide_false (v = t)) by done. simpl. intros H1.
    destruct (decide (v = u)) as [->|Hvu]; [done|]. rewrite bool_decide_false by done. simpl. by apply str_le_trans.
Qed.

Lemma specLess_eq x y : specLess x y = false -> specLess y x = false -> x = y.
Proof.
  unfold specLess, seqb. destruct x as [t p], y as [u q]; simpl.
  destruct (decide (t = u)) as [->|Hn].
  - rewrite !bool_decide_true by done; simpl. intros. by rewrite (str_ltb_total p q).
  - rewrite !bool_decide_false by congruence; simpl. intros. by destruct Hn; apply str_ltb_total.
Qed.

(** ** Normalization *)

Section facts.
Context `{ImageName}.

Definition normal_spec (v y : KovaBuildTargetSpec) : Prop :=
  NormalizeLogicalTarget (tg_target v) = Ok (tg_target y) /\ NormalizePlatform (tg_platform v) = Ok (tg_platform y).

Lemma normalizeSpecs_ok values acc l :
  NoDup (tg_target <$> acc) ->
  normalizeSpecs values acc = Ok l <->
  exists ys, l = acc ++ ys /\ Forall2 normal_spec values ys /\ NoDup (tg_target <$> acc ++ ys).
Proof.
  revert acc. induction values as [|v values IH]; intros acc Hnd; simpl.
  { split.
    - intros [= <-]. exists []. by rewrite app_nil_r.
    - intros (ys & -> & ->%Forall2_nil_inv_l & _). by rewrite app_nil_r. }
  split.
  - destruct (NormalizeLogicalTarget (tg_target v)) as [t|e] eqn:ET; [|done].
    destruct (NormalizePlatform (tg_platform v)) as [p|e] eqn:EP; [|done].
    case_bool_decide as Hin; [done|]. rewrite IH.
    + intros (ys & -> & HF & Hd). exists (mkTarget t p :: ys). rewrite <- !app_assoc in *. by repeat constructor.
    + rewrite fmap_app, NoDup_app. split; [done|]. split; [|apply NoDup_singleton]. by intros x Hx ->%list_elem_of_singleton.
  - intros (ys & -> & HF & Hd). inversion HF as [|? [t p] ? ys' [HT HP] HF']; subst. simpl in *. rewrite HT, HP.
    pose proof Hd as Hd0. rewrite fmap_app, NoDup_app in Hd0. destruct Hd0 as (_ & Hd1 & _).
    rewrite bool_decide_false by (intros Hin; apply (Hd1 _ Hin); by left).
    rewrite IH.
    + exists ys'. by rewrite <- !app_assoc.
    + change (mkTarget t p :: ys') with ([mkTarget t p] ++ ys') in Hd. rewrite app_assoc, fmap_app, NoDup_app in Hd. apply Hd.
Qed.

Lemma NormalizeTargetSpecs_ok values l :
  NormalizeTargetSpecs values = Ok l <->
  out_of_bounds values = false /\
  exists ys, l = sort_by specLess ys /\ Forall2 normal_spec values ys /\ NoDup (tg_target <$> ys).
Proof.
  unfold NormalizeTargetSpecs. destruct (out_of_bounds values); [naive_solver|].
  pose proof (normalizeSpecs_ok values []) as HN. simpl in HN.
  destruct (normalizeSpecs values []) as [ys|e].
  - destruct (HN ys) as [HN1 _]; [constructor|]. destruct HN1 as (ys' & -> & HF & Hd); [done|].
    split; [intros [= <-]; eauto|]. intros (_ & ys & -> & HF2 & _). do 2 f_equal.
    clear -HF HF2. revert ys HF2. induction HF as [|v y vs ys' [H1 H2] HF IH]; intros ys HF2.
    + by apply Forall2_nil_inv_l in HF2 as ->.
    + inversion HF2 as [|? z ? zs [H3 H4] HF3]; subst. f_equal; [|auto]. destruct y, z; simpl in *; congruence.
  - split; [done|]. intros (_ & ys & -> & HF & Hd). destruct (HN ys) as [_ HN2]; [constructor|].
    discriminate HN2; eauto.
Qed.

(** The order in which targets are listed does not matter. *)
Lemma targets_order_free values values' l :
  values ≡ₚ values' -> NormalizeTargetSpecs values = Ok l -> NormalizeTargetSpecs values' = Ok l.
Proof.
  intros Hp. rewrite !NormalizeTargetSpecs_ok. intros (Hb & ys & -> & HF & Hd).
  destruct (Permutation_Forall2 Hp HF) as (ys' & Hys & HF').
  split; [unfold out_of_bounds in *; by rewrite <- Hp|]. exists ys'. split; [|split; [done|by rewrite <- Hys]].
  apply sort_by_unique; auto using specLess_asym, specLess_eq. exact specLess_trans.
Qed.
End facts.
