(* ===== verification/BuildStatus.v ===== *)
(** * The status of a build

    The status half of [src/internal/apis/kova/v1alpha1/types.go]: what the build
    controller records, with the setters its assignments use, and the status
    conditions of the Kubernetes API machinery.  Times are nanoseconds, [None] is a
    nil pointer. *)
From S2P Require Import Prelude GoText Types.

(** ** Build observations: [src/internal/buildobservation/observation.go] *)

Definition MaxVertices : Z := 4096.
Definition MaxIntervals : Z := 16384.
Definition MaxNanoseconds : Z := 86400 * 1000000000.

Record BuildObservation := mkBuildObservation {
  bo_SchemaVersion : Z; bo_Availability : string; bo_Reason : string; bo_VertexCount : Z; bo_VertexIntervalCount : Z;
  bo_CachedVertexIntervalCount : Z; bo_VertexUnion : option Z; bo_ExportAvailability : string; bo_ExportUnion : option Z;
  bo_PushAvailability : string; bo_PushUnion : option Z; bo_ExportPushOverlap : option Z; bo_NydusAvailability : string;
  bo_NydusWall : option Z; bo_WorkerSessionsAvailability : string }.

Definition Unavailable (reason : string) : BuildObservation :=
  mkBuildObservation 1 "unavailable" reason 0 0 0 None "unavailable" None "unavailable" None None "unavailable" None "unavailable".

Definition phaseValid (availability : string) (seconds : option Z) (incomplete : bool) : bool :=
  if seqb availability "observed" then bool_decide (is_Some seconds)
  else if seqb availability "incomplete" then incomplete && bool_decide (is_Some seconds)
  else if seqb availability "unavailable" then bool_decide (seconds = None)
  else false.

Definition observationReasons : list string :=
  [""; "missing_stream"; "malformed_stream"; "limit_exceeded"; "partial_stream"; "command_failed"; "cancelled"; "invalid_observation"].

Definition valid_observation (o : BuildObservation) : bool :=
  let some (x : option Z) := match x with Some _ => true | None => false end in
  let over x := match bo_ExportPushOverlap o, x with Some v, Some y => (y <? v)%Z | _, _ => false end in
  (bo_SchemaVersion o =? 1)%Z && seqb (bo_WorkerSessionsAvailability o) "unavailable" &&
  (seqb (bo_Availability o) "observed" || seqb (bo_Availability o) "incomplete" || seqb (bo_Availability o) "unavailable") &&
  existsb (seqb (bo_Reason o)) observationReasons &&
  Bool.eqb (seqb (bo_Availability o) "observed") (sempty (bo_Reason o)) &&
  (0 <=? bo_VertexCount o)%Z && (bo_VertexCount o <=? MaxVertices)%Z &&
  (0 <=? bo_VertexIntervalCount o)%Z && (bo_VertexIntervalCount o <=? MaxIntervals)%Z &&
  (0 <=? bo_CachedVertexIntervalCount o)%Z && (bo_CachedVertexIntervalCount o <=? bo_VertexIntervalCount o)%Z &&
  forallb (fun x => match x with Some v => (0 <=? v)%Z && (v <=? MaxNanoseconds)%Z | None => true end)
    [bo_VertexUnion o; bo_ExportUnion o; bo_PushUnion o; bo_ExportPushOverlap o; bo_NydusWall o] &&
  phaseValid (bo_ExportAvailability o) (bo_ExportUnion o) false && phaseValid (bo_PushAvailability o) (bo_PushUnion o) false &&
  phaseValid (bo_NydusAvailability o) (bo_NydusWall o) true &&
  Bool.eqb (some (bo_ExportPushOverlap o)) (some (bo_ExportUnion o) && some (bo_PushUnion o)) &&
  negb (over (bo_ExportUnion o)) && negb (over (bo_PushUnion o)) &&
  negb (seqb (bo_Availability o) "unavailable" &&
        (negb (bo_VertexCount o =? 0)%Z || negb (bo_VertexIntervalCount o =? 0)%Z || negb (bo_CachedVertexIntervalCount o =? 0)%Z ||
         some (bo_VertexUnion o) || some (bo_ExportUnion o) || some (bo_PushUnion o) || some (bo_ExportPushOverlap o))) &&
  negb (seqb (bo_Availability o) "observed" &&
        ((bo_VertexCount o =? 0)%Z || (bo_VertexIntervalCount o =? 0)%Z || negb (some (bo_VertexUnion o)))).

(** [Normalize]: optional telemetry that is not valid becomes unavailable. *)
Definition Normalize (o : option BuildObservation) : option BuildObservation :=
  match o with
  | None => None
  | Some o => if valid_observation o then Some o else Some (Unavailable "invalid_observation")
  end.

(** What is kept is always a valid, bounded observation. *)
Lemma normalize_valid o o' : Normalize o = Some o' -> valid_observation o' = true.
Proof. unfold Normalize. destruct o as [o|]; [|done]. destruct (valid_observation o) eqn:E; intros [= <-]; [done|]. by vm_compute. Qed.

(** ** Records of the status *)

Record AdmissionGenesisWitness := mkWitnessStatus {
  gw_NamespaceUID : string; gw_GenesisUID : string; gw_Generation : string; gw_ActiveLedgerUID : string; gw_QueueLedgerUID : string;
  gw_BuildUID : string; gw_PodName : string; gw_PodUID : string; gw_PodCreateAttempt : string; gw_PodTemplateDigest : string;
  gw_RunnerRequestID : string }.

Record AdmissionGenesisStopIntent := mkStopIntent {
  si_BuildUID : string; si_PodUID : string; si_PodCreateAttempt : string; si_RunnerRequestID : string; si_Reason : string }.

Record BuildOutput := mkOutput { ou_Format : string; ou_Image : string; ou_ManifestDigest : string; ou_Platform : string }.

Record BuildVerificationResult := mkVerification {
  vr_Format : string; vr_Image : string; vr_Platform : string; vr_PushedDigest : string; vr_State : string; vr_Error : string;
  vr_BuildObservation : option BuildObservation }.

Record Condition := mkCondition {
  cn_Type : string; cn_Status : string; cn_ObservedGeneration : Z; cn_LastTransitionTime : Z; cn_Reason : string; cn_Message : string }.

(** [Phase], [AllocatedConcurrency] and [RunnerPodName] are fields of [KovaBuild]. *)
Record KovaBuildStatus := mkStatus {
  ks_ObservedGeneration : Z;
  ks_Witness : option AdmissionGenesisWitness;
  ks_StopIntent : option AdmissionGenesisStopIntent;
  ks_Reason : string;
  ks_Message : string;
  ks_StartedAt : option Z;
  ks_FinishedAt : option Z;
  ks_PollFailureSince : option Z;
  ks_PollFailureCount : Z;
  ks_VerificationStartedAt : option Z;
  ks_VerificationDeadlineAt : option Z;
  ks_VerificationNextAttemptAt : option Z;
  ks_VerificationAttempts : Z;
  ks_VerificationLastError : string;
  ks_VerificationResults : list BuildVerificationResult;
  ks_Outputs : list BuildOutput;
  ks_Conditions : list Condition }.

Definition set_ObservedGeneration (v : Z) (s : KovaBuildStatus) : KovaBuildStatus :=
  mkStatus v (ks_Witness s) (ks_StopIntent s) (ks_Reason s) (ks_Message s) (ks_StartedAt s) (ks_FinishedAt s)
    (ks_PollFailureSince s) (ks_PollFailureCount s) (ks_VerificationStartedAt s) (ks_VerificationDeadlineAt s)
    (ks_VerificationNextAttemptAt s) (ks_VerificationAttempts s) (ks_VerificationLastError s)
    (ks_VerificationResults s) (ks_Outputs s) (ks_Conditions s).
Definition set_Witness (v : option AdmissionGenesisWitness) (s : KovaBuildStatus) : KovaBuildStatus :=
  mkStatus (ks_ObservedGeneration s) v (ks_StopIntent s) (ks_Reason s) (ks_Message s) (ks_StartedAt s)
    (ks_FinishedAt s) (ks_PollFailureSince s) (ks_PollFailureCount s) (ks_VerificationStartedAt s)
    (ks_VerificationDeadlineAt s) (ks_VerificationNextAttemptAt s) (ks_VerificationAttempts s)
    (ks_VerificationLastError s) (ks_VerificationResults s) (ks_Outputs s) (ks_Conditions s).
Definition set_StopIntent (v : option AdmissionGenesisStopIntent) (s : KovaBuildStatus) : KovaBuildStatus :=
  mkStatus (ks_ObservedGeneration s) (ks_Witness s) v (ks_Reason s) (ks_Message s) (ks_StartedAt s)
    (ks_FinishedAt s) (ks_PollFailureSince s) (ks_PollFailureCount s) (ks_VerificationStartedAt s)
    (ks_VerificationDeadlineAt s) (ks_VerificationNextAttemptAt s) (ks_VerificationAttempts s)
    (ks_VerificationLastError s) (ks_VerificationResults s) (ks_Outputs s) (ks_Conditions s).
Definition set_Reason (v : string) (s : KovaBuildStatus) : KovaBuildStatus :=
  mkStatus (ks_ObservedGeneration s) (ks_Witness s) (ks_StopIntent s) v (ks_Message s) (ks_StartedAt s)
    (ks_FinishedAt s) (ks_PollFailureSince s) (ks_PollFailureCount s) (ks_VerificationStartedAt s)
    (ks_VerificationDeadlineAt s) (ks_VerificationNextAttemptAt s) (ks_VerificationAttempts s)
    (ks_VerificationLastError s) (ks_VerificationResults s) (ks_Outputs s) (ks_Conditions s).
Definition set_Message (v : string) (s : KovaBuildStatus) : KovaBuildStatus :=
  mkStatus (ks_ObservedGeneration s) (ks_Witness s) (ks_StopIntent s) (ks_Reason s) v (ks_StartedAt s)
    (ks_FinishedAt s) (ks_PollFailureSince s) (ks_PollFailureCount s) (ks_VerificationStartedAt s)
    (ks_VerificationDeadlineAt s) (ks_VerificationNextAttemptAt s) (ks_VerificationAttempts s)
    (ks_VerificationLastError s) (ks_VerificationResults s) (ks_Outputs s) (ks_Conditions s).
Definition set_StartedAt (v : option Z) (s : KovaBuildStatus) : KovaBuildStatus :=
  mkStatus (ks_ObservedGeneration s) (ks_Witness s) (ks_StopIntent s) (ks_Reason s) (ks_Message s) v
    (ks_FinishedAt s) (ks_PollFailureSince s) (ks_PollFailureCount s) (ks_VerificationStartedAt s)
    (ks_VerificationDeadlineAt s) (ks_VerificationNextAttemptAt s) (ks_VerificationAttempts s)
    (ks_VerificationLastError s) (ks_VerificationResults s) (ks_Outputs s) (ks_Conditions s).
Definition set_FinishedAt (v : option Z) (s : KovaBuildStatus) : KovaBuildStatus :=
  mkStatus (ks_ObservedGeneration s) (ks_Witness s) (ks_StopIntent s) (ks_Reason s) (ks_Message s) (ks_StartedAt
    s) v (ks_PollFailureSince s) (ks_PollFailureCount s) (ks_VerificationStartedAt s) (ks_VerificationDeadlineAt
    s) (ks_VerificationNextAttemptAt s) (ks_VerificationAttempts s) (ks_VerificationLastError s)
    (ks_VerificationResults s) (ks_Outputs s) (ks_Conditions s).
Definition set_PollFailureSince (v : option Z) (s : KovaBuildStatus) : KovaBuildStatus :=
  mkStatus (ks_ObservedGeneration s) (ks_Witness s) (ks_StopIntent s) (ks_Reason s) (ks_Message s) (ks_StartedAt
    s) (ks_FinishedAt s) v (ks_PollFailureCount s) (ks_VerificationStartedAt s) (ks_VerificationDeadlineAt s)
    (ks_VerificationNextAttemptAt s) (ks_VerificationAttempts s) (ks_VerificationLastError s)
    (ks_VerificationResults s) (ks_Outputs s) (ks_Conditions s).
Definition set_PollFailureCount (v : Z) (s : KovaBuildStatus) : KovaBuildStatus :=
  mkStatus (ks_ObservedGeneration s) (ks_Witness s) (ks_StopIntent s) (ks_Reason s) (ks_Message s) (ks_StartedAt
    s) (ks_FinishedAt s) (ks_PollFailureSince s) v (ks_VerificationStartedAt s) (ks_VerificationDeadlineAt s)
    (ks_VerificationNextAttemptAt s) (ks_VerificationAttempts s) (ks_VerificationLastError s)
    (ks_VerificationResults s) (ks_Outputs s) (ks_Conditions s).
Definition set_VerificationStartedAt (v : option Z) (s : KovaBuildStatus) : KovaBuildStatus :=
  mkStatus (ks_ObservedGeneration s) (ks_Witness s) (ks_StopIntent s) (ks_Reason s) (ks_Message s) (ks_StartedAt
    s) (ks_FinishedAt s) (ks_PollFailureSince s) (ks_PollFailureCount s) v (ks_VerificationDeadlineAt s)
    (ks_VerificationNextAttemptAt s) (ks_VerificationAttempts s) (ks_VerificationLastError s)
    (ks_VerificationResults s) (ks_Outputs s) (ks_Conditions s).
Definition set_VerificationDeadlineAt (v : option Z) (s : KovaBuildStatus) : KovaBuildStatus :=
  mkStatus (ks_ObservedGeneration s) (ks_Witness s) (ks_StopIntent s) (ks_Reason s) (ks_Message s) (ks_StartedAt
    s) (ks_FinishedAt s) (ks_PollFailureSince s) (ks_PollFailureCount s) (ks_VerificationStartedAt s) v
    (ks_VerificationNextAttemptAt s) (ks_VerificationAttempts s) (ks_VerificationLastError s)
    (ks_VerificationResults s) (ks_Outputs s) (ks_Conditions s).
Definition set_VerificationNextAttemptAt (v : option Z) (s : KovaBuildStatus) : KovaBuildStatus :=
  mkStatus (ks_ObservedGeneration s) (ks_Witness s) (ks_StopIntent s) (ks_Reason s) (ks_Message s) (ks_StartedAt
    s) (ks_FinishedAt s) (ks_PollFailureSince s) (ks_PollFailureCount s) (ks_VerificationStartedAt s)
    (ks_VerificationDeadlineAt s) v (ks_VerificationAttempts s) (ks_VerificationLastError s)
    (ks_VerificationResults s) (ks_Outputs s) (ks_Conditions s).
Definition set_VerificationAttempts (v : Z) (s : KovaBuildStatus) : KovaBuildStatus :=
  mkStatus (ks_ObservedGeneration s) (ks_Witness s) (ks_StopIntent s) (ks_Reason s) (ks_Message s) (ks_StartedAt
    s) (ks_FinishedAt s) (ks_PollFailureSince s) (ks_PollFailureCount s) (ks_VerificationStartedAt s)
    (ks_VerificationDeadlineAt s) (ks_VerificationNextAttemptAt s) v (ks_VerificationLastError s)
    (ks_VerificationResults s) (ks_Outputs s) (ks_Conditions s).
Definition set_VerificationLastError (v : string) (s : KovaBuildStatus) : KovaBuildStatus :=
  mkStatus (ks_ObservedGeneration s) (ks_Witness s) (ks_StopIntent s) (ks_Reason s) (ks_Message s) (ks_StartedAt
    s) (ks_FinishedAt s) (ks_PollFailureSince s) (ks_PollFailureCount s) (ks_VerificationStartedAt s)
    (ks_VerificationDeadlineAt s) (ks_VerificationNextAttemptAt s) (ks_VerificationAttempts s) v
    (ks_VerificationResults s) (ks_Outputs s) (ks_Conditions s).
Definition set_VerificationResults (v : list BuildVerificationResult) (s : KovaBuildStatus) : KovaBuildStatus :=
  mkStatus (ks_ObservedGeneration s) (ks_Witness s) (ks_StopIntent s) (ks_Reason s) (ks_Message s) (ks_StartedAt
    s) (ks_FinishedAt s) (ks_PollFailureSince s) (ks_PollFailureCount s) (ks_VerificationStartedAt s)
    (ks_VerificationDeadlineAt s) (ks_VerificationNextAttemptAt s) (ks_VerificationAttempts s)
    (ks_VerificationLastError s) v (ks_Outputs s) (ks_Conditions s).
Definition set_Outputs (v : list BuildOutput) (s : KovaBuildStatus) : KovaBuildStatus :=
  mkStatus (ks_ObservedGeneration s) (ks_Witness s) (ks_StopIntent s) (ks_Reason s) (ks_Message s) (ks_StartedAt
    s) (ks_FinishedAt s) (ks_PollFailureSince s) (ks_PollFailureCount s) (ks_VerificationStartedAt s)
    (ks_VerificationDeadlineAt s) (ks_VerificationNextAttemptAt s) (ks_VerificationAttempts s)
    (ks_VerificationLastError s) (ks_VerificationResults s) v (ks_Conditions s).
Definition set_Conditions (v : list Condition) (s : KovaBuildStatus) : KovaBuildStatus :=
  mkStatus (ks_ObservedGeneration s) (ks_Witness s) (ks_StopIntent s) (ks_Reason s) (ks_Message s) (ks_StartedAt
    s) (ks_FinishedAt s) (ks_PollFailureSince s) (ks_PollFailureCount s) (ks_VerificationStartedAt s)
    (ks_VerificationDeadlineAt s) (ks_VerificationNextAttemptAt s) (ks_VerificationAttempts s)
    (ks_VerificationLastError s) (ks_VerificationResults s) (ks_Outputs s) v.

#[export] Instance BuildObservation_eq_dec : EqDecision BuildObservation.
Proof. solve_decision. Defined.
#[export] Instance AdmissionGenesisWitness_eq_dec : EqDecision AdmissionGenesisWitness.
Proof. solve_decision. Defined.
#[export] Instance AdmissionGenesisStopIntent_eq_dec : EqDecision AdmissionGenesisStopIntent.
Proof. solve_decision. Defined.
#[export] Instance BuildOutput_eq_dec : EqDecision BuildOutput.
Proof. solve_decision. Defined.
#[export] Instance BuildVerificationResult_eq_dec : EqDecision BuildVerificationResult.
Proof. solve_decision. Defined.
#[export] Instance Condition_eq_dec : EqDecision Condition.
Proof. solve_decision. Defined.
#[export] Instance KovaBuildStatus_eq_dec : EqDecision KovaBuildStatus.
Proof. solve_decision. Defined.

(** ** The whole resource *)

Record Build := mkBuildCR { b_cr : KovaBuild; b_generation : Z; b_status : KovaBuildStatus }.

Definition phase (b : Build) : string := kb_phase (b_cr b).
Definition with_cr (b : Build) (cr : KovaBuild) : Build := mkBuildCR cr (b_generation b) (b_status b).
Definition on_status (f : KovaBuildStatus -> KovaBuildStatus) (b : Build) : Build := mkBuildCR (b_cr b) (b_generation b) (f (b_status b)).

Definition cr_with (cr : KovaBuild) (rv : string) (finalizers : list string) (phase : string) (allocated : Z) (pod : string) : KovaBuild :=
  {| kb_ns := kb_ns cr; kb_name := kb_name cr; kb_uid := kb_uid cr; kb_rv := rv; kb_labels := kb_labels cr;
     kb_annotations := kb_annotations cr; kb_finalizers := finalizers; kb_owners := kb_owners cr; kb_created := kb_created cr;
     kb_deleting := kb_deleting cr; kb_spec := kb_spec cr; kb_phase := phase; kb_allocated := allocated; kb_runnerPod := pod |}.
Definition set_phase (p : string) (b : Build) : Build :=
  let cr := b_cr b in with_cr b (cr_with cr (kb_rv cr) (kb_finalizers cr) p (kb_allocated cr) (kb_runnerPod cr)).
Definition set_rv (rv : string) (b : Build) : Build :=
  let cr := b_cr b in with_cr b (cr_with cr rv (kb_finalizers cr) (kb_phase cr) (kb_allocated cr) (kb_runnerPod cr)).
Definition set_finalizers (l : list string) (b : Build) : Build :=
  let cr := b_cr b in with_cr b (cr_with cr (kb_rv cr) l (kb_phase cr) (kb_allocated cr) (kb_runnerPod cr)).
Definition set_runner (allocated : Z) (pod : string) (b : Build) : Build :=
  let cr := b_cr b in with_cr b (cr_with cr (kb_rv cr) (kb_finalizers cr) (kb_phase cr) allocated pod).

(** [controllerutil.AddFinalizer] and [RemoveFinalizer]: the new object, if it changed. *)
Definition AddFinalizer (b : Build) (f : string) : option Build :=
  if bool_decide (f ∈ kb_finalizers (b_cr b)) then None else Some (set_finalizers (kb_finalizers (b_cr b) ++ [f]) b).
Definition RemoveFinalizer (b : Build) (f : string) : option Build :=
  if bool_decide (f ∈ kb_finalizers (b_cr b))
  then Some (set_finalizers (List.filter (fun x => negb (seqb x f)) (kb_finalizers (b_cr b))) b) else None.

(** [metav1.Time] is serialized in whole seconds: what an update response holds. *)
Definition wire_time (t : Z) : Z := (t / 1000000000 * 1000000000)%Z.
Definition wire_condition (c : Condition) : Condition :=
  mkCondition (cn_Type c) (cn_Status c) (cn_ObservedGeneration c) (wire_time (cn_LastTransitionTime c)) (cn_Reason c) (cn_Message c).
Definition wire (s : KovaBuildStatus) : KovaBuildStatus :=
  set_StartedAt (wire_time <$> ks_StartedAt s) (set_FinishedAt (wire_time <$> ks_FinishedAt s)
    (set_PollFailureSince (wire_time <$> ks_PollFailureSince s)
    (set_VerificationStartedAt (wire_time <$> ks_VerificationStartedAt s)
    (set_VerificationDeadlineAt (wire_time <$> ks_VerificationDeadlineAt s)
    (set_VerificationNextAttemptAt (wire_time <$> ks_VerificationNextAttemptAt s)
    (set_Conditions (wire_condition <$> ks_Conditions s) s)))))).
(** The object after an update the server accepted with version [rv]. *)
Definition landed (rv : string) (b : Build) : Build := on_status wire (set_rv rv b).

(** ** Conditions: [k8s.io/apimachinery/pkg/api/meta] *)

Definition FindStatusCondition (l : list Condition) (type : string) : option Condition :=
  List.find (fun c => seqb (cn_Type c) type) l.

(** An absent condition is appended; a present one is replaced in place and keeps
    its transition time while its status is the same. *)
Definition SetStatusCondition (now : Z) (c : Condition) (l : list Condition) : list Condition :=
  match FindStatusCondition l (cn_Type c) with
  | None => l ++ [mkCondition (cn_Type c) (cn_Status c) (cn_ObservedGeneration c) now (cn_Reason c) (cn_Message c)]
  | Some old =>
      let at_ := if seqb (cn_Status old) (cn_Status c) then cn_LastTransitionTime old else now in
      let new := mkCondition (cn_Type c) (cn_Status c) (cn_ObservedGeneration c) at_ (cn_Reason c) (cn_Message c) in
      (fix go (l : list Condition) : list Condition :=
         match l with
         | [] => []
         | x :: r => if seqb (cn_Type x) (cn_Type c) then new :: r else x :: go r
         end) l
  end.

Definition RemoveStatusCondition (type : string) (l : list Condition) : list Condition * bool :=
  let rest := List.filter (fun c => negb (seqb (cn_Type c) type)) l in
  (rest, negb (Nat.eqb (List.length rest) (List.length l))).
