(* ===== verification/BuildResult.v ===== *)
(** * Build results

    [src/internal/service/buildresult]: the concrete outputs a build must push
    ([Pending]), the collection of their push receipts from the runner
    ([CollectReceipts]), and their verification against the registry
    ([VerifyReceipts]).  The runner's export and the registry are answered by the
    callers' requests.

    The registry checks of one attempt run on four goroutines.  Each writes only
    its own element and the flags only ever change one way, so the model checks
    the elements in order; [ReceiptFacts] shows that every other order gives
    the same results. *)
From S2P Require Import Prelude Free GoText GoPath Types FairQueue FairFacts BuildContract BuildStatus.

(** ** Results *)

Record Result := mkResult {
  re_Format : string; re_Status : string; re_Repository : string; re_ManifestDigest : string; re_Platform : string; re_Error : string }.

Record Entry := mkEntry {
  en_StartedAt : string; en_FinishedAt : string; en_Elapsed : string; en_Target : string; en_NodeIP : string;
  en_ManifestDigest : string; en_Success : bool; en_Logs : string; en_Reason : string; en_BuildObservation : option BuildObservation }.

(** [encoding/json] on one exported line, and [v1.NewHash] of
    [go-containerregistry] with algorithm [sha256]. *)
Class ReceiptFormat := {
  unmarshalEntry : string -> result Entry;
  sha256Hash : string -> bool;
  sha256Hash_nonempty : sha256Hash "" = false }.

Definition ErrDefinitive := Sentinel "definitive result verification failure".
Definition is_definitive (e : error) : bool := errors_Is e "definitive result verification failure".
Definition ErrExportTooLarge := Sentinel "runner export exceeds 1 MiB limit".
Definition is_export_too_large (e : error) : bool := errors_Is e "runner export exceeds 1 MiB limit".

Section results.
Context `{ImageName}.

Definition Pending (build : KovaBuild) : list Result :=
  match ParseBuildFormats (bo_format (sp_build (kb_spec build))) with
  | Err _ => []
  | Ok formats =>
      match NormalizeTargetSpecs (sp_targets (kb_spec build)) with
      | Err _ => []
      | Ok targets =>
          flat_map (fun t => List.map (fun f =>
            {| re_Format := format_name f; re_Status := "pending";
               re_Repository := NormalizeTargetForFormat (tg_target t) f; re_ManifestDigest := "";
               re_Platform := tg_platform t; re_Error := "" |}) formats) targets
      end
  end.
End results.

Definition AllSucceeded (results : list Result) : bool :=
  match results with
  | [] => false
  | _ => forallb (fun r => seqb (re_Status r) "succeeded" && negb (sempty (re_ManifestDigest r))) results
  end.

Definition failAll (results : list Result) (status message : string) : list Result :=
  List.map (fun r => mkResult (re_Format r) status (re_Repository r) (re_ManifestDigest r) (re_Platform r) message) results.

Definition Outputs (results : list Result) : list BuildOutput :=
  List.map (fun r => mkOutput (re_Format r) (re_Repository r) (re_ManifestDigest r) (re_Platform r))
    (List.filter (fun r => seqb (re_Status r) "succeeded" && negb (sempty (re_ManifestDigest r))) results).

(** ** The exported lines *)

(** [bufio.Scanner] with its default limit: lines of at most 65535 bytes, without
    their newline and one trailing carriage return; an empty last line is none. *)
Definition maxScanLine : nat := N.to_nat 65535.
Definition newline : ascii := ascii_of_N 10.
Definition drop_cr (s : string) : string := TrimSuffix s (String (ascii_of_N 13) "").
Fixpoint scanLines (fuel : nat) (s : string) : list string * bool :=
  match fuel with
  | O => ([], true)
  | S fuel' =>
      match Cut s (String newline "") with
      | Some (line, rest) =>
          if Nat.ltb maxScanLine (String.length line) then ([], false)
          else let '(l, ok) := scanLines fuel' rest in (drop_cr line :: l, ok)
      | None =>
          if sempty s then ([], true)
          else if Nat.ltb maxScanLine (String.length s) then ([], false)
          else ([drop_cr s], true)
      end
  end.

Section receipts.
Context `{ReceiptFormat}.

Fixpoint parseLines (lines : list string) (acc : list Entry) : result (list Entry) :=
  match lines with
  | [] => Ok acc
  | line :: rest =>
      if sempty (TrimSpace line) then parseLines rest acc
      else match unmarshalEntry line with
      | Err e => Err (Wrap "parse exported result" e)
      | Ok entry => parseLines rest (acc ++ [entry])
      end
  end.
Definition parseEntries (data : string) : result (list Entry) :=
  let '(lines, ok) := scanLines (S (String.length data)) data in
  match parseLines lines [] with
  | Err e => Err e
  | Ok l => if ok then Ok l else Err (Plain "bufio.Scanner: token too long")
  end.

Definition entryForTarget (entries : list Entry) (target : string) : option Entry :=
  List.find (fun e => seqb (en_Target e) target) entries.

(** ** Collecting push receipts *)

(** [result.State, result.Error = state, message]. *)
Definition settle (state message : string) (r : BuildVerificationResult) : BuildVerificationResult :=
  mkVerification (vr_Format r) (vr_Image r) (vr_Platform r) (vr_PushedDigest r) state message (vr_BuildObservation r).
Definition with_observation (o : option BuildObservation) (r : BuildVerificationResult) : BuildVerificationResult :=
  mkVerification (vr_Format r) (vr_Image r) (vr_Platform r) (vr_PushedDigest r) (vr_State r) (vr_Error r) o.
Definition with_digest (d : string) (r : BuildVerificationResult) : BuildVerificationResult :=
  mkVerification (vr_Format r) (vr_Image r) (vr_Platform r) d (vr_State r) (vr_Error r) (vr_BuildObservation r).

Definition is_pending (r : BuildVerificationResult) : bool := seqb (vr_State r) "pending".
(** An output of this format that has no receipt yet. *)
Definition awaiting (format : string) (r : BuildVerificationResult) : bool :=
  seqb (vr_Format r) format && is_pending r && sempty (vr_PushedDigest r).

Definition receiptOf (entries : list Entry) (r : BuildVerificationResult) : BuildVerificationResult :=
  match entryForTarget entries (vr_Image r) with
  | None => settle "failed" "completed build result is missing" r
  | Some entry =>
      let r := with_observation (Normalize (en_BuildObservation entry)) r in
      if negb (en_Success entry) then settle "failed" "runner reported failed output" r
      else if negb (sha256Hash (en_ManifestDigest entry))
      then settle "failed" "runner did not report a valid pushed manifest digest" r
      else with_digest (en_ManifestDigest entry) r
  end.

Definition on_awaiting (format : string) (f : BuildVerificationResult -> BuildVerificationResult)
    (results : list BuildVerificationResult) : list BuildVerificationResult :=
  List.map (fun r => if awaiting format r then f r else r) results.
(** An output of this format was awaiting and now failed. *)
Definition newlyFailed (format : string) (f : BuildVerificationResult -> BuildVerificationResult)
    (results : list BuildVerificationResult) : bool :=
  existsb (fun r => awaiting format r && seqb (vr_State (f r)) "failed") results.

Definition exportQuery (format : string) : string :=
  "with-fail=true&summary=true" +:+ (if seqb format "oci" then "&oci=true" else "").

Section collect.
Context {E : Type -> Type} (post : string -> string -> free E (result string)).   (* Exporter.Post *)

(** One round of the loop over the formats: results, transient error, failed. *)
Definition collectFormat (format : string) (st : list BuildVerificationResult * string * bool)
    : free E (list BuildVerificationResult * string * bool) :=
  let '(results, transient, failed) := st in
  if negb (existsb (awaiting format) results) then Done st
  else
    let+ answer := post "export" (exportQuery format) in
    match answer with
    | Err e =>
        if is_export_too_large e then
          Done (on_awaiting format (settle "failed" "runner export exceeded its bounded response size") results, transient, true)
        else Done (results, "runner export unavailable", failed)
    | Ok data =>
        match parseEntries data with
        | Err _ => Done (on_awaiting format (settle "failed" "invalid runner export") results, transient, true)
        | Ok entries =>
            Done (on_awaiting format (receiptOf entries) results, transient,
                  failed || newlyFailed format (receiptOf entries) results)
        end
    end.

Definition CollectReceipts (results : list BuildVerificationResult) : free E (list BuildVerificationResult * string * bool) :=
  let+ st := collectFormat (format_name BuildFormatOCI) (results, "", false) in
  collectFormat (format_name BuildFormatNydus) st.
End collect.
End receipts.

(** ** Verifying push receipts *)

Definition maxRegistryChecks (maxChecks : Z) : nat := if (maxChecks <=? 0)%Z then 16 else Z.to_nat maxChecks.

(** The first [maxChecks] outputs with a receipt and no verdict. *)
Definition checkable (r : BuildVerificationResult) : bool := is_pending r && negb (sempty (vr_PushedDigest r)).
Definition checkIndices (maxChecks : Z) (results : list BuildVerificationResult) : list nat :=
  take (maxRegistryChecks maxChecks)
    (List.map fst (List.filter (fun ir => checkable (snd ir)) (zip (seq 0 (List.length results)) results))).

(** One verdict: the element, and the transient and failed flags. *)
Definition verdict (r : BuildVerificationResult) (answer : result (string * string)) : BuildVerificationResult * bool * bool :=
  match answer with
  | Err e => if is_definitive e then (settle "failed" "invalid pushed manifest descriptor" r, false, true) else (r, true, false)
  | Ok (digest, platform) =>
      if negb (seqb digest (vr_PushedDigest r)) || negb (seqb platform (vr_Platform r))
      then (settle "failed" ("pushed digest/platform " +:+ digest +:+ " " +:+ platform +:+ " does not match receipt " +:+
                             vr_PushedDigest r +:+ " " +:+ vr_Platform r) r, false, true)
      else (settle "succeeded" "" r, false, false)
  end.

Definition receiptState : Type := list BuildVerificationResult * bool * bool.
Definition judge (i : nat) (answer : result (string * string)) (st : receiptState) : receiptState :=
  let '(results, transient, failed) := st in
  match results !! i with
  | None => st
  | Some r => let '(r', t, f) := verdict r answer in (<[i := r']> results, transient || t, failed || f)
  end.

Section verify.
Context {E : Type -> Type} (resolve : string -> string -> free E (result (string * string))).   (* RegistryResolver.Resolve *)

Fixpoint verifyIndices (indices : list nat) (st : receiptState) : free E receiptState :=
  match indices with
  | [] => Done st
  | i :: rest =>
      match st.1.1 !! i with
      | None => verifyIndices rest st
      | Some r =>
          let+ answer := resolve (vr_Image r) (vr_PushedDigest r) in
          verifyIndices rest (judge i answer st)
      end
  end.

Definition VerifyReceipts (results : list BuildVerificationResult) (maxChecks : Z)
    : free E (list BuildVerificationResult * string * bool) :=
  let+ st := verifyIndices (checkIndices maxChecks results) (results, false, false) in
  let '(results', transient, failed) := st in
  Done (results', if transient then "registry manifest verification unavailable" else "", failed).
End verify.

Definition VerificationOutputs (results : list BuildVerificationResult) : list BuildOutput :=
  List.map (fun r => mkOutput (vr_Format r) (vr_Image r) (vr_PushedDigest r) (vr_Platform r))
    (List.filter (fun r => seqb (vr_State r) "succeeded") results).

(** [done] and [failed]. *)
Definition VerificationDone (results : list BuildVerificationResult) : bool * bool :=
  match results with
  | [] => (false, true)
  | _ => (negb (existsb is_pending results), existsb (fun r => seqb (vr_State r) "failed") results)
  end.
