(* ===== verification/ControlPlane.v ===== *)
(** * The requests of the build controller

    The reconciler of [src/internal/service/buildcontroller] talks to the
    Kubernetes API (through its cache and directly), to the runner through Pod
    exec, to the registry, to the clock, and to the admission plane: the ledgers,
    receipts and the Genesis guard of the other files.

    An admission operation is one request, [Plane op p]: [op] says which operation
    it is and [p] is the program that carries it out, built from [ActiveOps],
    [GrantOps] and [QueueOps].  [expand] replaces it by the requests of [p]; the
    theorems about the controller hold of every answer, hence of every behaviour
    of the ledgers, the API server, the runner and other clients. *)
From S2P Require Import Prelude Free GoText Types Kube Contract Genesis ActiveLedger ActiveOps Manifest BuildStatus.

Inductive plane_op :=
| OpCheck                                        (* Genesis.Check *)
| OpAdmission (b : KovaBuild)                    (* admission *)
| OpFence (b : KovaBuild)                        (* fenceReservation *)
| OpRelease (b : KovaBuild)                      (* releaseReservation *)
| OpQueueRelease (b : KovaBuild)                 (* queueadmission.Store.ReleaseForBuild *)
| OpBeginPod (b : KovaBuild)                     (* beginPodCreate *)
| OpCompletePod (b : KovaBuild) (attempt : string) (* completePodCreate *)
| OpIssuePod (b : KovaBuild) (attempt : string)  (* the ledger side of finishFreshPodAttempt *)
| OpReadLedger (ns : string)                     (* readReservationsWithObservation *)
| OpVerifyGrant (b : KovaBuild)                  (* verifyPinnedGrantWithObservation *)
| OpVerifyPod (b : KovaBuild)                    (* verifyPinnedPodReceipt *)
| OpContext.                                     (* ctx.Err() of an observation *)

(** What Pod exec reports: the writes to the two output streams, the error, and
    the exit status when the error is an [ExitError] that exited. *)
Record ExecReply := mkExecReply {
  ex_stdout : list string; ex_stderr : list string; ex_err : option error; ex_exit : option Z }.

Inductive ctl : Type -> Type :=
| Plane {X : Type} (op : plane_op) (p : prog X) : ctl X
| Api {X : Type} (e : api X) : ctl X
| ReadBuild (direct : bool) (ns name : string) : ctl (result Build)
| UpdateStatus (b : Build) : ctl (result string)          (* the new resourceVersion *)
| UpdateObject (b : Build) : ctl (result string)
| DeleteBuild (ns name uid : string) : ctl (option error) (* with a UID precondition *)
| ReadPod (direct : bool) (ns name : string) : ctl (result RunnerPod)
| CreatePod (p : RunnerPod) : ctl (option error)
| DeletePod (ns name uid : string) : ctl (option error)   (* DeletePodWithUID *)
| Exec (ns pod : string) (command : list string) : ctl ExecReply
| Registry (image digest : string) : ctl (result (string * string))
| Clock : ctl Z                                           (* time.Now() *)
| AttemptErr : ctl (option error)                         (* attemptCtx.Err() *)
| TakeSlot : ctl bool
| FreeSlot : ctl unit
| Event (type reason message : string) : ctl unit.        (* Recorder.Event *)

(** [return r, err] of a reconcile step: [ctrl.Result] with [Requeue] and
    [RequeueAfter]. *)
Record CtrlResult := mkCtrl { cr_Requeue : bool; cr_RequeueAfter : Z }.
Definition noRequeue : CtrlResult := mkCtrl false 0.
Definition requeueAfter (d : Z) : CtrlResult := mkCtrl false d.
Definition requeueNow : CtrlResult := mkCtrl true 0.
Definition step_result : Type := result CtrlResult.

(** [x, err := p; if err != nil { return onerr(err) }]. *)
Notation "'get+' x := p 'else' f 'in' q" :=
  (fbind p (fun r => match r with Err err => f err | Ok x => q end))
  (at level 10, x pattern, p at level 100, f at level 100, q at level 200) : free_scope.

(** ** Expansion *)

Fixpoint lift {A} (p : prog A) : free ctl A :=
  match p with
  | Ret a => Done a
  | Vis e k => Ask (Api e) (fun x => lift (k x))
  end.

Definition expand_call {X} (e : ctl X) : free ctl X :=
  match e with
  | Plane _ p => lift p
  | e => fcall e
  end.

Fixpoint expand {A} (p : free ctl A) : free ctl A :=
  match p with
  | Done a => Done a
  | Ask e k => fbind (expand_call e) (fun x => expand (k x))
  end.

(** ** The controller *)

Record ControllerConfig := mkControllerConfig {
  cc_RunnerImagePullPolicy : string; cc_RunnerImagePullSecret : string; cc_RunnerNodeSelector : gmap string string;
  cc_RunnerEnv : gmap string string; cc_RunnerResources : ResourceRequirements; cc_SourceFetchResources : ResourceRequirements;
  cc_SourceVolumeSizeLimit : option string; cc_RegistryPlainHTTP : list string; cc_BuildkitPlatformAddrs : gmap string string;
  cc_MaxBuildDuration : Z; cc_VerificationWindow : Z; cc_VerificationAttemptTimeout : Z; cc_WaitTimeout : Z; cc_PollInterval : Z;
  cc_PollRetryWindow : Z; cc_JobTTL : Z; cc_ControllerConcurrency : Z }.

(** [Recorder != nil] is [ctl_recorder]; [ctl_scheme] says that the scheme knows
    the KovaBuild kind, which [SetControllerReference] looks up. *)
Record Controller := mkController { ctl_r : Reconciler; ctl_cfg : ControllerConfig; ctl_recorder : bool; ctl_scheme : bool }.

(** Every operation of the admission plane runs under the controller's client. *)
Definition plane {X} (op : plane_op) (p : prog X) : free ctl X := fcall (Plane op p).

