(* ===== verification/RunnerExec.v ===== *)
(** * Talking to a runner

    [src/internal/service/runnerexec/runnerexec.go]: the commands the service
    executes inside a runner Pod, the bounds on what it accepts back, and the
    decoding of the daemon's answers ([src/internal/runner/status.go],
    [src/internal/daemonclient/client.go]). *)
From S2P Require Import Prelude Free GoText Json GoPath Types GrantOps BuildContract BuildStatus BuildResult ControlPlane.

Definition ErrInvalidBuildStatus := Sentinel "invalid runner build status".
Definition ErrSourceInspectTransport := Sentinel "source inspect transport failed".
Definition ErrSourceInspectInvalid := Sentinel "source inspect rejected invalid archive".
Definition ErrSourceInspectResourceExhausted := Sentinel "source inspect exhausted runner resources".
Definition ErrSourceInspectUnavailable := Sentinel "source inspect command failed".
Definition ErrSourceInspectProtocol := Sentinel "source inspect returned invalid response".
Definition ErrRunnerResponseTooLarge := Sentinel "runner response exceeds 1 MiB limit".
Definition maxRunnerResponseBytes : nat := N.to_nat 1048576.
Definition maxRunnerErrorBytes : nat := N.to_nat 65536.
Definition FetchExitCodeInvalidSource : Z := 20.
Definition FetchExitCodeResourceExhausted : Z := 21.

(** ** Bounded buffers *)

(** [boundedResponseBuffer]: contents and overflow flag. *)
Definition response_write (b : string * bool) (data : string) : string * bool :=
  let remaining := maxRunnerResponseBytes - String.length (fst b) in
  if Nat.ltb remaining (String.length data) then (fst b +:+ take_str remaining data, true)
  else (fst b +:+ data, snd b).
Definition response (writes : list string) : string * bool := fold_left response_write writes ("", false).

(** [boundedErrorBuffer]: contents and truncated flag. *)
Definition error_write (b : string * bool) (data : string) : string * bool :=
  let remaining := maxRunnerErrorBytes - String.length (fst b) in
  (fst b +:+ take_str (Nat.min remaining (String.length data)) data,
   snd b || Nat.ltb remaining (String.length data)).
Definition error_output (writes : list string) : string * bool := fold_left error_write writes ("", false).
Definition Diagnostic (b : string * bool) : string :=
  if snd b then TrimSpace (fst b) +:+ String newline "[runner stderr truncated]" else fst b.

Definition ExecError (action stderr : string) (err : error) : error :=
  if sempty stderr then Wrap action err else Wrap (action +:+ ": " +:+ TrimSpace stderr) err.

(** ** Daemon answers *)

Record BuildState := mkBuildState {
  st_Status : string; st_Error : string; st_RequestID : string; st_Capabilities : list string }.

(** The ASCII form of a key for [encoding/json]'s case-insensitive match: ASCII
    letters, U+017F (folds to s) and U+212A (folds to k). *)
Fixpoint foldKey (s : string) : string :=
  match s with
  | EmptyString => EmptyString
  | String a t =>
      match t with
      | String b r =>
          if (N_of_ascii a =? 197)%N && (N_of_ascii b =? 191)%N then String "s" (foldKey r)
          else match r with
          | String c r' =>
              if (N_of_ascii a =? 226)%N && (N_of_ascii b =? 132)%N && (N_of_ascii c =? 170)%N then String "k" (foldKey r')
              else String (lower_ascii a) (foldKey t)
          | EmptyString => String (lower_ascii a) (foldKey t)
          end
      | EmptyString => String (lower_ascii a) EmptyString
      end
  end.

(** [json.Unmarshal] into a struct: members in order, the last match of a field
    wins, null leaves it alone, unknown keys are skipped; any type mismatch is an
    error of the whole call.  The document null decodes to the zero value. *)
Definition unmarshalStruct {S} (set : string -> jvalue -> S -> option S) (zero : S) (v : jvalue) : option S :=
  match v with
  | JNull => Some zero
  | JObj l => fold_left (fun acc kv => match acc with Some s => set (foldKey (fst kv)) (snd kv) s | None => None end) l (Some zero)
  | _ => None
  end.
Definition storeString {S} (v : jvalue) (set : string -> S) (s : S) : option S :=
  match v with JStr x => Some (set x) | JNull => Some s | _ => None end.
Fixpoint elements {A} (f : jvalue -> option A) (l : list jvalue) : option (list A) :=
  match l with
  | [] => Some []
  | v :: r => match f v, elements f r with Some a, Some t => Some (a :: t) | _, _ => None end
  end.
Definition setSlice {A S} (v : jvalue) (f : jvalue -> option A) (set : list A -> S) : option S :=
  match v with JArr l => set <$> elements f l | JNull => Some (set []) | _ => None end.

Definition ParseBuildState (raw : string) : result BuildState :=
  match json_parse raw with
  | None => Err (Plain "invalid JSON")
  | Some v =>
      match unmarshalStruct (fun k v s =>
          if seqb k "status" then storeString v (fun x => mkBuildState x (st_Error s) (st_RequestID s) (st_Capabilities s)) s
          else if seqb k "error" then storeString v (fun x => mkBuildState (st_Status s) x (st_RequestID s) (st_Capabilities s)) s
          else if seqb k "requestid" then storeString v (fun x => mkBuildState (st_Status s) (st_Error s) x (st_Capabilities s)) s
          else if seqb k "capabilities" then
            setSlice v (fun e => storeString e id "") (mkBuildState (st_Status s) (st_Error s) (st_RequestID s))
          else Some s) (mkBuildState "" "" "" []) v with
      | Some s => Ok s
      | None => Err (Plain "cannot unmarshal build state")
      end
  end.

Definition IdempotentBuildRequestCapability : string := "idempotent-build-request-v1".
Definition SupportsIdempotentBuildRequest (s : BuildState) : bool :=
  existsb (seqb IdempotentBuildRequestCapability) (st_Capabilities s).

(** [done, success, err]. *)
Definition WaitDecision (status : string) : bool * bool * option error :=
  if seqb status "running" || seqb status "cancelling" then (false, false, None)
  else if seqb status "completed" then (true, true, None)
  else if seqb status "failed" || seqb status "error" || seqb status "cancelled" then (true, false, None)
  else if seqb status "idle" then (true, false, Some (Plain "no build is running; wait requires an active or completed build"))
  else if sempty status then (true, false, Some (Plain "failed to parse build status from daemon response"))
  else (true, false, Some (Plain ("unknown build status: " +:+ status))).

(** ** Commands *)

Definition TransportCommand (method path query inputPath : string) : list string :=
  ["kovad"; "transport"; "--method"; method; "--path"; path] ++
  (if sempty query then [] else ["--query"; query]) ++ (if sempty inputPath then [] else ["--input"; inputPath]).
Definition podUIDFlag (uid : string) : list string := if sempty uid then [] else ["--expected-pod-uid"; uid].
Definition TransportCommandForPodUID (method path query inputPath expectedPodUID : string) : list string :=
  TransportCommand method path query inputPath ++ podUIDFlag expectedPodUID.
Definition BuildPath : string := "/api/v1/build".
Definition StatusPath : string := "/api/v1/build/status".
Definition CancelPath : string := "/api/v1/build/cancel".

Definition expectedPodUID (b : Build) : string :=
  match ks_Witness (b_status b) with Some w => gw_PodUID w | None => "" end.

(** [url.Values]: [Set] and [Add], and [Encode] in key order. *)
Definition Values : Type := gmap string (list string).
Definition values_Set (k v : string) (m : Values) : Values := <[k := [v]]> m.
Definition values_Add (k v : string) (m : Values) : Values := <[k := default [] (m !! k) ++ [v]]> m.
Definition upper_hex (n : N) : ascii := if (n <? 10)%N then ascii_of_N (48 + n) else ascii_of_N (55 + n).
Definition unreserved (c : ascii) : bool :=
  is_digit c || is_lower c || is_upper c || existsb (fun d => bool_decide (c = d)) ["-"; "_"; "."; "~"]%char.
Fixpoint QueryEscape (s : string) : string :=
  match s with
  | EmptyString => EmptyString
  | String c r =>
      if unreserved c then String c (QueryEscape r)
      else if bool_decide (c = " "%char) then String "+" (QueryEscape r)
      else String "%" (String (upper_hex (N_of_ascii c / 16)) (String (upper_hex (N_of_ascii c mod 16)) (QueryEscape r)))
  end.
Definition Encode (m : Values) : string :=
  String.concat "&" (flat_map (fun kv => List.map (fun v => QueryEscape (fst kv) +:+ "=" +:+ QueryEscape v) (snd kv)) (sorted_entries m)).

Definition setString (k v : string) (m : Values) : Values := if sempty (TrimSpace v) then m else values_Set k v m.
Definition set_if (c : bool) (k v : string) (m : Values) : Values := if c then values_Set k v m else m.

Definition BuildQuery (b : KovaBuild) (platformAddrs : gmap string string) (plainHTTPRegistries : list string) : string :=
  let o := sp_build (kb_spec b) in
  let m := values_Set "request-id" (RequestID b) ∅ in
  let m := foldl (fun m kv => values_Add "platform-addr" (fst kv +:+ "=" +:+ snd kv) m) m (sorted_entries platformAddrs) in
  let m := foldl (fun m registry => values_Add "registry-plain-http" registry m) m plainHTTPRegistries in
  let m := setString "oom-cooldown" (bo_oomCooldown o) (setString "format" (bo_format o) m) in
  let concurrency := if (0 <? kb_allocated b)%Z then kb_allocated b else bo_concurrency o in
  let m := set_if (0 <? concurrency)%Z "concurrency" (dec_of_Z concurrency) m in
  let m := set_if (0 <? bo_timeout o)%Z "timeout" (dec_of_Z (bo_timeout o)) m in
  let m := set_if (bo_verbose o) "verbose" "true" (set_if (bo_failFast o) "fail-fast" "true" m) in
  Encode (foldl (fun m v => values_Add "var" v m) m (bo_vars o)).

(** ** Operations *)

Section ops.
Context (b : Build).
Let ns := kb_ns (b_cr b).
Let pod := kb_runnerPod (b_cr b).

Definition diagnostic (x : ExecReply) : string := Diagnostic (error_output (ex_stderr x)).

Definition sourceTargetsReply (x : ExecReply) : result (list KovaBuildTargetSpec) :=
  let '(stdout, overflow) := response (ex_stdout x) in
  if overflow then Err (Wrap "inspect source contract" ErrRunnerResponseTooLarge)
  else match ex_err x with
  | Some err =>
      let wrapped := ExecError "inspect source contract" (diagnostic x) err in
      Err (Join (match ex_exit x with
                 | Some code =>
                     if (code =? FetchExitCodeInvalidSource)%Z then ErrSourceInspectInvalid
                     else if (code =? FetchExitCodeResourceExhausted)%Z then ErrSourceInspectResourceExhausted
                     else ErrSourceInspectUnavailable
                 | None => ErrSourceInspectTransport
                 end) wrapped)
  | None =>
      match json_parse stdout with
      | None => Err (Join ErrSourceInspectProtocol (Plain "invalid JSON"))
      | Some v =>
          let target := unmarshalStruct (fun k v s =>
            if seqb k "target" then storeString v (fun x => mkTarget x (tg_platform s)) s
            else if seqb k "platform" then storeString v (fun x => mkTarget (tg_target s) x) s
            else Some s) (mkTarget "" "") in
          match unmarshalStruct (fun k v s => if seqb k "targets" then setSlice v target id else Some s) [] v with
          | Some targets => Ok targets
          | None => Err (Join ErrSourceInspectProtocol (Plain "cannot unmarshal source contract"))
          end
      end
  end.
Definition SourceTargets (sourcePath : string) : free ctl (result (list KovaBuildTargetSpec)) :=
  let+ x := fcall (Exec ns pod (["kovad"; "source"; "inspect"; "--input"; sourcePath] ++ podUIDFlag (expectedPodUID b))) in
  Done (sourceTargetsReply x).

Definition submitReply (x : ExecReply) : option error :=
  let '(stdout, overflow) := response (ex_stdout x) in
  if overflow then Some (Wrap "submit build" ErrRunnerResponseTooLarge)
  else match ex_err x with
  | Some err => Some (ExecError "submit build" (diagnostic x) err)
  | None =>
      match ParseBuildState stdout with
      | Err e => Some (Wrap ("parse build response: " +:+ TrimSpace stdout) e)
      | Ok s =>
          if seqb (st_Status s) "failed" || seqb (st_Status s) "error"
          then Some (Plain ("build request failed: " +:+ TrimSpace stdout)) else None
      end
  end.
Definition SubmitBuild (platformAddrs : gmap string string) (plainHTTP : list string) (sourcePath : string) : free ctl (option error) :=
  let+ x := fcall (Exec ns pod (TransportCommandForPodUID "POST" BuildPath (BuildQuery (b_cr b) platformAddrs plainHTTP) sourcePath
                                  (expectedPodUID b))) in
  Done (submitReply x).

Definition statusReply (x : ExecReply) : result BuildState :=
  let '(stdout, overflow) := response (ex_stdout x) in
  if overflow then Err (Join ErrInvalidBuildStatus ErrRunnerResponseTooLarge)
  else match ex_err x with
  | Some err => Err (ExecError "build status" (diagnostic x) err)
  | None =>
      match ParseBuildState stdout with
      | Err _ => Err (Wrap "build status" ErrInvalidBuildStatus)
      | Ok s => Ok s
      end
  end.
Definition BuildStatusRequest : free ctl (result BuildState) :=
  let+ x := fcall (Exec ns pod (TransportCommandForPodUID "GET" StatusPath "" "" (expectedPodUID b))) in
  Done (statusReply x).

Definition CancelBuild : free ctl (option error) :=
  let+ x := fcall (Exec ns pod (TransportCommandForPodUID "POST" CancelPath "" "" (expectedPodUID b))) in
  Done (match ex_err x with Some err => Some (ExecError "cancel build" (diagnostic x) err) | None => None end).

Definition postReply (path : string) (x : ExecReply) : result string :=
  let '(stdout, overflow) := response (ex_stdout x) in
  if overflow then Err ErrExportTooLarge
  else match ex_err x with Some err => Err (ExecError path (diagnostic x) err) | None => Ok stdout end.
Definition Post (path query : string) : free ctl (result string) :=
  let+ x := fcall (Exec ns pod (TransportCommandForPodUID "POST" ("/api/v1/" +:+ path) query "" (expectedPodUID b))) in
  Done (postReply path x).
End ops.

(** ** Bounds *)

Lemma take_prefix_length n s : String.length (take_str n s) = Nat.min n (String.length s).
Proof.
  unfold take_str. revert s. induction n as [|n IH]; intros [|c s]; simpl; try done. by rewrite IH.
Qed.

Lemma concat_cons x l : String.concat "" (x :: l) = x +:+ String.concat "" l.
Proof. destruct l; simpl; [by rewrite append_nil_r|done]. Qed.

(** No runner answer makes the service hold more than the limit, and a response
    that is not flagged is exactly what the runner wrote. *)
Lemma response_bounded writes :
  String.length (fst (response writes)) <= maxRunnerResponseBytes /\
  (snd (response writes) = false -> fst (response writes) = String.concat "" writes).
Proof.
  unfold response.
  assert (forall b, String.length (fst b) <= maxRunnerResponseBytes ->
    String.length (fst (fold_left response_write writes b)) <= maxRunnerResponseBytes /\
    (snd (fold_left response_write writes b) = false ->
     snd b = false /\ fst (fold_left response_write writes b) = fst b +:+ String.concat "" writes)) as HG.
  { induction writes as [|d writes IH]; intros b Hb.
    { simpl. split; [done|]. intros ->. by rewrite append_nil_r. }
    rewrite concat_cons. simpl fold_left.
    unfold response_write at 2 4 6. destruct (Nat.ltb_spec (maxRunnerResponseBytes - String.length (fst b)) (String.length d)).
    - destruct (IH (fst b +:+ take_str (maxRunnerResponseBytes - String.length (fst b)) d, true)) as [H1 H2].
      { simpl. rewrite length_append, take_prefix_length. lia. }
      split; [done|]. intros Hf. by destruct (H2 Hf).
    - destruct (IH (fst b +:+ d, snd b)) as [H1 H2].
      { simpl. rewrite length_append. lia. }
      split; [done|]. intros Hf. destruct (H2 Hf) as [H3 H4]. split; [done|]. rewrite H4. simpl.
      by rewrite append_assoc. }
  destruct (HG ("", false)) as [H1 H2]; [simpl; lia|]. split; [done|]. intros Hf. by destruct (H2 Hf).
Qed.
