(* ===== verification/RunnerWitness.v ===== *)
(** * The Genesis witness of a runner

    [src/internal/service/buildcontroller/genesis_witness.go] and the Pod side of
    [pod_receipt.go]: the stamps written before the one Pod Create, the witness
    that binds a directly observed Pod to them, and the direct reads that every
    later operation on the runner starts from.

    The canonical digest of a Pod template is a parameter: it is the JSON
    projection of a whole [corev1.PodSpec]. *)
From S2P Require Import Prelude Free GoText Types Kube Contract Genesis QueueReceipt Effects QueueOps ActiveLedger FairQueue ActiveOps GrantOps Manifest BuildStatus ControlPlane RunnerExec.

Class PodTemplate := { CanonicalPodTemplateDigest : RunnerPod -> result string }.

Definition PodTemplateDigestAnnotation : string := "kova.cofy.dev/pod-template-digest".
Definition genesisNamespaceUIDKey : string := "kova.cofy.dev/runner-namespace-uid".
Definition genesisUIDKey : string := "kova.cofy.dev/runner-genesis-uid".
Definition genesisGenerationKey : string := "kova.cofy.dev/runner-generation".
Definition genesisActiveUIDKey : string := "kova.cofy.dev/runner-active-ledger-uid".
Definition genesisQueueUIDKey : string := "kova.cofy.dev/runner-queue-ledger-uid".
Definition genesisBuildUIDKey : string := "kova.cofy.dev/runner-build-uid".
Definition genesisRequestIDKey : string := "kova.cofy.dev/runner-request-id".
Definition RunnerPodUIDEnv : string := "KOVA_RUNNER_POD_UID".

Definition rp_annotation (pod : RunnerPod) (k : string) : string := mget (pod_annotations (rp_obj pod)) k.
Definition annotate (k v : string) (pod : RunnerPod) : RunnerPod :=
  let p := rp_obj pod in
  {| rp_obj := {| pod_ns := pod_ns p; pod_name := pod_name p; pod_uid := pod_uid p; pod_labels := pod_labels p;
                  pod_annotations := <[k := v]> (pod_annotations p); pod_owners := pod_owners p |};
     rp_created := rp_created pod; rp_deleting := rp_deleting pod; rp_spec := rp_spec pod; rp_status := rp_status pod |}.
Definition with_containers (l : list Container) (pod : RunnerPod) : RunnerPod :=
  let s := rp_spec pod in
  {| rp_obj := rp_obj pod; rp_created := rp_created pod; rp_deleting := rp_deleting pod;
     rp_spec := mkPodSpec (ps_RestartPolicy s) (ps_Security s) l (ps_InitContainers s) (ps_Volumes s) (ps_ImagePullSecrets s)
                  (ps_NodeSelector s) (ps_ActiveDeadlineSeconds s) (ps_AutomountServiceAccountToken s) (ps_EnableServiceLinks s)
                  (ps_ServiceAccountName s) (ps_DNSPolicy s) (ps_SchedulerName s) (ps_TerminationGracePeriodSeconds s) (ps_Tolerations s);
     rp_status := rp_status pod |}.

Definition genesisRunnerContainer (pod : RunnerPod) : result Container :=
  match List.filter (fun c => seqb (ct_Name c) "runner") (ps_Containers (rp_spec pod)) with
  | [c] => Ok c
  | [] => Err (Plain "Genesis runner Pod has no runner container")
  | _ => Err (Plain "Genesis runner Pod has duplicate runner containers")
  end.

Definition uidFence : EnvVar := mkEnv RunnerPodUIDEnv (EnvFieldRef "v1" "metadata.uid").
Definition is_fence (e : EnvVar) : bool := seqb (ev_Name e) RunnerPodUIDEnv.
Definition downwardUID (e : EnvVar) : bool :=
  match ev_From e with EnvFieldRef v p => seqb v "v1" && seqb p "metadata.uid" | _ => false end.

Definition generation_of (g : Guard) : string := ct_Generation (rc_Contract (bs_Receipt (gd_Bootstrap g))).

(** The stamps of the original installation and this build. *)
Definition stamps (g : Guard) (build : KovaBuild) : list (string * string) :=
  [(genesisNamespaceUIDKey, bd_NamespaceUID (gd_Original g)); (genesisUIDKey, bd_GenesisUID (gd_Original g));
   (genesisGenerationKey, generation_of g); (genesisActiveUIDKey, bd_ActiveLedgerUID (gd_Original g));
   (genesisQueueUIDKey, bd_QueueLedgerUID (gd_Original g)); (genesisBuildUIDKey, kb_uid build);
   (genesisRequestIDKey, RequestID build)].

Definition samePodUID (l r : option RunnerPod) : bool :=
  match l, r with
  | Some a, Some b => negb (sempty (pod_uid (rp_obj a))) && seqb (pod_uid (rp_obj a)) (pod_uid (rp_obj b))
  | _, _ => false
  end.

(** [pod] is the named Pod of [build] in its namespace, owned by its UID. *)
Definition exactPod (build : KovaBuild) (pod : RunnerPod) : bool :=
  seqb (pod_ns (rp_obj pod)) (kb_ns build) && seqb (pod_name (rp_obj pod)) (buildPodName (kb_name build)) &&
  podOwnedByBuild (rp_obj pod) build.

Section witness.
Context `{External} `{PodTemplate}.
Context (c : Controller).
Local Notation r := (ctl_r c).

(** [r.reader()]. *)
Definition direct : bool := r_hasAPIReader r.

Definition Check (g : Guard) : free ctl (option error) := plane OpCheck (Guard_Check g).

(** [getOwnedPod] on the whole Pod. *)
Definition getOwnedRunnerPod (build : KovaBuild) : free ctl (result (option RunnerPod)) :=
  let+ p := fcall (ReadPod direct (kb_ns build) (buildPodName (kb_name build))) in
  match p with
  | Err e => if IsNotFound e then Done (Ok None) else Done (Err e)
  | Ok pod =>
      if podOwnedByBuild (rp_obj pod) build then Done (Ok (Some pod))
      else Done (Err (Plain "runner Pod is not owned by KovaBuild UID"))
  end.

(** ** Stamping *)

Definition stampGenesisPod (build : KovaBuild) (pod : RunnerPod) (attempt : string) : free ctl (result RunnerPod) :=
  match r_Genesis r with
  | None => Done (Ok pod)
  | Some g =>
      chk+ Check g else (fun e => Done (Err e)) in
      if sempty (kb_uid build) || (256 <? slen (kb_uid build))%Z || negb (validReservationHex attempt 32) || negb (exactPod build pod)
      then Done (Err (Plain "Genesis runner Pod lacks exact CR ownership or create attempt"))
      else match genesisRunnerContainer pod with
      | Err e => Done (Err e)
      | Ok runner =>
          if existsb is_fence (ct_Env runner) then Done (Err (Plain "Genesis runner Pod UID env collides with configured runner env"))
          else
            let pod := with_containers (List.map (fun k => if seqb (ct_Name k) "runner" then with_env k (ct_Env k ++ [uidFence]) else k)
                                          (ps_Containers (rp_spec pod))) pod in
            Done (Ok (annotate podCreateAttemptKey attempt (foldl (fun p kv => annotate (fst kv) (snd kv) p) pod (stamps g build))))
      end
  end.

(** ** The witness of an observed Pod *)

Definition witnessFromPodMode (build : KovaBuild) (pod : option RunnerPod) (allowTerminating : bool) : result AdmissionGenesisWitness :=
  match r_Genesis r, pod with
  | Some g, Some pod =>
      let uid := pod_uid (rp_obj pod) in
      if sempty (kb_uid build) || (256 <? slen (kb_uid build))%Z || sempty uid || (256 <? slen uid)%Z || negb (exactPod build pod) ||
         negb (seqb (mget (pod_labels (rp_obj pod)) buildIDLabel) (kb_name build)) || (negb allowTerminating && rp_deleting pod)
      then Err (Plain "Genesis runner Pod lacks a live exact UID and CR owner")
      else match genesisRunnerContainer pod with
      | Err e => Err e
      | Ok runner =>
          let fences := List.filter is_fence (ct_Env runner) in
          if negb (forallb downwardUID fences) then Err (Plain "Genesis runner Pod has no immutable Downward API UID fence")
          else if negb (Nat.eqb (List.length fences) 1) then Err (Plain "Genesis runner Pod UID env must have one Downward API source")
          else
            let attempt := rp_annotation pod podCreateAttemptKey in
            if negb (validReservationHex attempt 32) || (256 <? slen (RequestID build))%Z ||
               negb (forallb (fun kv => seqb (rp_annotation pod (fst kv)) (snd kv)) (stamps g build))
            then Err (Plain "Genesis runner Pod stamps differ from original admission receipt")
            else match CanonicalPodTemplateDigest pod with
            | Err _ => Err (Plain "Genesis runner Pod template differs from the durable pre-Create witness")
            | Ok digest =>
                if negb (seqb (rp_annotation pod PodTemplateDigestAnnotation) digest)
                then Err (Plain "Genesis runner Pod template differs from the durable pre-Create witness")
                else Ok {| gw_NamespaceUID := bd_NamespaceUID (gd_Original g); gw_GenesisUID := bd_GenesisUID (gd_Original g);
                           gw_Generation := generation_of g; gw_ActiveLedgerUID := bd_ActiveLedgerUID (gd_Original g);
                           gw_QueueLedgerUID := bd_QueueLedgerUID (gd_Original g); gw_BuildUID := kb_uid build;
                           gw_PodName := pod_name (rp_obj pod); gw_PodUID := uid; gw_PodCreateAttempt := attempt;
                           gw_PodTemplateDigest := digest; gw_RunnerRequestID := RequestID build |}
            end
      end
  | _, _ => Err (Plain "Genesis runner Pod lacks a live exact UID and CR owner")
  end.
Definition witnessFromPod (build : KovaBuild) (pod : option RunnerPod) : result AdmissionGenesisWitness :=
  witnessFromPodMode build pod false.

(** ** Direct reads *)

(** [observation.Read], or the plain read when there is no observation. *)
Definition observedRead {A} (g : Guard) (observation : option Observation) (read : free ctl (result A)) : free ctl (result A) :=
  match observation with
  | None => read
  | Some o =>
      match Assert o g with
      | Some e => Done (Err e)
      | None => chk+ plane OpContext (call CtxDone) else (fun e => Done (Err e)) in read
      end
  end.

(** The observations of this file run without an ordinary context. *)
Definition assertObservation (g : Guard) (observation : option Observation) : option error :=
  match observation with Some o => AssertNoOrdinaryContext o g false | None => None end.

Definition directGenesisWitnessModeWithObservation (b : Build) (allowDeleting allowTerminating : bool)
    (observation : option Observation) : free ctl (result (Build * RunnerPod)) :=
  match r_Genesis r with
  | None => Done (Err (Plain "Genesis witness requires an original CR and direct API reader"))
  | Some g =>
      if negb (r_hasAPIReader r) || sempty (kb_uid (b_cr b))
      then Done (Err (Plain "Genesis witness requires an original CR and direct API reader"))
      else match assertObservation g observation with
      | Some e => Done (Err e)
      | None =>
          get+ current := observedRead g observation (fcall (ReadBuild true (kb_ns (b_cr b)) (kb_name (b_cr b))))
            else (fun e => Done (Err e)) in
          match ks_Witness (b_status current), ks_Witness (b_status b) with
          | Some w, Some wb =>
              if negb (seqb (kb_uid (b_cr current)) (kb_uid (b_cr b))) || (negb allowDeleting && kb_deleting (b_cr current)) ||
                 negb (bool_decide (w = wb)) || negb (seqb (kb_runnerPod (b_cr current)) (gw_PodName w)) ||
                 negb (seqb (kb_runnerPod (b_cr current)) (buildPodName (kb_name (b_cr b))))
              then Done (Err (Plain "Genesis CR status has no matching durable runner witness"))
              else
                get+ pod := observedRead g observation (getOwnedRunnerPod (b_cr current)) else (fun e => Done (Err e)) in
                match witnessFromPodMode (b_cr current) pod allowTerminating, pod with
                | Ok w', Some p =>
                    if negb (bool_decide (w' = w)) then Done (Err (Plain "Genesis CR and Pod witnesses disagree"))
                    else Done (Ok (current, p))
                | Err e, _ => Done (Err e)
                | _, None => Done (Err (Plain "Genesis runner Pod lacks a live exact UID and CR owner"))
                end
          | _, _ => Done (Err (Plain "Genesis CR status has no matching durable runner witness"))
          end
      end
  end.
Definition directGenesisWitness (b : Build) : free ctl (result (Build * RunnerPod)) :=
  directGenesisWitnessModeWithObservation b false false None.

(** The ordinary context is passed exactly when there is no observation. *)
Definition ordinary (observation : option Observation) : bool := match observation with Some _ => false | None => true end.

Definition readLedgerState (ns : string) (observation : option Observation) : free ctl (result (ConfigMap * reservationState)) :=
  plane (OpReadLedger ns) (readReservationsWithObservation r (ordinary observation) ns observation).

Definition directGenesisChargeWithObservation (b : KovaBuild) (observation : option Observation) : free ctl (result activeReservation) :=
  get+ (_, s) := readLedgerState (kb_ns b) observation else (fun e => Done (Err e)) in
  match active s !! reservationKey b with
  | Some entry =>
      if negb (seqb (ar_BuildName entry) (kb_name b)) || negb (seqb (ar_Requester entry) (requesterKey b)) ||
         negb (ar_Slots entry =? kb_allocated b)%Z
      then Done (Err (Plain "Genesis runner has no exact active charge")) else Done (Ok entry)
  | None => Done (Err (Plain "Genesis runner has no exact active charge"))
  end.
Definition directGenesisCharge (b : KovaBuild) : free ctl (result activeReservation) := directGenesisChargeWithObservation b None.

(** ** Qualifying an observed Pod against its pre-Create receipt *)

Definition qualifyGenesisPodWithObservation (b : KovaBuild) (pod : option RunnerPod) (allowClosing : bool)
    (observation : option Observation) : free ctl (option error) :=
  match match r_Genesis r with Some g => assertObservation g observation | None => None end with
  | Some e => Done (Some e)
  | None =>
      match pod with
      | None => Done (Some (Plain "Genesis Pod has no exact original UID and CR owner"))
      | Some pod =>
          if sempty (pod_uid (rp_obj pod)) || negb (exactPod b pod)
          then Done (Some (Plain "Genesis Pod has no exact original UID and CR owner"))
          else match validateGenesisPodRuntimeIdentity (cfg_RunnerImage (r_Cfg r)) b pod with
          | Some e => Done (Some e)
          | None =>
              get+ (_, s) := readLedgerState (kb_ns b) observation else (fun e => Done (Some e)) in
              match active s !! reservationKey b with
              | None => Done (Some (Plain "Genesis Pod lacks the original receipted attempt"))
              | Some entry =>
                  if negb (seqb (ar_BuildName entry) (kb_name b)) || sempty (ar_PodAttemptNonce entry) || sempty (ar_PodReceiptUID entry) ||
                     negb (seqb (rp_annotation pod podCreateAttemptKey) (ar_PodAttemptNonce entry)) ||
                     negb (seqb (rp_annotation pod PodTemplateDigestAnnotation) (ar_PodTemplateDigest entry))
                  then Done (Some (Plain "Genesis Pod lacks the original receipted attempt"))
                  else if negb match CanonicalPodTemplateDigest pod with Ok d => seqb d (ar_PodTemplateDigest entry) | Err _ => false end
                  then Done (Some (Plain "Genesis Pod execution template differs from immutable pre-Create receipt"))
                  else plane (OpVerifyPod b)
                         (match observation, r_Genesis r with
                          | Some o, Some g => verifyPinnedPodReceiptWithObservation r g b entry allowClosing o
                          | _, _ => verifyPinnedPodReceipt r b entry allowClosing
                          end)
              end
          end
      end
  end.
Definition qualifyGenesisPod (b : KovaBuild) (pod : option RunnerPod) (allowClosing : bool) : free ctl (option error) :=
  qualifyGenesisPodWithObservation b pod allowClosing None.

Definition pinnedGenesisPodForBuild (b : KovaBuild) (allowClosing : bool) : free ctl (result RunnerPod) :=
  get+ pod := fcall (ReadPod direct (kb_ns b) (buildPodName (kb_name b))) else (fun e => Done (Err e)) in
  chk+ qualifyGenesisPod b (Some pod) allowClosing else (fun e => Done (Err e)) in
  Done (Ok pod).

(** ** The live grant a submission needs *)

(** [Genesis.Observe] around a callback with a result. *)
Definition observe {A} (g : Guard) (read : Observation -> free ctl (result A)) : free ctl (result A) :=
  chk+ Check g else (fun e => Done (Err e)) in
  let+ x := read {| ob_guard := gd_id g; ob_closed := false |} in
  let+ ctxErr := plane OpContext (call CtxDone) in
  let+ last := Check g in
  match join (join (error_of x) ctxErr) last with
  | Some e => Done (Err e)
  | None => Done x
  end.

Definition directGenesisGrant (b : Build) : free ctl (result (Build * RunnerPod)) :=
  match r_Genesis r with
  | None => Done (Err (Plain "Genesis guard is not enabled"))
  | Some g =>
      observe g (fun o =>
        get+ (current, pod) := directGenesisWitnessModeWithObservation b false false (Some o) else (fun e => Done (Err e)) in
        if negb (seqb (phase current) PhaseStarting) || cancellationRequested (b_cr current)
        then Done (Err (Plain "Genesis runner submission requires a live Starting CR"))
        else
          get+ entry := directGenesisChargeWithObservation (b_cr current) (Some o) else (fun e => Done (Err e)) in
          if ar_Closing entry || inFlight entry then Done (Err (Plain "Genesis runner submission lacks an open active grant"))
          else
            chk+ plane (OpVerifyGrant (b_cr current)) (verifyPinnedGrantWithObservation r g (b_cr current) entry o)
              else (fun e => Done (Err e)) in
            chk+ qualifyGenesisPodWithObservation (b_cr current) (Some pod) false (Some o) else (fun e => Done (Err e)) in
            Done (Ok (current, pod)))
  end.

Definition requireUIDSafePodStop : option error :=
  match r_Genesis r with
  | Some _ => Some (Plain "Genesis runner stop requires the terminal-first stop path")
  | None => None
  end.

(** ** A fresh Pod attempt *)

(** The ledger side of [finishFreshPodAttempt]: arm, receipt, pin and issue. *)
Definition issueFreshPod (g : Guard) (build : KovaBuild) (attempt digest : string) : prog (option error) :=
  get* armed := armFreshPodAttempt r g build attempt digest else (fun e => Ret (Some e)) in
  get* intent := observe_with g (fun o =>
      get* _ := Observation_Read o g (lift_error (ensureLiveAdmissionBuild build)) else (fun e => Ret (Err e)) in
      chk* checkGrantReceiptNamespaceWithObservation r false (kb_ns build) (Some o) else (fun e => Ret (Err e)) in
      podIntentWithObservation r false build armed (Some o)) else (fun e => Ret (Some e)) in
  get* witness := RecordPodCreateOnce intent else (fun e => Ret (Some e)) in
  chk* checkGrantReceiptNamespace r (kb_ns build) else (fun e => Ret (Some e)) in
  get* pinned := pinPodReceipt r build armed witness else (fun e => Ret (Some e)) in
  authorizeFreshPodCreate r g build pinned.

Definition finishFreshPodAttempt (g : Guard) (build : KovaBuild) (pod : RunnerPod) (attempt : string) : free ctl (result RunnerPod) :=
  if negb (exactPod build pod) || negb (seqb (rp_annotation pod podCreateAttemptKey) attempt)
  then Done (Err (Plain "Pod template differs from fresh attempt or CR owner"))
  else match validateGenesisPodRuntimeIdentity (cfg_RunnerImage (r_Cfg r)) build pod with
  | Some e => Done (Err e)
  | None =>
      match CanonicalPodTemplateDigest pod with
      | Err e => Done (Err e)
      | Ok digest =>
          chk+ plane (OpIssuePod build attempt) (issueFreshPod g build attempt digest) else (fun e => Done (Err e)) in
          Done (Ok (annotate PodTemplateDigestAnnotation digest pod))
      end
  end.
End witness.
