(* ===== verification/BuildController.v ===== *)
(** * The build controller

    [src/internal/service/buildcontroller]: the reconcile loop of
    [controller.go], the lifecycle of a build in [lifecycle.go], its status writes
    ([status.go]), the verification of its outputs ([verification.go],
    [genesis_export.go]) and the durable stop of a Genesis runner
    ([genesis_stop.go]).

    A Go method that mutates [build] and then writes it returns the mutated
    build here; an update the server accepted returns it as the response holds it
    ([landed]).  Contexts are answered by the requests themselves.  Durations are
    nanoseconds in int64. *)
From S2P Require Import Prelude Free GoText GoPath Types Kube Contract Genesis QueueReceipt Effects QueueLedger QueueOps ActiveLedger FairQueue ActiveOps GrantOps BuildContract Manifest BuildStatus BuildResult ControlPlane RunnerExec RunnerWitness.

Definition cleanupFinalizer : string := CleanupFinalizer.
Definition admissionRecoveryCondition : string := "AdmissionRecoveryRequired".
Definition Second : Z := 1000000000.
Definition Millisecond : Z := 1000000.
Definition terminalObservationTimeout : Z := 5 * Second.
Definition defaultVerificationAttemptTimeout : Z := 10 * Second.
Definition defaultVerificationWindow : Z := 300 * Second.
Definition verificationBatchSize : Z := 16.

(** int64 arithmetic: wrap-around, and the saturating difference of two times. *)
Definition wrap64 (z : Z) : Z := ((z + 2 ^ 63) mod 2 ^ 64 - 2 ^ 63)%Z.
Definition sat64 (z : Z) : Z := Z.max (- 2 ^ 63) (Z.min (2 ^ 63 - 1) z).
Definition Since (now t : Z) : Z := sat64 (now - t).
Definition Until (now t : Z) : Z := sat64 (t - now).

(** ** [status.go] *)

Fixpoint trim_invalid (fuel : nat) (s : string) : string :=
  match fuel with
  | O => s
  | S fuel' => if ValidString s then s else trim_invalid fuel' (take_str (String.length s - 1) s)
  end.
Definition truncate (value : string) (limit : nat) : string :=
  if Nat.leb (String.length value) limit then value
  else trim_invalid (S limit) (take_str limit value).

Definition conditionStatus (phase : string) : string :=
  if seqb phase PhaseSucceeded then "True"
  else if seqb phase PhaseFailed || seqb phase PhaseCancelled then "False" else "Unknown".

Definition setPhaseCondition (phase reason message : string) (b : Build) : free ctl Build :=
  let reason := truncate reason 128 in
  let message := truncate message 2048 in
  let+ now := fcall Clock in
  Done (on_status (fun s => set_Conditions (SetStatusCondition now
    (mkCondition "Ready" (conditionStatus phase) (b_generation b) 0 reason (if sempty message then phase else message))
    (ks_Conditions s)) s) b).

Definition defaultMessage (message fallback : string) : string := if sempty message then fallback else message.

(** [r.Status().Update(ctx, build)]. *)
Definition statusUpdate (b : Build) : free ctl (result Build) :=
  get+ rv := fcall (UpdateStatus b) else (fun e => Done (Err e)) in
  Done (Ok (landed rv b)).

Definition nilError {A} (p : free ctl (result A)) : free ctl (option error) :=
  let+ x := p in Done (error_of x).

(** [err.Error()], with the texts of wrapped errors joined by a colon. *)
Fixpoint Error (e : error) : string :=
  match e with
  | Plain m | Sentinel m | Transport m => m
  | Wrap m e' => m +:+ ": " +:+ Error e'
  | Join e1 e2 => Error e1 +:+ ": " +:+ Error e2
  | CtxErr => "context deadline exceeded"
  | ApiErr _ => "the server rejected the request"
  end.

(** [return ctrl.Result{}, err]. *)
Definition failed (e : error) : free ctl step_result := Done (Err e).
(** [return ctrl.Result{}, p]. *)
Definition returning {A} (p : free ctl (result A)) : free ctl step_result :=
  get+ _ := p else failed in Done (Ok noRequeue).

Section controller.
Context `{External} `{PodTemplate} `{ImageName} `{ReceiptFormat}.
Context (c : Controller).
Local Notation r := (ctl_r c).
Local Notation cfg := (ctl_cfg c).

Definition recordEvent (type reason message : string) : free ctl unit :=
  if ctl_recorder c then fcall (Event type reason message) else Done tt.

Definition markAdmissionRecoveryReason (reason message : string) (b : Build) : free ctl (result Build) :=
  if match FindStatusCondition (ks_Conditions (b_status b)) admissionRecoveryCondition with
     | Some cur => seqb (cn_Status cur) "True" && seqb (cn_Reason cur) reason && seqb (cn_Message cur) message
     | None => false
     end then Done (Ok b)
  else
    let+ now := fcall Clock in
    let b := on_status (fun s => set_Conditions (SetStatusCondition now
      (mkCondition admissionRecoveryCondition "True" (b_generation b) 0 reason message) (ks_Conditions s)) s) b in
    let+ _ := recordEvent "Warning" "AdmissionRecoveryRequired" message in
    statusUpdate b.

Definition markAdmissionRecovery (pending : string) (b : Build) : free ctl (result Build) :=
  markAdmissionRecoveryReason "PodCreateOutcomeUnknown"
    (pending +:+ " runner Pod create attempt(s) have an unknown outcome; capacity remains reserved") b.

Definition clearAdmissionRecovery (b : Build) : free ctl (result Build) :=
  let '(conds, removed) := RemoveStatusCondition admissionRecoveryCondition (ks_Conditions (b_status b)) in
  if negb removed then Done (Ok b) else statusUpdate (on_status (set_Conditions conds) b).

Definition writeTerminalStatus (newPhase reason message : string) (b : Build) : free ctl (result Build) :=
  let+ now := fcall Clock in
  let b := on_status (fun s => set_PollFailureCount 0 (set_PollFailureSince None (set_FinishedAt (Some now)
             (set_Message (truncate message 2048) (set_Reason (truncate reason 128)
             (set_ObservedGeneration (b_generation b) s)))))) (set_phase newPhase b) in
  let+ b := setPhaseCondition newPhase (ks_Reason (b_status b)) (ks_Message (b_status b)) b in
  get+ b := statusUpdate b else (fun e => Done (Err e)) in
  let+ _ := recordEvent (if seqb newPhase PhaseFailed then "Warning" else "Normal") reason (defaultMessage message newPhase) in
  Done (Ok b).

(** ** Verification results *)

Definition validVerificationResults (b : Build) : bool :=
  let expected := Pending (b_cr b) in
  let results := ks_VerificationResults (b_status b) in
  negb (Nat.eqb (List.length expected) 0) && Nat.eqb (List.length expected) (List.length results) &&
  forallb (fun er => let '(e, v) := er in
    seqb (vr_Format v) (re_Format e) && seqb (vr_Image v) (re_Repository e) && seqb (vr_Platform v) (re_Platform e) &&
    (seqb (vr_State v) "pending" || seqb (vr_State v) "succeeded" || seqb (vr_State v) "failed") &&
    negb (seqb (vr_State v) "succeeded" && sempty (vr_PushedDigest v))) (zip expected results).

(** [finish]. *)
Definition finish (newPhase reason message : string) (b : Build) : free ctl (result Build) :=
  let write := writeTerminalStatus newPhase reason message b in
  match r_Genesis r with
  | None => write
  | Some g =>
      match ks_Witness (b_status b) with
      | None =>
          if seqb newPhase PhaseSucceeded
          then Done (Err (Plain "Genesis success cannot be recorded without independent runner witness"))
          else chk+ Check g else (fun e => Done (Err e)) in write
      | Some _ =>
          get+ _ := directGenesisWitness c b else (fun e => Done (Err e)) in
          if seqb newPhase PhaseSucceeded then
            if negb (validVerificationResults b) then Done (Err (Plain "Genesis success lacks exact verification results"))
            else let '(isDone, isFailed) := VerificationDone (ks_VerificationResults (b_status b)) in
                 if negb isDone || isFailed then Done (Err (Plain "Genesis success has pending or failed verification"))
                 else write
          else write
      end
  end.

(** ** [verification.go] *)

Definition persistVerificationStatus (b : Build) : free ctl (result Build) :=
  match r_Genesis r with
  | Some _ => get+ _ := directGenesisWitness c b else (fun e => Done (Err e)) in statusUpdate b
  | None => statusUpdate b
  end.

Definition verificationAttemptTimeout : Z :=
  if (0 <? cc_VerificationAttemptTimeout cfg)%Z then cc_VerificationAttemptTimeout cfg else defaultVerificationAttemptTimeout.
Definition verificationWindow : Z :=
  if (0 <? cc_VerificationWindow cfg)%Z then cc_VerificationWindow cfg else defaultVerificationWindow.

(** The limit of [verificationSlot]. *)
Definition verificationSlots : Z :=
  let concurrency := if (cc_ControllerConcurrency cfg <=? 0)%Z then 4%Z else cc_ControllerConcurrency cfg in
  Z.max 1 (Z.min 2 (concurrency - 1)).

(** int32 decrement. *)
Definition dec32 (z : Z) : Z := ((z - 1 + 2 ^ 31) mod 2 ^ 32 - 2 ^ 31)%Z.

Definition verificationBackoff (attempt : Z) : Z := Z.shiftl Second (Z.min (Z.max (dec32 attempt) 0) 3).

(** int32 increment. *)
Definition inc32 (z : Z) : Z := ((z + 1 + 2 ^ 31) mod 2 ^ 32 - 2 ^ 31)%Z.

Definition on_results (f : list BuildVerificationResult -> list BuildVerificationResult) (b : Build) : Build :=
  on_status (fun s => set_VerificationResults (f (ks_VerificationResults s)) s) b.
Definition boundVerificationErrors (results : list BuildVerificationResult) : list BuildVerificationResult :=
  List.map (fun v => settle (vr_State v) (truncate (vr_Error v) 2048) v) results.
Definition resultError (v : BuildVerificationResult) : string :=
  truncate (vr_Format v +:+ " " +:+ vr_Image v +:+ ": " +:+ vr_Error v) 2048.
Definition failedResult (v : BuildVerificationResult) : bool := seqb (vr_State v) "failed" && negb (sempty (vr_Error v)).
Definition firstFailedResultError (results : list BuildVerificationResult) : string :=
  match List.find failedResult results with Some v => resultError v | None => "" end.
Definition firstVerificationError (results : list BuildVerificationResult) : string :=
  match List.find failedResult results with
  | Some v => resultError v
  | None => "one or more build results could not be verified"
  end.
(** Every pending result fails with [message]. *)
Definition failPending (message : string) (results : list BuildVerificationResult) : list BuildVerificationResult :=
  List.map (fun v => if is_pending v then settle "failed" (truncate message 2048) v else v) results.
Definition setOutputs (b : Build) : Build :=
  on_status (fun s => set_Outputs (VerificationOutputs (ks_VerificationResults s)) s) b.

Definition pendingReceipt (e : Result) : BuildVerificationResult :=
  mkVerification (re_Format e) (re_Repository e) (re_Platform e) "" "pending" "" None.

Definition beginVerificationPhase (newPhase reason message : string) (window : Z) (b : Build) : free ctl step_result :=
  get+ b := match r_Genesis r with
            | Some _ => get+ (current, _) := directGenesisWitness c b else (fun e => Done (Err e)) in Done (Ok current)
            | None => Done (Ok b)
            end else failed in
  let pending := Pending (b_cr b) in
  if Nat.eqb (List.length pending) 0 || (MaxConcreteOutputs <? Z.of_nat (List.length pending))%Z then
    if seqb newPhase PhaseFailedVerifying then returning (finish PhaseFailed "BuildFailed" message b)
    else returning (finish PhaseFailed "ResultVerificationFailed" "invalid expected output set" b)
  else
    let+ now := fcall Clock in
    let deadline := match ks_StartedAt (b_status b) with
                    | Some started =>
                        if (0 <? cc_MaxBuildDuration cfg)%Z
                        then Z.min (started + wrap64 (cc_MaxBuildDuration cfg + window)) (now + window) else (now + window)%Z
                    | None => (now + window)%Z
                    end in
    let b := on_status (fun s => set_VerificationResults (List.map pendingReceipt pending) (set_VerificationLastError ""
               (set_VerificationAttempts 0 (set_VerificationNextAttemptAt (Some now) (set_VerificationDeadlineAt (Some deadline)
               (set_VerificationStartedAt (Some now) (set_Message (truncate message 2048) (set_Reason (truncate reason 128)
               (set_ObservedGeneration (b_generation b) s))))))))) (set_phase newPhase b) in
    let+ b := setPhaseCondition newPhase (ks_Reason (b_status b)) (ks_Message (b_status b)) b in
    get+ _ := persistVerificationStatus b else failed in
    Done (Ok (requeueAfter Millisecond)).

Definition beginVerification (b : Build) : free ctl step_result :=
  beginVerificationPhase PhaseVerifying "RunnerCompleted" "verifying digest-pinned build outputs" verificationWindow b.
Definition beginFailedVerification (runnerError : string) (b : Build) : free ctl step_result :=
  beginVerificationPhase PhaseFailedVerifying "BuildFailed" runnerError (Z.min verificationWindow defaultVerificationWindow) b.

Definition failVerification (message : string) (b : Build) : free ctl step_result :=
  let b := setOutputs (on_results (failPending message)
             (on_status (fun s => set_VerificationNextAttemptAt None (set_VerificationLastError (truncate message 2048) s)) b)) in
  get+ b := persistVerificationStatus b else failed in
  get+ _ := finish PhaseFailed "ResultVerificationFailed" message b else failed in
  Done (Ok (requeueAfter Millisecond)).

Definition finishFailedVerification (b : Build) : free ctl step_result :=
  get+ b := persistVerificationStatus (on_status (set_VerificationNextAttemptAt None) b) else failed in
  let message := if sempty (ks_Message (b_status b)) then "runner reported a failed build" else ks_Message (b_status b) in
  get+ _ := finish PhaseFailed "BuildFailed" message b else failed in
  Done (Ok (requeueAfter Millisecond)).

Definition deadlineMessage (prefix : string) (b : Build) : string :=
  prefix +:+ (if sempty (ks_VerificationLastError (b_status b)) then "" else ": " +:+ ks_VerificationLastError (b_status b)).

Definition expireFailedVerification (b : Build) : free ctl step_result :=
  let message := deadlineMessage "partial result verification exceeded its deadline" b in
  finishFailedVerification (setOutputs (on_results (failPending message)
    (on_status (set_VerificationLastError (truncate message 2048)) b))).

(** Observing the runner: the status request, between two direct witnesses under Genesis. *)
Definition observeBuildStatus (b : Build) : free ctl (result BuildState) :=
  match r_Genesis r with
  | None => BuildStatusRequest b
  | Some _ =>
      get+ (_, before) := directGenesisWitness c b else (fun e => Done (Err e)) in
      get+ st := BuildStatusRequest b else (fun e => Done (Err e)) in
      get+ (_, after) := directGenesisWitness c b else (fun e => Done (Err e)) in
      let expected := match ks_Witness (b_status b) with Some w => gw_RunnerRequestID w | None => "" end in
      if negb (samePodUID (Some before) (Some after)) ||
         (negb (seqb (st_Status st) "idle") && negb (seqb (st_RequestID st) expected)) ||
         (seqb (st_Status st) "idle" && negb (sempty (st_RequestID st)))
      then Done (Err (Plain "Genesis runner status lacks exact Pod and request identity"))
      else Done (Ok st)
  end.

(** [genesis_export.go]. *)
Fixpoint exportTargets (lines : list string) (expected seen : list string) : option error :=
  match lines with
  | [] => None
  | line :: rest =>
      let line := GoPath.TrimSpace line in
      if sempty line then exportTargets rest expected seen
      else match unmarshalEntry line with
      | Err e => Some (Wrap "Genesis export contains invalid JSONL" e)
      | Ok entry =>
          if negb (bool_decide (en_Target entry ∈ expected)) then Some (Plain "Genesis export contains an unexpected target")
          else if bool_decide (en_Target entry ∈ seen) then Some (Plain "Genesis export repeats a target")
          else exportTargets rest expected (en_Target entry :: seen)
      end
  end.
(** [bytes.Split(data, '\n')]. *)
Fixpoint splitLines (fuel : nat) (s : string) : list string :=
  match fuel with
  | O => [s]
  | S fuel' => match Cut s (String newline "") with Some (l, rest) => l :: splitLines fuel' rest | None => [s] end
  end.
Definition validateGenesisExportTargets (data : string) (b : Build) (query : string) : option error :=
  let format := if seqb query "with-fail=true&summary=true&oci=true" then "oci" else "nydus" in
  let expected := List.map re_Repository (List.filter (fun e => seqb (re_Format e) format) (Pending (b_cr b))) in
  match expected with
  | [] => Some (Plain "Genesis export format has no requested targets")
  | _ => exportTargets (splitLines (S (String.length data)) data) expected []
  end.

Definition genesisPost (b : Build) (path query : string) : free ctl (result string) :=
  if negb (seqb path "export") ||
     (negb (seqb query "with-fail=true&summary=true") && negb (seqb query "with-fail=true&summary=true&oci=true"))
  then Done (Err (Plain "Genesis evidence export permits only bounded result summaries"))
  else
    get+ (before, pod) := directGenesisWitness c b else (fun e => Done (Err e)) in
    if negb (seqb (phase before) PhaseVerifying) && negb (seqb (phase before) PhaseFailedVerifying)
    then Done (Err (Plain "Genesis evidence export requires an accepted verification phase"))
    else
      get+ st := observeBuildStatus before else (fun e => Done (Err e)) in
      if (seqb (phase before) PhaseVerifying && negb (seqb (st_Status st) "completed")) ||
         (seqb (phase before) PhaseFailedVerifying && negb (seqb (st_Status st) "failed") && negb (seqb (st_Status st) "error"))
      then Done (Err (Plain "Genesis evidence export requires matching terminal runner status"))
      else
        let+ answer := Post before path query in
        get+ (after, laterPod) := directGenesisWitness c before else (fun e => Done (Err e)) in
        if negb (samePodUID (Some pod) (Some laterPod)) then Done (Err (Plain "Genesis runner Pod UID changed across evidence export"))
        else if negb (seqb (phase after) (phase before)) then Done (Err (Plain "Genesis CR phase changed across evidence export"))
        else
          get+ later := observeBuildStatus after else (fun e => Done (Err e)) in
          if negb (seqb (st_Status later) (st_Status st)) || negb (seqb (st_RequestID later) (st_RequestID st))
          then Done (Err (Plain "Genesis runner request changed across evidence export"))
          else match answer with
          | Err e => Done (Err e)
          | Ok data =>
              match validateGenesisExportTargets data before query with
              | Some e => Done (Err e)
              | None => Done (Ok data)
              end
          end.

Definition exporter (b : Build) : string -> string -> free ctl (result string) :=
  match r_Genesis r with Some _ => genesisPost b | None => Post b end.

Definition remoteRegistry (image digest : string) : free ctl (result (string * string)) := fcall (Registry image digest).

(** Under Genesis a verification step works on the directly witnessed build. *)
Definition witnessedBuild (b : Build) : free ctl (result Build) :=
  match r_Genesis r with
  | Some _ => get+ (current, _) := directGenesisWitness c b else (fun e => Done (Err e)) in Done (Ok current)
  | None => Done (Ok b)
  end.

Definition verificationState (b : Build) : bool :=
  bool_decide (is_Some (ks_VerificationStartedAt (b_status b))) && bool_decide (is_Some (ks_VerificationDeadlineAt (b_status b))) &&
  validVerificationResults b.

(** A verification slot is held while [body] runs; no slot means try again soon. *)
Definition withSlot (remaining : Z) (body : free ctl step_result) : free ctl step_result :=
  let+ slot := fcall TakeSlot in
  if (slot : bool) then
    let+ x := body in
    let+ _ := fcall FreeSlot in
    Done x
  else Done (Ok (requeueAfter (Z.min (250 * Millisecond) remaining))).

Definition stillPending : string := "verification batch remains pending".

(** The wait until the next attempt is due, if it is not due yet. *)
Definition notDue (remaining : Z) (b : Build) : free ctl (option CtrlResult) :=
  match ks_VerificationNextAttemptAt (b_status b) with
  | None => Done None
  | Some next =>
      let+ now := fcall Clock in
      if (now <? next)%Z then let+ now := fcall Clock in Done (Some (requeueAfter (Z.min (Until now next) remaining)))
      else Done None
  end.

(** One attempt up to the registry: receipts collected and made durable, then
    checked; the build, the transient error and the hard-failure flag. *)
Definition attemptReceipts (stopOnFailure : bool) (b : Build) : free ctl (result (Build * string * bool)) :=
  let b := on_status (fun s => set_VerificationAttempts (inc32 (ks_VerificationAttempts s)) s) b in
  let+ (results, transient, hard) := CollectReceipts (exporter b) (ks_VerificationResults (b_status b)) in
  let b := on_status (fun s => set_VerificationLastError (truncate transient 2048) s)
             (on_results (fun _ => boundVerificationErrors results) b) in
  get+ b := persistVerificationStatus b else (fun e => Done (Err e)) in
  let+ expired := if stopOnFailure && hard then Done (Some CtxErr) else fcall AttemptErr in
  let+ (b, transient, hard) :=
    (match expired with
    | Some _ => Done (b, transient, hard)
    | None =>
        let+ (results, registryTransient, registryHard) :=
          VerifyReceipts remoteRegistry (ks_VerificationResults (b_status b)) verificationBatchSize in
        Done (on_results (fun _ => results) b, if sempty registryTransient then transient else registryTransient, registryHard)
    end : free ctl (Build * string * bool)) in
  let+ late := fcall AttemptErr in
  let transient := match late with Some e => if sempty transient then Error e else transient | None => transient end in
  Done (Ok (setOutputs (on_results boundVerificationErrors b), transient, hard)).

Definition retryDelay (transient : string) (b : Build) : Z :=
  if seqb transient stillPending then 100 * Millisecond else verificationBackoff (ks_VerificationAttempts (b_status b)).

Definition verifyAttempt (b : Build) : free ctl step_result :=
  get+ (b, transient, hard) := attemptReceipts true b else failed in
  let '(isDone, isFailed) := VerificationDone (ks_VerificationResults (b_status b)) in
  if hard || isFailed then
    let message := firstVerificationError (ks_VerificationResults (b_status b)) in
    failVerification message (on_status (set_VerificationLastError message) b)
  else if isDone then
    let b := on_status (fun s => set_VerificationNextAttemptAt None (set_VerificationLastError "" s)) b in
    get+ b := persistVerificationStatus b else failed in
    get+ _ := finish PhaseSucceeded "Completed" "" b else failed in
    Done (Ok (requeueAfter Millisecond))
  else
    let transient := if sempty transient then stillPending else transient in
    let b := on_status (set_VerificationLastError (truncate transient 2048)) b in
    let+ now := fcall Clock in
    let remaining := Until now (default 0%Z (ks_VerificationDeadlineAt (b_status b))) in
    let delay := Z.min (retryDelay transient b) (Z.max remaining Millisecond) in
    let+ now := fcall Clock in
    get+ _ := persistVerificationStatus (on_status (set_VerificationNextAttemptAt (Some (now + delay)%Z)) b) else failed in
    Done (Ok (requeueAfter delay)).

Definition reconcileVerifying (b : Build) : free ctl step_result :=
  get+ b := witnessedBuild b else failed in
  if negb (verificationState b) then failVerification "verification state is missing or inconsistent" b
  else
    let results := ks_VerificationResults (b_status b) in
    let '(isDone, isFailed) := VerificationDone results in
    if isFailed then failVerification (firstVerificationError results) b
    else if isDone then
      let b := on_status (fun s => set_VerificationNextAttemptAt None (set_VerificationLastError "" s)) (setOutputs b) in
      get+ _ := finish PhaseSucceeded "Completed" "" b else failed in
      Done (Ok (requeueAfter Millisecond))
    else
      let+ now := fcall Clock in
      let remaining := Until now (default 0%Z (ks_VerificationDeadlineAt (b_status b))) in
      if (remaining <=? 0)%Z then failVerification (deadlineMessage "result verification exceeded its deadline" b) b
      else
        let+ wait := notDue remaining b in
        match wait with
        | Some w => Done (Ok w)
        | None => withSlot remaining (verifyAttempt b)
        end.

Definition failedVerifyAttempt (b : Build) : free ctl step_result :=
  get+ (b, transient, _) := attemptReceipts false b else failed in
  let '(isDone, _) := VerificationDone (ks_VerificationResults (b_status b)) in
  if isDone then
    finishFailedVerification
      (on_status (fun s => set_VerificationLastError (firstFailedResultError (ks_VerificationResults s)) s) b)
  else
    let transient := if sempty transient then stillPending else transient in
    let b := on_status (set_VerificationLastError (truncate transient 2048)) b in
    let+ now := fcall Clock in
    let remaining := Until now (default 0%Z (ks_VerificationDeadlineAt (b_status b))) in
    if (remaining <=? 0)%Z then expireFailedVerification b
    else
      let delay := Z.min (retryDelay transient b) remaining in
      let+ now := fcall Clock in
      get+ _ := persistVerificationStatus (on_status (set_VerificationNextAttemptAt (Some (now + delay)%Z)) b) else failed in
      Done (Ok (requeueAfter delay)).

Definition reconcileFailedVerifying (b : Build) : free ctl step_result :=
  get+ b := witnessedBuild b else failed in
  if negb (verificationState b) then
    finishFailedVerification (on_status (fun s =>
      set_VerificationLastError "failed build verification state is missing or inconsistent"
        (set_Outputs [] (set_VerificationResults [] s))) b)
  else
    let '(isDone, _) := VerificationDone (ks_VerificationResults (b_status b)) in
    if isDone then
      finishFailedVerification
        (on_status (fun s => set_VerificationLastError (firstFailedResultError (ks_VerificationResults s)) s) (setOutputs b))
    else
      let+ now := fcall Clock in
      let remaining := Until now (default 0%Z (ks_VerificationDeadlineAt (b_status b))) in
      if (remaining <=? 0)%Z then expireFailedVerification b
      else
        let+ wait := notDue remaining b in
        match wait with
        | Some w => Done (Ok w)
        | None => withSlot remaining (failedVerifyAttempt b)
        end.
End controller.
