(* ===== verification/Lifecycle.v ===== *)
(** * The lifecycle of a build

    [src/internal/service/buildcontroller]: the durable stop of a Genesis runner
    ([genesis_stop.go]), the steps of a build from admission to cleanup
    ([lifecycle.go]) and [Reconcile] itself ([controller.go]). *)
From S2P Require Import Prelude Free GoText GoPath Types Kube Contract Genesis QueueReceipt Effects QueueLedger QueueOps ActiveLedger FairQueue ActiveOps GrantOps BuildContract Manifest BuildStatus BuildResult ControlPlane RunnerExec RunnerWitness BuildController.

(** ** Stop intents *)

(** The terminal phase and message of a forced stop. *)
Definition genesisStopOutcome (reason : string) : result (string * string) :=
  if seqb reason "Cancelled" then Ok (PhaseCancelled, "build was cancelled")
  else if seqb reason "Deleted" then Ok (PhaseCancelled, "build was deleted")
  else if seqb reason "BuildTimedOut" then Ok (PhaseFailed, "build exceeded the service maximum duration")
  else Err (Plain "unsupported Genesis stop reason").

Definition genesisStopIntent (w : AdmissionGenesisWitness) (reason : string) : AdmissionGenesisStopIntent :=
  mkStopIntent (gw_BuildUID w) (gw_PodUID w) (gw_PodCreateAttempt w) (gw_RunnerRequestID w) reason.

Definition validGenesisStopIntent (b : Build) : bool :=
  match ks_Witness (b_status b), ks_StopIntent (b_status b) with
  | Some w, Some i =>
      is_ok (genesisStopOutcome (si_Reason i)) && seqb (si_BuildUID i) (gw_BuildUID w) && seqb (si_PodUID i) (gw_PodUID w) &&
      seqb (si_PodCreateAttempt i) (gw_PodCreateAttempt w) && seqb (si_RunnerRequestID i) (gw_RunnerRequestID w)
  | _, _ => false
  end.

Definition activePhase (p : string) : bool := seqb p PhaseStarting || seqb p PhaseRunning.

Definition validateRunnerPodStatusName (b : Build) : option error :=
  let cr := b_cr b in
  if negb (sempty (kb_runnerPod cr)) && negb (seqb (kb_runnerPod cr) (buildPodName (kb_name cr)))
  then Some (Plain "KovaBuild references unexpected runner Pod") else None.

Definition definitivePodCreateRejection (e : error) : bool :=
  IsForbidden e || IsInvalid e || IsBadRequest e || IsUnauthorized e.

Section lifecycle.
Context `{External} `{PodTemplate} `{ImageName} `{ReceiptFormat}.
Context (c : Controller).
Local Notation r := (ctl_r c).
Local Notation cfg := (ctl_cfg c).

Definition validGenesisStatusWitness (b : Build) : bool :=
  match r_Genesis r, ks_Witness (b_status b) with
  | Some g, Some w =>
      let cr := b_cr b in
      negb (sempty (kb_uid cr)) && seqb (gw_NamespaceUID w) (bd_NamespaceUID (gd_Original g)) &&
      seqb (gw_GenesisUID w) (bd_GenesisUID (gd_Original g)) && seqb (gw_Generation w) (generation_of g) &&
      seqb (gw_ActiveLedgerUID w) (bd_ActiveLedgerUID (gd_Original g)) && seqb (gw_QueueLedgerUID w) (bd_QueueLedgerUID (gd_Original g)) &&
      seqb (gw_BuildUID w) (kb_uid cr) && seqb (gw_PodName w) (buildPodName (kb_name cr)) &&
      negb (sempty (gw_PodUID w)) && (slen (gw_PodUID w) <=? 256)%Z && validReservationHex (gw_PodCreateAttempt w) 32 &&
      seqb (gw_RunnerRequestID w) (RequestID cr) && seqb (kb_runnerPod cr) (gw_PodName w)
  | _, _ => false
  end.

(** The cleanup read: the exact original Pod, possibly terminating, or its absence. *)
Definition directGenesisStopState (b : Build) : free ctl (result (Build * option RunnerPod)) :=
  match r_Genesis r, ks_Witness (b_status b) with
  | Some _, Some wb =>
      if negb (r_hasAPIReader r) || sempty (kb_uid (b_cr b))
      then Done (Err (Plain "Genesis stop requires an original durable runner witness"))
      else
        get+ current := fcall (ReadBuild true (kb_ns (b_cr b)) (kb_name (b_cr b))) else (fun e => Done (Err e)) in
        let intent := ks_StopIntent (b_status current) in
        if negb (seqb (kb_uid (b_cr current)) (kb_uid (b_cr b))) || negb (validGenesisStatusWitness current) ||
           negb (bool_decide (ks_Witness (b_status current) = Some wb)) ||
           (bool_decide (is_Some (ks_StopIntent (b_status b))) && negb (bool_decide (intent = ks_StopIntent (b_status b)))) ||
           (bool_decide (is_Some intent) && negb (validGenesisStopIntent current))
        then Done (Err (Plain "Genesis stop CR identity, witness, or intent changed"))
        else
          let+ p := fcall (ReadPod true (kb_ns (b_cr current)) (kb_runnerPod (b_cr current))) in
          match p with
          | Err e => if IsNotFound e then Done (Ok (current, None)) else Done (Err e)
          | Ok pod =>
              match witnessFromPodMode c (b_cr current) (Some pod) true with
              | Err e => Done (Err e)
              | Ok w =>
                  if bool_decide (ks_Witness (b_status current) = Some w) then Done (Ok (current, Some pod))
                  else Done (Err (Plain "Genesis stop Pod UID or stamps differ from the durable CR witness"))
              end
          end
  | _, _ => Done (Err (Plain "Genesis stop requires an original durable runner witness"))
  end.

(** ** Deleting a runner Pod *)

(** [DeletePodWithUID], then a direct read that must find nothing. *)
Definition deletePodAndConfirm (pod : RunnerPod) : free ctl (option error) :=
  let p := rp_obj pod in
  chk+ fcall (DeletePod (pod_ns p) (pod_name p) (pod_uid p)) else (fun e => Done (Some e)) in
  let+ still := fcall (ReadPod (direct c) (pod_ns p) (pod_name p)) in
  match still with
  | Err e => if IsNotFound e then Done None else Done (Some e)
  | Ok q =>
      if negb (seqb (pod_uid (rp_obj q)) (pod_uid p)) then Done (Some (Wrap "runner Pod was replaced after deletion" (ApiErr Conflict)))
      else Done (Some (Plain "runner Pod still exists after deletion"))
  end.

Definition completeObserved (b : KovaBuild) (pod : RunnerPod) : free ctl (option error) :=
  let observed := rp_annotation pod podCreateAttemptKey in
  if sempty observed then Done None else plane (OpCompletePod b observed) (completePodCreate r b observed).

Definition deleteOwnedRunnerPodAndConfirm (b : Build) (pod : RunnerPod) : free ctl (option error) :=
  if negb (exactPod (b_cr b) pod) then Done (Some (Plain "refusing to delete runner Pod not matching KovaBuild UID"))
  else if sempty (pod_uid (rp_obj pod)) then Done (Some (Plain "refusing to delete runner Pod without a UID"))
  else
    match r_Genesis r with
    | None =>
        chk+ completeObserved (b_cr b) pod else (fun e => Done (Some e)) in
        deletePodAndConfirm pod
    | Some g =>
        chk+ Check g else (fun e => Done (Some e)) in
        get+ (current, observed) := directGenesisStopState b else (fun e => Done (Some e)) in
        match observed with
        | None => Done (Some (Plain "Genesis Pod deletion lacks exact durable terminal or stop witness"))
        | Some pod' =>
            if negb (seqb (pod_uid (rp_obj pod')) (pod_uid (rp_obj pod))) ||
               (negb (isTerminalPhase (phase current)) && negb (validGenesisStopIntent current))
            then Done (Some (Plain "Genesis Pod deletion lacks exact durable terminal or stop witness"))
            else
              get+ entry := directGenesisCharge c (b_cr current) else (fun e => Done (Some e)) in
              if negb (ar_Closing entry) then Done (Some (Plain "Genesis Pod deletion lacks fenced active charge"))
              else
                chk+ qualifyGenesisPod c (b_cr current) (Some pod') true else (fun e => Done (Some e)) in
                chk+ completeObserved (b_cr current) pod' else (fun e => Done (Some e)) in
                deletePodAndConfirm pod'
        end
    end.

Definition deleteRunnerAndConfirm (b : Build) : free ctl (option error) :=
  match validateRunnerPodStatusName b with
  | Some e => Done (Some e)
  | None =>
      match r_Genesis r with
      | None =>
          get+ pod := getOwnedRunnerPod c (b_cr b) else (fun e => Done (Some e)) in
          match pod with
          | None => Done None
          | Some p => deleteOwnedRunnerPodAndConfirm b p
          end
      | Some g =>
          chk+ Check g else (fun e => Done (Some e)) in
          if negb (r_hasAPIReader r) then Done (Some (Plain "Genesis cleanup requires a direct API reader"))
          else match ks_Witness (b_status b) with
          | None =>
              get+ pod := getOwnedRunnerPod c (b_cr b) else (fun e => Done (Some e)) in
              match pod with
              | None => Done None
              | Some _ => Done (Some (Plain "Genesis cleanup refuses a runner Pod without durable witness"))
              end
          | Some _ =>
              get+ (current, pod) := directGenesisStopState b else (fun e => Done (Some e)) in
              match pod with
              | None =>
                  if negb (isTerminalPhase (phase current))
                  then Done (Some (Plain "Genesis cleanup cannot infer a nonterminal result from Pod absence")) else Done None
              | Some p =>
                  if negb (isTerminalPhase (phase current)) && negb (validGenesisStopIntent current)
                  then Done (Some (Plain "Genesis cleanup lacks a terminal result or durable stop intent"))
                  else deleteOwnedRunnerPodAndConfirm current p
              end
          end
      end
  end.

(** ** [genesis_stop.go] *)

Definition finishGenesisStopped (g : Guard) (b : Build) : free ctl (result Build) :=
  chk+ Check g else (fun e => Done (Err e)) in
  get+ (current, pod) := directGenesisStopState b else (fun e => Done (Err e)) in
  match ks_StopIntent (b_status current), pod with
  | Some intent, None =>
      if negb (validGenesisStopIntent current) || isTerminalPhase (phase current)
      then Done (Err (Plain "Genesis stopped outcome lacks durable intent or direct Pod absence"))
      else
        get+ entry := directGenesisCharge c (b_cr current) else (fun e => Done (Err e)) in
        if negb (ar_Closing entry) || inFlight entry
        then Done (Err (Plain "Genesis stopped outcome still has an open or in-flight active charge"))
        else match genesisStopOutcome (si_Reason intent) with
        | Err e => Done (Err e)
        | Ok (newPhase, message) => writeTerminalStatus c newPhase (si_Reason intent) message current
        end
  | _, _ => Done (Err (Plain "Genesis stopped outcome lacks durable intent or direct Pod absence"))
  end.

Definition resumeGenesisStop (g : Guard) (b : Build) : free ctl step_result :=
  chk+ Check g else failed in
  get+ (current, pod) := directGenesisStopState b else failed in
  if negb (validGenesisStopIntent current) || isTerminalPhase (phase current)
  then failed (Plain "Genesis stop has no valid nonterminal intent")
  else
    get+ entry := directGenesisCharge c (b_cr current) else failed in
    if negb (ar_Closing entry) then failed (Plain "Genesis stop active charge is not fenced")
    else
      chk+ match pod with Some p => deleteOwnedRunnerPodAndConfirm current p | None => Done None end else failed in
      returning (finishGenesisStopped g current).

(** Whether the stop is still called for. *)
Definition stopEffective (reason : string) (current : Build) : free ctl (option error) :=
  if seqb reason "Cancelled" then
    if cancellationRequested (b_cr current) && activePhase (phase current) then Done None
    else Done (Some (Plain "Genesis cancellation is no longer requested for an active runner"))
  else if seqb reason "BuildTimedOut" then
    let stale := Some (Plain "Genesis build timeout is no longer effective") in
    if negb (activePhase (phase current)) || (cc_MaxBuildDuration cfg <=? 0)%Z then Done stale
    else match ks_StartedAt (b_status current) with
    | None => Done stale
    | Some started =>
        let+ now := fcall Clock in
        Done (if (Since now started <? cc_MaxBuildDuration cfg)%Z then stale else None)
    end
  else if seqb reason "Deleted" then
    if kb_deleting (b_cr current) then Done None else Done (Some (Plain "Genesis CR deletion is not durable"))
  else Done None.

Definition fence (b : KovaBuild) : free ctl (option error) := plane (OpFence b) (fenceReservation r b).

(** The durable intent of a stop that has none yet. *)
Definition recordStopIntent (reason : string) (b current : Build) (pod : option RunnerPod) : free ctl (result Build) :=
  if match pod with Some p => rp_deleting p | None => true end || isTerminalPhase (phase current)
  then Done (Err (Plain "Genesis stop has no live original Pod or active phase before intent"))
  else if negb (seqb (phase current) (phase b)) then Done (Err (Plain "Genesis stop phase changed after the runner observation"))
  else
    chk+ stopEffective reason current else (fun e => Done (Err e)) in
    get+ _ := directGenesisCharge c (b_cr current) else (fun e => Done (Err e)) in
    chk+ fence (b_cr current) else (fun e => Done (Err e)) in
    get+ entry := directGenesisCharge c (b_cr current) else (fun e => Done (Err e)) in
    if negb (ar_Closing entry) then Done (Err (Plain "Genesis stop lacks a fenced exact active charge"))
    else statusUpdate (on_status (fun s => set_StopIntent ((fun w => genesisStopIntent w reason) <$> ks_Witness s) s) current).

Definition stopGenesisRunner (g : Guard) (reason : string) (b : Build) : free ctl step_result :=
  match genesisStopOutcome reason with
  | Err e => failed e
  | Ok _ =>
      chk+ Check g else failed in
      get+ (current, pod) := directGenesisStopState b else failed in
      get+ current := match ks_StopIntent (b_status current) with
                      | None => recordStopIntent reason b current pod
                      | Some _ => Done (Ok current)
                      end else failed in
      if negb match ks_StopIntent (b_status current) with Some i => seqb (si_Reason i) reason | None => false end
      then failed (Plain "Genesis stop already committed a different outcome")
      else resumeGenesisStop g current
  end.
End lifecycle.
