(* ===== verification/Reconcile.v ===== *)
(** * Reconciling a build

    The steps of [src/internal/service/buildcontroller/lifecycle.go] from
    admission to cleanup, and [Reconcile] of [controller.go], which picks the step
    of the phase it reads. *)
From S2P Require Import Prelude Free GoText GoPath Types Kube Contract Genesis QueueReceipt Effects QueueLedger QueueOps ActiveLedger FairQueue ActiveOps GrantOps BuildContract Manifest BuildStatus BuildResult ControlPlane RunnerExec RunnerWitness BuildController Lifecycle.

Definition sourcePath : string := MaterializedSourcePath.

Definition is_drift (e : error) : bool := errors_Is e driftName.
Definition is_admission_closed (e : error) : bool := errors_Is e "KovaBuild is no longer eligible for runner admission".
Definition is_invalid_status (e : error) : bool := errors_Is e "invalid runner build status".
Definition to_int32 (z : Z) : Z := ((z + 2 ^ 31) mod 2 ^ 32 - 2 ^ 31)%Z.

(** A terminated source-fetch container: the reason, and the message it left. *)
Definition fetchMessage (t : Terminated) : string :=
  if negb (sempty (te_Message t)) then te_Message t
  else if negb (sempty (te_Reason t)) then te_Reason t
  else "source fetch exited with code " +:+ dec_of_Z (te_ExitCode t).
Definition fetchReason (t : Terminated) : string :=
  if seqb (te_Reason t) "OOMKilled" || (te_ExitCode t =? FetchExitCodeResourceExhausted)%Z then "SourceFetchResourceExhausted"
  else if (te_ExitCode t =? FetchExitCodeInvalidSource)%Z then "InvalidSource" else "SourceFetchUnavailable".
Definition sourceFetchFailure (pod : RunnerPod) : option (string * string) :=
  if seqb (pst_Reason (rp_status pod)) "Evicted"
  then Some ("RunnerResourceExhausted", "runner Pod was evicted before build submission")
  else
    match List.find (fun s => seqb (cs_Name s) "source-fetch" &&
                              match cs_Terminated s with Some t => negb (te_ExitCode t =? 0)%Z | None => false end)
            (pst_Init (rp_status pod)) with
    | Some s => match cs_Terminated s with Some t => Some (fetchReason t, fetchMessage t) | None => None end
    | None => None
    end.

Definition podTerminated (pod : RunnerPod) : bool :=
  seqb (pst_Phase (rp_status pod)) PodFailed || seqb (pst_Phase (rp_status pod)) PodSucceeded.

(** [ctrl.SetControllerReference] on a Pod without owners. *)
Definition ownedBy (b : KovaBuild) (pod : RunnerPod) : RunnerPod :=
  let p := rp_obj pod in
  {| rp_obj := {| pod_ns := pod_ns p; pod_name := pod_name p; pod_uid := pod_uid p; pod_labels := pod_labels p;
                  pod_annotations := pod_annotations p;
                  pod_owners := pod_owners p ++ [mkOwner (Group +:+ "/" +:+ Version) "KovaBuild" (kb_name b) (kb_uid b)] |};
     rp_created := rp_created pod; rp_deleting := rp_deleting pod; rp_spec := rp_spec pod; rp_status := rp_status pod |}.

Definition with_deadline (seconds : option Z) (pod : RunnerPod) : RunnerPod :=
  match seconds with
  | None => pod
  | Some _ =>
      let s := rp_spec pod in
      {| rp_obj := rp_obj pod; rp_created := rp_created pod; rp_deleting := rp_deleting pod;
         rp_spec := mkPodSpec (ps_RestartPolicy s) (ps_Security s) (ps_Containers s) (ps_InitContainers s) (ps_Volumes s)
                      (ps_ImagePullSecrets s) (ps_NodeSelector s) seconds (ps_AutomountServiceAccountToken s)
                      (ps_EnableServiceLinks s) (ps_ServiceAccountName s) (ps_DNSPolicy s) (ps_SchedulerName s)
                      (ps_TerminationGracePeriodSeconds s) (ps_Tolerations s);
         rp_status := rp_status pod |}
  end.

Section reconcile.
Context `{External} `{PodTemplate} `{ImageName} `{ReceiptFormat}.
Context (c : Controller).
Local Notation r := (ctl_r c).
Local Notation cfg := (ctl_cfg c).

Definition finishing (newPhase reason message : string) (b : Build) : free ctl step_result :=
  returning (finish c newPhase reason message b).

(** ** Deadlines and polling *)

Definition activeRequeueAfter (b : Build) (delay : Z) : free ctl Z :=
  let delay := if (delay <=? 0)%Z then Second else delay in
  match ks_StartedAt (b_status b) with
  | Some started =>
      if (cc_MaxBuildDuration cfg <=? 0)%Z then Done delay
      else
        let+ now := fcall Clock in
        let remaining := Until now (started + cc_MaxBuildDuration cfg) in
        Done (if (remaining <? delay)%Z then Z.max remaining Millisecond else delay)
  | None => Done delay
  end.
Definition requeueActive (b : Build) (delay : Z) : free ctl step_result :=
  let+ d := activeRequeueAfter b delay in Done (Ok (requeueAfter d)).

(** The build has run out of its time. *)
Definition expired (b : Build) : free ctl bool :=
  match ks_StartedAt (b_status b) with
  | Some started =>
      if (cc_MaxBuildDuration cfg <=? 0)%Z then Done false
      else let+ now := fcall Clock in Done (negb (Since now started <? cc_MaxBuildDuration cfg)%Z)
  | None => Done false
  end.

Definition finishObservedBuild (st : BuildState) (b : Build) : free ctl step_result :=
  let '(_, success, _) := WaitDecision (st_Status st) in
  let b := on_status (fun s => set_PollFailureCount 0 (set_PollFailureSince None s)) b in
  if success then beginVerification c b
  else if seqb (st_Status st) "cancelled" then finishing PhaseCancelled "Cancelled" (st_Error st) b
  else beginFailedVerification c (st_Error st) b.

(** [expireActiveBuild]: [None] when the build has not expired. *)
Definition expireActiveBuild (b : Build) : free ctl (option step_result) :=
  let+ late := expired b in
  if negb late then Done None
  else
    let+ x :=
      match r_Genesis r with
      | Some _ => failed (Plain "Genesis expiry requires exact nonterminal runner observation before forced stop")
      | None =>
          chk+ (if sempty (kb_runnerPod (b_cr b)) then Done None
                else match validateRunnerPodStatusName b with
                | Some e => Done (Some e)
                | None =>
                    match requireUIDSafePodStop c with
                    | Some e => Done (Some e)
                    | None =>
                        let+ _ := CancelBuild b in
                        deleteRunnerAndConfirm c b
                    end
                end) else failed in
          finishing PhaseFailed "BuildTimedOut" "build exceeded the service maximum duration" b
      end in
    Done (Some x).

(** [reconcileExpiredBuild]: [None] when the build has not expired. *)
Definition reconcileExpiredBuild (b : Build) : free ctl (option step_result) :=
  let+ late := expired b in
  if negb late then Done None
  else
    let+ answer := observeBuildStatus c b in
    match r_Genesis r with
    | Some g =>
        let+ x :=
          match answer with
          | Err e => failed e
          | Ok st =>
              if seqb (st_Status st) "idle" then
                if negb (seqb (phase b) PhaseStarting)
                then failed (Plain "Genesis Running runner reported idle at expiry; accepted request outcome is uncertain")
                else stopGenesisRunner c g "BuildTimedOut" b
              else
                let '(isDone, _, decisionErr) := WaitDecision (st_Status st) in
                match decisionErr with
                | Some e => failed e
                | None => if isDone then finishObservedBuild st b else stopGenesisRunner c g "BuildTimedOut" b
                end
          end in
        Done (Some x)
    | None =>
        let settled := match answer with
                       | Ok st =>
                           if sempty (st_RequestID st) || seqb (st_RequestID st) (RequestID (b_cr b)) then
                             let '(isDone, _, decisionErr) := WaitDecision (st_Status st) in
                             if isDone && bool_decide (decisionErr = None) then Some st else None
                           else None
                       | Err _ => None
                       end in
        match settled with
        | Some st => let+ x := finishObservedBuild st b in Done (Some x)
        | None => expireActiveBuild b
        end
    end.

Definition clearPollFailure (b : Build) : free ctl (result Build) :=
  match ks_PollFailureSince (b_status b) with
  | None =>
      if (ks_PollFailureCount (b_status b) =? 0)%Z then Done (Ok b)
      else statusUpdate (on_status (fun s => set_PollFailureCount 0 (set_PollFailureSince None s)) b)
  | Some _ => statusUpdate (on_status (fun s => set_PollFailureCount 0 (set_PollFailureSince None s)) b)
  end.

(** The back-off of a failed observation; Go panics on a negative shift. *)
Definition pollDelay (count : Z) : option Z :=
  if (count - 1 <? 0)%Z then None
  else Some (Z.min (wrap64 (Z.shiftl Second (count - 1))) (10 * Second)).

Definition retryStatusObservation (observationErr : error) (b : Build) : free ctl step_result :=
  if bool_decide (is_Some (r_Genesis r)) && bool_decide (is_Some (ks_Witness (b_status b))) then failed observationErr
  else if sempty (kb_runnerPod (b_cr b)) then failed (Plain "running KovaBuild has no runner Pod name")
  else match validateRunnerPodStatusName b with
  | Some e => failed e
  | None =>
      let+ p := fcall (ReadPod (direct c) (kb_ns (b_cr b)) (kb_runnerPod (b_cr b))) in
      match p with
      | Err e =>
          if IsNotFound e then finishing PhaseFailed "RunnerUnavailable" "runner Pod disappeared while build status was unavailable" b
          else failed e
      | Ok pod =>
          if negb (podOwnedByBuild (rp_obj pod) (b_cr b)) then failed (Plain "runner Pod is not owned by KovaBuild UID")
          else if podTerminated pod then
            finishing PhaseFailed "RunnerUnavailable"
              ("runner Pod terminated while build status was unavailable: " +:+ pst_Phase (rp_status pod)) b
          else
            let+ now := fcall Clock in
            let since := default now (ks_PollFailureSince (b_status b)) in
            let b := on_status (set_PollFailureSince (Some since)) b in
            let+ now := fcall Clock in
            if (0 <? cc_PollRetryWindow cfg)%Z && (cc_PollRetryWindow cfg <=? Since now since)%Z then
              match requireUIDSafePodStop c with
              | Some e => failed e
              | None =>
                  chk+ deleteOwnedRunnerPodAndConfirm c b pod else failed in
                  finishing PhaseFailed "RunnerUnavailable" ("runner status unavailable: " +:+ Error observationErr) b
              end
            else
              let count := ks_PollFailureCount (b_status b) in
              let b := if (count <? 5)%Z then on_status (set_PollFailureCount (count + 1)) b else b in
              get+ b := statusUpdate b else failed in
              match pollDelay (ks_PollFailureCount (b_status b)) with
              | None => failed (Plain "negative shift amount")
              | Some delay =>
                  let+ delay :=
                    match ks_PollFailureSince (b_status b) with
                    | Some since =>
                        if (0 <? cc_PollRetryWindow cfg)%Z then
                          let+ now := fcall Clock in
                          let remaining := Until now (since + cc_PollRetryWindow cfg) in
                          Done (if (remaining <? delay)%Z then Z.max remaining Millisecond else delay)
                        else Done delay
                    | None => Done delay
                    end in
                  requeueActive b delay
              end
      end
  end.

(** ** Submission *)

Definition markSubmitted (st : BuildState) (b : Build) : free ctl step_result :=
  if bool_decide (is_Some (r_Genesis r)) &&
     negb match ks_Witness (b_status b) with Some w => seqb (st_RequestID st) (gw_RunnerRequestID w) | None => false end
  then failed (Plain "Genesis runner acceptance lacks exact request witness")
  else if negb (sempty (st_RequestID st)) && negb (seqb (st_RequestID st) (RequestID (b_cr b)))
  then finishing PhaseFailed "RunnerProtocolError" "runner reported a different build request" b
  else
    let '(isDone, _, decisionErr) := WaitDecision (st_Status st) in
    match decisionErr with
    | Some e => finishing PhaseFailed "RunnerProtocolError" (Error e) b
    | None =>
        if isDone then finishObservedBuild st b
        else
          let b := on_status (fun s => set_PollFailureCount 0 (set_PollFailureSince None (set_Message ""
                     (set_ObservedGeneration (b_generation b) s)))) (set_phase PhaseRunning b) in
          let+ b := setPhaseCondition PhaseRunning "BuildSubmitted" "build was submitted to the runner" b in
          get+ b := statusUpdate b else failed in
          requeueActive b (cc_PollInterval cfg)
    end.
(** The startup timings that [markSubmittedWithTimings] records are
    [runnerStartupSegments]; they only feed telemetry. *)
Definition markSubmittedWithTimings (st : BuildState) (pod : RunnerPod) (b : Build) : free ctl step_result := markSubmitted st b.

Definition observeExistingGenesisSubmission (g : Guard) (grantErr : error) (b : Build) : free ctl step_result :=
  let+ pairErr := Check g in
  match pairErr with
  | None => failed grantErr
  | Some e =>
      if negb (IsNotFound e) && negb (errors_Is e "original admission installation changed") then failed grantErr
      else
        get+ (current, pod) := directGenesisWitness c b else (fun _ => failed grantErr) in
        get+ st := observeBuildStatus c current else (fun _ => failed grantErr) in
        if seqb (st_Status st) "idle" then failed grantErr else markSubmittedWithTimings st pod current
  end.

(** Under Genesis the live grant is read again; without it only an earlier
    submission may be observed. *)
Definition withGrant (b : Build) (pod : RunnerPod) (k : Build -> RunnerPod -> free ctl step_result) : free ctl step_result :=
  match r_Genesis r with
  | None => k b pod
  | Some g =>
      let+ grant := directGenesisGrant c b in
      match grant with
      | Err e => observeExistingGenesisSubmission g e b
      | Ok (current, witnessed) => k current witnessed
      end
  end.

Definition unlessExpired (b : Build) (k : free ctl step_result) : free ctl step_result :=
  let+ x := reconcileExpiredBuild b in
  match x with Some y => Done y | None => k end.

Definition inspectFailure (e : error) (b : Build) : free ctl step_result :=
  if errors_Is e "runner response exceeds 1 MiB limit" || errors_Is e "source inspect returned invalid response"
  then finishing PhaseFailed "RunnerProtocolError" (Error e) b
  else if errors_Is e "source inspect transport failed" then retryStatusObservation e b
  else if errors_Is e "source inspect rejected invalid archive" then finishing PhaseFailed "InvalidSource" (Error e) b
  else if errors_Is e "source inspect exhausted runner resources"
  then finishing PhaseFailed "SourceInspectResourceExhausted" (Error e) b
  else finishing PhaseFailed "SourceInspectUnavailable" (Error e) b.

(** After the submission its outcome is read back. *)
Definition afterSubmit (submitErr : option error) (pod : RunnerPod) (b : Build) : free ctl step_result :=
  match r_Genesis r with
  | Some _ =>
      get+ (current, after) := directGenesisWitness c b else failed in
      if negb (samePodUID (Some pod) (Some after)) then failed (Plain "Genesis runner Pod UID changed across build submission")
      else
        let+ answer := observeBuildStatus c current in
        match answer with
        | Err e => retryStatusObservation e current
        | Ok st =>
            if seqb (st_Status st) "idle" then requeueActive current Second
            else markSubmittedWithTimings st after current
        end
  | None =>
      match submitErr with
      | None => markSubmittedWithTimings (mkBuildState "running" "" "" []) pod b
      | Some _ =>
          let+ answer := observeBuildStatus c b in
          match answer with
          | Err e =>
              if is_invalid_status e then finishing PhaseFailed "RunnerProtocolError" (Error e) b
              else retryStatusObservation e b
          | Ok st =>
              if seqb (st_Status st) "idle" then requeueActive b Second else markSubmittedWithTimings st pod b
          end
      end
  end.

Definition submit (b : Build) (pod : RunnerPod) : free ctl step_result :=
  let+ submitErr := SubmitBuild b (cc_BuildkitPlatformAddrs cfg) (cc_RegistryPlainHTTP cfg) sourcePath in
  afterSubmit submitErr pod b.

(** An idle, ready runner: inspect the source it fetched, then submit. *)
Definition inspectAndSubmit (b : Build) (pod : RunnerPod) : free ctl step_result :=
  let+ answer := SourceTargets b sourcePath in
  match answer with
  | Err e => inspectFailure e b
  | Ok sourceTargets =>
      if negb (EqualTargetSpecSets (sp_targets (kb_spec (b_cr b))) sourceTargets)
      then finishing PhaseFailed "InvalidTargets" "source targets do not exactly match requested targets" b
      else
        withGrant b pod (fun b pod =>
          unlessExpired b (
            withGrant b pod submit))
  end.

Definition runnerNotReady (b : Build) (pod : RunnerPod) : free ctl step_result :=
  match sourceFetchFailure pod with
  | Some (reason, message) => finishing PhaseFailed reason message b
  | None =>
      if podTerminated pod then
        finishing PhaseFailed "RunnerUnavailable" ("runner Pod terminated before becoming ready: " +:+ pst_Phase (rp_status pod)) b
      else
        let+ late := match ks_StartedAt (b_status b) with
                     | Some started =>
                         if (0 <? cc_WaitTimeout cfg)%Z
                         then let+ now := fcall Clock in Done (cc_WaitTimeout cfg <=? Since now started)%Z else Done false
                     | None => Done false
                     end in
        if late then finishing PhaseFailed "RunnerUnavailable" "runner Pod did not become ready within the wait timeout" b
        else requeueActive b Second
  end.

Definition submitReady (b : Build) (pod : RunnerPod) : free ctl step_result :=
  let+ answer := observeBuildStatus c b in
  match answer with
  | Err e =>
      if is_invalid_status e then finishing PhaseFailed "RunnerProtocolError" (Error e) b
      else retryStatusObservation e b
  | Ok st =>
      if negb (seqb (st_Status st) "idle") then markSubmittedWithTimings st pod b
      else if negb (SupportsIdempotentBuildRequest st)
      then finishing PhaseFailed "RunnerProtocolIncompatible" "idle runner does not advertise idempotent build submission" b
      else
        get+ b := clearPollFailure b else failed in
        withGrant b pod inspectAndSubmit
  end.

Definition emptyRunnerPod : RunnerPod := PreparePod (mkManifest "" "" "" "" "" "" "" ∅ ∅ ∅ ∅ "" "" [] noResources noResources None).

Definition submitWhenReady (b : Build) : free ctl step_result :=
  withGrant b emptyRunnerPod (fun b pod =>
    unlessExpired b (
      let ready pod := if negb (podReady pod) then runnerNotReady b pod else submitReady b pod in
      match r_Genesis r with
      | Some _ => ready pod
      | None =>
          let+ p := fcall (ReadPod (direct c) (kb_ns (b_cr b)) (kb_runnerPod (b_cr b))) in
          match p with
          | Err e =>
              if IsNotFound e then finishing PhaseFailed "RunnerUnavailable" "runner Pod disappeared before the build was submitted" b
              else failed e
          | Ok pod => ready pod
          end
      end)).

Definition pollBuild (b : Build) : free ctl step_result :=
  get+ b := witnessedBuild c b else failed in
  unlessExpired b (
    let+ answer := observeBuildStatus c b in
    match answer with
    | Err e =>
        if is_invalid_status e then finishing PhaseFailed "RunnerProtocolError" (Error e) b
        else retryStatusObservation e b
    | Ok st =>
        if negb (sempty (st_RequestID st)) && negb (seqb (st_RequestID st) (RequestID (b_cr b)))
        then finishing PhaseFailed "RunnerProtocolError" "runner reported a different build request" b
        else
          let '(isDone, _, decisionErr) := WaitDecision (st_Status st) in
          match decisionErr with
          | Some e => finishing PhaseFailed "RunnerProtocolError" (Error e) b
          | None =>
              if isDone then finishObservedBuild st b
              else
                get+ b := clearPollFailure b else failed in
                requeueActive b (cc_PollInterval cfg)
          end
    end).

(** ** Cancellation *)

Definition reconcileGenesisCancellation (g : Guard) (b : Build) : free ctl step_result :=
  let+ pairErr := Check g in
  if match pairErr with
     | Some e => negb (IsNotFound e) && negb (errors_Is e "original admission installation changed")
     | None => false
     end then failed (default CtxErr pairErr)
  else
    get+ (current, _) := directGenesisWitness c b else failed in
    chk+ match pairErr with
         | None => nilError (directGenesisCharge c (b_cr current))
         | Some _ => Done None
         end else failed in
    if seqb (phase current) PhaseVerifying then reconcileVerifying c current
    else if negb (activePhase (phase current)) then failed (Plain "Genesis cancellation has no observable active phase")
    else
      get+ st := observeBuildStatus c current else failed in
      if seqb (st_Status st) "idle" then
        if negb (seqb (phase current) PhaseStarting)
        then failed (Plain "Genesis Running runner reported idle; accepted request outcome is uncertain")
        else stopGenesisRunner c g "Cancelled" current
      else
        let '(isDone, _, decisionErr) := WaitDecision (st_Status st) in
        match decisionErr with
        | Some e => failed e
        | None =>
            if isDone then finishObservedBuild st current
            else match pairErr with
            | Some e => failed e
            | None => stopGenesisRunner c g "Cancelled" current
            end
        end.

Definition cancelBuild (b : Build) : free ctl step_result :=
  if bool_decide (is_Some (r_Genesis r)) && bool_decide (is_Some (ks_Witness (b_status b)))
  then failed (Plain "Genesis accepted runner cancellation requires exact terminal observation before stop")
  else
    chk+ fence c (b_cr b) else failed in
    match validateRunnerPodStatusName b with
    | Some e => failed e
    | None =>
        let+ _ := if bool_decide (r_Genesis r = None) && seqb (phase b) PhaseRunning && negb (sempty (kb_runnerPod (b_cr b)))
                  then CancelBuild b else Done None in
        chk+ deleteRunnerAndConfirm c b else failed in
        finishing PhaseCancelled "Cancelled" "build was cancelled" b
    end.

(** ** Cleanup *)

(** A release that failed: its recovery condition is recorded first. *)
Definition reservationFailed (e : error) (b : Build) : free ctl step_result :=
  match as_recovery e with
  | Some pending => get+ _ := markAdmissionRecovery c pending b else failed in failed e
  | None => failed e
  end.
Definition queueFailed (message : string) (e : error) (b : Build) : free ctl step_result :=
  if is_drift e then get+ _ := markAdmissionRecoveryReason c "QueueIntentDrift" message b else failed in failed e
  else failed e.

Definition release (b : KovaBuild) : free ctl (option error) := plane (OpRelease b) (releaseReservation r b).
Definition queueRelease (b : KovaBuild) : free ctl (option error) :=
  plane (OpQueueRelease b) (ReleaseForBuild (queueStoreForNamespace r (kb_ns b)) b).

(** Active capacity first, then the queue slot. *)
Definition releaseAll (b : Build) (k : free ctl step_result) : free ctl step_result :=
  chk+ release (b_cr b) else (fun e => reservationFailed e b) in
  chk+ queueRelease (b_cr b) else (fun e => queueFailed "queue intent does not match the build; release is blocked" e b) in
  k.

Definition expireTerminal (b : Build) : free ctl step_result :=
  match ks_FinishedAt (b_status b) with
  | None => Done (Ok noRequeue)
  | Some finished =>
      if (cc_JobTTL cfg <=? 0)%Z then Done (Ok noRequeue)
      else
        let+ now := fcall Clock in
        let remaining := Until now (finished + cc_JobTTL cfg) in
        if (0 <? remaining)%Z then Done (Ok (requeueAfter remaining))
        else if sempty (kb_uid (b_cr b)) then failed (Plain "refusing to delete terminal KovaBuild without a UID")
        else
          let+ e := fcall (DeleteBuild (kb_ns (b_cr b)) (kb_name (b_cr b)) (kb_uid (b_cr b))) in
          match e with
          | Some err => if IsNotFound err then Done (Ok noRequeue) else failed err
          | None => Done (Ok noRequeue)
          end
  end.

Definition reconcileTerminal (b : Build) : free ctl step_result :=
  chk+ fence c (b_cr b) else failed in
  chk+ deleteRunnerAndConfirm c b else failed in
  releaseAll b (
    get+ b := clearAdmissionRecovery b else failed in
    expireTerminal b).

Definition reconcileDelete (b : Build) : free ctl step_result :=
  let cleanup :=
    chk+ fence c (b_cr b) else failed in
    chk+ deleteRunnerAndConfirm c b else failed in
    get+ b := if isTerminalPhase (phase b) then Done (Ok b) else finish c PhaseCancelled "Deleted" "build was deleted" b else failed in
    releaseAll b (
      match RemoveFinalizer b cleanupFinalizer with
      | None => Done (Ok noRequeue)
      | Some b' =>
          let+ u := fcall (UpdateObject b') in
          match u with
          | Err e => if IsNotFound e then Done (Ok noRequeue) else failed e
          | Ok _ => Done (Ok noRequeue)
          end
      end) in
  match r_Genesis r with
  | Some g =>
      if bool_decide (is_Some (ks_Witness (b_status b))) && negb (isTerminalPhase (phase b)) then
        match ks_StopIntent (b_status b) with
        | Some _ => resumeGenesisStop c g b
        | None => stopGenesisRunner c g "Deleted" b
        end
      else cleanup
  | None => cleanup
  end.

(** ** Admission and the runner Pod *)

Definition manifestOptions (b : KovaBuild) : ManifestOptions :=
  {| mo_PodName := buildPodName (kb_name b); mo_Namespace := kb_ns b; mo_Image := cfg_RunnerImage (r_Cfg r);
     mo_ImagePullPolicy := cc_RunnerImagePullPolicy cfg; mo_ImagePullSecret := cc_RunnerImagePullSecret cfg; mo_BuildkitAddr := "";
     mo_PprofServer := ""; mo_Env := cc_RunnerEnv cfg; mo_Labels := {[buildIDLabel := kb_name b]}; mo_Annotations := ∅;
     mo_NodeSelector := cc_RunnerNodeSelector cfg; mo_SourceURI := src_uri (sp_source (kb_spec b));
     mo_SourceDigest := src_digest (sp_source (kb_spec b)); mo_RegistryPlainHTTP := cc_RegistryPlainHTTP cfg;
     mo_RunnerResources := cc_RunnerResources cfg; mo_SourceFetchResources := cc_SourceFetchResources cfg;
     mo_SourceVolumeSizeLimit := cc_SourceVolumeSizeLimit cfg |}.

(** [podDuration] in whole seconds, rounded up. *)
Definition podDeadline : option Z :=
  if (0 <? cc_MaxBuildDuration cfg)%Z then
    let d := wrap64 (cc_MaxBuildDuration cfg + verificationWindow c) in
    Some (Z.quot d Second + (if (Z.rem d Second =? 0)%Z then 0 else 1))%Z
  else None.

(** The Pod template of a build, owned by it. *)
Definition runnerPod (b : KovaBuild) : RunnerPod :=
  let pod := with_deadline podDeadline (PreparePod (manifestOptions b)) in
  ownedBy b (match r_Genesis r with Some _ => prepareGenesisPodDefaults pod | None => pod end).

Definition complete (b : KovaBuild) (attempt : string) : free ctl (option error) :=
  plane (OpCompletePod b attempt) (completePodCreate r b attempt).

(** An owned Pod that a previous reconcile created. *)
Definition adoptPod (b : KovaBuild) (owned : RunnerPod) : free ctl (option error) :=
  chk+ match r_Genesis r with
       | Some _ =>
           chk+ qualifyGenesisPod c b (Some owned) false else (fun e => Done (Some e)) in
           Done (error_of (witnessFromPod c b (Some owned)))
       | None => Done None
       end else (fun e => Done (Some e)) in
  completeObserved c b owned.

(** The outcome of a Create: the Pod exists, or the step ends here. *)
Inductive created := Created | Ends (x : step_result).

Definition ended (p : free ctl step_result) : free ctl created := let+ x := p in Done (Ends x).
Definition endsErr (e : error) : free ctl created := Done (Ends (Err e)).

Definition createRejected (e : error) (attempt : string) (b : Build) : free ctl created :=
  if definitivePodCreateRejection e then
    chk+ complete (b_cr b) attempt else endsErr in
    ended (finishing PhaseFailed "RunnerCreateRejected" (Error e) b)
  else ended (finishing PhaseFailed "RunnerCreateOutcomeUnknown" (Error e) b).

Definition createWon (attempt : string) (b : KovaBuild) : free ctl created :=
  get+ owned := getOwnedRunnerPod c b else endsErr in
  match owned with
  | None => endsErr (Plain "runner Pod disappeared after AlreadyExists")
  | Some pod =>
      chk+ match r_Genesis r with
           | Some _ =>
               chk+ qualifyGenesisPod c b (Some pod) false else (fun e => Done (Some e)) in
               Done (match witnessFromPod c b (Some pod) with
                     | Err e => Some e
                     | Ok _ => if negb (seqb (rp_annotation pod podCreateAttemptKey) attempt)
                               then Some (Plain "Genesis runner Pod Create was won by another attempt") else None
                     end)
           | None => Done None
           end else endsErr in
      chk+ complete b attempt else endsErr in
      chk+ completeObserved c b pod else endsErr in
      Done Created
  end.

Definition createPod (b : Build) : free ctl created :=
  let+ begun := plane (OpBeginPod (b_cr b)) (beginPodCreate r (b_cr b)) in
  match begun with
  | Err e =>
      if is_admission_closed e || IsNotFound e then Done (Ends (Ok requeueNow))
      else match as_recovery e with
      | Some pending => get+ _ := markAdmissionRecovery c pending b else endsErr in endsErr e
      | None => endsErr e
      end
  | Ok attempt =>
      get+ pod := stampGenesisPod c (b_cr b) (annotate podCreateAttemptKey attempt (runnerPod (b_cr b))) attempt else endsErr in
      get+ pod := match r_Genesis r with
                  | Some g => finishFreshPodAttempt c g (b_cr b) pod attempt
                  | None => Done (Ok pod)
                  end else endsErr in
      let+ outcome := fcall (CreatePod pod) in
      match outcome with
      | Some e => if IsAlreadyExists e then createWon attempt (b_cr b) else createRejected e attempt b
      | None =>
          chk+ match r_Genesis r with
               | Some _ =>
                   get+ observed := getOwnedRunnerPod c (b_cr b) else (fun e => Done (Some e)) in
                   qualifyGenesisPod c (b_cr b) observed false
               | None => Done None
               end else endsErr in
          chk+ complete (b_cr b) attempt else endsErr in
          Done Created
      end
  end.

(** The runner exists: Starting is recorded, under Genesis with its witness. *)
Definition markStarting (allocation : Z) (b : Build) : free ctl step_result :=
  let+ now := fcall Clock in
  let b := on_status (set_ObservedGeneration (b_generation b))
             (set_runner (to_int32 allocation) (buildPodName (kb_name (b_cr b))) (set_phase PhaseStarting b)) in
  get+ b := match r_Genesis r with
            | Some _ =>
                get+ observed := getOwnedRunnerPod c (b_cr b) else (fun e => Done (Err e)) in
                chk+ qualifyGenesisPod c (b_cr b) observed false else (fun e => Done (Err e)) in
                match witnessFromPod c (b_cr b) observed with
                | Err e => Done (Err e)
                | Ok w => Done (Ok (on_status (set_Witness (Some w)) b))
                end
            | None => Done (Ok b)
            end else failed in
  let b := on_status (fun s => set_Conditions (fst (RemoveStatusCondition admissionRecoveryCondition (ks_Conditions s)))
             (set_Message "" (set_StartedAt (Some now) s))) b in
  let+ b := setPhaseCondition PhaseStarting "RunnerCreated" "runner Pod was created" b in
  chk+ match r_Genesis r with Some g => Check g | None => Done None end else failed in
  get+ _ := statusUpdate b else failed in
  Done (Ok (requeueAfter Second)).

Definition waitForCapacity (message : string) (b : Build) : free ctl step_result :=
  let b1 := on_status (fun s => set_Conditions (fst (RemoveStatusCondition admissionRecoveryCondition (ks_Conditions s))) s)
              (set_phase PhaseQueued b) in
  let+ b2 := setPhaseCondition PhaseQueued "WaitingForCapacity" message b1 in
  let b3 := on_status (set_ObservedGeneration (b_generation b2)) b2 in
  if bool_decide (kb_phase (b_cr b3) = kb_phase (b_cr b) /\ b_status b3 = b_status b) then Done (Ok noRequeue)
  else get+ _ := statusUpdate b3 else failed in Done (Ok noRequeue).

Definition startRunner (allocation : Z) (b : Build) : free ctl step_result :=
  let k :=
    if negb (ctl_scheme c) then finishing PhaseFailed "RunnerCreateFailed" "no kind is registered for the owner" b
    else
      get+ owned := getOwnedRunnerPod c (b_cr b) else failed in
      let+ made := match owned with
                   | Some pod =>
                       let+ e := adoptPod (b_cr b) pod in
                       Done (match e with Some e => Ends (Err e) | None => Created end)
                   | None => createPod b
                   end in
      match made with
      | Ends x => Done x
      | Created => markStarting allocation b
      end in
  match r_Genesis r with
  | None =>
      chk+ queueRelease (b_cr b) else (fun e => queueFailed "queue intent does not match the build; release is blocked" e b) in k
  | Some _ => k
  end.

Definition startBuild (b : Build) : free ctl step_result :=
  if sempty (cfg_RunnerImage (r_Cfg r)) then finishing PhaseFailed "ConfigurationInvalid" "runner image is required" b
  else
    get+ current := fcall (ReadBuild (direct c) (kb_ns (b_cr b)) (kb_name (b_cr b))) else failed in
    if negb (seqb (kb_uid (b_cr current)) (kb_uid (b_cr b))) || kb_deleting (b_cr current) || cancellationRequested (b_cr current) ||
       negb (queuedPhase (phase current))
    then Done (Ok requeueNow)
    else
      let b := current in
      let+ decided := plane (OpAdmission (b_cr b)) (admission r (b_cr b)) in
      match decided with
      | Err e =>
          if is_admission_closed e || IsNotFound e then Done (Ok requeueNow)
          else queueFailed "queue intent does not match the build; active admission is blocked" e b
      | Ok decision =>
          if ad_Deferred decision then Done (Ok noRequeue)
          else if negb (ad_Admitted decision) then waitForCapacity (ad_Message decision) b
          else startRunner (ad_Allocation decision) b
      end.

(** ** [Reconcile] *)

Definition reconcileQueued (b : Build) : free ctl step_result :=
  chk+ match r_Genesis r with Some g => Check g | None => Done None end else failed in
  let cr := b_cr b in
  let targets := sp_targets (kb_spec cr) in
  match NormalizeTargetSpecs targets with
  | Err e => finishing PhaseFailed "InvalidTargets" (Error e) b
  | Ok _ =>
      match ValidateConcurrency (requestedConcurrency cr) (Z.of_nat (List.length targets)) with
      | Some e => finishing PhaseFailed "InvalidTargets" (Error e) b
      | None =>
          match List.find (fun t => bool_decide (cc_BuildkitPlatformAddrs cfg !! tg_platform t = None)) targets with
          | Some t =>
              finishing PhaseFailed "WorkerPlatformUnavailable"
                ("no BuildKit worker pool is configured for platform " +:+ tg_platform t) b
          | None => startBuild b
          end
      end
  end.

Definition reconcilePhase (b : Build) : free ctl step_result :=
  let p := phase b in
  if isTerminalPhase p then reconcileTerminal b
  else if queuedPhase p then reconcileQueued b
  else if seqb p PhaseStarting then submitWhenReady b
  else if seqb p PhaseRunning then pollBuild b
  else if seqb p PhaseVerifying then reconcileVerifying c b
  else if seqb p PhaseFailedVerifying then reconcileFailedVerifying c b
  else Done (Ok (requeueAfter (cc_PollInterval cfg))).

Definition reconcileCancellation (b : Build) : free ctl step_result :=
  match r_Genesis r with
  | Some g =>
      if bool_decide (is_Some (ks_Witness (b_status b))) && (activePhase (phase b) || seqb (phase b) PhaseVerifying)
      then reconcileGenesisCancellation g b else cancelBuild b
  | None => cancelBuild b
  end.

Definition reconcileLive (b : Build) : free ctl step_result :=
  let live :=
    if cancellationRequested (b_cr b) && negb (isTerminalPhase (phase b)) && negb (seqb (phase b) PhaseFailedVerifying)
    then reconcileCancellation b else reconcilePhase b in
  match r_Genesis r with
  | Some g =>
      if bool_decide (is_Some (ks_StopIntent (b_status b))) && negb (isTerminalPhase (phase b)) then resumeGenesisStop c g b
      else live
  | None => live
  end.

Definition Reconcile (ns name : string) : free ctl step_result :=
  let+ got := fcall (ReadBuild false ns name) in
  match got with
  | Err e => if IsNotFound e then Done (Ok noRequeue) else failed e
  | Ok b =>
      if IsInertBuildTombstone (b_cr b) then Done (Ok noRequeue)
      else if kb_deleting (b_cr b) then reconcileDelete b
      else match AddFinalizer b cleanupFinalizer with
      | Some b' =>
          chk+ match r_Genesis r with Some g => Check g | None => Done None end else failed in
          get+ _ := fcall (UpdateObject b') else failed in
          Done (Ok requeueNow)
      | None => reconcileLive b
      end
  end.
End reconcile.
