(* ===== verification/ControllerSpec.v ===== *)
(** * What the build controller may request, and when

    The guard of the controller's requests: a status write is a lawful step from
    the phase of the version it replaces, a success carries verified results, a Pod is deleted only
    when it is the exact Pod of a build that was read, capacity is given up only
    for a build whose runner was fenced and then seen to be gone, the finalizer
    goes last, a Pod is created only for a recorded attempt of an admitted build,
    and work is submitted only under a grant read just before. *)
From S2P Require Import Prelude Free GoText Types Kube Contract Genesis QueueLedger QueueOps ActiveLedger FairQueue ActiveOps GrantOps BuildContract Manifest BuildStatus BuildResult ControlPlane RunnerExec RunnerWitness BuildController Lifecycle Reconcile.

Notation history := (list (exchange ctl)).

(** ** Phases *)

(** The steps a build may take; a phase may always be written again. *)
Definition phase_step (p q : string) : bool :=
  seqb p q ||
  if isTerminalPhase p then false
  else if seqb q PhaseFailed || seqb q PhaseCancelled then true
  else if queuedPhase p then seqb q PhaseQueued || seqb q PhaseStarting
  else if seqb p PhaseStarting then seqb q PhaseRunning || seqb q PhaseVerifying || seqb q PhaseFailedVerifying
  else if seqb p PhaseRunning then seqb q PhaseVerifying || seqb q PhaseFailedVerifying
  else seqb p PhaseVerifying && seqb q PhaseSucceeded.

(** ** Facts of a history *)

Definition uid (b : Build) : string := kb_uid (b_cr b).
Definition ident (cr : KovaBuild) : string * string * string := (kb_ns cr, kb_name cr, kb_uid cr).

Definition reads (h : history) (b : Build) : Prop := exists d ns n, asked (ReadBuild d ns n) (Ok b) ∈ h.
Definition sawPod (h : history) (pod : RunnerPod) : Prop := exists d ns n, asked (ReadPod d ns n) (Ok pod) ∈ h.
Definition wrote (h : history) (b : Build) (rv : string) : Prop := asked (UpdateStatus b) (Ok rv) ∈ h.
Definition planeDone (h : history) (op : plane_op) : Prop := exists p : prog (option error), asked (Plane op p) None ∈ h.
Definition ledgerRead (h : history) (s : reservationState) : Prop :=
  exists ns cm (p : prog (result (ConfigMap * reservationState))), asked (Plane (OpReadLedger ns) p) (Ok (cm, s)) ∈ h.
(** The Pod name of [cr] was read and is free. *)
Definition podGone (h : history) (cr : KovaBuild) : Prop :=
  exists d e, asked (ReadPod d (kb_ns cr) (buildPodName (kb_name cr))) (Err e) ∈ h /\ IsNotFound e = true.
Definition charge (h : history) (cr : KovaBuild) (entry : activeReservation) : Prop :=
  exists s, ledgerRead h s /\ active s !! reservationKey cr = Some entry.

(** All outputs of a build are verified and recorded. *)
Definition verified `{ImageName} (b : Build) : Prop :=
  VerificationDone (ks_VerificationResults (b_status b)) = (true, false) /\ validVerificationResults b = true /\
  ks_Outputs (b_status b) = VerificationOutputs (ks_VerificationResults (b_status b)).

Section guard.
Context `{External} `{PodTemplate} `{ImageName} `{ReceiptFormat}.
Context (c : Controller).
Local Notation r := (ctl_r c).

(** The version of the object that a write of [b] replaces (its resource version)
    is one that was read in phase [p], or one that an earlier write of the same
    reconcile, of phase [p], returned. *)
Definition replaces (h : history) (b : Build) (p : string) : Prop :=
  (exists b0, reads h b0 /\ uid b0 = uid b /\ kb_rv (b_cr b0) = kb_rv (b_cr b) /\ phase b0 = p) \/
  (exists b', wrote h b' (kb_rv (b_cr b)) /\ uid b' = uid b /\ phase b' = p).

(** Without Genesis a write is a step from the phase of the version it replaces;
    under Genesis from the phase of some read of the same build. *)
Definition lawfulStep (h : history) (b : Build) : Prop :=
  (r_Genesis r = None -> exists p, replaces h b p /\ phase_step p (phase b) = true) /\
  (r_Genesis r <> None -> exists b0, reads h b0 /\ uid b0 = uid b /\ phase_step (phase b0) (phase b) = true).

Definition lawfulWrite (h : history) (b : Build) : Prop :=
  lawfulStep h b /\
  (phase b = PhaseSucceeded -> (exists b0, reads h b0 /\ uid b0 = uid b /\ phase b0 = PhaseSucceeded) \/ verified b).

Definition cleanupReady (h : history) (cr : KovaBuild) : Prop :=
  exists h1 h2 cr', h = h1 ++ h2 /\ ident cr' = ident cr /\ planeDone h1 (OpFence cr') /\ podGone h2 cr.
Definition terminalKnown (h : history) (cr : KovaBuild) : Prop :=
  exists b, uid b = kb_uid cr /\ isTerminalPhase (phase b) = true /\ (reads h b \/ exists rv, wrote h b rv).
Definition released (h : history) (cr : KovaBuild) : Prop :=
  exists cr', ident cr' = ident cr /\ planeDone h (OpRelease cr') /\ planeDone h (OpQueueRelease cr').

Definition deletable (h : history) (ns name u : string) : Prop :=
  exists pod b, reads h b /\ sawPod h pod /\ exactPod (b_cr b) pod = true /\
    pod_ns (rp_obj pod) = ns /\ pod_name (rp_obj pod) = name /\ pod_uid (rp_obj pod) = u /\ u <> "" /\
    (r_Genesis r <> None ->
     (isTerminalPhase (phase b) = true \/ validGenesisStopIntent b = true) /\
     (exists entry, charge h (b_cr b) entry /\ ar_Closing entry = true) /\ planeDone h (OpVerifyPod (b_cr b))).

Definition creatable (h : history) (pod : RunnerPod) : Prop :=
  exists cr attempt (p : prog (result string)) (q : prog (result admissionDecision)) decision,
    asked (Plane (OpAdmission cr) q) (Ok decision) ∈ h /\ ad_Admitted decision = true /\
    asked (Plane (OpBeginPod cr) p) (Ok attempt) ∈ h /\ podGone h cr /\ exactPod cr pod = true /\
    rp_annotation pod podCreateAttemptKey = attempt /\
    (r_Genesis r <> None -> planeDone h (OpIssuePod cr attempt)).

Definition is_submit (command : list string) : bool :=
  bool_decide (take 6 command = ["kovad"; "transport"; "--method"; "POST"; "--path"; BuildPath]).
(** The live grant, read completely, ending with the check of the original pair. *)
Definition granted (h : history) (command : list string) : Prop :=
  exists h0 (p : prog (option error)) b w entry,
    h = h0 ++ [asked (Plane OpCheck p) None] /\ reads h0 b /\ phase b = PhaseStarting /\
    cancellationRequested (b_cr b) = false /\ kb_deleting (b_cr b) = false /\ ks_Witness (b_status b) = Some w /\
    charge h0 (b_cr b) entry /\ ar_Closing entry = false /\ inFlight entry = false /\
    planeDone h0 (OpVerifyGrant (b_cr b)) /\ planeDone h0 (OpVerifyPod (b_cr b)) /\
    (gw_PodUID w <> "" /\ exists l, command = l ++ ["--expected-pod-uid"; gw_PodUID w]).

Definition guard (h : history) (X : Type) (e : ctl X) : Prop :=
  match e with
  | UpdateStatus b => lawfulWrite h b
  | UpdateObject b => cleanupFinalizer ∈ kb_finalizers (b_cr b) \/ released h (b_cr b)
  | DeletePod ns name u => deletable h ns name u
  | CreatePod pod => creatable h pod
  | Plane (OpRelease cr) _ => cleanupReady h cr /\ terminalKnown h cr
  | Exec _ _ command => is_submit command = true -> r_Genesis r <> None -> granted h command
  | _ => True
  end.

(** A read answers with the object it asked for. *)
Definition honest (X : Type) (e : ctl X) : X -> Prop :=
  match e in ctl X return X -> Prop with
  | ReadBuild _ ns n => fun x => match x with Ok b => kb_ns (b_cr b) = ns /\ kb_name (b_cr b) = n | Err _ => True end
  | ReadPod _ ns n => fun x => match x with Ok p => pod_ns (rp_obj p) = ns /\ pod_name (rp_obj p) = n | Err _ => True end
  | _ => fun _ => True
  end.
End guard.

Notation sf c h p Q := (safe (guard c) honest h p Q).
