(* ===== verification/ReceiptFacts.v ===== *)
(** * Push receipts

    What collecting and verifying receipts may change of a result: never which
    output it is about, and a success always has a pushed digest.  The workers of
    [VerifyReceipts] may judge their outputs in any order. *)
From S2P Require Import Prelude Free Types Kube ActiveLedger BuildContract BuildStatus BuildResult ControlPlane RunnerWitness BuildController.

(** ** Results of the same outputs *)

Definition receiptOk (v : BuildVerificationResult) : bool :=
  (seqb (vr_State v) "pending" || seqb (vr_State v) "succeeded" || seqb (vr_State v) "failed") &&
  negb (seqb (vr_State v) "succeeded" && sempty (vr_PushedDigest v)).

Definition follows_up (v v' : BuildVerificationResult) : Prop :=
  vr_Format v' = vr_Format v /\ vr_Image v' = vr_Image v /\ vr_Platform v' = vr_Platform v /\
  (receiptOk v = true -> receiptOk v' = true).
Definition evolves : relation (list BuildVerificationResult) := Forall2 follows_up.

#[export] Instance follows_up_refl : Reflexive follows_up.
Proof. by repeat split. Qed.
#[export] Instance follows_up_trans : Transitive follows_up.
Proof. intros a b c' (? & ? & ? & ?) (? & ? & ? & ?). split_and!; [congruence..|auto]. Qed.

Lemma evolves_refl l : evolves l l.
Proof. apply reflexivity. Qed.
Lemma evolves_trans l1 l2 l3 : evolves l1 l2 -> evolves l2 l3 -> evolves l1 l3.
Proof. apply transitivity. Qed.
Lemma evolves_map f l : (forall v, follows_up v (f v)) -> evolves l (List.map f l).
Proof. intros Hf. apply Forall2_fmap_r, Forall_Forall2_diag, Forall_forall. intros v _. apply Hf. Qed.
Lemma evolves_insert i v v' l : l !! i = Some v -> follows_up v v' -> evolves l (<[i := v']> l).
Proof.
  intros Hi Hv. rewrite <- (list_insert_id l i v) at 1; [|done]. apply Forall2_insert; [apply evolves_refl|done].
Qed.

Lemma settle_failed m v : follows_up v (settle "failed" m v).
Proof. by repeat split. Qed.
Lemma settle_same m v : follows_up v (settle (vr_State v) m v).
Proof. by repeat split. Qed.

Lemma bound_evolves l : evolves l (boundVerificationErrors l).
Proof. apply evolves_map. intros v. apply settle_same. Qed.

Lemma awaiting_evolves format f l : (forall v, awaiting format v = true -> follows_up v (f v)) -> evolves l (on_awaiting format f l).
Proof. intros Hf. apply evolves_map. intros v. destruct (awaiting format v) eqn:E; [by apply Hf|done]. Qed.

Section receipts.
Context `{ReceiptFormat}.
Lemma receiptOf_evolves format entries v : awaiting format v = true -> follows_up v (receiptOf entries v).
Proof.
  unfold receiptOf. intros Ha. repeat case_match; try apply settle_failed; repeat split; simpl; try done.
  unfold awaiting, is_pending in Ha. unfold receiptOk. simpl. bool_simpl.
  match goal with Hs : vr_State v = _ |- _ => by rewrite Hs end.
Qed.
End receipts.

Lemma verdict_evolves v answer : vr_PushedDigest v <> "" -> follows_up v (verdict v answer).1.1.
Proof.
  intros Hd. unfold verdict. repeat case_match; simpl; try done; try apply settle_failed.
  repeat split. unfold receiptOk, sempty. intros _. simpl. by rewrite bool_decide_false.
Qed.
Lemma verdict_digest v answer : vr_PushedDigest (verdict v answer).1.1 = vr_PushedDigest v.
Proof. unfold verdict. by repeat case_match. Qed.

(** The verification state of a build survives. *)
Definition expectedResult (e : Result) (v : BuildVerificationResult) : bool :=
  seqb (vr_Format v) (re_Format e) && seqb (vr_Image v) (re_Repository e) && seqb (vr_Platform v) (re_Platform e) &&
  (seqb (vr_State v) "pending" || seqb (vr_State v) "succeeded" || seqb (vr_State v) "failed") &&
  negb (seqb (vr_State v) "succeeded" && sempty (vr_PushedDigest v)).

Lemma expectedResult_ok e v :
  expectedResult e v = seqb (vr_Format v) (re_Format e) && seqb (vr_Image v) (re_Repository e) && seqb (vr_Platform v) (re_Platform e) && receiptOk v.
Proof. unfold expectedResult, receiptOk. by rewrite !andb_assoc. Qed.

Lemma expected_evolves l l' : evolves l l' -> forall es,
  forallb (fun er => let '(e, v) := er in expectedResult e v) (zip es l) = true ->
  forallb (fun er => let '(e, v) := er in expectedResult e v) (zip es l') = true.
Proof.
  induction 1 as [|v v' l l' (Hf & Hi & Hp & Ho) _ IH]; intros [|e es]; [done..|]. simpl. rewrite !andb_true_iff, !expectedResult_ok.
  intros [Hv Hr]. split; [|by apply IH]. rewrite Hf, Hi, Hp. rewrite andb_true_iff in Hv |- *. naive_solver.
Qed.

Lemma valid_evolves `{ImageName} b b' :
  kb_spec (b_cr b') = kb_spec (b_cr b) -> evolves (ks_VerificationResults (b_status b)) (ks_VerificationResults (b_status b')) ->
  validVerificationResults b = true -> validVerificationResults b' = true.
Proof.
  unfold validVerificationResults. intros Hs He. assert (Pending (b_cr b') = Pending (b_cr b)) as -> by (unfold Pending; by rewrite Hs).
  rewrite (Forall2_length _ _ _ He), !andb_true_iff. intros [Hl Hv]. split; [done|]. by eapply expected_evolves.
Qed.

(** ** Any order of the workers *)

(** The answers of the registry, taken by the workers in the order of [jobs]. *)
Definition judgeAll (jobs : list (nat * result (string * string))) (st : receiptState) : receiptState :=
  fold_left (fun st job => judge (fst job) (snd job) st) jobs st.

Lemma judge_comm i j x y st : i <> j -> judge i x (judge j y st) = judge j y (judge i x st).
Proof.
  intros Hij. destruct st as [[l t] f]. unfold judge.
  destruct (l !! i) as [vi|] eqn:Ei, (l !! j) as [vj|] eqn:Ej; try by rewrite ?Ei, ?Ej.
  - destruct (verdict vi x) as [[vi' ti] fi] eqn:Ex, (verdict vj y) as [[vj' tj] fj] eqn:Ey.
    rewrite !list_lookup_insert_ne, Ei, Ej by done. rewrite Ex, Ey. f_equal; [f_equal|].
    + by apply list_insert_insert_ne.
    + by rewrite <- !orb_assoc, (orb_comm ti).
    + by rewrite <- !orb_assoc, (orb_comm fi).
  - destruct (verdict vi x) as [[vi' ti] fi] eqn:Ex. by rewrite ?list_lookup_insert_ne, ?Ej, ?Ei, ?Ex by done.
  - destruct (verdict vj y) as [[vj' tj] fj] eqn:Ey. by rewrite ?list_lookup_insert_ne, ?Ei, ?Ej, ?Ey by done.
Qed.

Lemma judgeAll_perm jobs jobs' st : NoDup (fst <$> jobs) -> jobs ≡ₚ jobs' -> judgeAll jobs st = judgeAll jobs' st.
Proof.
  intros Hn Hp. revert st Hn. induction Hp as [|x l l' Hp IH|x y l|l1 l2 l3 Hp1 IH1 Hp2 IH2]; intros st Hn; simpl in *.
  - done.
  - apply NoDup_cons in Hn as [_ Hn]. apply (IH (judge (fst x) (snd x) st) Hn).
  - apply NoDup_cons in Hn as [Hx _]. unfold judgeAll. simpl. rewrite judge_comm; [done|]. intros E. apply Hx. rewrite E. by left.
  - rewrite IH1 by done. apply IH2. by rewrite <- Hp1.
Qed.

Lemma checkIndices_NoDup n l : NoDup (checkIndices n l).
Proof.
  unfold checkIndices. eapply sublist_NoDup; [|apply sublist_take].
  apply (sublist_NoDup _ (fst <$> zip (seq 0 (List.length l)) l)).
  - rewrite fst_zip by (by rewrite length_seq). apply NoDup_seq.
  - apply (fmap_sublist fst). induction (zip _ l) as [|x q IH]; [done|]. simpl. case_match; by constructor.
Qed.

(** What a worker asks about an output does not change while others are judged. *)
Definition sameQuestions (l l' : list BuildVerificationResult) : Prop :=
  forall i, (fun v => (vr_Image v, vr_PushedDigest v)) <$> l' !! i = (fun v => (vr_Image v, vr_PushedDigest v)) <$> l !! i.
Lemma judge_questions i x st : sameQuestions st.1.1 (judge i x st).1.1.
Proof.
  destruct st as [[l t] f]. intros j. unfold judge. simpl. destruct (l !! i) as [v|] eqn:E; [|done].
  destruct (verdict v x) as [[v' t'] f'] eqn:Ev. simpl. destruct (decide (i = j)) as [<-|Hne].
  - rewrite list_lookup_insert_eq by (by eapply lookup_lt_Some). rewrite E. simpl.
    pose proof (verdict_digest v x) as Hd. rewrite Ev in Hd. simpl in Hd. rewrite Hd.
    unfold verdict in Ev. repeat case_match; by simplify_eq/=.
  - by rewrite list_lookup_insert_ne.
Qed.

Definition asksAbout (results : list BuildVerificationResult) (job : nat * result (string * string)) (e : exchange ctl) : Prop :=
  exists v, results !! fst job = Some v /\ e = asked (Registry (vr_Image v) (vr_PushedDigest v)) (snd job).

Lemma verifyIndices_runs results idx st tr x :
  sameQuestions results st.1.1 -> Forall (fun i => is_Some (results !! i)) idx ->
  fruns (verifyIndices remoteRegistry idx st) tr x ->
  exists jobs, fst <$> jobs = idx /\ Forall2 (asksAbout results) jobs tr /\ x = judgeAll jobs st.
Proof.
  revert st tr. induction idx as [|i idx IH]; intros st tr Hq Hi; simpl.
  { intros [-> ->]. by exists []. }
  inversion Hi as [|? ? [v Hv] Hi']; subst. pose proof (Hq i) as Hqi. rewrite Hv in Hqi. simpl in Hqi.
  destruct (st.1.1 !! i) as [w|] eqn:Ew; [|done]. simplify_eq/=. intros (a & tr' & -> & Hr).
  destruct (IH (judge i a st) tr') as (jobs & <- & Hf & ->); [|done|done|].
  { intros j. rewrite judge_questions. apply Hq. }
  exists ((i, a) :: jobs). split; [done|]. split; [|done]. constructor; [|done]. exists v. simpl. split; [done|]. congruence.
Qed.

Lemma checkIndices_valid n l : Forall (fun i => exists v, l !! i = Some v /\ checkable v = true) (checkIndices n l).
Proof.
  unfold checkIndices. apply Forall_take, Forall_forall. intros i Hi. apply list_elem_of_In, in_map_iff in Hi as ((k & v) & <- & Hin).
  apply filter_In in Hin as [Hin Hc]. exists v. split; [|done]. apply list_elem_of_In, list_elem_of_lookup in Hin as [m Hm].
  apply lookup_zip_Some in Hm as [Hk Hv]. apply lookup_seq in Hk as [-> _]. done.
Qed.

Definition verified_of (st : receiptState) : list BuildVerificationResult * string * bool :=
  let '(l, transient, failed) := st in (l, if transient then "registry manifest verification unavailable" else "", failed).

(** C23: up to four workers judge the checkable outputs concurrently: whatever the
    order in which they finish, the requests, the results and the flags are the
    ones [VerifyReceipts] returns. *)
Theorem receipts_any_order results n tr x :
  fruns (VerifyReceipts remoteRegistry results n) tr x ->
  exists jobs : list (nat * result (string * string)), fst <$> jobs = checkIndices n results /\ Forall2 (asksAbout results) jobs tr /\
    forall jobs', jobs' ≡ₚ jobs -> x = verified_of (judgeAll jobs' (results, false, false)).
Proof.
  unfold VerifyReceipts. intros Hr. apply fruns_bind in Hr as (t1 & st & t2 & -> & Hr1 & Hr2).
  edestruct (verifyIndices_runs results) as (jobs & Hj & Hf & Hst); [| |exact Hr1|].
  { done. }
  { eapply Forall_impl; [apply checkIndices_valid|]. intros i (v & Hv & _). by exists v. }
  subst st. exists jobs. destruct (judgeAll jobs (results, false, false)) as [[l t] f] eqn:E. destruct Hr2 as [-> ->]. rewrite app_nil_r.
  split_and!; [done..|]. intros jobs' Hp. rewrite (judgeAll_perm jobs' jobs), E; [done| |done].
  rewrite Hp, Hj. apply checkIndices_NoDup.
Qed.
