(* ===== verification/ControllerFacts.v ===== *)
(** * The controller's steps respect the guard: shared parts

    Facts of histories are monotone; [Tracks h p0 b] says that [b] may be written as
    it is and that a step from the phase [p0] may be written: without Genesis [p0] is
    the phase of exactly the version that [b] replaces, under Genesis that of some read
    of the build.  Each operation of the status, witness and stop files gets its
    specification here. *)
From S2P Require Import Prelude Free GoText Types Kube Contract Genesis QueueReceipt Effects QueueLedger QueueOps ActiveLedger FairQueue ActiveOps GrantOps BuildContract Manifest BuildStatus BuildResult ControlPlane RunnerExec RunnerWitness BuildController Lifecycle Reconcile ControllerSpec.

Create HintDb ctl.
#[global] Arguments fbind : simpl never.
#[global] Arguments fcall : simpl never.
#[global] Arguments truncate : simpl never.

(** ** Histories grow *)

Section mono.
Context (h t : history).

Lemma ctl_reads_app b : reads h b -> reads (h ++ t) b.
Proof. intros (d & ns & n & Hin). exists d, ns, n. apply elem_of_app. by left. Qed.
Lemma sawPod_app p : sawPod h p -> sawPod (h ++ t) p.
Proof. intros (d & ns & n & Hin). exists d, ns, n. apply elem_of_app. by left. Qed.
Lemma wrote_app b rv : wrote h b rv -> wrote (h ++ t) b rv.
Proof. intros Hin. apply elem_of_app. by left. Qed.
Lemma planeDone_app op : planeDone h op -> planeDone (h ++ t) op.
Proof. intros [p Hin]. exists p. apply elem_of_app. by left. Qed.
Lemma ledgerRead_app s : ledgerRead h s -> ledgerRead (h ++ t) s.
Proof. intros (ns & cm & p & Hin). exists ns, cm, p. apply elem_of_app. by left. Qed.
Lemma podGone_app cr : podGone h cr -> podGone (h ++ t) cr.
Proof. intros (d & e & Hin & He). exists d, e. split; [|done]. apply elem_of_app. by left. Qed.
Lemma podGone_app_r cr : podGone t cr -> podGone (h ++ t) cr.
Proof. intros (d & e & Hin & He). exists d, e. split; [|done]. apply elem_of_app. by right. Qed.
Lemma charge_app cr e : charge h cr e -> charge (h ++ t) cr e.
Proof. intros (s & Hl & He). exists s. split; [by apply ledgerRead_app|done]. Qed.
Lemma asked_app x : x ∈ h -> x ∈ h ++ t.
Proof. intros. apply elem_of_app. by left. Qed.
Lemma asked_last x : x ∈ h ++ [x].
Proof. apply elem_of_app. right. by left. Qed.
Lemma reads_last d ns n b : reads (h ++ [asked (ReadBuild d ns n) (Ok b)]) b.
Proof. exists d, ns, n. apply asked_last. Qed.
Lemma sawPod_last d ns n p : sawPod (h ++ [asked (ReadPod d ns n) (Ok p)]) p.
Proof. exists d, ns, n. apply asked_last. Qed.
Lemma planeDone_last op (p : prog (option error)) : planeDone (h ++ [asked (Plane op p) None]) op.
Proof. exists p. apply asked_last. Qed.
Lemma wrote_last b rv : wrote (h ++ [asked (UpdateStatus b) (Ok rv)]) b rv.
Proof. apply asked_last. Qed.
Lemma podGone_last d cr e : IsNotFound e = true -> podGone (h ++ [asked (ReadPod d (kb_ns cr) (buildPodName (kb_name cr))) (Err e)]) cr.
Proof. exists d, e. split; [apply asked_last|done]. Qed.
Lemma ledgerRead_last ns (p : prog (result (ConfigMap * reservationState))) cm s : ledgerRead (h ++ [asked (Plane (OpReadLedger ns) p) (Ok (cm, s))]) s.
Proof. exists ns, cm, p. apply asked_last. Qed.
End mono.

#[export] Hint Resolve asked_last asked_app ctl_reads_app sawPod_app wrote_app planeDone_app ledgerRead_app podGone_app podGone_app_r charge_app
  reads_last sawPod_last planeDone_last wrote_last podGone_last ledgerRead_last : ctl.

Lemma phase_step_refl p : phase_step p p = true.
Proof. unfold phase_step, seqb. by rewrite bool_decide_true. Qed.
#[export] Hint Resolve phase_step_refl : ctl.

Section facts.
Context `{External} `{PodTemplate} `{ImageName} `{ReceiptFormat}.
Context (c : Controller).
Local Notation r := (ctl_r c).
Local Notation sf := (safe (guard c) honest).

Lemma replaces_app h t b p : replaces h b p -> replaces (h ++ t) b p.
Proof.
  intros [(b0 & ? & ?)|(b' & ? & ?)]; [left; exists b0|right; exists b']; split; auto using ctl_reads_app, wrote_app.
Qed.
Lemma replaces_same h b b' p : kb_rv (b_cr b') = kb_rv (b_cr b) -> uid b' = uid b -> replaces h b p -> replaces h b' p.
Proof.
  intros Hv Hu [(b0 & ? & ? & ? & ?)|(b0 & ? & ? & ?)]; [left|right]; exists b0; [split_and!; try done; congruence|].
  rewrite Hv. split_and!; try done. congruence.
Qed.
Lemma replaces_read h b : reads h b -> replaces h b (phase b).
Proof. intros Hr. left. by exists b. Qed.

(** [b] descends from a build in phase [p0] and may be written as it is: without
    Genesis it still has that phase, which is the one of the version it replaces;
    under Genesis some read of the build has that phase. *)
Record Tracks (h : history) (p0 : string) (b : Build) : Prop := {
  tk_version : r_Genesis r = None -> replaces h b p0 /\ phase b = p0;
  tk_base : r_Genesis r <> None -> exists b0, reads h b0 /\ uid b0 = uid b /\ phase b0 = p0;
  tk_self : r_Genesis r <> None -> exists b1, reads h b1 /\ uid b1 = uid b /\ phase_step (phase b1) (phase b) = true;
  tk_succ : phase b = PhaseSucceeded -> exists b2, reads h b2 /\ uid b2 = uid b /\ phase b2 = PhaseSucceeded;
  tk_name : exists b3, reads h b3 /\ ident (b_cr b3) = ident (b_cr b) }.

Lemma tracks_app h t p0 b : Tracks h p0 b -> Tracks (h ++ t) p0 b.
Proof.
  intros [Hv Hb Hf Hs (b3 & ? & ?)]. split.
  - intros Hg. destruct (Hv Hg). split; [by apply replaces_app|done].
  - intros Hg. destruct (Hb Hg) as (b0 & ? & ? & ?). exists b0. eauto using ctl_reads_app.
  - intros Hg. destruct (Hf Hg) as (b1 & ? & ? & ?). exists b1. eauto using ctl_reads_app.
  - intros E. destruct (Hs E) as (b2 & ? & ? & ?). exists b2. eauto using ctl_reads_app.
  - exists b3. eauto using ctl_reads_app.
Qed.

Lemma tracks_read h b : reads h b -> Tracks h (phase b) b.
Proof. intros Hr. split; [intros _; split; [by apply replaces_read|done]|intros; exists b; auto using phase_step_refl..|by exists b]. Qed.

(** A direct read of a build that is tracked under the phase [p0]. *)
Lemma tracks_reread h p0 b b' :
  r_Genesis r <> None -> Tracks h p0 b -> reads h b' -> uid b' = uid b -> Tracks h p0 b'.
Proof.
  intros Hg [_ Hb _ _ _] Hr Hu. split; [done| |intros; exists b'; auto using phase_step_refl..|by exists b'].
  intros _. destruct (Hb Hg) as (b0 & ? & ? & ?). exists b0. split_and!; [done|congruence|done].
Qed.

(** Changes that keep identity, version and phase. *)
Lemma tracks_same h p0 b b' :
  ident (b_cr b') = ident (b_cr b) -> kb_rv (b_cr b') = kb_rv (b_cr b) -> phase b' = phase b -> Tracks h p0 b -> Tracks h p0 b'.
Proof.
  intros Hi Hv Hp [Hver Hb Hf Hs (b3 & ? & ?)].
  assert (uid b' = uid b) as Hu by (unfold uid; by injection Hi).
  split.
  - intros Hg. destruct (Hver Hg). split; [by eapply replaces_same|congruence].
  - intros Hg. destruct (Hb Hg) as (b0 & ? & ? & ?). exists b0. split_and!; congruence.
  - intros Hg. destruct (Hf Hg) as (b1 & ? & ? & ?). exists b1. split_and!; congruence.
  - intros E. destruct Hs as (b2 & ? & ? & ?); [congruence|]. exists b2. split_and!; congruence.
  - exists b3. split; congruence.
Qed.

Lemma tracks_status h p0 b f : Tracks h p0 b -> Tracks h p0 (on_status f b).
Proof. by apply tracks_same. Qed.

(** ** A lawful new phase *)

(** [b] may be written, and does not record a success. *)
Definition Steps (h : history) (b : Build) : Prop := lawfulStep c h b /\ phase b <> PhaseSucceeded.

Lemma lawfulStep_app h t b : lawfulStep c h b -> lawfulStep c (h ++ t) b.
Proof.
  intros [Hv Hr]. split.
  - intros Hg. destruct (Hv Hg) as (p & ? & ?). exists p. split; [by apply replaces_app|done].
  - intros Hg. destruct (Hr Hg) as (b0 & ? & ? & ?). exists b0. eauto using ctl_reads_app.
Qed.
Lemma lawfulStep_same h b b' :
  ident (b_cr b') = ident (b_cr b) -> kb_rv (b_cr b') = kb_rv (b_cr b) -> phase b' = phase b -> lawfulStep c h b -> lawfulStep c h b'.
Proof.
  intros Hi Hv Hp [Hver Hr]. assert (uid b' = uid b) as Hu by (unfold uid; by injection Hi). split.
  - intros Hg. destruct (Hver Hg) as (p & ? & ?). exists p. rewrite Hp. split; [by eapply replaces_same|done].
  - intros Hg. destruct (Hr Hg) as (b0 & ? & ? & ?). exists b0. rewrite Hp. split_and!; congruence.
Qed.

Lemma tracks_step h p0 b q : phase_step p0 q = true -> Tracks h p0 b -> lawfulStep c h (set_phase q b).
Proof.
  intros Hst [Hv Hb _ _ _]. split.
  - intros Hg. destruct (Hv Hg) as [Hver _]. exists p0. split; [by eapply replaces_same|done].
  - intros Hg. destruct (Hb Hg) as (b0 & Hr & Hu & Hp). exists b0. split_and!; [done|done|by rewrite Hp].
Qed.

Lemma steps_phase h p0 b q : phase_step p0 q = true -> q <> PhaseSucceeded -> Tracks h p0 b -> Steps h (set_phase q b).
Proof. intros Hst Hq Ht. split; [by eapply tracks_step|done]. Qed.
Lemma steps_app h t b : Steps h b -> Steps (h ++ t) b.
Proof. intros [? ?]. split; [by apply lawfulStep_app|done]. Qed.
Lemma steps_status h b f : Steps h b -> Steps h (on_status f b).
Proof. intros [? ?]. split; [by apply (lawfulStep_same h b)|done]. Qed.
Lemma steps_runner h b n pod : Steps h b -> Steps h (set_runner n pod b).
Proof. intros [? ?]. split; [by apply (lawfulStep_same h b)|done]. Qed.
Lemma steps_lawful h b : Steps h b -> lawfulWrite c h b.
Proof. by intros [? ?]. Qed.

Lemma tracks_runner h p0 b n pod : Tracks h p0 b -> Tracks h p0 (set_runner n pod b).
Proof. by apply tracks_same. Qed.

Lemma tracks_results h p0 b f : Tracks h p0 b -> Tracks h p0 (on_results f b).
Proof. apply tracks_status. Qed.
Lemma tracks_outputs h p0 b : Tracks h p0 b -> Tracks h p0 (setOutputs b).
Proof. apply tracks_status. Qed.

(** The object an accepted status write returns: it still has the tracked phase. *)
Lemma tracks_landed h p0 b rv : wrote h b rv -> Tracks h p0 b -> Tracks h p0 (landed rv b).
Proof.
  intros Hw [Hv Hb Hf Hs Hn]. split; [|by auto..]. intros Hg. destruct (Hv Hg) as [_ Hp].
  split; [|done]. right. by exists b.
Qed.

(** The object returned by a write of another phase is tracked under that phase. *)
Lemma stepped_landed h p0 b b' rv :
  wrote h b' rv -> ident (b_cr b') = ident (b_cr b) -> phase b' <> PhaseSucceeded -> lawfulStep c h b' -> Tracks h p0 b ->
  exists p, Tracks h p (landed rv b').
Proof.
  intros Hw Hi Hne [_ Hl] [_ Hb _ _ (b3 & ? & ?)].
  assert (uid b' = uid b) as Hu by (unfold uid; by injection Hi).
  assert (Hg : r_Genesis r = None \/ r_Genesis r <> None) by (destruct (r_Genesis r); [by right|by left]).
  assert (Hname : exists x, reads h x /\ ident (b_cr x) = ident (b_cr (landed rv b'))).
  { exists b3. split; [done|]. change (ident (b_cr (landed rv b'))) with (ident (b_cr b')). congruence. }
  destruct Hg as [Hg|Hg]; [exists (phase b')|exists p0]; (split; [..|by intros ?|exact Hname]); try (by intros ?).
  - intros _. split; [|done]. right. by exists b'.
  - intros _. destruct (Hb Hg) as (b0 & ? & ? & ?). exists b0. split_and!; [done| |done]. by rewrite <- Hu in *.
  - exact Hl.
Qed.

Lemma tracks_lawful h p0 b : Tracks h p0 b -> lawfulWrite c h b.
Proof.
  intros [Hv _ Hf Hs _]. split; [split; [|by apply Hf]|intros E; left; by apply Hs].
  intros Hg. destruct (Hv Hg) as [Hver Hp]. exists p0. split; [done|]. rewrite Hp. apply phase_step_refl.
Qed.
End facts.

#[export] Hint Resolve tracks_app tracks_status tracks_runner tracks_results tracks_outputs tracks_lawful tracks_read
  steps_app steps_status steps_runner steps_lawful : ctl.

#[export] Hint Extern 1 (_ <> PhaseSucceeded) => discriminate : ctl.
#[export] Hint Extern 1 (verified _) => exfalso; first [congruence|discriminate] : ctl.

(** A fact of an earlier part of the history. *)
Ltac older L := solve [repeat first [assumption|apply L]].
#[export] Hint Extern 0 (reads (_ ++ _) _) => older ctl_reads_app : ctl.
#[export] Hint Extern 0 (sawPod (_ ++ _) _) => older sawPod_app : ctl.
#[export] Hint Extern 0 (charge (_ ++ _) _ _) => older charge_app : ctl.
#[export] Hint Extern 0 (planeDone (_ ++ _) _) => older planeDone_app : ctl.
#[export] Hint Extern 0 (Tracks _ (_ ++ _) _ _) => older tracks_app : ctl.
#[export] Hint Extern 0 (Steps _ (_ ++ _) _) => older steps_app : ctl.

(** One step of a walk through a program, and the use of a specification;
    [known] picks the specification of an operation and is extended below. *)
Ltac known := fail.
Ltac walk1 :=
  match goal with
  | |- _ => known
  | |- safe _ _ _ (Done _) _ => apply safe_done
  | |- safe _ _ _ (failed _) _ => apply safe_done
  | |- safe _ _ _ (fbind (Done _) _) _ => apply safe_seq, safe_done
  | |- safe _ _ _ (fbind (fcall _) _) _ => apply safe_ask; [try exact I|intros]
  | |- safe _ _ _ (fbind (plane _ _) _) _ => apply safe_ask; [try exact I|intros]
  | |- safe _ _ _ (fbind (Check _) _) _ => apply safe_ask; [try exact I|intros]
  | |- safe _ _ _ (fcall _) _ => apply safe_call; [try exact I|intros]
  | |- safe _ _ _ (plane _ _) _ => apply safe_call; [try exact I|intros]
  | |- safe _ _ _ (Check _) _ => apply safe_call; [try exact I|intros]
  | |- safe _ _ _ (fbind _ _) _ => apply safe_seq
  | |- safe _ _ _ (match ?x with _ => _ end) _ => let E := fresh "E" in destruct x eqn:E
  | |- safe _ _ _ (let _ := _ in _) _ => cbv zeta
  end.
Ltac walk := repeat walk1; simplify_eq/=; try done.
Ltac bools := bool_simpl; simplify_eq/=.
Tactic Notation "using" constr(L) := eapply safe_mono; [eapply L; eauto with ctl|intros ? ? [? ->] ?; cbv beta in *].
Ltac by_spec L := eapply safe_mono; [eapply L; eauto with ctl|let Hp := fresh in intros ? ? ? Hp; cbv beta in *; first [exact Hp|done|idtac]].

Section specs.
Context `{External} `{PodTemplate} `{ImageName} `{ReceiptFormat}.
Context (c : Controller).
Local Notation r := (ctl_r c).
Local Notation sf := (safe (guard c) honest).

(** ** Reads *)

Lemma getOwned_spec h cr :
  sf h (getOwnedRunnerPod c cr) (fun h' x =>
    match x with
    | Ok None => exists t, h' = h ++ t /\ podGone t cr
    | Ok (Some p) => sawPod h' p /\ exactPod cr p = true
    | Err _ => True
    end).
Proof.
  unfold getOwnedRunnerPod. walk.
  - destruct_and?. split; [auto with ctl|]. unfold exactPod, seqb. do 2 (rewrite bool_decide_true; [simpl|done]). done.
  - eexists. split; [done|]. apply (podGone_last []). done.
Qed.

Lemma witness_pod cr pod allow w :
  witnessFromPodMode c cr (Some pod) allow = Ok w ->
  exactPod cr pod = true /\ gw_PodUID w = pod_uid (rp_obj pod) /\ gw_PodUID w <> "" /\ gw_PodName w = pod_name (rp_obj pod).
Proof.
  unfold witnessFromPodMode. repeat case_match; try done. intros [= <-]. simpl.
  repeat match goal with H : _ || _ = false |- _ => apply orb_false_iff in H as [? ?] end.
  split_and!; [by apply negb_false_iff|done| |done]. unfold sempty in *. by case_bool_decide.
Qed.

(** The build and the Pod a direct witness read returns. *)
Definition witnessed (h : history) (b : Build) (x : Build * RunnerPod) : Prop :=
  exists w, reads h (fst x) /\ sawPod h (snd x) /\ ident (b_cr (fst x)) = ident (b_cr b) /\ exactPod (b_cr (fst x)) (snd x) = true /\
    ks_Witness (b_status (fst x)) = Some w /\ ks_Witness (b_status b) = Some w /\ gw_PodUID w = pod_uid (rp_obj (snd x)) /\ gw_PodUID w <> "" /\
    r_Genesis r <> None.

Lemma witnessMode_spec h b ad at_ o :
  sf h (directGenesisWitnessModeWithObservation c b ad at_ o) (fun h' x =>
    forall y, x = Ok y -> witnessed h' b y /\ (ad = false -> kb_deleting (b_cr (fst y)) = false)).
Proof.
  unfold directGenesisWitnessModeWithObservation, observedRead. walk.
  all: using getOwned_spec; walk; intros y [= <-]; destruct_and?.
  all: match goal with H : witnessFromPodMode _ _ _ _ = Ok _ |- _ => destruct (witness_pod _ _ _ _ H) as (? & ? & ? & ?) end.
  all: bools; split; [|by intros ->; simpl in *; bools].
  all: eexists; split_and!; eauto with ctl; simpl; unfold ident; congruence.
Qed.

Lemma witness_spec h b :
  sf h (directGenesisWitness c b) (fun h' x => forall y, x = Ok y -> witnessed h' b y /\ kb_deleting (b_cr (fst y)) = false).
Proof. unfold directGenesisWitness. using witnessMode_spec. naive_solver. Qed.

Lemma witnessed_tracks h p0 b y : Tracks c h p0 b -> witnessed h b y -> Tracks c h p0 (fst y).
Proof.
  intros Ht (w & Hr & _ & Hi & _ & _ & _ & _ & _ & Hg). eapply tracks_reread; eauto. unfold uid, ident in *. congruence.
Qed.
Lemma witnessed_reads h b y : witnessed h b y -> reads h (fst y).
Proof. by intros (w & Hr & _). Qed.
#[local] Hint Resolve witnessed_tracks witnessed_reads : ctl.

(** ** Status writes *)

Lemma statusWrite_spec h b :
  lawfulWrite c h b -> sf h (statusUpdate b) (fun h' x => forall b', x = Ok b' -> exists rv, b' = landed rv b /\ wrote h' b rv).
Proof. intros Hl. unfold statusUpdate. apply safe_ask; [done|]. intros [rv|e] _; walk. intros b' [= <-]. eauto with ctl. Qed.

Lemma statusUpdate_spec h p0 b :
  Tracks c h p0 b ->
  sf h (statusUpdate b) (fun h' x =>
    forall b', x = Ok b' -> Tracks c h' p0 b' /\ exists rv, b' = landed rv b /\ wrote h' b rv).
Proof.
  intros Ht. eapply safe_mono; [by eapply statusWrite_spec, tracks_lawful|]. intros h' x [t ->] Hx b' E.
  destruct (Hx b' E) as (rv & -> & Hw). split; [|eauto]. apply tracks_landed; [done|]. by apply tracks_app.
Qed.

Lemma condition_spec h ph reason message b :
  sf h (setPhaseCondition ph reason message b) (fun h' b' => exists l, b' = on_status (set_Conditions l) b).
Proof. unfold setPhaseCondition. walk. eauto. Qed.

Lemma recordEvent_spec h t a m : sf h (recordEvent c t a m) (fun _ _ => True).
Proof. unfold recordEvent. walk. Qed.

(** A terminal status was accepted for the build with this UID. *)
Definition settled (h : history) (u ph : string) : Prop := exists b rv, wrote h b rv /\ phase b = ph /\ uid b = u.
Lemma settled_app h t u ph : settled h u ph -> settled (h ++ t) u ph.
Proof. intros (b & rv & ? & ? & ?). exists b, rv. eauto with ctl. Qed.

Lemma writeTerminal_spec h p0 b ph reason message :
  Tracks c h p0 b -> phase_step p0 ph = true -> (ph = PhaseSucceeded -> verified b) ->
  sf h (writeTerminalStatus c ph reason message b) (fun h' x =>
    forall b', x = Ok b' -> ph <> PhaseSucceeded ->
      (exists p, Tracks c h' p b') /\ ident (b_cr b') = ident (b_cr b) /\ phase b' = ph /\ settled h' (uid b) ph).
Proof.
  intros Ht Hst Hv. unfold writeTerminalStatus. walk. using condition_spec.
  match goal with H : exists l, _ = _ |- _ => destruct H as [l ->] end.
  match goal with |- safe _ _ ?h0 _ _ => assert (Tracks c h0 p0 b) as Ht' by auto with ctl end.
  match goal with |- safe _ _ ?h0 (fbind (statusUpdate ?x) _) _ =>
    set (b1 := x); assert (lawfulStep c h0 b1) as Hl by (apply (lawfulStep_same c _ (set_phase ph b)); [done..|by eapply tracks_step]) end.
  apply safe_seq. eapply safe_mono; [eapply statusWrite_spec|].
  { split; [exact Hl|]. intros E. right. by apply Hv. }
  intros h2 [b2|e] [t2 ->] Hw; [|done]. destruct (Hw b2 eq_refl) as (rv & -> & Hw'). walk. using recordEvent_spec. walk.
  intros b' [= <-] Hne. split_and!; [|done..|].
  - destruct (stepped_landed c _ p0 b b1 rv Hw') as [p Hp]; [done|done|by apply lawfulStep_app|by apply tracks_app|].
    exists p. by apply tracks_app.
  - apply settled_app. by exists b1, rv.
Qed.

Lemma finish_spec h p0 b ph reason message :
  Tracks c h p0 b -> phase_step p0 ph = true -> (ph = PhaseSucceeded -> verified b) ->
  sf h (finish c ph reason message b) (fun h' x =>
    forall b', x = Ok b' -> ph <> PhaseSucceeded ->
      (exists p, Tracks c h' p b') /\ ident (b_cr b') = ident (b_cr b) /\ phase b' = ph /\ settled h' (uid b) ph).
Proof.
  intros Ht Hst Hv. unfold finish. walk.
  all: repeat match goal with |- safe _ _ _ (directGenesisWitness _ _) _ => using witness_spec; walk end.
  all: try (using writeTerminal_spec; done).
Qed.

Lemma finishing_spec h p0 b ph reason message :
  Tracks c h p0 b -> phase_step p0 ph = true -> ph <> PhaseSucceeded ->
  sf h (finishing c ph reason message b) (fun _ _ => True).
Proof. intros. unfold finishing, returning. walk. using finish_spec. walk. Qed.

Lemma persistStep_spec h b : Steps c h b -> sf h (persistVerificationStatus c b) (fun _ _ => True).
Proof.
  intros. unfold persistVerificationStatus. walk.
  - using witness_spec. walk. by_spec statusWrite_spec.
  - by_spec statusWrite_spec.
Qed.

Lemma persist_spec h p0 b :
  Tracks c h p0 b ->
  sf h (persistVerificationStatus c b) (fun h' x =>
    forall b', x = Ok b' -> Tracks c h' p0 b' /\ exists rv, b' = landed rv b /\ wrote h' b rv).
Proof.
  intros. unfold persistVerificationStatus. walk.
  - using witness_spec. walk. by_spec statusUpdate_spec.
  - by_spec statusUpdate_spec.
Qed.

Lemma markRecovery_spec h p0 b reason message :
  Tracks c h p0 b -> sf h (markAdmissionRecoveryReason c reason message b) (fun _ _ => True).
Proof. intros. unfold markAdmissionRecoveryReason. walk. using recordEvent_spec. by_spec statusUpdate_spec. Qed.

Lemma clearRecovery_spec h p0 b :
  Tracks c h p0 b -> sf h (clearAdmissionRecovery b) (fun h' x => forall b', x = Ok b' -> Tracks c h' p0 b').
Proof.
  intros. unfold clearAdmissionRecovery. walk. { by intros b' [= <-]. }
  using statusUpdate_spec. naive_solver.
Qed.
End specs.
