(* ===== verification/ControllerSteps.v ===== *)
(** * The controller's steps respect the guard

    Specifications of the operations of [BuildController], [Lifecycle] and
    [Reconcile] in the logic of [Free]: under the guard of [ControllerSpec],
    whatever the answers to its requests. *)
From S2P Require Import Prelude Free GoText Types Kube Contract Genesis QueueReceipt Effects QueueLedger QueueOps ActiveLedger FairQueue ActiveOps GrantOps Manifest BuildContract BuildStatus BuildResult ControlPlane RunnerExec RunnerWitness BuildController Lifecycle Reconcile ControllerSpec ReceiptFacts ControllerFacts.

Notation any := (fun _ _ => True).

(** ** Phases *)

Lemma step_failed p : isTerminalPhase p = false -> phase_step p PhaseFailed = true.
Proof. unfold phase_step. intros ->. by rewrite orb_true_r. Qed.
Lemma step_cancelled p : isTerminalPhase p = false -> phase_step p PhaseCancelled = true.
Proof. unfold phase_step. intros ->. by rewrite orb_true_r. Qed.
Lemma active_live p : activePhase p = true -> isTerminalPhase p = false.
Proof. unfold activePhase, seqb. intros [?%bool_decide_eq_true|?%bool_decide_eq_true]%orb_true_iff; by subst. Qed.
Lemma active_verifying p : activePhase p = true -> phase_step p PhaseVerifying = true.
Proof. unfold activePhase, seqb. intros [?%bool_decide_eq_true|?%bool_decide_eq_true]%orb_true_iff; by subst. Qed.
Lemma active_failed_verifying p : activePhase p = true -> phase_step p PhaseFailedVerifying = true.
Proof. unfold activePhase, seqb. intros [?%bool_decide_eq_true|?%bool_decide_eq_true]%orb_true_iff; by subst. Qed.
Lemma queued_live p : queuedPhase p = true -> isTerminalPhase p = false.
Proof. unfold queuedPhase, seqb, sempty. intros [?%bool_decide_eq_true|?%bool_decide_eq_true]%orb_true_iff; by subst. Qed.

#[export] Hint Resolve step_failed step_cancelled active_live active_verifying active_failed_verifying queued_live : ctl.

Section steps.
Context `{External} `{PodTemplate} `{ImageName} `{ReceiptFormat}.
Context (c : Controller).
Local Notation r := (ctl_r c).
Local Notation sf := (safe (guard c) honest).

(** ** The runner *)

Lemma exec_spec {B} h ns pod command (f : ExecReply -> B) :
  is_submit command = false -> sf h (let+ x := fcall (Exec ns pod command) in Done (f x)) any.
Proof. intros Hs. apply safe_ask; [simpl; by rewrite Hs|]. intros x _. by apply safe_done. Qed.

Lemma status_spec h b : sf h (BuildStatusRequest b) any.
Proof. by apply exec_spec. Qed.
Lemma cancel_spec h b : sf h (CancelBuild b) any.
Proof. by apply exec_spec. Qed.
Lemma inspect_spec h b path : sf h (SourceTargets b path) any.
Proof. by apply exec_spec. Qed.
Lemma post_spec h b query : sf h (Post b "export" query) any.
Proof. by apply exec_spec. Qed.

Lemma observe_spec h b : sf h (observeBuildStatus c b) any.
Proof.
  unfold observeBuildStatus. walk. using witness_spec. walk. using status_spec. walk. using witness_spec. walk.
Qed.

Lemma exporter_spec h b query : sf h (exporter c b "export" query) any.
Proof.
  unfold exporter. destruct (r_Genesis r); [|apply post_spec]. unfold genesisPost. walk.
  using witness_spec. walk. using observe_spec. walk. using post_spec. walk. using witness_spec. walk. using observe_spec. walk.
Qed.

Lemma witnessedBuild_spec h p0 b :
  Tracks c h p0 b -> sf h (witnessedBuild c b) (fun h' x => forall b', x = Ok b' -> Tracks c h' p0 b').
Proof.
  intros Ht. unfold witnessedBuild. walk; [|by intros b' [= <-]].
  using witness_spec. walk. intros b' [= <-]. eapply (witnessed_tracks _ _ _ _ (_, _)); [by apply tracks_app|]. naive_solver.
Qed.
End steps.

(** What a specification says of the answer at hand. *)
Ltac answer := repeat match goal with
  | HH : forall y, Ok ?z = Ok y -> _ |- _ => specialize (HH z eq_refl)
  | HH : None = None -> _ |- _ => specialize (HH eq_refl)
  end.

(** The operations whose answers are only looked at. *)
Ltac known ::=
  match goal with
  | |- safe _ _ _ (observeBuildStatus _ _) _ => using observe_spec
  | |- safe _ _ _ (directGenesisWitness _ _) _ => using witness_spec
  | |- safe _ _ _ (CancelBuild _) _ => using cancel_spec
  | |- safe _ _ _ (recordEvent _ _ _ _) _ => using recordEvent_spec
  end.

Section verification.
Context `{External} `{PodTemplate} `{ImageName} `{ReceiptFormat}.
Context (c : Controller).
Local Notation r := (ctl_r c).
Local Notation sf := (safe (guard c) honest).

(** ** Receipts *)

Lemma collectFormat_spec h post format st :
  (forall h' q, sf h' (post "export" q) any) ->
  sf h (collectFormat post format st) (fun _ st' => evolves st.1.1 st'.1.1).
Proof.
  intros Hpost. destruct st as [[l t] f]. unfold collectFormat. walk; try apply evolves_refl.
  using Hpost. walk; try apply evolves_refl.
  all: apply awaiting_evolves; intros v Hv; first [apply settle_failed|by eapply receiptOf_evolves].
Qed.

Lemma collect_spec h post l :
  (forall h' q, sf h' (post "export" q) any) -> sf h (CollectReceipts post l) (fun _ st => evolves l st.1.1).
Proof.
  intros Hpost. unfold CollectReceipts. apply safe_seq.
  eapply safe_mono; [by apply collectFormat_spec|]. intros h1 st1 _ He. eapply safe_mono; [by apply collectFormat_spec|].
  intros h2 st2 _ He'. exact (evolves_trans _ _ _ He He').
Qed.

Definition receipted (idx : list nat) (l : list BuildVerificationResult) : Prop :=
  forall i v, i ∈ idx -> l !! i = Some v -> vr_PushedDigest v <> "".
Lemma judge_receipted idx i x st : receipted idx st.1.1 -> receipted idx (judge i x st).1.1.
Proof.
  intros Hr j v Hj Hv. pose proof (judge_questions i x st j) as Hq. rewrite Hv in Hq.
  destruct (st.1.1 !! j) as [w|] eqn:Ew; [|done]. simplify_eq/=. intros E. eapply Hr; [done..|]. congruence.
Qed.
Lemma judge_evolves i x st v : st.1.1 !! i = Some v -> vr_PushedDigest v <> "" -> evolves st.1.1 (judge i x st).1.1.
Proof.
  destruct st as [[l t] f]. unfold judge. simpl. intros Hi Hd. rewrite Hi. pose proof (verdict_evolves v x Hd) as Hv.
  destruct (verdict v x) as [[v' t'] f']. simpl in *. by eapply evolves_insert.
Qed.

Lemma verifyIndices_spec h idx st :
  receipted idx st.1.1 -> sf h (verifyIndices remoteRegistry idx st) (fun _ st' => evolves st.1.1 st'.1.1).
Proof.
  revert h st. induction idx as [|i idx IH]; intros h st Hr; simpl; [apply evolves_refl|].
  assert (receipted idx st.1.1) as Hr' by (intros j v Hj; apply Hr; by right).
  destruct (st.1.1 !! i) as [v|] eqn:E; [|by apply IH]. unfold remoteRegistry at 1. apply safe_ask; [done|]. intros x _.
  eapply safe_mono; [by apply IH, judge_receipted|]. intros h' st' _ He. eapply evolves_trans; [|exact He].
  eapply judge_evolves; [done|]. eapply Hr; [by left|done].
Qed.

Lemma verify_spec h l n : sf h (VerifyReceipts remoteRegistry l n) (fun _ st => evolves l st.1.1).
Proof.
  unfold VerifyReceipts. apply safe_seq. eapply safe_mono; [apply verifyIndices_spec|].
  - intros i v Hi Hv. pose proof (checkIndices_valid n l) as Hc. rewrite Forall_forall in Hc.
    destruct (Hc i Hi) as (w & Hw & Hck). simplify_eq/=. unfold checkable, sempty in Hck. by bool_simpl.
  - intros h' [[l' t] f] _ He. by apply safe_done.
Qed.

(** ** Attempts *)

Definition attempted (b b' : Build) : Prop :=
  kb_spec (b_cr b') = kb_spec (b_cr b) /\ evolves (ks_VerificationResults (b_status b)) (ks_VerificationResults (b_status b')) /\
  ks_Outputs (b_status b') = VerificationOutputs (ks_VerificationResults (b_status b')).

(** The registry part of an attempt. *)
Lemma registry_spec h p0 b l transient hard (expired : option error) :
  Tracks c h p0 b -> evolves l (ks_VerificationResults (b_status b)) ->
  sf h (match expired with
        | Some _ => Done (b, transient, hard)
        | None =>
            let+ (results, registryTransient, registryHard) :=
              VerifyReceipts remoteRegistry (ks_VerificationResults (b_status b)) verificationBatchSize in
            Done (on_results (fun _ => results) b, if sempty registryTransient then transient else registryTransient, registryHard)
        end) (fun h' x => Tracks c h' p0 x.1.1 /\ kb_spec (b_cr x.1.1) = kb_spec (b_cr b) /\
                          evolves l (ks_VerificationResults (b_status x.1.1))).
Proof.
  intros Ht He. destruct expired; [by apply safe_done|]. apply safe_seq. eapply safe_mono; [apply verify_spec|].
  intros h' [[l' t] f] [t' ->] He'. apply safe_done. simpl in *. split_and!; [auto with ctl|done|by eapply evolves_trans].
Qed.

Lemma attempt_spec h p0 b stop :
  Tracks c h p0 b ->
  sf h (attemptReceipts c stop b) (fun h' x =>
    forall b' t f, x = Ok (b', t, f) -> Tracks c h' p0 b' /\ attempted b b').
Proof.
  intros Ht. unfold attemptReceipts. cbv zeta. apply safe_seq. eapply safe_mono; [apply collect_spec; intros; apply exporter_spec|].
  intros h1 [[l t] f] [t1 ->] He. apply safe_seq. eapply safe_mono; [eapply persist_spec; eauto with ctl|].
  intros h2 [b'|e] [t2 ->] Hp; [|done]. destruct (Hp b' eq_refl) as [Ht' (rv & -> & _)].
  apply safe_seq. apply safe_mono with (Q := any); [destruct (stop && f); done|]. intros h3 expired [t3 ->] _.
  apply safe_seq. eapply safe_mono.
  { eapply (registry_spec _ p0 _ (ks_VerificationResults (b_status b))); [by apply tracks_app|].
    eapply evolves_trans; [exact He|apply bound_evolves]. }
  intros h4 [[b1 t'] f'] [t4 ->] (Ht1 & Hs & He1). apply safe_ask; [done|]. intros late _. apply safe_done.
  intros b2 ? ? [= <- <- <-]. split; [simpl in *; auto with ctl|].
  split_and!; [done| |done]. eapply evolves_trans; [exact He1|apply bound_evolves].
Qed.

Lemma failVerification_spec h p0 b m :
  Tracks c h p0 b -> isTerminalPhase p0 = false -> sf h (failVerification c m b) any.
Proof.
  intros Ht Hp. unfold failVerification. walk. using persist_spec. walk.
  answer. destruct_and?.
  using finish_spec. walk.
Qed.

Lemma finishFailed_spec h p0 b :
  Tracks c h p0 b -> isTerminalPhase p0 = false -> sf h (finishFailedVerification c b) any.
Proof.
  intros Ht Hp. unfold finishFailedVerification. walk. using persist_spec. walk.
  answer. destruct_and?.
  using finish_spec. walk.
Qed.

Lemma expireFailed_spec h p0 b :
  Tracks c h p0 b -> isTerminalPhase p0 = false -> sf h (expireFailedVerification c b) any.
Proof. intros. unfold expireFailedVerification. cbv zeta. eapply finishFailed_spec; eauto with ctl. Qed.

(** ** The two verification phases *)

Lemma verified_landed rv b : verified b -> verified (landed rv b).
Proof. done. Qed.
Lemma attempted_verified b b' :
  validVerificationResults b = true -> attempted b b' -> VerificationDone (ks_VerificationResults (b_status b')) = (true, false) -> verified b'.
Proof. intros Hv (Hs & He & Ho) Hd. split_and!; [done|by eapply valid_evolves|done]. Qed.

Lemma withSlot_spec h n body : (forall h', h `prefix_of` h' -> sf h' body any) -> sf h (withSlot n body) any.
Proof.
  intros Hb. unfold withSlot. walk. eapply safe_mono; [apply Hb; by eexists|]. intros h' y _ _. walk.
Qed.
Lemma notDue_spec h n b : sf h (notDue n b) any.
Proof. unfold notDue. walk. Qed.

Lemma verifyAttempt_spec h b :
  Tracks c h PhaseVerifying b -> validVerificationResults b = true -> sf h (verifyAttempt c b) any.
Proof.
  intros Ht Hv. unfold verifyAttempt. apply safe_seq. eapply safe_mono; [by eapply attempt_spec|].
  intros h' [[[b' t] f]|e] [t' ->] Ha; [|done]. destruct (Ha _ _ _ eq_refl) as [Ht' Hat]. walk.
  - by eapply failVerification_spec; [apply tracks_status|].
  - using persist_spec. walk. answer. destruct_and?.
    match goal with HH : exists rv, _ |- _ => destruct HH as (rv & -> & _) end.
    eapply safe_mono; [eapply finish_spec; [done|done|]|intros; walk].
    intros _. apply verified_landed. bool_simpl. subst. by eapply attempted_verified.
  - using persist_spec. walk.
Qed.

Lemma verifying_spec h b : Tracks c h PhaseVerifying b -> sf h (reconcileVerifying c b) any.
Proof.
  intros Ht. unfold reconcileVerifying. apply safe_seq. using witnessedBuild_spec. walk; answer.
  - by eapply failVerification_spec.
  - by eapply failVerification_spec.
  - eapply safe_mono; [eapply finish_spec; [eauto with ctl|done|]|intros; walk]. intros _. split_and!; [done| |done].
    unfold verificationState in *. by bool_simpl.
  - eapply failVerification_spec; eauto with ctl.
  - using notDue_spec. walk. apply withSlot_spec. intros ? [? ->]. eapply verifyAttempt_spec; eauto with ctl.
    unfold verificationState in *. by bool_simpl.
Qed.

Lemma failedAttempt_spec h p0 b : Tracks c h p0 b -> isTerminalPhase p0 = false -> sf h (failedVerifyAttempt c b) any.
Proof.
  intros Ht Hp. unfold failedVerifyAttempt. apply safe_seq. eapply safe_mono; [by eapply attempt_spec|].
  intros h' [[[b' t] f]|e] [t' ->] Ha; [|done]. destruct (Ha _ _ _ eq_refl) as [Ht' _]. walk.
  - eapply finishFailed_spec; eauto with ctl.
  - eapply expireFailed_spec; eauto with ctl.
  - using persist_spec. walk.
Qed.

Lemma failedVerifying_spec h p0 b : Tracks c h p0 b -> isTerminalPhase p0 = false -> sf h (reconcileFailedVerifying c b) any.
Proof.
  intros Ht Hp. unfold reconcileFailedVerifying. apply safe_seq. using witnessedBuild_spec. walk; answer.
  - eapply finishFailed_spec; eauto with ctl.
  - eapply finishFailed_spec; eauto with ctl.
  - eapply expireFailed_spec; eauto with ctl.
  - using notDue_spec. walk. apply withSlot_spec. intros ? [? ->]. eapply failedAttempt_spec; eauto with ctl.
Qed.

(** The start of verification: from an active phase. *)
Lemma beginPhase_spec h p0 b ph reason message window :
  Tracks c h p0 b -> activePhase p0 = true -> ph = PhaseVerifying \/ ph = PhaseFailedVerifying ->
  sf h (beginVerificationPhase c ph reason message window b) any.
Proof.
  intros Ht Hp Hph. assert (phase_step p0 ph = true /\ ph <> PhaseSucceeded) as [Hst Hne] by (destruct Hph; subst; auto with ctl).
  unfold beginVerificationPhase. apply safe_seq. eapply safe_mono; [exact (witnessedBuild_spec c h p0 b Ht)|].
  intros h' [b'|e] [t ->] Hb; [|done]. specialize (Hb b' eq_refl). unfold returning. walk.
  1-2: using finish_spec; walk.
  all: using condition_spec; match goal with HH : exists l, _ = _ |- _ => destruct HH as [l ->] end.
  all: apply safe_seq; eapply safe_mono; [eapply persistStep_spec, steps_status, steps_status, steps_phase; eauto with ctl|intros; walk].
Qed.

Lemma observed_spec h p0 st b : Tracks c h p0 b -> activePhase p0 = true -> sf h (finishObservedBuild c st b) any.
Proof.
  intros Ht Hp. unfold finishObservedBuild. walk.
  - eapply beginPhase_spec; eauto with ctl.
  - eapply finishing_spec; eauto with ctl.
  - eapply beginPhase_spec; eauto with ctl.
Qed.
End verification.

(** * Stopping and deleting runners respects the guard

    The specifications of [Lifecycle]: a Pod is deleted only when it is the exact
    Pod of a build that was read, and a confirmed deletion has seen its name free. *)
(** The Pod of [cr] was found missing after [h]. *)
Definition goneSince (h h' : history) (cr : KovaBuild) : Prop := exists t, h' = h ++ t /\ podGone t cr.
(** A build with this identity was read. *)
Definition knownBuild (h : history) (b : Build) : Prop := exists b0, reads h b0 /\ ident (b_cr b0) = ident (b_cr b).

Lemma goneSince_app h h' t cr : goneSince h h' cr -> goneSince h (h' ++ t) cr.
Proof. intros (t' & -> & Hg). exists (t' ++ t). rewrite app_assoc. split; [done|]. by apply podGone_app. Qed.
Lemma goneSince_pre h t h' cr : goneSince (h ++ t) h' cr -> goneSince h h' cr.
Proof. intros (t' & -> & Hg). exists (t ++ t'). rewrite app_assoc. split; [done|]. by apply podGone_app_r. Qed.
Lemma goneSince_prefix h h1 h' cr : h `prefix_of` h1 -> goneSince h1 h' cr -> goneSince h h' cr.
Proof. intros [t ->]. apply goneSince_pre. Qed.
Lemma known_app h t b : knownBuild h b -> knownBuild (h ++ t) b.
Proof. intros (b0 & ? & ?). exists b0. eauto with ctl. Qed.
Lemma known_read h b : reads h b -> knownBuild h b.
Proof. by exists b. Qed.
Lemma exact_ident cr cr' pod : ident cr = ident cr' -> exactPod cr pod = exactPod cr' pod.
Proof. unfold ident, exactPod, podOwnedByBuild. intros [= Hn Hm Hu]. by rewrite ?Hn, ?Hm, ?Hu. Qed.
Lemma gone_ident h cr cr' : ident cr = ident cr' -> podGone h cr -> podGone h cr'.
Proof. unfold ident, podGone. intros [= Hn Hm Hu]. by rewrite ?Hn, ?Hm, ?Hu. Qed.
#[export] Hint Resolve goneSince_app known_app known_read : ctl.

Section stops.
Context `{External} `{PodTemplate} `{ImageName} `{ReceiptFormat}.
Context (c : Controller).
Local Notation r := (ctl_r c).
Local Notation sf := (safe (guard c) honest).

Lemma tracks_known h p0 b : Tracks c h p0 b -> knownBuild h b.
Proof. by intros [_ _ _ ?]. Qed.
Hint Resolve tracks_known : ctl.

Lemma charge_spec h cr o :
  sf h (directGenesisChargeWithObservation c cr o) (fun h' x => forall entry, x = Ok entry -> charge h' cr entry).
Proof.
  unfold directGenesisChargeWithObservation, readLedgerState. walk. intros entry [= <-]. eexists. split; [|done]. apply ledgerRead_last.
Qed.

Lemma qualify_spec h cr pod allow o :
  sf h (qualifyGenesisPodWithObservation c cr pod allow o) (fun h' x => x = None -> planeDone h' (OpVerifyPod cr)).
Proof. unfold qualifyGenesisPodWithObservation, readLedgerState. walk. apply planeDone_last. Qed.

(** The build and the Pod a stop reads. *)
Definition stopState (h0 h : history) (b : Build) (x : Build * option RunnerPod) : Prop :=
  reads h (fst x) /\ ident (b_cr (fst x)) = ident (b_cr b) /\ r_Genesis r <> None /\
  match snd x with
  | None => goneSince h0 h (b_cr b)
  | Some p => sawPod h p /\ exactPod (b_cr (fst x)) p = true /\ pod_uid (rp_obj p) <> ""
  end.

Lemma statusWitness_name b : validGenesisStatusWitness c b = true -> kb_runnerPod (b_cr b) = buildPodName (kb_name (b_cr b)).
Proof. unfold validGenesisStatusWitness. repeat case_match; try done. intros. bool_simpl. congruence. Qed.

Lemma stopState_spec h b :
  sf h (directGenesisStopState c b) (fun h' x => forall y, x = Ok y -> stopState h h' b y).
Proof.
  unfold directGenesisStopState. walk. all: intros y [= <-]; destruct_and?; bool_simpl.
  - match goal with HH : witnessFromPodMode _ _ _ _ = Ok _ |- _ => destruct (witness_pod _ _ _ _ _ HH) as (? & ? & ? & _) end.
    unfold stopState; simpl; split_and!; [eauto with ctl|unfold ident; congruence|congruence|eauto with ctl|done|congruence].
  - unfold stopState; simpl; split_and!; [eauto with ctl|unfold ident; congruence|congruence|]. eexists. rewrite <- app_assoc. split; [done|].
    match goal with HH : validGenesisStatusWitness _ _ = true |- _ => rewrite (statusWitness_name _ HH) end.
    apply podGone_app_r. eexists true, _. split; [|done]. apply list_elem_of_singleton. congruence.
Qed.

(** ** Deletion *)

Lemma completeObserved_spec h cr pod : sf h (completeObserved c cr pod) any.
Proof. unfold completeObserved. walk. Qed.

Lemma deletePod_spec h cr pod :
  deletable c h (pod_ns (rp_obj pod)) (pod_name (rp_obj pod)) (pod_uid (rp_obj pod)) -> exactPod cr pod = true ->
  sf h (deletePodAndConfirm c pod) (fun h' x => x = None -> goneSince h h' cr).
Proof.
  intros Hd He. unfold deletePodAndConfirm. apply safe_seq, safe_call; [exact Hd|]. intros [e|] _; walk. intros _.
  unfold exactPod in He. bool_simpl. eexists. rewrite <- app_assoc. split; [done|]. apply podGone_app_r.
  exists (direct c), e. split; [|done]. apply list_elem_of_singleton. congruence.
Qed.

Lemma deleteOwned_spec h b pod :
  knownBuild h b -> (r_Genesis r = None -> sawPod h pod) ->
  sf h (deleteOwnedRunnerPodAndConfirm c b pod) (fun h' x => x = None -> goneSince h h' (b_cr b)).
Proof.
  intros (b0 & Hb0 & Hi) Hs. unfold deleteOwnedRunnerPodAndConfirm. walk; bool_simpl.
  - using stopState_spec. walk; answer. bool_simpl. match goal with HH : stopState _ _ _ _ |- _ => destruct HH as (Hr & Hi' & _ & Hp & He & Hu) end.
    simpl in *. using charge_spec. walk; answer. bool_simpl. unfold qualifyGenesisPod. using qualify_spec. walk.
    using completeObserved_spec. walk.
    match goal with Hr : reads _ ?cur, HH : exactPod (b_cr ?cur) ?q = true |- _ =>
      assert (exactPod (b_cr b) q = true) by (rewrite <- (exact_ident (b_cr cur)); [done|unfold ident; congruence]) end.
    eapply safe_mono; [eapply deletePod_spec; [|done]|].
    + match goal with Hr : reads _ ?cur, Hp : sawPod _ ?q |- _ => exists q, cur end. split_and!; [eauto with ctl..|done|done|]. intros _.
      split_and!; [|eexists; split; [|done]; eauto with ctl|eauto with ctl].
      match goal with HH : negb _ && negb _ = false |- _ => apply andb_false_iff in HH as [?%negb_false_iff|?%negb_false_iff]; auto end.
    + intros ? ? _ Hg Hn. eapply goneSince_prefix; [|by apply Hg]. rewrite <- !app_assoc. by eexists.
  - using completeObserved_spec. walk. eapply safe_mono; [eapply deletePod_spec; [|done]|].
    + exists pod, b0. split_and!; [eauto with ctl..| |done|done|done|done|congruence]. rewrite (exact_ident _ (b_cr b)); [done|unfold ident; congruence].
    + intros ? ? _ Hg Hn. eapply goneSince_prefix; [|by apply Hg]. by eexists.
Qed.

Lemma deleteRunner_spec h b :
  knownBuild h b -> sf h (deleteRunnerAndConfirm c b) (fun h' x => x = None -> goneSince h h' (b_cr b)).
Proof.
  intros Hk. unfold deleteRunnerAndConfirm. walk.
  - using stopState_spec. walk; answer.
    + match goal with HH : stopState _ _ _ _ |- _ => destruct HH as (Hr & Hi & Hg & Hp & He & Hu) end. simpl in *.
      eapply safe_mono; [apply deleteOwned_spec; [by apply known_read|done]|]. intros ? ? [? ->] Hgone Hn.
      destruct (Hgone Hn) as (t & Ht & Hg'). eapply goneSince_prefix; [|exists t; split; [exact Ht|by eapply gone_ident]].
      rewrite <- app_assoc. by eexists.
    + match goal with HH : stopState _ _ _ _ |- _ => destruct HH as (_ & _ & _ & Hp) end. intros _.
      eapply goneSince_prefix; [|exact Hp]. by eexists.
  - using getOwned_spec. walk. intros _. eapply goneSince_prefix; [|done]. by eexists.
  - using getOwned_spec. walk. destruct_and?. eapply safe_mono; [apply deleteOwned_spec; eauto with ctl|].
    intros ? ? _ Hg Hn. eapply goneSince_prefix; [|by apply Hg]. by eexists.
Qed.

(** ** Forced stops *)

Lemma stop_phase reason ph m : genesisStopOutcome reason = Ok (ph, m) -> ph = PhaseCancelled \/ ph = PhaseFailed.
Proof. unfold genesisStopOutcome. repeat case_match; naive_solver. Qed.

Lemma finishStopped_spec h g b : sf h (finishGenesisStopped c g b) any.
Proof.
  unfold finishGenesisStopped. walk. using stopState_spec. walk; answer. using charge_spec. walk; answer.
  match goal with HH : stopState _ _ _ _ |- _ => destruct HH as (Hr & _) end. simpl in *. bool_simpl.
  match goal with HH : genesisStopOutcome _ = Ok _ |- _ => destruct (stop_phase _ _ _ HH) as [->| ->] end.
  all: eapply safe_mono; [eapply writeTerminal_spec; [apply tracks_read; eauto with ctl|eauto with ctl|done]|done].
Qed.

Lemma resume_spec h g b : sf h (resumeGenesisStop c g b) any.
Proof.
  unfold resumeGenesisStop, returning. walk. using stopState_spec. walk; answer. using charge_spec. walk; answer.
  all: match goal with HH : stopState _ _ _ _ |- _ => destruct HH as (Hr & _ & Hg & Hp) end; simpl in *.
  - eapply safe_mono; [apply deleteOwned_spec; [eauto with ctl|by intros ?%Hg]|]. intros ? ? _ _. walk. using finishStopped_spec. walk.
  - using finishStopped_spec. walk.
Qed.

Lemma stopEffective_spec h reason b : sf h (stopEffective c reason b) any.
Proof. unfold stopEffective. walk. Qed.

Lemma recordIntent_spec h reason b current pod :
  reads h current -> sf h (recordStopIntent c reason b current pod) any.
Proof.
  intros Hr. unfold recordStopIntent, fence. walk. all: using stopEffective_spec; walk; using charge_spec; walk; using charge_spec; walk.
  all: using statusUpdate_spec; done.
Qed.

Lemma stop_spec h g reason b : sf h (stopGenesisRunner c g reason b) any.
Proof.
  unfold stopGenesisRunner. walk. using stopState_spec. walk; answer.
  all: match goal with HH : stopState _ _ _ _ |- _ => destruct HH as (Hr & _) end; simpl in *.
  - apply resume_spec.
  - using recordIntent_spec. walk. apply resume_spec.
Qed.
End stops.
