(* ===== verification/ControllerReconcile.v ===== *)
(** * Reconciling respects the guard

    The specifications of [Reconcile], from admission to cleanup. *)
From S2P Require Import Prelude Free GoText Types Kube Contract Genesis QueueReceipt Effects QueueLedger QueueOps ActiveLedger FairQueue ActiveOps GrantOps BuildContract Manifest BuildStatus BuildResult ControlPlane RunnerExec RunnerWitness BuildController Lifecycle Reconcile ControllerSpec ReceiptFacts ControllerFacts ControllerSteps.

Lemma active_running p : activePhase p = true -> phase_step p PhaseRunning = true.
Proof. unfold activePhase, seqb. intros [?%bool_decide_eq_true|?%bool_decide_eq_true]%orb_true_iff; by subst. Qed.
#[export] Hint Resolve active_running tracks_known : ctl.

(** The build a direct read returned is tracked as the one it was read for. *)
Ltac retrack :=
  match goal with HH : witnessed ?c ?h ?b ?y, Ht : Tracks ?c _ ?p ?b |- _ =>
    assert (Tracks c h p (fst y)) by (eapply witnessed_tracks; [|exact HH]; eauto with ctl); simpl in * end.

Section active.
Context `{External} `{PodTemplate} `{ImageName} `{ReceiptFormat}.
Context (c : Controller).
Local Notation r := (ctl_r c).
Local Notation sf := (safe (guard c) honest).

(** ** Deadlines and polling *)

Lemma requeueActive_spec h b d : sf h (requeueActive c b d) any.
Proof. unfold requeueActive, activeRequeueAfter. walk. Qed.
Lemma expired_spec h b : sf h (expired c b) any.
Proof. unfold expired. walk. Qed.

Lemma expireActive_spec h p0 b :
  Tracks c h p0 b -> isTerminalPhase p0 = false -> sf h (expireActiveBuild c b) any.
Proof.
  intros Ht Hp. unfold expireActiveBuild. walk. using expired_spec. walk.
  - using finishing_spec. walk.
  - using deleteRunner_spec. walk. using finishing_spec. walk.
Qed.

Lemma expiredBuild_spec h p0 b :
  Tracks c h p0 b -> activePhase p0 = true -> sf h (reconcileExpiredBuild c b) any.
Proof.
  intros Ht Hp. unfold reconcileExpiredBuild. walk. using expired_spec. walk.
  all: try (using stop_spec; walk). all: try (using observed_spec; walk).
  all: eapply expireActive_spec; eauto with ctl.
Qed.

Lemma clearPoll_spec h p0 b :
  Tracks c h p0 b -> sf h (clearPollFailure b) (fun h' x => forall b', x = Ok b' -> Tracks c h' p0 b').
Proof.
  intros Ht. unfold clearPollFailure. walk; try by intros b' [= <-].
  all: using statusUpdate_spec; naive_solver.
Qed.

Lemma retry_spec h p0 b e :
  Tracks c h p0 b -> isTerminalPhase p0 = false -> sf h (retryStatusObservation c e b) any.
Proof.
  intros Ht Hp. unfold retryStatusObservation. walk.
  all: try (eapply finishing_spec; eauto with ctl; done).
  - eapply safe_mono; [eapply deleteOwned_spec; [eapply tracks_known, tracks_status; eauto with ctl|intros _; eauto with ctl]|].
    intros ? ? [? ->] _. walk. eapply finishing_spec; [apply tracks_status|..]; eauto with ctl.
  - eapply safe_mono; [eapply statusUpdate_spec; case_match; repeat apply tracks_status; eauto with ctl|].
    intros ? ? [? ->] Hu. walk; answer. all: apply requeueActive_spec.
Qed.

(** ** Submission *)

Lemma markSubmitted_spec h p0 st b :
  Tracks c h p0 b -> activePhase p0 = true -> sf h (markSubmitted c st b) any.
Proof.
  intros Ht Hp. unfold markSubmitted. walk.
  all: try (eapply finishing_spec; eauto with ctl; done). all: try (eapply observed_spec; eauto with ctl; done).
  using condition_spec. match goal with HH : exists l, _ = _ |- _ => destruct HH as [l ->] end.
  apply safe_seq. eapply safe_mono; [eapply statusWrite_spec, steps_lawful, steps_status, steps_status, (steps_phase c _ p0); eauto with ctl|].
  intros ? ? [? ->] _. walk. apply requeueActive_spec.
Qed.

Lemma observeExisting_spec h p0 g e b :
  Tracks c h p0 b -> activePhase p0 = true -> sf h (observeExistingGenesisSubmission c g e b) any.
Proof.
  intros Ht Hp. unfold observeExistingGenesisSubmission. walk. answer. destruct_and?.
  retrack.
  eapply markSubmitted_spec; eauto with ctl.
Qed.

Definition grantedFor (h : history) (b : Build) : Prop :=
  exists h0 (p : prog (option error)) w entry,
    h = h0 ++ [asked (Plane OpCheck p) None] /\ reads h0 b /\ phase b = PhaseStarting /\
    cancellationRequested (b_cr b) = false /\ kb_deleting (b_cr b) = false /\ ks_Witness (b_status b) = Some w /\
    charge h0 (b_cr b) entry /\ ar_Closing entry = false /\ inFlight entry = false /\
    planeDone h0 (OpVerifyGrant (b_cr b)) /\ planeDone h0 (OpVerifyPod (b_cr b)) /\ gw_PodUID w <> "".

Lemma join_none e1 e2 : join e1 e2 = None -> e1 = None /\ e2 = None.
Proof. by destruct e1, e2. Qed.

Lemma grant_spec h p0 b :
  Tracks c h p0 b ->
  sf h (directGenesisGrant c b) (fun h' x => forall y, x = Ok y -> Tracks c h' p0 (fst y) /\ grantedFor h' (fst y)).
Proof.
  intros Ht. unfold directGenesisGrant, observe. walk. using witnessMode_spec. walk.
  answer. using charge_spec. walk. answer. using qualify_spec. walk. answer.
  match goal with HH : join _ _ = None |- _ => apply join_none in HH as [? ->] end.
  intros y [= <-]. destruct_and?. retrack. bool_simpl. split; [eauto with ctl|].
  match goal with HH : witnessed _ _ _ _ |- _ => destruct HH as (w & ? & ? & ? & ? & ? & ? & ? & ? & ?) end. simpl in *.
  eexists _, _, w, _. split_and!; [done|..]; eauto with ctl.
Qed.

Lemma withGrant_spec h p0 b pod k :
  Tracks c h p0 b -> activePhase p0 = true ->
  (forall h' b' pod', h `prefix_of` h' -> Tracks c h' p0 b' -> (r_Genesis r <> None -> grantedFor h' b') -> sf h' (k b' pod') any) ->
  sf h (withGrant c b pod k) any.
Proof.
  intros Ht Hp Hk. unfold withGrant. walk; [|by apply Hk].
  using grant_spec. walk; answer.
  - destruct_and?. apply Hk; [by eexists|done..].
  - eapply observeExisting_spec; eauto with ctl.
Qed.

Lemma unlessExpired_spec h p0 b k :
  Tracks c h p0 b -> activePhase p0 = true -> (forall h', h `prefix_of` h' -> sf h' k any) -> sf h (unlessExpired c b k) any.
Proof. intros Ht Hp Hk. unfold unlessExpired. walk. using expiredBuild_spec. walk. apply Hk. by eexists. Qed.

Lemma afterSubmit_spec h p0 e pod b :
  Tracks c h p0 b -> activePhase p0 = true -> sf h (afterSubmit c e pod b) any.
Proof.
  intros Ht Hp. unfold afterSubmit. walk; answer; destruct_and?; try retrack.
  all: try (eapply markSubmitted_spec; eauto with ctl; done). all: try (eapply retry_spec; eauto with ctl; done).
  all: try (eapply finishing_spec; eauto with ctl; done). all: try apply requeueActive_spec.
Qed.

Lemma submit_spec h p0 b pod :
  Tracks c h p0 b -> activePhase p0 = true -> (r_Genesis r <> None -> grantedFor h b) -> sf h (submit c b pod) any.
Proof.
  intros Ht Hp Hg. unfold submit, SubmitBuild. apply safe_seq, safe_ask.
  - intros _ Hne. destruct (Hg Hne) as (h0 & p & w & entry & -> & ? & ? & ? & ? & Hw & ? & ? & ? & ? & ? & Hu).
    exists h0, p, b, w, entry. split_and!; try done. unfold expectedPodUID. rewrite Hw. unfold TransportCommandForPodUID, podUIDFlag, sempty.
    rewrite bool_decide_false by done. by eexists.
  - intros x _. apply safe_done. eapply afterSubmit_spec; eauto with ctl.
Qed.

Ltac ends :=
  first [eapply markSubmitted_spec; eauto with ctl; done|eapply retry_spec; eauto with ctl; done
        |eapply finishing_spec; eauto with ctl; done|eapply observed_spec; eauto with ctl; done|apply requeueActive_spec|apply stop_spec].

Lemma inspectAndSubmit_spec h p0 b pod :
  Tracks c h p0 b -> activePhase p0 = true -> sf h (inspectAndSubmit c b pod) any.
Proof.
  intros Ht Hp. unfold inspectAndSubmit. apply safe_seq. using inspect_spec. unfold inspectFailure. walk; try ends.
  eapply withGrant_spec; eauto with ctl. intros h1 b1 pod1 _ Ht1 _. eapply unlessExpired_spec; eauto. intros h2 [t ->].
  eapply withGrant_spec; eauto with ctl. intros h3 b3 pod3 _ Ht3 Hg. by eapply submit_spec.
Qed.

Lemma notReady_spec h p0 b pod : Tracks c h p0 b -> activePhase p0 = true -> sf h (runnerNotReady c b pod) any.
Proof. intros Ht Hp. unfold runnerNotReady. walk; ends. Qed.

Lemma submitReady_spec h p0 b pod : Tracks c h p0 b -> activePhase p0 = true -> sf h (submitReady c b pod) any.
Proof.
  intros Ht Hp. unfold submitReady. walk; try ends. using clearPoll_spec. walk; answer.
  eapply withGrant_spec; eauto with ctl. intros h1 b1 pod1 _ Ht1 _. by eapply inspectAndSubmit_spec.
Qed.

Lemma submitWhenReady_spec h p0 b : Tracks c h p0 b -> activePhase p0 = true -> sf h (submitWhenReady c b) any.
Proof.
  intros Ht Hp. unfold submitWhenReady. eapply withGrant_spec; eauto. intros h1 b1 pod1 _ Ht1 _.
  eapply unlessExpired_spec; eauto. intros h2 [t ->]. walk; try ends.
  all: first [eapply notReady_spec; eauto with ctl; done|eapply submitReady_spec; eauto with ctl; done].
Qed.

Lemma pollBuild_spec h p0 b : Tracks c h p0 b -> activePhase p0 = true -> sf h (pollBuild c b) any.
Proof.
  intros Ht Hp. unfold pollBuild. apply safe_seq. using witnessedBuild_spec. walk; answer.
  eapply unlessExpired_spec; eauto. intros h2 [t ->]. walk; try ends. using clearPoll_spec. walk; ends.
Qed.
End active.

Section cleanup.
Context `{External} `{PodTemplate} `{ImageName} `{ReceiptFormat}.
Context (c : Controller).
Local Notation r := (ctl_r c).
Local Notation sf := (safe (guard c) honest).

(** ** Cancellation *)

Lemma genesisCancellation_spec h p0 g b : Tracks c h p0 b -> sf h (reconcileGenesisCancellation c g b) any.
Proof.
  intros Ht. unfold reconcileGenesisCancellation, nilError. walk; answer; destruct_and?.
  all: match goal with HH : witnessed _ _ _ _ |- _ => pose proof (witnessed_reads _ _ _ _ HH) end; simpl in *.
  all: try (using charge_spec; walk).
  all: bool_simpl.
  all: match goal with
       | Hp : phase _ = PhaseVerifying |- safe _ _ _ (reconcileVerifying _ _) _ => eapply verifying_spec; rewrite <- Hp; eauto with ctl
       | |- safe _ _ _ (stopGenesisRunner _ _ _ _) _ => apply stop_spec
       | |- safe _ _ _ (finishObservedBuild _ _ _) _ => eapply observed_spec; [apply tracks_read|]; eauto with ctl
       end.
Qed.

Lemma cancelBuild_spec h p0 b : Tracks c h p0 b -> isTerminalPhase p0 = false -> sf h (cancelBuild c b) any.
Proof.
  intros Ht Hp. unfold cancelBuild, fence. walk. all: using deleteRunner_spec; walk; eapply finishing_spec; eauto with ctl.
Qed.

(** ** Cleanup *)

Lemma cleanup_ready h h1 cr : planeDone h (OpFence cr) -> goneSince h h1 cr -> cleanupReady h1 cr.
Proof. intros Hf (t & -> & Hg). by exists h, t, cr. Qed.

Lemma releaseAll_spec h p0 b k :
  Tracks c h p0 b -> cleanupReady h (b_cr b) -> terminalKnown h (b_cr b) ->
  (forall h', h `prefix_of` h' -> released h' (b_cr b) -> sf h' k any) -> sf h (releaseAll c b k) any.
Proof.
  intros Ht Hc Hk Hrest. unfold releaseAll, release, queueRelease. apply safe_seq, safe_call; [done|]. intros [e|] _.
  - unfold reservationFailed, markAdmissionRecovery. walk. using markRecovery_spec. walk.
  - apply safe_seq, safe_call; [done|]. intros [e|] _.
    + unfold queueFailed. walk. using markRecovery_spec. walk.
    + apply Hrest; [rewrite <- app_assoc; by eexists|]. exists (b_cr b). split_and!; [done|eauto with ctl..].
Qed.

Lemma expireTerminal_spec h b : sf h (expireTerminal c b) any.
Proof. unfold expireTerminal. walk. Qed.

Lemma terminal_spec h b : reads h b -> isTerminalPhase (phase b) = true -> sf h (reconcileTerminal c b) any.
Proof.
  intros Hr Ht. unfold reconcileTerminal, fence. walk. using deleteRunner_spec. walk; answer.
  eapply releaseAll_spec; [apply tracks_read; eauto with ctl|eapply cleanup_ready; [|done]; eauto with ctl| |].
  - exists b. split_and!; [done..|]. left. eauto with ctl.
  - intros h' [t ->] _. apply safe_seq. using clearRecovery_spec. walk. apply expireTerminal_spec.
Qed.

Lemma cleanup_moves h t cr cr' : ident cr' = ident cr -> cleanupReady h cr -> cleanupReady (h ++ t) cr'.
Proof.
  intros Hi (h1 & h2 & cr0 & -> & Hi0 & Hf & Hg). exists h1, (h2 ++ t), cr0. split_and!; [by rewrite app_assoc|congruence|done|].
  apply podGone_app. by eapply gone_ident.
Qed.

Lemma dropFinalizer_spec h p0 b :
  Tracks c h p0 b -> cleanupReady h (b_cr b) -> terminalKnown h (b_cr b) ->
  sf h (releaseAll c b (match RemoveFinalizer b cleanupFinalizer with
        | None => Done (Ok noRequeue)
        | Some b' =>
            let+ u := fcall (UpdateObject b') in
            match u with
            | Err e => if IsNotFound e then Done (Ok noRequeue) else failed e
            | Ok _ => Done (Ok noRequeue)
            end
        end)) any.
Proof.
  intros Ht Hc Hk. eapply releaseAll_spec; [done..|]. intros h' _ Hrel. unfold RemoveFinalizer. destruct (bool_decide _); [|done].
  apply safe_ask; [|intros; walk]. by right.
Qed.

Lemma cleanup_spec h b :
  reads h b ->
  sf h (chk+ fence c (b_cr b) else failed in
        chk+ deleteRunnerAndConfirm c b else failed in
        get+ b := if isTerminalPhase (phase b) then Done (Ok b) else finish c PhaseCancelled "Deleted" "build was deleted" b else failed in
        releaseAll c b (
          match RemoveFinalizer b cleanupFinalizer with
          | None => Done (Ok noRequeue)
          | Some b' =>
              let+ u := fcall (UpdateObject b') in
              match u with
              | Err e => if IsNotFound e then Done (Ok noRequeue) else failed e
              | Ok _ => Done (Ok noRequeue)
              end
          end)) any.
Proof.
  intros Hr. unfold fence. apply safe_ask; [done|]. intros [e|] _; [done|]. apply safe_seq. using deleteRunner_spec.
  walk; answer; match goal with HH : goneSince _ _ _ |- _ => apply cleanup_ready in HH; [|apply planeDone_last] end.
  - eapply dropFinalizer_spec; [apply tracks_read; eauto with ctl|done|]. exists b. split_and!; [done..|]. left. eauto with ctl.
  - eapply safe_mono; [eapply (finish_spec c _ (phase b)); eauto with ctl|]. intros h' [b'|e] [t ->] Hf; [|done].
    destruct (Hf b' eq_refl) as ([p Ht] & Hi & Hp & b0 & rv & Hw & Hp0 & Hu0); [done|].
    eapply dropFinalizer_spec; [done|by eapply cleanup_moves|]. exists b0. unfold uid, ident in *. split_and!; [congruence|by rewrite Hp0|eauto].
Qed.

Lemma delete_spec h b : reads h b -> sf h (reconcileDelete c b) any.
Proof.
  intros Hr. unfold reconcileDelete. destruct (r_Genesis r); [|by apply cleanup_spec].
  destruct (_ && _); [|by apply cleanup_spec]. destruct (ks_StopIntent _); [apply resume_spec|apply stop_spec].
Qed.
End cleanup.

Lemma queued_starting p : queuedPhase p = true -> phase_step p PhaseStarting = true.
Proof. unfold queuedPhase, seqb, sempty. intros [?%bool_decide_eq_true|?%bool_decide_eq_true]%orb_true_iff; by subst. Qed.
Lemma queued_queued p : queuedPhase p = true -> phase_step p PhaseQueued = true.
Proof. unfold queuedPhase, seqb, sempty. intros [?%bool_decide_eq_true|?%bool_decide_eq_true]%orb_true_iff; by subst. Qed.
#[export] Hint Resolve queued_starting queued_queued : ctl.

Section admission.
Context `{External} `{PodTemplate} `{ImageName} `{ReceiptFormat}.
Context (c : Controller).
Local Notation r := (ctl_r c).
Local Notation sf := (safe (guard c) honest).

(** ** The runner Pod *)

Definition admitted (h : history) (cr : KovaBuild) : Prop :=
  exists (q : prog (result admissionDecision)) decision, asked (Plane (OpAdmission cr) q) (Ok decision) ∈ h /\ ad_Admitted decision = true.
Lemma admitted_app h t cr : admitted h cr -> admitted (h ++ t) cr.
Proof. intros (q & d & ? & ?). exists q, d. eauto with ctl. Qed.

Lemma runnerPod_exact cr a : exactPod cr (annotate podCreateAttemptKey a (runnerPod c cr)) = true.
Proof.
  unfold exactPod, runnerPod, ownedBy, with_deadline, podOwnedByBuild, seqb. simpl.
  repeat case_match; simpl; rewrite !bool_decide_true by done; done.
Qed.
Lemma annotate_same k v pod : rp_annotation (annotate k v pod) k = v.
Proof. unfold rp_annotation, mget. simpl. by rewrite lookup_insert_eq. Qed.
Lemma annotate_other k k' v pod : k <> k' -> rp_annotation (annotate k v pod) k' = rp_annotation pod k'.
Proof. intros. unfold rp_annotation, mget. simpl. by rewrite lookup_insert_ne. Qed.

Lemma stamp_spec h cr pod a :
  sf h (stampGenesisPod c cr pod a) (fun _ x => r_Genesis r = None -> x = Ok pod).
Proof. unfold stampGenesisPod. walk. Qed.

Lemma finishFresh_spec h g cr pod a :
  sf h (finishFreshPodAttempt c g cr pod a) (fun h' x =>
    forall pod', x = Ok pod' -> planeDone h' (OpIssuePod cr a) /\ exactPod cr pod' = true /\ rp_annotation pod' podCreateAttemptKey = a).
Proof.
  unfold finishFreshPodAttempt. walk. intros pod' [= <-]. bool_simpl. split_and!; [eauto with ctl|done|]. by rewrite annotate_other.
Qed.

(** The Pod of attempt [a], before its one Create. *)
Definition readyPod (h : history) (cr : KovaBuild) (a : string) (pod : RunnerPod) : Prop :=
  exactPod cr pod = true /\ rp_annotation pod podCreateAttemptKey = a /\ (r_Genesis r <> None -> planeDone h (OpIssuePod cr a)).

Lemma fresh_pod_spec h cr a x :
  (r_Genesis r = None -> x = Ok (annotate podCreateAttemptKey a (runnerPod c cr))) ->
  match x with
  | Err _ => True
  | Ok pod => sf h (match r_Genesis r with Some g => finishFreshPodAttempt c g cr pod a | None => Done (Ok pod) end)
                (fun h' y => forall pod', y = Ok pod' -> readyPod h' cr a pod')
  end.
Proof.
  intros Hx. destruct x as [pod|e]; [|done]. destruct (r_Genesis r) eqn:E.
  - eapply safe_mono; [apply finishFresh_spec|]. intros ? ? _ Hf pod' Hp. destruct (Hf pod' Hp) as (? & ? & ?). by split_and!.
  - specialize (Hx eq_refl). simplify_eq/=. apply safe_done. intros pod' [= <-]. unfold readyPod. rewrite E.
    split_and!; [apply runnerPod_exact|apply annotate_same|done].
Qed.

Lemma complete_spec h cr a : sf h (complete c cr a) any.
Proof. unfold complete. walk. Qed.
Lemma rejected_spec h p0 e a b :
  Tracks c h p0 b -> isTerminalPhase p0 = false -> sf h (createRejected c e a b) any.
Proof.
  intros. unfold createRejected, ended. walk.
  - using complete_spec. walk. using finishing_spec. walk.
  - using finishing_spec. walk.
Qed.
Lemma won_spec h a cr : sf h (createWon c a cr) any.
Proof.
  unfold createWon, qualifyGenesisPod. walk. using getOwned_spec. walk.
  - using qualify_spec. walk. using complete_spec. walk. using completeObserved_spec. walk.
  - using complete_spec. walk. using completeObserved_spec. walk.
Qed.
Lemma adopt_spec h cr pod : sf h (adoptPod c cr pod) any.
Proof.
  unfold adoptPod, qualifyGenesisPod. walk.
  - using qualify_spec. walk. using completeObserved_spec. walk.
  - using completeObserved_spec. walk.
Qed.

Lemma createPod_spec h p0 b :
  Tracks c h p0 b -> isTerminalPhase p0 = false -> admitted h (b_cr b) -> podGone h (b_cr b) -> sf h (createPod c b) any.
Proof.
  intros Ht Hp (q & d & Hq & Hd) Hg. unfold createPod, markAdmissionRecovery. apply safe_ask; [done|]. intros [a|e] _.
  2: { walk. using markRecovery_spec. walk. }
  apply safe_seq. eapply safe_mono; [apply stamp_spec|]. intros h1 x [t1 ->] Hs. pose proof (fresh_pod_spec ((h ++ [asked (Plane (OpBeginPod (b_cr b)) (beginPodCreate r (b_cr b))) (Ok a)]) ++ t1) _ _ x Hs) as Hf.
  destruct x as [pod|e]; [|done]. apply safe_seq. eapply safe_mono; [exact Hf|]. intros h2 y [t2 ->] Hy.
  destruct y as [pod'|e]; [|done]. destruct (Hy pod' eq_refl) as (He & Han & Hiss). apply safe_ask.
  - exists (b_cr b), a, (beginPodCreate r (b_cr b)), q, d. split_and!; [eauto with ctl..].
  - intros [e|] _; [walk; [apply won_spec|eapply rejected_spec; eauto with ctl]|]. unfold qualifyGenesisPod. walk.
    + using getOwned_spec. walk. all: using qualify_spec; walk; using complete_spec; walk.
    + using complete_spec. walk.
Qed.

Ltac writes := eapply safe_mono; [eapply statusWrite_spec, steps_lawful; repeat apply steps_status|intros; walk].

Lemma markStarting_spec h p0 n b :
  Tracks c h p0 b -> queuedPhase p0 = true -> sf h (markStarting c n b) any.
Proof.
  intros Ht Hp. unfold markStarting, qualifyGenesisPod. apply safe_ask; [done|]. intros now _.
  set (b1 := on_status _ _). assert (forall h', h `prefix_of` h' -> Steps c h' b1) as Hb1.
  { intros h' [t ->]. eapply steps_status, steps_runner, (steps_phase c _ p0); eauto with ctl. }
  apply safe_seq. eapply safe_mono with (Q := fun h' x => forall b2, x = Ok b2 -> Steps c h' b2).
  - clearbody b1. walk; [|intros b2 [= <-]; apply Hb1; by eexists]. using getOwned_spec. walk; using qualify_spec; walk.
    all: intros b2 [= <-]; apply steps_status, Hb1; rewrite <- ?app_assoc; by eexists.
  - intros h' [b2|e] _ Hb2; [|done]. specialize (Hb2 b2 eq_refl). clearbody b1. walk.
    all: using condition_spec; match goal with HH : exists l, _ = _ |- _ => destruct HH as [l ->] end.
    all: walk; writes; eauto with ctl.
Qed.

Lemma waitForCapacity_spec h p0 m b :
  Tracks c h p0 b -> queuedPhase p0 = true -> sf h (waitForCapacity m b) any.
Proof.
  intros Ht Hp. unfold waitForCapacity. walk. using condition_spec. match goal with HH : exists l, _ = _ |- _ => destruct HH as [l ->] end.
  walk. writes. eapply (steps_phase c _ p0); eauto with ctl.
Qed.

Lemma makePod_spec h p0 n b :
  Tracks c h p0 b -> queuedPhase p0 = true -> admitted h (b_cr b) ->
  sf h (get+ owned := getOwnedRunnerPod c (b_cr b) else failed in
        let+ made := match owned with
                     | Some pod =>
                         let+ e := adoptPod c (b_cr b) pod in
                         Done (match e with Some e => Ends (Err e) | None => Created end)
                     | None => createPod c b
                     end in
        match made with
        | Ends x => Done x
        | Created => markStarting c n b
        end) any.
Proof.
  intros Ht Hp Ha. apply safe_seq. using getOwned_spec. walk.
  - using adopt_spec. walk. eapply markStarting_spec; eauto with ctl.
  - match goal with HH : exists t, _ |- _ => destruct HH as (t & Et & Hg) end. rewrite Et.
    eapply safe_mono; [eapply createPod_spec; [eauto with ctl|by apply queued_live|by apply admitted_app|eauto with ctl]|].
    intros h' made [t' ->] _. walk. eapply markStarting_spec; eauto with ctl.
Qed.

Lemma startRunner_spec h p0 n b :
  Tracks c h p0 b -> queuedPhase p0 = true -> admitted h (b_cr b) -> sf h (startRunner c n b) any.
Proof.
  intros Ht Hp Ha. unfold startRunner, queueRelease, queueFailed. cbv zeta. destruct (r_Genesis r).
  2: apply safe_ask; [done|]; intros [e|] _; [walk; using markRecovery_spec; walk|].
  all: destruct (negb (ctl_scheme c)); [eapply finishing_spec; eauto with ctl|].
  all: eapply makePod_spec; [eauto with ctl|done|first [done|by apply admitted_app]].
Qed.

Lemma startBuild_spec h p0 b : Tracks c h p0 b -> isTerminalPhase p0 = false -> sf h (startBuild c b) any.
Proof.
  intros Ht Hp. unfold startBuild, queueFailed. walk.
  - eapply finishing_spec; eauto with ctl.
  - eapply waitForCapacity_spec; [apply tracks_read; eauto with ctl|]. by bool_simpl.
  - eapply startRunner_spec; [apply tracks_read; eauto with ctl|by bool_simpl|]. eexists _, _. split; [apply asked_last|]. by bool_simpl.
  - using markRecovery_spec. walk.
Qed.

(** ** [Reconcile] *)

Lemma queued_spec h p0 b : Tracks c h p0 b -> isTerminalPhase p0 = false -> sf h (reconcileQueued c b) any.
Proof.
  intros Ht Hp. unfold reconcileQueued. walk.
  all: first [eapply finishing_spec; eauto with ctl; done|eapply startBuild_spec; eauto with ctl].
Qed.

Lemma phase_spec h b : reads h b -> sf h (reconcilePhase c b) any.
Proof.
  intros Hr. pose proof (tracks_read c h b Hr) as Ht. unfold reconcilePhase. walk; bool_simpl.
  - by apply terminal_spec.
  - by eapply queued_spec.
  - eapply submitWhenReady_spec; [done|]. match goal with HH : phase b = _ |- _ => by rewrite HH end.
  - eapply pollBuild_spec; [done|]. match goal with HH : phase b = _ |- _ => by rewrite HH end.
  - apply verifying_spec. match goal with HH : phase b = PhaseVerifying |- _ => by rewrite <- HH end.
  - by eapply failedVerifying_spec.
Qed.

Lemma live_spec h b : reads h b -> sf h (reconcileLive c b) any.
Proof.
  intros Hr. pose proof (tracks_read c h b Hr) as Ht. unfold reconcileLive, reconcileCancellation. walk; bool_simpl.
  all: first [apply resume_spec|by apply phase_spec|by eapply genesisCancellation_spec|by eapply cancelBuild_spec].
Qed.

(** Every request of a reconcile is allowed. *)
Lemma reconcile_spec ns name : sf [] (Reconcile c ns name) any.
Proof.
  unfold Reconcile. apply safe_ask; [done|]. intros [b|e] Hb; [|walk].
  assert (reads ([] ++ [asked (ReadBuild false ns name) (Ok b)]) b) as Hr by apply reads_last.
  destruct (IsInertBuildTombstone _); [done|]. destruct (kb_deleting _); [by apply delete_spec|].
  destruct (AddFinalizer b cleanupFinalizer) as [b'|] eqn:E; [|by apply live_spec].
  assert (cleanupFinalizer ∈ kb_finalizers (b_cr b')) as Hf.
  { unfold AddFinalizer in E. destruct (bool_decide _); simplify_eq/=. apply elem_of_app. right. by left. }
  walk; by left.
Qed.
End admission.
