(* ===== verification/ControllerTheorems.v ===== *)
(** * What the build controller never does

    Whatever the API server, the runner, the registry, the ledgers and other
    clients answer, every request of a reconcile is allowed by [ControllerSpec].  The last section is
    about the one thing that is allowed although it should not be: under Genesis a
    stale cache makes a reconcile reopen a build. *)
From S2P Require Import Prelude Free GoText Types Kube Contract Genesis QueueLedger QueueOps ActiveLedger FairQueue ActiveOps GrantOps BuildContract Manifest BuildStatus BuildResult ControlPlane RunnerExec RunnerWitness BuildController Lifecycle Reconcile ControllerSpec ReceiptFacts ControllerFacts ControllerReconcile.

Section controller.
Context `{External} `{PodTemplate} `{ImageName} `{ReceiptFormat}.
Context (c : Controller) (ns name : string) (tr : history) (x : step_result).
Hypothesis Hrun : fruns (Reconcile c ns name) tr x.
Hypothesis Hhonest : Forall (answered honest) tr.

Lemma request_allowed {X} pre (e : ctl X) y post : tr = pre ++ asked e y :: post -> guard c pre X e.
Proof.
  intros E. destruct (safe_runs _ _ _ _ _ _ _ (reconcile_spec c ns name) Hrun Hhonest) as [Hf _].
  by apply (follows_at _ _ _ _ _ _ Hf E).
Qed.

(** C14: every status write of a reconcile is a step of the build's life cycle.
    Without Genesis it steps from the phase of exactly the version of the build
    it replaces: its resource version is that of a read of the same build, or the
    one that an earlier status write of the same reconcile returned, and the new
    phase follows the phase of that read or write.  So a write the API server
    accepts never leaves a terminal phase.  Under Genesis, where the build is read
    again before a write, it steps from the phase of the reads of the build,
    provided they all show the same one. *)
Theorem status_writes_lawful pre b rv post :
  tr = pre ++ asked (UpdateStatus b) rv :: post ->
  (r_Genesis (ctl_r c) = None ->
   (exists b0, reads pre b0 /\ uid b0 = uid b /\ kb_rv (b_cr b0) = kb_rv (b_cr b) /\ phase_step (phase b0) (phase b) = true) \/
   (exists b', wrote pre b' (kb_rv (b_cr b)) /\ uid b' = uid b /\ phase_step (phase b') (phase b) = true)) /\
  (r_Genesis (ctl_r c) <> None ->
   forall p, (forall b0, reads pre b0 -> uid b0 = uid b -> phase b0 = p) -> phase_step p (phase b) = true).
Proof.
  intros E. destruct (request_allowed _ _ _ _ E) as [[Hv Hr] _]. split.
  - intros Hg. destruct (Hv Hg) as (p & [(b0 & ? & ? & ? & <-)|(b' & ? & ? & <-)] & ?); [left; by exists b0|right; by exists b'].
  - intros Hg p Hp. destruct (Hr Hg) as (b0 & Hb & Hu & Hs). by rewrite <- (Hp b0).
Qed.

(** C13: a build is recorded as Succeeded only with one result per expected output,
    all of them succeeded with a pushed digest, and with exactly those outputs;
    any other write of the phase Succeeded repeats one that was read. *)
Theorem success_is_verified pre b rv post :
  tr = pre ++ asked (UpdateStatus b) rv :: post -> phase b = PhaseSucceeded ->
  (exists b0, reads pre b0 /\ uid b0 = uid b /\ phase b0 = PhaseSucceeded) \/
  (VerificationDone (ks_VerificationResults (b_status b)) = (true, false) /\ validVerificationResults b = true /\
   ks_Outputs (b_status b) = VerificationOutputs (ks_VerificationResults (b_status b))).
Proof. intros E Hp. destruct (request_allowed _ _ _ _ E) as [_ Hs]. by apply Hs. Qed.

(** C11: a Pod is deleted only by the UID of a Pod that was read and is the exact,
    owned runner Pod of a build that was read; under Genesis moreover only when
    that build is terminal or carries its own stop intent, its charge was read
    fenced, and the Pod was verified against its pinned receipt. *)
Theorem only_own_pods_deleted pre pns pname puid e post :
  tr = pre ++ asked (DeletePod pns pname puid) e :: post ->
  exists pod b, reads pre b /\ sawPod pre pod /\ exactPod (b_cr b) pod = true /\
    pod_ns (rp_obj pod) = pns /\ pod_name (rp_obj pod) = pname /\ pod_uid (rp_obj pod) = puid /\ puid <> "" /\
    (r_Genesis (ctl_r c) <> None ->
     (isTerminalPhase (phase b) = true \/ validGenesisStopIntent b = true) /\
     (exists entry, charge pre (b_cr b) entry /\ ar_Closing entry = true) /\ planeDone pre (OpVerifyPod (b_cr b))).
Proof. intros E. exact (request_allowed _ _ _ _ E). Qed.

(** C9: active capacity is released only after the reservation was fenced, after
    that the runner's name was read and found free, and a terminal status of the
    build was read or written; and the cleanup finalizer is removed only after
    both the capacity and the queue slot were released. *)
Theorem capacity_released_last :
  (forall pre {X} cr (p : prog X) y post, tr = pre ++ asked (Plane (OpRelease cr) p) y :: post ->
   (exists h1 h2 cr', pre = h1 ++ h2 /\ ident cr' = ident cr /\ planeDone h1 (OpFence cr') /\ podGone h2 cr) /\
   exists b, uid b = kb_uid cr /\ isTerminalPhase (phase b) = true /\ (reads pre b \/ exists rv, wrote pre b rv)) /\
  (forall pre b y post, tr = pre ++ asked (UpdateObject b) y :: post -> cleanupFinalizer ∉ kb_finalizers (b_cr b) ->
   exists cr, ident cr = ident (b_cr b) /\ planeDone pre (OpRelease cr) /\ planeDone pre (OpQueueRelease cr)).
Proof.
  split; [intros pre X cr p y post E; exact (request_allowed _ _ _ _ E)|].
  intros pre b y post E Hf. by destruct (request_allowed _ _ _ _ E).
Qed.

(** C12: a runner Pod is created only for a build the admission decision admitted,
    under a recorded Create attempt stamped on it, as that build's exact owned
    Pod and after its name was read and found free; under Genesis the attempt was
    armed, receipted, pinned and issued first. *)
Theorem pod_created_for_attempt pre pod e post :
  tr = pre ++ asked (CreatePod pod) e :: post ->
  exists cr attempt (p : prog (result string)) (q : prog (result admissionDecision)) decision,
    asked (Plane (OpAdmission cr) q) (Ok decision) ∈ pre /\ ad_Admitted decision = true /\
    asked (Plane (OpBeginPod cr) p) (Ok attempt) ∈ pre /\ podGone pre cr /\ exactPod cr pod = true /\
    rp_annotation pod podCreateAttemptKey = attempt /\
    (r_Genesis (ctl_r c) <> None -> planeDone pre (OpIssuePod cr attempt)).
Proof. intros E. exact (request_allowed _ _ _ _ E). Qed.

(** C10: under Genesis a build is submitted to a runner only immediately after the
    live grant was read completely: the live Starting build with its witness, an
    open charge with nothing in flight, the verified grant and Pod receipts, and
    last the original pair again; and the command is fenced to the witnessed Pod
    UID. *)
Theorem submission_is_granted pre pns pname command reply post :
  tr = pre ++ asked (Exec pns pname command) reply :: post ->
  is_submit command = true -> r_Genesis (ctl_r c) <> None ->
  exists h0 (p : prog (option error)) b w entry,
    pre = h0 ++ [asked (Plane OpCheck p) None] /\ reads h0 b /\ phase b = PhaseStarting /\
    cancellationRequested (b_cr b) = false /\ kb_deleting (b_cr b) = false /\ ks_Witness (b_status b) = Some w /\
    charge h0 (b_cr b) entry /\ ar_Closing entry = false /\ inFlight entry = false /\
    planeDone h0 (OpVerifyGrant (b_cr b)) /\ planeDone h0 (OpVerifyPod (b_cr b)) /\
    (gw_PodUID w <> "" /\ exists l, command = l ++ ["--expected-pod-uid"; gw_PodUID w]).
Proof. intros E. exact (request_allowed _ _ _ _ E). Qed.
End controller.

(** ** A stale cache

    The first read of a reconcile comes from the informer cache.  Under Genesis
    the build is then read again, directly, and that object is written, but its
    phase is not looked at again. *)
Section stale.
Context `{External} `{PodTemplate} `{ImageName} `{ReceiptFormat}.
Context (c : Controller) (cached cur : Build) (pod : RunnerPod) (w : AdmissionGenesisWitness) (st : BuildState).
Local Notation r := (ctl_r c).

(** The cache shows the build running; the build itself, [cur], is in any phase,
    with the same runner witness, and its runner Pod still exists. *)
Record staleBuild : Prop := {
  sb_genesis : r_Genesis r <> None;
  sb_reader : r_hasAPIReader r = true;
  sb_running : phase cached = PhaseRunning;
  sb_live : kb_deleting (b_cr cached) = false;
  sb_build : IsInertBuildTombstone (b_cr cached) = false;
  sb_finalizer : cleanupFinalizer ∈ kb_finalizers (b_cr cached);
  sb_wanted : cancellationRequested (b_cr cached) = false;
  sb_unstopped : ks_StopIntent (b_status cached) = None;
  sb_witness : ks_Witness (b_status cached) = Some w /\ ks_Witness (b_status cur) = Some w;
  sb_uid : uid cached = uid cur /\ uid cur <> "";
  sb_name : kb_name (b_cr cached) = kb_name (b_cr cur);
  sb_current : kb_deleting (b_cr cur) = false;
  sb_podName : kb_runnerPod (b_cr cur) = gw_PodName w /\ gw_PodName w = buildPodName (kb_name (b_cr cur));
  sb_owned : podOwnedByBuild (rp_obj pod) (b_cr cur) = true;
  sb_pod : witnessFromPodMode c (b_cr cur) (Some pod) false = Ok w;
  sb_outputs : (0 < Z.of_nat (List.length (Pending (b_cr cur))) <= MaxConcreteOutputs)%Z }.

(** The runner has completed the build's request. *)
Definition completed : Prop := st_Status st = "completed" /\ st_RequestID st = gw_RunnerRequestID w.

Definition staleAnswers (X : Type) (e : ctl X) : X -> Prop :=
  match e in ctl X return X -> Prop with
  | ReadBuild false _ _ => fun x => x = Ok cached
  | ReadBuild true _ _ => fun x => x = Ok cur
  | ReadPod _ _ _ => fun x => x = Ok pod
  | Exec _ _ _ => fun x => statusReply x = Ok st
  | _ => fun _ => True
  end.

Local Notation ans h p Q := (safe (fun _ X (_ : ctl X) => True) staleAnswers h p Q).

(** The build was written as verifying, over the version that was read directly. *)
Definition reopened (h : history) : Prop :=
  exists b rv, asked (UpdateStatus b) rv ∈ h /\ uid b = uid cur /\ kb_rv (b_cr b) = kb_rv (b_cr cur) /\ phase b = PhaseVerifying.

Hypothesis Hstale : staleBuild.
Hypothesis Hdone : completed.

Lemma stale_witness h b :
  ks_Witness (b_status b) = Some w -> uid b = uid cur -> kb_name (b_cr b) = kb_name (b_cr cur) ->
  ans h (directGenesisWitness c b) (fun _ x => x = Ok (cur, pod)).
Proof.
  intros Hw Hu Hn. destruct Hstale as [Hg Hr _ _ _ _ _ _ [_ Hw'] [_ Hu'] _ Hd [Hp1 Hp2] Ho Hp _].
  unfold directGenesisWitness, directGenesisWitnessModeWithObservation. destruct (r_Genesis r) as [g|]; [|done].
  rewrite Hr. unfold uid in *. unfold sempty. rewrite Hu, (bool_decide_eq_false_2 _ Hu'). cbn [negb orb assertObservation observedRead].
  apply safe_ask; [done|]. intros x ->. rewrite Hw, Hw'. cbn [negb andb]. rewrite Hd, Hp1, Hp2, Hn. unfold seqb.
  rewrite !bool_decide_eq_true_2 by done. cbn [negb orb]. unfold getOwnedRunnerPod.
  apply safe_seq, safe_ask; [done|]. intros y ->. rewrite Ho. apply safe_done. rewrite Hp, bool_decide_eq_true_2 by done. done.
Qed.

Lemma witness_request cr p w' : witnessFromPodMode c cr (Some p) false = Ok w' -> gw_RunnerRequestID w' = RequestID cr.
Proof. unfold witnessFromPodMode. repeat case_match; try done. by intros [= <-]. Qed.

Lemma stale_observes h b :
  ks_Witness (b_status b) = Some w -> uid b = uid cur -> kb_name (b_cr b) = kb_name (b_cr cur) ->
  ans h (observeBuildStatus c b) (fun _ x => x = Ok st).
Proof.
  intros Hw Hu Hn. unfold observeBuildStatus. pose proof (sb_genesis Hstale) as Hg. destruct (r_Genesis r) as [g|] eqn:Eg; [|done].
  apply safe_seq. eapply safe_mono; [by apply stale_witness|]. intros h1 x _ ->. unfold BuildStatusRequest.
  apply safe_seq, safe_ask; [done|]. intros reply Hreply. apply safe_done. rewrite Hreply.
  apply safe_seq. eapply safe_mono; [by apply stale_witness|]. intros h2 x _ ->. rewrite Hw.
  destruct Hdone as [Hs Hid]. rewrite Hs, Hid. pose proof (sb_pod Hstale) as Hp.
  assert (Hpod : pod_uid (rp_obj pod) <> "") by (by destruct (witness_pod _ _ _ _ _ Hp) as (_ & <- & ? & _)).
  change (seqb "completed" "idle") with false. unfold samePodUID, sempty, seqb.
  rewrite (bool_decide_eq_false_2 _ Hpod), !bool_decide_eq_true_2 by done. by apply safe_done.
Qed.

Lemma stale_begins h b :
  ks_Witness (b_status b) = Some w -> uid b = uid cur -> kb_name (b_cr b) = kb_name (b_cr cur) ->
  ans h (finishObservedBuild c st b) (fun h' _ => reopened h').
Proof.
  intros Hw Hu Hn. unfold finishObservedBuild. rewrite (proj1 Hdone). change (WaitDecision "completed") with (true, true, @None error).
  cbv iota. unfold beginVerification, beginVerificationPhase. pose proof (sb_genesis Hstale) as Hg.
  destruct (r_Genesis r) as [g|] eqn:Eg; [|done].
  apply safe_seq, safe_seq. eapply safe_mono; [by apply stale_witness|]. intros h1 x _ ->. apply safe_done.
  pose proof (sb_outputs Hstale) as Hout. destruct (Nat.eqb_spec (List.length (Pending (b_cr cur))) 0); [lia|].
  destruct (Z.ltb_spec MaxConcreteOutputs (Z.of_nat (List.length (Pending (b_cr cur))))); [lia|]. cbn [orb].
  apply safe_ask; [done|]. intros now _. apply safe_seq. unfold setPhaseCondition. apply safe_ask; [done|]. intros now' _. apply safe_done.
  unfold persistVerificationStatus. rewrite Eg. apply safe_seq, safe_seq.
  eapply safe_mono; [apply stale_witness; [by destruct (sb_witness Hstale)|done|done]|]. intros h2 x [t2 ->] ->.
  unfold statusUpdate. apply safe_ask; [done|]. intros [rv|e] _; apply safe_done, safe_done;
    eexists _, _; (split; [apply elem_of_app; right; by left|done]).
Qed.

Lemma stale_expired h b : ans h (expired c b) (fun _ _ => True).
Proof.
  unfold expired. destruct (ks_StartedAt (b_status b)); [|done]. destruct (_ <=? _)%Z; [done|].
  apply safe_ask; [done|]. intros now _. by apply safe_done.
Qed.

Lemma stale_polls h : ans h (pollBuild c cached) (fun h' _ => reopened h').
Proof.
  destruct (sb_witness Hstale) as [Hwc Hw]. destruct (sb_uid Hstale) as [Huc Hu]. pose proof (sb_name Hstale) as Hn.
  unfold pollBuild, witnessedBuild. pose proof (sb_genesis Hstale) as Hg. destruct (r_Genesis r) as [g|] eqn:Eg; [|done].
  apply safe_seq, safe_seq. eapply safe_mono; [by apply stale_witness|]. intros h1 x _ ->. apply safe_done.
  assert (Hwait : WaitDecision (st_Status st) = (true, true, None)) by (by rewrite (proj1 Hdone)).
  unfold unlessExpired, reconcileExpiredBuild. apply safe_seq, safe_seq.
  eapply safe_mono; [apply stale_expired|]. intros h2 late _ _. destruct late; cbn [negb].
  - apply safe_seq. eapply safe_mono; [by apply stale_observes|]. intros h3 x _ ->. rewrite Eg. apply safe_seq.
    rewrite (proj1 Hdone). change (seqb "completed" "idle") with false. cbv iota. rewrite <- (proj1 Hdone), Hwait.
    eapply safe_mono; [by apply stale_begins|]. intros h4 y _ Hy. by apply safe_done, safe_done.
  - apply safe_done, safe_seq. eapply safe_mono; [by apply stale_observes|]. intros h3 x _ ->. rewrite Hwait.
    assert (Hid : st_RequestID st = RequestID (b_cr cur)).
    { rewrite (proj2 Hdone). exact (witness_request _ _ _ (sb_pod Hstale)). }
    rewrite Hid. unfold seqb. rewrite bool_decide_eq_true_2 by done. cbn [negb]. rewrite andb_false_r. by apply stale_begins.
Qed.

(** C40: under Genesis a reconcile whose cache shows a build running reopens the
    build, whatever phase it is in: if the build read directly carries the same
    witness, its runner Pod still exists and the runner reports the build's
    request completed, then every reconcile writes the build as Verifying over
    the version it read directly, also when that version is Succeeded, Failed or
    Cancelled. *)
Theorem stale_poll_reopens_build ns name tr x :
  fruns (Reconcile c ns name) tr x -> Forall (answered staleAnswers) tr ->
  exists b rv, asked (UpdateStatus b) rv ∈ tr /\ uid b = uid cur /\ kb_rv (b_cr b) = kb_rv (b_cr cur) /\ phase b = PhaseVerifying.
Proof.
  intros Hr Ha. enough (ans [] (Reconcile c ns name) (fun h' _ => reopened h')) as Hs by exact (proj2 (safe_runs _ _ _ _ _ _ _ Hs Hr Ha)).
  pose proof Hstale as [Hg _ Hp Hl Hb Hf Hc Hst _ _ _ _ _ _ _ _]. unfold Reconcile. apply safe_ask; [done|]. intros y ->.
  rewrite Hb, Hl. unfold AddFinalizer. rewrite bool_decide_eq_true_2 by done. unfold reconcileLive, reconcilePhase.
  rewrite Hc, Hst, Hp. cbn [andb]. rewrite bool_decide_eq_false_2 by (by intros [? ?]). cbn [andb].
  destruct (r_Genesis r) as [g|]; [|done]. apply stale_polls.
Qed.
End stale.
