(* ===== verification/System.v ===== *)
(** * All controllers together on the active ledger

    [ControllerSpec] treats an admission operation as one request.  Here each such
    request of a reconcile is shown to carry a program that respects the active
    ledger: every one of its own requests is an abstract step of the ledger
    committed at that moment ([activeG]).  Then the programs are put back in place
    ([expand]), and any number of reconciles of any number of replicas run
    interleaved, request by request, with each other and with every other client. *)
From S2P Require Import Prelude Free GoText Json JsonFacts AdmissionJson Sha256 Types JsonSize Kube Contract Genesis GenesisFacts QueueReceipt Effects QueueLedger QueueCodec QueueOps QueueSpec ActiveLedger ActiveCodec FairQueue FairFacts ActiveOps GrantOps ActiveReads ActiveSpec ActiveWp ActiveTheorems BuildContract Manifest BuildStatus BuildResult ControlPlane RunnerExec RunnerWitness BuildController Lifecycle Reconcile ControllerSpec.

(** ** The queue release stays off the active ledger *)

Section queue.
Context `{External} `{ApiServer}.
Context (r : Reconciler) (ns : string).
Context (K : akind -> Prop).
Hypothesis Hrok : reconciler_ok r.
#[local] Abbreviation G := (activeG r ns K).
#[local] Abbreviation s := (queueStoreForNamespace r ns).
#[local] Abbreviation off := (emits (@off_key (ActiveSpec.akey ns))).

Lemma plane_guard g : r_Genesis r = Some g -> guard_reads g.
Proof. by apply reconciler_reads. Qed.
#[local] Hint Resolve plane_guard : emits.

Lemma reads_off {A} (p : prog A) : emits (@read_only) p -> off p.
Proof. apply emits_mono. intros X e. apply read_only_off. Qed.

Lemma Guard_Check_off g : r_Genesis r = Some g -> off (Guard_Check g).
Proof. intros Eg. apply reads_off. by apply Guard_Check_reads, plane_guard. Qed.

Definition queue_key (x : result (ConfigMap * QueueLedger.state)) : Prop :=
  match x with Ok (cm, _) => cm_key cm = (ns, ConfigMapName) | Err _ => True end.

Lemma queue_read_wp w : wp G (QueueOps.read s) (fun _ x => queue_key x) w.
Proof.
  unfold QueueOps.read, QueueOps.readWithObservation. eapply wp_seq.
  { apply wp_aread_only. cbn. destruct (r_Genesis r) as [g|] eqn:Eg in |- *; [|done]. pose proof (plane_guard g Eg). emits_tac. }
  intros w1 [e|] _ _; [done|]. eapply wp_seq with (R := fun _ x => match x with Ok cm => cm_key cm = (ns, ConfigMapName) | Err _ => True end).
  { unfold readObject. cbn. intros w2 _ x w3 Hst. split; [eapply activeG_same; [done|by eapply frame]|].
    destruct x as [cm|e]; [|done]. pose proof (get_key _ _ _ _ _ Hst).
    destruct (r_Genesis r) as [g|]; [destruct (CheckLedger g cm Queue)|]; done. }
  intros w2 [cm|e] _ HQ; [|done]. simpl. destruct (qualifyRead s cm) as [[cm' st]|] eqn:Eq; [|done].
  pose proof Eq as (st' & [= -> <-] & _)%qualifyRead_inv. done.
Qed.

Lemma queue_write_off cm next : cm_key cm = (ns, ConfigMapName) -> off (QueueOps.write s cm next).
Proof.
  intros Hk. assert (Hne : cm_key cm <> ActiveSpec.akey ns) by (rewrite Hk; by intros [=]).
  unfold QueueOps.write. destruct (_ || _); [done|]. destruct (encodeState next); [|done]. cbn.
  destruct (r_Genesis r) as [g|] eqn:Eg in |- *; [|by split].
  pose proof (Guard_Check_off g Eg) as Hg. unfold PatchLedgerData.
  repeat first [exact I|exact Hg|apply reads_off, classify_reads, plane_guard; done|split; [exact Hne|intros; exact I]
               |split; [exact I|intros; exact I]|apply emits_bind; [|intros ?]|case_match].
Qed.

Lemma queue_lookup_off id : off (QueueOps.Lookup s id).
Proof. apply reads_off, Lookup_reads, store_reads, plane_guard. Qed.
Lemma wait_off {A} retry (f : error -> A) : off (wait_continue retry f).
Proof. unfold wait_continue, waitCAS. emits_tac. Qed.

Lemma casWrite_off {A} retry cm next (fail : error -> A) finish failed :
  cm_key cm = (ns, ConfigMapName) -> off finish -> (forall e, off (failed e)) -> off (casWrite s retry cm next fail finish failed).
Proof.
  intros Hk Hf He. unfold casWrite. apply emits_bind; [by apply queue_write_off|]. intros [e|]; [|done].
  case_match; [apply wait_off|done].
Qed.

Lemma casRemove_off retry cm st id : cm_key cm = (ns, ConfigMapName) -> off (casRemove s retry cm st id).
Proof.
  intros Hk. apply casWrite_off; [done|done|]. intros e. apply emits_bind; [apply queue_lookup_off|]. intros x. by case_match.
Qed.

(** An iteration that reads the queue ledger and then stays off the active one. *)
Lemma queue_loop_wp {A} (f : nat -> result (ConfigMap * QueueLedger.state) -> prog (option A)) n busy w :
  (forall i x, queue_key x -> off (f i x)) -> wp G (retry_loop n 0 (fun i => bind (QueueOps.read s) (f i)) busy) (fun _ _ => True) w.
Proof.
  intros Hf. apply wp_loop with (I := fun _ => True); [done|done|]. intros i w' _.
  eapply wp_seq; [apply queue_read_wp|]. intros w1 x _ Hx. eapply wp_mono; [apply wp_aoff, Hf, Hx|]. by intros w2 [|].
Qed.

Lemma markReady_wp id e kind w : wp G (markReceiptCleanupReady s id e kind) (fun _ _ => True) w.
Proof.
  unfold markReceiptCleanupReady. destruct (negb _); [done|]. apply queue_loop_wp. intros i [[cm st]|err] Hk; [|done].
  repeat first [exact I|case_match]. apply casWrite_off; [done|done|]. intros err.
  apply emits_bind; [apply queue_lookup_off|]. intros x. by case_match.
Qed.

Lemma receiptName_active nonce : receiptName nonce <> reservationConfigMap.
Proof. unfold receiptName, queueReceiptPrefix, reservationConfigMap. rewrite !append_cons. discriminate. Qed.

Lemma queue_receipt_off e : off (deletePinnedReceipt s e).
Proof.
  unfold deletePinnedReceipt. cbn. destruct (r_Genesis r) as [g|] eqn:Eg; [|done].
  assert (Hg : off (Guard_Check g)) by (by apply Guard_Check_off).
  assert (Hc : off (CheckReceiptNamespace s)) by (apply reads_off, CheckReceiptNamespace_reads).
  destruct (_ || _); [done|]. apply emits_bind; [exact Hc|]. intros [err|]; [done|]. simpl. split; [done|].
  intros [cur|err]; [|destruct (IsNotFound err); [exact Hg|done]].
  destruct (DigestData _); [|done]. destruct (_ || _) eqn:Eb; [done|]. bool_simpl.
  apply emits_bind; [exact Hg|]. intros [err|]; [done|]. simpl. split.
  { intros [= _ Hn]. apply (receiptName_active (it_Nonce e)). congruence. }
  intros de. split; [done|]. intros [after|err]; [|destruct (IsNotFound err); [exact Hg|done]].
  destruct (negb _); [done|]. by destruct de.
Qed.

Lemma settled_off build e : off (markReceiptSettled s build e).
Proof.
  unfold markReceiptSettled. cbn. destruct (r_Genesis r) as [g|] eqn:Eg; [|done]. pose proof (Guard_Check_off g Eg).
  apply emits_loop. intros i. unfold settleIteration, wait_continue, waitCAS. emits_tac.
Qed.

Lemma ReleaseForBuild_plane build w : wp G (ReleaseForBuild s build) (fun _ _ => True) w.
Proof.
  unfold ReleaseForBuild. cbn [s_Genesis queueStoreForNamespace]. destruct (r_Genesis r) as [g|] eqn:Eg.
  2:{ destruct (sempty _); [done|]. apply queue_loop_wp. intros i [[cm st]|err] Hk; [|done].
      repeat first [exact I|case_match]. by apply casRemove_off. }
  unfold releaseReceiptedBuild. destruct (_ || _); [done|]. destruct (sempty _); [done|].
  apply wp_loop with (I := fun _ => True); [done|done|]. intros i w1 _. unfold releaseReceiptedIteration.
  eapply wp_seq; [apply queue_read_wp|]. intros w2 [[cm st]|err] _ Hk; [|done]. case_match.
  2:{ eapply wp_seq; [apply wp_aread_only|done]. pose proof (plane_guard g Eg). unfold confirmSettled. emits_tac. }
  case_match; [done|]. case_match.
  { eapply wp_seq; [apply wp_aread_only|]. { unfold observePinnedReceipt. apply pinned_receipt_reads, store_reads, plane_guard. }
    intros w3 [err|] _ _; [done|]. eapply wp_seq; [apply markReady_wp|]. by intros w4 [err|]. }
  case_match; [done|]. eapply wp_seq; [apply wp_aoff, queue_receipt_off|]. intros w3 [err|] _ _; [done|].
  eapply wp_seq; [apply wp_aoff, settled_off|]. intros w4 [err|] _ _; [done|].
  eapply wp_mono; [by apply wp_aoff, casRemove_off|]. by intros w5 [|].
Qed.
End queue.

(** ** Every admission request of a reconcile *)

#[global] Arguments fbind : simpl never.
#[global] Arguments fcall : simpl never.

Section plane.
Context `{External} `{ApiServer} `{PodTemplate} `{ImageName} `{ReceiptFormat}.
Context (c : Controller) (ns : string).
#[local] Abbreviation r := (ctl_r c).
#[local] Abbreviation G := (activeG (ctl_r c) ns (fun _ => True)).
Hypothesis Hrok : reconciler_ok (ctl_r c).

Definition planeOK (h : history) (X : Type) (e : ctl X) : Prop :=
  match e with
  | Plane _ p => forall w, wp G p (fun _ _ => True) w
  | Api _ => False
  | _ => True
  end.

(** What is known of a result: builds stay in their namespace. *)
Class Stays (A : Type) := stays : A -> Prop.
#[local] Instance stays_any A : Stays A | 100 := fun _ => True.
#[local] Instance stays_build : Stays Build := fun b => kb_ns (b_cr b) = ns.
#[local] Instance stays_cr : Stays KovaBuild := fun b => kb_ns b = ns.
#[local] Instance stays_result A `{Stays A} : Stays (result A) := fun x => match x with Ok a => stays a | Err _ => True end.
#[local] Instance stays_option A `{Stays A} : Stays (option A) := fun x => match x with Some a => stays a | None => True end.
#[local] Instance stays_pair A B `{Stays A} `{Stays B} : Stays (A * B) := fun x => stays (fst x) /\ stays (snd x).

Definition good {A} `{Stays A} (p : free ctl A) : Prop := forall h, safe planeOK honest h p (fun _ x => stays x).

Lemma good_bind {A B} `{Stays A} `{Stays B} (p : free ctl A) (f : A -> free ctl B) :
  good p -> (forall a, stays a -> good (f a)) -> good (fbind p f).
Proof. intros Hp Hf h. eapply safe_bind; [apply Hp|]. intros h' a _ Ha. by apply Hf. Qed.
Lemma good_done {A} `{Stays A} (a : A) : stays a -> good (Done a).
Proof. intros Ha h. exact Ha. Qed.
Lemma good_call {X} `{Stays X} (e : ctl X) : planeOK [] X e -> (forall x, honest X e x -> stays x) -> good (fcall e).
Proof. intros He Hx h. apply safe_call; [by destruct e|]. intros x Ha. by apply Hx. Qed.
Lemma good_read d n : good (fcall (ReadBuild d ns n)).
Proof. apply good_call; [done|]. intros [b|e]; [|done]. by intros [? _]. Qed.

Create HintDb plane.
#[local] Hint Resolve good_read : plane.

Ltac shown := cbv beta iota delta [stays stays_any stays_build stays_cr stays_result stays_option stays_pair].
Ltac opened := repeat match goal with
  | H : stays _ |- _ => cbv beta iota delta [stays stays_any stays_build stays_cr stays_result stays_option stays_pair] in H; cbn [fst snd] in H
  | H : _ /\ _ |- _ => destruct H
  end.
Ltac settled := shown; cbn [fst snd]; repeat first [exact I|assumption|done|split|case_match].
Ltac trivial_post := intros; shown; repeat first [exact I|split|case_match].
Ltac walk_step :=
  match goal with
  | |- good (fbind _ _) => apply good_bind; [|intros ? ?]
  | |- good (Done _) => apply good_done; settled
  | |- good (match ?x with _ => _ end) => first [is_var x; destruct x|destruct x eqn:? in |- *]
  | |- good (let _ := _ in _) => cbv zeta
  | |- good (fcall _) => solve [eauto with plane|apply good_call; [exact I|trivial_post]]
  | |- good _ => solve [eauto with plane]
  end.
Ltac walk := repeat (opened; walk_step).

Lemma trivially {A} `{Stays A} (p : prog A) op :
  (forall w, wp G p (fun _ _ => True) w) -> (forall x : A, stays x) -> good (plane op p).
Proof. intros Hp Hx. apply good_call; [exact Hp|auto]. Qed.
Lemma reads_plane {A} `{Stays A} (p : prog A) op : emits (@read_only) p -> (forall x : A, stays x) -> good (plane op p).
Proof. intros Hp. apply trivially. intros w. by apply wp_aread_only. Qed.


(** The guard and the other observations only read. *)
Lemma guarded_reads g : r_Genesis r = Some g -> guard_reads g.
Proof. by apply reconciler_reads. Qed.
#[local] Hint Resolve guarded_reads : emits.
Lemma Check_good g : r_Genesis r = Some g -> good (Check g).
Proof. intros Eg. apply reads_plane; [by apply Guard_Check_reads, guarded_reads|trivial_post]. Qed.
Lemma context_good : good (plane OpContext (call CtxDone)).
Proof. apply reads_plane; [by split|trivial_post]. Qed.
Lemma ledger_good o : good (readLedgerState c ns o).
Proof. apply reads_plane; [apply active_read_reads, guarded_reads|trivial_post]. Qed.
Lemma getOwned_good cr : good (getOwnedRunnerPod c cr).
Proof. unfold getOwnedRunnerPod. walk. Qed.
#[local] Hint Resolve Check_good context_good ledger_good getOwned_good : plane.

(** [genesis_witness.go]. *)
Lemma stamp_good cr pod a : good (stampGenesisPod c cr pod a).
Proof. unfold stampGenesisPod. destruct (r_Genesis r) as [g|] eqn:Eg in |- *; walk. Qed.
Lemma observedRead_good {A} `{Stays A} g o (p : free ctl (result A)) : good p -> good (observedRead g o p).
Proof. intros Hp. unfold observedRead. walk. Qed.
#[local] Hint Resolve stamp_good observedRead_good : plane.

Lemma witnessMode_good b d t o : stays b -> good (directGenesisWitnessModeWithObservation c b d t o).
Proof.
  intros Hb. opened. unfold directGenesisWitnessModeWithObservation. rewrite Hb. destruct (r_Genesis r) as [g|] eqn:Eg in |- *; walk.
Qed.
Lemma witness_good b : stays b -> good (directGenesisWitness c b).
Proof. apply witnessMode_good. Qed.
Lemma charge_good cr o : stays cr -> good (directGenesisChargeWithObservation c cr o).
Proof. intros Hb. opened. unfold directGenesisChargeWithObservation. rewrite Hb. walk. Qed.
#[local] Hint Resolve witnessMode_good witness_good charge_good : plane.

Lemma verifyPod_good cr entry closing o :
  good (plane (OpVerifyPod cr) (match o, r_Genesis r with
                                | Some o, Some g => verifyPinnedPodReceiptWithObservation r g cr entry closing o
                                | _, _ => verifyPinnedPodReceipt r cr entry closing end)).
Proof.
  apply reads_plane; [|trivial_post].
  destruct o as [o|]; [|apply verifyPinnedPodReceipt_reads, guarded_reads]. destruct (r_Genesis r) as [g|] eqn:Eg in |- *.
  - by apply verify_pod_reads, guarded_reads.
  - apply verifyPinnedPodReceipt_reads, guarded_reads.
Qed.
Lemma qualify_good cr pod closing o : stays cr -> good (qualifyGenesisPodWithObservation c cr pod closing o).
Proof.
  intros Hb. pose proof (verifyPod_good cr) as Hv. opened. unfold qualifyGenesisPodWithObservation. rewrite Hb. walk.
Qed.
#[local] Hint Resolve qualify_good : plane.

Lemma observe_good {A} `{Stays A} g (read : Observation -> free ctl (result A)) :
  r_Genesis r = Some g -> (forall o, good (read o)) -> good (observe g read).
Proof. intros Eg Hr. unfold observe. walk. Qed.
Lemma verifyGrant_good g cr entry o : r_Genesis r = Some g -> good (plane (OpVerifyGrant cr) (verifyPinnedGrantWithObservation r g cr entry o)).
Proof. intros Eg. apply reads_plane; [by apply verify_grant_reads, guarded_reads|trivial_post]. Qed.
#[local] Hint Resolve verifyGrant_good : plane.
Lemma grant_good b : stays b -> good (directGenesisGrant c b).
Proof.
  intros Hb. unfold directGenesisGrant. destruct (r_Genesis r) as [g|] eqn:Eg in |- *; [|walk].
  apply observe_good; [done|]. intros o. walk.
Qed.
#[local] Hint Resolve grant_good : plane.
(** The operations that write the ledger. *)
Lemma issue_wp g cr attempt digest w :
  r_Genesis r = Some g -> kb_ns cr = ns -> wp G (issueFreshPod c g cr attempt digest) (fun _ _ => True) w.
Proof.
  intros Eg Hn. unfold issueFreshPod. eapply wp_seq; [by apply armFreshPodAttempt_wp|]. intros w1 [armed|e] _ _; [|done].
  eapply wp_seq; [apply wp_aread_only|].
  { apply observe_with_reads; [by apply guarded_reads|]. intros o. pose proof (podIntent_reads r guarded_reads).
    pose proof (grant_namespace_reads r). pose proof (lift_error_reads _ (ensureLive_reads cr)). emits_tac. }
  intros w2 [intent|e] _ _; [|done]. eapply wp_seq; [apply wp_aoff, RecordPodCreateOnce_off|]. intros w3 [witness|e] _ _; [|done].
  eapply wp_seq; [apply wp_aread_only, grant_namespace_reads|]. intros w4 [e|] _ _; [done|].
  eapply wp_seq; [by apply pinPodReceipt_wp|]. intros w5 [pinned|e] _ _; [|done].
  eapply wp_mono; [by apply authorizeFreshPodCreate_wp|done].
Qed.
Lemma finishFresh_good g cr pod a : r_Genesis r = Some g -> stays cr -> good (finishFreshPodAttempt c g cr pod a).
Proof.
  intros Eg Hb. unfold finishFreshPodAttempt. walk. apply trivially; [|trivial_post]. intros w. by apply issue_wp.
Qed.
Lemma fence_good cr : stays cr -> good (fence c cr).
Proof. intros Hb. apply trivially; [|trivial_post]. intros w. eapply wp_mono; [by apply fenceReservation_wp|done]. Qed.
Lemma release_good cr : stays cr -> good (release c cr).
Proof. intros Hb. apply trivially; [|trivial_post]. intros w. eapply wp_mono; [by apply releaseReservation_wp|done]. Qed.
Lemma queueRelease_good cr : stays cr -> good (queueRelease c cr).
Proof. intros Hb. unfold queueRelease. rewrite Hb. apply trivially; [|trivial_post]. intros w. by apply ReleaseForBuild_plane. Qed.
Lemma complete_good cr a op : stays cr -> good (plane op (completePodCreate r cr a)).
Proof. intros Hb. apply trivially; [|trivial_post]. intros w. eapply wp_mono; [by apply completePodCreate_wp|done]. Qed.
Lemma begin_good cr : stays cr -> good (plane (OpBeginPod cr) (beginPodCreate r cr)).
Proof. intros Hb. apply trivially; [|trivial_post]. intros w. eapply wp_mono; [by apply beginPodCreate_wp|done]. Qed.
Lemma admission_good cr : stays cr -> good (plane (OpAdmission cr) (admission r cr)).
Proof. intros Hb. apply trivially; [|trivial_post]. intros w. eapply wp_mono; [by apply admission_wp|done]. Qed.
#[local] Hint Resolve finishFresh_good fence_good release_good queueRelease_good complete_good begin_good admission_good : plane.

(** [status.go] and [verification.go]. *)
Lemma statusUpdate_good b : stays b -> good (statusUpdate b).
Proof. intros Hb. unfold statusUpdate. walk. Qed.
Lemma nilError_good {A} `{Stays A} (p : free ctl (result A)) : good p -> good (nilError p).
Proof. intros Hp. unfold nilError. walk. Qed.
Lemma returning_good {A} `{Stays A} (p : free ctl (result A)) : good p -> good (returning p).
Proof. intros Hp. unfold returning, failed. walk. Qed.
Lemma failed_good e : good (failed e).
Proof. by apply good_done. Qed.
Lemma condition_good p rs m b : stays b -> good (setPhaseCondition p rs m b).
Proof. intros Hb. unfold setPhaseCondition. walk. Qed.
Lemma event_good x y z : good (recordEvent c x y z).
Proof. unfold recordEvent. walk. Qed.
#[local] Hint Resolve statusUpdate_good nilError_good returning_good failed_good condition_good event_good : plane.
Lemma recoveryReason_good rs m b : stays b -> good (markAdmissionRecoveryReason c rs m b).
Proof. intros Hb. unfold markAdmissionRecoveryReason. walk. Qed.
#[local] Hint Resolve recoveryReason_good : plane.
Lemma recovery_good p b : stays b -> good (markAdmissionRecovery c p b).
Proof. intros Hb. unfold markAdmissionRecovery. walk. Qed.
Lemma clearRecovery_good b : stays b -> good (clearAdmissionRecovery b).
Proof. intros Hb. unfold clearAdmissionRecovery. walk. Qed.
Lemma terminal_good p rs m b : stays b -> good (writeTerminalStatus c p rs m b).
Proof. intros Hb. unfold writeTerminalStatus. walk. Qed.
#[local] Hint Resolve recovery_good clearRecovery_good terminal_good : plane.
Lemma finish_good p rs m b : stays b -> good (finish c p rs m b).
Proof. intros Hb. unfold finish. destruct (r_Genesis r) as [g|] eqn:Eg in |- *; walk. Qed.
Lemma persist_good b : stays b -> good (persistVerificationStatus c b).
Proof. intros Hb. unfold persistVerificationStatus. walk. Qed.
#[local] Hint Resolve finish_good persist_good : plane.
Lemma witnessed_good b : stays b -> good (witnessedBuild c b).
Proof. intros Hb. unfold witnessedBuild. walk. Qed.
#[local] Hint Resolve witnessed_good : plane.
Lemma beginPhase_good p rs m win b : stays b -> good (beginVerificationPhase c p rs m win b).
Proof. intros Hb. unfold beginVerificationPhase. walk. Qed.
#[local] Hint Resolve beginPhase_good : plane.
Lemma beginVerification_good b : stays b -> good (beginVerification c b).
Proof. apply beginPhase_good. Qed.
Lemma beginFailed_good e b : stays b -> good (beginFailedVerification c e b).
Proof. apply beginPhase_good. Qed.
Lemma failVerification_good m b : stays b -> good (failVerification c m b).
Proof. intros Hb. unfold failVerification. walk. Qed.
Lemma finishFailed_good b : stays b -> good (finishFailedVerification c b).
Proof. intros Hb. unfold finishFailedVerification. walk. Qed.
#[local] Hint Resolve beginVerification_good beginFailed_good failVerification_good finishFailed_good : plane.
Lemma expireFailed_good b : stays b -> good (expireFailedVerification c b).
Proof. intros Hb. unfold expireFailedVerification. walk. Qed.
Lemma statusRequest_good b : good (BuildStatusRequest b).
Proof. unfold BuildStatusRequest. walk. Qed.
Lemma cancel_good b : good (CancelBuild b).
Proof. unfold CancelBuild. walk. Qed.
Lemma post_good b path q : good (Post b path q).
Proof. unfold RunnerExec.Post. walk. Qed.
Lemma sourceTargets_good b p : good (SourceTargets b p).
Proof. unfold SourceTargets. walk. Qed.
Lemma submitBuild_good b a h p : good (SubmitBuild b a h p).
Proof. unfold SubmitBuild. walk. Qed.
#[local] Hint Resolve expireFailed_good statusRequest_good cancel_good post_good sourceTargets_good submitBuild_good : plane.
Lemma observeStatus_good b : stays b -> good (observeBuildStatus c b).
Proof. intros Hb. unfold observeBuildStatus. walk. Qed.
#[local] Hint Resolve observeStatus_good : plane.
Lemma genesisPost_good b path q : stays b -> good (genesisPost c b path q).
Proof. intros Hb. unfold genesisPost. walk. Qed.
#[local] Hint Resolve genesisPost_good : plane.
Lemma exporter_good b path q : stays b -> good (exporter c b path q).
Proof. intros Hb. unfold exporter. destruct (r_Genesis r) in |- *; walk. Qed.
Lemma collect_good export format st : (forall x y, good (export x y)) -> good (collectFormat export format st).
Proof. intros Hp. destruct st as [[l t] f]. unfold collectFormat. walk. Qed.
#[local] Hint Resolve exporter_good collect_good : plane.
Lemma CollectReceipts_good b l : stays b -> good (CollectReceipts (exporter c b) l).
Proof. intros Hb. unfold CollectReceipts. walk. Qed.
Lemma verifyIndices_good idx st : good (verifyIndices remoteRegistry idx st).
Proof.
  revert st. induction idx as [|i idx IH]; intros st; cbn [verifyIndices]; [by apply good_done|].
  destruct (_ !! i); [|apply IH]. unfold remoteRegistry at 1. walk.
Qed.
#[local] Hint Resolve CollectReceipts_good verifyIndices_good : plane.
Lemma VerifyReceipts_good l n : good (VerifyReceipts remoteRegistry l n).
Proof. unfold VerifyReceipts. walk. Qed.
Lemma withSlot_good n body : good body -> good (withSlot n body).
Proof. intros Hb. unfold withSlot. walk. Qed.
Lemma notDue_good n b : good (notDue n b).
Proof. unfold notDue. walk. Qed.
#[local] Hint Resolve VerifyReceipts_good withSlot_good notDue_good : plane.
Lemma attempt_good stop b : stays b -> good (attemptReceipts c stop b).
Proof. intros Hb. unfold attemptReceipts. walk. Qed.
#[local] Hint Resolve attempt_good : plane.
Lemma verifyAttempt_good b : stays b -> good (verifyAttempt c b).
Proof. intros Hb. unfold verifyAttempt. walk. Qed.
Lemma failedAttempt_good b : stays b -> good (failedVerifyAttempt c b).
Proof. intros Hb. unfold failedVerifyAttempt. walk. Qed.
#[local] Hint Resolve verifyAttempt_good failedAttempt_good : plane.
Lemma verifying_good b : stays b -> good (reconcileVerifying c b).
Proof. intros Hb. unfold reconcileVerifying. walk. Qed.
Lemma failedVerifying_good b : stays b -> good (reconcileFailedVerifying c b).
Proof. intros Hb. unfold reconcileFailedVerifying. walk. Qed.
#[local] Hint Resolve verifying_good failedVerifying_good : plane.

(** [genesis_stop.go]. *)
Lemma stopState_good b : stays b -> good (directGenesisStopState c b).
Proof. intros Hb. opened. unfold directGenesisStopState. rewrite Hb. walk. Qed.
Lemma confirm_good pod : good (deletePodAndConfirm c pod).
Proof. unfold deletePodAndConfirm. walk. Qed.
Lemma completeObserved_good cr pod : stays cr -> good (completeObserved c cr pod).
Proof. intros Hb. unfold completeObserved. walk. Qed.
Lemma directCharge_good cr : stays cr -> good (directGenesisCharge c cr).
Proof. apply charge_good. Qed.
Lemma qualifyPod_good cr pod closing : stays cr -> good (qualifyGenesisPod c cr pod closing).
Proof. apply qualify_good. Qed.
#[local] Hint Resolve stopState_good confirm_good completeObserved_good directCharge_good qualifyPod_good : plane.
Lemma deleteOwned_good b pod : stays b -> good (deleteOwnedRunnerPodAndConfirm c b pod).
Proof. intros Hb. unfold deleteOwnedRunnerPodAndConfirm. destruct (r_Genesis r) as [g|] eqn:Eg in |- *; walk. Qed.
#[local] Hint Resolve deleteOwned_good : plane.
Lemma deleteRunner_good b : stays b -> good (deleteRunnerAndConfirm c b).
Proof. intros Hb. unfold deleteRunnerAndConfirm. destruct (r_Genesis r) as [g|] eqn:Eg in |- *; walk. Qed.
Lemma finishStopped_good g b : r_Genesis r = Some g -> stays b -> good (finishGenesisStopped c g b).
Proof. intros Eg Hb. unfold finishGenesisStopped. walk. Qed.
#[local] Hint Resolve deleteRunner_good finishStopped_good : plane.
Lemma resumeStop_good g b : r_Genesis r = Some g -> stays b -> good (resumeGenesisStop c g b).
Proof. intros Eg Hb. unfold resumeGenesisStop. walk. Qed.
Lemma stopEffective_good rs b : good (stopEffective c rs b).
Proof. unfold stopEffective. walk. Qed.
#[local] Hint Resolve resumeStop_good stopEffective_good : plane.
Lemma recordStop_good rs b b' pod : stays b' -> good (recordStopIntent c rs b b' pod).
Proof. intros Hb. unfold recordStopIntent. walk. Qed.
#[local] Hint Resolve recordStop_good : plane.
Lemma stopRunner_good g rs b : r_Genesis r = Some g -> stays b -> good (stopGenesisRunner c g rs b).
Proof. intros Eg Hb. unfold stopGenesisRunner. walk. Qed.
#[local] Hint Resolve stopRunner_good : plane.

(** [lifecycle.go]. *)
Lemma finishing_good p rs m b : stays b -> good (finishing c p rs m b).
Proof. intros Hb. unfold finishing. walk. Qed.
Lemma requeueActive_good b d : good (requeueActive c b d).
Proof. unfold requeueActive, activeRequeueAfter. walk. Qed.
Lemma expired_good b : good (expired c b).
Proof. unfold expired. walk. Qed.
#[local] Hint Resolve finishing_good requeueActive_good expired_good : plane.
Lemma finishObserved_good st b : stays b -> good (finishObservedBuild c st b).
Proof. intros Hb. unfold finishObservedBuild. walk. Qed.
#[local] Hint Resolve finishObserved_good : plane.
Lemma expireActive_good b : stays b -> good (expireActiveBuild c b).
Proof. intros Hb. unfold expireActiveBuild. destruct (r_Genesis r) as [g|] eqn:Eg in |- *; walk. Qed.
#[local] Hint Resolve expireActive_good : plane.
Lemma reconcileExpired_good b : stays b -> good (reconcileExpiredBuild c b).
Proof. intros Hb. unfold reconcileExpiredBuild. destruct (r_Genesis r) as [g|] eqn:Eg in |- *; walk. Qed.
Lemma clearPoll_good b : stays b -> good (clearPollFailure b).
Proof. intros Hb. unfold clearPollFailure. walk. Qed.
Lemma retryStatus_good e b : stays b -> good (retryStatusObservation c e b).
Proof. intros Hb. unfold retryStatusObservation. walk. apply statusUpdate_good. case_match; exact Hb. Qed.
Lemma markSubmitted_good st b : stays b -> good (markSubmitted c st b).
Proof. intros Hb. unfold markSubmitted. walk. Qed.
#[local] Hint Resolve reconcileExpired_good clearPoll_good retryStatus_good markSubmitted_good : plane.
Lemma submittedTimings_good st pod b : stays b -> good (markSubmittedWithTimings c st pod b).
Proof. apply markSubmitted_good. Qed.
#[local] Hint Resolve submittedTimings_good : plane.
Lemma existingSubmission_good g e b : r_Genesis r = Some g -> stays b -> good (observeExistingGenesisSubmission c g e b).
Proof. intros Eg Hb. unfold observeExistingGenesisSubmission. walk. Qed.
#[local] Hint Resolve existingSubmission_good : plane.
Lemma withGrant_good b pod k : stays b -> (forall b pod, stays b -> good (k b pod)) -> good (withGrant c b pod k).
Proof. intros Hb Hk. unfold withGrant. destruct (r_Genesis r) as [g|] eqn:Eg in |- *; walk. Qed.
Lemma unlessExpired_good b k : stays b -> good k -> good (unlessExpired c b k).
Proof. intros Hb Hk. unfold unlessExpired. walk. Qed.
Lemma inspectFailure_good e b : stays b -> good (inspectFailure c e b).
Proof. intros Hb. unfold inspectFailure. walk. Qed.
Lemma afterSubmit_good e pod b : stays b -> good (afterSubmit c e pod b).
Proof. intros Hb. unfold afterSubmit. walk. Qed.
#[local] Hint Resolve unlessExpired_good inspectFailure_good afterSubmit_good : plane.
Lemma submit_good b pod : stays b -> good (submit c b pod).
Proof. intros Hb. unfold submit. walk. Qed.
#[local] Hint Resolve submit_good : plane.
Lemma inspectAndSubmit_good b pod : stays b -> good (inspectAndSubmit c b pod).
Proof.
  intros Hb. unfold inspectAndSubmit. walk. apply withGrant_good; [done|]. intros b' pod' Hb'. apply unlessExpired_good; [done|].
  apply withGrant_good; [done|]. eauto with plane.
Qed.
Lemma notReady_good b pod : stays b -> good (runnerNotReady c b pod).
Proof. intros Hb. unfold runnerNotReady. walk. Qed.
#[local] Hint Resolve inspectAndSubmit_good notReady_good withGrant_good : plane.
Lemma submitReady_good b pod : stays b -> good (submitReady c b pod).
Proof. intros Hb. unfold submitReady. walk. Qed.
#[local] Hint Resolve submitReady_good : plane.
Lemma submitWhenReady_good b : stays b -> good (submitWhenReady c b).
Proof.
  intros Hb. unfold submitWhenReady. apply withGrant_good; [done|]. intros b' pod Hb'. apply unlessExpired_good; [done|]. walk.
Qed.
Lemma poll_good b : stays b -> good (pollBuild c b).
Proof. intros Hb. unfold pollBuild. walk. apply unlessExpired_good; [done|]. walk. Qed.
Lemma genesisCancel_good g b : r_Genesis r = Some g -> stays b -> good (reconcileGenesisCancellation c g b).
Proof. intros Eg Hb. unfold reconcileGenesisCancellation. walk. Qed.
Lemma cancelBuild_good b : stays b -> good (cancelBuild c b).
Proof. intros Hb. unfold cancelBuild. walk. Qed.
#[local] Hint Resolve submitWhenReady_good poll_good genesisCancel_good cancelBuild_good : plane.
Lemma reservationFailed_good e b : stays b -> good (reservationFailed c e b).
Proof. intros Hb. unfold reservationFailed. walk. Qed.
Lemma queueFailed_good m e b : stays b -> good (queueFailed c m e b).
Proof. intros Hb. unfold queueFailed. walk. Qed.
#[local] Hint Resolve reservationFailed_good queueFailed_good : plane.
Lemma releaseAll_good b k : stays b -> good k -> good (releaseAll c b k).
Proof. intros Hb Hk. unfold releaseAll. walk. Qed.
Lemma expireTerminal_good b : good (expireTerminal c b).
Proof. unfold expireTerminal. walk. Qed.
#[local] Hint Resolve expireTerminal_good : plane.
Lemma terminalStep_good b : stays b -> good (reconcileTerminal c b).
Proof. intros Hb. unfold reconcileTerminal. walk. apply releaseAll_good; [done|]. walk. Qed.
Lemma delete_good b : stays b -> good (reconcileDelete c b).
Proof.
  intros Hb. unfold reconcileDelete.
  assert (forall b', stays b' -> good (releaseAll c b' (
      match RemoveFinalizer b' cleanupFinalizer with
      | None => Done (Ok noRequeue)
      | Some b' =>
          let+ u := fcall (UpdateObject b') in
          match u with
          | Err e => if IsNotFound e then Done (Ok noRequeue) else failed e
          | Ok _ => Done (Ok noRequeue)
          end
      end))) as Hrel.
  { intros b' Hb'. apply releaseAll_good; [done|]. walk. }
  destruct (r_Genesis r) as [g|] eqn:Eg in |- *; walk.
Qed.
Lemma adopt_good cr pod : stays cr -> good (adoptPod c cr pod).
Proof. intros Hb. unfold adoptPod. walk. Qed.
Lemma completePod_good cr a : stays cr -> good (complete c cr a).
Proof. apply complete_good. Qed.
#[local] Hint Resolve terminalStep_good delete_good adopt_good completePod_good : plane.
Lemma rejected_good e a b : stays b -> good (createRejected c e a b).
Proof. intros Hb. unfold createRejected, endsErr, ended. walk. Qed.
Lemma won_good a cr : stays cr -> good (createWon c a cr).
Proof. intros Hb. unfold createWon, endsErr. walk. Qed.
#[local] Hint Resolve rejected_good won_good : plane.
Lemma create_good b : stays b -> good (createPod c b).
Proof. intros Hb. unfold createPod, endsErr. destruct (r_Genesis r) as [g|] eqn:Eg in |- *; walk. Qed.
Lemma starting_good a b : stays b -> good (markStarting c a b).
Proof. intros Hb. unfold markStarting. destruct (r_Genesis r) as [g|] eqn:Eg in |- *; walk. Qed.
#[local] Hint Resolve create_good starting_good : plane.
Lemma waitCapacity_good m b : stays b -> good (waitForCapacity m b).
Proof. intros Hb. unfold waitForCapacity. walk. Qed.
Lemma startRunner_good a b : stays b -> good (startRunner c a b).
Proof. intros Hb. unfold startRunner. destruct (r_Genesis r) as [g|] eqn:Eg in |- *; walk. Qed.
#[local] Hint Resolve waitCapacity_good startRunner_good : plane.
Lemma startBuild_good b : stays b -> good (startBuild c b).
Proof. intros Hb. opened. unfold startBuild. rewrite Hb. walk. Qed.
#[local] Hint Resolve startBuild_good : plane.
Lemma queued_good b : stays b -> good (reconcileQueued c b).
Proof. intros Hb. unfold reconcileQueued. destruct (r_Genesis r) as [g|] eqn:Eg in |- *; walk. Qed.
#[local] Hint Resolve queued_good : plane.
Lemma phase_good b : stays b -> good (reconcilePhase c b).
Proof. intros Hb. unfold reconcilePhase. walk. Qed.
Lemma cancellation_good b : stays b -> good (reconcileCancellation c b).
Proof. intros Hb. unfold reconcileCancellation. destruct (r_Genesis r) as [g|] eqn:Eg in |- *; walk. Qed.
#[local] Hint Resolve phase_good cancellation_good : plane.
Lemma live_good b : stays b -> good (reconcileLive c b).
Proof. intros Hb. unfold reconcileLive. destruct (r_Genesis r) as [g|] eqn:Eg in |- *; walk. Qed.
#[local] Hint Resolve live_good : plane.

(** Every admission request of a whole reconcile. *)
Lemma Reconcile_good name : good (Reconcile c ns name).
Proof. unfold Reconcile. destruct (r_Genesis r) as [g|] eqn:Eg in |- *; walk. Qed.
End plane.

(** ** Interleaved reconciles *)

Section system.
Context `{External} `{ApiServer} `{PodTemplate} `{ImageName} `{ReceiptFormat}.
Context (r : Reconciler) (ns : string).
#[local] Abbreviation G := (activeG r ns (fun _ => True)).

(** The requests of a program of the admission plane are answered by the server
    and meet the guarantee; every other request is answered in any way. *)
Definition answers {X} (e : ctl X) (w : world) (K : X -> world -> Prop) : Prop :=
  match e in ctl X return (X -> world -> Prop) -> Prop with
  | Api e => fun K => forall w1, rely w w1 -> forall x w2, step _ e w1 x w2 -> G w1 w2 /\ K x w2
  | e => fun K => forall w1, rely w w1 -> forall x, honest _ e x -> K x w1
  end K.

Fixpoint cwp {A} (p : free ctl A) (w : world) : Prop :=
  match p with
  | Done _ => True
  | Ask e k => answers e w (fun x w' => cwp (k x) w')
  end.

Lemma cwp_rely {A} (p : free ctl A) w w' : rely w w' -> cwp p w -> cwp p w'.
Proof.
  intros Hr. destruct p as [a|X e k]; [done|]. destruct e; simpl; intros Hp w1 Hr1; apply Hp; by eapply rely_trans.
Qed.

Lemma cwp_lift {A B} (p : prog A) (f : A -> free ctl B) w :
  wp G p (fun w' a => cwp (f a) w') w -> cwp (fbind (lift p) f) w.
Proof.
  revert w. induction p as [a|X e k IH]; intros w Hp; [exact Hp|]. intros w1 Hr x w2 Hs. destruct (Hp w1 Hr x w2 Hs) as [HG Hk].
  split; [exact HG|]. by apply IH.
Qed.

Lemma cwp_expand {A} c (p : free ctl A) (Q : history -> A -> Prop) h w :
  areplica r (ctl_r c) -> safe (planeOK c ns) honest h p Q -> cwp (expand p) w.
Proof.
  intros Hp. revert h w. induction p as [a|X e k IH]; intros h w; [done|]. intros [He Hk].
  destruct e; try (intros w1 _ x Hx; exact (IH x _ w1 (Hk x Hx))); [|done].
  apply cwp_lift. eapply wp_mono; [eapply wp_weaken; [|apply He]|].
  - intros w1 w2 _ HG. by rewrite Hp.
  - intros w' x _ _. exact (IH x _ w' (Hk x I)).
Qed.

(** A client that does not write the active ledger. *)
Definition aside (w w' : world) : Prop :=
  rely w w' /\ cm_now w' (akey ns) = cm_now w (akey ns) /\
  forall rv c, cm_version w' (akey ns) rv = Some c -> cm_version w (akey ns) rv = Some c.

Definition is_api {X} (e : ctl X) : bool := match e with Api _ => true | _ => false end.
Definition replica (c : Controller) : Prop := areplica r (ctl_r c) /\ reconciler_ok (ctl_r c).

(** The server, and the reconciles that are under way. *)
Definition system : Type := world * list (free ctl step_result).
Inductive sys_step : system -> system -> Prop :=
| sys_api w ts i X (e : api X) k x w' :
    ts !! i = Some (Ask (Api e) k) -> step _ e w x w' -> sys_step (w, ts) (w', <[i := k x]> ts)
| sys_other w ts i X (e : ctl X) k x w' :
    ts !! i = Some (Ask e k) -> is_api e = false -> honest X e x -> aside w w' -> sys_step (w, ts) (w', <[i := k x]> ts)
| sys_env w ts w' : aside w w' -> sys_step (w, ts) (w', ts)
| sys_start w ts c name : replica c -> sys_step (w, ts) (w, ts ++ [expand (Reconcile c ns name)]).

Inductive sys_steps : system -> system -> Prop :=
| sys_refl s : sys_steps s s
| sys_more s1 s2 s3 : sys_steps s1 s2 -> sys_step s2 s3 -> sys_steps s1 s3.

Lemma sys_trans s1 s2 s3 : sys_steps s1 s2 -> sys_steps s2 s3 -> sys_steps s1 s3.
Proof. intros H12 H23. induction H23 as [|s s' s'' _ IH Hs]; [done|]. eapply sys_more; [by apply IH|done]. Qed.

Definition under_way (s : system) : Prop := forall i p, snd s !! i = Some p -> cwp p (fst s).

Lemma aside_G w w' : aside w w' -> G w w'.
Proof. intros (_ & Hn & Hv). split; [rewrite Hn; constructor|]. intros rv c Hc. left. by apply Hv. Qed.

Lemma under_way_insert w w' ts i p : rely w w' -> under_way (w, ts) -> cwp p w' -> under_way (w', <[i := p]> ts).
Proof.
  intros Hr Hu Hp j q Hj. simpl in *. destruct (decide (i = j)) as [<-|Hne].
  - apply list_lookup_insert_Some in Hj as [(_ & <- & _)|(? & _)]; done.
  - rewrite list_lookup_insert_ne in Hj by done. eapply cwp_rely; [done|]. by apply (Hu j).
Qed.

(** One step of the system is a step of the ledger. *)
Lemma sys_step_refines s s' : under_way s -> sys_step s s' -> G (fst s) (fst s') /\ under_way s'.
Proof.
  intros Hu Hs. destruct Hs as [w ts i X e k x w' Hi Hst|w ts i X e k x w' Hi He Hx Ha|w ts w' Ha|w ts c name [Hrep Hok]]; cbn [fst snd].
  - destruct (Hu i _ Hi w (rely_refl w) x w' Hst) as [HG Hk]. split; [done|].
    eapply under_way_insert; [by eapply step_rely|done|done].
  - split; [by apply aside_G|]. destruct Ha as (Hr & _). eapply under_way_insert; [done|done|].
    pose proof (Hu i _ Hi) as Hk. destruct e; try done; by apply Hk.
  - split; [by apply aside_G|]. intros i p Hi. eapply cwp_rely; [apply Ha|]. by apply (Hu i).
  - split; [split; [constructor|by left]|]. intros i p Hi. cbn [fst snd] in *. apply lookup_app_Some in Hi as [Hi|[_ Hi]]; [by apply (Hu i)|].
    apply list_lookup_singleton_Some in Hi as [_ <-]. eapply (cwp_expand c); [done|]. by apply (Reconcile_good c ns Hok name []).
Qed.

Lemma system_sound s s' :
  under_way s -> sys_steps s s' ->
  under_way s' /\ forall I : world -> Prop, (forall w1 w2, I w1 -> G w1 w2 -> I w2) -> I (fst s) -> I (fst s').
Proof.
  intros Hu. induction 1 as [s|s1 s2 s3 _ IH Hs]; [done|]. destruct (IH Hu) as [Hu2 HI].
  destruct (sys_step_refines _ _ Hu2 Hs) as [HG Hu3]. split; [done|]. intros I Hstep Hw. eapply Hstep; [|exact HG]. by apply HI.
Qed.
End system.

(** ** Capacity *)

Section capacity.
Context `{External} `{ApiServer} `{PodTemplate} `{ImageName} `{ReceiptFormat}.

(** C1: the cluster is never overcommitted.  Let any number of controller replicas
    run any number of whole reconciles of any builds, interleaved request by
    request with each other and with all other clients, and let the runner, the
    registry, the clock and every read outside the ledgers answer as they like:
    the active ledger stays readable by every replica, and holds at most
    [MaxActiveJobs] grants, [WorkerSlots] slots and [MaxActiveJobsPerRequester]
    grants of one requester. *)
Theorem reconciles_never_overcommit r ns w w' ts cm :
  active_live r ns w -> sys_steps r ns (w, []) (w', ts) -> cm_now w' (akey ns) = Some cm ->
  exists st, (forall c, replica r c -> areads (ctl_r c) cm st) /\
    (Z.of_nat (size (active st)) <= MaxActiveJobs_ (r_Cfg r))%Z /\ (usedSlots (active st) <= WorkerSlots (r_Cfg r))%Z /\
    (forall q, (countRequester (active st) q <= MaxActiveJobsPerRequester (r_Cfg r))%Z).
Proof.
  intros Hl Hs Hc. destruct (system_sound r ns (w, []) (w', ts)) as [_ HI]; [by intros i p|done|].
  destruct (HI (active_live r ns)) with (c := cm) as (st & Hst); [|done|done|].
  { intros w1 w2 Hl1. by apply active_live_step. }
  exists st. split; [|by eapply areads_within]. intros c [Hrep _]. by eapply areads_replica.
Qed.

(** C8: the life of a grant.  In the same system, every request of every reconcile
    and every move of another client leaves a grant of the active ledger as it was
    or advances it (its build, requester, slots, nonce and fence are fixed, set
    links, attempts and digests are never rewritten, a closing grant stays closing
    and takes no Pod attempt), or removes it, and then it was closing, had nothing
    in flight and, under Genesis, a cleanup disposition for every receipt. *)
Theorem system_grants_advance r ns w s s' c c' st st' key e :
  sys_steps r ns (w, []) s -> sys_step r ns s s' ->
  cm_now (fst s) (akey ns) = Some c -> areads r c st -> cm_now (fst s') (akey ns) = Some c' -> areads r c' st' ->
  active st !! key = Some e ->
  (exists e', active st' !! key = Some e' /\ grant_advances e e') \/
  (active st' !! key = None /\ ar_Closing e = true /\ ar_InFlight e = [] /\ (r_Genesis r <> None -> receipts_settled e)).
Proof.
  intros Hs Hst. destruct (system_sound r ns (w, []) s) as [Hu _]; [by intros i p|done|].
  destruct (sys_step_refines r ns _ _ Hu Hst) as [HG _]. by apply (activeG_grant r ns (fun _ => True)).
Qed.
End capacity.
