(* ===== verification/Site.v ===== *)
(** * A build from admission to cleanup

    A reference installation for the build controller: the reference API server
    and ledgers of [Server] with one build, its runner Pod, the daemon inside it,
    a registry and a clock.  The reconciler runs on it by computation, with every
    admission operation carried out by its program.  The runs show that the
    hypotheses of the controller's theorems hold together, in reconciles that do
    the thing each theorem speaks of. *)
From S2P Require Import Prelude Free GoText Json Types Kube Contract Genesis Server Fixture QueueLedger QueueOps ActiveLedger FairQueue ActiveOps GrantOps BuildContract Manifest BuildStatus BuildResult ControlPlane RunnerExec RunnerWitness BuildController Lifecycle Reconcile ControllerSpec.

(** ** The parameters *)

Definition ex_new_tag (s : string) : result string :=
  if str_forallb (in_range 33 126) s && negb (sempty s) then Ok s else Err (Plain "could not parse reference").
Lemma ex_new_tag_visible s t : ex_new_tag s = Ok t -> str_forallb (in_range 33 126) t = true.
Proof. unfold ex_new_tag. case_match; [|done]. intros [= <-]. by bool_simpl. Qed.
Lemma ex_new_tag_nonempty s t : ex_new_tag s = Ok t -> t <> "".
Proof. unfold ex_new_tag. case_match; [|done]. intros [= <-]. unfold sempty in *. by bool_simpl. Qed.
Definition ex_images : ImageName :=
  {| NewTag := ex_new_tag; NewTagStrict := fun _ => true; NewTag_visible := ex_new_tag_visible; NewTag_nonempty := ex_new_tag_nonempty |}.
Definition ex_receipts : ReceiptFormat :=
  {| unmarshalEntry := fun line =>
       if seqb line "line" then Ok (mkEntry "" "" "" "registry/app:v1" "" "sha256:3333" true "" "" None) else Err (Plain "invalid character");
     sha256Hash := fun s => negb (sempty s); sha256Hash_nonempty := eq_refl |}.
Definition ex_template : PodTemplate := {| CanonicalPodTemplateDigest := fun _ => Ok "sha256:4444444444444444444444444444444444444444444444444444444444444444" |}.
#[export] Existing Instance ex_images.
#[export] Existing Instance ex_receipts.
#[export] Existing Instance ex_template.

Definition ex_ctl_config : ControllerConfig :=
  mkControllerConfig "IfNotPresent" "" ∅ ∅ noResources noResources None [] {["linux/amd64" := "tcp://worker:1234"]} 0 0 0 0 0 0 0 4.
Definition ex_controller (g : option Guard) : Controller := mkController (mkReconciler true true true true g ex_config) ex_ctl_config true true.
Definition ex_genesis_controller : Controller := ex_controller (Some ex_guard).
Definition ex_legacy_controller : Controller := ex_controller None.

(** ** The installation *)

Record site := mkSite {
  site_cluster : cluster; site_build : option Build; site_pod : option RunnerPod; site_daemon : string; site_clock : Z }.

Definition with_cluster (s : site) (w : cluster) : site := mkSite w (site_build s) (site_pod s) (site_daemon s) (site_clock s).
Definition with_pod (s : site) (p : option RunnerPod) : site := mkSite (site_cluster s) (site_build s) p (site_daemon s) (site_clock s).
Definition with_daemon (s : site) (d : string) : site := mkSite (site_cluster s) (site_build s) (site_pod s) d (site_clock s).
(** The build as the controller reads it and as the ledgers read it. *)
Definition with_build (s : site) (b : option Build) : site :=
  let w := site_cluster s in
  let builds := match b with
                | Some b => <[(kb_ns (b_cr b), kb_name (b_cr b)) := b_cr b]> (cl_builds w)
                | None => ∅
                end in
  mkSite (mkCluster (cl_objects w) builds (cl_namespaces w) (cl_rand w)) b (site_pod s) (site_daemon s) (site_clock s).

Definition serve_site {X} (e : api X) (s : site) : X * site :=
  match e in api X return X * site with
  | GetPod ns n =>
      (match site_pod s with
       | Some p => if bool_decide (pod_ns (rp_obj p) = ns /\ pod_name (rp_obj p) = n) then Ok (rp_obj p) else Err (ApiErr NotFound)
       | None => Err (ApiErr NotFound)
       end, s)
  | e => let '(x, w) := Server.serve e (site_cluster s) in (x, with_cluster s w)
  end.
Fixpoint run_site {A} (p : prog A) (s : site) : A * site :=
  match p with
  | Ret a => (a, s)
  | Vis e k => let '(x, s') := serve_site e s in run_site (k x) s'
  end.

(** A write with the current version is stored under the next one; a deleted
    build goes with its last finalizer. *)
Definition store (s : site) (b : Build) : result string * site :=
  match site_build s with
  | None => (Err (ApiErr NotFound), s)
  | Some old =>
      if negb (seqb (kb_rv (b_cr old)) (kb_rv (b_cr b))) then (Err (ApiErr Conflict), s)
      else
        let rv := kb_rv (b_cr b) +:+ "1" in
        (Ok rv, with_build s (if kb_deleting (b_cr b) && bool_decide (kb_finalizers (b_cr b) = []) then None else Some (landed rv b)))
  end.

(** A created Pod starts and becomes ready. *)
Definition admitted_pod (p : RunnerPod) : RunnerPod :=
  let o := rp_obj p in
  mkRunnerPod (mkPod (pod_ns o) (pod_name o) "pod-uid" (pod_labels o) (pod_annotations o) (pod_owners o)) (Some 0%Z) false (rp_spec p)
    (mkPodStatus "Running" "" [mkPodCondition PodReady ConditionTrue None] []).

Definition says (s : string) : ExecReply := mkExecReply [s] [] None None.
Definition stateJSON (daemon request : string) : string :=
  json_print (JObj ([("status", JStr daemon); ("capabilities", JArr [JStr IdempotentBuildRequestCapability])] ++
                    (if seqb daemon "idle" then [] else [("requestId", JStr request)]))).
Definition targetsJSON : string :=
  json_print (JObj [("targets", JArr [JObj [("target", JStr "registry/app:v1"); ("platform", JStr "linux/amd64")]])]).
Definition daemon (s : site) (command : list string) : ExecReply * site :=
  let request := match site_build s with Some b => RequestID (b_cr b) | None => "" end in
  if bool_decide (take 2 command = ["kovad"; "source"]) then (says targetsJSON, s)
  else if is_submit command then (says (stateJSON "running" request), with_daemon s "running")
  else if bool_decide (command !! 5 = Some StatusPath) then (says (stateJSON (site_daemon s) request), s)
  else (says "line", s).

Definition serve_ctl (X : Type) (e : ctl X) (s : site) : X * site :=
  match e in ctl X return X * site with
  | Plane _ p => run_site p s
  | Api e => serve_site e s
  | ReadBuild _ ns n =>
      (match site_build s with
       | Some b => if bool_decide (kb_ns (b_cr b) = ns /\ kb_name (b_cr b) = n) then Ok b else Err (ApiErr NotFound)
       | None => Err (ApiErr NotFound)
       end, s)
  | UpdateStatus b => store s b
  | UpdateObject b => store s b
  | DeleteBuild _ _ _ => (None, s)
  | ReadPod _ ns n =>
      (match site_pod s with
       | Some p => if bool_decide (pod_ns (rp_obj p) = ns /\ pod_name (rp_obj p) = n) then Ok p else Err (ApiErr NotFound)
       | None => Err (ApiErr NotFound)
       end, s)
  | CreatePod p =>
      match site_pod s with
      | Some _ => (Some (ApiErr AlreadyExists), s)
      | None => (None, with_pod s (Some (admitted_pod p)))
      end
  | DeletePod _ _ u =>
      match site_pod s with
      | Some p => if seqb (pod_uid (rp_obj p)) u then (None, with_pod s None) else (Some (ApiErr Conflict), s)
      | None => (Some (ApiErr NotFound), s)
      end
  | Exec _ _ command => daemon s command
  | Registry _ digest => (Ok (digest, "linux/amd64"), s)
  | Clock => (site_clock s, mkSite (site_cluster s) (site_build s) (site_pod s) (site_daemon s) (site_clock s + 1))
  | AttemptErr => (None, s)
  | TakeSlot => (true, s)
  | FreeSlot => (tt, s)
  | Event _ _ _ => (tt, s)
  end.

Definition reconciled (c : Controller) (s : site) : list (exchange ctl) * step_result * site :=
  fexec serve_ctl (Reconcile c "kova" "build-1") s.

(** ** The life of a build *)

Definition ex_ctl_spec : KovaBuildSpec :=
  mkSpec (mkRequester "alice" "alice-uid") [mkTarget "registry/app:v1" "linux/amd64"]
    (mkSource "https://src/app.tgz" "sha256:2222222222222222222222222222222222222222222222222222222222222222")
    (mkOptions "oci" 1 0 "" false false []) "".
Definition ex_submitted : Build :=
  mkBuildCR (mkBuild "kova" "build-1" "build-uid-1" "1" ∅ ∅ [cleanupFinalizer] [] 100 false ex_ctl_spec PhaseQueued 0 "") 1
    (mkStatus 1 None None "" "" None None None 0 None None None 0 "" [] [] []).
Definition day0 : site := with_build (mkSite ex_cluster None None "idle" 7) (Some ex_submitted).
Definition day1 : site := Eval vm_compute in (reconciled ex_genesis_controller day0).2.                               (* Starting *)
Definition day2 : site := Eval vm_compute in (reconciled ex_genesis_controller day1).2.                               (* Running *)
Definition day3 : site := Eval vm_compute in (reconciled ex_genesis_controller (with_daemon day2 "completed")).2.     (* Verifying *)
Definition day4 : site := Eval vm_compute in (reconciled ex_genesis_controller day3).2.                               (* Succeeded *)
Definition day5 : site := Eval vm_compute in (reconciled ex_genesis_controller day4).2.                               (* cleaned up *)

Definition phase_of (s : site) : option string := phase <$> site_build s.
Definition charges (s : site) : nat :=
  match now (site_cluster s) ("kova", ActiveLedgerName) with
  | Some c => match decodeReservations c with Ok st => size (active st) | Err _ => 99 end
  | None => 99
  end.

(** Admitted, started, submitted, verified, and cleaned up with its charge. *)
Example life_of_a_build :
  (phase_of <$> [day0; day1; day2; day3; day4; day5]) =
    Some <$> [PhaseQueued; PhaseStarting; PhaseRunning; PhaseVerifying; PhaseSucceeded; PhaseSucceeded] /\
  (charges <$> [day0; day1; day4; day5]) = [0; 1; 1; 0] /\ site_pod day4 <> None /\ site_pod day5 = None.
Proof. by vm_compute. Qed.

(** The same build without Genesis. *)
Definition ex_legacy_site : cluster := Eval vm_compute in
  let w := (run (initializeReservations (ctl_r ex_legacy_controller) "kova") (mkCluster ∅ ∅ ex_namespaces 5)).2 in
  mkCluster (<[("kova", ConfigMapName) := mkObject true [ex_legacy_ledger]]> (cl_objects w)) ∅ ex_namespaces 5.
Definition old0 : site := with_build (mkSite ex_legacy_site None None "idle" 7) (Some ex_submitted).
Definition old1 : site := Eval vm_compute in (reconciled ex_legacy_controller old0).2.
Definition old2 : site := Eval vm_compute in (reconciled ex_legacy_controller old1).2.
Definition old3 : site := Eval vm_compute in (reconciled ex_legacy_controller (with_daemon old2 "completed")).2.
Definition old4 : site := Eval vm_compute in (reconciled ex_legacy_controller old3).2.

(** ** Finding a request in a run *)

Lemma fexec_answered {E : Type -> Type} {S A} (serve : forall X, E X -> S -> X * S) (R : forall X, E X -> X -> Prop) (p : free E A) s :
  (forall X (e : E X) s, R X e (serve X e s).1) -> Forall (answered R) (fexec serve p s).1.1.
Proof.
  intros HR. revert s. induction p as [a|X e k IH]; intros s; simpl; [constructor|].
  pose proof (HR X e s) as Hx. destruct (serve X e s) as [x s1]. specialize (IH x s1).
  destruct (fexec serve (k x) s1) as [[tr a] s2]. by constructor.
Qed.

Lemma site_honest X (e : ctl X) s : honest X e (serve_ctl X e s).1.
Proof.
  destruct e; simpl; try done.
  - destruct (site_build s); [|done]. case_bool_decide; done.
  - destruct (site_pod s); [|done]. case_bool_decide; done.
Qed.

Lemma reconciled_runs c s : fruns (Reconcile c "kova" "build-1") (reconciled c s).1.1 (reconciled c s).1.2.
Proof. apply fexec_runs. Qed.
Lemma reconciled_honest c s : Forall (answered honest) (reconciled c s).1.1.
Proof. apply fexec_answered, site_honest. Qed.

(** A run asks something of this kind. *)
Definition asks (f : exchange ctl -> bool) (c : Controller) (s : site) : bool := existsb f (reconciled c s).1.1.

Lemma asks_split f c s : asks f c s = true -> exists pre x post, (reconciled c s).1.1 = pre ++ x :: post /\ f x = true.
Proof.
  intros (x & Hin & Hf)%existsb_exists. apply in_split in Hin as (pre & post & E). by exists pre, x, post.
Qed.

(** Kinds of requests. *)
Definition is_delete (x : exchange ctl) : bool := match fst (projT2 x) with DeletePod _ _ _ => true | _ => false end.
Definition is_create (x : exchange ctl) : bool := match fst (projT2 x) with CreatePod _ => true | _ => false end.
Definition is_write (p : string) (x : exchange ctl) : bool :=
  match fst (projT2 x) with UpdateStatus b => seqb (phase b) p | _ => false end.
Definition is_release (x : exchange ctl) : bool := match fst (projT2 x) with Plane (OpRelease _) _ => true | _ => false end.
Definition is_submission (x : exchange ctl) : bool := match fst (projT2 x) with Exec _ _ command => is_submit command | _ => false end.

Lemma is_delete_spec x : is_delete x = true -> exists ns n u e, x = asked (DeletePod ns n u) e.
Proof. destruct x as [X [[] y]]; try done. by eexists _, _, _, y. Qed.
Lemma is_create_spec x : is_create x = true -> exists pod e, x = asked (CreatePod pod) e.
Proof. destruct x as [X [[] y]]; try done. by eexists _, y. Qed.
Lemma is_write_spec p x : is_write p x = true -> exists b rv, x = asked (UpdateStatus b) rv /\ phase b = p.
Proof. destruct x as [X [[] y]]; try done. cbn. intros Hp. eexists _, y. split; [done|]. by apply bool_decide_eq_true in Hp. Qed.
Lemma is_release_spec x : is_release x = true -> exists X cr (q : prog X) y, x = asked (Plane (OpRelease cr) q) y.
Proof. destruct x as [X [e y]]. destruct e as [X op q| | | | | | | | | | | | | | |]; try done. destruct op; try done. by eexists X, _, q, y. Qed.
Lemma is_submission_spec x : is_submission x = true -> exists ns n command e, x = asked (Exec ns n command) e /\ is_submit command = true.
Proof. destruct x as [X [[] y]]; try done. by eexists _, _, _, y. Qed.

Lemma ex_starts : asks is_create ex_legacy_controller old0 = true /\ asks (is_write PhaseStarting) ex_legacy_controller old0 = true.
Proof. split; vm_compute; reflexivity. Qed.
Lemma ex_succeeds : asks (is_write PhaseSucceeded) ex_legacy_controller old3 = true.
Proof. vm_compute. reflexivity. Qed.
Lemma ex_cleans : asks is_delete ex_legacy_controller old4 = true /\ asks is_release ex_legacy_controller old4 = true.
Proof. split; vm_compute; reflexivity. Qed.
Lemma ex_submits : asks is_submission ex_genesis_controller day1 = true.
Proof. vm_compute. reflexivity. Qed.

(** ** A stale cache

    The first read of a reconcile comes from the informer cache.  Under Genesis
    [pollBuild] and [beginVerificationPhase] read the build again, directly, and
    write that object, but they do not look at its phase again. *)
Definition serve_stale (X : Type) (e : ctl X) (s : site) : X * site :=
  match e in ctl X return X * site with
  | ReadBuild false _ _ => (match site_build day2 with Some b => Ok b | None => Err (ApiErr NotFound) end, s)
  | e => serve_ctl _ e s
  end.
Definition stale_run : list (exchange ctl) * step_result * site :=
  fexec serve_stale (Reconcile ex_genesis_controller "kova" "build-1") day4.

(** A build that has succeeded is written back to Verifying by a reconcile whose
    cache still shows it running. *)
Example stale_run_reopens :
  phase_of day4 = Some PhaseSucceeded /\ is_ok stale_run.1.2 = true /\ phase_of stale_run.2 = Some PhaseVerifying.
Proof. by vm_compute. Qed.
