(* ===== verification/ControllerWitness.v ===== *)
(** * The controller's theorems at the reference installation

    Each theorem of [ControllerTheorems] applied to a reconcile of [Site] that does
    what the theorem speaks of. *)
From S2P Require Import Prelude Free GoText Json Types Kube Contract Genesis Server Fixture QueueLedger QueueOps ActiveLedger FairQueue ActiveOps GrantOps ActiveSpec ActiveTheorems BuildContract Manifest BuildStatus BuildResult ControlPlane RunnerExec RunnerWitness BuildController Lifecycle Reconcile ControllerSpec ReceiptFacts ControllerTheorems System Site.

#[local] Opaque reconciled.

Lemma status_writes_lawful_witness : exists pre b rv post,
  (reconciled ex_legacy_controller old0).1.1 = pre ++ asked (UpdateStatus b) rv :: post /\ phase b = PhaseStarting /\
  ((exists b0, reads pre b0 /\ uid b0 = uid b /\ kb_rv (b_cr b0) = kb_rv (b_cr b) /\ phase_step (phase b0) (phase b) = true) \/
   (exists b', wrote pre b' (kb_rv (b_cr b)) /\ uid b' = uid b /\ phase_step (phase b') (phase b) = true)).
Proof.
  destruct (asks_split _ _ _ (proj2 ex_starts)) as (pre & x & post & E & (b & rv & -> & Hp)%is_write_spec).
  exists pre, b, rv, post. split; [exact E|]. split; [exact Hp|].
  exact (proj1 (status_writes_lawful ex_legacy_controller "kova" "build-1" _ _ (reconciled_runs _ old0) (reconciled_honest _ old0) pre b rv post E) eq_refl).
Defined.

Lemma success_is_verified_witness : exists pre b rv post,
  (reconciled ex_legacy_controller old3).1.1 = pre ++ asked (UpdateStatus b) rv :: post /\ phase b = PhaseSucceeded /\
  ((exists b0, reads pre b0 /\ uid b0 = uid b /\ phase b0 = PhaseSucceeded) \/
   (VerificationDone (ks_VerificationResults (b_status b)) = (true, false) /\ validVerificationResults b = true /\
    ks_Outputs (b_status b) = VerificationOutputs (ks_VerificationResults (b_status b)))).
Proof.
  destruct (asks_split _ _ _ ex_succeeds) as (pre & x & post & E & (b & rv & -> & Hp)%is_write_spec).
  exists pre, b, rv, post. split; [exact E|]. split; [exact Hp|].
  exact (success_is_verified ex_legacy_controller "kova" "build-1" _ _ (reconciled_runs _ old3) (reconciled_honest _ old3) pre b rv post E Hp).
Defined.

Lemma only_own_pods_deleted_witness : exists pre pns pname puid e post,
  (reconciled ex_legacy_controller old4).1.1 = pre ++ asked (DeletePod pns pname puid) e :: post /\
  exists pod b, reads pre b /\ sawPod pre pod /\ exactPod (b_cr b) pod = true /\ pod_uid (rp_obj pod) = puid.
Proof.
  destruct (asks_split _ _ _ (proj1 ex_cleans)) as (pre & x & post & E & (ns & n & u & e & ->)%is_delete_spec).
  exists pre, ns, n, u, e, post. split; [exact E|].
  destruct (only_own_pods_deleted ex_legacy_controller "kova" "build-1" _ _ (reconciled_runs _ old4) (reconciled_honest _ old4) pre ns n u e post E)
    as (pod & b & Hb & Hp & Hx & _ & _ & Hu & _).
  exists pod, b. exact (conj Hb (conj Hp (conj Hx Hu))).
Defined.

Lemma capacity_released_last_witness : exists pre X cr (q : prog X) y post,
  (reconciled ex_legacy_controller old4).1.1 = pre ++ asked (Plane (OpRelease cr) q) y :: post /\
  (exists h1 h2 cr', pre = h1 ++ h2 /\ ident cr' = ident cr /\ planeDone h1 (OpFence cr') /\ podGone h2 cr) /\
  exists b, uid b = kb_uid cr /\ isTerminalPhase (phase b) = true /\ (reads pre b \/ exists rv, wrote pre b rv).
Proof.
  destruct (asks_split _ _ _ (proj2 ex_cleans)) as (pre & x & post & E & (X & cr & q & y & ->)%is_release_spec).
  exists pre, X, cr, q, y, post. split; [exact E|].
  exact (proj1 (capacity_released_last ex_legacy_controller "kova" "build-1" _ _ (reconciled_runs _ old4) (reconciled_honest _ old4))
    pre X cr q y post E).
Defined.

Lemma pod_created_for_attempt_witness : exists pre pod e post,
  (reconciled ex_legacy_controller old0).1.1 = pre ++ asked (CreatePod pod) e :: post /\
  exists cr attempt (p : prog (result string)), asked (Plane (OpBeginPod cr) p) (Ok attempt) ∈ pre /\ podGone pre cr /\
    exactPod cr pod = true /\ rp_annotation pod podCreateAttemptKey = attempt.
Proof.
  destruct (asks_split _ _ _ (proj1 ex_starts)) as (pre & x & post & E & (pod & e & ->)%is_create_spec).
  exists pre, pod, e, post. split; [exact E|].
  destruct (pod_created_for_attempt ex_legacy_controller "kova" "build-1" _ _ (reconciled_runs _ old0) (reconciled_honest _ old0) pre pod e post E)
    as (cr & attempt & p & q & d & _ & _ & Hb & Hg & Hx & Ha & _).
  exists cr, attempt, p. exact (conj Hb (conj Hg (conj Hx Ha))).
Defined.

Lemma submission_is_granted_witness : exists pre pns pname command reply post,
  (reconciled ex_genesis_controller day1).1.1 = pre ++ asked (Exec pns pname command) reply :: post /\ is_submit command = true /\
  exists h0 (p : prog (option error)) b w entry,
    pre = h0 ++ [asked (Plane OpCheck p) None] /\ reads h0 b /\ phase b = PhaseStarting /\
    cancellationRequested (b_cr b) = false /\ kb_deleting (b_cr b) = false /\ ks_Witness (b_status b) = Some w /\
    charge h0 (b_cr b) entry /\ ar_Closing entry = false /\ inFlight entry = false /\
    planeDone h0 (OpVerifyGrant (b_cr b)) /\ planeDone h0 (OpVerifyPod (b_cr b)) /\
    (gw_PodUID w <> "" /\ exists l, command = l ++ ["--expected-pod-uid"; gw_PodUID w]).
Proof.
  destruct (asks_split _ _ _ ex_submits) as (pre & x & post & E & (ns & n & command & e & -> & Hs)%is_submission_spec).
  exists pre, ns, n, command, e, post. split; [exact E|]. split; [exact Hs|].
  exact (submission_is_granted ex_genesis_controller "kova" "build-1" _ _ (reconciled_runs _ day1) (reconciled_honest _ day1)
    pre ns n command e post E Hs ltac:(discriminate)).
Defined.

(** Two outputs judged concurrently: one verified, one refused. *)
Definition ex_output (image : string) : BuildVerificationResult :=
  mkVerification "oci" image "linux/amd64" "sha256:3333" "pending" "" None.
Definition ex_outputs : list BuildVerificationResult := [ex_output "registry/app:v1"; ex_output "registry/app:v2"].
Definition ex_answers (X : Type) (e : ctl X) (s : bool) : X * bool :=
  match e in ctl X return X * bool with
  | Registry _ digest => (Ok (if s then digest else "sha256:4444", "linux/amd64"), false)
  | e => match s with true | false => ((serve_ctl _ e day0).1, s) end
  end.

Lemma receipts_any_order_witness :
  exists jobs : list (nat * result (string * string)), fst <$> jobs = checkIndices 16 ex_outputs /\
    forall jobs', jobs' ≡ₚ jobs ->
      (fexec ex_answers (VerifyReceipts remoteRegistry ex_outputs 16) true).1.2 = verified_of (judgeAll jobs' (ex_outputs, false, false)).
Proof.
  destruct (receipts_any_order ex_outputs 16 _ _ (fexec_runs ex_answers (VerifyReceipts remoteRegistry ex_outputs 16) true))
    as (jobs & Hj & _ & Hp).
  exists jobs. exact (conj Hj Hp).
Defined.

(** ** A reconcile in the system *)

(** The programs of the admission plane request by request. *)
Definition serve_sys (X : Type) (e : ctl X) (s : site) : X * site :=
  match e in ctl X return X * site with
  | Api e => let '(x, w) := Server.serve e (site_cluster s) in (x, with_cluster s w)
  | Plane _ p => ((run_site p s).1, s)
  | e => serve_ctl _ e s
  end.

Lemma store_objects s b : cl_objects (site_cluster (store s b).2) = cl_objects (site_cluster s).
Proof. unfold store. destruct (site_build s); [|done]. by destruct (negb _). Qed.

Lemma serve_sys_objects X (e : ctl X) s : is_api e = false -> cl_objects (site_cluster (serve_sys X e s).2) = cl_objects (site_cluster s).
Proof.
  destruct e; try done; intros _; simpl; try apply store_objects.
  - by destruct (site_pod s).
  - destruct (site_pod s); [by case_match|done].
  - unfold daemon. by repeat case_match.
Qed.

Lemma same_objects_aside ns (w w' : cluster) : cl_objects w' = cl_objects w -> aside ns (w : world) (w' : world).
Proof.
  intros E. assert (forall k rv, version w' k rv = version w k rv) as Hv by (intros k rv; unfold version, versions; by rewrite E).
  split; [|split].
  - intros k rv c Hc. by rewrite Hv.
  - change (now w' (akey ns) = now w (akey ns)). unfold now. by rewrite E.
  - intros rv c. by rewrite <- Hv.
Qed.

Lemma serve_sys_honest X (e : ctl X) s : honest X e (serve_sys X e s).1.
Proof. destruct e; try apply site_honest; simpl; done. Qed.

Lemma sys_next r ns {X} (e : ctl X) (k : X -> free ctl step_result) s ts i :
  ts !! i = Some (Ask e k) ->
  sys_step r ns (site_cluster s : world, ts) (site_cluster (serve_sys X e s).2 : world, <[i := k (serve_sys X e s).1]> ts).
Proof.
  intros Hi. destruct (serve_sys X e s) as [x s1] eqn:Es. simpl. destruct (is_api e) eqn:Ea.
  - destruct e; try done. refine (sys_api r ns (site_cluster s : world) ts i _ e k x (site_cluster s1 : world) Hi _). simpl in Es. unfold step. simpl. unfold cluster_step.
    destruct (Server.serve e (site_cluster s)). by simplify_eq.
  - refine (sys_other r ns (site_cluster s : world) ts i X e k x (site_cluster s1 : world) Hi Ea _ _).
    + pose proof (serve_sys_honest X e s) as Hh. by rewrite Es in Hh.
    + apply same_objects_aside. pose proof (serve_sys_objects X e s Ea) as Ho. by rewrite Es in Ho.
Qed.

(** The first [n] requests of a program: what is left of it, and the site then. *)
Fixpoint after (n : nat) (p : free ctl step_result) (s : site) : free ctl step_result * site :=
  match n, p with
  | S n, Ask e k => after n (k (serve_sys _ e s).1) (serve_sys _ e s).2
  | _, _ => (p, s)
  end.

Lemma sys_after r ns n : forall p s ts i, ts !! i = Some p ->
  sys_steps r ns (site_cluster s : world, ts) (site_cluster (after n p s).2 : world, <[i := (after n p s).1]> ts).
Proof.
  induction n as [|n IH]; intros p s ts i Hi; [simpl; rewrite list_insert_id by done; apply sys_refl|].
  destruct p as [a|X e k]; [simpl; rewrite list_insert_id by done; apply sys_refl|].
  eapply sys_trans; [eapply sys_more; [apply sys_refl|by apply sys_next]|].
  specialize (IH (k (serve_sys X e s).1) (serve_sys X e s).2 (<[i := k (serve_sys X e s).1]> ts) i).
  rewrite list_insert_insert_eq in IH. apply IH, list_lookup_insert_eq. by eapply lookup_lt_Some.
Qed.

Lemma after_S n : forall p s, after (S n) p s = after 1 (after n p s).1 (after n p s).2.
Proof. induction n as [|n IH]; [done|]. intros [a|X e k] s; [done|]. apply IH. Qed.
Lemma sys_after_S r ns n p s :
  is_Some (match (after n p s).1 with Ask _ _ => Some tt | Done _ => None end) ->
  sys_step r ns (site_cluster (after n p s).2 : world, [(after n p s).1]) (site_cluster (after (S n) p s).2 : world, [(after (S n) p s).1]).
Proof.
  rewrite after_S. destruct (after n p s) as [[a|X e k] s1]; simpl; intros [[] H]; [done|].
  exact (sys_next r ns e k s1 [Ask e k] 0 eq_refl).
Qed.

Lemma sys_exec r ns (p : free ctl step_result) s ts i :
  ts !! i = Some p ->
  sys_steps r ns (site_cluster s : world, ts) (site_cluster (fexec serve_sys p s).2 : world, <[i := Done (fexec serve_sys p s).1.2]> ts).
Proof.
  revert s ts. induction p as [a|X e k IH]; intros s ts Hi; simpl.
  { rewrite list_insert_id by done. apply sys_refl. }
  pose proof (sys_next r ns e k s ts i Hi) as Hn.
  destruct (serve_sys X e s) as [x s1]. specialize (IH x s1 (<[i := k x]> ts)).
  destruct (fexec serve_sys (k x) s1) as [[tr a] s2]. simpl in *.
  eapply sys_trans; [|rewrite list_insert_insert_eq in IH; apply IH, list_lookup_insert_eq; by eapply lookup_lt_Some].
  eapply sys_more; [apply sys_refl|exact Hn].
Qed.

(** One reconcile alone, from its start to its end. *)
#[local] Opaque Reconcile.
Definition alone (c : Controller) (name : string) (s : site) : list (exchange ctl) * step_result * site :=
  fexec serve_sys (expand (Reconcile c "kova" name)) s.
Lemma sys_one r ns (p : free ctl step_result) s :
  sys_step r ns (site_cluster s : world, []) (site_cluster s : world, [p]) ->
  sys_steps r ns (site_cluster s : world, []) (site_cluster (fexec serve_sys p s).2 : world, [Done (fexec serve_sys p s).1.2]).
Proof. intros Hs. eapply sys_trans; [eapply sys_more; [apply sys_refl|exact Hs]|]. exact (sys_exec r ns p s [p] 0 eq_refl). Qed.
Lemma alone_steps c name s :
  reconciler_ok (ctl_r c) ->
  sys_steps (ctl_r c) "kova" (site_cluster s : world, []) (site_cluster (alone c name s).2 : world, [Done (alone c name s).1.2]).
Proof.
  intros Hok. refine (sys_one _ _ (expand (Reconcile c "kova" name)) s _).
  refine (sys_start _ _ (site_cluster s : world) [] c name _). split; [reflexivity|exact Hok].
Qed.

Definition ex_system : list (exchange ctl) * step_result * site := alone ex_legacy_controller "build-1" old0.
Lemma ex_system_steps :
  sys_steps (ctl_r ex_legacy_controller) "kova" (site_cluster old0 : world, []) (site_cluster ex_system.2 : world, [Done ex_system.1.2]).
Proof. exact (alone_steps ex_legacy_controller "build-1" old0 I). Qed.
Example ex_system_grants : charges ex_system.2 = 1 /\ phase_of ex_system.2 = Some PhaseStarting.
Proof. by vm_compute. Qed.
Lemma ex_system_ledger : exists cm, now (site_cluster ex_system.2) ("kova", ActiveLedgerName) = Some cm.
Proof.
  assert (match now (site_cluster ex_system.2) ("kova", ActiveLedgerName) with Some _ => true | None => false end = true) as E
    by (by vm_compute).
  by destruct (now _ _) as [cm|]; [exists cm|].
Qed.
Lemma ex_system_live : active_live (ctl_r ex_legacy_controller) "kova" (site_cluster old0 : world).
Proof.
  assert (match now (site_cluster old0) (akey "kova") with
          | Some c => match qualifyActive (ctl_r ex_legacy_controller) c with Ok _ => true | Err _ => false end
          | None => true
          end = true) as E by (by vm_compute).
  intros c Hc. change (now (site_cluster old0) (akey "kova") = Some c) in Hc. rewrite Hc in E.
  destruct (qualifyActive (ctl_r ex_legacy_controller) c) as [[c' st]|] eqn:Eq; [|done].
  exists st. unfold areads. rewrite Eq. by apply qualifyActive_inv in Eq as (? & [= -> <-] & _).
Qed.
Definition ex_reading (s : site) : option (ConfigMap * reservationState * activeReservation) :=
  match now (site_cluster s) ("kova", ActiveLedgerName) with
  | Some c =>
      match qualifyActive (ctl_r ex_legacy_controller) c with
      | Ok (c', st) => match active st !! "build-uid-1" with Some e => Some (c, st, e) | None => None end
      | Err _ => None
      end
  | None => None
  end.
Lemma ex_reading_spec s c st e :
  ex_reading s = Some (c, st, e) ->
  now (site_cluster s) (akey "kova") = Some c /\ areads (ctl_r ex_legacy_controller) c st /\ active st !! "build-uid-1" = Some e.
Proof.
  unfold ex_reading. destruct (now _ _) as [d|] eqn:En; [|done]. destruct (qualifyActive _ d) as [[d' st']|] eqn:Eq; [|done].
  destruct (active st' !! _) as [e'|] eqn:Ea; [|done]. intros [= -> -> ->]. split; [done|]. split; [|done].
  unfold areads. rewrite Eq. by apply qualifyActive_inv in Eq as (? & [= -> <-] & _).
Qed.
(** The first [n] requests of that reconcile. *)
Definition ex_prefix (n : nat) : free ctl step_result * site :=
  after n (expand (Reconcile ex_legacy_controller "kova" "build-1")) old0.
Lemma ex_prefix_steps n :
  sys_steps (ctl_r ex_legacy_controller) "kova" (site_cluster old0 : world, []) (site_cluster (ex_prefix n).2 : world, [(ex_prefix n).1]).
Proof.
  refine (sys_trans _ _ _ (site_cluster old0 : world, [expand (Reconcile ex_legacy_controller "kova" "build-1")]) _ _ _).
  - eapply sys_more; [apply sys_refl|]. refine (sys_start _ _ (site_cluster old0 : world) [] ex_legacy_controller "build-1" _). by split.
  - exact (sys_after _ _ n (expand (Reconcile ex_legacy_controller "kova" "build-1")) old0 [_] 0 eq_refl).
Qed.
(** The fourteenth records the attempt to create the Pod in the grant. *)
Lemma ex_prefix_begins : exists c st e c' st' e',
  ex_reading (ex_prefix 13).2 = Some (c, st, e) /\ ex_reading (ex_prefix 14).2 = Some (c', st', e') /\ ar_InFlight e = [] /\ ar_InFlight e' <> [].
Proof.
  assert (match ex_reading (ex_prefix 13).2, ex_reading (ex_prefix 14).2 with
          | Some (_, _, e), Some (_, _, e') => match ar_InFlight e, ar_InFlight e' with [], _ :: _ => true | _, _ => false end
          | _, _ => false end = true) as E by (by vm_compute).
  destruct (ex_reading (ex_prefix 13).2) as [[[c st] e]|]; [|done]. destruct (ex_reading (ex_prefix 14).2) as [[[c' st'] e']|]; [|done].
  exists c, st, e, c', st', e'. by destruct (ar_InFlight e), (ar_InFlight e').
Qed.
Lemma ex_prefix_asks : is_Some (match (ex_prefix 13).1 with Ask _ _ => Some tt | Done _ => None end).
Proof. vm_compute. by eexists. Qed.
Lemma ex_prefix_next :
  sys_step (ctl_r ex_legacy_controller) "kova" (site_cluster (ex_prefix 13).2 : world, [(ex_prefix 13).1])
    (site_cluster (ex_prefix 14).2 : world, [(ex_prefix 14).1]).
Proof.
  pose proof ex_prefix_asks as H. unfold ex_prefix in *. revert H.
  generalize (expand (Reconcile ex_legacy_controller "kova" "build-1")) old0. intros p s. apply sys_after_S.
Qed.
#[local] Opaque ex_prefix.
#[local] Opaque ex_system.

Lemma reconciles_never_overcommit_witness : exists w' ts cm st,
  sys_steps (ctl_r ex_legacy_controller) "kova" (site_cluster old0 : world, []) (w', ts) /\ cm_now w' (akey "kova") = Some cm /\
  areads (ctl_r ex_legacy_controller) cm st /\ (Z.of_nat (size (active st)) <= 4)%Z.
Proof.
  destruct ex_system_ledger as [cm Hcm].
  destruct (reconciles_never_overcommit (ctl_r ex_legacy_controller) "kova" _ _ _ cm ex_system_live ex_system_steps Hcm) as (st & Hr & Hj & _).
  exists (site_cluster ex_system.2), [Done ex_system.1.2], cm, st. split; [exact ex_system_steps|]. split; [exact Hcm|]. split; [|exact Hj].
  apply (Hr ex_legacy_controller). split; [reflexivity|exact I].
Defined.

Lemma system_grants_advance_witness : exists (s s' : system) (e e' : activeReservation),
  sys_steps (ctl_r ex_legacy_controller) "kova" (site_cluster old0 : world, []) s /\
  sys_step (ctl_r ex_legacy_controller) "kova" s s' /\ grant_advances e e' /\ ar_InFlight e = [] /\ ar_InFlight e' <> [].
Proof.
  destruct ex_prefix_begins as (c & st & e & c' & st' & e' & (Hc & Hr & He)%ex_reading_spec & (Hc' & Hr' & He')%ex_reading_spec & H0 & H1).
  destruct (system_grants_advance (ctl_r ex_legacy_controller) "kova" (site_cluster old0 : @world reference_server) _ _ c c' st st' "build-uid-1" e
    (ex_prefix_steps 13) ex_prefix_next Hc Hr Hc' Hr' He) as [(e1 & E1 & Ha)|(Hn & _)].
  - eexists _, _, e, e'. split; [exact (ex_prefix_steps 13)|]. split; [exact ex_prefix_next|]. rewrite He' in E1. injection E1 as <-. exact (conj Ha (conj H0 H1)).
  - rewrite Hn in He'. discriminate.
Defined.

(** ** The stale cache: the build of day 4, with the cache of day 2 *)

Definition ex_cached : Build := Eval vm_compute in default ex_submitted (site_build day2).
Definition ex_current : Build := Eval vm_compute in default ex_submitted (site_build day4).
Definition ex_stale_pod : RunnerPod := Eval vm_compute in default (runnerPod ex_genesis_controller (b_cr ex_submitted)) (site_pod day4).
Definition ex_stale_witness : AdmissionGenesisWitness := Eval vm_compute in
  match witnessFromPodMode ex_genesis_controller (b_cr ex_current) (Some ex_stale_pod) false with
  | Ok w => w | Err _ => mkWitnessStatus "" "" "" "" "" "" "" "" "" "" "" end.
Definition ex_reply : ExecReply := Eval vm_compute in
  fst (serve_stale _ (Exec "kova" (kb_runnerPod (b_cr ex_current))
         (TransportCommandForPodUID "GET" StatusPath "" "" (expectedPodUID ex_current))) day4).
Definition ex_state : BuildState := Eval vm_compute in
  match statusReply ex_reply with Ok st => st | Err _ => mkBuildState "" "" "" [] end.

Lemma ex_stale : staleBuild ex_genesis_controller ex_cached ex_current ex_stale_pod ex_stale_witness.
Proof.
  constructor; [discriminate|reflexivity|reflexivity|reflexivity|vm_compute; reflexivity|by left|vm_compute; reflexivity|reflexivity
    |split; reflexivity|split; [reflexivity|discriminate]|reflexivity|reflexivity|split; vm_compute; reflexivity|vm_compute; reflexivity
    |vm_compute; reflexivity|split; vm_compute; [reflexivity|discriminate]].
Qed.

(** A server with this cache, this build, its Pod and the finished runner. *)
Definition serve_fixed (X : Type) (e : ctl X) (s : site) : X * site :=
  match e in ctl X return X * site with
  | ReadBuild false _ _ => (Ok ex_cached, s)
  | ReadBuild true _ _ => (Ok ex_current, s)
  | ReadPod _ _ _ => (Ok ex_stale_pod, s)
  | Exec _ _ _ => (ex_reply, s)
  | e => serve_ctl _ e s
  end.
Definition fixed_run : list (exchange ctl) * step_result * site :=
  fexec serve_fixed (Reconcile ex_genesis_controller "kova" "build-1") day4.

Lemma serve_fixed_answers X (e : ctl X) s : staleAnswers ex_cached ex_current ex_stale_pod ex_state X e (serve_fixed X e s).1.
Proof. destruct e as [| |[]| | | | | | | | | | | | |]; done. Qed.

Lemma stale_poll_reopens_build_witness :
  phase ex_current = PhaseSucceeded /\
  exists b rv, asked (UpdateStatus b) rv ∈ fixed_run.1.1 /\ uid b = uid ex_current /\ kb_rv (b_cr b) = kb_rv (b_cr ex_current) /\
    phase b = PhaseVerifying.
Proof.
  split; [reflexivity|].
  assert (Hdone : completed ex_stale_witness ex_state) by (split; vm_compute; reflexivity).
  exact (stale_poll_reopens_build ex_genesis_controller ex_cached ex_current ex_stale_pod ex_stale_witness ex_state ex_stale Hdone
           "kova" "build-1" _ _ (fexec_runs _ _ _) (fexec_answered serve_fixed _ _ _ serve_fixed_answers)).
Defined.
